(* ===== verification/_CoqProject ===== *)
-Q . S2P
Prelude.v
Prog.v
PyStr.v
Sha256.v
Clock.v
Json.v
PyVal.v
Names.v
Schema.v
Store.v
Claim.v
LeaseOps.v
Effects.v
Lifecycle.v
StoreInv.v
StoreRefine.v
Scenario.v
StoreProps.v
StoreLive.v
Work.v
WorkInv.v
WorkPool.v
WorkProps.v
Controller.v
Diagnostics.v
Snapshot.v
Api.v
ApiProps.v
PoolSql.v
PoolSqlProps.v
PgSession.v
IsoDate.v
Manifest.v
OneShot.v
OneShotSpec.v
OneShotProps.v
PyText.v
PyAst.v
Structured.v
StructuredProps.v
Anchors.v
Repair.v
RepairProps.v
CodeWorkerProps.v
IssueDraft.v
IssuePool.v
IssueSpec.v
IssueScenario.v
Revision.v
IssueProps.v
PoolClient.v
PoolClientSpec.v
PoolService.v
PoolServiceProps.v
PyUrl.v
Portfolio.v
PortfolioProps.v
PyJson.v
PyBytes.v
Bundle.v
BundleProps.v
Artifact.v
ArtifactSpec.v
ArtifactProps.v
GitHub.v
GitHubProps.v
GitHubCas.v
GitHubCasProps.v
RagHandoff.v
RagHandoffProps.v
IssueAdapter.v
IssueAdapterProps.v
RagReceipt.v
RagReceiptProps.v
Research.v
ResearchProps.v
ModelClient.v
LocalWorker.v
LocalWorkerProps.v
Gateway.v
