(* ===== verification/Prelude.v ===== *)
(** * Verification library of the engineering worker pool

    The repository is a control plane for coding workers: tasks bound to an
    issue are queued per repository, leased to one builder and then to an
    independent validator, fenced by lease generations, checkpointed and
    handed to a merge gate.  This library models its Python code under
    [src/app] and proves what makes it correct.

    ** Parts, and the files that model them

    - [app/store.py], class [WorkerPoolStore].  [Schema] has one record per
      table, rows in rowid order, and the constraints, unique indexes and
      triggers as checks of the statements; [Store] the world of an operation
      (database, clock, fresh identifiers), the transaction with its roll-back
      and the registry, lane and admission operations; [Claim] the two claim
      queries with their [ORDER BY] and the grant; [LeaseOps] what a worker
      does under its lease; [Effects] checkpoints, effects and reconciliation;
      [Snapshot] the view of the whole pool.  [Names] has the module-level
      helpers, [Clock] instants with [iso] and [parse_iso].
    - [app/work.py], class [WorkOrchestrator]: [Work].  A request is split in
      the half that reads and the half that commits.
    - [app/reconcile.py]: [Controller].  [app/task_diagnostics.py]:
      [Diagnostics].
    - [app/main.py] with [app/contract.py]: [Api], every endpoint with its
      authorisation, payload constraints, audit record and status.
    - [app/postgres_authority.py]: [PoolSql] is the translation of statements,
      [PgSession] the parameters, connections, transactions, verification and
      initialisation of the schema over a driver.
    - [app/native_one_shot.py]: [Manifest] is its data, [OneShot] the executor
      as a program over its external calls, [OneShotSpec] the protocol of
      those calls.
    - [app/structured_code_worker.py], [app/structured_anchors.py] and
      [app/structured_type_guard_completion.py]: [Structured] (task, guard,
      rendering, report), [Anchors] (edits of a revision), [Repair] (the whole
      repair over the model, git, files and the child process).
    - [app/issue_draft_pr.py], [app/issue_pool_admission.py] and
      [app/issue_publish_coordinator.py]: [IssueDraft] and [IssuePool], from
      the owner's authorisation to a draft pull request; [IssueSpec] is the
      protocol of its calls.
    - [app/native_pool_http.py]: [PoolClient]; [PoolService] puts it in front of
      the handlers of [Api].
    - [app/portfolio_todo.py] and [app/portfolio_bridge.py]: [Portfolio].
    - [app/s3_git_bundle_artifact.py]: [Bundle] is the artifact as bytes,
      [Artifact] the transport over the object store, git and a checkout.
    - [app/github_draft_port.py]: [GitHub], one HTTPS request at a time.
      [app/github_cas_transport.py]: [GitHubCas], the content-addressed store
      on an issue's branch, which takes the place of the object store.
    - [app/issue_rag_handoff.py]: [RagHandoff].  [app/issue_rag_receipt_cas.py]
      and [app/issue_rag_durable_adapter.py]: [RagReceipt].
      [app/issue_native_adapter.py]: [IssueAdapter].
    - [app/issue_rag_research.py], and the checks of a plan and of a selection
      of [app/agent_rag_consumer.py]: [Research], which produces the receipts.
    - [app/structured_revision.py], [app/structured_diagnostics.py] and the
      traced edits of [app/structured_anchors.py]: [Revision].
    - [app/structured_ollama.py], [app/native_structured_ollama.py], the requests
      of [app/local_code_worker.py] and the planner of
      [app/agent_rag_consumer.py]: [ModelClient], the prompts and the clients of
      the local model.
    - [app/local_code_worker.py]: [LocalWorker], the worker for one numeric
      function, from its task to its commit, and its validator.
    - [app/native_gateway_preflight.py] and [app/native_gateway_commands.py]:
      [Gateway], the attestation of a session by the Command Gateway and the
      registry of the fixed commands run through it.
    - The language and its library, as far as the code uses them: [PyStr] and
      [PyText] (text, regular expressions), [Sha256], [PyBytes] (SHA-1,
      base64), [Json], [PyJson] (the decoder), [PyVal] (values of unknown
      shape), [PyAst] (syntax trees), [PyUrl], [IsoDate]
      ([datetime.fromisoformat]), [Prog] (programs over external calls, their
      runs, monitors, the weakest precondition of a program for a monitor, and
      the interpretation of one interface by programs over another).

    The service calls the store, the orchestrator and the controller on one
    database; the orchestrator reads the tasks of the store.  The executor,
    the bridge and the issue pipeline are programs whose surroundings answer
    anything, so their theorems hold for every server; where the repository
    has the surroundings too, they are put together: the client and the bridge
    with the handlers of the service ([PoolServiceProps], [PortfolioProps]), the
    issue pipeline with the GitHub port ([GitHubProps]), the transport of
    artifacts with the store on a branch ([GitHubCas.by_cas]).

    ** Correspondence of state

    A database is [Db.t], one list of records per table; a column of SQL type
    [INTEGER] is a [Z] with the 64-bit bound where it binds parameters, a
    nullable column an [option].  A method of the store is a function
    [M A = World -> res A * World]; a raised exception is [Raise e] with the
    class of the code, and the transaction restores the database.  Stamps are
    the text that the code stores.  A program over external calls is a value
    of [Prog.prog]: the environment answers each call with any value or any
    exception.  A text and a sequence of bytes are both strings of code points
    below 256.

    ** What the theorems show

    - [StoreProps]: every operation of the store is a sequence of steps of the
      transition system of [Lifecycle] ([StoreRefine]) and keeps its invariants
      ([StoreInv]); fencing, atomicity, exclusivity of workers, independence of
      the validator, finality, attempts, quarantine, checkpoints.
    - [StoreLive]: what a claim grants and when it grants nothing, that a lease
      starts its task, the exact outcome of both recoveries, replays of
      checkpoints and admissions, reconciliation and requeue; rendered stamps
      as an order on instants.
    - [WorkProps], with [WorkInv] and [WorkPool]: evidence and the merge gate
      under every interleaving of requests and pool calls.
    - [Controller]: the loop and its status.  [Diagnostics]: the preflight
      agrees with the claim.
    - [ApiProps]: who may change what, that the service is a schedule of the
      pool and the orchestrator, and that answers hide tokens.
    - [PoolSqlProps]: the translated statement is what the driver reads.
      [PgSession]: what a transaction sends to PostgreSQL.
    - [OneShotProps]: the protocol of the one-shot executor, the durability of
      what it hands over, unresolved publications, receipts.
    - [CodeWorkerProps], with [StructuredProps] and [RepairProps]: only modules
      whose cases passed are written, one function changes, the report says
      what happened.
    - [IssueProps]: what precedes each write of the pipeline.
    - [PoolServiceProps]: the client's one request against the service.
    - [PortfolioProps], with its Module [PortfolioSpec]: the bridge
      admits tasks that the service accepts, from readings made twice.
    - [ArtifactProps], with [BundleProps] and [ArtifactSpec]: publication and
      recovery of artifacts, and that what is recovered is what was published.
    - [GitHubProps]: the pipeline over the port refines the pipeline over the
      abstract calls.  [GitHubCasProps]: what a write to the store on a branch requires, what a read returns.
    - [RagHandoffProps]: what a citation is evidence of.  [RagReceiptProps]: a
      stored receipt is recovered for its own task and fence only.
      [IssueAdapterProps]: the model's context and the repeated acceptance.
    - [ResearchProps]: what precedes a receipt, and the lines that the model is
      shown.  [Revision]: what the observer of a revision is told, and that
      exact edits are simultaneous.  [ModelClient]: what an answer of the local
      model is evidence of.
    - [LocalWorkerProps]: an accepted expression has a bounded value; a local
      repair writes, commits and records only what was validated.
    - [Gateway]: what an attested boundary and a governed command are evidence
      of, and what a validator's commands can be.

    A lemma named [..._witness] applies a theorem at a concrete store or run:
    those of [Scenario] and [IssueScenario], or one in the file of the theorem.

    ** Bounds and fuel

    [LocalWorker.evaluate] descends with [DEPTH] (17) levels of fuel, one more
    than the checks leave to a tree ([LocalWorkerProps] shows that it never
    runs out).  Other fuel is only in scans of a text, and it is at least the
    number of characters left: the cursor of [compile_pool_sql] ([PoolSqlProps] shows
    that every step advances, so it never runs out), the substitutions of the
    redaction in [Names] and of [PyUrl], and the decoder of [PyJson], which has
    twice the length and whose round trip with the encoder shows that it is
    enough for what is encoded.  The compression rounds of [Sha256] and
    [PyBytes] are fixed.  The loops of the code run over finite lists and are
    structural.

    ** Not modelled

    Start-up from the environment, the decoding of requests by the web
    framework and logging; the opening of SQLite files and the in-place
    addition of columns to an old database; the owner-only credentials file
    and the command line of the PostgreSQL authority; SQL engines, git, files,
    HTTP and the drivers, which answer arbitrarily where the code is a program
    over calls; the construction of HTTP and S3 clients.  Decoded JSON numbers
    are integers, and texts have code points below 256; a decoded value beyond
    is an error of its own ([PyJson.beyond]).  The syntax trees, the parser and
    the decoder of UTF-8 are those of a class ([PyAst.Language]), as are the
    decoder of JSON bytes ([ModelClient.JsonBytes]), the fields of a syntax
    error ([Revision.SyntaxErrors]) and the words and file data of a package
    outside the repository ([Research.AgentCore]).  The numeric worker is over
    integers: a float in a task is not a number of the model, and evaluating
    one is an error of its own ([LocalWorker.beyond_numbers]).  The limits of
    time of processes and requests are left out.  The remaining modules are
    listed in the manifest with the reason: the research of a pull request
    (its rounds are made by that package), process set-up, owner-only files on
    two platforms, and scripts. *)
From stdpp Require Export base list strings option numbers.
From stdpp Require Import tactics.
From Stdlib Require Export ZArith Lia.


Create HintDb pystr.
Create Rewrite HintDb pystr.
Create HintDb pool.
Declare Scope pool_scope.
Delimit Scope pool_scope with pool.

(** ** Exceptions and results *)

(** The exception classes that the modelled code raises: [app/store.py]
    declares the first two, the next five come from the language and from
    [sqlite3], [HTTPException] from the web framework; [Error] carries the
    name of a class that a module declares for itself. *)
Inductive exn : Type :=
  | NotFoundError (msg : string)
  | ConflictError (msg : string)
  | ValueError (msg : string)
  | IntegrityError (msg : string)
  | OverflowError (msg : string)
  | RuntimeError (msg : string)
  | TypeError (msg : string)
  | HTTPException (status : Z) (detail : string)
  | Error (cls msg : string).

Inductive res (A : Type) : Type :=
  | Ok (a : A)
  | Raise (e : exn).
Arguments Ok {_} _.
Arguments Raise {_} _.

#[export] Instance exn_eq_dec : EqDecision exn.
Proof. solve_decision. Defined.

#[export] Instance res_ret : MRet res := fun A a => Ok a.
#[export] Instance res_bind : MBind res := fun A B f m =>
  match m with Ok a => f a | Raise e => Raise e end.

(** ** The state and error monad of the imperative code *)

Definition M (S A : Type) : Type := S → res A * S.

#[export] Instance M_ret {S} : MRet (M S) := fun A a s => (Ok a, s).
#[export] Instance M_bind {S} : MBind (M S) := fun A B f m s =>
  match m s with
  | (Ok a, s') => f a s'
  | (Raise e, s') => (Raise e, s')
  end.

Section Monad.
Context {S : Type}.

Definition raise {A} (e : exn) : M S A := fun s => (Raise e, s).
(** [if c: raise e] *)
Definition raise_if (c : bool) (e : exn) : M S unit :=
  fun s => (if c then Raise e else Ok tt, s).
Definition lift {A} (r : res A) : M S A := fun s => (r, s).
Definition gets {A} (f : S → A) : M S A := fun s => (Ok (f s), s).
Definition of_option {A} (o : option A) (e : exn) : M S A :=
  match o with Some a => mret a | None => raise e end.
(** [for x in l: body(x)] *)
Fixpoint for_each {A} (l : list A) (body : A → M S unit) : M S unit :=
  match l with
  | [] => mret tt
  | x :: l' => body x ;; for_each l' body
  end.
(** [any(p(x) for x in l)]: stops at the first hit. *)
Fixpoint any_m {A} (l : list A) (p : A → M S bool) : M S bool :=
  match l with
  | [] => mret false
  | x :: l' => b ← p x; if (b : bool) then mret true else any_m l' p
  end.
End Monad.

(** ** Inversion of successful runs *)
Section MonadLemmas.
Context {S : Type}.
Implicit Types s : S.

Lemma bind_ok {A B} (m : M S A) (f : A → M S B) s b s' :
  (x ← m; f x) s = (Ok b, s') →
  ∃ a s1, m s = (Ok a, s1) ∧ f a s1 = (Ok b, s').
Proof. unfold mbind, M_bind. destruct (m s) as [[a|e] s1]; [by eauto | done]. Qed.

Lemma ret_ok {A} (a b : A) s s' : mret (M := M S) a s = (Ok b, s') → a = b ∧ s = s'.
Proof. unfold mret, M_ret. by intros [= -> ->]. Qed.

Lemma raise_ok {A} e (a : A) s s' : raise e s = (Ok a, s') → False.
Proof. done. Qed.

Lemma raise_if_ok c e u s s' : raise_if c e s = (Ok u, s') → c = false ∧ s = s'.
Proof. unfold raise_if. destruct c; [done | by intros [= _ ->]]. Qed.

Lemma lift_ok {A} (r : res A) a s s' : lift r s = (Ok a, s') → r = Ok a ∧ s = s'.
Proof. unfold lift. by intros [= -> ->]. Qed.

Lemma gets_ok {A} (f : S → A) a s s' : gets f s = (Ok a, s') → a = f s ∧ s = s'.
Proof. unfold gets. by intros [= <- ->]. Qed.

Lemma of_option_ok {A} (o : option A) e a s s' :
  of_option o e s = (Ok a, s') → o = Some a ∧ s = s'.
Proof. destruct o; cbn; [by intros [= -> ->] | done]. Qed.

(** Composition of a successful step with the rest of a program. *)
Lemma bind_run {A B} (m : M S A) (f : A → M S B) s a s1 :
  m s = (Ok a, s1) → (x ← m; f x) s = f a s1.
Proof. unfold mbind, M_bind. by intros ->. Qed.

Lemma bind_run2 {A B C} (m : M S A) (n : A → M S B) (f : B → M S C) s b s1 :
  (x ← m; n x) s = (Ok b, s1) → (x ← m; y ← n x; f y) s = f b s1.
Proof. unfold mbind, M_bind. destruct (m s) as [[a|e] s']; [|done]. by intros ->. Qed.

Lemma bind_ret {A B} (a : A) (f : A → M S B) s : (x ← mret a; f x) s = f a s.
Proof. done. Qed.

Lemma bind_pass {B} e (f : unit → M S B) s : (x ← raise_if false e; f x) s = f tt s.
Proof. done. Qed.

Lemma bind_lift {A B} (a : A) (f : A → M S B) s : (x ← lift (Ok a); f x) s = f a s.
Proof. done. Qed.

Lemma bind_raise {A B} (m : M S A) (f : A → M S B) s e s1 :
  m s = (Raise e, s1) → (x ← m; f x) s = (Raise e, s1).
Proof. unfold mbind, M_bind. by intros ->. Qed.
End MonadLemmas.

(** [minv H] turns a successful run of a program into the runs of its parts. *)
Ltac minv_step H :=
  lazymatch type of H with
  | mbind _ _ _ = (Ok _, _) =>
      let a := fresh "a" in let s := fresh "s" in
      let H1 := fresh "Hr" in let H2 := fresh "Hr" in
      apply bind_ok in H as (a & s & H1 & H2); cbv beta in H2;
      minv_step H1; minv_step H2
  | mret _ _ = (Ok _, _) => apply ret_ok in H as [? ?]; subst
  | raise _ _ = (Ok _, _) => destruct (raise_ok _ _ _ _ H)
  | raise_if _ _ _ = (Ok _, _) =>
      let Hc := fresh "Hc" in apply raise_if_ok in H as [Hc ?]; subst
  | lift _ _ = (Ok _, _) => let Hl := fresh "Hl" in apply lift_ok in H as [Hl ?]; subst
  | gets _ _ = (Ok _, _) => apply gets_ok in H as [? ?]; subst
  | of_option _ _ _ = (Ok _, _) =>
      let Ho := fresh "Ho" in apply of_option_ok in H as [Ho ?]; subst
  | _ => idtac
  end.
Tactic Notation "minv" hyp(H) := minv_step H.

(** ** Record update

    [r <| f := v |>] is [r] with field [f] set to [v], for records with an
    [Eta] instance. *)
Class Eta (R : Type) := eta : R → R.
Class Setter {R T : Type} (f : R → T) := setter : T → R → R.
Arguments setter {R T} f {_} v r.

Ltac derive_setter f :=
  let v := fresh "v" in let r := fresh "r" in
  intros v r;
  let e := eval hnf in (eta r) in
  lazymatch eval pattern (f r) in e with
  | ?g _ => let b := eval cbv beta in (g v) in exact b
  end.
#[export] Hint Extern 1 (Setter ?f) => unfold Setter; derive_setter f : typeclass_instances.

Notation "r <| f := v |>" := (setter f v r)
  (at level 12, f at next level, left associativity, format "r  <| f  :=  v |>").

(** ** Lists *)

Section Lists.
Context {A : Type}.
Implicit Types l : list A.

(** The first row that satisfies a test: [fetchone]. *)
Definition first (p : A → bool) (l : list A) : option A := List.find p l.

(** The least element for a total preorder, the earliest among equals:
    [ORDER BY ... LIMIT 1]. *)
Fixpoint least (leb : A → A → bool) (l : list A) : option A :=
  match l with
  | [] => None
  | x :: l' =>
      match least leb l' with
      | None => Some x
      | Some y => if leb x y then Some x else Some y
      end
  end.

(** [ORDER BY] and [sorted]: stable for a total preorder. *)
Fixpoint insert_by (leb : A → A → bool) (x : A) (l : list A) : list A :=
  match l with
  | [] => [x]
  | y :: l' => if leb x y then x :: l else y :: insert_by leb x l'
  end.
Definition sort_by (leb : A → A → bool) (l : list A) : list A := foldr (insert_by leb) [] l.

(** [UPDATE ... WHERE p] *)
Definition update_where (p : A → bool) (f : A → A) (l : list A) : list A :=
  map (fun x => if p x then f x else x) l.

Lemma first_match p l x : first p l = Some x → x ∈ l ∧ p x = true.
Proof.
  intros H. apply find_some in H as [Hin Hp]. split; [by apply list_elem_of_In|done].
Qed.

Lemma first_none p l x : first p l = None → x ∈ l → p x = false.
Proof. intros H Hin. eapply find_none; [done|by apply list_elem_of_In]. Qed.

Lemma first_exists p l x : x ∈ l → p x = true → ∃ y, first p l = Some y.
Proof.
  intros Hin Hp. destruct (first p l) as [y|] eqn:E; [by eauto|].
  by rewrite (first_none _ _ _ E Hin) in Hp.
Qed.

Lemma existsb_elem p l : existsb p l = true ↔ ∃ x, x ∈ l ∧ p x = true.
Proof.
  rewrite existsb_exists. split; intros (x & Hin & Hp); exists x;
    (split; [by apply list_elem_of_In|done]).
Qed.

Lemma existsb_false p l : existsb p l = false ↔ ∀ x, x ∈ l → p x = false.
Proof.
  split.
  - intros H x Hin. destruct (p x) eqn:E; [|done].
    assert (existsb p l = true) by (apply existsb_elem; eauto). congruence.
  - intros H. destruct (existsb p l) eqn:E; [|done].
    apply existsb_elem in E as (x & Hin & Hp). by rewrite H in Hp.
Qed.

Lemma forallb_elem p l : forallb p l = true ↔ ∀ x, x ∈ l → p x = true.
Proof.
  rewrite forallb_forall. split; intros H x Hin; apply H; by apply list_elem_of_In.
Qed.

Lemma least_elem leb l x : least leb l = Some x → x ∈ l.
Proof.
  revert x. induction l as [|y l IH]; cbn; intros x; [done|].
  destruct (least leb l) as [z|]; [|intros [= ->]; constructor].
  destruct (leb y z); intros [= ->]; [constructor|]. constructor. by apply IH.
Qed.

Lemma least_none leb l : least leb l = None → l = [].
Proof. destruct l as [|y l]; cbn; [done|]. destruct (least leb l); [|done]. by destruct (leb y a). Qed.

Lemma least_le leb l x :
  (∀ a b, leb a b = true ∨ leb b a = true) →
  (∀ a b c, leb a b = true → leb b c = true → leb a c = true) →
  least leb l = Some x → ∀ y, y ∈ l → leb x y = true.
Proof.
  intros Htot Htr. revert x. induction l as [|z l IH]; cbn; intros x H y Hy; [inversion Hy|].
  destruct (least leb l) as [m|] eqn:E.
  - destruct (leb z m) eqn:Ez; injection H as ->; apply elem_of_cons in Hy as [->|Hy].
    + by destruct (Htot x x).
    + eapply Htr; [exact Ez|]. by apply IH.
    + destruct (Htot x z); [done|congruence].
    + by apply IH.
  - apply least_none in E as ->. injection H as ->.
    apply elem_of_cons in Hy as [->|Hy]; [by destruct (Htot x x)|inversion Hy].
Qed.

Lemma elem_of_insert_by leb x y l : x ∈ insert_by leb y l ↔ x = y ∨ x ∈ l.
Proof.
  induction l as [|z l IH]; cbn; [by rewrite elem_of_cons|].
  destruct (leb y z); rewrite !elem_of_cons; [done|]. rewrite IH. tauto.
Qed.
Lemma elem_of_sort_by leb x l : x ∈ sort_by leb l ↔ x ∈ l.
Proof.
  induction l as [|y l IH]; cbn; [done|]. by rewrite elem_of_insert_by, elem_of_cons, IH.
Qed.

Lemma elem_of_update p f l x :
  x ∈ update_where p f l ↔ ∃ y, y ∈ l ∧ x = (if p y then f y else y).
Proof. unfold update_where. rewrite list_elem_of_fmap. naive_solver. Qed.

Lemma length_update p f l : length (update_where p f l) = length l.
Proof. apply length_map. Qed.

Lemma update_fields {B} (g : A → B) p f l :
  (∀ x, g (f x) = g x) → g <$> update_where p f l = g <$> l.
Proof.
  intros H. unfold update_where. induction l as [|x l IH]; cbn; [done|].
  rewrite IH. by destruct (p x); rewrite ?H.
Qed.

Lemma update_none p f l : (∀ x, x ∈ l → p x = false) → update_where p f l = l.
Proof.
  intros H. unfold update_where. induction l as [|x l IH]; cbn; [done|].
  rewrite (H x) by constructor. f_equal. apply IH. intros y Hy. apply H. by constructor.
Qed.

Lemma Forall2_update (p : A → bool) (f : A → A) l l' (P Q : A → A → Prop) :
  (∀ x y, x ∈ l → P (if p x then f x else x) y → Q x y) →
  Forall2 P (update_where p f l) l' → Forall2 Q l l'.
Proof.
  revert l'. induction l as [|x l IH]; intros l' H HF; inversion HF; subst; constructor.
  - apply H; [constructor|done].
  - apply IH; [|done]. intros a b Ha. apply H. by constructor.
Qed.

Lemma Forall2_impl_in {B} (P Q : A → B → Prop) l (k : list B) :
  (∀ x y, x ∈ l → P x y → Q x y) → Forall2 P l k → Forall2 Q l k.
Proof.
  intros H HF. revert H. induction HF as [|x y l k Hp HF IH]; intros H; constructor.
  - apply H; [constructor|done].
  - apply IH. intros a b Ha. apply H. by constructor.
Qed.

Lemma NoDup_fmap_filter {B} (g : A → B) (p : A → bool) l : NoDup (g <$> l) → NoDup (g <$> List.filter p l).
Proof.
  induction l as [|x l IH]; cbn; [done|]. inversion_clear 1 as [|? ? Hnot Hn].
  destruct (p x); [|by apply IH]. cbn. constructor; [|by apply IH]. intros Hin. apply Hnot.
  apply list_elem_of_fmap in Hin as (u & -> & Hu). apply list_elem_of_fmap_2.
  apply list_elem_of_In in Hu. apply filter_In in Hu as [Hu _]. by apply list_elem_of_In.
Qed.

Lemma elem_of_where (p : A → bool) l x : x ∈ List.filter p l ↔ x ∈ l ∧ p x = true.
Proof. rewrite !list_elem_of_In. apply filter_In. Qed.

Lemma first_update (p : A → bool) (f : A → A) l :
  (∀ x, p (f x) = p x) → first p (update_where p f l) = f <$> first p l.
Proof.
  intros H. unfold first, update_where. induction l as [|x l IH]; cbn; [done|].
  destruct (p x) eqn:E; cbn; [by rewrite H, E|by rewrite E].
Qed.
End Lists.
