(* ===== verification/Prog.v ===== *)
(** Programs that talk to the outside: the free monad over their external
    calls.

    A call may return or raise, and nothing is assumed of its answer: [runs]
    lets the environment answer anything, so a theorem about every run holds
    for every server, file system and adapter.  [execute] runs a program
    against a concrete environment.  [safe] is the weakest precondition of a
    program for a monitor of its calls, with one rule per construct. *)
From S2P Require Import Prelude.
From stdpp Require Import list.

Section Prog.
Context {op : Type} {answer : op → Type}.

Inductive prog (A : Type) : Type :=
  | Ret (a : A)
  | Throw (e : exn)
  | Do (o : op) (k : res (answer o) → prog A).
Arguments Ret {_} _.
Arguments Throw {_} _.
Arguments Do {_} _ _.

#[export] Instance prog_ret : MRet prog := fun A a => Ret a.
#[export] Instance prog_bind : MBind prog := fun A B f =>
  fix bind (m : prog A) : prog B :=
    match m with
    | Ret a => f a
    | Throw e => Throw e
    | Do o k => Do o (fun r => bind (k r))
    end.

Definition throw {A} (e : exn) : prog A := Throw e.
Definition of_res {A} (r : res A) : prog A :=
  match r with Ok a => Ret a | Raise e => Throw e end.
Definition call (o : op) : prog (answer o) := Do o of_res.

(** The outcome of a program as a value. *)
Fixpoint attempt {A} (m : prog A) : prog (res A) :=
  match m with
  | Ret a => Ret (Ok a)
  | Throw e => Ret (Raise e)
  | Do o k => Do o (fun r => attempt (k r))
  end.
(** [try: m  except Exception as e: h(e)] *)
Definition catch {A} (m : prog A) (h : exn → prog A) : prog A :=
  r ← attempt m; match r with Ok a => mret a | Raise e => h e end.
(** [try: m  except Exception: pass] *)
Definition ignore (m : prog unit) : prog unit := r ← attempt m; mret tt.
(** [try: m  finally: f] *)
Definition finally {A} (m : prog A) (f : prog unit) : prog A :=
  r ← attempt m; f ;; of_res r.

(** ** Runs *)

Definition event : Type := { o : op & res (answer o) }.
Definition ev (o : op) (r : res (answer o)) : event := existT o r.

(** [runs m t x]: with the answers that [t] records, [m] makes exactly the
    calls of [t] and ends with [x]. *)
Inductive runs {A} : prog A → list event → res A → Prop :=
  | runs_ret a : runs (Ret a) [] (Ok a)
  | runs_throw e : runs (Throw e) [] (Raise e)
  | runs_do o k r t x : runs (k r) t x → runs (Do o k) (ev o r :: t) x.

(** An environment with a state of its own. *)
Section Execute.
Context {E : Type} (environment : ∀ o, E → res (answer o) * E).

Fixpoint execute {A} (m : prog A) (e : E) : list event * (res A * E) :=
  match m with
  | Ret a => ([], (Ok a, e))
  | Throw x => ([], (Raise x, e))
  | Do o k =>
      let '(r, e') := environment o e in
      let '(t, out) := execute (k r) e' in (ev o r :: t, out)
  end.

Lemma execute_runs {A} (m : prog A) e : runs m (execute m e).1 (execute m e).2.1.
Proof.
  revert e. induction m as [a|x|o k IH]; intros e; cbn; [constructor..|].
  destruct (environment o e) as [r e']. specialize (IH r e').
  destruct (execute (k r) e') as [t out]. by constructor.
Qed.

(** The outcome only, construct by construct. *)
Definition outcome {A} (m : prog A) (e : E) : res A * E := (execute m e).2.
Lemma outcome_do {A} o (k : res (answer o) → prog A) e :
  outcome (Do o k) e = let '(r, e') := environment o e in outcome (k r) e'.
Proof. unfold outcome. cbn. destruct (environment o e) as [r e']. by destruct (execute (k r) e'). Qed.
Lemma outcome_bind {A B} (m : prog A) (f : A → prog B) e :
  outcome (x ← m; f x) e =
  match outcome m e with (Ok a, e') => outcome (f a) e' | (Raise x, e') => (Raise x, e') end.
Proof.
  revert e. induction m as [a|x|o k IH]; intros e; [done..|].
  change (mbind (fun x => f x) (Do o k)) with (Do o (fun r => mbind (fun x => f x) (k r))). rewrite !outcome_do.
  destruct (environment o e) as [r e']. apply IH.
Qed.
Lemma outcome_of_res {A} (r : res A) e : outcome (of_res r) e = (r, e).
Proof. by destruct r. Qed.
Lemma outcome_call o e : outcome (call o) e = environment o e.
Proof. unfold call. rewrite outcome_do. destruct (environment o e). apply outcome_of_res. Qed.
Lemma outcome_attempt {A} (m : prog A) e : outcome (attempt m) e = (Ok (outcome m e).1, (outcome m e).2).
Proof.
  revert e. induction m as [a|x|o k IH]; intros e; [done..|]. cbn [attempt]. rewrite !outcome_do.
  destruct (environment o e) as [r e']. apply IH.
Qed.
Lemma outcome_catch {A} (m : prog A) h e :
  outcome (catch m h) e = match outcome m e with (Ok a, e') => (Ok a, e') | (Raise x, e') => outcome (h x) e' end.
Proof.
  unfold catch. rewrite outcome_bind, outcome_attempt. by destruct (outcome m e) as [[a|x] e'].
Qed.
End Execute.

(** Every program ends, whatever it is answered. *)
Lemma prog_ends {A} (m : prog A) (answers : ∀ o, res (answer o)) :
  ∃ t x, runs m t x.
Proof.
  induction m as [a|e|o k IH]; [by exists [], (Ok a); constructor|by exists [], (Raise e); constructor|].
  destruct (IH (answers o)) as (t & x & Hr). exists (ev o (answers o) :: t), x. by constructor.
Qed.

(** ** Monitors *)

Section Monitor.
Context {S : Type} (allowed : S → op → bool) (next : S → ∀ o, res (answer o) → S).

(** Every call of the trace is allowed when it is made. *)
Fixpoint accepts (s : S) (t : list event) : bool :=
  match t with
  | [] => true
  | existT o r :: t' => allowed s o && accepts (next s o r) t'
  end.
Fixpoint reached (s : S) (t : list event) : S :=
  match t with
  | [] => s
  | existT o r :: t' => reached (next s o r) t'
  end.

Lemma accepts_app s t u : accepts s (t ++ u) = accepts s t && accepts (reached s t) u.
Proof.
  revert s. induction t as [|[o r] t IH]; intros s; cbn; [done|]. by rewrite IH, andb_assoc.
Qed.
Lemma reached_app s t u : reached s (t ++ u) = reached (reached s t) u.
Proof. revert s. induction t as [|[o r] t IH]; intros s; cbn; [done|]. apply IH. Qed.

(** An invariant of the monitor and of the trace so far. *)
Lemma accepts_ind (I : list event → S → Prop) s :
  I [] s →
  (∀ t o r, I t (reached s t) → allowed (reached s t) o = true → I (t ++ [ev o r]) (next (reached s t) o r)) →
  ∀ t, accepts s t = true → I t (reached s t).
Proof.
  intros H0 HS t. induction t as [|[o r] t IH] using rev_ind; intros Ha; [done|].
  rewrite accepts_app in Ha. apply andb_prop in Ha as [Ha Hb]. cbn in Hb. rewrite andb_true_r in Hb.
  rewrite reached_app. cbn. apply HS; [by apply IH|done].
Qed.

Fixpoint safe {A} (m : prog A) (s : S) (Q : res A → S → Prop) : Prop :=
  match m with
  | Ret a => Q (Ok a) s
  | Throw e => Q (Raise e) s
  | Do o k => allowed s o = true ∧ ∀ r, safe (k r) (next s o r) Q
  end.

Theorem safe_runs {A} (m : prog A) s Q t x :
  safe m s Q → runs m t x → accepts s t = true ∧ Q x (reached s t).
Proof.
  intros Hs Hr. revert s Hs. induction Hr as [a|e|o k r t x Hr IH]; intros s Hs; [done..|].
  destruct Hs as [Ha Hk]. cbn. rewrite Ha. by apply IH.
Qed.

Lemma safe_mono {A} (m : prog A) s (P Q : res A → S → Prop) :
  safe m s P → (∀ x s', P x s' → Q x s') → safe m s Q.
Proof.
  intros Hs HPQ. revert s Hs. induction m as [a|e|o k IH]; cbn; intros s Hs; [by apply HPQ..|].
  destruct Hs as [Ha Hk]. split; [done|]. intros r. apply IH. by apply Hk.
Qed.

Lemma safe_bind {A B} (m : prog A) (f : A → prog B) s Q :
  safe m s (fun r s' => match r with Ok a => safe (f a) s' Q | Raise e => Q (Raise e) s' end) →
  safe (x ← m; f x) s Q.
Proof.
  revert s. induction m as [a|e|o k IH]; intros s; cbn; [done..|].
  intros [Ha Hk]. split; [done|]. intros r. apply IH, Hk.
Qed.

Lemma safe_attempt {A} (m : prog A) s Q :
  safe m s (fun r s' => Q (Ok r) s') → safe (attempt m) s Q.
Proof.
  revert s. induction m as [a|e|o k IH]; intros s; cbn; [done..|].
  intros [Ha Hk]. split; [done|]. intros r. apply IH, Hk.
Qed.

Lemma safe_catch {A} (m : prog A) (h : exn → prog A) s Q :
  safe m s (fun r s' => match r with Ok a => Q (Ok a) s' | Raise e => safe (h e) s' Q end) →
  safe (catch m h) s Q.
Proof.
  intros H. apply safe_bind, safe_attempt. eapply safe_mono; [exact H|].
  by intros [a|e] s'.
Qed.

Lemma safe_ignore (m : prog unit) s (Q : res unit → S → Prop) :
  safe m s (fun _ s' => Q (Ok tt) s') → safe (ignore m) s Q.
Proof.
  intros H. apply safe_bind, safe_attempt. eapply safe_mono; [exact H|]. by intros r s'.
Qed.

Lemma safe_finally {A} (m : prog A) (f : prog unit) s Q :
  safe m s (fun r s' => safe f s' (fun u s'' =>
    match u with Ok _ => Q r s'' | Raise e => Q (Raise e) s'' end)) →
  safe (finally m f) s Q.
Proof.
  intros H. apply safe_bind, safe_attempt. eapply safe_mono; [exact H|].
  intros r s' Hf. apply safe_bind. eapply safe_mono; [exact Hf|].
  intros [[]|e] s'' HQ; [|done]. by destruct r.
Qed.

Lemma safe_of_res {A} (r : res A) s (Q : res A → S → Prop) : Q r s → safe (of_res r) s Q.
Proof. by destruct r. Qed.

Lemma safe_call (o : op) s (Q : res (answer o) → S → Prop) :
  allowed s o = true → (∀ r, Q r (next s o r)) → safe (call o) s Q.
Proof. intros Ha HQ. split; [done|]. intros r. by apply safe_of_res. Qed.

Lemma safe_ret {A} (a : A) s (Q : res A → S → Prop) : Q (Ok a) s → safe (mret a) s Q.
Proof. done. Qed.
Lemma safe_throw {A} e s (Q : res A → S → Prop) : Q (Raise e) s → safe (throw e) s Q.
Proof. done. Qed.

(** Postconditions of normal ends only. *)
Definition on_ok {A} (Φ : A → S → Prop) : res A → S → Prop :=
  fun r s => match r with Ok a => Φ a s | Raise _ => True end.
Lemma ok_mono {A} (m : prog A) s (Φ Ψ : A → S → Prop) :
  safe m s (on_ok Φ) → (∀ a s', Φ a s' → Ψ a s') → safe m s (on_ok Ψ).
Proof. intros H HΦ. eapply safe_mono; [exact H|]. intros [a|e] s'; cbn; [apply HΦ|done]. Qed.
Lemma ok_bind {A B} (m : prog A) (f : A → prog B) s (Φ : B → S → Prop) :
  safe m s (on_ok (fun a s' => safe (f a) s' (on_ok Φ))) → safe (x ← m; f x) s (on_ok Φ).
Proof. intros H. apply safe_bind. eapply safe_mono; [exact H|]. by intros [a|e] s'. Qed.
Lemma ok_of_res {A} (r : res A) s (Φ : A → S → Prop) : (∀ a, r = Ok a → Φ a s) → safe (of_res r) s (on_ok Φ).
Proof. intros H. apply safe_of_res. destruct r; [by apply H|done]. Qed.
Lemma ok_call (o : op) s (Φ : answer o → S → Prop) :
  allowed s o = true → (∀ v, Φ v (next s o (Ok v))) → safe (call o) s (on_ok Φ).
Proof. intros Ha H. apply safe_call; [done|]. intros [v|e]; [apply H|done]. Qed.
Lemma ok_ret {A} (a : A) s (Φ : A → S → Prop) : Φ a s → safe (mret a) s (on_ok Φ).
Proof. done. Qed.
(** A handler that raises again. *)
Lemma ok_catch {A} (m : prog A) (h : exn → exn) s (Φ : A → S → Prop) :
  safe m s (on_ok Φ) → safe (catch m (fun e => throw (h e))) s (on_ok Φ).
Proof. intros H. apply safe_catch. eapply safe_mono; [exact H|]. by intros [a|e] s'. Qed.
Lemma ok_finally {A} (m : prog A) (f : prog unit) s (Φ : A → S → Prop) :
  safe m s (fun r s' => safe f s' (on_ok (fun _ s'' => on_ok Φ r s''))) → safe (finally m f) s (on_ok Φ).
Proof.
  intros H. apply safe_finally. eapply safe_mono; [exact H|]. intros r s' Hf. eapply safe_mono; [exact Hf|].
  by intros [[]|e] s''; cbn.
Qed.
End Monitor.

(** Programs all of whose calls satisfy a test, and what they end with. *)
Definition only (p : op → bool) {A} (m : prog A) (R : res A → Prop) : Prop :=
  safe (fun (_ : unit) o => p o) (fun s _ _ => s) m tt (fun x _ => R x).

Lemma only_weaken (p q : op → bool) {A} (m : prog A) (R : res A → Prop) :
  (∀ o, p o = true → q o = true) → only p m R → only q m R.
Proof.
  intros Hpq. unfold only. induction m as [a|e|o k IH]; cbn; [done..|].
  intros [Ho Hk]. split; [by apply Hpq|]. intros r. by apply IH.
Qed.

(** Such a program leaves a monitor where it is, if its calls do. *)
Lemma safe_only {S} (allowed : S → op → bool) (next : S → ∀ o, res (answer o) → S) (p : op → bool)
    {A} (m : prog A) s (R : res A → Prop) (Q : res A → S → Prop) :
  (∀ o r, p o = true → allowed s o = true ∧ next s o r = s) →
  only p m R → (∀ x, R x → Q x s) → safe allowed next m s Q.
Proof.
  intros Hp Hm HQ. unfold only in Hm. induction m as [a|e|o k IH]; cbn in *; [by apply HQ..|].
  destruct Hm as [Ho Hk]. split; [by apply (Hp o (Raise (RuntimeError "")))|].
  intros r. destruct (Hp o r Ho) as [_ ->]. by apply IH.
Qed.

(** A program whose calls keep a property of the monitor keeps it. *)
Lemma safe_within {S} (allowed : S → op → bool) (next : S → ∀ o, res (answer o) → S) (p : op → bool)
    (I : S → Prop) {A} (m : prog A) s (R : res A → Prop) (Q : res A → S → Prop) :
  (∀ s o r, I s → p o = true → allowed s o = true ∧ I (next s o r)) →
  only p m R → I s → (∀ x s', R x → I s' → Q x s') → safe allowed next m s Q.
Proof.
  intros Hp Hm Hs HQ. unfold only in Hm. revert s Hs.
  induction m as [a|e|o k IH]; cbn in *; intros s Hs; [by apply HQ..|].
  destruct Hm as [Ho Hk]. split; [by apply (Hp s o (Raise (RuntimeError "")))|].
  intros r. destruct (Hp s o r Hs Ho) as [_ Hn]. by apply IH.
Qed.
End Prog.

Arguments prog {op} answer A.
Arguments Ret {op answer A} _.
Arguments Throw {op answer A} _.
Arguments Do {op answer A} _ _.

(** ** Programs whose calls are programs *)

Section Interpret.
Context {op op' : Type} {answer : op → Type} {answer' : op' → Type} (h : ∀ o, prog answer' (answer o)).

(** The calls of one interface carried out over another. *)
Fixpoint interpret {A} (m : prog answer A) : prog answer' A :=
  match m with
  | Ret a => Ret a
  | Throw e => Throw e
  | Do o k => mbind (fun r => interpret (k r)) (attempt (h o))
  end.

(** The first step of a run. *)
Lemma runs_inv {A} (m : prog answer' A) t x :
  runs m t x →
  match m with
  | Ret a => t = [] ∧ x = Ok a
  | Throw e => t = [] ∧ x = Raise e
  | Do o k => ∃ r t', t = ev o r :: t' ∧ runs (k r) t' x
  end.
Proof. intros [a|e|o k r t' x' Hr]; [done..|]. by exists r, t'. Qed.
Lemma runs_bind {A B} (m : prog answer' A) (f : A → prog answer' B) t x :
  runs (mbind f m) t x →
  (∃ e, runs m t (Raise e) ∧ x = Raise e) ∨ (∃ a t1 t2, runs m t1 (Ok a) ∧ runs (f a) t2 x ∧ t = t1 ++ t2).
Proof.
  revert t. induction m as [a|e|o k IH]; intros t Hr.
  - right. exists a, [], t. repeat split; [constructor|done].
  - left. exists e. apply (runs_inv (Throw e)) in Hr as [-> ->]. split; [constructor|done].
  - change (mbind f (Do o k)) with (Do o (fun r => mbind f (k r))) in Hr.
    apply runs_inv in Hr as (r & t' & -> & Hr).
    destruct (IH r t' Hr) as [(e & H1 & ->)|(a & t1 & t2 & H1 & H2 & ->)].
    + left. exists e. split; [by constructor|done].
    + right. exists a, (ev o r :: t1), t2. split; [by constructor|done].
Qed.
Lemma runs_attempt {A} (m : prog answer' A) t r : runs (attempt m) t (Ok r) → runs m t r.
Proof.
  revert t. induction m as [a|e|o k IH]; intros t Hr; apply runs_inv in Hr; cbn in Hr.
  - destruct Hr as [-> [= ->]]. constructor.
  - destruct Hr as [-> [= ->]]. constructor.
  - destruct Hr as (r' & t' & -> & Hr). constructor. by apply IH.
Qed.
Lemma attempt_ends {A} (m : prog answer' A) t e : runs (attempt m) t (Raise e) → False.
Proof.
  revert t. induction m as [a|e'|o k IH]; intros t Hr; apply runs_inv in Hr; cbn in Hr; [by destruct Hr..|].
  destruct Hr as (r' & t' & -> & Hr). by apply (IH r' t').
Qed.

(** A run over the other interface is a run of the program, each of whose
    calls was answered by a run of its implementation. *)
Theorem runs_interpret {A} (m : prog answer A) t x :
  runs (interpret m) t x →
  ∃ (t1 : list (event (answer:=answer))) (parts : list (list (event (answer:=answer')))),
    runs m t1 x ∧ t = concat parts ∧ Forall2 (fun e p => runs (h (projT1 e)) p (projT2 e)) t1 parts.
Proof.
  revert t. induction m as [a|e|o k IH]; intros t Hr; cbn in Hr.
  - apply runs_inv in Hr as [-> ->]. exists [], []. repeat constructor.
  - apply runs_inv in Hr as [-> ->]. exists [], []. repeat constructor.
  - apply runs_bind in Hr as [(e & H & _)|(r & p & t2 & Hp & Hr & ->)]; [by apply attempt_ends in H|].
    apply runs_attempt in Hp. destruct (IH r t2 Hr) as (t1 & parts & H1 & -> & H2).
    exists (ev o r :: t1), (p :: parts). split; [by constructor|]. split; [done|]. by constructor.
Qed.

(** A monitor of the other interface that every implementation respects. *)
Lemma safe_interpret {S} (allowed : S → op' → bool) (next : S → ∀ o, res (answer' o) → S) {A} (m : prog answer A) s :
  (∀ o s, safe allowed next (h o) s (fun _ _ => True)) → safe allowed next (interpret m) s (fun _ _ => True).
Proof.
  intros Hh. revert s. induction m as [a|e|o k IH]; intros s; cbn; [done..|].
  apply safe_bind, safe_attempt. eapply safe_mono; [apply Hh|]. intros r s' _. apply IH.
Qed.
End Interpret.

(** ** Runs that return *)

Lemma ok_inj {A} (x y : A) : Ok x = Ok y → x = y.
Proof. by intros [=]. Qed.
(** The value of a result, if it has one. *)
Definition ok_value {A} (r : res A) : option A := match r with Ok v => Some v | Raise _ => None end.
Section Returning.
Context {op : Type} {answer : op → Type}.
Lemma runs_of_res {A} (r : res A) t x : runs (answer:=answer) (of_res r) t x → t = [] ∧ x = r.
Proof. destruct r; intros H; apply runs_inv in H; exact H. Qed.
Lemma runs_ok_res {A} (r : res A) t v : runs (answer:=answer) (of_res r) t (Ok v) → t = [] ∧ r = Ok v.
Proof. by intros [-> ->]%runs_of_res. Qed.
Lemma runs_ok_bind {A B} (m : prog answer A) (f : A → prog answer B) t v :
  runs (mbind f m) t (Ok v) → ∃ a t1 t2, runs m t1 (Ok a) ∧ runs (f a) t2 (Ok v) ∧ t = t1 ++ t2.
Proof. intros [(e & _ & [=])|(a & t1 & t2 & H1 & H2 & ->)]%runs_bind. by exists a, t1, t2. Qed.
(** A handler that only renames errors adds nothing to a run that returns. *)
Lemma runs_catch_ok {A} (m : prog answer A) (h : exn → exn) t v :
  runs (catch m (fun e => throw (h e))) t (Ok v) → runs m t (Ok v).
Proof.
  intros (r & t1 & t2 & H1%runs_attempt & H2 & ->)%runs_ok_bind.
  destruct r as [a|e]; apply runs_inv in H2 as [-> [= ->]]. by rewrite app_nil_r.
Qed.
End Returning.
