(* ===== verification/PyStr.v ===== *)
(** Python [str] values and the regular expressions of the code base.

    A [str] is a [string] whose characters are the code points below 256
    (one [ascii] per code point).  The methods below are those the code calls;
    on this range they are the ones of the language, except that [casefold]
    and [upper] leave the three letters whose image has no code point below
    256 unchanged.  Literals with accents are written in UTF-8 in this file
    and decoded by [u8].  Regular expressions are a small syntax with the
    derivative matcher of [re.fullmatch], proved equal to the language
    [matches]. *)
From S2P Require Import Prelude.
From Stdlib Require Import Ascii String.
From stdpp Require Import strings.

Local Open Scope N_scope.

(** ** Code points *)

Definition code (c : ascii) : N := N_of_ascii c.
Definition chr (n : N) : ascii := ascii_of_N n.
Definition in_range (lo hi : N) (c : ascii) : bool := (lo <=? code c) && (code c <=? hi).

(** [str.isspace] of one character. *)
Definition is_space (c : ascii) : bool :=
  in_range 9 13 c || in_range 28 32 c || (code c =? 133) || (code c =? 160).

Definition lower_char (c : ascii) : ascii :=
  if in_range 65 90 c || (in_range 192 222 c && negb (code c =? 215))
  then chr (code c + 32) else c.
Definition upper_char (c : ascii) : ascii :=
  if in_range 97 122 c || (in_range 224 254 c && negb (code c =? 247))
  then chr (code c - 32) else c.

(** The class [\w]. *)
Definition is_digit (c : ascii) : bool := in_range 48 57 c.
Definition is_lower (c : ascii) : bool := in_range 97 122 c.
Definition is_upper (c : ascii) : bool := in_range 65 90 c.
Definition is_word (c : ascii) : bool :=
  is_digit c || is_lower c || is_upper c || (code c =? 95) ||
  (code c =? 170) || (code c =? 178) || (code c =? 179) || (code c =? 181) ||
  (code c =? 185) || (code c =? 186) || in_range 188 190 c ||
  (in_range 192 255 c && negb (code c =? 215) && negb (code c =? 247)).

(** ** Methods of [str] *)

Definition chars : string → list ascii := list_ascii_of_string.
Definition str : list ascii → string := string_of_list_ascii.

Fixpoint drop_while {A} (p : A → bool) (l : list A) : list A :=
  match l with
  | [] => []
  | x :: l' => if p x then drop_while p l' else l
  end.

Definition strip (s : string) : string :=
  str (rev (drop_while is_space (rev (drop_while is_space (chars s))))).
Definition rstrip_chars (l : list ascii) : list ascii :=
  rev (drop_while is_space (rev l)).
Definition lower (s : string) : string := str (map lower_char (chars s)).
Definition upper (s : string) : string := str (map upper_char (chars s)).
Definition casefold (s : string) : string := lower s.
Definition len (s : string) : nat := String.length s.
Definition take_str (n : nat) (s : string) : string := str (take n (chars s)).

Fixpoint starts_with (p s : string) : bool :=
  match p, s with
  | EmptyString, _ => true
  | String a p', String b s' => Ascii.eqb a b && starts_with p' s'
  | _, EmptyString => false
  end.
Definition ends_with (p s : string) : bool :=
  starts_with (str (rev (chars p))) (str (rev (chars s))).
(** [p in s] *)
Fixpoint contains (p s : string) : bool :=
  starts_with p s || match s with EmptyString => false | String _ s' => contains p s' end.
Definition remove_prefix (p s : string) : string :=
  if starts_with p s then str (drop (len p) (chars s)) else s.

(** Truth value of a [str] and of an optional [str]. *)
Definition nonempty (s : string) : bool := negb (String.eqb s "").
Definition truthy (o : option string) : bool :=
  match o with Some s => nonempty s | None => false end.

(** The order of code points: [sorted] of strings and the BINARY collation of
    text columns. *)
Fixpoint text_leb (a b : string) : bool :=
  match a, b with
  | EmptyString, _ => true
  | String _ _, EmptyString => false
  | String x a', String y b' =>
      (code x <? code y) || ((code x =? code y) && text_leb a' b')
  end.

(** ** UTF-8 *)

Definition utf8_char (c : ascii) : list ascii :=
  if code c <? 128 then [c]
  else [chr (192 + code c / 64); chr (128 + code c mod 64)].
(** [s.encode()] *)
Definition utf8_encode (s : string) : string := str (flat_map utf8_char (chars s)).

Fixpoint utf8_decode_list (l : list ascii) : list ascii :=
  match l with
  | [] => []
  | a :: l' =>
      if code a <? 128 then a :: utf8_decode_list l'
      else match l' with
           | b :: l'' => chr ((code a - 192) * 64 + (code b - 128)) :: utf8_decode_list l''
           | [] => []
           end
  end.
(** A literal of this development, written in UTF-8. *)
Definition u8 (s : string) : string := str (utf8_decode_list (chars s)).

(** ** Regular expressions *)

Inductive re : Type :=
  | Emp
  | Eps
  | Chr (p : ascii → bool)
  | Cat (r1 r2 : re)
  | Alt (r1 r2 : re)
  | Rep (lo : nat) (hi : option nat) (r : re).

Definition hi_pos (hi : option nat) : bool :=
  match hi with Some O => false | _ => true end.
Definition le_hi (lo : nat) (hi : option nat) : bool :=
  match hi with Some h => (lo <=? h)%nat | None => true end.

Fixpoint nullable (r : re) : bool :=
  match r with
  | Emp => false
  | Eps => true
  | Chr _ => false
  | Cat r1 r2 => nullable r1 && nullable r2
  | Alt r1 r2 => nullable r1 || nullable r2
  | Rep lo hi r1 => (lo =? 0)%nat || (nullable r1 && le_hi lo hi)
  end.

(** Concatenation and union that drop trivial operands. *)
Definition cat (r1 r2 : re) : re :=
  match r1 with Emp => Emp | Eps => r2 | _ => Cat r1 r2 end.
Definition alt (r1 r2 : re) : re :=
  match r1, r2 with Emp, _ => r2 | _, Emp => r1 | _, _ => Alt r1 r2 end.

Fixpoint der (c : ascii) (r : re) : re :=
  match r with
  | Emp => Emp
  | Eps => Emp
  | Chr p => if p c then Eps else Emp
  | Cat r1 r2 =>
      if nullable r1 then alt (cat (der c r1) r2) (der c r2) else cat (der c r1) r2
  | Alt r1 r2 => alt (der c r1) (der c r2)
  | Rep lo hi r1 =>
      if hi_pos hi then cat (der c r1) (Rep (pred lo) (pred <$> hi) r1) else Emp
  end.

Definition fullmatch_list (r : re) (l : list ascii) : bool :=
  nullable (fold_left (fun q c => der c q) l r).
(** [r.fullmatch(s) is not None] *)
Definition fullmatch (r : re) (s : string) : bool := fullmatch_list r (chars s).

(** Notation for the patterns of the code. *)
Definition one_of (s : string) (c : ascii) : bool := existsb (Ascii.eqb c) (chars s).
Definition either (p q : ascii → bool) (c : ascii) : bool := p c || q c.
Definition hex_lower : ascii → bool := either is_digit (in_range 97 102).
Definition hex_any : ascii → bool := either hex_lower (in_range 65 70).
Definition alnum : ascii → bool := either is_digit (either is_lower is_upper).
Fixpoint lit_list (l : list ascii) : re :=
  match l with [] => Eps | c :: l' => Cat (Chr (Ascii.eqb c)) (lit_list l') end.
Definition lit (s : string) : re := lit_list (chars s).
Definition times (n : nat) (p : ascii → bool) : re := Rep n (Some n) (Chr p).

(** ** The language of an expression *)

Inductive matches : re → list ascii → Prop :=
  | m_eps : matches Eps []
  | m_chr p c : p c = true → matches (Chr p) [c]
  | m_cat r1 r2 s1 s2 : matches r1 s1 → matches r2 s2 → matches (Cat r1 r2) (s1 ++ s2)
  | m_alt_l r1 r2 s : matches r1 s → matches (Alt r1 r2) s
  | m_alt_r r1 r2 s : matches r2 s → matches (Alt r1 r2) s
  | m_rep_0 hi r : matches (Rep 0 hi r) []
  | m_rep_S lo hi r s1 s2 :
      hi_pos hi = true → matches r s1 → matches (Rep (pred lo) (pred <$> hi) r) s2 →
      matches (Rep lo hi r) (s1 ++ s2).
#[export] Hint Constructors matches : pystr.

(** ** Lemmas on strings *)

Lemma chars_str l : chars (str l) = l.
Proof. apply list_ascii_of_string_of_list_ascii. Qed.
Lemma str_chars s : str (chars s) = s.
Proof. apply string_of_list_ascii_of_string. Qed.
#[export] Hint Rewrite chars_str str_chars : pystr.

Lemma chars_inj s t : chars s = chars t → s = t.
Proof. intros H. rewrite <- (str_chars s), <- (str_chars t). by rewrite H. Qed.

Lemma str_inj l k : str l = str k → l = k.
Proof. intros H. rewrite <- (chars_str l), <- (chars_str k). by rewrite H. Qed.

Lemma len_chars s : len s = length (chars s).
Proof. unfold len, chars. induction s as [|c s IH]; cbn; [done|by rewrite IH]. Qed.

Lemma chars_app s t : chars (s ++ t)%string = chars s ++ chars t.
Proof. unfold chars. induction s as [|c s IH]; cbn; [done|]. exact (f_equal (cons c) IH). Qed.
#[export] Hint Rewrite chars_app : pystr.

Lemma code_inj a b : code a = code b → a = b.
Proof.
  unfold code. intros H. rewrite <- (ascii_N_embedding a), <- (ascii_N_embedding b).
  by rewrite H.
Qed.

Lemma text_leb_refl a : text_leb a a = true.
Proof. induction a; cbn; [done|]. rewrite N.eqb_refl, IHa. by rewrite orb_true_r. Qed.

Lemma text_leb_total a b : text_leb a b = true ∨ text_leb b a = true.
Proof.
  revert b. induction a as [|x a IH]; intros [|y b]; cbn; auto.
  destruct (N.ltb_spec (code x) (code y)); [by left|].
  destruct (N.ltb_spec (code y) (code x)); [by right|].
  assert (code x = code y) as -> by lia. rewrite N.eqb_refl. cbn. apply IH.
Qed.

Lemma text_leb_antisym a b : text_leb a b = true → text_leb b a = true → a = b.
Proof.
  revert b. induction a as [|x a IH]; intros [|y b]; cbn; try done.
  destruct (N.ltb_spec (code x) (code y)); destruct (N.ltb_spec (code y) (code x)); try lia;
    destruct (N.eqb_spec (code x) (code y)); try lia;
    destruct (N.eqb_spec (code y) (code x)); cbn; try done; try lia.
  intros. f_equal; [by apply code_inj | by apply IH].
Qed.

Lemma text_leb_trans a b c : text_leb a b = true → text_leb b c = true → text_leb a c = true.
Proof.
  revert b c. induction a as [|x a IH]; intros [|y b] [|z c]; cbn; try done.
  intros [H1|[H1 H1']%andb_prop]%orb_prop [H2|[H2 H2']%andb_prop]%orb_prop;
    rewrite ?N.ltb_lt, ?N.eqb_eq in *.
  all: apply orb_true_iff; rewrite ?N.ltb_lt, ?andb_true_iff, ?N.eqb_eq.
  4: { right. split; [congruence|]. eauto. }
  all: left; lia.
Qed.

(** ** The matcher decides the language *)

Lemma nullable_sound r : nullable r = true → matches r [].
Proof.
  induction r as [| |p|r1 IH1 r2 IH2|r1 IH1 r2 IH2|lo hi r IH]; cbn; try done.
  - constructor.
  - intros [H1 H2]%andb_prop. apply (m_cat r1 r2 [] []); auto.
  - intros [H|H]%orb_prop; auto with pystr.
  - intros [->%Nat.eqb_eq|[Hn Hle]%andb_prop]%orb_prop; [constructor|].
    specialize (IH Hn). revert hi Hle. induction lo as [|lo IHlo]; intros hi Hle; [constructor|].
    apply (m_rep_S (S lo) hi r [] []); [|done|].
    + destruct hi as [[|h]|]; done.
    + apply IHlo. destruct hi as [[|h]|]; done.
Qed.

Lemma nullable_complete r : matches r [] → nullable r = true.
Proof.
  remember ([] : list ascii) as s eqn:Hs. induction 1; cbn; try done.
  - apply app_eq_nil in Hs as [-> ->]. rewrite IHmatches1, IHmatches2; done.
  - rewrite IHmatches; [done|auto].
  - rewrite IHmatches; [|auto]. apply orb_true_r.
  - apply app_eq_nil in Hs as [-> ->].
    destruct lo as [|lo]; [done|]. cbn. rewrite IHmatches1 by done. cbn.
    specialize (IHmatches2 eq_refl). cbn in IHmatches2.
    destruct hi as [[|h]|]; cbn in *; try done.
    apply orb_prop in IHmatches2 as [->%Nat.eqb_eq|[_ Hh]%andb_prop]; done.
Qed.

Lemma matches_cat r1 r2 s : matches (cat r1 r2) s ↔ matches (Cat r1 r2) s.
Proof.
  destruct r1; cbn; try done; split.
  - inversion 1.
  - inversion 1 as [| |? ? ? ? H1| | | |]; subst. inversion H1.
  - intros H. apply (m_cat Eps r2 [] s); auto with pystr.
  - inversion 1 as [| |? ? ? ? H1| | | |]; subst. by inversion H1; subst.
Qed.

Lemma matches_alt r1 r2 s : matches (alt r1 r2) s ↔ matches r1 s ∨ matches r2 s.
Proof.
  assert (matches (Alt r1 r2) s ↔ matches r1 s ∨ matches r2 s) as Halt.
  { split; [inversion 1; auto|intros []; auto with pystr]. }
  assert (¬ matches Emp s) by (inversion 1).
  destruct r1; destruct r2; cbn; try done; tauto.
Qed.

(** Over a nullable body an iteration may always be added. *)
Lemma rep_pad lo hi r s :
  matches r [] → matches (Rep lo hi r) s → matches (Rep (S lo) (S <$> hi) r) s.
Proof.
  intros Hn H. apply (m_rep_S (S lo) (S <$> hi) r [] s); [by destruct hi|done|].
  by destruct hi.
Qed.

Lemma rep_lower lo hi r s : matches (Rep (S lo) hi r) s → matches (Rep lo hi r) s.
Proof.
  revert hi s. induction lo as [|lo IH]; intros hi s; inversion 1; subst; cbn in *;
    apply m_rep_S; auto.
Qed.

Lemma rep_cons_inv lo hi r c s :
  matches (Rep lo hi r) (c :: s) →
  hi_pos hi = true ∧ ∃ s1 s2, s = s1 ++ s2 ∧ matches r (c :: s1) ∧
    matches (Rep (pred lo) (pred <$> hi) r) s2.
Proof.
  remember (Rep lo hi r) as q eqn:Hq. remember (c :: s) as t eqn:Ht.
  intros H. revert lo hi s Hq Ht. induction H; intros lo' hi' s' Hq Ht; try done.
  injection Hq as -> -> ->. split; [done|].
  destruct s1 as [|x s1]; cbn in Ht; [|injection Ht as -> <-; eauto].
  destruct (IHmatches2 _ _ _ eq_refl Ht) as (Hp & t1 & t2 & -> & Hr & Hrest).
  exists t1, t2. split; [done|]. split; [done|].
  apply rep_pad in Hrest; [|done].
  replace (pred <$> hi') with (S <$> (pred <$> (pred <$> hi')))
    by (by destruct hi' as [[|[|h]]|]).
  destruct lo' as [|[|lo']]; cbn in *; auto using rep_lower.
Qed.

Lemma der_correct r c s : matches (der c r) s ↔ matches r (c :: s).
Proof.
  revert s. induction r as [| |p|r1 IH1 r2 IH2|r1 IH1 r2 IH2|lo hi r IH]; intros s; cbn.
  - split; inversion 1.
  - split; inversion 1.
  - destruct (p c) eqn:Hp; split; inversion 1; subst; auto with pystr; congruence.
  - assert (matches (cat (der c r1) r2) s ↔
      ∃ s1 s2, s = s1 ++ s2 ∧ matches r1 (c :: s1) ∧ matches r2 s2) as Hcat.
    { rewrite matches_cat. split.
      - inversion 1; subst. rewrite IH1 in *. eauto.
      - intros (s1 & s2 & -> & ? & ?). constructor; [by rewrite IH1|done]. }
    assert (matches (Cat r1 r2) (c :: s) ↔
      matches (cat (der c r1) r2) s ∨ (matches r1 [] ∧ matches r2 (c :: s))) as ->.
    { rewrite Hcat. split.
      - inversion 1 as [| |? ? s1 s2 Ha Hb| | | |]; subst.
        destruct s1 as [|x s1]; simplify_list_eq; [by right|left; eauto].
      - intros [(s1 & s2 & -> & ? & ?)|[? ?]].
        + by apply (m_cat r1 r2 (c :: s1) s2).
        + by apply (m_cat r1 r2 [] (c :: s)). }
    destruct (nullable r1) eqn:Hn.
    + rewrite matches_alt, IH2. apply nullable_sound in Hn. tauto.
    + assert (¬ matches r1 []) by (intros ?%nullable_complete; congruence). tauto.
  - rewrite matches_alt, IH1, IH2. split; [intros []; auto with pystr|inversion 1; auto].
  - destruct (hi_pos hi) eqn:Hp.
    + rewrite matches_cat. split.
      * inversion 1 as [| |? ? s1 s2 Ha Hb| | | |]; subst. rewrite IH in Ha.
        by apply (m_rep_S lo hi r (c :: s1) s2).
      * intros (_ & s1 & s2 & -> & ? & ?)%rep_cons_inv. constructor; [by rewrite IH|done].
    + split; [inversion 1|]. intros [? _]%rep_cons_inv. congruence.
Qed.

Lemma fullmatch_list_correct r l : fullmatch_list r l = true ↔ matches r l.
Proof.
  unfold fullmatch_list. revert r. induction l as [|c l IH]; intros r; cbn.
  - split; [apply nullable_sound|apply nullable_complete].
  - by rewrite IH, der_correct.
Qed.

(** [n] characters of a class. *)
Lemma matches_class lo hi p l :
  matches (Rep lo hi (Chr p)) l ↔
  (lo ≤ length l)%nat ∧ (match hi with Some h => length l ≤ h | None => True end)%nat ∧
  forallb p l = true.
Proof.
  split.
  - remember (Rep lo hi (Chr p)) as q eqn:Hq. intros H. revert lo hi Hq.
    induction H; intros lo' hi' Hq; try done; simplify_eq.
    + destruct hi'; cbn; split_and!; try done; lia.
    + inversion H0; subst. destruct (IHmatches2 _ _ eq_refl) as (? & ? & ?).
      cbn. rewrite H3. destruct hi' as [[|h]|]; cbn in *; try done; repeat split; auto; lia.
  - revert lo hi. induction l as [|c l IH]; cbn; intros lo hi (Hlo & Hhi & Hp).
    + destruct lo; [constructor|lia].
    + apply andb_prop in Hp as [Hc Hl].
      apply (m_rep_S lo hi (Chr p) [c] l); auto with pystr.
      * destruct hi as [[|h]|]; cbn; [lia|done|done].
      * apply IH. repeat split; [lia| |done]. destruct hi; cbn; [lia|done].
Qed.

Lemma fullmatch_times n p s :
  fullmatch (times n p) s = true ↔ len s = n ∧ forallb p (chars s) = true.
Proof.
  unfold fullmatch, times. rewrite fullmatch_list_correct, matches_class, len_chars.
  intuition lia.
Qed.

(** ** [strip] is idempotent *)

Lemma drop_while_idem {A} (p : A → bool) l : drop_while p (drop_while p l) = drop_while p l.
Proof.
  induction l as [|x l IH]; cbn; [done|]. destruct (p x) eqn:E; [done|]. cbn. by rewrite E.
Qed.
Lemma drop_while_snoc {A} (p : A → bool) l x : p x = false → drop_while p (l ++ [x]) = drop_while p l ++ [x].
Proof.
  intros H. induction l as [|y l IH]; cbn; [by rewrite H|]. by destruct (p y).
Qed.
Lemma drop_while_head {A} (p : A → bool) l :
  drop_while p l = [] ∨ ∃ x r, drop_while p l = x :: r ∧ p x = false.
Proof.
  induction l as [|x l IH]; cbn; [by left|]. destruct (p x) eqn:E; [done|]. right. eauto.
Qed.

Lemma strip_idem s : strip (strip s) = strip s.
Proof.
  unfold strip. f_equal. rewrite chars_str. set (l := drop_while is_space (chars s)).
  assert (drop_while is_space (rev (drop_while is_space (rev l))) = rev (drop_while is_space (rev l))) as ->.
  { destruct (drop_while_head is_space (chars s)) as [E|(x & r & E & Hx)]; fold l in E; rewrite E; cbn; [done|].
    rewrite drop_while_snoc by done. rewrite rev_app_distr. cbn. by rewrite Hx. }
  by rewrite rev_involutive, drop_while_idem.
Qed.

Lemma strip_empty s : nonempty (strip s) = true → s ≠ EmptyString.
Proof. by intros H ->. Qed.
