(* ===== verification/Sha256.v ===== *)
(** SHA-256 as [hashlib.sha256(b).hexdigest()] computes it, on 32-bit words
    kept as [Z] with the wrap-around written out, and the shape of its hex
    digest. *)
From S2P Require Import Prelude PyStr.
From Stdlib Require Import Ascii String.
From stdpp Require Import strings.

Local Open Scope Z_scope.

Definition mask32 : Z := 0xffffffff.
Definition add32 (a b : Z) : Z := Z.land (a + b) mask32.
Definition rotr (x n : Z) : Z :=
  Z.land (Z.lor (Z.shiftr x n) (Z.shiftl x (32 - n))) mask32.
Definition not32 (x : Z) : Z := Z.lxor x mask32.

(** The constants of the standard: the first 32 bits of the fractional parts
    of the cube roots of the first 64 primes, and of the square roots of the
    first eight. *)
Definition primes : list Z :=
  List.filter (fun n => forallb (fun d => negb (n mod d =? 0)) (map Z.of_nat (seq 2 (Z.to_nat n - 2))))
    (map Z.of_nat (seq 2 310)).
(** The largest [r] below [2 ^ bits] with [r ^ k <= n]. *)
Fixpoint root (k n : Z) (bits : nat) (r : Z) : Z :=
  match bits with
  | O => r
  | S b => let r' := r + 2 ^ Z.of_nat b in root k n b (if r' ^ k <=? n then r' else r)
  end.
Definition root_fraction (k p : Z) : Z := Z.land (root k (p * 2 ^ (32 * k)) 40 0) mask32.

Definition round_constants : list Z := Eval vm_compute in map (root_fraction 3) primes.

Record hstate := H8 { h0 : Z; h1 : Z; h2 : Z; h3 : Z; h4 : Z; h5 : Z; h6 : Z; h7 : Z }.

Definition initial : hstate := Eval vm_compute in
  let h i := root_fraction 2 (nth i primes 0) in
  H8 (h 0%nat) (h 1%nat) (h 2%nat) (h 3%nat) (h 4%nat) (h 5%nat) (h 6%nat) (h 7%nat).

Definition round (s : hstate) (kw : Z * Z) : hstate :=
  let '(k, w) := kw in
  let s1 := Z.lxor (Z.lxor (rotr (h4 s) 6) (rotr (h4 s) 11)) (rotr (h4 s) 25) in
  let ch := Z.lxor (Z.land (h4 s) (h5 s)) (Z.land (not32 (h4 s)) (h6 s)) in
  let t1 := add32 (add32 (add32 (add32 (h7 s) s1) ch) k) w in
  let s0 := Z.lxor (Z.lxor (rotr (h0 s) 2) (rotr (h0 s) 13)) (rotr (h0 s) 22) in
  let maj := Z.lxor (Z.lxor (Z.land (h0 s) (h1 s)) (Z.land (h0 s) (h2 s))) (Z.land (h1 s) (h2 s)) in
  let t2 := add32 s0 maj in
  H8 (add32 t1 t2) (h0 s) (h1 s) (h2 s) (add32 (h3 s) t1) (h4 s) (h5 s) (h6 s).

Definition small_sigma0 (x : Z) : Z := Z.lxor (Z.lxor (rotr x 7) (rotr x 18)) (Z.shiftr x 3).
Definition small_sigma1 (x : Z) : Z := Z.lxor (Z.lxor (rotr x 17) (rotr x 19)) (Z.shiftr x 10).

(** The message schedule: the window holds the last sixteen words. *)
Fixpoint schedule (n : nat) (window : list Z) : list Z :=
  match n, window with
  | S n', w0 :: rest =>
      let w1 := nth 0 rest 0 in
      let w9 := nth 8 rest 0 in
      let w14 := nth 13 rest 0 in
      let next := add32 (add32 (add32 w0 (small_sigma0 w1)) w9) (small_sigma1 w14) in
      w0 :: schedule n' (rest ++ [next])
  | _, _ => []
  end.

Definition compress (s : hstate) (block : list Z) : hstate :=
  let r := fold_left round (combine round_constants (schedule 64 block)) s in
  H8 (add32 (h0 s) (h0 r)) (add32 (h1 s) (h1 r)) (add32 (h2 s) (h2 r)) (add32 (h3 s) (h3 r))
     (add32 (h4 s) (h4 r)) (add32 (h5 s) (h5 r)) (add32 (h6 s) (h6 r)) (add32 (h7 s) (h7 r)).

Fixpoint words (bytes : list Z) : list Z :=
  match bytes with
  | a :: b :: c :: d :: rest =>
      Z.lor (Z.lor (Z.shiftl a 24) (Z.shiftl b 16)) (Z.lor (Z.shiftl c 8) d) :: words rest
  | _ => []
  end.

Fixpoint blocks (n : nat) (ws : list Z) : list (list Z) :=
  match n with
  | O => []
  | S n' => match ws with [] => [] | _ => take 16 ws :: blocks n' (drop 16 ws) end
  end.

Definition be64 (n : Z) : list Z :=
  map (fun i => Z.land (Z.shiftr n (8 * i)) 255) [7; 6; 5; 4; 3; 2; 1; 0].

Definition pad (bytes : list Z) : list Z :=
  let n := length bytes in
  bytes ++ [0x80] ++ repeat 0 ((119 - n mod 64) mod 64)%nat ++ be64 (8 * Z.of_nat n).

Definition sha256_words (bytes : list Z) : hstate :=
  let ws := words (pad bytes) in
  fold_left compress (blocks (S (length ws)) ws) initial.

Definition hex_digit (n : Z) : ascii :=
  chr (Z.to_N (let d := n mod 16 in if d <? 10 then 48 + d else 87 + d)).
Definition hex32 (w : Z) : list ascii :=
  map (fun i => hex_digit (Z.shiftr w (4 * i))) [7; 6; 5; 4; 3; 2; 1; 0].

(** [hashlib.sha256(data).hexdigest()], the bytes of [data] as characters. *)
Definition sha256_hex (data : string) : string :=
  let h := sha256_words (map (fun c => Z.of_N (code c)) (chars data)) in
  str (hex32 (h0 h) ++ hex32 (h1 h) ++ hex32 (h2 h) ++ hex32 (h3 h) ++
       hex32 (h4 h) ++ hex32 (h5 h) ++ hex32 (h6 h) ++ hex32 (h7 h)).

(** ** Shape of a digest *)

Lemma code_chr n : (n < 256)%N → code (chr n) = n.
Proof. intros H. apply N_ascii_embedding. exact H. Qed.

Lemma hex_digit_class n : hex_lower (hex_digit n) = true.
Proof.
  unfold hex_digit. pose proof (Z.mod_pos_bound n 16 ltac:(lia)) as Hb.
  unfold hex_lower, either, is_digit, in_range.
  destruct (Z.ltb_spec (n mod 16) 10); rewrite code_chr by lia;
    apply orb_true_iff; [left|right]; apply andb_true_iff; rewrite !N.leb_le; lia.
Qed.

Lemma hex32_class w : forallb hex_lower (hex32 w) = true.
Proof. unfold hex32. cbn [map forallb]. by rewrite !hex_digit_class. Qed.

Lemma sha256_hex_len s : len (sha256_hex s) = 64%nat.
Proof. unfold sha256_hex. by rewrite len_chars, chars_str. Qed.

Lemma sha256_hex_class s : forallb hex_lower (chars (sha256_hex s)) = true.
Proof. unfold sha256_hex. by rewrite chars_str, !forallb_app, !hex32_class. Qed.

Lemma sha256_hex_chars s n :
  (n ≤ 64)%nat → length (take n (chars (sha256_hex s))) = n ∧
  forallb hex_lower (take n (chars (sha256_hex s))) = true.
Proof.
  intros Hn. split.
  - rewrite length_take, <- len_chars, sha256_hex_len. lia.
  - pose proof (sha256_hex_class s) as H. rewrite forallb_forall in *.
    intros x Hx. apply H. rewrite <- (take_drop n (chars (sha256_hex s))).
    apply in_or_app. by left.
Qed.
