(* ===== verification/Clock.v ===== *)
(** Instants, [iso] and [parse_iso] of [app/store.py], and the order that SQL
    text comparison gives to the rendered stamps.

    An aware UTC [datetime] is the number of microseconds since 0001-01-01;
    the calendar is the proleptic Gregorian one of the language, computed from
    the ordinal of the day as its library does.  [parse_iso] reads the two
    shapes that [iso] writes; any other text is rejected. *)
From S2P Require Import Prelude PyStr.
From Stdlib Require Import Ascii String.
From stdpp Require Import strings.

Local Open Scope Z_scope.
#[local] Ltac Zify.zify_post_hook ::= Z.to_euclidean_division_equations.

Definition datetime : Type := Z.

Definition MICROS : Z := 1000000.
Definition DAY_MICROS : Z := 86400 * MICROS.
Definition MAX_DAYS : Z := 3652059.
Definition valid_instant (d : datetime) : Prop := 0 ≤ d < MAX_DAYS * DAY_MICROS.

(** [d + timedelta(seconds=n)] *)
Definition add_seconds (d : datetime) (n : Z) : res datetime :=
  let r := d + n * MICROS in
  if (0 <=? r) && (r <? MAX_DAYS * DAY_MICROS) then Ok r
  else Raise (OverflowError "date value out of range").

(** ** The calendar *)

Definition is_leap (y : Z) : bool :=
  (y mod 4 =? 0) && (negb (y mod 100 =? 0) || (y mod 400 =? 0)).
Definition days_before_year (y : Z) : Z :=
  let p := y - 1 in p * 365 + p / 4 - p / 100 + p / 400.
Definition days_before_month (leap : bool) (m : Z) : Z :=
  nth (Z.to_nat m) [0; 0; 31; 59; 90; 120; 151; 181; 212; 243; 273; 304; 334] 0 +
  (if leap && (2 <? m) then 1 else 0).
Definition days_in_month (leap : bool) (m : Z) : Z :=
  if (m =? 2) && leap then 29
  else nth (Z.to_nat m) [0; 31; 28; 31; 30; 31; 30; 31; 31; 30; 31; 30; 31] 0.

(** Month and day from the zero-based day of the year. *)
Definition month_day (leap : bool) (n : Z) : Z * Z :=
  let guess := Z.shiftr (n + 50) 5 in
  let month := if n <? days_before_month leap guess then guess - 1 else guess in
  (month, n - days_before_month leap month + 1).

(** Year, month and day of a zero-based day count. *)
Definition civil (days : Z) : Z * (Z * Z) :=
  let n400 := days / 146097 in let n := days mod 146097 in
  let n100 := n / 36524 in let n := n mod 36524 in
  let n4 := n / 1461 in let n := n mod 1461 in
  let n1 := n / 365 in let n := n mod 365 in
  let year := n400 * 400 + n100 * 100 + n4 * 4 + n1 + 1 in
  if (n1 =? 4) || (n100 =? 4) then (year - 1, (12, 31))
  else (year, month_day ((n1 =? 3) && (negb (n4 =? 24) || (n100 =? 3))) n).

Definition day_number (y m d : Z) : Z :=
  days_before_year y + days_before_month (is_leap y) m + d - 1.

(** ** Rendering *)

Definition digit (n : Z) : ascii := chr (Z.to_N (48 + n)).
(** [n] in decimal on exactly [w] characters. *)
Fixpoint digits (w : nat) (n : Z) : list ascii :=
  match w with
  | O => []
  | S w' => digit (n / 10 ^ Z.of_nat w') :: digits w' (n mod 10 ^ Z.of_nat w')
  end.

Definition fraction (us : Z) : list ascii :=
  if us =? 0 then [] else "."%char :: digits 6 us.

Definition iso_chars (d : datetime) : list ascii :=
  let us := d mod MICROS in
  let secs := (d / MICROS) mod 86400 in
  let '(y, (m, dd)) := civil (d / DAY_MICROS) in
  digits 4 y ++ "-"%char :: digits 2 m ++ "-"%char :: digits 2 dd ++ "T"%char ::
  digits 2 (secs / 3600) ++ ":"%char :: digits 2 (secs / 60 mod 60) ++ ":"%char ::
  digits 2 (secs mod 60) ++ fraction us ++ ["Z"%char].
(** [iso(dt)] *)
Definition iso (d : datetime) : string := str (iso_chars d).

(** ** Parsing *)

Fixpoint read_digits (w : nat) (acc : Z) (l : list ascii) : option (Z * list ascii) :=
  match w with
  | O => Some (acc, l)
  | S w' =>
      match l with
      | c :: l' => if is_digit c then read_digits w' (acc * 10 + (Z.of_N (code c) - 48)) l' else None
      | [] => None
      end
  end.
Definition read_char (c : ascii) (l : list ascii) : option (list ascii) :=
  match l with x :: l' => if Ascii.eqb x c then Some l' else None | [] => None end.

Definition read_fraction (l : list ascii) : option (Z * list ascii) :=
  match l with
  | "."%char :: l' => read_digits 6 0 l'
  | _ => Some (0, l)
  end.

Definition in_fields (y m d hh mi ss : Z) : bool :=
  (1 <=? y) && (1 <=? m) && (m <=? 12) && (1 <=? d) && (d <=? days_in_month (is_leap y) m) &&
  (hh <? 24) && (mi <? 60) && (ss <? 60).

Definition parse_chars (l : list ascii) : option datetime :=
  '(y, l) ← read_digits 4 0 l; l ← read_char "-"%char l;
  '(m, l) ← read_digits 2 0 l; l ← read_char "-"%char l;
  '(d, l) ← read_digits 2 0 l; l ← read_char "T"%char l;
  '(hh, l) ← read_digits 2 0 l; l ← read_char ":"%char l;
  '(mi, l) ← read_digits 2 0 l; l ← read_char ":"%char l;
  '(ss, l) ← read_digits 2 0 l;
  '(us, l) ← read_fraction l;
  l ← read_char "Z"%char l;
  match l with
  | [] => if in_fields y m d hh mi ss
          then Some (day_number y m d * DAY_MICROS + (hh * 3600 + mi * 60 + ss) * MICROS + us)
          else None
  | _ => None
  end.

(** [parse_iso(value)] *)
Definition parse_iso (s : string) : res datetime :=
  match parse_chars (chars s) with
  | Some d => Ok d
  | None => Raise (ValueError "Invalid isoformat string")
  end.

(** ** The calendar is inverted by [day_number] *)

Definition month_day_ok (leap : bool) (n : Z) : bool :=
  let '(m, d) := month_day leap n in
  (1 <=? m) && (m <=? 12) && (1 <=? d) && (d <=? days_in_month leap m) &&
  (days_before_month leap m + d - 1 =? n).

Lemma month_day_check :
  forallb (fun n => month_day_ok false (Z.of_nat n)) (seq 0 365) &&
  forallb (fun n => month_day_ok true (Z.of_nat n)) (seq 0 366) = true.
Proof. vm_compute. reflexivity. Qed.

Lemma month_day_spec leap n :
  (0 ≤ n ∧ n < (if (leap : bool) then 366 else 365)) → month_day_ok leap n = true.
Proof.
  intros Hn. pose proof month_day_check as [Hf Ht]%andb_prop.
  rewrite forallb_forall in Hf, Ht.
  destruct leap; [specialize (Ht (Z.to_nat n))|specialize (Hf (Z.to_nat n))];
    rewrite in_seq, Z2Nat.id in * by lia; auto with lia.
Qed.

Lemma civil_spec days :
  0 ≤ days →
  let '(y, (m, d)) := civil days in
  day_number y m d = days ∧ 1 ≤ y ∧ 1 ≤ m ≤ 12 ∧ 1 ≤ d ≤ days_in_month (is_leap y) m.
Proof.
  intros H0. unfold civil, day_number, days_before_year.
  remember (days / 146097) as n400 eqn:E400. remember (days mod 146097) as r1 eqn:R1.
  remember (r1 / 36524) as n100 eqn:E100. remember (r1 mod 36524) as r2 eqn:R2.
  remember (r2 / 1461) as n4 eqn:E4. remember (r2 mod 1461) as r3 eqn:R3.
  remember (r3 / 365) as n1 eqn:E1. remember (r3 mod 365) as r4 eqn:R4.
  assert (days = 146097 * n400 + r1 ∧ 0 ≤ r1 < 146097 ∧ 0 ≤ n400) as (Hd & Hr1 & Hn400)
    by (clear - H0 E400 R1; lia).
  assert (r1 = 36524 * n100 + r2 ∧ 0 ≤ r2 < 36524) as (Hd1 & Hr2) by (clear - E100 R2; lia).
  assert (r2 = 1461 * n4 + r3 ∧ 0 ≤ r3 < 1461) as (Hd2 & Hr3) by (clear - E4 R3; lia).
  assert (r3 = 365 * n1 + r4 ∧ 0 ≤ r4 < 365) as (Hd3 & Hr4) by (clear - E1 R4; lia).
  clear E400 R1 E100 R2 E4 R3 E1 R4.
  assert (0 ≤ n100 ≤ 4 ∧ 0 ≤ n4 ≤ 24 ∧ 0 ≤ n1 ≤ 4) as (Hn100 & Hn4 & Hn1) by lia.
  destruct ((n1 =? 4) || (n100 =? 4)) eqn:Hlast.
  - assert (is_leap (n400 * 400 + n100 * 100 + n4 * 4 + n1 + 1 - 1) = true) as ->.
    { unfold is_leap. apply orb_prop in Hlast as [H%Z.eqb_eq|H%Z.eqb_eq]; lia. }
    change (days_before_month true 12) with 335. change (days_in_month true 12) with 31.
    apply orb_prop in Hlast as [H%Z.eqb_eq|H%Z.eqb_eq]; lia.
  - apply orb_false_iff in Hlast as [H1%Z.eqb_neq H100%Z.eqb_neq].
    set (leap := (n1 =? 3) && (negb (n4 =? 24) || (n100 =? 3))).
    assert (is_leap (n400 * 400 + n100 * 100 + n4 * 4 + n1 + 1) = leap) as Hl.
    { unfold is_leap, leap. lia. }
    pose proof (month_day_spec leap r4 ltac:(destruct leap; lia)) as Hmd.
    unfold month_day_ok in Hmd. destruct (month_day leap r4) as [m d].
    rewrite Hl, !andb_true_iff, !Z.leb_le, Z.eqb_eq in *. lia.
Qed.

(** ** Fixed-width decimals *)

Lemma digit_code n : 0 ≤ n < 10 → code (digit n) = Z.to_N (48 + n).
Proof. intros. unfold digit, code, chr. apply N_ascii_embedding. lia. Qed.

Lemma digit_is_digit n : 0 ≤ n < 10 → is_digit (digit n) = true.
Proof.
  intros. unfold is_digit, in_range. rewrite digit_code by done.
  apply andb_true_iff. rewrite !N.leb_le. lia.
Qed.

Lemma pow10_S (w : nat) : 10 ^ Z.of_nat (S w) = 10 * 10 ^ Z.of_nat w.
Proof. rewrite Nat2Z.inj_succ. apply Z.pow_succ_r. lia. Qed.

Lemma digits_head (w : nat) n :
  0 ≤ n < 10 ^ Z.of_nat (S w) →
  0 ≤ n / 10 ^ Z.of_nat w < 10 ∧ 0 ≤ n mod 10 ^ Z.of_nat w < 10 ^ Z.of_nat w.
Proof.
  rewrite pow10_S. intros [H0 H]. assert (0 < 10 ^ Z.of_nat w) by (apply Z.pow_pos_nonneg; lia).
  split; [split; [by apply Z.div_pos|apply Z.div_lt_upper_bound; lia]|by apply Z.mod_pos_bound].
Qed.

Lemma read_digits_spec w n acc l :
  0 ≤ n < 10 ^ Z.of_nat w →
  read_digits w acc (digits w n ++ l) = Some (acc * 10 ^ Z.of_nat w + n, l).
Proof.
  revert n acc. induction w as [|w IH]; intros n acc Hn.
  - cbn in *. replace n with 0 by lia. f_equal. f_equal. lia.
  - destruct (digits_head _ _ Hn) as [Hq Hr]. cbn [digits app read_digits].
    rewrite digit_is_digit by done. rewrite digit_code by done. rewrite IH by done.
    rewrite pow10_S. f_equal. f_equal.
    rewrite (Z.div_mod n (10 ^ Z.of_nat w)) at 3 by lia. lia.
Qed.

(** Order of character lists: [text_leb] without the coercion to strings. *)
Fixpoint list_leb (a b : list ascii) : bool :=
  match a, b with
  | [], _ => true
  | _ :: _, [] => false
  | x :: a', y :: b' => (code x <? code y)%N || ((code x =? code y)%N && list_leb a' b')
  end.

Lemma text_leb_list a b : text_leb (str a) (str b) = list_leb a b.
Proof.
  revert b. induction a as [|x a IH]; intros [|y b]; cbn; try done. by rewrite <- IH.
Qed.

Definition precedes (a b : list ascii) : Prop := list_leb a b = true ∧ list_leb b a = false.

Lemma list_leb_app p a b : list_leb (p ++ a) (p ++ b) = list_leb a b.
Proof. induction p as [|x p IH]; cbn; [done|]. by rewrite N.ltb_irrefl, N.eqb_refl. Qed.

Lemma precedes_app p a b : precedes a b → precedes (p ++ a) (p ++ b).
Proof. unfold precedes. by rewrite !list_leb_app. Qed.

Lemma precedes_char x y a b : (code x < code y)%N → precedes (x :: a) (y :: b).
Proof.
  intros H. split; cbn.
  - by rewrite (proj2 (N.ltb_lt _ _) H).
  - apply orb_false_iff. split; [apply N.ltb_ge; lia|].
    apply andb_false_iff. left. apply N.eqb_neq. lia.
Qed.

Lemma digits_precede w n m a b :
  0 ≤ n → n < m → m < 10 ^ Z.of_nat w → precedes (digits w n ++ a) (digits w m ++ b).
Proof.
  revert n m. induction w as [|w IH]; intros n m Hn Hnm Hm; [cbn in *; lia|].
  destruct (digits_head w n) as [Hq Hr]; [lia|].
  destruct (digits_head w m) as [Hq' Hr']; [lia|]. cbn [digits app].
  assert (n / 10 ^ Z.of_nat w ≤ m / 10 ^ Z.of_nat w) as Hle by (apply Z.div_le_mono; lia).
  destruct (Z.eq_dec (n / 10 ^ Z.of_nat w) (m / 10 ^ Z.of_nat w)) as [E|E].
  - rewrite E. apply (precedes_app [_]). apply IH; [lia| |lia].
    rewrite (Z.div_mod n (10 ^ Z.of_nat w)), (Z.div_mod m (10 ^ Z.of_nat w)), E in Hnm by lia.
    lia.
  - apply precedes_char. rewrite !digit_code by done. lia.
Qed.

(** A stamp as separators, widths and values, and the order of two stamps that
    differ in a field. *)
Definition field : Type := list ascii * nat * Z.
Definition fields (fs : list field) : list ascii :=
  flat_map (fun '(sep, w, n) => sep ++ digits w n) fs.
Definition in_width (f : field) : Prop := let '(_, w, n) := f in 0 ≤ n < 10 ^ Z.of_nat w.

Inductive lex_lt : list field → list field → Prop :=
  | lex_here sep w n m fs gs : n < m → lex_lt ((sep, w, n) :: fs) ((sep, w, m) :: gs)
  | lex_there f fs gs : lex_lt fs gs → lex_lt (f :: fs) (f :: gs).

Lemma fields_precede fs gs a b :
  lex_lt fs gs → Forall in_width fs → Forall in_width gs →
  precedes (fields fs ++ a) (fields gs ++ b).
Proof.
  induction 1 as [sep w n m fs gs Hlt|[[sep w] n] fs gs Hlt IH]; intros Hf Hg;
    apply Forall_cons in Hf as [Hf Hfs]; apply Forall_cons in Hg as [Hg Hgs];
    unfold in_width in *; cbn [fields flat_map]; rewrite <- !app_assoc.
  - apply precedes_app. apply digits_precede; lia.
  - by apply precedes_app, precedes_app, IH.
Qed.

(** ** Order of the calendar *)

Ltac months m :=
  assert (m = 1 ∨ m = 2 ∨ m = 3 ∨ m = 4 ∨ m = 5 ∨ m = 6 ∨ m = 7 ∨ m = 8 ∨ m = 9 ∨
          m = 10 ∨ m = 11 ∨ m = 12) as Hmonths by lia;
  destruct_or! Hmonths; subst m.

Lemma month_end leap m m' :
  1 ≤ m → m < m' → m' ≤ 12 → days_before_month leap m + days_in_month leap m ≤ days_before_month leap m'.
Proof.
  intros H1 H2 H3. months m; months m'; (lia || (clear; destruct leap; vm_compute; discriminate)).
Qed.

Lemma month_bounds leap m :
  1 ≤ m ≤ 12 →
  0 ≤ days_before_month leap m ∧ 1 ≤ days_in_month leap m ≤ 31 ∧
  days_before_month leap m + days_in_month leap m ≤ (if (leap : bool) then 366 else 365).
Proof. intros. months m; clear; destruct leap; vm_compute; split_and!; discriminate. Qed.

Lemma year_end y y' :
  1 ≤ y → y < y' →
  days_before_year y + (if is_leap y then 366 else 365) ≤ days_before_year y'.
Proof.
  intros H1 H2.
  assert (days_before_year y + (if is_leap y then 366 else 365) = days_before_year (y + 1)) as ->.
  { unfold days_before_year. destruct (is_leap y) eqn:E; unfold is_leap in E; lia. }
  unfold days_before_year. lia.
Qed.

Lemma day_bounds y m d :
  1 ≤ m ≤ 12 → 1 ≤ d ≤ days_in_month (is_leap y) m →
  days_before_year y ≤ day_number y m d < days_before_year y + (if is_leap y then 366 else 365).
Proof. intros Hm Hd. pose proof (month_bounds (is_leap y) m Hm). unfold day_number. lia. Qed.

(** Later days have lexicographically later dates. *)
Lemma civil_mono n n' :
  0 ≤ n < n' →
  let '(y, (m, d)) := civil n in let '(y', (m', d')) := civil n' in
  y < y' ∨ (y = y' ∧ (m < m' ∨ (m = m' ∧ d < d'))).
Proof.
  intros Hn. pose proof (civil_spec n ltac:(lia)) as H. pose proof (civil_spec n' ltac:(lia)) as H'.
  destruct (civil n) as [y [m d]], (civil n') as [y' [m' d']].
  destruct H as (E & Hy & Hm & Hd), H' as (E' & Hy' & Hm' & Hd').
  pose proof (day_bounds y m d Hm Hd). pose proof (day_bounds y' m' d' Hm' Hd').
  destruct (Z.lt_trichotomy y y') as [?|[<-|Hlt]]; [by left| |].
  - right. split; [done|]. unfold day_number in *.
    destruct (Z.lt_trichotomy m m') as [?|[<-|Hlt]]; [by left|right; lia|].
    pose proof (month_end (is_leap y) m' m ltac:(lia) Hlt ltac:(lia)). lia.
  - pose proof (year_end y' y Hy' Hlt). lia.
Qed.

Lemma civil_year_range n : 0 ≤ n < MAX_DAYS → 1 ≤ (civil n).1 < 10000.
Proof.
  intros Hn. pose proof (civil_spec n ltac:(lia)) as H.
  destruct (civil n) as [y [m d]]. destruct H as (E & Hy & Hm & Hd).
  pose proof (day_bounds y m d Hm Hd). split; [done|].
  destruct (Z.lt_ge_cases y 10000) as [|Hge]; [done|exfalso].
  unfold MAX_DAYS, days_before_year in *. lia.
Qed.

(** ** The rendering as fields *)

Definition head_fields (d : datetime) : list field :=
  let secs := (d / MICROS) mod 86400 in
  let '(y, (m, dd)) := civil (d / DAY_MICROS) in
  [([], 4%nat, y); (["-"%char], 2%nat, m); (["-"%char], 2%nat, dd); (["T"%char], 2%nat, secs / 3600);
   ([":"%char], 2%nat, secs / 60 mod 60); ([":"%char], 2%nat, secs mod 60)].

Lemma iso_fields d :
  iso_chars d = fields (head_fields d) ++ fraction (d mod MICROS) ++ ["Z"%char].
Proof.
  unfold iso_chars, head_fields. destruct (civil _) as [y [m dd]].
  cbn [fields flat_map app]. by rewrite <- !app_assoc.
Qed.

Lemma valid_parts d :
  valid_instant d →
  0 ≤ d / DAY_MICROS < MAX_DAYS ∧ 0 ≤ (d / MICROS) mod 86400 < 86400 ∧ 0 ≤ d mod MICROS < MICROS ∧
  d = d / DAY_MICROS * DAY_MICROS + ((d / MICROS) mod 86400) * MICROS + d mod MICROS ∧
  d / MICROS = d / DAY_MICROS * 86400 + (d / MICROS) mod 86400.
Proof. unfold valid_instant, MAX_DAYS, DAY_MICROS, MICROS. intros. lia. Qed.

Lemma head_in_width d : valid_instant d → Forall in_width (head_fields d).
Proof.
  intros Hv. destruct (valid_parts d Hv) as (Hd & Hs & _).
  unfold head_fields. pose proof (civil_year_range _ Hd) as Hy.
  pose proof (civil_spec _ (proj1 Hd)) as Hc.
  destruct (civil _) as [y [m dd]]. destruct Hc as (_ & _ & Hm & Hdd).
  pose proof (month_bounds (is_leap y) m Hm). cbn in Hy.
  repeat constructor; cbn; lia.
Qed.

Lemma head_lex d d' :
  valid_instant d → valid_instant d' → d / MICROS < d' / MICROS →
  lex_lt (head_fields d) (head_fields d').
Proof.
  intros Hv Hv' Hlt.
  destruct (valid_parts d Hv) as (Hd & Hs & _ & _ & E), (valid_parts d' Hv') as (Hd' & Hs' & _ & _ & E').
  rewrite E, E' in Hlt. unfold head_fields. clear E E' Hv Hv'.
  revert Hs Hs' Hd Hd' Hlt.
  generalize ((d / MICROS) mod 86400) ((d' / MICROS) mod 86400) (d / DAY_MICROS) (d' / DAY_MICROS).
  intros s s' q q' Hs Hs' Hq Hq' Hlt.
  destruct (Z.eq_dec q q') as [<-|Hne].
  - destruct (civil _) as [y [m dd]]. do 3 apply lex_there.
    destruct (Z.eq_dec (s / 3600) (s' / 3600)) as [E1|]; [rewrite E1; apply lex_there|apply lex_here; lia].
    destruct (Z.eq_dec (s / 60 mod 60) (s' / 60 mod 60)) as [E2|]; [rewrite E2; apply lex_there|];
      apply lex_here; lia.
  - assert (0 ≤ q < q') as Hqq by lia.
    pose proof (civil_mono q q' Hqq) as Hm.
    destruct (civil q) as [y [m dd]], (civil q') as [y' [m' dd']].
    destruct Hm as [?|[<- [?|[<- ?]]]]; [|apply lex_there|do 2 apply lex_there]; by apply lex_here.
Qed.

(** ** Text order of stamps *)

(** Where a rendered stamp falls in the text order: a stamp on a whole second
    sorts one second later than its instant, because [Z] follows [.]. *)
Definition text_key (d : datetime) : Z :=
  if d mod MICROS =? 0 then d + MICROS else d.

Lemma fraction_precedes us us' :
  0 ≤ us < MICROS → 0 ≤ us' < MICROS →
  (us ≠ 0 ∧ (us' = 0 ∨ us < us')) →
  precedes (fraction us ++ ["Z"%char]) (fraction us' ++ ["Z"%char]).
Proof.
  intros H H' [Hz Hor]. unfold fraction, MICROS in *.
  rewrite (proj2 (Z.eqb_neq us 0) Hz).
  destruct (Z.eqb_spec us' 0) as [->|Hz'].
  - split; reflexivity.
  - apply (precedes_app ["."%char]). apply digits_precede; cbn; lia.
Qed.

Lemma text_key_lt d d' :
  valid_instant d → valid_instant d' → text_key d < text_key d' →
  precedes (iso_chars d) (iso_chars d').
Proof.
  intros Hv Hv' Hlt. rewrite !iso_fields.
  assert (d / MICROS < d' / MICROS ∨ (d / MICROS = d' / MICROS ∧ d mod MICROS ≠ 0 ∧
    (d' mod MICROS = 0 ∨ d mod MICROS < d' mod MICROS))) as [Hs|(Hs & Hus)].
  { unfold text_key, MICROS in *.
    destruct (Z.eqb_spec (d mod 1000000) 0), (Z.eqb_spec (d' mod 1000000) 0); lia. }
  - apply fields_precede; auto using head_lex, head_in_width.
  - assert (head_fields d = head_fields d') as ->.
    { unfold head_fields. rewrite Hs.
      assert (∀ x, x / DAY_MICROS = x / MICROS / 86400) as Hdd.
      { intros x. rewrite Z.div_div by done. done. }
      by rewrite !Hdd, Hs. }
    apply precedes_app. apply fraction_precedes; [apply Z.mod_pos_bound; done..|done].
Qed.

Lemma text_key_inj d d' : text_key d = text_key d' → d = d'.
Proof.
  unfold text_key, MICROS.
  destruct (Z.eqb_spec (d mod 1000000) 0), (Z.eqb_spec (d' mod 1000000) 0); lia.
Qed.

Lemma text_leb_iso d d' :
  valid_instant d → valid_instant d' →
  text_leb (iso d) (iso d') = (text_key d <=? text_key d').
Proof.
  intros Hv Hv'. unfold iso. rewrite text_leb_list.
  destruct (Z.leb_spec (text_key d) (text_key d')) as [Hle|Hlt].
  - destruct (Z.eq_dec (text_key d) (text_key d')) as [->%text_key_inj|].
    + rewrite <- text_leb_list. apply text_leb_refl.
    + apply text_key_lt; auto with lia.
  - apply (text_key_lt d' d); auto.
Qed.

(** ** Reading back a stamp *)

Lemma read_char_same c l : read_char c (c :: l) = Some l.
Proof. cbn. by rewrite Ascii.eqb_refl. Qed.

Lemma read_fraction_spec us :
  0 ≤ us < MICROS → read_fraction (fraction us ++ ["Z"%char]) = Some (us, ["Z"%char]).
Proof.
  intros H. unfold fraction. destruct (Z.eqb_spec us 0) as [->|]; [done|].
  unfold read_fraction. cbn [app]. by rewrite read_digits_spec.
Qed.

Lemma parse_iso_iso d : valid_instant d → parse_iso (iso d) = Ok d.
Proof.
  intros Hv. destruct (valid_parts d Hv) as (Hd & Hs & Hus & E & _).
  pose proof (head_in_width d Hv) as Hw.
  unfold parse_iso, iso. rewrite chars_str.
  enough (parse_chars (iso_chars d) = Some d) as -> by done.
  rewrite iso_fields. unfold head_fields in *.
  pose proof (civil_spec _ (proj1 Hd)) as Hc. revert E Hw Hc Hd Hs Hus.
  generalize (d mod MICROS) ((d / MICROS) mod 86400) (d / DAY_MICROS).
  intros us s q E Hw Hc Hd Hs Hus.
  destruct (civil q) as [y [m dd]]. destruct Hc as (En & Hy & Hm & Hdd).
  rewrite !Forall_cons in Hw. destruct Hw as (W1 & W2 & W3 & W4 & W5 & W6 & _).
  unfold in_width in *. unfold parse_chars. cbn [fields flat_map app].
  repeat (rewrite <- ?app_assoc; cbn [app]; rewrite read_digits_spec by done; cbn [mbind option_bind];
          rewrite ?read_char_same; cbn [mbind option_bind]).
  rewrite read_fraction_spec by done. cbn [mbind option_bind]. rewrite read_char_same.
  cbn [mbind option_bind]. rewrite !Z.mul_0_l, !Z.add_0_l.
  assert (in_fields y m dd (s / 3600) (s / 60 mod 60) (s mod 60) = true) as ->.
  { unfold in_fields. rewrite !andb_true_iff, !Z.leb_le, !Z.ltb_lt. lia. }
  assert (s / 3600 * 3600 + s / 60 mod 60 * 60 + s mod 60 = s) as -> by (clear; lia).
  by rewrite En, E.
Qed.

Lemma add_seconds_valid d n d' :
  add_seconds d n = Ok d' → valid_instant d' ∧ d' = d + n * MICROS.
Proof.
  unfold add_seconds, valid_instant. destruct (_ && _) eqn:H; [|done].
  intros [= <-]. apply andb_prop in H as [?%Z.leb_le ?%Z.ltb_lt]. done.
Qed.

Lemma iso_nonempty d : nonempty (iso d) = true.
Proof. unfold iso, iso_chars. destruct (civil _) as [y [m dd]]. done. Qed.
