(* ===== verification/Json.v ===== *)
(** The values of [json], and [json.dumps] in the two forms the code uses. *)
From S2P Require Import Prelude PyStr.
From Stdlib Require Import Ascii String.
From stdpp Require Import strings pretty.

Local Open Scope Z_scope.

Inductive json : Type :=
  | JNull
  | JBool (b : bool)
  | JInt (n : Z)
  | JStr (s : string)
  | JList (items : list json)
  | JObj (members : list (string * json)).

(** [str(n)] of an integer. *)
Definition int_text (n : Z) : string := pretty n.

Definition quote : ascii := chr 34.
Definition backslash : ascii := chr 92.
Definition hex_lower_digit (n : N) : ascii := chr (if (n <? 10)%N then 48 + n else 87 + n)%N.
(** [\u00xx] *)
Definition unicode_escape (c : ascii) : list ascii :=
  [backslash; "u"%char; "0"%char; "0"%char; hex_lower_digit (code c / 16)%N; hex_lower_digit (code c mod 16)%N].

(** Escape of one character with [ensure_ascii=False]. *)
Definition escape_char (c : ascii) : list ascii :=
  if (code c =? 34)%N then [backslash; quote]
  else if (code c =? 92)%N then [backslash; backslash]
  else if (code c =? 10)%N then [backslash; "n"%char]
  else if (code c =? 13)%N then [backslash; "r"%char]
  else if (code c =? 9)%N then [backslash; "t"%char]
  else if (code c =? 12)%N then [backslash; "f"%char]
  else if (code c =? 8)%N then [backslash; "b"%char]
  else if (code c <? 32)%N then unicode_escape c
  else [c].
(** The same with [ensure_ascii=True]. *)
Definition escape_ascii (c : ascii) : list ascii :=
  if (126 <? code c)%N then unicode_escape c else escape_char c.

(** [json.dumps(v, separators=(',',':'))]; the members of an object in the
    order given. *)
Section Dumps.
Context (escape : ascii → list ascii).

Definition json_string_with (s : string) : list ascii :=
  quote :: flat_map escape (chars s) ++ [quote].

Fixpoint dumps_with (v : json) : list ascii :=
  match v with
  | JNull => chars "null"
  | JBool true => chars "true"
  | JBool false => chars "false"
  | JInt n => chars (int_text n)
  | JStr s => json_string_with s
  | JList items =>
      "["%char ::
      (fix go (l : list json) : list ascii :=
         match l with
         | [] => ["]"%char]
         | [x] => dumps_with x ++ ["]"%char]
         | x :: l' => dumps_with x ++ ","%char :: go l'
         end) items
  | JObj members =>
      "{"%char ::
      (fix go (ms : list (string * json)) : list ascii :=
         match ms with
         | [] => ["}"%char]
         | [(k, x)] => json_string_with k ++ ":"%char :: dumps_with x ++ ["}"%char]
         | (k, x) :: ms' => json_string_with k ++ ":"%char :: dumps_with x ++ ","%char :: go ms'
         end) members
  end.
End Dumps.

(** [ensure_ascii=False] and the default. *)
Definition dumps : json → list ascii := dumps_with escape_char.
Definition dumps_ascii : json → list ascii := dumps_with escape_ascii.

(** [sort_keys=True]: on the members of one object, and on a whole value. *)
Fixpoint insert_key (m : string * json) (ms : list (string * json)) : list (string * json) :=
  match ms with
  | [] => [m]
  | n :: ms' => if text_leb m.1 n.1 then m :: ms else n :: insert_key m ms'
  end.
Definition sort_keys (ms : list (string * json)) : list (string * json) :=
  foldr insert_key [] ms.

Fixpoint sort_all (v : json) : json :=
  match v with
  | JList items => JList (map sort_all items)
  | JObj members => JObj (sort_keys (map (fun m => (m.1, sort_all m.2)) members))
  | _ => v
  end.

(** [bool(v)] *)
Definition truth (v : json) : bool :=
  match v with
  | JNull => false | JBool b => b | JInt n => negb (n =? 0) | JStr s => nonempty s
  | JList items => match items with [] => false | _ => true end
  | JObj members => match members with [] => false | _ => true end
  end.

Definition opt_str (o : option string) : json :=
  match o with Some s => JStr s | None => JNull end.

Example dumps_example :
  str (dumps (JObj (sort_keys [("b", JInt (-3)); ("a", JNull)])%string))
  = str ("{"%char :: quote :: "a"%char :: quote :: chars ":null," ++
         quote :: "b"%char :: quote :: chars ":-3}").
Proof. vm_compute. reflexivity. Qed.
