(* ===== verification/PyVal.v ===== *)
(** Dynamically typed values: what the code does with a decoded JSON value of
    unknown shape.  The numbers are integers; a method of another type than
    the code expects raises as the language does. *)
From S2P Require Import Prelude PyStr Json.
From Stdlib Require Import Ascii String.
From stdpp Require Import strings pretty.

Local Open Scope Z_scope.

#[export] Instance json_inhabited : Inhabited json := populate JNull.

Lemma json_dec (v w : json) : Decision (v = w).
Proof.
  revert v w. fix go 1. intros v w. destruct v as [|b|n|s|l|ms], w as [|b'|n'|s'|l'|ms']; try (right; discriminate).
  - by left.
  - destruct (decide (b = b')) as [->|]; [by left|right; congruence].
  - destruct (decide (n = n')) as [->|]; [by left|right; congruence].
  - destruct (decide (s = s')) as [->|]; [by left|right; congruence].
  - assert (H : Decision (l = l')).
    { revert l'. induction l as [|x l IH]; intros [|y l']; [by left|by right..|].
      destruct (go x y) as [->|]; [|right; congruence]. destruct (IH l') as [->|]; [by left|right; congruence]. }
    destruct H as [->|]; [by left|right; congruence].
  - assert (H : Decision (ms = ms')).
    { revert ms'. induction ms as [|[k x] ms IH]; intros [|[k' y] ms']; [by left|by right..|].
      destruct (decide (k = k')) as [->|]; [|right; congruence].
      destruct (go x y) as [->|]; [|right; congruence]. destruct (IH ms') as [->|]; [by left|right; congruence]. }
    destruct H as [->|]; [by left|right; congruence].
Defined.
#[export] Instance json_eq_dec : EqDecision json := json_dec.

(** ** Objects *)

Definition lookup_key {A} (k : string) (members : list (string * A)) : option A :=
  snd <$> List.find (fun m => String.eqb m.1 k) members.
(** [v.get(k)] and [v.get(k, default)] *)
Definition get_or (k : string) (default : json) (v : json) : res json :=
  match v with
  | JObj members => Ok (match lookup_key k members with Some x => x | None => default end)
  | _ => Raise (Error "AttributeError" "get")
  end.
Definition get (k : string) (v : json) : res json := get_or k JNull v.
(** [v[k]] *)
Definition item (k : string) (v : json) : res json :=
  match v with
  | JObj members =>
      match lookup_key k members with Some x => Ok x | None => Raise (Error "KeyError" k) end
  | _ => Raise (TypeError "indices must be integers or slices, not str")
  end.
Definition keys {A} (members : list (string * A)) : list string := map fst members.
(** [{**v, k: x}] *)
Definition set_key {A} (k : string) (x : A) (members : list (string * A)) : list (string * A) :=
  if existsb (fun m => String.eqb m.1 k) members
  then map (fun m => if String.eqb m.1 k then (m.1, x) else m) members
  else members ++ [(k, x)].

(** Equality of sets of strings. *)
Definition subset (l k : list string) : bool := forallb (fun x => bool_decide (x ∈ k)) l.
Definition same_set (l k : list string) : bool := subset l k && subset k l.
Definition hashable (v : json) : bool := match v with JList _ | JObj _ => false | _ => true end.
Definition unhashable {A} : res A := Raise (TypeError "unhashable type").
(** [set(v) == fields] for a set of names. *)
Definition has_fields (fields : list string) (v : json) : res bool :=
  match v with
  | JObj members => Ok (same_set (keys members) fields)
  | JStr s => Ok (same_set (map (fun c => str [c]) (chars s)) fields)
  | JList items =>
      if negb (forallb hashable items) then unhashable
      else Ok (forallb (fun x => match x with JStr s => bool_decide (s ∈ fields) | _ => false end) items &&
               forallb (fun f => existsb (fun x => match x with JStr s => String.eqb s f | _ => false end) items) fields)
  | _ => Raise (TypeError "object is not iterable")
  end.

(** ** Truth, types and equality *)

(** [a or b] *)
Definition or_else (a b : json) : json := if truth a then a else b.
Definition is_str (v : json) : bool := match v with JStr _ => true | _ => false end.
Definition is_dict (v : json) : bool := match v with JObj _ => true | _ => false end.
Definition is_none (v : json) : bool := match v with JNull => true | _ => false end.
Definition is_true (v : json) : bool := match v with JBool true => true | _ => false end.
(** [type(v) is int and p(v)], [type(v) is str and p(v)] *)
Definition int_that (p : Z → bool) (v : json) : bool := match v with JInt n => p n | _ => false end.
Definition str_that (p : string → bool) (v : json) : bool := match v with JStr s => p s | _ => false end.
Definition is_int : json → bool := int_that (fun _ => true).
(** [type(v) is list and all(type(x) is str for x in v)] *)
Fixpoint strs (l : list json) : option (list string) :=
  match l with
  | [] => Some []
  | JStr s :: l' => cons s <$> strs l'
  | _ => None
  end.

(** [a == b]: a boolean is the integer 0 or 1, the order of members is
    immaterial. *)
Fixpoint py_eqb (a b : json) {struct a} : bool :=
  match a, b with
  | JNull, JNull => true
  | JBool x, JBool y => Bool.eqb x y
  | JBool x, JInt n => n =? Z.b2z x
  | JInt n, JBool x => n =? Z.b2z x
  | JInt n, JInt m => n =? m
  | JStr s, JStr t => String.eqb s t
  | JList l, JList k =>
      (fix go (l k : list json) {struct l} : bool :=
         match l, k with
         | [], [] => true
         | x :: l', y :: k' => py_eqb x y && go l' k'
         | _, _ => false
         end) l k
  | JObj m, JObj n =>
      (length m =? length n)%nat &&
      (fix go (m : list (string * json)) : bool :=
         match m with
         | [] => true
         | (k, x) :: m' => match lookup_key k n with Some y => py_eqb x y | None => false end && go m'
         end) m
  | _, _ => false
  end.
Definition is_text (v : json) (s : string) : bool := py_eqb v (JStr s).

(** [v in {...}] for a set of strings. *)
Definition member_of (l : list string) (v : json) : res bool :=
  if hashable v then Ok (existsb (is_text v) l) else unhashable.

(** ** Conditions that may raise *)

(** [a and b], [a or b], [not a] *)
Definition andr (a b : res bool) : res bool :=
  match a with Ok true => b | _ => a end.
Definition orr (a b : res bool) : res bool :=
  match a with Ok false => b | _ => a end.
(** [p(v.get(k))] *)
Definition field (k : string) (p : json → bool) (v : json) : res bool :=
  x ← get k v; Ok (p x).

(** [bool(r.fullmatch(v))] *)
Definition fullmatch_val (r : re) (v : json) : res bool :=
  match v with
  | JStr s => Ok (fullmatch r s)
  | _ => Raise (TypeError "expected string or bytes-like object")
  end.

Declare Scope py_scope.
Delimit Scope py_scope with py.
Infix "&&&" := andr (at level 40, left associativity) : py_scope.
Infix "|||" := orr (at level 50, left associativity) : py_scope.

(** ** Lemmas *)

Lemma andr_true a b : andr a b = Ok true ↔ a = Ok true ∧ b = Ok true.
Proof. destruct a as [[|]|e]; cbn; naive_solver. Qed.
Lemma res_bind_ok {A B} (r : res A) (f : A → res B) b :
  (x ← r; f x) = Ok b ↔ ∃ a, r = Ok a ∧ f a = Ok b.
Proof. destruct r as [a|e]; cbn; naive_solver. Qed.

Lemma is_text_true v s : is_text v s = true ↔ v = JStr s.
Proof.
  unfold is_text. destruct v; cbn; try (split; [discriminate|congruence]).
  rewrite String.eqb_eq. naive_solver.
Qed.
Lemma is_true_spec v : is_true v = true ↔ v = JBool true.
Proof. destruct v as [|[|]| | | |]; naive_solver. Qed.
Lemma is_none_spec v : is_none v = true ↔ v = JNull.
Proof. destruct v; naive_solver. Qed.

Lemma lookup_set_key {A} k (x : A) members : lookup_key k (set_key k x members) = Some x.
Proof.
  unfold lookup_key, set_key. destruct (existsb _ members) eqn:E.
  - induction members as [|[j y] ms IH]; cbn in *; [done|].
    destruct (String.eqb j k) eqn:Ej; cbn; rewrite Ej; [done|]. by apply IH.
  - induction members as [|[j y] ms IH]; cbn in *; [by rewrite String.eqb_refl|].
    apply orb_false_iff in E as [-> E]. by apply IH.
Qed.

(** The order in which [sort_keys] writes the members changes neither their
    names nor what a name stands for. *)
Lemma keys_insert_key m ms : keys (insert_key m ms) ≡ₚ m.1 :: keys ms.
Proof.
  induction ms as [|n ms IH]; cbn; [done|]. destruct (text_leb _ _); cbn; [done|].
  rewrite IH. apply Permutation_swap.
Qed.
Lemma keys_sort_keys ms : keys (sort_keys ms) ≡ₚ keys ms.
Proof.
  induction ms as [|m ms IH]; [done|]. change (sort_keys (m :: ms)) with (insert_key m (sort_keys ms)).
  by rewrite keys_insert_key, IH.
Qed.

Lemma lookup_insert_key k m ms :
  m.1 ∉ keys ms → lookup_key k (insert_key m ms) = if String.eqb m.1 k then Some m.2 else lookup_key k ms.
Proof.
  unfold lookup_key. induction ms as [|n ms IH]; cbn; intros Hn; [by destruct (String.eqb _ _)|].
  apply not_elem_of_cons in Hn as [Hne Hn].
  destruct (text_leb _ _); cbn; [by destruct (String.eqb m.1 k)|].
  destruct (String.eqb_spec n.1 k) as [<-|]; [|by apply IH].
  by destruct (String.eqb_spec m.1 n.1).
Qed.
Lemma lookup_sort_keys k ms : NoDup (keys ms) → lookup_key k (sort_keys ms) = lookup_key k ms.
Proof.
  induction ms as [|m ms IH]; [done|]. inversion_clear 1 as [|? ? Hn Hnd].
  change (sort_keys (m :: ms)) with (insert_key m (sort_keys ms)).
  rewrite lookup_insert_key, IH by (try done; by rewrite keys_sort_keys). unfold lookup_key. cbn.
  by destruct (String.eqb m.1 k).
Qed.
Lemma lookup_map_values {A B} (f : A → B) k ms :
  lookup_key k (map (fun m => (m.1, f m.2)) ms) = f <$> lookup_key k ms.
Proof.
  unfold lookup_key. induction ms as [|m ms IH]; cbn; [done|]. by destruct (String.eqb m.1 k).
Qed.
Lemma keys_map_values {A B} (f : A → B) ms : keys (map (fun m => (m.1, f m.2)) ms) = keys ms.
Proof. unfold keys. by rewrite map_map. Qed.

(** Reading back a member of a value written with [sort_keys=True]. *)
Lemma get_sort_all k ms v :
  NoDup (keys ms) → lookup_key k ms = Some v → get k (sort_all (JObj ms)) = Ok (sort_all v).
Proof.
  intros Hn Hk. unfold get, get_or. cbn [sort_all].
  rewrite lookup_sort_keys by by rewrite keys_map_values. by rewrite lookup_map_values, Hk.
Qed.
Lemma sort_all_strs l : sort_all (JList (map JStr l)) = JList (map JStr l).
Proof. cbn. f_equal. induction l as [|s l IH]; cbn; [done|]. by rewrite IH. Qed.
Lemma strs_map l : strs (map JStr l) = Some l.
Proof. induction l as [|s l IH]; cbn; [done|]. by rewrite IH. Qed.

Lemma subset_spec l k : subset l k = true ↔ ∀ x, x ∈ l → x ∈ k.
Proof. unfold subset. rewrite forallb_elem. by setoid_rewrite bool_decide_eq_true. Qed.
#[export] Instance same_set_proper : Proper (Permutation ==> Permutation ==> eq) same_set.
Proof.
  intros l l' Hl k k' Hk. apply eq_iff_eq_true. unfold same_set.
  rewrite !andb_true_iff, !subset_spec. by setoid_rewrite Hl; setoid_rewrite Hk.
Qed.
