(* ===== verification/Names.v ===== *)
(** The module-level helpers of [app/store.py]: patterns, redaction,
    identities, branch and workspace names. *)
From S2P Require Import Prelude PyStr Sha256 Json.
From Stdlib Require Import Ascii String.
From stdpp Require Import strings.

Local Open Scope Z_scope.

(** ** Patterns *)

Definition SHA40 : re := times 40 hex_lower.
Definition id_tail : ascii → bool := either alnum (one_of "._:-").
Definition SAFE_ID : re := Cat (Chr alnum) (Rep 0 (Some 127%nat) (Chr id_tail)).
Definition TASK_ID : re := Cat (lit "cwp-") (times 24 hex_lower).
Definition TARGET_BRANCH : re :=
  Cat (Chr alnum) (Rep 0 (Some 199%nat) (Chr (either alnum (one_of "._/-")))).
Definition PROTECTED_TARGET_BRANCHES : list string := ["main"; "master"; "develop"]%string.
Definition SHA256_HEX : re := times 64 hex_lower.

(** ** Redaction *)

(** The longest prefix in a class, and the rest. *)
Fixpoint span (p : ascii → bool) (l : list ascii) : list ascii * list ascii :=
  match l with
  | [] => ([], [])
  | c :: l' => if p c then let '(a, b) := span p l' in (c :: a, b) else ([], l)
  end.
(** A literal without regard to case. *)
Fixpoint prefix_ci (p l : list ascii) : option (list ascii) :=
  match p, l with
  | [], _ => Some l
  | a :: p', b :: l' => if Ascii.eqb a (lower_char b) then prefix_ci p' l' else None
  | _, [] => None
  end.

(** A match at a position: the replacement text, the last consumed character
    and the text that follows. *)
Definition hit : Type := list ascii * ascii * list ascii.

Definition token_char : ascii → bool := either alnum (one_of "._~+/=-").
(** [(?i)\bBearer\s+[A-Za-z0-9._~+/=-]+] *)
Definition match_bearer (l : list ascii) : option hit :=
  match prefix_ci (chars "bearer") l with
  | None => None
  | Some l1 =>
      let '(sp, l2) := span is_space l1 in
      let '(tok, l3) := span token_char l2 in
      match sp, List.rev tok with
      | _ :: _, last :: _ => Some (chars "Bearer [REDACTED]", last, l3)
      | _, _ => None
      end
  end.

Definition secret_names : list (list (list ascii)) :=
  map (map chars)
    [["token"]; ["secret"]; ["password"]; ["passwd"]; ["dsn"];
     ["connectionstring"; "connection_string"; "connection-string"];
     ["apikey"; "api_key"; "api-key"]]%string.
Definition secret_value (c : ascii) : bool := negb (is_space c) && negb (one_of ",;" c).

(** The rest of the pattern after the name: [\s*[:=]\s*[^\s,;]+]. *)
Definition match_assignment (l : list ascii) : option (ascii * list ascii) :=
  match (span is_space l).2 with
  | c :: l1 =>
      if one_of ":=" c then
        let '(v, l2) := span secret_value (span is_space l1).2 in
        match List.rev v with last :: _ => Some (last, l2) | [] => None end
      else None
  | [] => None
  end.
Fixpoint first_some {A B} (f : A → option B) (l : list A) : option B :=
  match l with
  | [] => None
  | x :: l' => match f x with Some y => Some y | None => first_some f l' end
  end.
(** [(?i)\b(token|secret|...)\s*[:=]\s*[^\s,;]+] with replacement
    [\1=[REDACTED]]. *)
Definition match_secret (l : list ascii) : option hit :=
  first_some (fun name =>
    match prefix_ci name l with
    | None => None
    | Some l1 =>
        match match_assignment l1 with
        | Some (last, l2) => Some (take (length name) l ++ chars "=[REDACTED]", last, l2)
        | None => None
        end
    end) (concat secret_names).

(** [pattern.sub] for a pattern that starts at a word boundary and never
    matches the empty text; [prev] is the character before the position and
    [fuel] the number of positions left. *)
Fixpoint sub (m : list ascii → option hit) (fuel : nat) (prev : option ascii) (l : list ascii)
  : list ascii :=
  match fuel, l with
  | S fuel', c :: l' =>
      let boundary := match prev with Some p => negb (is_word p) | None => true end in
      match (if boundary then m l else None) with
      | Some (repl, last, rest) => repl ++ sub m fuel' (Some last) rest
      | None => c :: sub m fuel' (Some c) l'
      end
  | _, _ => []
  end.
Definition sub_all (m : list ascii → option hit) (l : list ascii) : list ascii :=
  sub m (length l) None l.

Definition sanitize (value : string) : string :=
  take_str 1000 (str (sub_all match_secret (sub_all match_bearer (chars value)))).

(** ** Identities *)

Definition sha256_text (s : string) : string := sha256_hex (utf8_encode s).

Definition identity (repository : string) (issue_number : Z) (request_id : string) : string :=
  sha256_text (lower (strip repository) ++ "|" ++ int_text issue_number ++ "|" ++ strip request_id).
Definition task_id (key : string) : string := "cwp-" ++ take_str 24 key.
Definition branch (issue_number : Z) (request_id : string) : string :=
  "codex/issue-" ++ int_text issue_number ++ "-" ++ take_str 10 (sha256_text request_id).
Definition workspace (repository task : string) : string :=
  "worker-" ++ take_str 16 (sha256_text (repository ++ "|" ++ task)).

Definition validate_target_branch (value : string) : res string :=
  let normalized := strip value in
  if negb (nonempty normalized) || negb (fullmatch TARGET_BRANCH normalized)
  then Raise (ValueError (u8 "target_branch inválida"))
  else if bool_decide (casefold normalized ∈ PROTECTED_TARGET_BRANCHES)
  then Raise (ValueError "target_branch protegida")
  else if contains ".." normalized || contains "//" normalized ||
          existsb (fun s => ends_with s normalized) ["/"; "."; ".lock"]%string
  then Raise (ValueError (u8 "target_branch inválida"))
  else Ok normalized.

Definition validate_repository (repository : string) : res string :=
  let normalized := strip repository in
  if negb (contains "/" normalized) || starts_with "/" normalized || ends_with "/" normalized
  then Raise (ValueError (u8 "repository inválido"))
  else Ok normalized.

(** [x or default] for an optional integer, then [int]. *)
Definition or_default (o : option Z) (d : Z) : Z :=
  match o with Some n => if n =? 0 then d else n | None => d end.

#[global] Arguments sha256_text : simpl never.
#[global] Arguments identity : simpl never.
#[global] Arguments task_id : simpl never.
#[global] Arguments branch : simpl never.
#[global] Arguments workspace : simpl never.
#[global] Arguments sanitize : simpl never.
#[global] Arguments validate_target_branch : simpl never.
#[global] Arguments validate_repository : simpl never.
