(* ===== verification/Schema.v ===== *)
(** The SQLite schema of [WorkerPoolStore._init] and [WorkOrchestrator._init]:
    one record per table, the rows in insertion (rowid) order, and the
    constraints, unique indexes and triggers as checks of the statements that
    insert or update a row. *)
From S2P Require Import Prelude PyStr Clock.
From stdpp Require Import strings.
From Stdlib Require Import QArith.

Local Open Scope Z_scope.

(** ** Enumerated columns *)

Inductive TaskState : Type :=
  | queued | leased | running | validating | blocked | completed | failed.
Inductive Role : Type := builder | validator.
Inductive Profile : Type := NORMAL | ESTUDO.
Inductive EffectState : Type := fx_none | fx_pending | fx_confirmed | fx_not_applied | fx_unknown.

#[export] Instance TaskState_eq_dec : EqDecision TaskState.
Proof. solve_decision. Defined.
#[export] Instance Role_eq_dec : EqDecision Role.
Proof. solve_decision. Defined.
#[export] Instance Profile_eq_dec : EqDecision Profile.
Proof. solve_decision. Defined.
#[export] Instance EffectState_eq_dec : EqDecision EffectState.
Proof. solve_decision. Defined.

Definition state_text (s : TaskState) : string :=
  match s with
  | queued => "queued" | leased => "leased" | running => "running" | validating => "validating"
  | blocked => "blocked" | completed => "completed" | failed => "failed"
  end.
Definition STATES : list TaskState := [queued; leased; running; validating; blocked; completed; failed].
Definition ACTIVE : list TaskState := [leased; running; validating].
Definition is_active (s : TaskState) : bool :=
  match s with leased | running | validating => true | _ => false end.

Definition role_text (r : Role) : string :=
  match r with builder => "builder" | validator => "validator" end.
(** [role in ROLES] *)
Definition role_of_text (s : string) : option Role :=
  if bool_decide (s = "builder") then Some builder
  else if bool_decide (s = "validator") then Some validator else None.

Definition profile_text (p : Profile) : string :=
  match p with NORMAL => "NORMAL" | ESTUDO => "ESTUDO" end.
(** [profile in PROFILES] *)
Definition profile_of_text (s : string) : option Profile :=
  if bool_decide (s = "NORMAL") then Some NORMAL
  else if bool_decide (s = "ESTUDO") then Some ESTUDO else None.

Definition effect_text (e : EffectState) : string :=
  match e with
  | fx_none => "none" | fx_pending => "pending" | fx_confirmed => "confirmed"
  | fx_not_applied => "not_applied" | fx_unknown => "unknown"
  end.
(** [effect_state in CHECKPOINT_EFFECT_STATES] *)
Definition effect_of_text (s : string) : option EffectState :=
  if bool_decide (s = "none") then Some fx_none
  else if bool_decide (s = "pending") then Some fx_pending
  else if bool_decide (s = "confirmed") then Some fx_confirmed
  else if bool_decide (s = "not_applied") then Some fx_not_applied
  else if bool_decide (s = "unknown") then Some fx_unknown else None.

(** ** Tables *)

Module Worker.
Record t := mk {
  worker_id : string; host : string; role : Role; profile : Profile; capacity_score : Z;
  controller_version : option string; rules_sha : option string;
  gateway_ok : bool; state_validated : bool; worktree_root : option string;
  registered_at : string; last_heartbeat_at : string;
  cpu_percent : option Q; memory_percent : option Q; correlation_id : string }.
End Worker.

Module Lane.
Record t := mk {
  repository : string; enabled : bool; max_in_flight : Z;
  builder_claim_count : Z; validator_claim_count : Z;
  last_builder_claimed_at : option string; last_validator_claimed_at : option string;
  updated_at : string }.
End Lane.

Module Affinity.
Record t := mk { worker_id : string; repository : string }.
End Affinity.

Module Task.
Record t := mk {
  task_id : string; repository : string; issue_number : Z; request_id : string;
  idempotency_key : string; state : TaskState; priority : Z; branch : string;
  workspace_key : string; base_sha : option string; produced_sha : option string;
  builder_worker_id : option string; validator_worker_id : option string;
  leased_by : option string; lease_token : option string; lease_expires_at : option string;
  lease_generation : Z; attempt_id : option string; fencing_required : bool;
  attempt_count : Z; max_attempts : Z; blocked_reason : option string;
  last_error : option string; correlation_id : string; created_at : string;
  updated_at : string; last_material_progress_at : string; completed_at : option string }.
End Task.

Module Quarantine.
Record t := mk {
  task_id : string; idempotency_key : string; correlation_id : string;
  attempt_count : Z; reason : string; quarantined_at : string }.
End Quarantine.

Module PoolControl.
Record t := mk {
  enabled : bool; enabled_at : option string; enabled_by_correlation_id : option string }.
End PoolControl.

Module Attempt.
Record t := mk {
  attempt_id : string; task_id : string; lease_generation : Z; worker_id : string;
  role : Role; lease_started_at : string; lease_expires_at : string;
  ended_at : option string; end_reason : option string }.
End Attempt.

Module Checkpoint.
Record t := mk {
  task_id : string; checkpoint_id : string; lease_generation : Z; attempt_id : string;
  sequence : Z; stage : string; artifact_kind : option string; artifact_ref : option string;
  artifact_sha256 : option string; next_action : string; effect_id : option string;
  effect_state : EffectState; effect_result_ref : option string; content_digest : string;
  correlation_id : string; created_at : string }.
End Checkpoint.

Module Reconciliation.
Record t := mk {
  task_id : string; effect_id : string; lease_generation : Z; outcome : string;
  readback_ref : string; content_digest : string; correlation_id : string; created_at : string }.
End Reconciliation.

Inductive EvidenceState : Type := ev_pending | ev_verified.
Inductive MergeState : Type := mg_pending | mg_ready | mg_blocked | mg_merged.
#[export] Instance EvidenceState_eq_dec : EqDecision EvidenceState.
Proof. solve_decision. Defined.
#[export] Instance MergeState_eq_dec : EqDecision MergeState.
Proof. solve_decision. Defined.

Module WorkRun.
Record t := mk {
  work_id : string; task_id : string; merge_policy : string;
  evidence_state : EvidenceState; merge_state : MergeState;
  validation_run_id : option string; validation_sha : option string;
  evidence_reference : option string; independent_readback : bool; positive_control : bool;
  negative_control : bool; expected_head_sha : option string; merge_commit_sha : option string;
  merge_reason : option string; correlation_id : string; created_at : string;
  updated_at : string; merged_at : option string }.
End WorkRun.

Record DB := mkDB {
  workers : list Worker.t;
  repository_lanes : list Lane.t;
  worker_repository_affinity : list Affinity.t;
  tasks : list Task.t;
  quarantine : list Quarantine.t;
  pool_control : PoolControl.t;
  task_attempts : list Attempt.t;
  task_checkpoints : list Checkpoint.t;
  effect_reconciliations : list Reconciliation.t;
  work_runs : list WorkRun.t }.

Definition empty_db : DB :=
  mkDB [] [] [] [] [] (PoolControl.mk false None None) [] [] [] [].

#[export] Instance Worker_eta : Eta Worker.t := fun r => Worker.mk
  (Worker.worker_id r) (Worker.host r) (Worker.role r) (Worker.profile r) (Worker.capacity_score r)
  (Worker.controller_version r) (Worker.rules_sha r) (Worker.gateway_ok r) (Worker.state_validated r)
  (Worker.worktree_root r) (Worker.registered_at r) (Worker.last_heartbeat_at r)
  (Worker.cpu_percent r) (Worker.memory_percent r) (Worker.correlation_id r).
#[export] Instance Lane_eta : Eta Lane.t := fun r => Lane.mk
  (Lane.repository r) (Lane.enabled r) (Lane.max_in_flight r) (Lane.builder_claim_count r)
  (Lane.validator_claim_count r) (Lane.last_builder_claimed_at r)
  (Lane.last_validator_claimed_at r) (Lane.updated_at r).
#[export] Instance Task_eta : Eta Task.t := fun r => Task.mk
  (Task.task_id r) (Task.repository r) (Task.issue_number r) (Task.request_id r)
  (Task.idempotency_key r) (Task.state r) (Task.priority r) (Task.branch r)
  (Task.workspace_key r) (Task.base_sha r) (Task.produced_sha r) (Task.builder_worker_id r)
  (Task.validator_worker_id r) (Task.leased_by r) (Task.lease_token r) (Task.lease_expires_at r)
  (Task.lease_generation r) (Task.attempt_id r) (Task.fencing_required r) (Task.attempt_count r)
  (Task.max_attempts r) (Task.blocked_reason r) (Task.last_error r) (Task.correlation_id r)
  (Task.created_at r) (Task.updated_at r) (Task.last_material_progress_at r) (Task.completed_at r).
#[export] Instance Attempt_eta : Eta Attempt.t := fun r => Attempt.mk
  (Attempt.attempt_id r) (Attempt.task_id r) (Attempt.lease_generation r) (Attempt.worker_id r)
  (Attempt.role r) (Attempt.lease_started_at r) (Attempt.lease_expires_at r)
  (Attempt.ended_at r) (Attempt.end_reason r).
#[export] Instance WorkRun_eta : Eta WorkRun.t := fun r => WorkRun.mk
  (WorkRun.work_id r) (WorkRun.task_id r) (WorkRun.merge_policy r) (WorkRun.evidence_state r)
  (WorkRun.merge_state r) (WorkRun.validation_run_id r) (WorkRun.validation_sha r)
  (WorkRun.evidence_reference r) (WorkRun.independent_readback r) (WorkRun.positive_control r)
  (WorkRun.negative_control r) (WorkRun.expected_head_sha r) (WorkRun.merge_commit_sha r)
  (WorkRun.merge_reason r) (WorkRun.correlation_id r) (WorkRun.created_at r)
  (WorkRun.updated_at r) (WorkRun.merged_at r).
#[export] Instance DB_eta : Eta DB := fun r => mkDB
  (workers r) (repository_lanes r) (worker_repository_affinity r) (tasks r) (quarantine r)
  (pool_control r) (task_attempts r) (task_checkpoints r) (effect_reconciliations r) (work_runs r).

(** ** Keys *)

Definition task_is (tid : string) (t : Task.t) : bool := bool_decide (Task.task_id t = tid).
Definition worker_is (wid : string) (w : Worker.t) : bool := bool_decide (Worker.worker_id w = wid).
Definition lane_is (repo : string) (l : Lane.t) : bool := bool_decide (Lane.repository l = repo).
Definition attempt_is (aid : string) (a : Attempt.t) : bool := bool_decide (Attempt.attempt_id a = aid).
Definition work_is (wid : string) (r : WorkRun.t) : bool := bool_decide (WorkRun.work_id r = wid).
Definition checkpoint_is (tid cid : string) (c : Checkpoint.t) : bool :=
  bool_decide (Checkpoint.task_id c = tid) && bool_decide (Checkpoint.checkpoint_id c = cid).
Definition reconciliation_is (tid eid : string) (gen : Z) (r : Reconciliation.t) : bool :=
  bool_decide (Reconciliation.task_id r = tid) && bool_decide (Reconciliation.effect_id r = eid) &&
  (Reconciliation.lease_generation r =? gen).

Definition find_task (db : DB) (tid : string) : option Task.t := first (task_is tid) (tasks db).
Definition find_worker (db : DB) (wid : string) : option Worker.t := first (worker_is wid) (workers db).
Definition find_lane (db : DB) (repo : string) : option Lane.t := first (lane_is repo) (repository_lanes db).
Definition find_work (db : DB) (wid : string) : option WorkRun.t := first (work_is wid) (work_runs db).

(** [state IN ('leased','running','validating')] *)
Definition active (t : Task.t) : bool := is_active (Task.state t).
(** A task leased by [wid] in an active state. *)
Definition holds (wid : string) (t : Task.t) : bool :=
  bool_decide (Task.leased_by t = Some wid) && active t.

(** ** Constraints on [tasks] *)

(** [idx_worker_active] and [idx_workspace_active] between two rows. *)
Definition same_active_worker (t u : Task.t) : bool :=
  active t && active u &&
  match Task.leased_by t with Some w => bool_decide (Task.leased_by u = Some w) | None => false end.
Definition same_active_workspace (t u : Task.t) : bool :=
  active t && active u && bool_decide (Task.repository t = Task.repository u) &&
  bool_decide (Task.workspace_key t = Task.workspace_key u).

Definition index_check (t : Task.t) (others : list Task.t) : res unit :=
  if existsb (same_active_worker t) others
  then Raise (IntegrityError "UNIQUE constraint failed: tasks.leased_by")
  else if existsb (same_active_workspace t) others
  then Raise (IntegrityError "UNIQUE constraint failed: tasks.repository, tasks.workspace_key")
  else Ok tt.

(** Trigger [guard_fenced_task_admission], then the keys and indexes. *)
Definition insert_task (t : Task.t) (db : DB) : res DB :=
  if Task.fencing_required t && negb (PoolControl.enabled (pool_control db))
  then Raise (IntegrityError "fenced_cutover_not_enabled")
  else if existsb (task_is (Task.task_id t)) (tasks db)
  then Raise (IntegrityError "UNIQUE constraint failed: tasks.task_id")
  else if existsb (fun u => bool_decide (Task.idempotency_key u = Task.idempotency_key t)) (tasks db)
  then Raise (IntegrityError "UNIQUE constraint failed: tasks.idempotency_key")
  else index_check t (tasks db) ;; Ok (db <| tasks := tasks db ++ [t] |>).

(** Trigger [guard_fenced_claim] on the row before and after an update. *)
Definition fenced_claim_refused (old new : Task.t) : bool :=
  Task.fencing_required old && bool_decide (Task.leased_by old = None) &&
  bool_decide (is_Some (Task.leased_by new)) &&
  (negb (Task.lease_generation new =? Task.lease_generation old + 1) ||
   bool_decide (Task.attempt_id new = None) ||
   bool_decide (Task.attempt_id new = Some (default ""%string (Task.attempt_id old)))).

(** [UPDATE tasks SET ... WHERE task_id=? AND guard]: the number of rows and
    the new table. *)
Definition update_task (tid : string) (guard : Task.t → bool) (f : Task.t → Task.t) (db : DB)
  : res (Z * DB) :=
  match first (fun t => task_is tid t && guard t) (tasks db) with
  | None => Ok (0, db)
  | Some old =>
      if fenced_claim_refused old (f old)
      then Raise (IntegrityError "fenced_claim_requires_generation_and_attempt")
      else index_check (f old) (filter (fun u => negb (task_is tid u)) (tasks db)) ;;
           Ok (1, db <| tasks := update_where (fun t => task_is tid t && guard t) f (tasks db) |>)
  end.

(** ** Constraints on the other tables *)

Definition insert_attempt (a : Attempt.t) (db : DB) : res DB :=
  if Attempt.lease_generation a <? 1
  then Raise (IntegrityError "CHECK constraint failed: lease_generation>=1")
  else if existsb (attempt_is (Attempt.attempt_id a)) (task_attempts db)
  then Raise (IntegrityError "UNIQUE constraint failed: task_attempts.attempt_id")
  else if existsb (fun b => bool_decide (Attempt.task_id b = Attempt.task_id a) &&
                            (Attempt.lease_generation b =? Attempt.lease_generation a)) (task_attempts db)
  then Raise (IntegrityError "UNIQUE constraint failed: task_attempts.task_id, task_attempts.lease_generation")
  else if negb (existsb (task_is (Attempt.task_id a)) (tasks db))
  then Raise (IntegrityError "FOREIGN KEY constraint failed")
  else Ok (db <| task_attempts := task_attempts db ++ [a] |>).

Definition insert_checkpoint (c : Checkpoint.t) (db : DB) : res DB :=
  if (Checkpoint.lease_generation c <? 1) || (Checkpoint.sequence c <? 1)
  then Raise (IntegrityError "CHECK constraint failed")
  else if existsb (checkpoint_is (Checkpoint.task_id c) (Checkpoint.checkpoint_id c)) (task_checkpoints db)
  then Raise (IntegrityError "UNIQUE constraint failed: task_checkpoints.task_id, task_checkpoints.checkpoint_id")
  else if existsb (fun d => bool_decide (Checkpoint.task_id d = Checkpoint.task_id c) &&
                            (Checkpoint.lease_generation d =? Checkpoint.lease_generation c) &&
                            (Checkpoint.sequence d =? Checkpoint.sequence c)) (task_checkpoints db)
  then Raise (IntegrityError "UNIQUE constraint failed: task_checkpoints.task_id, task_checkpoints.lease_generation, task_checkpoints.sequence")
  else if negb (existsb (task_is (Checkpoint.task_id c)) (tasks db)) ||
          negb (existsb (attempt_is (Checkpoint.attempt_id c)) (task_attempts db))
  then Raise (IntegrityError "FOREIGN KEY constraint failed")
  else Ok (db <| task_checkpoints := task_checkpoints db ++ [c] |>).

Definition insert_reconciliation (r : Reconciliation.t) (db : DB) : res DB :=
  if Reconciliation.lease_generation r <? 1
  then Raise (IntegrityError "CHECK constraint failed: lease_generation>=1")
  else if existsb (reconciliation_is (Reconciliation.task_id r) (Reconciliation.effect_id r)
                     (Reconciliation.lease_generation r)) (effect_reconciliations db)
  then Raise (IntegrityError "UNIQUE constraint failed: effect_reconciliations")
  else if negb (existsb (task_is (Reconciliation.task_id r)) (tasks db))
  then Raise (IntegrityError "FOREIGN KEY constraint failed")
  else Ok (db <| effect_reconciliations := effect_reconciliations db ++ [r] |>).

Definition insert_affinity (a : Affinity.t) (db : DB) : res DB :=
  if existsb (fun b => bool_decide (Affinity.worker_id b = Affinity.worker_id a) &&
                       bool_decide (Affinity.repository b = Affinity.repository a))
       (worker_repository_affinity db)
  then Raise (IntegrityError "UNIQUE constraint failed: worker_repository_affinity")
  else if negb (existsb (worker_is (Affinity.worker_id a)) (workers db))
  then Raise (IntegrityError "FOREIGN KEY constraint failed")
  else Ok (db <| worker_repository_affinity := worker_repository_affinity db ++ [a] |>).

Definition insert_work (r : WorkRun.t) (db : DB) : res DB :=
  if existsb (work_is (WorkRun.work_id r)) (work_runs db)
  then Raise (IntegrityError "UNIQUE constraint failed: work_runs.work_id")
  else if existsb (fun q => bool_decide (WorkRun.task_id q = WorkRun.task_id r)) (work_runs db)
  then Raise (IntegrityError "UNIQUE constraint failed: work_runs.task_id")
  else Ok (db <| work_runs := work_runs db ++ [r] |>).

(** An integer parameter of a statement. *)
Definition db_int (n : Z) : res Z :=
  if (- 2 ^ 63 <=? n) && (n <? 2 ^ 63) then Ok n
  else Raise (OverflowError "Python int too large to convert to SQLite INTEGER").
