(* ===== verification/Store.v ===== *)
(** [WorkerPoolStore] of [app/store.py]: the world an operation runs in, the
    transaction discipline, and every operation of the class, composed from
    the statements of [Schema] the way the code composes them. *)
From S2P Require Import Prelude PyStr Clock Sha256 Json Names Schema.
From Stdlib Require Import Ascii String QArith.
From stdpp Require Import strings.

Local Open Scope Z_scope.

(** ** The world of an operation *)

(** The attributes of a store, and the two sources of values it does not
    control: the readings of its clock and the identifiers of [uuid4]. *)
Class Store := {
  clock : nat → datetime;
  uuid4 : nat → string;
  heartbeat_ttl_seconds : Z;
  default_lease_seconds : Z;
  default_max_attempts : Z;
  progress_stall_seconds : Z;
  expected_rules_sha : option string }.

(** The database, the number of clock readings and of identifiers consumed. *)
Record World := mkWorld { db : DB; ticks : nat; uuids : nat }.
#[export] Instance World_eta : Eta World := fun r => mkWorld (db r) (ticks r) (uuids r).

(** [WorkerPoolStore.__init__]: the checks on the arguments. *)
Definition make_store (clk : nat → datetime) (ids : nat → string)
  (heartbeat_ttl default_lease max_attempts progress_stall : Z) (rules_sha : option string)
  : res Store :=
  if Z.min (Z.min heartbeat_ttl default_lease) (Z.min max_attempts progress_stall) <? 1
  then Raise (ValueError "timeouts e tentativas devem ser positivos")
  else
    let normalized := lower (strip (default ""%string rules_sha)) in
    if nonempty normalized && negb (fullmatch SHA40 normalized)
    then Raise (ValueError (u8 "expected_rules_sha inválido"))
    else Ok {| clock := clk; uuid4 := ids; heartbeat_ttl_seconds := heartbeat_ttl;
               default_lease_seconds := default_lease; default_max_attempts := max_attempts;
               progress_stall_seconds := progress_stall;
               expected_rules_sha := if nonempty normalized then Some normalized else None |}.

Module Lease.
Record t := mk {
  task_id : string; lease_token : string; worker_id : string; role : Role;
  lease_expires_at : string; lease_generation : Z; attempt_id : string }.
End Lease.

Module StallCounts.
Record t := mk { rerouted : Z; blocked : Z; failed : Z }.
End StallCounts.
#[export] Instance StallCounts_eta : Eta StallCounts.t := fun r =>
  StallCounts.mk (StallCounts.rerouted r) (StallCounts.blocked r) (StallCounts.failed r).

Section Store.
Context {self : Store}.

(** [self.clock()] *)
Definition now : M World datetime :=
  fun w => (Ok (clock (ticks w)), w <| ticks := S (ticks w) |>).
(** [uuid.uuid4().hex] *)
Definition uuid4_hex : M World string :=
  fun w => (Ok (uuid4 (uuids w)), w <| uuids := S (uuids w) |>).
(** [iso(self.clock())] *)
Definition now_stamp : M World string := d ← now; mret (iso d).

Definition query {A} (f : DB → A) : M World A := fun w => (Ok (f (db w)), w).
(** A statement that changes the database. *)
Definition exec (f : DB → res DB) : M World unit :=
  fun w => match f (db w) with
           | Ok d => (Ok tt, w <| db := d |>)
           | Raise e => (Raise e, w)
           end.
(** A statement whose [rowcount] is used. *)
Definition exec_count (f : DB → res (Z * DB)) : M World Z :=
  fun w => match f (db w) with
           | Ok (n, d) => (Ok n, w <| db := d |>)
           | Raise e => (Raise e, w)
           end.
(** [with self._tx() as db: body]: commit on success, roll back on any
    exception.  [body] receives the last committed database, which is what a
    second connection opened inside the transaction reads. *)
Definition tx {A} (body : DB → M World A) : M World A :=
  fun w => match body (db w) w with
           | (Ok a, w') => (Ok a, w')
           | (Raise e, w') => (Raise e, w' <| db := db w |>)
           end.

(** [UPDATE tasks SET ... WHERE task_id=?] *)
Definition set_task (tid : string) (f : Task.t → Task.t) : M World unit :=
  exec_count (update_task tid (fun _ => true) f) ;; mret tt.

(** ** Reads *)

Definition not_found : exn := NotFoundError (u8 "registro não encontrado").

Definition get_worker_in (d : DB) (worker_id : string) : res Worker.t :=
  match find_worker d worker_id with Some w => Ok w | None => Raise not_found end.
Definition get_worker (worker_id : string) : M World Worker.t :=
  r ← query (fun d => get_worker_in d worker_id); lift r.
Definition get_task (tid : string) : M World Task.t :=
  o ← query (fun d => find_task d tid); of_option o not_found.
Definition fenced_cutover_status : M World PoolControl.t := query pool_control.
Definition get_repository (repository : string) : M World Lane.t :=
  repo ← lift (validate_repository repository);
  o ← query (fun d => find_lane d repo); of_option o not_found.

Definition ascending (l : list string) : list string := sort_by text_leb l.

Definition worker_affinities (worker_id : string) : M World (list string) :=
  get_worker worker_id ;;
  query (fun d => ascending (map Affinity.repository
    (List.filter (fun a => bool_decide (Affinity.worker_id a = worker_id)) (worker_repository_affinity d)))).
Definition list_quarantine : M World (list Quarantine.t) := query (fun d => rev (quarantine d)).

(** ** Control, workers and lanes *)

Definition enable_fenced_cutover (correlation_id : string)
  (legacy_claimers_drained shared_queue_exclusive : bool) : M World PoolControl.t :=
  let correlation_id := strip correlation_id in
  raise_if (negb (nonempty correlation_id)) (ValueError (u8 "correlation_id obrigatório")) ;;
  raise_if (negb legacy_claimers_drained || negb shared_queue_exclusive)
    (ValueError "cutover cercado exige fila exclusiva e claimers antigos drenados") ;;
  stamp ← now_stamp;
  tx (fun _ => exec (fun d =>
    let c := pool_control d in
    Ok (d <| pool_control := PoolControl.mk true
          (Some (default stamp (PoolControl.enabled_at c)))
          (Some (default correlation_id (PoolControl.enabled_by_correlation_id c))) |>))) ;;
  fenced_cutover_status.

(** [INSERT INTO workers ... ON CONFLICT(worker_id) DO UPDATE SET ...] *)
Definition upsert_worker (w : Worker.t) (d : DB) : res DB :=
  Ok (if existsb (worker_is (Worker.worker_id w)) (workers d)
      then d <| workers := update_where (worker_is (Worker.worker_id w)) (fun old =>
             old <| Worker.host := Worker.host w |> <| Worker.role := Worker.role w |>
                 <| Worker.profile := Worker.profile w |> <| Worker.capacity_score := Worker.capacity_score w |>
                 <| Worker.controller_version := Worker.controller_version w |>
                 <| Worker.rules_sha := Worker.rules_sha w |> <| Worker.gateway_ok := Worker.gateway_ok w |>
                 <| Worker.state_validated := Worker.state_validated w |>
                 <| Worker.worktree_root := Worker.worktree_root w |>
                 <| Worker.last_heartbeat_at := Worker.last_heartbeat_at w |>
                 <| Worker.correlation_id := Worker.correlation_id w |>) (workers d) |>
      else d <| workers := workers d ++ [w] |>).

Definition register_worker (worker_id host role correlation_id profile : string)
  (capacity_score : Z) (controller_version rules_sha : option string)
  (gateway_ok state_validated : bool) (worktree_root : option string) : M World Worker.t :=
  raise_if (negb (nonempty (strip worker_id)) || negb (nonempty (strip host)) ||
            negb (nonempty (strip correlation_id)))
    (ValueError (u8 "worker_id, host e correlation_id são obrigatórios")) ;;
  match role_of_text (lower role), profile_of_text (upper profile) with
  | Some role, Some profile =>
      let sha := lower (strip (default ""%string rules_sha)) in
      raise_if (nonempty sha && negb (fullmatch SHA40 sha)) (ValueError (u8 "rules_sha inválido")) ;;
      stamp ← now_stamp;
      tx (fun _ =>
        score ← lift (db_int capacity_score);
        exec (upsert_worker (Worker.mk (strip worker_id) (strip host) role profile score
          controller_version (if nonempty sha then Some sha else None) gateway_ok state_validated
          worktree_root stamp stamp None None (strip correlation_id)))) ;;
      get_worker worker_id
  | _, _ => raise (ValueError (u8 "role/profile inválido"))
  end.

Definition heartbeat_worker (worker_id correlation_id : string) (profile : option string)
  (cpu_percent memory_percent : option Q) (gateway_ok state_validated : option bool)
  : M World Worker.t :=
  current ← get_worker worker_id;
  match profile_of_text (upper (if truthy profile then default ""%string profile
                                else profile_text (Worker.profile current))) with
  | None => raise (ValueError (u8 "profile inválido"))
  | Some profile =>
      tx (fun _ =>
        stamp ← now_stamp;
        exec (fun d => Ok (d <| workers := update_where (worker_is worker_id) (fun w =>
          w <| Worker.profile := profile |> <| Worker.last_heartbeat_at := stamp |>
            <| Worker.cpu_percent := cpu_percent |> <| Worker.memory_percent := memory_percent |>
            <| Worker.gateway_ok := default (Worker.gateway_ok current) gateway_ok |>
            <| Worker.state_validated := default (Worker.state_validated current) state_validated |>
            <| Worker.correlation_id := correlation_id |>) (workers d) |>))) ;;
      get_worker worker_id
  end.

(** [_ensure_repository_lane]: [INSERT OR IGNORE]. *)
Definition ensure_repository_lane (repository : string) : M World unit :=
  stamp ← now_stamp;
  exec (fun d => Ok (
    if existsb (lane_is repository) (repository_lanes d) then d
    else d <| repository_lanes := repository_lanes d ++ [Lane.mk repository true 1 0 0 None None stamp] |>)).

Definition configure_repository (repository : string) (enabled : bool) (max_in_flight : Z)
  : M World Lane.t :=
  repo ← lift (validate_repository repository);
  raise_if ((max_in_flight <? 1) || (100 <? max_in_flight)) (ValueError (u8 "max_in_flight inválido")) ;;
  stamp ← now_stamp;
  tx (fun _ => exec (fun d => Ok (
    if existsb (lane_is repo) (repository_lanes d)
    then d <| repository_lanes := update_where (lane_is repo) (fun l =>
           l <| Lane.enabled := enabled |> <| Lane.max_in_flight := max_in_flight |>
             <| Lane.updated_at := stamp |>) (repository_lanes d) |>
    else d <| repository_lanes :=
           repository_lanes d ++ [Lane.mk repo enabled max_in_flight 0 0 None None stamp] |>))) ;;
  get_repository repo.

(** [sorted({... for item in repositories})] *)
Fixpoint normalized_set (repositories : list string) : res (list string) :=
  match repositories with
  | [] => Ok []
  | r :: rest =>
      n ← validate_repository r; others ← normalized_set rest;
      Ok (if bool_decide (n ∈ others) then others else n :: others)
  end.

Definition replace_worker_affinities (worker_id : string) (repositories : list string)
  : M World (list string) :=
  get_worker worker_id ;;
  set ← lift (normalized_set repositories);
  let normalized := ascending set in
  tx (fun _ =>
    exec (fun d => Ok (d <| worker_repository_affinity :=
      List.filter (fun a => negb (bool_decide (Affinity.worker_id a = worker_id)))
        (worker_repository_affinity d) |>)) ;;
    for_each normalized (fun repository =>
      ensure_repository_lane repository ;;
      exec (insert_affinity (Affinity.mk worker_id repository)))) ;;
  mret normalized.

(** ** Admission *)

Definition enqueue_task (repository : string) (issue_number : Z) (request_id correlation_id : string)
  (priority : Z) (base_sha : option string) (max_attempts : option Z)
  (target_branch : option string) (fencing_required : bool) : M World (Task.t * bool) :=
  raise_if (negb (contains "/" repository) || (issue_number <? 1) ||
            negb (nonempty (strip request_id)) || negb (nonempty (strip correlation_id)))
    (ValueError (u8 "identidade da task inválida")) ;;
  let base := lower (default ""%string base_sha) in
  raise_if (truthy base_sha && negb (fullmatch SHA40 base)) (ValueError (u8 "base_sha inválido")) ;;
  task_branch ← lift (match target_branch with
                      | Some b => validate_target_branch b
                      | None => Ok (branch issue_number request_id)
                      end);
  let key := identity repository issue_number request_id in
  stamp ← now_stamp;
  let tid := task_id key in
  let attempts := or_default max_attempts default_max_attempts in
  raise_if (attempts <? 1) (ValueError (u8 "max_attempts inválido")) ;;
  tx (fun _ =>
    control ← query pool_control;
    raise_if (fencing_required && negb (PoolControl.enabled control))
      (ConflictError "fenced_cutover_not_enabled") ;;
    ensure_repository_lane (strip repository) ;;
    row ← query (fun d => first (fun t => bool_decide (Task.idempotency_key t = key)) (tasks d));
    match row with
    | Some row =>
        raise_if (bool_decide (is_Some target_branch) && negb (bool_decide (Task.branch row = task_branch)))
          (ConflictError "target_branch divergente no replay") ;;
        raise_if (xorb (Task.fencing_required row) fencing_required)
          (ConflictError "fencing_required divergente no replay") ;;
        mret (row, false)
    | None =>
        number ← lift (db_int issue_number); prio ← lift (db_int priority); att ← lift (db_int attempts);
        exec (insert_task (Task.mk tid (strip repository) number (strip request_id) key queued prio
          task_branch (workspace repository tid) (if truthy base_sha then Some base else None) None
          None None None None None 0 None fencing_required 0 att None None (strip correlation_id)
          stamp stamp stamp None)) ;;
        created ← query (fun d => find_task d tid);
        task ← of_option created not_found;
        mret (task, true)
    end).

(** ** Readiness *)

(** [(self.clock() - parse_iso(stamp)).total_seconds() > limit] *)
Definition older_than (stamp : string) (limit : Z) : M World bool :=
  d ← now; hb ← lift (parse_iso stamp); mret (limit * MICROS <? d - hb).

Definition rules_diverge (w : Worker.t) : bool :=
  truthy expected_rules_sha && negb (bool_decide (Worker.rules_sha w = expected_rules_sha)).

Definition ready (worker_id : string) (role : Role) : M World Worker.t :=
  found ← query (fun d => find_worker d worker_id);
  w ← of_option found (NotFoundError (u8 "worker não encontrado: " ++ worker_id));
  raise_if (negb (bool_decide (Worker.role w = role)))
    (ConflictError ("worker " ++ worker_id ++ u8 " não possui role " ++ role_text role)) ;;
  raise_if (negb (bool_decide (Worker.profile w = NORMAL)))
    (ConflictError ("worker " ++ worker_id ++ u8 " está em profile " ++ profile_text (Worker.profile w))) ;;
  raise_if (negb (Worker.gateway_ok w) || negb (Worker.state_validated w))
    (ConflictError (u8 "worker não está governado/pronto")) ;;
  raise_if (rules_diverge w) (ConflictError "worker rules_sha divergente") ;;
  stale ← older_than (Worker.last_heartbeat_at w) heartbeat_ttl_seconds;
  raise_if stale (ConflictError (u8 "worker está offline/stale")) ;;
  busy ← query (fun d => existsb (holds worker_id) (tasks d));
  raise_if busy (ConflictError (u8 "worker já possui task ativa")) ;;
  mret w.

(** ** Effects *)

(** A later checkpoint of the same effect. *)
Definition later_checkpoint (c l : Checkpoint.t) : bool :=
  bool_decide (Checkpoint.task_id l = Checkpoint.task_id c) &&
  bool_decide (Checkpoint.effect_id l = Checkpoint.effect_id c) &&
  ((Checkpoint.lease_generation c <? Checkpoint.lease_generation l) ||
   ((Checkpoint.lease_generation l =? Checkpoint.lease_generation c) &&
    (Checkpoint.sequence c <? Checkpoint.sequence l))).

Definition reconciled (d : DB) (c : Checkpoint.t) : bool :=
  match Checkpoint.effect_id c with
  | None => false
  | Some e => existsb (reconciliation_is (Checkpoint.task_id c) e (Checkpoint.lease_generation c))
                (effect_reconciliations d)
  end.

(** The [WHERE] clause of [_has_unresolved_effect] on one row. *)
Definition unresolved (d : DB) (c : Checkpoint.t) : bool :=
  bool_decide (is_Some (Checkpoint.effect_id c)) &&
  ((bool_decide (Checkpoint.effect_state c = fx_unknown) && negb (reconciled d c)) ||
   (bool_decide (Checkpoint.effect_state c = fx_pending) && negb (reconciled d c) &&
    negb (existsb (later_checkpoint c) (task_checkpoints d)))).

Definition has_unresolved_effect (d : DB) (tid : string) : bool :=
  existsb (fun c => bool_decide (Checkpoint.task_id c = tid) && unresolved d c) (task_checkpoints d).

Definition require_resolved_effects (row : Task.t) : M World unit :=
  u ← query (fun d => has_unresolved_effect d (Task.task_id row));
  raise_if (Task.fencing_required row && u)
    (ConflictError (u8 "efeito requer reconciliação antes da transição")).

(** ** Recovery *)

Definition quarantine_row (row : Task.t) (reason stamp : string) : M World unit :=
  exec (fun d => Ok (d <| quarantine := quarantine d ++
    [Quarantine.mk (Task.task_id row) (Task.idempotency_key row) (Task.correlation_id row)
       (Task.attempt_count row) (sanitize reason) stamp] |>)).

Definition end_attempt (row : Task.t) (stamp reason : string) : M World unit :=
  if negb (truthy (Task.attempt_id row)) then mret tt
  else exec (fun d => Ok (d <| task_attempts :=
    update_where (attempt_is (default ""%string (Task.attempt_id row))) (fun a =>
      a <| Attempt.ended_at := Some (default stamp (Attempt.ended_at a)) |>
        <| Attempt.end_reason := Some (default reason (Attempt.end_reason a)) |>) (task_attempts d) |>)).

(** [SET state=?, leased_by=NULL, lease_token=NULL, lease_expires_at=NULL,
    attempt_id=NULL] *)
Definition released (st : TaskState) (t : Task.t) : Task.t := Eval cbn in
  t <| Task.state := st |> <| Task.leased_by := None |> <| Task.lease_token := None |>
    <| Task.lease_expires_at := None |> <| Task.attempt_id := None |>.

(** The update shared by the two recovery loops. *)
Definition recovered (st : TaskState) (reason : option string) (error stamp : string) (t : Task.t) : Task.t :=
  Eval cbn in released st t <| Task.blocked_reason := reason |> <| Task.last_error := Some error |>
    <| Task.updated_at := stamp |>.

(** ["validating" if row["produced_sha"] else "queued"] *)
Definition resume_state (row : Task.t) : TaskState :=
  if truthy (Task.produced_sha row) then validating else queued.

Definition effect_required : string := "effect_reconciliation_required".

(** [lease_expires_at IS NOT NULL AND lease_expires_at<=?] *)
Definition lease_expired_at (stamp : string) (t : Task.t) : bool :=
  active t && match Task.lease_expires_at t with Some e => text_leb e stamp | None => false end.

Definition recover_row (stamp : string) (row : Task.t) : M World unit :=
  u ← query (fun d => has_unresolved_effect d (Task.task_id row));
  outcome ← (if Task.fencing_required row && u then
               mret (blocked, Some effect_required, effect_required)
             else if Task.max_attempts row <=? Task.attempt_count row then
               quarantine_row row "lease_expired_max_attempts" stamp ;;
               mret (failed, None, "lease_expired_max_attempts"%string)
             else mret (resume_state row, None, "lease_expired_recovered"%string));
  let '(st, reason, error) := outcome in
  end_attempt row stamp error ;;
  set_task (Task.task_id row) (recovered st reason error stamp).

Definition recover : M World Z :=
  stamp ← now_stamp;
  rows ← query (fun d => List.filter (lease_expired_at stamp) (tasks d));
  for_each rows (recover_row stamp) ;;
  mret (Z.of_nat (length rows)).

Definition worker_is_alternative (row : Task.t) (worker : Worker.t) : M World bool :=
  if bool_decide (Some (Worker.worker_id worker) = Task.leased_by row) then mret false else
  let role := if truthy (Task.produced_sha row) then validator else builder in
  if negb (bool_decide (Worker.role worker = role)) || negb (bool_decide (Worker.profile worker = NORMAL))
  then mret false else
  if negb (Worker.gateway_ok worker) || negb (Worker.state_validated worker) then mret false else
  if rules_diverge worker then mret false else
  stale ← older_than (Worker.last_heartbeat_at worker) heartbeat_ttl_seconds;
  if (stale : bool) then mret false else
  busy ← query (fun d => existsb (holds (Worker.worker_id worker)) (tasks d));
  if (busy : bool) then mret false else
  affinities ← query (fun d => List.filter
    (fun a => bool_decide (Affinity.worker_id a = Worker.worker_id worker)) (worker_repository_affinity d));
  mret (match affinities with
        | [] => true
        | _ => existsb (fun a => bool_decide (Affinity.repository a = Task.repository row)) affinities
        end).

Definition stalled_at (cutoff : string) (t : Task.t) : bool :=
  active t && text_leb (Task.last_material_progress_at t) cutoff.

Inductive StallOutcome : Type := so_rerouted | so_blocked | so_failed.

Definition recover_stalled_row (stamp : string) (all_workers : list Worker.t) (row : Task.t)
  : M World StallOutcome :=
  u ← query (fun d => has_unresolved_effect d (Task.task_id row));
  outcome ← (if Task.fencing_required row && u then
               mret (so_blocked, (blocked, Some effect_required, effect_required))
             else if Task.max_attempts row <=? Task.attempt_count row then
               quarantine_row row "material_progress_timeout_max_attempts" stamp ;;
               mret (so_failed, (failed, None, "material_progress_timeout_max_attempts"%string))
             else
               alternative ← any_m all_workers (worker_is_alternative row);
               mret (if (alternative : bool) then
                 (so_rerouted, (resume_state row, None, "material_progress_timeout_rerouted"%string))
               else (so_blocked, (blocked, Some "material_progress_timeout_no_alternative"%string,
                                  "material_progress_timeout_no_alternative"%string))));
  let '(kind, (st, reason, error)) := outcome in
  end_attempt row stamp error ;;
  set_task (Task.task_id row) (recovered st reason error stamp) ;;
  mret kind.

Definition count_outcome (r : StallCounts.t) (o : StallOutcome) : StallCounts.t :=
  match o with
  | so_rerouted => r <| StallCounts.rerouted := StallCounts.rerouted r + 1 |>
  | so_blocked => r <| StallCounts.blocked := StallCounts.blocked r + 1 |>
  | so_failed => r <| StallCounts.failed := StallCounts.failed r + 1 |>
  end.

Fixpoint stalled_loop (stamp : string) (all_workers : list Worker.t) (rows : list Task.t)
  (acc : StallCounts.t) : M World StallCounts.t :=
  match rows with
  | [] => mret acc
  | row :: rest =>
      kind ← recover_stalled_row stamp all_workers row;
      stalled_loop stamp all_workers rest (count_outcome acc kind)
  end.

Definition recover_stalled : M World StallCounts.t :=
  d ← now;
  cutoff ← lift (add_seconds d (- progress_stall_seconds));
  rows ← query (fun s => List.filter (stalled_at (iso cutoff)) (tasks s));
  all_workers ← query workers;
  stalled_loop (iso d) all_workers rows (StallCounts.mk 0 0 0).

Definition recover_expired_leases : M World Z := tx (fun _ => recover).
Definition recover_stalled_tasks : M World StallCounts.t := tx (fun _ => recover_stalled).
Definition reconcile : M World (Z * StallCounts.t) :=
  tx (fun _ => expired ← recover; stalled ← recover_stalled; mret (expired, stalled)).
End Store.
