(* ===== verification/Claim.v ===== *)
(** [WorkerPoolStore.claim_task] of [app/store.py]: the two queries with their
    ordering, and the assignment of the lease. *)
From S2P Require Import Prelude PyStr Clock Names Schema Store.
From Stdlib Require Import Ascii String.
From stdpp Require Import strings.

Local Open Scope Z_scope.

(** ** ORDER BY *)

(** Storage classes in their sort order: NULL, then numbers, then text. *)
Inductive sqlval : Type := VNull | VInt (n : Z) | VText (s : string).

Definition sql_ltb (a b : sqlval) : bool :=
  match a, b with
  | VNull, VNull => false
  | VNull, _ => true
  | VInt m, VInt n => m <? n
  | VInt _, VText _ => true
  | VText s, VText t => text_leb s t && negb (text_leb t s)
  | _, _ => false
  end.
(** Lexicographic order of two keys. *)
Fixpoint key_leb (a b : list sqlval) : bool :=
  match a, b with
  | x :: a', y :: b' => sql_ltb x y || (negb (sql_ltb y x) && key_leb a' b')
  | [], _ => true
  | _ :: _, [] => false
  end.

Definition opt_text (o : option string) : sqlval :=
  match o with Some s => VText s | None => VNull end.
(** [CASE WHEN x IS NULL THEN 0 ELSE 1 END] *)
Definition null_first (o : option string) : sqlval :=
  match o with Some _ => VInt 1 | None => VInt 0 end.

Definition builder_key (r : Lane.t) (rowid : nat) (t : Task.t) : list sqlval :=
  [VInt (Lane.builder_claim_count r); null_first (Lane.last_builder_claimed_at r);
   opt_text (Lane.last_builder_claimed_at r); VText (Lane.repository r);
   VInt (Task.priority t); VText (Task.created_at t); VInt (Z.of_nat rowid); VText (Task.task_id t)].
Definition validator_key (r : Lane.t) (rowid : nat) (t : Task.t) : list sqlval :=
  [VInt (Lane.validator_claim_count r); null_first (Lane.last_validator_claimed_at r);
   opt_text (Lane.last_validator_claimed_at r); VText (Lane.repository r);
   VInt (Task.priority t); VText (Task.updated_at t); VInt (Z.of_nat rowid); VText (Task.task_id t)].

(** ** WHERE *)

Definition affinity_ok (d : DB) (worker_id repository : string) : bool :=
  negb (existsb (fun a => bool_decide (Affinity.worker_id a = worker_id)) (worker_repository_affinity d)) ||
  existsb (fun a => bool_decide (Affinity.worker_id a = worker_id) &&
                    bool_decide (Affinity.repository a = repository)) (worker_repository_affinity d).

(** Active tasks of a repository. *)
Definition active_count (d : DB) (repository : string) : Z :=
  Z.of_nat (length (List.filter (fun t => bool_decide (Task.repository t = repository) && active t) (tasks d))).

Definition only_ok (only_task_id : option string) (t : Task.t) : bool :=
  match only_task_id with Some tid => bool_decide (Task.task_id t = tid) | None => true end.

Definition builder_eligible (d : DB) (worker_id : string) (fencing : bool) (only : option string)
  (r : Lane.t) (t : Task.t) : bool :=
  bool_decide (Task.state t = queued) && eqb (Task.fencing_required t) fencing && Lane.enabled r &&
  affinity_ok d worker_id (Task.repository t) &&
  (active_count d (Task.repository t) <? Lane.max_in_flight r) && only_ok only t.

Definition validator_eligible (d : DB) (worker_id : string) (fencing : bool) (only : option string)
  (r : Lane.t) (t : Task.t) : bool :=
  bool_decide (Task.state t = validating) && eqb (Task.fencing_required t) fencing &&
  bool_decide (Task.leased_by t = None) && bool_decide (is_Some (Task.produced_sha t)) &&
  negb (bool_decide (Task.builder_worker_id t = Some worker_id)) &&
  affinity_ok d worker_id (Task.repository t) && only_ok only t.

(** [tasks t JOIN repository_lanes r ON r.repository=t.repository WHERE ...]
    with the sort key of each row. *)
Definition candidates (d : DB) (eligible : Lane.t → Task.t → bool)
  (key : Lane.t → nat → Task.t → list sqlval) : list (list sqlval * Task.t) :=
  omap (fun '(rowid, t) =>
    match find_lane d (Task.repository t) with
    | Some r => if eligible r t then Some (key r rowid t, t) else None
    | None => None
    end) (zip (seq 0 (length (tasks d))) (tasks d)).

Definition select_task (d : DB) (eligible : Lane.t → Task.t → bool)
  (key : Lane.t → nat → Task.t → list sqlval) : option Task.t :=
  snd <$> least (fun a b => key_leb a.1 b.1) (candidates d eligible key).

Definition select_for (d : DB) (role : Role) (worker_id : string) (fencing : bool)
  (only : option string) : option Task.t :=
  match role with
  | builder => select_task d (builder_eligible d worker_id fencing only) builder_key
  | validator => select_task d (validator_eligible d worker_id fencing only) validator_key
  end.

(** ** The assignment *)

Definition wanted_state (role : Role) : TaskState :=
  match role with builder => queued | validator => validating end.
Definition next_state (role : Role) : TaskState :=
  match role with builder => leased | validator => validating end.

(** The [SET] clause of the claim. *)
Definition claimed (role : Role) (worker_id token attempt expires correlation_id stamp : string)
  (row t : Task.t) : Task.t := Eval cbn in
  t <| Task.state := next_state role |> <| Task.leased_by := Some worker_id |>
    <| Task.lease_token := Some token |> <| Task.lease_expires_at := Some expires |>
    <| Task.attempt_count := Task.attempt_count t + 1 |>
    <| Task.validator_worker_id :=
         match role with validator => Some worker_id | builder => Task.validator_worker_id row end |>
    <| Task.lease_generation := Task.lease_generation t + 1 |>
    <| Task.attempt_id := Some attempt |> <| Task.correlation_id := correlation_id |>
    <| Task.updated_at := stamp |> <| Task.last_material_progress_at := stamp |>.

Definition count_claim (role : Role) (stamp : string) (l : Lane.t) : Lane.t :=
  match role with
  | builder => l <| Lane.last_builder_claimed_at := Some stamp |>
                 <| Lane.builder_claim_count := Lane.builder_claim_count l + 1 |>
                 <| Lane.updated_at := stamp |>
  | validator => l <| Lane.last_validator_claimed_at := Some stamp |>
                   <| Lane.validator_claim_count := Lane.validator_claim_count l + 1 |>
                   <| Lane.updated_at := stamp |>
  end.

Section Claim.
Context {self : Store}.

(** The part of the transaction that assigns the selected row. *)
Definition assign_lease (role : Role) (worker_id correlation_id : string) (ttl : Z)
  (now_ : datetime) (stamp : string) (row : Task.t) : M World (Task.t * Lease.t) :=
  token ← uuid4_hex;
  attempt ← uuid4_hex;
  expiry ← lift (add_seconds now_ ttl);
  let expires := iso expiry in
  rowcount ← exec_count (update_task (Task.task_id row)
    (fun t => bool_decide (Task.state t = wanted_state role) && bool_decide (Task.leased_by t = None))
    (claimed role worker_id token attempt expires correlation_id stamp row));
  raise_if (negb (rowcount =? 1)) (ConflictError "task adquirida concorrentemente") ;;
  exec (fun d => Ok (d <| repository_lanes :=
    update_where (lane_is (Task.repository row)) (count_claim role stamp) (repository_lanes d) |>)) ;;
  found ← query (fun d => find_task d (Task.task_id row));
  data ← of_option found not_found;
  exec (insert_attempt (Attempt.mk attempt (Task.task_id data) (Task.lease_generation data) worker_id
    role stamp expires None None)) ;;
  mret (data, Lease.mk (Task.task_id data) token worker_id role expires
                (Task.lease_generation data) attempt).

Definition claim_body (role : Role) (worker_id correlation_id : string) (ttl : Z)
  (only_task_id : option string) (fencing_required : bool) : M World (option (Task.t * Lease.t)) :=
  now_ ← now; stamp ← now_stamp;
  (if bool_decide (only_task_id = None) then recover ;; recover_stalled ;; mret tt else mret tt) ;;
  ready worker_id role ;;
  selected ← query (fun d => select_for d role worker_id fencing_required only_task_id);
  match selected with
  | None => mret None
  | Some row =>
      r ← assign_lease role worker_id correlation_id ttl now_ stamp row;
      mret (Some r)
  end.

(** [claim_task]: [None] is the pair [(None, None)] of the code. *)
Definition claim_task (worker_id role correlation_id : string) (lease_seconds : option Z)
  (only_task_id : option string) (fencing_required : bool) : M World (option (Task.t * Lease.t)) :=
  let ttl := or_default lease_seconds default_lease_seconds in
  match role_of_text (lower role) with
  | None => raise (ValueError (u8 "role/lease inválido"))
  | Some role =>
      raise_if (ttl <? 1) (ValueError (u8 "role/lease inválido")) ;;
      raise_if (match only_task_id with Some tid => negb (fullmatch TASK_ID tid) | None => false end)
        (ValueError (u8 "exact_task_id inválido")) ;;
      tx (fun _ => claim_body role worker_id correlation_id ttl only_task_id fencing_required)
  end.
End Claim.
