(* ===== verification/LeaseOps.v ===== *)
(** The operations of [app/store.py] that a worker performs under its lease:
    the check [_lease], renewal, start, hand-off, completion, failure, block,
    and the requeue of a blocked task. *)
From S2P Require Import Prelude PyStr Clock Names Schema Store.
From Stdlib Require Import Ascii String.
From stdpp Require Import strings.

Local Open Scope Z_scope.

(** ** The [SET] clauses *)

Definition renewed (expires correlation_id stamp : string) (t : Task.t) : Task.t := Eval cbn in
  t <| Task.lease_expires_at := Some expires |> <| Task.correlation_id := correlation_id |>
    <| Task.updated_at := stamp |>.
Definition started (worker_id correlation_id stamp : string) (t : Task.t) : Task.t := Eval cbn in
  t <| Task.state := running |> <| Task.builder_worker_id := Some worker_id |>
    <| Task.correlation_id := correlation_id |> <| Task.updated_at := stamp |>
    <| Task.last_material_progress_at := stamp |>.
Definition submitted (produced_sha correlation_id stamp : string) (t : Task.t) : Task.t := Eval cbn in
  released validating t <| Task.produced_sha := Some produced_sha |>
    <| Task.correlation_id := correlation_id |> <| Task.updated_at := stamp |>
    <| Task.last_material_progress_at := stamp |>.
Definition completed_with (correlation_id stamp : string) (t : Task.t) : Task.t := Eval cbn in
  released completed t <| Task.correlation_id := correlation_id |> <| Task.updated_at := stamp |>
    <| Task.completed_at := Some stamp |> <| Task.last_material_progress_at := stamp |>.
Definition failed_with (st : TaskState) (error correlation_id stamp : string) (t : Task.t) : Task.t := Eval cbn in
  released st t <| Task.last_error := Some error |> <| Task.correlation_id := correlation_id |>
    <| Task.updated_at := stamp |>.
Definition blocked_with (reason correlation_id stamp : string) (t : Task.t) : Task.t := Eval cbn in
  released blocked t <| Task.blocked_reason := Some reason |> <| Task.correlation_id := correlation_id |>
    <| Task.updated_at := stamp |> <| Task.last_material_progress_at := stamp |>.
Definition requeued (st : TaskState) (correlation_id stamp : string) (t : Task.t) : Task.t := Eval cbn in
  t <| Task.state := st |> <| Task.blocked_reason := None |> <| Task.correlation_id := correlation_id |>
    <| Task.updated_at := stamp |> <| Task.last_material_progress_at := stamp |>.

Section LeaseOps.
Context {self : Store}.

(** [_lease]: the row, if the caller's lease is the current one. *)
Definition check_lease (tid worker token : string) (allowed : list TaskState)
  (lease_generation : option Z) (attempt_id : option string) : M World Task.t :=
  found ← query (fun d => find_task d tid);
  row ← of_option found (NotFoundError (u8 "task não encontrada: " ++ tid));
  raise_if (negb (bool_decide (Task.state row ∈ allowed)))
    (ConflictError (u8 "estado inválido: " ++ state_text (Task.state row))) ;;
  raise_if (negb (bool_decide (Task.leased_by row = Some worker)) ||
            negb (bool_decide (Task.lease_token row = Some token)))
    (ConflictError (u8 "lease inválido")) ;;
  raise_if (Task.fencing_required row &&
            (bool_decide (lease_generation = None) || bool_decide (attempt_id = None)))
    (ConflictError (u8 "fence obrigatório")) ;;
  raise_if (match lease_generation with
            | Some g => negb (Task.lease_generation row =? g) | None => false end)
    (ConflictError (u8 "lease_generation inválida")) ;;
  raise_if (bool_decide (is_Some attempt_id) && negb (bool_decide (Task.attempt_id row = attempt_id)))
    (ConflictError (u8 "attempt_id inválido")) ;;
  (if truthy (Task.lease_expires_at row) then
     expiry ← lift (parse_iso (default ""%string (Task.lease_expires_at row)));
     d ← now;
     raise_if (expiry <=? d) (ConflictError "lease expirado")
   else raise (ConflictError "lease expirado")) ;;
  mret row.

Definition renew_lease (tid worker_id lease_token correlation_id : string)
  (lease_seconds : option Z) (lease_generation : option Z) (attempt_id : option string)
  : M World Task.t :=
  tx (fun _ =>
    row ← check_lease tid worker_id lease_token ACTIVE lease_generation attempt_id;
    d ← now;
    expiry ← lift (add_seconds d (or_default lease_seconds default_lease_seconds));
    let expires := iso expiry in
    stamp ← now_stamp;
    set_task tid (renewed expires correlation_id stamp) ;;
    if truthy (Task.attempt_id row) then
      exec (fun s => Ok (s <| task_attempts :=
        update_where (attempt_is (default ""%string (Task.attempt_id row)))
          (fun a => a <| Attempt.lease_expires_at := expires |>) (task_attempts s) |>))
    else mret tt) ;;
  get_task tid.

Definition start_task (tid worker_id lease_token correlation_id : string)
  (lease_generation : option Z) (attempt_id : option string) : M World Task.t :=
  tx (fun committed =>
    check_lease tid worker_id lease_token [leased] lease_generation attempt_id ;;
    worker ← lift (get_worker_in committed worker_id);
    raise_if (negb (bool_decide (Worker.role worker = builder)))
      (ConflictError "somente Builder pode iniciar task") ;;
    stamp ← now_stamp;
    set_task tid (started worker_id correlation_id stamp)) ;;
  get_task tid.

Definition submit_for_validation (tid worker_id lease_token produced_sha correlation_id : string)
  (lease_generation : option Z) (attempt_id : option string) : M World Task.t :=
  let produced_sha := lower produced_sha in
  raise_if (negb (fullmatch SHA40 produced_sha)) (ValueError (u8 "produced_sha inválido")) ;;
  tx (fun _ =>
    row ← check_lease tid worker_id lease_token [running] lease_generation attempt_id;
    raise_if (negb (bool_decide (Task.builder_worker_id row = Some worker_id)))
      (ConflictError "builder divergente") ;;
    require_resolved_effects row ;;
    stamp ← now_stamp;
    end_attempt row stamp "validation_handoff" ;;
    set_task tid (submitted produced_sha correlation_id stamp)) ;;
  get_task tid.

Definition complete_task (tid worker_id lease_token correlation_id : string)
  (lease_generation : option Z) (attempt_id : option string) : M World Task.t :=
  tx (fun committed =>
    row ← check_lease tid worker_id lease_token [validating] lease_generation attempt_id;
    worker ← lift (get_worker_in committed worker_id);
    raise_if (negb (bool_decide (Worker.role worker = validator)) ||
              bool_decide (Task.builder_worker_id row = Some worker_id))
      (ConflictError (u8 "Validator independente obrigatório")) ;;
    raise_if (negb (truthy (Task.produced_sha row))) (ConflictError "task sem produced_sha") ;;
    require_resolved_effects row ;;
    stamp ← now_stamp;
    end_attempt row stamp "completed" ;;
    set_task tid (completed_with correlation_id stamp)) ;;
  get_task tid.

Definition fail_task (tid worker_id lease_token correlation_id reason : string)
  (lease_generation : option Z) (attempt_id : option string) : M World Task.t :=
  let clean := sanitize (strip reason) in
  let reason := if nonempty clean then clean else "worker_failure"%string in
  stamp ← now_stamp;
  tx (fun _ =>
    row ← check_lease tid worker_id lease_token ACTIVE lease_generation attempt_id;
    require_resolved_effects row ;;
    st ← (if Task.max_attempts row <=? Task.attempt_count row
          then quarantine_row row reason stamp ;; mret failed
          else mret (resume_state row));
    end_attempt row stamp "failed_attempt" ;;
    set_task tid (failed_with st reason correlation_id stamp)) ;;
  get_task tid.

Definition block_task (tid worker_id lease_token correlation_id reason : string)
  (lease_generation : option Z) (attempt_id : option string) : M World Task.t :=
  let reason := sanitize (strip reason) in
  raise_if (negb (nonempty reason)) (ValueError (u8 "reason obrigatório")) ;;
  tx (fun _ =>
    row ← check_lease tid worker_id lease_token ACTIVE lease_generation attempt_id;
    u ← query (fun d => has_unresolved_effect d tid);
    let reason := if Task.fencing_required row && u then effect_required else reason in
    stamp ← now_stamp;
    end_attempt row stamp "blocked" ;;
    set_task tid (blocked_with reason correlation_id stamp)) ;;
  get_task tid.

Definition requeue_blocked (tid correlation_id : string) : M World Task.t :=
  tx (fun _ =>
    found ← query (fun d => find_task d tid);
    row ← of_option found (NotFoundError (u8 "task não encontrada: " ++ tid));
    raise_if (negb (bool_decide (Task.state row = blocked)))
      (ConflictError "somente task bloqueada pode ser reenfileirada") ;;
    u ← query (fun d => has_unresolved_effect d tid);
    raise_if (Task.fencing_required row && u) (ConflictError (u8 "efeito requer reconciliação")) ;;
    stamp ← now_stamp;
    set_task tid (requeued (resume_state row) correlation_id stamp)) ;;
  get_task tid.
End LeaseOps.
