(* ===== verification/Effects.v ===== *)
(** Checkpoints, external effects and their reconciliation
    ([app/store.py]: [record_checkpoint], [get_latest_checkpoint],
    [get_recovery_context], [reconcile_effect]). *)
From S2P Require Import Prelude PyStr Clock Json Names Schema Store LeaseOps.
From Stdlib Require Import Ascii String.
From stdpp Require Import strings.

Local Open Scope Z_scope.

(** ** Canonical form and digest *)

Definition semantic_digest (members : list (string * json)) : string :=
  sha256_text (str (dumps (JObj (sort_keys members)))).

Definition checkpoint_semantic (checkpoint_id : string) (sequence : Z) (stage : string)
  (artifact_kind artifact_ref artifact_sha256 : option string) (next_action : string)
  (effect_id : option string) (effect_state : EffectState) (effect_result_ref : option string)
  : list (string * json) :=
  [("checkpoint_id"%string, JStr checkpoint_id); ("sequence"%string, JInt sequence);
   ("stage"%string, JStr stage); ("artifact_kind"%string, opt_str artifact_kind);
   ("artifact_ref"%string, opt_str artifact_ref); ("artifact_sha256"%string, opt_str artifact_sha256);
   ("next_action"%string, JStr next_action); ("effect_id"%string, opt_str effect_id);
   ("effect_state"%string, JStr (effect_text effect_state));
   ("effect_result_ref"%string, opt_str effect_result_ref)].

Definition reconciliation_semantic (effect_id : string) (lease_generation : Z)
  (outcome readback_ref : string) : list (string * json) :=
  [("effect_id"%string, JStr effect_id); ("lease_generation"%string, JInt lease_generation);
   ("outcome"%string, JStr outcome); ("readback_ref"%string, JStr readback_ref)].

(** ** Arguments of a checkpoint after validation *)

Module CheckpointArgs.
Record t := mk {
  checkpoint_id : string; sequence : Z; stage : string; next_action : string;
  correlation_id : string; artifact_kind : option string; artifact_ref : option string;
  artifact_sha256 : option string; effect_id : option string; effect_state : EffectState;
  effect_result_ref : option string }.
End CheckpointArgs.

(** [sanitize(x.strip()) if x else None] *)
Definition clean_ref (o : option string) : option string :=
  if truthy o then Some (sanitize (strip (default ""%string o))) else None.

Definition optional_match (r : re) (o : option string) : bool :=
  match o with Some s => fullmatch r s | None => true end.

(** The guards and normalisations before the transaction. *)
Definition checkpoint_args (checkpoint_id : string) (sequence : Z) (stage next_action correlation_id : string)
  (artifact_kind artifact_ref artifact_sha256 effect_id : option string) (effect_state : string)
  (effect_result_ref : option string) : res CheckpointArgs.t :=
  if negb (fullmatch SAFE_ID checkpoint_id) then Raise (ValueError (u8 "checkpoint_id inválido")) else
  if negb (fullmatch SAFE_ID stage) then Raise (ValueError (u8 "stage inválido")) else
  if negb (optional_match SAFE_ID artifact_kind) then Raise (ValueError (u8 "artifact_kind inválido")) else
  if negb (optional_match SAFE_ID effect_id) then Raise (ValueError (u8 "effect_id inválido")) else
  match effect_of_text effect_state with
  | None => Raise (ValueError (u8 "effect_state inválido"))
  | Some fx =>
    if xorb (bool_decide (fx = fx_none)) (bool_decide (effect_id = None))
    then Raise (ValueError (u8 "effect_id incompatível com effect_state")) else
    if sequence <? 1 then Raise (ValueError (u8 "sequence inválida")) else
    let sha := (fun s => lower (strip s)) <$> artifact_sha256 in
    if negb (optional_match SHA256_HEX sha) then Raise (ValueError (u8 "artifact_sha256 inválido")) else
    let stage := strip stage in
    let next_action := sanitize (strip next_action) in
    let artifact_ref := clean_ref artifact_ref in
    let result_ref := clean_ref effect_result_ref in
    let correlation_id := strip correlation_id in
    if negb (nonempty next_action) || negb (nonempty correlation_id)
    then Raise (ValueError "checkpoint incompleto") else
    if (bool_decide (fx = fx_confirmed) || bool_decide (fx = fx_not_applied)) && negb (truthy result_ref)
    then Raise (ValueError (u8 "effect_result_ref obrigatório para efeito resolvido")) else
    if bool_decide (fx = fx_none) && bool_decide (is_Some result_ref)
    then Raise (ValueError "effect_result_ref exige effect_id") else
    Ok (CheckpointArgs.mk checkpoint_id sequence stage next_action correlation_id artifact_kind
          artifact_ref sha effect_id fx result_ref)
  end.

Definition checkpoint_digest (a : CheckpointArgs.t) : string :=
  semantic_digest (checkpoint_semantic (CheckpointArgs.checkpoint_id a) (CheckpointArgs.sequence a)
    (CheckpointArgs.stage a) (CheckpointArgs.artifact_kind a) (CheckpointArgs.artifact_ref a)
    (CheckpointArgs.artifact_sha256 a) (CheckpointArgs.next_action a) (CheckpointArgs.effect_id a)
    (CheckpointArgs.effect_state a) (CheckpointArgs.effect_result_ref a)).

Definition checkpoint_row (tid : string) (gen : Z) (attempt stamp : string) (a : CheckpointArgs.t)
  : Checkpoint.t :=
  Checkpoint.mk tid (CheckpointArgs.checkpoint_id a) gen attempt (CheckpointArgs.sequence a)
    (CheckpointArgs.stage a) (CheckpointArgs.artifact_kind a) (CheckpointArgs.artifact_ref a)
    (CheckpointArgs.artifact_sha256 a) (CheckpointArgs.next_action a) (CheckpointArgs.effect_id a)
    (CheckpointArgs.effect_state a) (CheckpointArgs.effect_result_ref a) (checkpoint_digest a)
    (CheckpointArgs.correlation_id a) stamp.

(** An [unknown] checkpoint of the effect without reconciliation. *)
Definition unresolved_unknown (d : DB) (tid : string) (effect : option string) : bool :=
  match effect with
  | None => false
  | Some _ => existsb (fun c => bool_decide (Checkpoint.task_id c = tid) &&
                bool_decide (Checkpoint.effect_id c = effect) &&
                bool_decide (Checkpoint.effect_state c = fx_unknown) && negb (reconciled d c))
                (task_checkpoints d)
  end.

(** [SELECT MAX(sequence)], 0 when there is no row. *)
Definition last_sequence (d : DB) (tid : string) (gen : Z) : Z :=
  fold_right Z.max 0 (map Checkpoint.sequence
    (List.filter (fun c => bool_decide (Checkpoint.task_id c = tid) && (Checkpoint.lease_generation c =? gen))
       (task_checkpoints d))).

(** ** Reads *)

Module CheckpointView.
Record t := mk {
  checkpoint : Checkpoint.t; reconciliation_outcome : option string;
  reconciliation_readback_ref : option string; reconciled_at : option string }.
End CheckpointView.

(** [LEFT JOIN effect_reconciliations] on task, effect and generation. *)
Definition join_reconciliation (d : DB) (c : Checkpoint.t) : CheckpointView.t :=
  let r := match Checkpoint.effect_id c with
           | Some e => first (reconciliation_is (Checkpoint.task_id c) e (Checkpoint.lease_generation c))
                         (effect_reconciliations d)
           | None => None
           end in
  CheckpointView.mk c (Reconciliation.outcome <$> r) (Reconciliation.readback_ref <$> r)
    (Reconciliation.created_at <$> r).

(** [ORDER BY lease_generation DESC, sequence DESC] *)
Definition newer (a b : Checkpoint.t) : bool :=
  (Checkpoint.lease_generation b <? Checkpoint.lease_generation a) ||
  ((Checkpoint.lease_generation a =? Checkpoint.lease_generation b) &&
   (Checkpoint.sequence b <=? Checkpoint.sequence a)).

Definition latest_for_effect (d : DB) (tid effect : string) : option Checkpoint.t :=
  least newer (List.filter (fun c => bool_decide (Checkpoint.task_id c = tid) &&
    bool_decide (Checkpoint.effect_id c = Some effect)) (task_checkpoints d)).

Definition latest_checkpoint_in (d : DB) (tid : string) : option CheckpointView.t :=
  join_reconciliation d <$>
    least newer (List.filter (fun c => bool_decide (Checkpoint.task_id c = tid)) (task_checkpoints d)).

Fixpoint insert_by_effect (c : Checkpoint.t) (l : list Checkpoint.t) : list Checkpoint.t :=
  match l with
  | [] => [c]
  | x :: l' =>
      if text_leb (default ""%string (Checkpoint.effect_id c)) (default ""%string (Checkpoint.effect_id x))
      then c :: l else x :: insert_by_effect c l'
  end.

(** The last checkpoint of each effect, [ORDER BY effect_id]. *)
Definition open_effects (d : DB) (tid : string) : list CheckpointView.t :=
  map (join_reconciliation d) (foldr insert_by_effect []
    (List.filter (fun c => bool_decide (Checkpoint.task_id c = tid) &&
        bool_decide (is_Some (Checkpoint.effect_id c)) &&
        negb (existsb (later_checkpoint c) (task_checkpoints d))) (task_checkpoints d))).

Definition touched (correlation_id stamp : string) (t : Task.t) : Task.t := Eval cbn in
  t <| Task.last_material_progress_at := stamp |> <| Task.correlation_id := correlation_id |>
    <| Task.updated_at := stamp |>.

#[global] Arguments semantic_digest : simpl never.
#[global] Arguments checkpoint_digest : simpl never.

Section Effects.
Context {self : Store}.

(** The transaction of [record_checkpoint]. *)
Definition checkpoint_body (tid worker_id lease_token : string) (lease_generation : Z)
  (attempt_id : string) (a : CheckpointArgs.t) : M World (Checkpoint.t * bool) :=
  lease_row ← check_lease tid worker_id lease_token ACTIVE (Some lease_generation) (Some attempt_id);
  raise_if (negb (Task.fencing_required lease_row)) (ConflictError "checkpoint exige task cercada") ;;
  existing ← query (fun d => first (checkpoint_is tid (CheckpointArgs.checkpoint_id a)) (task_checkpoints d));
  match existing with
  | Some row =>
      raise_if (negb (bool_decide (Checkpoint.content_digest row = checkpoint_digest a)))
        (ConflictError "checkpoint divergente no replay") ;;
      mret (row, false)
  | None =>
      u ← query (fun d => unresolved_unknown d tid (CheckpointArgs.effect_id a));
      raise_if u (ConflictError (u8 "efeito unknown exige reconciliação independente")) ;;
      last ← query (fun d => last_sequence d tid lease_generation);
      raise_if (negb (CheckpointArgs.sequence a =? last + 1))
        (ConflictError (u8 "sequence de checkpoint inválida")) ;;
      stamp ← now_stamp;
      exec (insert_checkpoint (checkpoint_row tid lease_generation attempt_id stamp a)) ;;
      set_task tid (touched (CheckpointArgs.correlation_id a) stamp) ;;
      created ← query (fun d => first (checkpoint_is tid (CheckpointArgs.checkpoint_id a)) (task_checkpoints d));
      row ← of_option created not_found;
      mret (row, true)
  end.

Definition record_checkpoint (tid worker_id lease_token : string) (lease_generation : Z)
  (attempt_id checkpoint_id : string) (sequence : Z) (stage next_action correlation_id : string)
  (artifact_kind artifact_ref artifact_sha256 effect_id : option string) (effect_state : string)
  (effect_result_ref : option string) : M World (Checkpoint.t * bool) :=
  a ← lift (checkpoint_args checkpoint_id sequence stage next_action correlation_id artifact_kind
              artifact_ref artifact_sha256 effect_id effect_state effect_result_ref);
  tx (fun _ => checkpoint_body tid worker_id lease_token lease_generation attempt_id a).

Definition get_latest_checkpoint (tid : string) : M World (option CheckpointView.t) :=
  known ← query (fun d => existsb (task_is tid) (tasks d));
  raise_if (negb known) (NotFoundError (u8 "task não encontrada: " ++ tid)) ;;
  query (fun d => latest_checkpoint_in d tid).

Definition get_recovery_context (tid : string)
  : M World (option CheckpointView.t * list CheckpointView.t) :=
  latest ← get_latest_checkpoint tid;
  effects ← query (fun d => open_effects d tid);
  mret (latest, effects).

(** The transaction of [reconcile_effect]. *)
Definition reconcile_effect_body (tid effect_id : string) (lease_generation : Z)
  (outcome readback_ref correlation_id digest : string) : M World (Reconciliation.t * bool) :=
  found ← query (fun d => find_task d tid);
  task ← of_option found (NotFoundError (u8 "task não encontrada: " ++ tid));
  existing ← query (fun d => first (reconciliation_is tid effect_id lease_generation) (effect_reconciliations d));
  match existing with
  | Some row =>
      raise_if (negb (bool_decide (Reconciliation.content_digest row = digest)))
        (ConflictError (u8 "reconciliação divergente no replay")) ;;
      mret (row, false)
  | None =>
      raise_if (negb (Task.fencing_required task)) (ConflictError (u8 "reconciliação exige task cercada")) ;;
      raise_if (negb (bool_decide (Task.state task = blocked)) ||
                negb (bool_decide (Task.blocked_reason task = Some effect_required)))
        (ConflictError (u8 "task não aguarda reconciliação de efeito")) ;;
      latest ← query (fun d => latest_for_effect d tid effect_id);
      latest ← of_option
        (c ← latest; if bool_decide (Checkpoint.effect_state c = fx_pending) ||
                        bool_decide (Checkpoint.effect_state c = fx_unknown) then Some c else None)
        (ConflictError (u8 "efeito não está pendente de reconciliação"));
      raise_if (negb (Checkpoint.lease_generation latest =? lease_generation))
        (ConflictError (u8 "lease_generation da reconciliação divergente")) ;;
      stamp ← now_stamp;
      exec (insert_reconciliation (Reconciliation.mk tid effect_id lease_generation outcome readback_ref
        digest correlation_id stamp)) ;;
      created ← query (fun d => first (reconciliation_is tid effect_id lease_generation) (effect_reconciliations d));
      row ← of_option created not_found;
      mret (row, true)
  end.

Definition reconcile_effect (tid effect_id : string) (lease_generation : Z)
  (outcome readback_ref correlation_id : string) : M World (Reconciliation.t * bool) :=
  raise_if (negb (fullmatch SAFE_ID effect_id)) (ValueError (u8 "effect_id inválido")) ;;
  raise_if (lease_generation <? 1) (ValueError (u8 "lease_generation inválida")) ;;
  raise_if (negb (bool_decide (outcome = "confirmed"%string)) && negb (bool_decide (outcome = "not_applied"%string)))
    (ValueError (u8 "outcome de reconciliação inválido")) ;;
  let readback_ref := sanitize (strip readback_ref) in
  let correlation_id := strip correlation_id in
  raise_if (negb (nonempty readback_ref) || negb (nonempty correlation_id))
    (ValueError (u8 "reconciliação incompleta")) ;;
  let digest := semantic_digest (reconciliation_semantic effect_id lease_generation outcome readback_ref) in
  tx (fun _ => reconcile_effect_body tid effect_id lease_generation outcome readback_ref correlation_id digest).
End Effects.
