(* ===== verification/Lifecycle.v ===== *)
(** The contract of the store as a transition system: the life of one task
    row ([TaskStep]), the steps of the five tables that carry it ([Step]), and
    the well-formedness of a row and of the tables.  [StoreRefine] shows that
    every operation is a sequence of these steps. *)
From S2P Require Import Prelude PyStr Clock Names Schema Store Claim LeaseOps Effects.
From stdpp Require Import strings relations.

Local Open Scope Z_scope.

(** ** The life of a row *)

(** [u]: the task is fenced and has an unresolved effect. *)
Inductive TaskStep (u : bool) : Task.t → Task.t → Prop :=
  | ts_claim role w token attempt expires cid stamp t :
      Task.state t = wanted_state role → Task.leased_by t = None → nonempty attempt = true →
      (role = validator → is_Some (Task.produced_sha t) ∧ Task.builder_worker_id t ≠ Some w) →
      TaskStep u t (claimed role w token attempt expires cid stamp t t)
  | ts_renew expires cid stamp t :
      active t = true → is_Some (Task.leased_by t) → TaskStep u t (renewed expires cid stamp t)
  | ts_start w cid stamp t :
      Task.state t = leased → Task.leased_by t = Some w → TaskStep u t (started w cid stamp t)
  | ts_submit w sha cid stamp t :
      Task.state t = running → Task.leased_by t = Some w → Task.builder_worker_id t = Some w →
      fullmatch SHA40 sha = true → u = false → TaskStep u t (submitted sha cid stamp t)
  | ts_complete w cid stamp t :
      Task.state t = validating → Task.leased_by t = Some w → Task.builder_worker_id t ≠ Some w →
      truthy (Task.produced_sha t) = true → u = false → TaskStep u t (completed_with cid stamp t)
  | ts_fail error cid stamp t :
      active t = true → is_Some (Task.leased_by t) → u = false →
      TaskStep u t (failed_with (if Task.max_attempts t <=? Task.attempt_count t then failed
                                 else resume_state t) error cid stamp t)
  | ts_block reason cid stamp t :
      active t = true → is_Some (Task.leased_by t) → (u = true → reason = effect_required) →
      TaskStep u t (blocked_with reason cid stamp t)
  | ts_recover st reason error stamp t :
      active t = true →
      (if u then st = blocked ∧ reason = Some effect_required
       else if Task.max_attempts t <=? Task.attempt_count t then st = failed
       else st = resume_state t ∨ st = blocked) →
      TaskStep u t (recovered st reason error stamp t)
  | ts_requeue cid stamp t :
      Task.state t = blocked → u = false → TaskStep u t (requeued (resume_state t) cid stamp t)
  | ts_touch cid stamp t :
      active t = true → is_Some (Task.leased_by t) → TaskStep u t (touched cid stamp t).

(** ** Well-formed rows *)

(** The lease columns are set together. *)
Definition lease_set (t : Task.t) : Prop :=
  ∃ w tok e a, Task.leased_by t = Some w ∧ Task.lease_token t = Some tok ∧
    Task.lease_expires_at t = Some e ∧ Task.attempt_id t = Some a ∧ nonempty a = true ∧
    1 ≤ Task.lease_generation t.
Definition lease_clear (t : Task.t) : Prop :=
  Task.leased_by t = None ∧ Task.lease_token t = None ∧
  Task.lease_expires_at t = None ∧ Task.attempt_id t = None.
(** A valid commit is recorded, with the builder that made it. *)
Definition has_product (t : Task.t) : Prop :=
  ∃ sha b, Task.produced_sha t = Some sha ∧ fullmatch SHA40 sha = true ∧
    Task.builder_worker_id t = Some b.

(** What the row guarantees in each state. *)
Definition wf_state (t : Task.t) : Prop :=
  match Task.state t with
  | queued => lease_clear t ∧ Task.produced_sha t = None
  | leased => lease_set t ∧ Task.produced_sha t = None
  | running => lease_set t ∧ Task.produced_sha t = None ∧ Task.builder_worker_id t = Task.leased_by t
  | validating =>
      has_product t ∧
      (lease_clear t ∨
       (lease_set t ∧ Task.validator_worker_id t = Task.leased_by t ∧
        Task.builder_worker_id t ≠ Task.leased_by t))
  | blocked | failed => lease_clear t ∧ (Task.produced_sha t = None ∨ has_product t)
  | completed =>
      lease_clear t ∧ has_product t ∧ is_Some (Task.validator_worker_id t) ∧
      Task.validator_worker_id t ≠ Task.builder_worker_id t
  end.

Record wf_task (t : Task.t) : Prop := {
  wf_in_state : wf_state t;
  wf_counts : Task.attempt_count t = Task.lease_generation t;
  wf_generation : 0 ≤ Task.lease_generation t;
  wf_max : 1 ≤ Task.max_attempts t;
  wf_identity : Task.task_id t = task_id (Task.idempotency_key t) }.

Lemma sha40_truthy sha : fullmatch SHA40 sha = true → nonempty sha = true.
Proof.
  unfold SHA40. rewrite fullmatch_times. intros [Hl _]. by destruct sha.
Qed.

Lemma resume_product t : has_product t → resume_state t = validating.
Proof.
  intros (sha & b & E & Hs & _). unfold resume_state, truthy. rewrite E.
  by rewrite (sha40_truthy _ Hs).
Qed.
Lemma resume_none t : Task.produced_sha t = None → resume_state t = queued.
Proof. unfold resume_state. by intros ->. Qed.

(** The columns that no operation rewrites. *)
Definition same_identity (t t' : Task.t) : Prop :=
  Task.task_id t' = Task.task_id t ∧ Task.repository t' = Task.repository t ∧
  Task.issue_number t' = Task.issue_number t ∧ Task.request_id t' = Task.request_id t ∧
  Task.idempotency_key t' = Task.idempotency_key t ∧ Task.branch t' = Task.branch t ∧
  Task.workspace_key t' = Task.workspace_key t ∧ Task.base_sha t' = Task.base_sha t ∧
  Task.fencing_required t' = Task.fencing_required t ∧ Task.max_attempts t' = Task.max_attempts t ∧
  Task.priority t' = Task.priority t ∧ Task.created_at t' = Task.created_at t.

Lemma step_identity u t t' : TaskStep u t t' → same_identity t t'.
Proof. destruct 1; repeat split. Qed.

Lemma step_generation u t t' :
  TaskStep u t t' →
  Task.lease_generation t' = Task.lease_generation t ∨
  (Task.lease_generation t' = Task.lease_generation t + 1 ∧ Task.leased_by t = None ∧
   is_Some (Task.leased_by t')).
Proof. destruct 1; cbn; eauto. Qed.

Lemma wf_leased t :
  wf_task t → is_Some (Task.leased_by t) → lease_set t ∧ active t = true.
Proof.
  intros [Hs _ _ _ _] [w Hw]. unfold wf_state, active in *. unfold lease_clear in *.
  destruct (Task.state t); cbn; try (destruct_and?; congruence); intuition congruence.
Qed.

Lemma wf_active_product t :
  wf_task t → active t = true → Task.produced_sha t = None ∨ has_product t.
Proof.
  intros [Hs _ _ _ _] Ha. unfold wf_state, active in *. destruct (Task.state t); try done; tauto.
Qed.

Lemma released_clear st t : lease_clear (released st t).
Proof. repeat split. Qed.

(** Releasing an active row to the state it resumes from, to [blocked] or to
    [failed], whatever else the update writes. *)
Lemma release_wf t t' :
  wf_task t → active t = true →
  Task.state t' = resume_state t ∨ Task.state t' = blocked ∨ Task.state t' = failed →
  lease_clear t' → Task.produced_sha t' = Task.produced_sha t →
  Task.builder_worker_id t' = Task.builder_worker_id t →
  Task.attempt_count t' = Task.attempt_count t → Task.lease_generation t' = Task.lease_generation t →
  same_identity t t' → wf_task t'.
Proof.
  intros Hwf Ha Hst Hcl Ep Eb Ec Eg (Hid & _ & _ & _ & Hk & _ & _ & _ & _ & Hmax & _).
  pose proof (wf_active_product t Hwf Ha) as Hp. destruct Hwf as [_ Hc Hg Hm Hi].
  assert (Task.produced_sha t' = None ∨ has_product t') as Hp'.
  { unfold has_product in *. rewrite Ep, Eb. done. }
  split; rewrite ?Ec, ?Eg, ?Hmax, ?Hid, ?Hk; try done.
  unfold wf_state. destruct Hst as [E|[E|E]]; rewrite E; [|done..].
  destruct Hp as [Hp|Hp].
  - rewrite (resume_none t Hp). split; [done|]. congruence.
  - rewrite (resume_product t Hp). split; [|by left].
    unfold has_product in *. by rewrite Ep, Eb.
Qed.

Lemma claim_wf role w token attempt expires cid stamp t :
  wf_task t → Task.state t = wanted_state role → Task.leased_by t = None →
  nonempty attempt = true →
  (role = validator → is_Some (Task.produced_sha t) ∧ Task.builder_worker_id t ≠ Some w) →
  wf_task (claimed role w token attempt expires cid stamp t t).
Proof.
  intros [Hs Hc Hg Hm Hi] Hst Hl Ha Hv. split; try done; try (cbn; lia).
  assert (lease_set (claimed role w token attempt expires cid stamp t t)) as Hset.
  { exists w, token, expires, attempt. cbn. repeat split; [done|lia]. }
  unfold wf_state in *. rewrite Hst in Hs. destruct role; cbn in *.
  - by destruct Hs.
  - destruct (Hv eq_refl) as [_ Hb]. destruct Hs as [Hp _]. split; [done|]. by right.
Qed.

Lemma step_wf u t t' : wf_task t → TaskStep u t t' → wf_task t'.
Proof.
  intros Hwf Hstep. pose proof (step_identity _ _ _ Hstep) as Hid. destruct Hstep as
    [role w token attempt expires cid stamp t Hst Hl Ha Hv|expires cid stamp t Hact Hl
    |w cid stamp t Hst Hl|w sha cid stamp t Hst Hl Hb Hsha Hu|w cid stamp t Hst Hl Hb Hp Hu
    |error cid stamp t Hact Hl Hu|reason cid stamp t Hact Hl Hr|st reason error stamp t Hact Hout
    |cid stamp t Hst Hu|cid stamp t Hact Hl].
  - by apply claim_wf.
  - destruct (wf_leased t Hwf Hl) as [(w & tok & e & a & H1 & H2 & H3 & H4 & H5 & H6) _].
    destruct Hwf as [Hs Hc Hg Hm Hi]. split; try done.
    unfold wf_state, active, lease_clear, lease_set, has_product in *. cbn.
    destruct (Task.state t); try done; naive_solver.
  - destruct (wf_leased t Hwf ltac:(eauto)) as [Hset _].
    destruct Hwf as [Hs Hc Hg Hm Hi]. split; try done.
    unfold wf_state, lease_set in *. rewrite Hst in Hs. cbn. by destruct Hs.
  - destruct Hwf as [Hs Hc Hg Hm Hi]. split; try done. unfold wf_state. cbn.
    split; [exists sha, w; done|]. left. repeat split.
  - destruct Hwf as [Hs Hc Hg Hm Hi]. split; try done. unfold wf_state in *. cbn.
    rewrite Hst in Hs. destruct Hs as (Hprod & [[Hno _]|(_ & Hval & Hne)]); [congruence|].
    rewrite Hval, Hl in *. repeat split; eauto.
  - apply (release_wf t); try done. cbn. destruct (_ <=? _); auto.
  - apply (release_wf t); try done. cbn. auto.
  - apply (release_wf t); try done. cbn.
    destruct u; [naive_solver|]. destruct (_ <=? _); naive_solver.
  - destruct Hwf as [Hs Hc Hg Hm Hi]. split; try done. unfold wf_state in *.
    rewrite Hst in Hs. cbn. destruct Hs as [Hcl [Hp|Hp]].
    + by rewrite (resume_none t Hp).
    + rewrite (resume_product t Hp). by split; [|left].
  - destruct Hwf as [Hs Hc Hg Hm Hi]. split; try done.
Qed.

(** ** Steps of the database *)

(** The task is fenced and waits for a reconciliation. *)
Definition needs_reconciliation (d : DB) (t : Task.t) : bool :=
  Task.fencing_required t && has_unresolved_effect d (Task.task_id t).

(** Row [t] becomes [t'], accepted by the unique indexes. *)
Definition replace_row (t t' : Task.t) (d d' : DB) : Prop :=
  t ∈ tasks d ∧
  tasks d' = update_where (task_is (Task.task_id t)) (fun _ => t') (tasks d) ∧
  index_check t' (filter (fun u => negb (task_is (Task.task_id t) u)) (tasks d)) = Ok tt.

Definition fresh_row (t : Task.t) : Prop :=
  Task.state t = queued ∧ lease_clear t ∧ Task.produced_sha t = None ∧
  Task.lease_generation t = 0 ∧ Task.attempt_count t = 0 ∧ 1 ≤ Task.max_attempts t ∧
  Task.task_id t = task_id (Task.idempotency_key t).

(** [_end_attempt] on the list of attempts. *)
Definition close_attempt (t : Task.t) (stamp reason : string) : list Attempt.t → list Attempt.t :=
  if negb (truthy (Task.attempt_id t)) then (fun l => l)
  else update_where (attempt_is (default ""%string (Task.attempt_id t))) (fun a =>
    a <| Attempt.ended_at := Some (default stamp (Attempt.ended_at a)) |>
      <| Attempt.end_reason := Some (default reason (Attempt.end_reason a)) |>).

(** Attempts that differ in the expiry only. *)
Definition same_attempt (a b : Attempt.t) : Prop :=
  Attempt.attempt_id a = Attempt.attempt_id b ∧ Attempt.task_id a = Attempt.task_id b ∧
  Attempt.lease_generation a = Attempt.lease_generation b ∧ Attempt.worker_id a = Attempt.worker_id b ∧
  Attempt.role a = Attempt.role b ∧ Attempt.ended_at a = Attempt.ended_at b.

Definition quarantined (d : DB) (tid : string) : nat :=
  length (List.filter (fun q => bool_decide (Quarantine.task_id q = tid)) (quarantine d)).

Inductive Step (d d' : DB) : Prop :=
  | st_frame :
      tasks d' = tasks d → quarantine d' = quarantine d → task_attempts d' = task_attempts d →
      task_checkpoints d' = task_checkpoints d →
      effect_reconciliations d' = effect_reconciliations d → Step d d'
  | st_admit t :
      fresh_row t → insert_task t d = Ok d' → Step d d'
  | st_claim role w token attempt expires cid stamp t t' :
      t' = claimed role w token attempt expires cid stamp t t →
      TaskStep (needs_reconciliation d t) t t' → replace_row t t' d d' →
      task_attempts d' = task_attempts d ++
        [Attempt.mk attempt (Task.task_id t) (Task.lease_generation t') w role stamp expires None None] →
      existsb (attempt_is attempt) (task_attempts d) = false →
      quarantine d' = quarantine d → task_checkpoints d' = task_checkpoints d →
      effect_reconciliations d' = effect_reconciliations d → Step d d'
  | st_release t t' stamp reason q :
      TaskStep (needs_reconciliation d t) t t' → active t = true → lease_clear t' →
      replace_row t t' d d' → task_attempts d' = close_attempt t stamp reason (task_attempts d) →
      quarantine d' = quarantine d ++ (if bool_decide (Task.state t' = failed) then [q] else []) →
      Quarantine.task_id q = Task.task_id t →
      task_checkpoints d' = task_checkpoints d →
      effect_reconciliations d' = effect_reconciliations d → Step d d'
  | st_keep t t' :
      TaskStep (needs_reconciliation d t) t t' →
      Task.leased_by t' = Task.leased_by t → Task.attempt_id t' = Task.attempt_id t →
      Task.lease_generation t' = Task.lease_generation t →
      (Task.state t = failed ↔ Task.state t' = failed) →
      replace_row t t' d d' → Forall2 same_attempt (task_attempts d) (task_attempts d') →
      quarantine d' = quarantine d → task_checkpoints d' = task_checkpoints d →
      effect_reconciliations d' = effect_reconciliations d → Step d d'
  | st_checkpoint t c stamp :
      active t = true → is_Some (Task.leased_by t) → Task.fencing_required t = true →
      replace_row t (touched (Checkpoint.correlation_id c) stamp t) d d' →
      Checkpoint.task_id c = Task.task_id t → Checkpoint.lease_generation c = Task.lease_generation t →
      Some (Checkpoint.attempt_id c) = Task.attempt_id t →
      Checkpoint.sequence c = last_sequence d (Task.task_id t) (Task.lease_generation t) + 1 →
      unresolved_unknown d (Task.task_id t) (Checkpoint.effect_id c) = false →
      existsb (checkpoint_is (Task.task_id t) (Checkpoint.checkpoint_id c)) (task_checkpoints d) = false →
      task_checkpoints d' = task_checkpoints d ++ [c] →
      quarantine d' = quarantine d → task_attempts d' = task_attempts d →
      effect_reconciliations d' = effect_reconciliations d → Step d d'
  | st_reconcile t r c :
      t ∈ tasks d → Task.fencing_required t = true → Task.state t = blocked →
      Reconciliation.task_id r = Task.task_id t →
      latest_for_effect d (Task.task_id t) (Reconciliation.effect_id r) = Some c →
      Checkpoint.lease_generation c = Reconciliation.lease_generation r →
      (Checkpoint.effect_state c = fx_pending ∨ Checkpoint.effect_state c = fx_unknown) →
      existsb (reconciliation_is (Task.task_id t) (Reconciliation.effect_id r)
        (Reconciliation.lease_generation r)) (effect_reconciliations d) = false →
      effect_reconciliations d' = effect_reconciliations d ++ [r] →
      tasks d' = tasks d → quarantine d' = quarantine d → task_attempts d' = task_attempts d →
      task_checkpoints d' = task_checkpoints d → Step d d'.
