(* ===== verification/StoreInv.v ===== *)
(** The invariants of the store's tables, preserved by every [Step]: row
    well-formedness and the unique active lease of a worker, the attempts that
    mirror the leases, the quarantine of failed tasks, the checkpoints and the
    effects that wait for a reconciliation. *)
From S2P Require Import Prelude PyStr Clock Names Schema Store Claim LeaseOps Effects Lifecycle.
From stdpp Require Import strings relations.

Local Open Scope Z_scope.

(** ** The invariants *)

Record RowsInv (d : DB) : Prop := {
  rows_ids : NoDup (Task.task_id <$> tasks d);
  rows_wf t : t ∈ tasks d → wf_task t;
  (** [idx_worker_active] *)
  rows_workers t u : t ∈ tasks d → u ∈ tasks d → same_active_worker t u = true → t = u;
  (** [idx_workspace_active] *)
  rows_workspaces t u : t ∈ tasks d → u ∈ tasks d → same_active_workspace t u = true → t = u }.

(** The attempt of a lease: open, of the same task, generation and worker. *)
Definition attempt_of (t : Task.t) (a : Attempt.t) : Prop :=
  Task.attempt_id t = Some (Attempt.attempt_id a) ∧ Attempt.task_id a = Task.task_id t ∧
  Attempt.lease_generation a = Task.lease_generation t ∧
  Task.leased_by t = Some (Attempt.worker_id a) ∧ Attempt.ended_at a = None.

Record AttemptsInv (d : DB) : Prop := {
  att_ids : NoDup (Attempt.attempt_id <$> task_attempts d);
  att_bound a : a ∈ task_attempts d → ∃ t, t ∈ tasks d ∧ Task.task_id t = Attempt.task_id a ∧
    1 ≤ Attempt.lease_generation a ≤ Task.lease_generation t;
  att_generation a b : a ∈ task_attempts d → b ∈ task_attempts d →
    Attempt.task_id a = Attempt.task_id b →
    Attempt.lease_generation a = Attempt.lease_generation b →
    Attempt.attempt_id a = Attempt.attempt_id b;
  att_leased t : t ∈ tasks d → is_Some (Task.attempt_id t) → ∃ a, a ∈ task_attempts d ∧ attempt_of t a;
  att_open a : a ∈ task_attempts d → Attempt.ended_at a = None → ∃ t, t ∈ tasks d ∧ attempt_of t a }.

Record QuarantineInv (d : DB) : Prop := {
  qr_rows t : t ∈ tasks d →
    quarantined d (Task.task_id t) = if bool_decide (Task.state t = failed) then 1%nat else 0%nat;
  qr_task q : q ∈ quarantine d → ∃ t, t ∈ tasks d ∧ Task.task_id t = Quarantine.task_id q }.

Record CheckpointsInv (d : DB) : Prop := {
  cp_task c : c ∈ task_checkpoints d → ∃ t, t ∈ tasks d ∧ Task.task_id t = Checkpoint.task_id c ∧
    Task.fencing_required t = true ∧ Checkpoint.lease_generation c ≤ Task.lease_generation t;
  cp_positive c : c ∈ task_checkpoints d → 1 ≤ Checkpoint.sequence c;
  (** Sequences have no gap. *)
  cp_contiguous tid gen n : 1 ≤ n ≤ last_sequence d tid gen → ∃ c, c ∈ task_checkpoints d ∧
    Checkpoint.task_id c = tid ∧ Checkpoint.lease_generation c = gen ∧ Checkpoint.sequence c = n;
  cp_unique c c' : c ∈ task_checkpoints d → c' ∈ task_checkpoints d →
    Checkpoint.task_id c = Checkpoint.task_id c' →
    Checkpoint.lease_generation c = Checkpoint.lease_generation c' →
    Checkpoint.sequence c = Checkpoint.sequence c' → c = c';
  cp_ids c c' : c ∈ task_checkpoints d → c' ∈ task_checkpoints d →
    Checkpoint.task_id c = Checkpoint.task_id c' →
    Checkpoint.checkpoint_id c = Checkpoint.checkpoint_id c' → c = c' }.

Record EffectsInv (d : DB) : Prop := {
  (** A fenced task with an unresolved effect is leased or waits for the
      reconciliation. *)
  fx_parked t : t ∈ tasks d → needs_reconciliation d t = true → Task.leased_by t = None →
    Task.state t = blocked ∧ Task.blocked_reason t = Some effect_required;
  (** An unreconciled [unknown] is the last checkpoint of its effect. *)
  fx_last c l : c ∈ task_checkpoints d → l ∈ task_checkpoints d →
    is_Some (Checkpoint.effect_id c) →
    Checkpoint.effect_state c = fx_unknown → reconciled d c = false → later_checkpoint c l = false }.

Record Inv (d : DB) : Prop := {
  inv_rows : RowsInv d;
  inv_attempts : AttemptsInv d;
  inv_quarantine : QuarantineInv d;
  inv_checkpoints : CheckpointsInv d;
  inv_effects : EffectsInv d }.

(** ** Rows *)

Lemma row_eq d t u :
  NoDup (Task.task_id <$> tasks d) → t ∈ tasks d → u ∈ tasks d →
  Task.task_id t = Task.task_id u → t = u.
Proof.
  intros Hnd Ht Hu E. apply list_elem_of_lookup in Ht as [i Hi], Hu as [j Hj].
  assert (i = j) as ->; [|congruence].
  eapply NoDup_lookup; [exact Hnd|rewrite list_lookup_fmap, Hi; done|].
  rewrite list_lookup_fmap, Hj. cbn. by rewrite E.
Qed.

Lemma replace_elem d d' t t' :
  replace_row t t' d d' →
  ∀ u, u ∈ tasks d' ↔ u = t' ∨ (u ∈ tasks d ∧ Task.task_id u ≠ Task.task_id t).
Proof.
  intros (Hin & E & _) u. rewrite E, elem_of_update. unfold task_is. split.
  - intros (y & Hy & ->). case_bool_decide; eauto.
  - intros [->|[Hu Hne]]; [exists t|exists u]; by case_bool_decide.
Qed.

Lemma replace_ids d d' t t' :
  replace_row t t' d d' → Task.task_id t' = Task.task_id t →
  Task.task_id <$> tasks d' = Task.task_id <$> tasks d.
Proof.
  intros (_ & -> & _) E. unfold update_where, task_is. induction (tasks d) as [|x l IH]; cbn; [done|].
  rewrite IH. case_bool_decide; congruence.
Qed.

Lemma index_check_worker t l u :
  index_check t l = Ok tt → u ∈ l → same_active_worker t u = false.
Proof.
  unfold index_check. destruct (existsb (same_active_worker t) l) eqn:E; [done|].
  intros _ Hu. by apply (proj1 (existsb_false _ _) E).
Qed.

Lemma index_check_workspace t l u :
  index_check t l = Ok tt → u ∈ l → same_active_workspace t u = false.
Proof.
  unfold index_check. destruct (existsb (same_active_worker t) l); [done|].
  destruct (existsb (same_active_workspace t) l) eqn:E; [done|].
  intros _ Hu. by apply (proj1 (existsb_false _ _) E).
Qed.

Lemma same_active_workspace_sym t u : same_active_workspace t u = same_active_workspace u t.
Proof.
  unfold same_active_workspace. rewrite (andb_comm (active t)).
  do 2 f_equal; [f_equal|]; apply bool_decide_ext; done.
Qed.

(** A symmetric relation that no other row has with the new one. *)
Lemma unique_replace (R : Task.t → Task.t → bool) d d' t t' :
  (∀ x y, R x y = R y x) → (∀ x y, x ∈ tasks d → y ∈ tasks d → R x y = true → x = y) →
  (∀ u, u ∈ filter (fun u => negb (task_is (Task.task_id t) u)) (tasks d) → R t' u = false) →
  replace_row t t' d d' → ∀ x y, x ∈ tasks d' → y ∈ tasks d' → R x y = true → x = y.
Proof.
  intros Hsym HR Hno Hr x y Hx Hy HRxy. pose proof (replace_elem _ _ _ _ Hr) as Hel.
  assert (∀ u, u ∈ tasks d → Task.task_id u ≠ Task.task_id t → R t' u = false) as Hno'.
  { intros u Hu Hne. apply Hno, list_elem_of_filter. split; [|done]. unfold task_is. by case_bool_decide. }
  apply Hel in Hx as [->|[Hx Hx']], Hy as [->|[Hy Hy']]; auto.
  - by rewrite Hno' in HRxy.
  - by rewrite Hsym, Hno' in HRxy.
Qed.
Lemma unique_snoc (R : Task.t → Task.t → bool) l t :
  (∀ x y, R x y = R y x) → (∀ x y, x ∈ l → y ∈ l → R x y = true → x = y) →
  (∀ u, u ∈ l → R t u = false) →
  ∀ x y, x ∈ l ++ [t] → y ∈ l ++ [t] → R x y = true → x = y.
Proof.
  intros Hsym HR Hno x y Hx Hy HRxy.
  apply elem_of_app in Hx as [Hx|Hx], Hy as [Hy|Hy]; rewrite ?list_elem_of_singleton in *; subst; auto.
  - by rewrite Hsym, Hno in HRxy.
  - by rewrite Hno in HRxy.
Qed.

Lemma same_active_worker_sym t u : same_active_worker t u = same_active_worker u t.
Proof.
  unfold same_active_worker. rewrite (andb_comm (active t)). f_equal.
  destruct (Task.leased_by t) as [w|] eqn:Et, (Task.leased_by u) as [v|] eqn:Eu; try done;
    repeat case_bool_decide; congruence.
Qed.

Lemma rows_replace d d' t t' :
  RowsInv d → replace_row t t' d d' → wf_task t' → Task.task_id t' = Task.task_id t → RowsInv d'.
Proof.
  intros [Hnd Hwf Hw Hk] Hr Hwf' Eid. pose proof Hr as (_ & _ & Hix). split.
  - by rewrite (replace_ids d d' t t').
  - intros u Hu. apply (replace_elem _ _ _ _ Hr) in Hu as [->|[Hu _]]; auto.
  - apply (unique_replace _ d d' t t'); try done; [apply same_active_worker_sym|].
    intros u. by apply index_check_worker.
  - apply (unique_replace _ d d' t t'); try done; [apply same_active_workspace_sym|].
    intros u. by apply index_check_workspace.
Qed.

(** What an accepted insertion of a task did. *)
Lemma insert_task_ok t d d' :
  insert_task t d = Ok d' →
  d' = d <| tasks := tasks d ++ [t] |> ∧ (∀ u, u ∈ tasks d → Task.task_id u ≠ Task.task_id t) ∧
  (∀ u, u ∈ tasks d → Task.idempotency_key u ≠ Task.idempotency_key t) ∧
  index_check t (tasks d) = Ok tt ∧
  (Task.fencing_required t = true → PoolControl.enabled (pool_control d) = true).
Proof.
  unfold insert_task. intros H.
  destruct (Task.fencing_required t && negb _) eqn:E1; [done|].
  destruct (existsb (task_is _) _) eqn:E2; [done|].
  destruct (existsb (fun u => bool_decide _) _) eqn:E3; [done|].
  destruct (index_check t (tasks d)) as [[]|] eqn:E4; [|done]. injection H as <-.
  repeat split; try done.
  - intros u Hu Hid. apply (proj1 (existsb_false _ _) E2) in Hu. unfold task_is in Hu.
    by rewrite bool_decide_eq_true_2 in Hu.
  - intros u Hu Hid. apply (proj1 (existsb_false _ _) E3) in Hu. by rewrite bool_decide_eq_true_2 in Hu.
  - intros Hf. rewrite Hf in E1. by destruct (PoolControl.enabled _).
Qed.

Lemma fresh_wf t : fresh_row t → wf_task t.
Proof.
  intros (Hs & Hc & Hp & Hg & Ha & Hm & Hid). split; rewrite ?Hg, ?Ha; try done.
  unfold wf_state. by rewrite Hs.
Qed.

Lemma rows_admit d d' t : RowsInv d → fresh_row t → insert_task t d = Ok d' → RowsInv d'.
Proof.
  intros [Hnd Hwf Hw Hk] Hf H. apply insert_task_ok in H as (-> & Hid & _ & Hix & _). split; cbn.
  - rewrite fmap_app. apply NoDup_app. split; [done|]. split; [|apply NoDup_singleton].
    intros i Hi Hi'. cbn in Hi'. apply list_elem_of_singleton in Hi' as ->.
    apply list_elem_of_fmap in Hi as (u & Eu & Hu). by apply (Hid u).
  - intros u Hu. apply elem_of_app in Hu as [Hu|Hu]; [by apply Hwf|].
    apply list_elem_of_singleton in Hu as ->. by apply fresh_wf.
  - apply unique_snoc; [apply same_active_worker_sym|done|]. intros u. by apply index_check_worker.
  - apply unique_snoc; [apply same_active_workspace_sym|done|]. intros u. by apply index_check_workspace.
Qed.

Lemma rows_frame d d' : tasks d' = tasks d → RowsInv d → RowsInv d'.
Proof. intros E [Hn Hw Hu Hk]. by split; rewrite E. Qed.

Lemma rows_step d d' : Step d d' → RowsInv d → RowsInv d'.
Proof.
  assert (∀ t t' u, TaskStep u t t' → replace_row t t' d d' → RowsInv d → RowsInv d') as Hrep.
  { intros t t' u Hs Hr Hi. eapply rows_replace; [done..| |].
    - eapply step_wf; [|done]. apply Hi. apply Hr.
    - by apply (step_identity _ _ _ Hs). }
  intros Hs Hi. destruct Hs.
  1,7: by eapply rows_frame.
  - eapply rows_admit; eauto.
  - eauto.
  - eauto.
  - eauto.
  - eapply Hrep; [|done|done]. by apply (ts_touch false).
Qed.

(** ** Attempts *)

Lemma attempts_frame d d' :
  tasks d' = tasks d → task_attempts d' = task_attempts d → AttemptsInv d → AttemptsInv d'.
Proof. intros E1 E2 [H1 H2 H3 H4 H5]. split; rewrite ?E1, ?E2; done. Qed.

Lemma same_attempt_ids l l' :
  Forall2 same_attempt l l' → Attempt.attempt_id <$> l' = Attempt.attempt_id <$> l.
Proof. induction 1 as [|a b l l' (E & _)]; cbn; congruence. Qed.

Lemma same_attempt_from l l' a' :
  Forall2 same_attempt l l' → a' ∈ l' → ∃ a, a ∈ l ∧ same_attempt a a'.
Proof.
  induction 1 as [|a b l l' E H IH]; intros Hin; [by apply not_elem_of_nil in Hin|].
  apply elem_of_cons in Hin as [->|Hin]; [exists a; by split; [constructor|]|].
  destruct (IH Hin) as (x & Hx & ?). exists x. split; [by constructor|done].
Qed.
Lemma same_attempt_to l l' a :
  Forall2 same_attempt l l' → a ∈ l → ∃ a', a' ∈ l' ∧ same_attempt a a'.
Proof.
  induction 1 as [|x b l l' E H IH]; intros Hin; [by apply not_elem_of_nil in Hin|].
  apply elem_of_cons in Hin as [->|Hin]; [exists b; by split; [constructor|]|].
  destruct (IH Hin) as (y & Hy & ?). exists y. split; [by constructor|done].
Qed.

(** The row keeps its lease and the attempts change in the expiry only. *)
Lemma attempts_keep d d' t t' :
  AttemptsInv d → RowsInv d → replace_row t t' d d' → Task.task_id t' = Task.task_id t →
  Task.leased_by t' = Task.leased_by t → Task.attempt_id t' = Task.attempt_id t →
  Task.lease_generation t' = Task.lease_generation t →
  Forall2 same_attempt (task_attempts d) (task_attempts d') → AttemptsInv d'.
Proof.
  intros [Hn Hb Hg Hl Ho] [Hids _ _ _] Hr Eid El Ea Eg Hf.
  pose proof (replace_elem _ _ _ _ Hr) as Hel. destruct Hr as (Hin & _ & _).
  assert (∀ (x y : Attempt.t) u, same_attempt x y → attempt_of u x → attempt_of u y) as Hof.
  { intros x y u (E1 & E2 & E3 & E4 & E5 & E6). unfold attempt_of. by rewrite E1, E2, E3, E4, E6. }
  assert (∀ a, attempt_of t a ↔ attempt_of t' a) as Hot.
  { intros a. unfold attempt_of. by rewrite Eid, El, Ea, Eg. }
  assert (∀ u, u ∈ tasks d → ∃ v, v ∈ tasks d' ∧ Task.task_id v = Task.task_id u ∧
    Task.lease_generation v = Task.lease_generation u ∧ (∀ a, attempt_of u a → attempt_of v a)) as Hmove.
  { intros u Hu. destruct (decide (Task.task_id u = Task.task_id t)) as [E|E].
    - rewrite (row_eq d u t Hids Hu Hin E). exists t'. rewrite Hel. split; [by left|].
      split; [congruence|]. split; [congruence|]. intros a. apply Hot.
    - exists u. rewrite Hel. split; [by right|done]. }
  split.
  - by rewrite (same_attempt_ids _ _ Hf).
  - intros a' Ha'. destruct (same_attempt_from _ _ _ Hf Ha') as (a & Hina & (_ & E2 & E3 & _)).
    destruct (Hb a Hina) as (u & Hu & Eu & Hr). destruct (Hmove u Hu) as (v & Hv & Ev & Evg & _).
    exists v. rewrite Ev, Evg, <- E2, <- E3. done.
  - intros a' b' Ha' Hb'.
    destruct (same_attempt_from _ _ _ Hf Ha') as (a & Hina & (<- & <- & <- & _)).
    destruct (same_attempt_from _ _ _ Hf Hb') as (b & Hinb & (<- & <- & <- & _)). by apply Hg.
  - intros v Hv Hs. apply Hel in Hv as [->|[Hv _]].
    + rewrite Ea in Hs. destruct (Hl t Hin Hs) as (a & Hina & Hat).
      destruct (same_attempt_to _ _ _ Hf Hina) as (a' & Hina' & Hsa). exists a'. split; [done|].
      apply (Hof a); [done|]. by apply Hot.
    + destruct (Hl v Hv Hs) as (a & Hina & Hat).
      destruct (same_attempt_to _ _ _ Hf Hina) as (a' & Hina' & Hsa). exists a'. eauto.
  - intros a' Ha' Hopen. destruct (same_attempt_from _ _ _ Hf Ha') as (a & Hina & Hsa).
    assert (Attempt.ended_at a = None) as Hopen' by (destruct Hsa as (?&?&?&?&?&->); done).
    destruct (Ho a Hina Hopen') as (u & Hu & Hat). destruct (Hmove u Hu) as (v & Hv & _ & _ & Hto).
    exists v. eauto.
Qed.

Lemma attempts_admit d d' t :
  AttemptsInv d → fresh_row t → tasks d' = tasks d ++ [t] → task_attempts d' = task_attempts d →
  AttemptsInv d'.
Proof.
  intros [Hn Hb Hg Hl Ho] (_ & (_ & _ & _ & Ha) & _) E1 E2. split; rewrite ?E1, ?E2; try done.
  - intros a Hin. destruct (Hb a Hin) as (u & Hu & ?). exists u. split; [apply elem_of_app; by left|done].
  - intros u Hu Hs. apply elem_of_app in Hu as [Hu|Hu]; [by apply Hl|].
    apply list_elem_of_singleton in Hu as ->. rewrite Ha in Hs. by destruct Hs.
  - intros a Hin Hop. destruct (Ho a Hin Hop) as (u & Hu & ?). exists u.
    split; [apply elem_of_app; by left|done].
Qed.

Lemma attempts_claim d d' t t' a :
  AttemptsInv d → RowsInv d → replace_row t t' d d' → Task.task_id t' = Task.task_id t →
  Task.lease_generation t' = Task.lease_generation t + 1 → 0 ≤ Task.lease_generation t →
  Task.attempt_id t = None → attempt_of t' a → task_attempts d' = task_attempts d ++ [a] →
  existsb (attempt_is (Attempt.attempt_id a)) (task_attempts d) = false → AttemptsInv d'.
Proof.
  intros [Hn Hb Hg Hl Ho] [Hids _ _ _] Hr Eid Eg Hpos Ea Hat E Hfresh.
  pose proof (replace_elem _ _ _ _ Hr) as Hel. destruct Hr as (Hin & _ & _).
  assert (∀ b, b ∈ task_attempts d → Attempt.attempt_id b ≠ Attempt.attempt_id a) as Hne.
  { intros b Hb' Eb. apply (proj1 (existsb_false _ _) Hfresh) in Hb'. unfold attempt_is in Hb'.
    by rewrite bool_decide_eq_true_2 in Hb'. }
  assert (∀ b, b ∈ task_attempts d → Attempt.task_id b = Task.task_id t →
    Attempt.lease_generation b ≤ Task.lease_generation t) as Hlow.
  { intros b Hb' Eb. destruct (Hb b Hb') as (u & Hu & Eu & ?).
    rewrite (row_eq d u t Hids Hu Hin) in * by congruence. lia. }
  pose proof Hat as (Ha1 & Ha2 & Ha3 & _ & _). split; rewrite ?E.
  - rewrite fmap_app. apply NoDup_app. split; [done|]. split; [|apply NoDup_singleton].
    intros i Hi Hi'. apply list_elem_of_singleton in Hi' as ->.
    apply list_elem_of_fmap in Hi as (b & Eb & Hb'). by apply (Hne b).
  - intros b Hb'. apply elem_of_app in Hb' as [Hb'|Hb'].
    + destruct (Hb b Hb') as (u & Hu & Eu & ?).
      destruct (decide (Task.task_id u = Task.task_id t)) as [Eq|Eq].
      * exists t'. rewrite Hel. split; [by left|]. rewrite (row_eq d u t Hids Hu Hin Eq) in *.
        split; [congruence|lia].
      * exists u. rewrite Hel. split; [by right|done].
    + apply list_elem_of_singleton in Hb' as ->. exists t'. rewrite Hel. split; [by left|].
      split; [congruence|lia].
  - intros b c Hb' Hc Etb Egb.
    apply elem_of_app in Hb' as [Hb'|Hb'], Hc as [Hc|Hc]; rewrite ?list_elem_of_singleton in *; subst; auto.
    + pose proof (Hlow b Hb' ltac:(congruence)). lia.
    + pose proof (Hlow c Hc ltac:(congruence)). lia.
  - intros u Hu Hs. apply Hel in Hu as [->|[Hu _]].
    + exists a. split; [apply elem_of_app; right; constructor|done].
    + destruct (Hl u Hu Hs) as (b & Hb' & ?). exists b. split; [apply elem_of_app; by left|done].
  - intros b Hb' Hop. apply elem_of_app in Hb' as [Hb'|Hb'].
    + destruct (Ho b Hb' Hop) as (u & Hu & Hub). exists u. rewrite Hel. split; [|done]. right. split; [done|].
      intros Eq. rewrite (row_eq d u t Hids Hu Hin Eq) in *. destruct Hub as (Hub & _). congruence.
    + apply list_elem_of_singleton in Hb' as ->. exists t'. rewrite Hel. split; [by left|done].
Qed.

(** [close_attempt] as an update of the list. *)
Lemma close_attempt_elem t stamp reason l a' :
  a' ∈ close_attempt t stamp reason l → ∃ a, a ∈ l ∧
    Attempt.attempt_id a' = Attempt.attempt_id a ∧ Attempt.task_id a' = Attempt.task_id a ∧
    Attempt.lease_generation a' = Attempt.lease_generation a ∧
    (Attempt.ended_at a' = None → a' = a ∧
      (truthy (Task.attempt_id t) = true → Task.attempt_id t ≠ Some (Attempt.attempt_id a))).
Proof.
  unfold close_attempt. destruct (truthy (Task.attempt_id t)) eqn:Et; cbn [negb].
  - rewrite elem_of_update. intros (a & Ha & ->). exists a. unfold attempt_is.
    case_bool_decide as Eq; cbn; repeat split; try done.
    intros _ Eq'. apply Eq. by rewrite Eq'.
  - intros Ha. by exists a'.
Qed.
Lemma close_attempt_keeps t stamp reason l a :
  a ∈ l → Task.attempt_id t ≠ Some (Attempt.attempt_id a) → a ∈ close_attempt t stamp reason l.
Proof.
  intros Ha Hne. unfold close_attempt. destruct (truthy (Task.attempt_id t)) eqn:Et; cbn [negb]; [|done].
  apply elem_of_update. exists a. split; [done|]. unfold attempt_is. case_bool_decide as Eq; [|done].
  destruct (Task.attempt_id t); [|done]. cbn in Eq. congruence.
Qed.
Lemma close_attempt_ids t stamp reason l :
  Attempt.attempt_id <$> close_attempt t stamp reason l = Attempt.attempt_id <$> l.
Proof.
  unfold close_attempt. destruct (negb _); [done|]. by apply update_fields.
Qed.

(** A lease is released: its attempt is closed. *)
Lemma attempts_release d d' t t' stamp reason :
  AttemptsInv d → RowsInv d → replace_row t t' d d' → Task.task_id t' = Task.task_id t →
  Task.lease_generation t' = Task.lease_generation t → Task.attempt_id t' = None →
  (∀ a, Task.attempt_id t = Some a → nonempty a = true) →
  task_attempts d' = close_attempt t stamp reason (task_attempts d) → AttemptsInv d'.
Proof.
  intros [Hn Hb Hg Hl Ho] [Hids _ _ _] Hr Eid Eg Ea Hne E.
  pose proof (replace_elem _ _ _ _ Hr) as Hel. destruct Hr as (Hin & _ & _). split; rewrite ?E.
  - by rewrite close_attempt_ids.
  - intros a' Ha'. apply close_attempt_elem in Ha' as (a & Hina & _ & -> & -> & _).
    destruct (Hb a Hina) as (u & Hu & Eu & ?).
    destruct (decide (Task.task_id u = Task.task_id t)) as [Eq|Eq].
    + exists t'. rewrite Hel. split; [by left|]. rewrite (row_eq d u t Hids Hu Hin Eq) in *.
      split; [congruence|lia].
    + exists u. rewrite Hel. split; [by right|done].
  - intros a' b' Ha' Hb'. apply close_attempt_elem in Ha' as (a & Hina & -> & -> & -> & _).
    apply close_attempt_elem in Hb' as (b & Hinb & -> & -> & -> & _). by apply Hg.
  - intros u Hu Hs. apply Hel in Hu as [->|[Hu Hne']]; [rewrite Ea in Hs; by destruct Hs|].
    destruct (Hl u Hu Hs) as (a & Hina & Hat). exists a. split; [|done].
    apply close_attempt_keeps; [done|]. intros Eq.
    destruct (Hl t Hin ltac:(eauto)) as (b & Hinb & (Hb1 & Hb2 & Hb3 & _)).
    destruct Hat as (_ & Ha2 & Ha3 & _). apply Hne'.
    assert (a = b) as ->; [|congruence].
    assert (Attempt.attempt_id a = Attempt.attempt_id b) as Eab by congruence.
    apply list_elem_of_lookup in Hina as [i Hi], Hinb as [j Hj].
    assert (i = j) as ->; [|congruence].
    eapply NoDup_lookup; [exact Hn|rewrite list_lookup_fmap, Hi; done|].
    rewrite list_lookup_fmap, Hj. cbn. by rewrite Eab.
  - intros a' Ha' Hop. apply close_attempt_elem in Ha' as (a & Hina & _ & _ & _ & Hcl).
    destruct (Hcl Hop) as [-> Hnot]. destruct (Ho a Hina Hop) as (u & Hu & Hua).
    exists u. rewrite Hel. split; [|done]. right. split; [done|]. intros Eq.
    rewrite (row_eq d u t Hids Hu Hin Eq) in *. destruct Hua as (Hua & _). apply Hnot; [|done].
    rewrite Hua. cbn. by apply Hne.
Qed.

Lemma wf_attempt_nonempty t a : wf_task t → Task.attempt_id t = Some a → nonempty a = true.
Proof.
  intros [Hs _ _ _ _] Ha. unfold wf_state, lease_clear, lease_set in *.
  destruct (Task.state t); destruct_and?; naive_solver congruence.
Qed.

Lemma wf_unleased t : wf_task t → Task.leased_by t = None → Task.attempt_id t = None.
Proof.
  intros [Hs _ _ _ _] Ha. unfold wf_state, lease_clear, lease_set in *.
  destruct (Task.state t); naive_solver congruence.
Qed.

Lemma step_clear_generation u t t' :
  TaskStep u t t' → Task.leased_by t' = None → Task.lease_generation t' = Task.lease_generation t.
Proof. intros H E. destruct (step_generation _ _ _ H) as [|(_ & _ & [w Hw])]; congruence. Qed.

Lemma same_attempt_refl l : Forall2 same_attempt l l.
Proof. induction l; constructor; [|done]. repeat split. Qed.

Lemma attempts_step d d' : Step d d' → RowsInv d → AttemptsInv d → AttemptsInv d'.
Proof.
  intros Hs Hr Ha. destruct Hs as
    [E _ Ea _ _|t Hf Hi|role w tok att ex cid stamp t t' E Hs Hrep Eatt Hfresh _ _ _
    |t t' stamp reason q Hs Hact Hcl Hrep Eatt _ _ _ _|t t' Hs El Eai Eg _ Hrep Hf _ _ _
    |t c stamp Hact Hl Hfen Hrep _ _ _ _ _ _ _ _ Eatt _|t r c _ _ _ _ _ _ _ _ _ Et _ Eatt _].
  - by eapply attempts_frame.
  - pose proof (insert_task_ok _ _ _ Hi) as (-> & _). by eapply attempts_admit.
  - pose proof (rows_wf d Hr t (proj1 Hrep)) as Hwf.
    assert (Task.leased_by t = None) as Hno.
    { subst t'. destruct (step_generation _ _ _ Hs) as [Eg|(_ & Hno & _)]; [cbn in Eg; lia|done]. }
    eapply (attempts_claim d d' t t'); [done..| | | | | |exact Eatt|exact Hfresh]; try by subst t'.
    + apply Hwf.
    + by apply wf_unleased.
  - eapply (attempts_release d d' t t'); [done..| | | | |exact Eatt].
    + by apply (step_identity _ _ _ Hs).
    + eapply step_clear_generation; [done|apply Hcl].
    + apply Hcl.
    + intros a. apply wf_attempt_nonempty. apply Hr. apply Hrep.
  - eapply (attempts_keep d d' t t'); try done. by apply (step_identity _ _ _ Hs).
  - eapply (attempts_keep d d' t); try done. rewrite Eatt. apply same_attempt_refl.
  - by eapply attempts_frame.
Qed.

(** ** Quarantine *)

Lemma quarantined_app d d' l tid :
  quarantine d' = quarantine d ++ l →
  quarantined d' tid =
    (quarantined d tid + length (List.filter (fun q => bool_decide (Quarantine.task_id q = tid)) l))%nat.
Proof. unfold quarantined. intros ->. by rewrite List.filter_app, length_app. Qed.

Lemma quarantined_none d tid :
  (∀ q, q ∈ quarantine d → Quarantine.task_id q ≠ tid) → quarantined d tid = 0%nat.
Proof.
  unfold quarantined. induction (quarantine d) as [|q l IH]; cbn; intros H; [done|].
  rewrite bool_decide_eq_false_2 by (apply H; constructor). apply IH. intros q' Hq'. apply H. by constructor.
Qed.

(** One row changes, and the list grows by [l]. *)
Lemma quarantine_replace d d' t t' l :
  QuarantineInv d → RowsInv d → replace_row t t' d d' → Task.task_id t' = Task.task_id t →
  quarantine d' = quarantine d ++ l → (∀ q, q ∈ l → Quarantine.task_id q = Task.task_id t) →
  (length l + (if bool_decide (Task.state t = failed) then 1 else 0) =
   if bool_decide (Task.state t' = failed) then 1 else 0)%nat → QuarantineInv d'.
Proof.
  intros [Hq Ht] [Hids _ _ _] Hr Eid E Hl Hn.
  pose proof (replace_elem _ _ _ _ Hr) as Hel. destruct Hr as (Hin & _ & _). split.
  - intros u Hu. rewrite (quarantined_app _ _ _ _ E). apply Hel in Hu as [->|[Hu Hne]].
    + rewrite Eid, (Hq t Hin), <- Hn.
      assert (List.filter (λ q, bool_decide (Quarantine.task_id q = Task.task_id t)) l = l) as ->; [|lia].
      clear -Hl. induction l as [|q l IH]; cbn; [done|].
      rewrite bool_decide_eq_true_2 by (apply Hl; constructor). f_equal. apply IH. intros x Hx. apply Hl. by constructor.
    + rewrite (Hq u Hu).
      assert (List.filter (λ q, bool_decide (Quarantine.task_id q = Task.task_id u)) l = []) as ->; [|cbn; lia].
      clear -Hl Hne. induction l as [|q l IH]; cbn; [done|].
      rewrite bool_decide_eq_false_2; [apply IH; intros x Hx; apply Hl; by constructor|].
      rewrite (Hl q) by constructor. congruence.
  - intros q Hin'. rewrite E in Hin'. apply elem_of_app in Hin' as [Hq'|Hq'].
    + destruct (Ht q Hq') as (u & Hu & Eu).
      destruct (decide (Task.task_id u = Task.task_id t)) as [Eq|Eq].
      * exists t'. rewrite Hel. split; [by left|congruence].
      * exists u. rewrite Hel. split; [by right|done].
    + exists t'. rewrite Hel. split; [by left|]. rewrite Eid. symmetry. by apply Hl.
Qed.

Lemma quarantine_frame d d' :
  tasks d' = tasks d → quarantine d' = quarantine d → QuarantineInv d → QuarantineInv d'.
Proof.
  intros E1 E2 [H1 H2]. split; unfold quarantined in *; rewrite ?E1, ?E2; done.
Qed.

Lemma quarantine_admit d t :
  QuarantineInv d → (∀ u, u ∈ tasks d → Task.task_id u ≠ Task.task_id t) → Task.state t = queued →
  QuarantineInv (d <| tasks := tasks d ++ [t] |>).
Proof.
  intros [Hq Ht] Hnew Hs. split; cbn.
  - intros u Hu. apply elem_of_app in Hu as [Hu|Hu]; [by apply Hq|].
    apply list_elem_of_singleton in Hu as ->. rewrite Hs. cbn. apply quarantined_none.
    intros q Hin. destruct (Ht q Hin) as (v & Hv & <-). by apply Hnew.
  - intros q Hin. destruct (Ht q Hin) as (v & Hv & E). exists v. split; [apply elem_of_app; by left|done].
Qed.

Lemma claim_from u role w tok att ex cid stamp t :
  TaskStep u t (claimed role w tok att ex cid stamp t t) → Task.state t = wanted_state role.
Proof.
  set (t' := claimed _ _ _ _ _ _ _ _ _).
  assert (Task.lease_generation t' = Task.lease_generation t + 1) as Eg by done.
  assert (Task.state t' = next_state role) as Es by done. clearbody t'.
  intros Hs. destruct Hs; cbn in Eg, Es; try lia. destruct role, role0; done.
Qed.

Lemma quarantine_step d d' : Step d d' → RowsInv d → QuarantineInv d → QuarantineInv d'.
Proof.
  intros Hs Hr Hq. destruct Hs as
    [E Eq _ _ _|t Hf Hi|role w tok att ex cid stamp t t' E Hs Hrep _ _ Eq _ _
    |t t' stamp reason q Hs Hact Hcl Hrep _ Eq Eqid _ _|t t' Hs _ _ _ Hst Hrep _ Eq _ _
    |t c stamp Hact _ _ Hrep _ _ _ _ _ _ _ Eq _ _|t r c _ _ _ _ _ _ _ _ _ Et Eq _ _].
  - by eapply quarantine_frame.
  - apply insert_task_ok in Hi as (-> & Hnew & _). apply quarantine_admit; [done..|]. apply Hf.
  - eapply (quarantine_replace d d' t t' []); try done.
    + by apply (step_identity _ _ _ Hs).
    + by rewrite app_nil_r.
    + intros ? H. by apply not_elem_of_nil in H.
    + subst t'. cbn. assert (Task.state t = wanted_state role) as ->.
      { by eapply claim_from. }
      by destruct role.
  - eapply (quarantine_replace d d' t t'); [done..| |exact Eq| |].
    + by apply (step_identity _ _ _ Hs).
    + intros p. case_bool_decide; intros Hp; [|by apply not_elem_of_nil in Hp].
      apply list_elem_of_singleton in Hp as ->. done.
    + unfold active in Hact. rewrite (bool_decide_eq_false_2 (Task.state t = failed))
        by (intros E; by rewrite E in Hact). by case_bool_decide.
  - eapply (quarantine_replace d d' t t' []); try done.
    + by apply (step_identity _ _ _ Hs).
    + by rewrite app_nil_r.
    + intros ? H. by apply not_elem_of_nil in H.
    + cbn. by rewrite (bool_decide_ext _ _ Hst).
  - eapply (quarantine_replace d d' t _ []); try done.
    + by rewrite app_nil_r.
    + intros ? H. by apply not_elem_of_nil in H.
  - by eapply quarantine_frame.
Qed.

(** ** Checkpoints *)

(** The checkpoint belongs to a task and a generation. *)
Definition in_generation (tid : string) (gen : Z) (c : Checkpoint.t) : Prop :=
  Checkpoint.task_id c = tid ∧ Checkpoint.lease_generation c = gen.

Lemma in_generation_test tid gen c :
  bool_decide (Checkpoint.task_id c = tid) && (Checkpoint.lease_generation c =? gen) = true ↔
  in_generation tid gen c.
Proof. unfold in_generation. rewrite andb_true_iff, bool_decide_eq_true, Z.eqb_eq. done. Qed.

Lemma fold_max_le (l : list Z) x : x ∈ l → x ≤ fold_right Z.max 0 l.
Proof.
  induction l as [|y l IH]; intros H; [by apply not_elem_of_nil in H|].
  apply elem_of_cons in H as [->|H]; cbn; [|specialize (IH H)]; lia.
Qed.
Lemma fold_max_in (l : list Z) : 0 < fold_right Z.max 0 l → fold_right Z.max 0 l ∈ l.
Proof.
  induction l as [|y l IH]; cbn; [lia|]. intros H. apply elem_of_cons.
  destruct (Z.max_spec y (fold_right Z.max 0 l)) as [[? ->]|[? ->]]; [right; apply IH; lia|by left].
Qed.
Lemma fold_max_nonneg (l : list Z) : 0 ≤ fold_right Z.max 0 l.
Proof. induction l; cbn; lia. Qed.

Lemma last_sequence_nonneg d tid gen : 0 ≤ last_sequence d tid gen.
Proof. apply fold_max_nonneg. Qed.

Lemma last_sequence_le d c :
  c ∈ task_checkpoints d →
  Checkpoint.sequence c ≤ last_sequence d (Checkpoint.task_id c) (Checkpoint.lease_generation c).
Proof.
  intros Hc. apply fold_max_le. apply list_elem_of_In, in_map, filter_In.
  split; [by apply list_elem_of_In|]. by apply in_generation_test.
Qed.

Lemma last_sequence_in d tid gen :
  0 < last_sequence d tid gen → ∃ c, c ∈ task_checkpoints d ∧ in_generation tid gen c ∧
    Checkpoint.sequence c = last_sequence d tid gen.
Proof.
  intros H. apply fold_max_in, list_elem_of_In, in_map_iff in H as (c & E & Hc).
  apply filter_In in Hc as [Hc Ht]. exists c.
  split; [by apply list_elem_of_In|]. split; [by apply in_generation_test|done].
Qed.

Lemma last_sequence_ext d d' tid gen :
  task_checkpoints d' = task_checkpoints d → last_sequence d' tid gen = last_sequence d tid gen.
Proof. unfold last_sequence. by intros ->. Qed.

(** The number after the insertion of the next checkpoint. *)
Lemma last_sequence_snoc d d' c tid gen :
  task_checkpoints d' = task_checkpoints d ++ [c] → 1 ≤ Checkpoint.sequence c →
  last_sequence d' tid gen =
    if bool_decide (Checkpoint.task_id c = tid) && (Checkpoint.lease_generation c =? gen)
    then Z.max (last_sequence d tid gen) (Checkpoint.sequence c) else last_sequence d tid gen.
Proof.
  intros E H. unfold last_sequence. rewrite E, List.filter_app, map_app. cbn.
  assert (∀ l x, 0 ≤ x → fold_right Z.max 0 (l ++ [x]) = Z.max (fold_right Z.max 0 l) x) as Hf.
  { intros l x Hx. induction l as [|y l IH]; cbn; [lia|]. rewrite IH. lia. }
  destruct (_ && _); cbn; [apply Hf; lia|by rewrite app_nil_r].
Qed.

(** Every row goes on, with its identity and a generation that does not
    decrease. *)
Lemma step_forward d d' t :
  Step d d' → RowsInv d → t ∈ tasks d → ∃ t', t' ∈ tasks d' ∧ same_identity t t' ∧
    Task.lease_generation t ≤ Task.lease_generation t'.
Proof.
  intros Hs Hr Ht.
  assert (∀ x, same_identity x x) as Hrefl by (repeat split).
  assert (∀ u t1 t2, TaskStep u t1 t2 → replace_row t1 t2 d d' →
    ∃ t', t' ∈ tasks d' ∧ same_identity t t' ∧ Task.lease_generation t ≤ Task.lease_generation t') as Hrep.
  { intros u t1 t2 Hts Hr'. pose proof (replace_elem _ _ _ _ Hr') as Hel.
    destruct (decide (Task.task_id t = Task.task_id t1)) as [Eq|Eq].
    - rewrite (row_eq d t t1 (rows_ids d Hr) Ht (proj1 Hr') Eq) in *. exists t2. rewrite Hel. split; [by left|].
      split; [by eapply step_identity|]. destruct (step_generation _ _ _ Hts) as [|[]]; lia.
    - exists t. rewrite Hel. split; [by right|]. split; [done|lia]. }
  destruct Hs as [E|t0 Hf Hi| | | |t0 c stamp Hact Hl _ Hr'|t0 r c ? ? ? ? ? ? ? ? ? E]; eauto.
  - exists t. rewrite E. split; [done|]. split; [done|lia].
  - apply insert_task_ok in Hi as (-> & _). exists t. cbn. split; [apply elem_of_app; by left|].
    split; [done|lia].
  - eapply Hrep; [|done]. by apply (ts_touch false).
  - exists t. rewrite E. split; [done|]. split; [done|lia].
Qed.

Lemma checkpoints_frame d d' :
  (∀ t, t ∈ tasks d → ∃ t', t' ∈ tasks d' ∧ same_identity t t' ∧
     Task.lease_generation t ≤ Task.lease_generation t') →
  task_checkpoints d' = task_checkpoints d → CheckpointsInv d → CheckpointsInv d'.
Proof.
  intros Hfw E [H1 H2 H3 H4 H5]. split; rewrite ?E; try done.
  - intros c Hc. destruct (H1 c Hc) as (t & Ht & Eid & Hfen & Hg).
    destruct (Hfw t Ht) as (t' & Ht' & (Ei & _ & _ & _ & _ & _ & _ & _ & Ef & _) & Hg').
    exists t'. rewrite Ei, Ef. repeat split; try done. lia.
  - intros tid gen n. rewrite (last_sequence_ext d d') by done. apply H3.
Qed.

(** The next checkpoint of the current generation. *)
Lemma checkpoints_insert d d' t t' c :
  CheckpointsInv d → RowsInv d → replace_row t t' d d' → same_identity t t' →
  Task.lease_generation t' = Task.lease_generation t → Task.fencing_required t = true →
  Checkpoint.task_id c = Task.task_id t → Checkpoint.lease_generation c = Task.lease_generation t →
  Checkpoint.sequence c = last_sequence d (Task.task_id t) (Task.lease_generation t) + 1 →
  existsb (checkpoint_is (Task.task_id t) (Checkpoint.checkpoint_id c)) (task_checkpoints d) = false →
  task_checkpoints d' = task_checkpoints d ++ [c] → CheckpointsInv d'.
Proof.
  intros [H1 H2 H3 H4 H5] [Hids _ _ _] Hr (Ei & _ & _ & _ & _ & _ & _ & _ & Ef & _) Eg Hfen Ec Egc Eseq Hnew E.
  pose proof (replace_elem _ _ _ _ Hr) as Hel. destruct Hr as (Hin & _ & _).
  pose proof (last_sequence_nonneg d (Task.task_id t) (Task.lease_generation t)) as Hpos.
  assert (1 ≤ Checkpoint.sequence c) as Hc1 by lia.
  assert (∀ x, x ∈ task_checkpoints d → Checkpoint.task_id x = Checkpoint.task_id c →
    Checkpoint.lease_generation x = Checkpoint.lease_generation c → Checkpoint.sequence x ≠ Checkpoint.sequence c) as Hlast.
  { intros x Hx E1 E2. pose proof (last_sequence_le d x Hx) as Hle. rewrite E1, E2, Ec, Egc in Hle. lia. }
  assert (∀ x, x ∈ task_checkpoints d → Checkpoint.task_id x = Checkpoint.task_id c →
    Checkpoint.checkpoint_id x ≠ Checkpoint.checkpoint_id c) as Hids'.
  { intros x Hx E1 E2. apply (proj1 (existsb_false _ _) Hnew) in Hx. unfold checkpoint_is in Hx.
    rewrite !bool_decide_eq_true_2 in Hx by congruence. done. }
  split; rewrite ?E.
  - intros x Hx. apply elem_of_app in Hx as [Hx|Hx].
    + destruct (H1 x Hx) as (u & Hu & Eu & Hf & Hg).
      destruct (decide (Task.task_id u = Task.task_id t)) as [Eq|Eq].
      * rewrite (row_eq d u t Hids Hu Hin Eq) in *. exists t'. rewrite Hel, Ei, Ef, Eg. by split; [left|].
      * exists u. rewrite Hel. by split; [right|].
    + apply list_elem_of_singleton in Hx as ->. exists t'. rewrite Hel, Ei, Ef, Eg.
      split; [by left|]. repeat split; try done. lia.
  - intros x Hx. apply elem_of_app in Hx as [Hx|Hx]; [by apply H2|].
    by apply list_elem_of_singleton in Hx as ->.
  - intros tid gen n. rewrite (last_sequence_snoc d d' c) by done.
    destruct (_ && _) eqn:Et.
    + apply in_generation_test in Et as [<- <-]. rewrite Ec, Egc in *. intros Hn.
      destruct (Z.eq_dec n (Checkpoint.sequence c)) as [En|En].
      * exists c. split; [apply elem_of_app; right; constructor|done].
      * destruct (H3 (Task.task_id t) (Task.lease_generation t) n ltac:(lia)) as (x & Hx & ?).
        exists x. split; [apply elem_of_app; by left|done].
    + intros Hn. destruct (H3 tid gen n Hn) as (x & Hx & ?).
      exists x. split; [apply elem_of_app; by left|done].
  - intros x y Hx Hy E1 E2 E3.
    apply elem_of_app in Hx as [Hx|Hx], Hy as [Hy|Hy]; rewrite ?list_elem_of_singleton in *; subst; auto.
    + by destruct (Hlast x).
    + by destruct (Hlast y).
  - intros x y Hx Hy E1 E2.
    apply elem_of_app in Hx as [Hx|Hx], Hy as [Hy|Hy]; rewrite ?list_elem_of_singleton in *; subst; auto.
    + by destruct (Hids' x).
    + by destruct (Hids' y).
Qed.

Lemma checkpoints_step d d' : Step d d' → RowsInv d → CheckpointsInv d → CheckpointsInv d'.
Proof.
  intros Hs Hr Hc.
  assert (∀ t, t ∈ tasks d → ∃ t', t' ∈ tasks d' ∧ same_identity t t' ∧
    Task.lease_generation t ≤ Task.lease_generation t') as Hfw by (intros; by eapply step_forward).
  destruct Hs as
    [? ? ? E|t ? Hi|role w tok att ex cid stamp t t' ? ? ? ? ? ? E
    |t t' stamp reason q ? ? ? ? ? ? ? E|t t' ? ? ? ? ? ? ? ? E
    |t c stamp Hact Hl Hfen Hrep Ec Eg _ Es _ Hnew E|t r c ? ? ? ? ? ? ? ? ? ? ? ? E];
    try by eapply checkpoints_frame.
  - apply insert_task_ok in Hi as (-> & _). by eapply checkpoints_frame.
  - by eapply checkpoints_insert.
Qed.

(** ** Effects *)

Lemma has_unresolved_true d tid :
  has_unresolved_effect d tid = true ↔
  ∃ c, c ∈ task_checkpoints d ∧ Checkpoint.task_id c = tid ∧ unresolved d c = true.
Proof.
  unfold has_unresolved_effect. rewrite existsb_elem. split.
  - intros (c & Hc & Hu). apply andb_true_iff in Hu as [Et%bool_decide_eq_true Hu]. eauto.
  - intros (c & Hc & Et & Hu). exists c. by rewrite bool_decide_eq_true_2.
Qed.

Lemma reconciled_ext d d' c :
  effect_reconciliations d' = effect_reconciliations d → reconciled d' c = reconciled d c.
Proof. unfold reconciled. by intros ->. Qed.

Lemma unresolved_ext d d' c :
  task_checkpoints d' = task_checkpoints d → effect_reconciliations d' = effect_reconciliations d →
  unresolved d' c = unresolved d c.
Proof. unfold unresolved, reconciled. by intros -> ->. Qed.

Lemma has_unresolved_ext d d' tid :
  task_checkpoints d' = task_checkpoints d → effect_reconciliations d' = effect_reconciliations d →
  has_unresolved_effect d' tid = has_unresolved_effect d tid.
Proof.
  intros E1 E2. unfold has_unresolved_effect, unresolved, reconciled. by rewrite E1, E2.
Qed.

(** A new checkpoint concerns its own task only. *)
Lemma has_unresolved_other d d' c tid :
  task_checkpoints d' = task_checkpoints d ++ [c] →
  effect_reconciliations d' = effect_reconciliations d → Checkpoint.task_id c ≠ tid →
  has_unresolved_effect d' tid = has_unresolved_effect d tid.
Proof.
  intros E1 E2 Hne. apply eq_true_iff_eq. rewrite !has_unresolved_true.
  assert (∀ x, Checkpoint.task_id x = tid → unresolved d' x = unresolved d x) as Hx.
  { intros x Hx. unfold unresolved, reconciled. rewrite E1, E2, existsb_app. cbn.
    replace (later_checkpoint x c) with false; [by rewrite !orb_false_r|].
    unfold later_checkpoint. rewrite bool_decide_eq_false_2; [done|congruence]. }
  rewrite E1. split; intros (x & Hin & Et & Hu); exists x.
  - apply elem_of_app in Hin as [Hin|Hin]; [|apply list_elem_of_singleton in Hin; congruence].
    rewrite Hx in Hu by done. done.
  - rewrite Hx by done. split; [apply elem_of_app; by left|done].
Qed.

Lemma reconciled_app d d' l c :
  effect_reconciliations d' = effect_reconciliations d ++ l → reconciled d c = true → reconciled d' c = true.
Proof.
  unfold reconciled. intros ->. destruct (Checkpoint.effect_id c); [|done].
  rewrite existsb_app. by intros ->.
Qed.

(** A reconciliation resolves effects, it never opens one. *)
Lemma has_unresolved_reconcile d d' l tid :
  task_checkpoints d' = task_checkpoints d →
  effect_reconciliations d' = effect_reconciliations d ++ l →
  has_unresolved_effect d' tid = true → has_unresolved_effect d tid = true.
Proof.
  intros E1 E2. rewrite !has_unresolved_true, E1. intros (c & Hc & Et & Hu). exists c.
  split; [done|]. split; [done|]. unfold unresolved in *. rewrite E1 in Hu.
  destruct (reconciled d c) eqn:Er; [by rewrite (reconciled_app d d' l) in Hu by done|].
  destruct (reconciled d' c); [|done]. cbn [negb] in Hu.
  by rewrite ?andb_false_r, ?andb_false_l, ?andb_false_r in Hu.
Qed.

(** The only step of a task with an unresolved effect that leaves it without
    lease parks it for the reconciliation. *)
Lemma unresolved_parks t t' :
  TaskStep true t t' → Task.leased_by t' = None →
  Task.state t' = blocked ∧ Task.blocked_reason t' = Some effect_required.
Proof.
  remember true as u eqn:Eu. intros Hs.
  destruct Hs as [| | | | | |reason cid stamp t Hact Hl Hr|st reason error stamp t Hact Hout| |];
    subst; cbn; intros Hno; try done;
    try match goal with H : is_Some (Task.leased_by _) |- _ => rewrite Hno in H; by destruct H end;
    try congruence.
  by rewrite Hr.
Qed.

Lemma effects_rows d d' t t' :
  EffectsInv d → RowsInv d → TaskStep (needs_reconciliation d t) t t' → replace_row t t' d d' →
  task_checkpoints d' = task_checkpoints d → effect_reconciliations d' = effect_reconciliations d →
  EffectsInv d'.
Proof.
  intros [Hp Hl] Hr Hs Hrep E1 E2. pose proof (replace_elem _ _ _ _ Hrep) as Hel.
  pose proof (step_identity _ _ _ Hs) as (Ei & _ & _ & _ & _ & _ & _ & _ & Ef & _).
  assert (∀ u, needs_reconciliation d' u = needs_reconciliation d u) as Hn.
  { intros u. unfold needs_reconciliation. by rewrite (has_unresolved_ext d d'). }
  split.
  - intros u Hu Hnu Hno. rewrite Hn in Hnu. apply Hel in Hu as [->|[Hu _]]; [|by apply Hp].
    unfold needs_reconciliation in *. rewrite Ei, Ef in Hnu. rewrite Hnu in Hs.
    by apply (unresolved_parks t).
  - intros c l. rewrite E1, (reconciled_ext d d') by done. apply Hl.
Qed.

Lemma effects_admit d t :
  EffectsInv d → CheckpointsInv d → (∀ u, u ∈ tasks d → Task.task_id u ≠ Task.task_id t) →
  EffectsInv (d <| tasks := tasks d ++ [t] |>).
Proof.
  intros [Hp Hl] Hc Hnew. split; [|apply Hl]. cbn. intros u Hu Hn Hno.
  apply elem_of_app in Hu as [Hu|Hu]; [by apply Hp|]. apply list_elem_of_singleton in Hu as ->.
  unfold needs_reconciliation in Hn. apply andb_true_iff in Hn as [_ Hn].
  apply has_unresolved_true in Hn as (c & Hin & Et & _).
  destruct (cp_task d Hc c Hin) as (v & Hv & Ev & _). exfalso. apply (Hnew v Hv). congruence.
Qed.

Lemma effects_checkpoint d d' t c stamp :
  EffectsInv d → RowsInv d → CheckpointsInv d → is_Some (Task.leased_by t) →
  replace_row t (touched (Checkpoint.correlation_id c) stamp t) d d' →
  Checkpoint.task_id c = Task.task_id t → Checkpoint.lease_generation c = Task.lease_generation t →
  Checkpoint.sequence c = last_sequence d (Task.task_id t) (Task.lease_generation t) + 1 →
  unresolved_unknown d (Task.task_id t) (Checkpoint.effect_id c) = false →
  task_checkpoints d' = task_checkpoints d ++ [c] →
  effect_reconciliations d' = effect_reconciliations d → EffectsInv d'.
Proof.
  intros [Hp Hl] Hr Hc [w Hw] Hrep Et Eg Es Hunk E1 E2.
  pose proof (replace_elem _ _ _ _ Hrep) as Hel. destruct Hrep as (Hin & _ & _). split.
  - intros u Hu Hn Hno. apply Hel in Hu as [->|[Hu Hne]]; [cbn in Hno; congruence|].
    unfold needs_reconciliation in Hn. rewrite (has_unresolved_other d d' c) in Hn by (done || congruence).
    by apply Hp.
  - intros x l Hx Hlin Hex Heff Hrx. rewrite (reconciled_ext d d') in Hrx by done.
    rewrite E1 in Hx, Hlin. unfold later_checkpoint.
    apply elem_of_app in Hx as [Hx|Hx], Hlin as [Hlin|Hlin]; rewrite ?list_elem_of_singleton in *; subst.
    + by apply Hl.
    + repeat case_bool_decide; cbn; try done. exfalso.
      unfold unresolved_unknown in Hunk. rewrite <- H0 in Hex. destruct Hex as [e He].
      rewrite He in Hunk. apply (proj1 (existsb_false _ _) Hunk) in Hx.
      rewrite Hrx, !bool_decide_eq_true_2 in Hx by congruence. done.
    + repeat case_bool_decide; cbn; try done.
      destruct (cp_task d Hc l Hlin) as (u & Hu & Eu & _ & Hgu).
      rewrite (row_eq d u t (rows_ids d Hr) Hu Hin) in * by congruence.
      destruct (Z.ltb_spec (Checkpoint.lease_generation c) (Checkpoint.lease_generation l)); [lia|].
      destruct (Z.eqb_spec (Checkpoint.lease_generation l) (Checkpoint.lease_generation c)); [|done]. cbn.
      apply Z.ltb_ge. pose proof (last_sequence_le d l Hlin) as Hle.
      replace (Checkpoint.task_id l) with (Task.task_id t) in Hle by congruence.
      replace (Checkpoint.lease_generation l) with (Task.lease_generation t) in Hle by congruence. lia.
    + by rewrite !Z.ltb_irrefl, !andb_false_r.
Qed.

Lemma effects_step d d' :
  Step d d' → RowsInv d → CheckpointsInv d → EffectsInv d → EffectsInv d'.
Proof.
  intros Hs Hr Hc He. destruct Hs as
    [Et _ _ E1 E2|t Hf Hi|role w tok att ex cid stamp t t' _ Hs Hrep _ _ _ E1 E2
    |t t' stamp reason q Hs _ _ Hrep _ _ _ E1 E2|t t' Hs _ _ _ _ Hrep _ _ E1 E2
    |t c stamp Hact Hl Hfen Hrep Ec Eg _ Es Hunk Hnew E1 _ _ E2|t r c _ _ _ _ _ _ _ _ E2 Et _ _ E1].
  - destruct He as [Hp Hl]. split.
    + intros t. rewrite Et. unfold needs_reconciliation. rewrite (has_unresolved_ext d d') by done. apply Hp.
    + intros c l. rewrite E1, (reconciled_ext d d') by done. apply Hl.
  - apply insert_task_ok in Hi as (-> & Hnew & _). by apply effects_admit.
  - by eapply effects_rows.
  - by eapply effects_rows.
  - by eapply effects_rows.
  - by eapply effects_checkpoint.
  - destruct He as [Hp Hl]. split.
    + intros u. rewrite Et. unfold needs_reconciliation. intros Hu Hn Hno. apply Hp; [done| |done].
      unfold needs_reconciliation. apply andb_true_iff in Hn as [-> Hn]. cbn.
      by eapply has_unresolved_reconcile.
    + intros x l. rewrite E1. intros Hx Hlin Hex Heff Hrx. apply Hl; try done.
      destruct (reconciled d x) eqn:E; [|done]. by rewrite (reconciled_app d d' [r]) in Hrx.
Qed.

(** ** All of them *)

Lemma inv_step d d' : Step d d' → Inv d → Inv d'.
Proof.
  intros Hs [H1 H2 H3 H4 H5]. split.
  - by eapply rows_step.
  - by eapply attempts_step.
  - by eapply quarantine_step.
  - by eapply checkpoints_step.
  - by eapply effects_step.
Qed.

Lemma inv_steps d d' : rtc Step d d' → Inv d → Inv d'.
Proof. induction 1; eauto using inv_step. Qed.

Lemma inv_empty : Inv empty_db.
Proof.
  split; split; cbn; try (intros; by set_solver); try constructor.
  intros tid gen n H. unfold last_sequence in H. cbn in H. lia.
Qed.
