(* ===== verification/StoreRefine.v ===== *)
(** The operations of the store refine the transition system of [Lifecycle]:
    whatever an operation returns or raises, the database it leaves is reached
    by steps.  With [StoreInv], every database the code reaches satisfies the
    invariants. *)
From S2P Require Import Prelude PyStr Clock Names Schema Store Claim LeaseOps Effects Lifecycle StoreInv.
From stdpp Require Import strings relations.
From Stdlib Require Import QArith.

Local Open Scope Z_scope.

Create HintDb reads.
Create HintDb steps.

(** ** Programs that only read, programs that step *)

Definition reads {A} (m : M World A) : Prop := ∀ w r w', m w = (r, w') → db w' = db w.
Definition steps {A} (m : M World A) : Prop :=
  ∀ w r w', Inv (db w) → m w = (r, w') → rtc Step (db w) (db w').
(** The successful runs step. *)
Definition steps_ok {A} (m : M World A) : Prop :=
  ∀ w a w', Inv (db w) → m w = (Ok a, w') → rtc Step (db w) (db w').

Section Combinators.
Context {self : Store}.

Lemma reads_ret {A} (a : A) : reads (mret a).
Proof. intros w r w' [= <- <-]. done. Qed.
Lemma reads_raise {A} e : reads (raise (A := A) e).
Proof. intros w r w' [= <- <-]. done. Qed.
Lemma reads_raise_if c e : reads (raise_if c e).
Proof. intros w r w' [= <- <-]. done. Qed.
Lemma reads_lift {A} (x : res A) : reads (lift x).
Proof. intros w r w' [= <- <-]. done. Qed.
Lemma reads_of_option {A} (x : option A) e : reads (of_option x e).
Proof. destruct x; [apply reads_ret|apply reads_raise]. Qed.
Lemma reads_query {A} (f : DB → A) : reads (query f).
Proof. intros w r w' [= <- <-]. done. Qed.
Lemma reads_now : reads now.
Proof. intros w r w' [= <- <-]. done. Qed.
Lemma reads_uuid : reads uuid4_hex.
Proof. intros w r w' [= <- <-]. done. Qed.
Lemma reads_bind {A B} (m : M World A) (f : A → M World B) :
  reads m → (∀ a, reads (f a)) → reads (x ← m; f x).
Proof.
  intros Hm Hf w r w'. unfold mbind, M_bind. destruct (m w) as [[a|e] w1] eqn:E.
  - intros Hr. rewrite (Hf a _ _ _ Hr). by eapply Hm.
  - intros [= <- <-]. by eapply Hm.
Qed.
Lemma reads_if {A} (b : bool) (m n : M World A) : reads m → reads n → reads (if b then m else n).
Proof. by destruct b. Qed.
Lemma reads_now_stamp : reads now_stamp.
Proof. apply reads_bind; [apply reads_now|]. intros. apply reads_ret. Qed.
Lemma reads_any {A} (l : list A) p : (∀ x, reads (p x)) → reads (any_m l p).
Proof.
  intros Hp. induction l as [|x l IH]; cbn; [apply reads_ret|].
  apply reads_bind; [done|]. intros b. apply reads_if; [apply reads_ret|done].
Qed.

Lemma steps_reads {A} (m : M World A) : reads m → steps m.
Proof. intros Hm w r w' _ E. rewrite (Hm _ _ _ E). apply rtc_refl. Qed.
Lemma steps_bind {A B} (m : M World A) (f : A → M World B) :
  steps m → (∀ a, steps (f a)) → steps (x ← m; f x).
Proof.
  intros Hm Hf w r w' Hi. unfold mbind, M_bind. destruct (m w) as [[a|e] w1] eqn:E.
  - intros Hr. specialize (Hm _ _ _ Hi E). etrans; [exact Hm|].
    eapply Hf; [|exact Hr]. by eapply inv_steps.
  - intros [= <- <-]. by eapply Hm.
Qed.
Lemma steps_tx {A} (body : DB → M World A) : (∀ c, steps_ok (body c)) → steps (tx body).
Proof.
  intros Hb w r w' Hi. unfold tx. destruct (body (db w) w) as [[a|e] w1] eqn:E.
  - intros [= <- <-]. by eapply Hb.
  - intros [= <- <-]. apply rtc_refl.
Qed.
Lemma steps_guard {A} c e (m : M World A) : (c = false → steps m) → steps (raise_if c e ;; m).
Proof.
  intros Hm w r w' Hi. destruct c; [intros [= <- <-]; apply rtc_refl|]. by apply Hm.
Qed.
Lemma steps_ok_of {A} (m : M World A) : steps m → steps_ok m.
Proof. intros Hm w a w' Hi E. by eapply Hm. Qed.

(** A statement on the tables outside the life of a task. *)
Lemma steps_frame (f : DB → res DB) :
  (∀ d d', f d = Ok d' → tasks d' = tasks d ∧ quarantine d' = quarantine d ∧
     task_attempts d' = task_attempts d ∧ task_checkpoints d' = task_checkpoints d ∧
     effect_reconciliations d' = effect_reconciliations d) → steps (exec f).
Proof.
  intros Hf w r w' _. unfold exec. destruct (f (db w)) as [d|e] eqn:E; intros [= <- <-]; [|apply rtc_refl].
  apply rtc_once. destruct (Hf _ _ E) as (?&?&?&?&?). by apply st_frame.
Qed.
End Combinators.

#[export] Hint Resolve reads_ret reads_raise reads_raise_if reads_lift reads_of_option reads_query
  reads_now reads_uuid reads_now_stamp reads_bind reads_if reads_any : reads.
#[export] Hint Resolve steps_reads steps_bind steps_tx : steps.

Section Reads.
Context {self : Store}.

Lemma reads_get_task tid : reads (get_task tid).
Proof. unfold get_task. auto 10 with reads. Qed.
Lemma reads_get_worker wid : reads (get_worker wid).
Proof. unfold get_worker. auto 10 with reads. Qed.
Lemma reads_get_repository repo : reads (get_repository repo).
Proof. unfold get_repository. auto 10 with reads. Qed.
Lemma reads_older stamp limit : reads (older_than stamp limit).
Proof. unfold older_than. auto 10 with reads. Qed.
Lemma reads_ready wid role : reads (ready wid role).
Proof.
  unfold ready.
  repeat (apply reads_bind; [first [apply reads_older | auto with reads]|intros ?]). auto with reads.
Qed.
Lemma reads_alternative row w : reads (worker_is_alternative row w).
Proof.
  unfold worker_is_alternative. repeat (apply reads_if; [auto with reads|]); cbv zeta.
  repeat (apply reads_if; [auto with reads|]).
  apply reads_bind; [apply reads_older|intros ?]. apply reads_if; [auto with reads|].
  apply reads_bind; [auto with reads|intros ?]. apply reads_if; auto 10 with reads.
Qed.
Lemma reads_resolved row : reads (require_resolved_effects row).
Proof. unfold require_resolved_effects. auto 10 with reads. Qed.
Lemma reads_check_lease tid w tok allowed g a : reads (check_lease tid w tok allowed g a).
Proof.
  unfold check_lease. repeat (apply reads_bind; [first [apply reads_if | idtac]; auto 10 with reads|intros ?]).
  auto with reads.
Qed.
End Reads.
#[export] Hint Resolve reads_get_task reads_get_worker reads_get_repository reads_older reads_ready
  reads_alternative reads_resolved reads_check_lease : reads.

(** ** Workers, lanes, affinities *)

Ltac steps_tac :=
  repeat lazymatch goal with
  | |- ∀ _, _ => intro
  | |- steps_ok _ => apply steps_ok_of
  | |- steps (tx _) => apply steps_tx; intro
  | |- steps (mbind _ _) => apply steps_bind; [|intro]
  | |- steps (match ?x with _ => _ end) => destruct x
  | |- steps (exec _) => apply steps_frame; intros ? ? [= <-]; repeat case_match; by repeat split
  | |- steps _ => apply steps_reads; solve [auto 10 with reads]
  end.

Section Frames.
Context {self : Store}.

Lemma steps_lane repository : steps (ensure_repository_lane repository).
Proof. unfold ensure_repository_lane. steps_tac. Qed.
Lemma reads_cutover : reads fenced_cutover_status.
Proof. apply reads_query. Qed.
#[local] Hint Resolve reads_cutover : reads.
Lemma steps_cutover cid a b : steps (enable_fenced_cutover cid a b).
Proof. unfold enable_fenced_cutover. cbv zeta. steps_tac. Qed.
Lemma steps_register wid h r cid p s cv rs g v wr : steps (register_worker wid h r cid p s cv rs g v wr).
Proof. unfold register_worker, upsert_worker. cbv zeta. steps_tac. Qed.
Lemma steps_heartbeat wid cid p c m g v : steps (heartbeat_worker wid cid p c m g v).
Proof. unfold heartbeat_worker. steps_tac. Qed.
Lemma steps_configure repository e m : steps (configure_repository repository e m).
Proof. unfold configure_repository. steps_tac. Qed.

Lemma steps_insert_affinity a : steps (exec (insert_affinity a)).
Proof.
  apply steps_frame. intros d d'. unfold insert_affinity.
  destruct (existsb _ _); [done|]. destruct (negb _); [done|]. intros [= <-]. done.
Qed.
Lemma steps_each {A} (l : list A) body : (∀ x, steps (body x)) → steps (for_each l body).
Proof.
  intros Hb. induction l as [|x l IH]; cbn; [apply steps_reads, reads_ret|].
  apply steps_bind; [done|]. by intros _.
Qed.
Lemma steps_affinities wid repos : steps (replace_worker_affinities wid repos).
Proof.
  unfold replace_worker_affinities. cbv zeta. apply steps_bind; [steps_tac|intros _].
  apply steps_bind; [steps_tac|intros l]. apply steps_bind; [|intros _; steps_tac].
  apply steps_tx. intros _. apply steps_ok_of. apply steps_bind; [steps_tac|intros _].
  apply steps_each. intros r. apply steps_bind; [apply steps_lane|intros _; apply steps_insert_affinity].
Qed.
End Frames.

(** ** One row *)

Lemma find_task_in d tid t : find_task d tid = Some t → t ∈ tasks d ∧ Task.task_id t = tid.
Proof.
  intros H. apply first_match in H as [Hin Ht]. unfold task_is in Ht.
  by apply bool_decide_eq_true in Ht.
Qed.

Lemma find_task_row d t : NoDup (Task.task_id <$> tasks d) → t ∈ tasks d → find_task d (Task.task_id t) = Some t.
Proof.
  intros Hn Ht. destruct (first_exists (task_is (Task.task_id t)) (tasks d) t Ht) as [u Hu].
  { unfold task_is. by rewrite bool_decide_eq_true_2. }
  fold (find_task d (Task.task_id t)) in Hu. rewrite Hu. f_equal.
  apply find_task_in in Hu as [Hu E]. by apply (row_eq d).
Qed.

(** [UPDATE tasks ... WHERE task_id=? AND guard] changes at most the row of
    that id. *)
Lemma update_task_ok tid guard f d n d' :
  NoDup (Task.task_id <$> tasks d) → update_task tid guard f d = Ok (n, d') →
  (n = 0 ∧ d' = d) ∨
  (n = 1 ∧ ∃ t, find_task d tid = Some t ∧ guard t = true ∧ fenced_claim_refused t (f t) = false ∧
     d' = d <| tasks := update_where (task_is tid) (fun _ => f t) (tasks d) |> ∧
     index_check (f t) (filter (fun u => negb (task_is tid u)) (tasks d)) = Ok tt).
Proof.
  intros Hn. unfold update_task. destruct (first _ _) as [t|] eqn:Ef.
  - apply first_match in Ef as [Hin Hg]. apply andb_true_iff in Hg as [Ht Hg].
    pose proof Ht as Eid. unfold task_is in Eid. apply bool_decide_eq_true in Eid. subst tid.
    destruct (fenced_claim_refused t (f t)) eqn:Efc; [done|].
    destruct (index_check _ _) as [[]|] eqn:Ei; [|done]. cbn. intros [= <- <-]. right. split; [done|].
    exists t. split; [by apply find_task_row|]. split_and!; try done. f_equal.
    unfold update_where. apply map_ext_in. intros u Hu. unfold task_is. case_bool_decide as Eu; cbn; [|done].
    assert (u = t) as -> by (apply (row_eq d); [done|by apply list_elem_of_In|done|done]).
    by rewrite Hg.
  - intros [= <- <-]. by left.
Qed.

Lemma update_task_miss tid f d n d' :
  update_task tid (fun _ => true) f d = Ok (n, d') → find_task d tid = None → d' = d.
Proof.
  unfold update_task, find_task. intros H Hnone.
  assert (first (λ t, task_is tid t && true) (tasks d) = None) as E.
  { destruct (first (λ t, task_is tid t && true) (tasks d)) as [t|] eqn:E; [|done].
    apply first_match in E as [Hin Ht]. rewrite andb_true_r in Ht.
    by rewrite (first_none _ _ _ Hnone Hin) in Ht. }
  rewrite E in H. by injection H as _ <-.
Qed.

Section Row.
Context {self : Store}.

Lemma set_task_ok d tid f w u w' t :
  NoDup (Task.task_id <$> tasks d) → find_task d tid = Some t →
  set_task tid f w = (Ok u, w') → db w = d →
  fenced_claim_refused t (f t) = false ∧
  index_check (f t) (filter (fun u => negb (task_is tid u)) (tasks d)) = Ok tt ∧
  w' = w <| db := d <| tasks := update_where (task_is tid) (fun _ => f t) (tasks d) |> |>.
Proof.
  intros Hn Hf H <-. unfold set_task in H. minv H. unfold exec_count in Hr.
  destruct (update_task _ _ _ _) as [[n d]|] eqn:E; [|done]. injection Hr as <- <-.
  pose proof E as E'. apply update_task_ok in E as [[-> ->]|(-> & t' & Hf' & _ & Hfc & -> & Hix)]; [|by simplify_eq..|done].
  exfalso. unfold update_task in E'. destruct (find_task_in _ _ _ Hf) as [Hin Eid].
  destruct (first_exists (fun t => task_is tid t && true) _ _ Hin) as [v Hv].
  { unfold task_is. by rewrite bool_decide_eq_true_2. }
  rewrite Hv in E'. destruct (fenced_claim_refused v (f v)); [done|]. by destruct (index_check _ _).
Qed.

Lemma end_attempt_run row stamp reason w :
  end_attempt row stamp reason w =
  (Ok tt, w <| db := db w <| task_attempts := close_attempt row stamp reason (task_attempts (db w)) |> |>).
Proof.
  unfold end_attempt, close_attempt. destruct (truthy (Task.attempt_id row)); cbn; [done|].
  by destruct w as [[] ? ?].
Qed.

Lemma quarantine_row_run row reason stamp w :
  quarantine_row row reason stamp w =
  (Ok tt, w <| db := db w <| quarantine := quarantine (db w) ++
    [Quarantine.mk (Task.task_id row) (Task.idempotency_key row) (Task.correlation_id row)
       (Task.attempt_count row) (sanitize reason) stamp] |> |>).
Proof. done. Qed.

(** The tables a release leaves, and the step it is. *)
Record released_to (d d' : DB) (row row' : Task.t) (stamp reason : string) (ql : list Quarantine.t) : Prop := {
  rel_step : Step d d';
  rel_tasks : tasks d' = update_where (task_is (Task.task_id row)) (fun _ => row') (tasks d);
  rel_attempts : task_attempts d' = close_attempt row stamp reason (task_attempts d);
  rel_quarantine : quarantine d' = quarantine d ++ ql;
  rel_checkpoints : task_checkpoints d' = task_checkpoints d;
  rel_reconciliations : effect_reconciliations d' = effect_reconciliations d;
  rel_rest : workers d' = workers d ∧ repository_lanes d' = repository_lanes d ∧
    worker_repository_affinity d' = worker_repository_affinity d ∧ pool_control d' = pool_control d ∧
    work_runs d' = work_runs d }.

Lemma release_run d w2 row f stamp reason ql u w' :
  Inv d → row ∈ tasks d →
  db w2 = d <| quarantine := quarantine d ++ ql |>
            <| task_attempts := close_attempt row stamp reason (task_attempts d) |> →
  set_task (Task.task_id row) f w2 = (Ok u, w') →
  TaskStep (needs_reconciliation d row) row (f row) → active row = true → lease_clear (f row) →
  (∃ q, Quarantine.task_id q = Task.task_id row ∧
     ql = if bool_decide (Task.state (f row) = failed) then [q] else []) →
  released_to d (db w') row (f row) stamp reason ql.
Proof.
  intros Hi Hin E H Hs Ha Hc (q & Eq & ->).
  pose proof (rows_ids d (inv_rows d Hi)) as Hn.
  destruct (set_task_ok (db w2) _ _ _ _ _ row ltac:(rewrite E; exact Hn)
    ltac:(rewrite E; by apply find_task_row) H eq_refl) as (_ & Hix & ->). rewrite E in *.
  cbn in *. split; try done. eapply (st_release _ _ row (f row)); try done.
Qed.

(** The same without quarantine. *)
Lemma release_plain d w2 row f stamp reason u w' :
  Inv d → row ∈ tasks d →
  db w2 = d <| task_attempts := close_attempt row stamp reason (task_attempts d) |> →
  set_task (Task.task_id row) f w2 = (Ok u, w') →
  TaskStep (needs_reconciliation d row) row (f row) → active row = true → lease_clear (f row) →
  Task.state (f row) ≠ failed → released_to d (db w') row (f row) stamp reason [].
Proof.
  intros Hi Hin E H Hs Ha Hc Hnf. eapply release_run; try done.
  - rewrite E, app_nil_r. by destruct d.
  - exists (Quarantine.mk (Task.task_id row) "" "" 0 "" ""). by rewrite bool_decide_eq_false_2.
Qed.
End Row.

(** *** Inversion of the primitive statements *)

Section Inversion.
Context {self : Store}.

Lemma query_ok {A} (f : DB → A) a w w' : query f w = (Ok a, w') → a = f (db w) ∧ w' = w.
Proof. by intros [= <- <-]. Qed.
Lemma now_ok a w w' : now w = (Ok a, w') → a = clock (ticks w) ∧ w' = w <| ticks := S (ticks w) |>.
Proof. by intros [= <- <-]. Qed.
Lemma now_stamp_ok a w w' :
  now_stamp w = (Ok a, w') → a = iso (clock (ticks w)) ∧ w' = w <| ticks := S (ticks w) |>.
Proof. by intros [= <- <-]. Qed.
Lemma uuid_ok a w w' : uuid4_hex w = (Ok a, w') → a = uuid4 (uuids w) ∧ w' = w <| uuids := S (uuids w) |>.
Proof. by intros [= <- <-]. Qed.
Lemma exec_ok f u w w' : exec f w = (Ok u, w') → ∃ d, f (db w) = Ok d ∧ w' = w <| db := d |>.
Proof. unfold exec. destruct (f (db w)); [|done]. intros [= _ <-]. eauto. Qed.
Lemma exec_pure_ok (f : DB → DB) u w w' :
  exec (fun d => Ok (f d)) w = (Ok u, w') → w' = w <| db := f (db w) |>.
Proof. by intros [= _ <-]. Qed.
Lemma exec_count_ok f n w w' :
  exec_count f w = (Ok n, w') → ∃ d, f (db w) = Ok (n, d) ∧ w' = w <| db := d |>.
Proof. unfold exec_count. destruct (f (db w)) as [[]|]; [|done]. intros [= <- <-]. eauto. Qed.
Lemma tx_ok {A} (body : DB → M World A) a w w' : tx body w = (Ok a, w') → body (db w) w = (Ok a, w').
Proof. unfold tx. by destruct (body (db w) w) as [[?|?] ?]. Qed.
Lemma tx_run {A} (body : DB → M World A) a w w' : body (db w) w = (Ok a, w') → tx body w = (Ok a, w').
Proof. unfold tx. by intros ->. Qed.
Lemma end_attempt_ok row stamp reason u w w' :
  end_attempt row stamp reason w = (Ok u, w') →
  w' = w <| db := db w <| task_attempts := close_attempt row stamp reason (task_attempts (db w)) |> |>.
Proof. rewrite end_attempt_run. by intros [= _ <-]. Qed.

(** Reads at the head of a program. *)
Lemma bind_query {A B} (f : DB → A) (k : A → M World B) w : (x ← query f; k x) w = k (f (db w)) w.
Proof. done. Qed.
Lemma bind_now {B} (k : datetime → M World B) w :
  (x ← now; k x) w = k (clock (ticks w)) (w <| ticks := S (ticks w) |>).
Proof. done. Qed.
Lemma bind_now_stamp {B} (k : string → M World B) w :
  (x ← now_stamp; k x) w = k (iso (clock (ticks w))) (w <| ticks := S (ticks w) |>).
Proof. done. Qed.
Lemma bind_uuid {B} (k : string → M World B) w :
  (x ← uuid4_hex; k x) w = k (uuid4 (uuids w)) (w <| uuids := S (uuids w) |>).
Proof. done. Qed.
End Inversion.

Ltac sinv_prim :=
  match goal with
  | H : query _ _ = (Ok _, _) |- _ => apply query_ok in H as [? ?]; subst
  | H : now _ = (Ok _, _) |- _ => apply now_ok in H as [? ?]; subst
  | H : now_stamp _ = (Ok _, _) |- _ => apply now_stamp_ok in H as [? ?]; subst
  | H : exec (fun d => Ok _) _ = (Ok _, _) |- _ => apply exec_pure_ok in H; subst
  | H : uuid4_hex _ = (Ok _, _) |- _ => apply uuid_ok in H as [? ?]; subst
  end.
(** The components of an updated world. *)
Ltac wsimpl := cbn [setter db ticks uuids] in *.
(** [minv], then the reads. *)
Tactic Notation "sinv" hyp(H) := minv H; repeat sinv_prim.

(** The effect of a statement [set_task] on the row [row] of the current
    database; [ids] and [found] may be stated for a database with the same tasks. *)
Ltac set_row row ids found :=
  match goal with H : set_task _ _ _ = (Ok _, _) |- _ =>
    let X := fresh in
    pose proof (fun n l => set_task_ok _ _ _ _ _ _ row n l H eq_refl) as X;
    let Hix := fresh "Hix" in destruct (X ids found) as (_ & Hix & ->); clear X
  end.

(** ** Operations under a lease *)

(** What [_lease] guarantees on the row it returns; [t] is its reading of the
    clock. *)
Record lease_ok (d : DB) (t : datetime) (tid worker token : string) (allowed : list TaskState)
  (generation : option Z) (attempt : option string) (row : Task.t) : Prop := {
  lo_row : find_task d tid = Some row;
  lo_state : Task.state row ∈ allowed;
  lo_worker : Task.leased_by row = Some worker;
  lo_token : Task.lease_token row = Some token;
  lo_fence : Task.fencing_required row = true → is_Some generation ∧ is_Some attempt;
  lo_generation g : generation = Some g → Task.lease_generation row = g;
  lo_attempt : is_Some attempt → Task.attempt_id row = attempt;
  lo_expiry : ∃ e x, Task.lease_expires_at row = Some e ∧ nonempty e = true ∧
    parse_iso e = Ok x ∧ t < x }.

Section LeaseRefine.
Context {self : Store}.

Lemma check_lease_ok tid worker token allowed g a w row w' :
  check_lease tid worker token allowed g a w = (Ok row, w') →
  lease_ok (db w) (clock (ticks w)) tid worker token allowed g a row ∧
  w' = w <| ticks := S (ticks w) |>.
Proof.
  unfold check_lease. intros H. sinv H.
  apply negb_false_iff, bool_decide_eq_true in Hc. apply orb_false_iff in Hc0 as [Hw Ht].
  apply negb_false_iff, bool_decide_eq_true in Hw, Ht.
  destruct (truthy (Task.lease_expires_at row)) eqn:Ete; [|by minv Hr0].
  sinv Hr0. cbn in *. split; [|done]. split; try done.
  - intros Hf. rewrite Hf in Hc1. cbn in Hc1. apply orb_false_iff in Hc1 as [Hg%bool_decide_eq_false Ha%bool_decide_eq_false].
    by rewrite <- !not_eq_None_Some.
  - intros x ->. apply negb_false_iff in Hc2. by apply Z.eqb_eq.
  - intros Hs. rewrite bool_decide_eq_true_2 in Hc3 by done. cbn in Hc3.
    by apply negb_false_iff, bool_decide_eq_true in Hc3.
  - destruct (Task.lease_expires_at row) as [e|]; [|done]. exists e. eexists. cbn in *.
    split_and!; try done. by apply Z.leb_gt.
Qed.

Lemma lease_ok_in d t tid worker token allowed g a row :
  lease_ok d t tid worker token allowed g a row → row ∈ tasks d ∧ Task.task_id row = tid.
Proof. intros H. by apply find_task_in, H. Qed.

Lemma lease_ok_active d t tid worker token allowed g a row :
  lease_ok d t tid worker token allowed g a row → Inv d → active row = true.
Proof.
  intros H Hi. destruct (lease_ok_in _ _ _ _ _ _ _ _ _ H) as [Hin _].
  apply (wf_leased row); [by apply (rows_wf d (inv_rows d Hi))|]. rewrite (lo_worker _ _ _ _ _ _ _ _ _ H). eauto.
Qed.

(** [_require_resolved_effects] *)
Lemma resolved_ok row u w w' :
  require_resolved_effects row w = (Ok u, w') → needs_reconciliation (db w) row = false ∧ w' = w.
Proof. unfold require_resolved_effects. intros H. sinv H. done. Qed.

(** A row that keeps its lease. *)
Lemma keep_run d w row tid f u w' :
  Inv d → db w = d → find_task d tid = Some row → set_task tid f w = (Ok u, w') →
  TaskStep (needs_reconciliation d row) row (f row) →
  Task.leased_by (f row) = Task.leased_by row → Task.attempt_id (f row) = Task.attempt_id row →
  Task.lease_generation (f row) = Task.lease_generation row →
  (Task.state row = failed ↔ Task.state (f row) = failed) → Step d (db w').
Proof.
  intros Hi <- Hf H Hs E1 E2 E3 E4.
  destruct (find_task_in _ _ _ Hf) as [Hin <-].
  eapply set_task_ok in H as (_ & Hix & ->); [|apply Hi|done|done].
  eapply (st_keep _ _ row (f row)); try done. apply same_attempt_refl.
Qed.

Lemma steps_start tid wid tok cid g a : steps (start_task tid wid tok cid g a).
Proof.
  unfold start_task. apply steps_bind; [|intro; apply steps_reads; auto with reads].
  apply steps_tx. intros c w u w' Hi H. sinv H.
  apply check_lease_ok in Hr as [HL ->]. destruct (lease_ok_in _ _ _ _ _ _ _ _ _ HL) as [Hin Eid].
  pose proof (lo_worker _ _ _ _ _ _ _ _ _ HL) as Hw.
  pose proof (lo_state _ _ _ _ _ _ _ _ _ HL) as Hst. apply list_elem_of_singleton in Hst.
  apply rtc_once. eapply keep_run; [exact Hi| |apply HL|done|..]; try done.
  - apply ts_start; done.
  - cbn. by rewrite Hst.
Qed.

Lemma steps_renew tid wid tok cid s g a : steps (renew_lease tid wid tok cid s g a).
Proof.
  unfold renew_lease. apply steps_bind; [|intro; apply steps_reads; auto with reads].
  apply steps_tx. intros c w u w' Hi H. sinv H.
  apply check_lease_ok in Hr as [HL ->]. pose proof (lease_ok_active _ _ _ _ _ _ _ _ _ HL Hi) as Ha.
  pose proof (lo_worker _ _ _ _ _ _ _ _ _ HL) as Hw.
  set_row a0 (rows_ids _ (inv_rows _ Hi)) (lo_row _ _ _ _ _ _ _ _ _ HL). cbn in *.
  destruct (lease_ok_in _ _ _ _ _ _ _ _ _ HL) as [Hin <-].
  match type of Hr4 with _ ?x = _ => set (w1 := x) in * end.
  assert (∃ l, Forall2 same_attempt (task_attempts (db w)) l ∧ db w' = db w1 <| task_attempts := l |>)
    as (l & HF & E).
  { destruct (truthy (Task.attempt_id a0)); sinv Hr4.
    - eexists. split; [|done]. cbn. clear.
      induction (task_attempts (db w)) as [|x l IH]; cbn; [done|]. constructor; [|done].
      by destruct (attempt_is _ x).
    - exists (task_attempts (db w)). split; [apply same_attempt_refl|done]. }
  apply rtc_once. eapply (st_keep _ _ a0 (renewed (iso a2) cid _ a0)); rewrite ?E; try done.
  by apply ts_renew.
Qed.

End LeaseRefine.

(** The runs inside a transaction on a leased row. *)
Ltac use_runs :=
  repeat match goal with
  | H : check_lease _ _ _ _ _ _ _ = (Ok ?row, _) |- _ =>
      let HL := fresh "HL" in apply check_lease_ok in H as [HL ->];
      let Hin := fresh "Hin" in pose proof (proj1 (lease_ok_in _ _ _ _ _ _ _ _ _ HL)) as Hin;
      let Eid := fresh "Eid" in pose proof (proj2 (lease_ok_in _ _ _ _ _ _ _ _ _ HL)) as Eid;
      let Hw := fresh "Hw" in pose proof (lo_worker _ _ _ _ _ _ _ _ _ HL) as Hw;
      let Hst := fresh "Hst" in pose proof (lo_state _ _ _ _ _ _ _ _ _ HL) as Hst
  | H : require_resolved_effects _ _ = (Ok _, _) |- _ =>
      let Hu := fresh "Hu" in apply resolved_ok in H as [Hu ->]
  | H : end_attempt _ _ _ _ = (Ok _, _) |- _ => apply end_attempt_ok in H; subst
  | H : Task.state _ ∈ [_] |- _ => apply list_elem_of_singleton in H
  | H : negb (bool_decide _) = false |- _ => apply negb_false_iff, bool_decide_eq_true in H
  end.

(** A transaction that releases the row of [tid] without quarantine. *)
Ltac release_tac :=
  lazymatch goal with
  HL : lease_ok ?d _ _ _ _ _ _ _ ?row, H : set_task _ _ _ = (Ok _, ?w') |- rtc Step ?d (db ?w') =>
    subst; apply rtc_once;
    refine (rel_step _ _ _ _ _ _ _ (release_plain d _ row _ _ _ _ _ _ _ _ H _ _ _ _)); try done
  end.

Section ReleaseRefine.
Context {self : Store}.

Lemma steps_submit tid wid tok sha cid g a : steps (submit_for_validation tid wid tok sha cid g a).
Proof.
  unfold submit_for_validation. cbv zeta. apply steps_guard. intros Hsha%negb_false_iff.
  apply steps_bind; [|intro; apply steps_reads; auto with reads].
  apply steps_tx. intros c w u w' Hi H. sinv H. use_runs. cbn in *. release_tac.
  - by eapply ts_submit.
  - unfold active. by rewrite Hst.
Qed.

Lemma steps_complete tid wid tok cid g a : steps (complete_task tid wid tok cid g a).
Proof.
  unfold complete_task. apply steps_bind; [|intro; apply steps_reads; auto with reads].
  apply steps_tx. intros c w u w' Hi H. sinv H. use_runs. cbn in *.
  match goal with H : _ || _ = false |- _ => apply orb_false_iff in H as [_ Hb%bool_decide_eq_false] end.
  match goal with H : negb _ = false |- _ => apply negb_false_iff in H end.
  release_tac.
  - by eapply ts_complete.
  - unfold active. by rewrite Hst.
Qed.

Lemma steps_block tid wid tok cid reason g a : steps (block_task tid wid tok cid reason g a).
Proof.
  unfold block_task. cbv zeta. apply steps_guard. intros _.
  apply steps_bind; [|intro; apply steps_reads; auto with reads].
  apply steps_tx. intros c w u w' Hi H. sinv H. use_runs. cbn in *.
  pose proof (lease_ok_active _ _ _ _ _ _ _ _ _ HL Hi) as Ha. release_tac.
  apply ts_block; [done|by eauto|]. unfold needs_reconciliation. by intros ->.
Qed.

Lemma resume_not_failed row : resume_state row ≠ failed.
Proof. unfold resume_state. by destruct (truthy _). Qed.

Lemma steps_fail tid wid tok cid reason g a : steps (fail_task tid wid tok cid reason g a).
Proof.
  unfold fail_task. cbv zeta. apply steps_bind; [apply steps_reads; auto with reads|intros stamp].
  apply steps_bind; [|intro; apply steps_reads; auto with reads].
  apply steps_tx. intros c w u w' Hi H. sinv H. use_runs. cbn in *.
  pose proof (lease_ok_active _ _ _ _ _ _ _ _ _ HL Hi) as Ha.
  set (error := if nonempty _ then _ else _) in *.
  pose proof (ts_fail (needs_reconciliation (db w) a0) error cid stamp a0 Ha ltac:(eauto) Hu) as Hts.
  destruct (Task.max_attempts a0 <=? Task.attempt_count a0) eqn:Em.
  - rewrite (bind_run _ _ _ _ _ (quarantine_row_run _ _ _ _)) in Hr0. sinv Hr0. apply rtc_once.
    refine (rel_step _ _ _ _ _ _ _ (release_run (db w) _ a0 _ _ _ _ _ _ _ _ _ Hr4 _ _ _ _)); try done.
    eexists; split; [|reflexivity]. done.
  - sinv Hr0. cbn in *. release_tac. cbn. apply resume_not_failed.
Qed.

Lemma steps_requeue tid cid : steps (requeue_blocked tid cid).
Proof.
  unfold requeue_blocked. apply steps_bind; [|intro; apply steps_reads; auto with reads].
  apply steps_tx. intros c w u w' Hi H. sinv H. use_runs. cbn in *.
  match goal with H : Some _ = find_task _ _ |- _ => symmetry in H; pose proof (find_task_in _ _ _ H) as [Hin <-] end.
  apply rtc_once. eapply keep_run; [exact Hi| |done|done|..]; try done.
  - apply ts_requeue; [done|]. done.
  - cbn. rewrite Hc. split; [done|]. intros E. by destruct (resume_not_failed a0).
Qed.
End ReleaseRefine.

(** ** Admission, checkpoints, reconciliations *)

Lemma db_int_ok n m : db_int n = Ok m → m = n.
Proof. unfold db_int. destruct (_ && _); [|done]. by intros [= ->]. Qed.

Lemma insert_checkpoint_ok c d d' :
  insert_checkpoint c d = Ok d' →
  d' = d <| task_checkpoints := task_checkpoints d ++ [c] |> ∧
  existsb (checkpoint_is (Checkpoint.task_id c) (Checkpoint.checkpoint_id c)) (task_checkpoints d) = false.
Proof.
  unfold insert_checkpoint. destruct (_ || _); [done|]. destruct (existsb (checkpoint_is _ _) _); [done|].
  destruct (existsb _ _); [done|]. destruct (_ || _); [done|]. by intros [= <-].
Qed.

Lemma insert_reconciliation_ok r d d' :
  insert_reconciliation r d = Ok d' →
  d' = d <| effect_reconciliations := effect_reconciliations d ++ [r] |> ∧
  existsb (reconciliation_is (Reconciliation.task_id r) (Reconciliation.effect_id r)
    (Reconciliation.lease_generation r)) (effect_reconciliations d) = false.
Proof.
  unfold insert_reconciliation. destruct (_ <? _); [done|]. destruct (existsb (reconciliation_is _ _ _) _); [done|].
  destruct (negb _); [done|]. by intros [= <-].
Qed.

Section AdmitRefine.
Context {self : Store}.

Lemma steps_enqueue repo issue rid cid prio base att target fencing :
  steps (enqueue_task repo issue rid cid prio base att target fencing).
Proof.
  unfold enqueue_task. cbv zeta. apply steps_guard. intros _. apply steps_guard. intros _.
  apply steps_bind; [apply steps_reads; auto with reads|intros target_name].
  apply steps_bind; [apply steps_reads; auto with reads|intros stamp].
  apply steps_guard. intros Hatt%Z.ltb_ge. apply steps_tx. intros _.
  set (key := identity repo issue rid).
  intros w r w' Hi H. sinv H. cbn in *.
  assert (rtc Step (db w) (db s)) as Hlane by (eapply steps_lane; [exact Hi|exact Hr0]).
  destruct (first _ _) as [row|] eqn:Ef in Hr3; [by sinv Hr3|].
  sinv Hr3. match goal with H : exec _ _ = _ |- _ => apply exec_ok in H as (d' & Hins & ->) end. cbn in *.
  repeat match goal with H : db_int _ = Ok _ |- _ => apply db_int_ok in H; subst end.
  etrans; [exact Hlane|]. apply rtc_once. eapply st_admit; [|exact Hins]. by repeat split.
Qed.

Lemma steps_checkpoint tid wid tok gen att cpid seq stage next cid kind ref sha eff st res :
  steps (record_checkpoint tid wid tok gen att cpid seq stage next cid kind ref sha eff st res).
Proof.
  unfold record_checkpoint. apply steps_bind; [apply steps_reads; auto with reads|intros args].
  apply steps_tx. intros _ w r w' Hi H. unfold checkpoint_body in H. sinv H. use_runs. wsimpl.
  apply negb_false_iff in Hc.
  destruct (first _ _) as [row|] eqn:Ef in Hr1; [by sinv Hr1|]. sinv Hr1.
  match goal with H : exec _ _ = _ |- _ => apply exec_ok in H as (d1 & Hins & ->) end.
  apply insert_checkpoint_ok in Hins as [-> Hnew]. wsimpl.
  set_row a (rows_ids _ (inv_rows _ Hi)) (lo_row _ _ _ _ _ _ _ _ _ HL). wsimpl.
  pose proof (lo_generation _ _ _ _ _ _ _ _ _ HL _ eq_refl) as <-.
  apply rtc_once. eapply (st_checkpoint _ _ a (checkpoint_row _ _ att _ args)); try done.
  - by eapply lease_ok_active.
  - symmetry. eapply lo_attempt; [exact HL|]. by eauto.
  - cbn. by apply Z.eqb_eq, negb_false_iff.
Qed.

Lemma steps_reconcile tid eff gen out ref cid : steps (reconcile_effect tid eff gen out ref cid).
Proof.
  unfold reconcile_effect. cbv zeta. do 4 (apply steps_guard; intros _).
  apply steps_tx. intros _ w r w' Hi H. unfold reconcile_effect_body in H. sinv H. wsimpl.
  destruct (first _ _) as [row|] eqn:Ef in Hr1; [by sinv Hr1|].
  set (digest := semantic_digest _) in *. sinv Hr1. wsimpl.
  match goal with H : exec _ _ = _ |- _ => apply exec_ok in H as (d1 & Hins & ->) end.
  apply insert_reconciliation_ok in Hins as [-> Hnew]. wsimpl.
  symmetry in H. destruct (find_task_in _ _ _ H) as [Hin <-].
  match goal with H : (_ ≫= _) = Some ?c |- _ => rename H into Hlast; rename c into last end.
  apply bind_Some in Hlast as (c & Hfl & Hst).
  destruct (bool_decide (Checkpoint.effect_state c = fx_pending) || _) eqn:Est; [|done].
  injection Hst as <-.
  repeat match goal with
  | H : _ || _ = false |- _ => apply orb_false_iff in H as [? ?]
  | H : negb _ = false |- _ => apply negb_false_iff in H
  | H : bool_decide _ = true |- _ => apply bool_decide_eq_true in H
  | H : (_ =? _) = true |- _ => apply Z.eqb_eq in H
  end.
  apply rtc_once. eapply (st_reconcile _ _ a0 (Reconciliation.mk _ eff gen _ _ _ _ _) c); try done.
  apply orb_true_iff in Est as [E%bool_decide_eq_true|E%bool_decide_eq_true]; auto.
Qed.
End AdmitRefine.

(** ** Recovery *)

(** What the recovery decides for an active row: [u] tells whether the row
    needs a reconciliation. *)
Definition expiry_outcome (u : bool) (row : Task.t) : TaskState * option string * string :=
  if u then (blocked, Some effect_required, effect_required)
  else if Task.max_attempts row <=? Task.attempt_count row
       then (failed, None, "lease_expired_max_attempts"%string)
       else (resume_state row, None, "lease_expired_recovered"%string).
Definition expire (u : bool) (stamp : string) (row : Task.t) : Task.t :=
  let '(st, reason, error) := expiry_outcome u row in recovered st reason error stamp row.

(** An active row without lease passes the unique indexes, whatever its
    state becomes. *)
Lemma release_accepted d row t' :
  Inv d → row ∈ tasks d → active row = true → Task.leased_by t' = None →
  Task.repository t' = Task.repository row → Task.workspace_key t' = Task.workspace_key row →
  index_check t' (filter (fun u => negb (task_is (Task.task_id row) u)) (tasks d)) = Ok tt ∧
  fenced_claim_refused row t' = false.
Proof.
  intros Hi Hin Ha Hl Er Ek. split.
  - unfold index_check. destruct (existsb (same_active_worker t') _) eqn:E1.
    { apply existsb_elem in E1 as (u & _ & Hu). unfold same_active_worker in Hu.
      by rewrite Hl, andb_false_r in Hu. }
    destruct (existsb (same_active_workspace t') _) eqn:E2; [|done].
    apply existsb_elem in E2 as (u & Hu & Hs). exfalso. apply list_elem_of_filter in Hu as [Hne Hu].
    assert (same_active_workspace row u = true) as Hs'.
    { unfold same_active_workspace in *. rewrite Er, Ek in Hs. rewrite Ha.
      apply andb_true_iff in Hs as [Hs ->]. apply andb_true_iff in Hs as [Hs ->].
      apply andb_true_iff in Hs as [_ ->]. done. }
    apply (rows_workspaces d (inv_rows d Hi) row u Hin Hu) in Hs' as <-.
    unfold task_is in Hne. rewrite bool_decide_eq_true_2 in Hne by done. done.
  - unfold fenced_claim_refused. rewrite Hl, (bool_decide_eq_false_2 _ (is_Some_None (A := string))).
    by rewrite andb_false_r.
Qed.

Lemma update_task_run tid f d t :
  NoDup (Task.task_id <$> tasks d) → find_task d tid = Some t →
  fenced_claim_refused t (f t) = false →
  index_check (f t) (filter (fun u => negb (task_is tid u)) (tasks d)) = Ok tt →
  update_task tid (fun _ => true) f d =
    Ok (1, d <| tasks := update_where (task_is tid) (fun _ => f t) (tasks d) |>).
Proof.
  intros Hn Hf Hfc Hix. destruct (find_task_in _ _ _ Hf) as [Hin Eid].
  destruct (update_task tid (fun _ => true) f d) as [[n d']|e] eqn:E.
  - pose proof E as E'. apply update_task_ok in E as [[-> ->]|(-> & u & Hu & _ & _ & -> & _)]; [| |done].
    + exfalso. unfold update_task in E'.
      destruct (first_exists (fun t => task_is tid t && true) _ _ Hin) as [v Hv].
      { unfold task_is. by rewrite bool_decide_eq_true_2. }
      rewrite Hv in E'. destruct (fenced_claim_refused v (f v)); [done|].
      by destruct (index_check (f v) _).
    + by simplify_eq.
  - exfalso. unfold update_task in E.
    destruct (first_exists (fun t => task_is tid t && true) _ _ Hin) as [v Hv].
    { unfold task_is. by rewrite bool_decide_eq_true_2. }
    rewrite Hv in E. apply first_match in Hv as [Hvin Hvt]. unfold task_is in Hvt.
    rewrite andb_true_r in Hvt. apply bool_decide_eq_true in Hvt.
    assert (v = t) as -> by (apply (row_eq d); congruence). by rewrite Hfc, Hix in E.
Qed.

(** Tables that recovery leaves as they are. *)
Record same_rest (d d' : DB) : Prop := {
  sr_checkpoints : task_checkpoints d' = task_checkpoints d;
  sr_reconciliations : effect_reconciliations d' = effect_reconciliations d;
  sr_workers : workers d' = workers d;
  sr_lanes : repository_lanes d' = repository_lanes d;
  sr_affinities : worker_repository_affinity d' = worker_repository_affinity d;
  sr_control : pool_control d' = pool_control d;
  sr_works : work_runs d' = work_runs d }.

#[export] Instance same_rest_preorder : PreOrder same_rest.
Proof.
  split; [by split|]. intros a b c [] []. split; congruence.
Qed.

Lemma same_rest_needs d d' t : same_rest d d' → needs_reconciliation d' t = needs_reconciliation d t.
Proof. intros []. unfold needs_reconciliation. by rewrite (has_unresolved_ext d d'). Qed.

Section Recovery.
Context {self : Store}.

Lemma set_task_run d tid f w t :
  NoDup (Task.task_id <$> tasks d) → find_task d tid = Some t → db w = d →
  fenced_claim_refused t (f t) = false →
  index_check (f t) (filter (fun u => negb (task_is tid u)) (tasks d)) = Ok tt →
  set_task tid f w = (Ok tt, w <| db := d <| tasks := update_where (task_is tid) (fun _ => f t) (tasks d) |> |>).
Proof.
  intros Hn Hf <- Hfc Hix. unfold set_task, mbind, M_bind, exec_count.
  by rewrite (update_task_run tid f (db w) t Hn Hf Hfc Hix).
Qed.

(** Releasing an active row never fails. *)
Lemma release_total d w2 row f stamp reason ql :
  Inv d → row ∈ tasks d →
  db w2 = d <| quarantine := quarantine d ++ ql |>
            <| task_attempts := close_attempt row stamp reason (task_attempts d) |> →
  TaskStep (needs_reconciliation d row) row (f row) → active row = true → lease_clear (f row) →
  (∃ q, Quarantine.task_id q = Task.task_id row ∧
     ql = if bool_decide (Task.state (f row) = failed) then [q] else []) →
  ∃ w', set_task (Task.task_id row) f w2 = (Ok tt, w') ∧ ticks w' = ticks w2 ∧ uuids w' = uuids w2 ∧
    released_to d (db w') row (f row) stamp reason ql.
Proof.
  intros Hi Hin E Hs Ha Hc Hq. pose proof (step_identity _ _ _ Hs) as (_ & Er & _ & _ & _ & _ & Ek & _).
  destruct (release_accepted d row (f row) Hi Hin Ha (proj1 Hc) Er Ek) as [Hix Hfc].
  assert (∃ w', set_task (Task.task_id row) f w2 = (Ok tt, w') ∧ ticks w' = ticks w2 ∧ uuids w' = uuids w2)
    as (w' & Hrun & E1 & E2).
  { eexists. split.
    - eapply set_task_run; [| |exact E|exact Hfc|exact Hix].
      + apply Hi.
      + apply find_task_row; [apply Hi|done].
    - done. }
  exists w'. do 3 (split; [done|]). by eapply release_run.
Qed.

Lemma released_rest d d' row row' stamp reason ql :
  released_to d d' row row' stamp reason ql → same_rest d d'.
Proof. intros [_ _ _ _ E1 E2 (E3 & E4 & E5 & E6 & E7)]. by split. Qed.

Lemma expire_step d stamp row :
  active row = true →
  TaskStep (needs_reconciliation d row) row (expire (needs_reconciliation d row) stamp row).
Proof.
  intros Ha. unfold expire, expiry_outcome. destruct (needs_reconciliation d row).
  - by apply ts_recover.
  - destruct (Task.max_attempts row <=? Task.attempt_count row) eqn:Em; apply ts_recover; rewrite ?Em; auto.
Qed.

(** [_end_attempt] and the update that follows it, after the quarantine. *)
Lemma end_release d w1 u row st reason error stamp ql :
  Inv d → row ∈ tasks d → db w1 = d <| quarantine := quarantine d ++ ql |> →
  needs_reconciliation d row = u → TaskStep u row (recovered st reason error stamp row) →
  active row = true →
  (∃ q, Quarantine.task_id q = Task.task_id row ∧ ql = if bool_decide (st = failed) then [q] else []) →
  ∃ w', (end_attempt row stamp error ;; set_task (Task.task_id row) (recovered st reason error stamp)) w1
      = (Ok tt, w') ∧ ticks w' = ticks w1 ∧ uuids w' = uuids w1 ∧
    released_to d (db w') row (recovered st reason error stamp row) stamp error ql.
Proof.
  intros Hi Hin E <- Hs Ha Hq.
  rewrite (bind_run _ _ _ _ _ (end_attempt_run row stamp error w1)).
  eapply (release_total d _ row _ stamp error ql Hi Hin) in Hs as (w' & Hrun & E1 & E2 & Hrel); [by eauto 10|..]; try done.
  cbn. by rewrite E.
Qed.

Lemma no_quarantine (d : DB) : d = d <| quarantine := quarantine d ++ [] |>.
Proof. rewrite app_nil_r. by destruct d. Qed.

(** One row of the recovery, which never fails. *)
Lemma recover_row_run d w stamp row :
  Inv d → db w = d → row ∈ tasks d → active row = true →
  ∃ w' reason ql, recover_row stamp row w = (Ok tt, w') ∧ ticks w' = ticks w ∧ uuids w' = uuids w ∧
    released_to d (db w') row (expire (needs_reconciliation d row) stamp row) stamp reason ql.
Proof.
  intros Hi <- Hin Ha. pose proof (expire_step (db w) stamp row Ha) as Hs.
  unfold recover_row, expire, expiry_outcome in *. unfold query, mbind at 1, M_bind at 1.
  fold (needs_reconciliation (db w) row).
  set (q := Quarantine.mk (Task.task_id row) "" "" 0 "" "").
  destruct (needs_reconciliation (db w) row) eqn:En;
    [|destruct (Task.max_attempts row <=? Task.attempt_count row) eqn:Em].
  - rewrite bind_ret. destruct (end_release (db w) w _ row _ _ _ _ [] Hi Hin (no_quarantine _) En Hs Ha)
      as (w' & ?); [by exists q|by eauto 10].
  - rewrite (bind_run _ _ _ _ _ (bind_run _ _ _ _ _ (quarantine_row_run _ _ _ w))).
    match goal with |- context [(end_attempt _ _ _ ;; _) ?x = _] => set (w1 := x) end.
    edestruct (end_release (db w) w1) as (w' & ?); [exact Hi|exact Hin|reflexivity|exact En|exact Hs|exact Ha| |].
    + eexists; split; [|reflexivity]; done.
    + by eauto 10.
  - rewrite bind_ret. destruct (end_release (db w) w _ row _ _ _ _ [] Hi Hin (no_quarantine _) En Hs Ha)
      as (w' & ?); [|by eauto 10].
    exists q. rewrite bool_decide_eq_false_2 by apply resume_not_failed. done.
Qed.
Lemma task_is_true tid t : task_is tid t = true ↔ Task.task_id t = tid.
Proof. unfold task_is. apply bool_decide_eq_true. Qed.

Lemma existsb_rows rows t :
  existsb (fun r => task_is (Task.task_id r) t) rows = true ↔ Task.task_id t ∈ Task.task_id <$> rows.
Proof.
  rewrite existsb_elem, list_elem_of_fmap. setoid_rewrite task_is_true. naive_solver.
Qed.

Lemma expire_id u stamp t : Task.task_id (expire u stamp t) = Task.task_id t.
Proof. unfold expire. by destruct (expiry_outcome u t) as [[??]?]. Qed.

(** The other rows stay while one is released. *)
Lemma released_others d d' row row' stamp reason ql t :
  released_to d d' row row' stamp reason ql → t ∈ tasks d → Task.task_id t ≠ Task.task_id row →
  t ∈ tasks d'.
Proof.
  intros Hrel Ht Hne. rewrite (rel_tasks _ _ _ _ _ _ _ Hrel). apply elem_of_update. exists t.
  split; [done|]. unfold task_is. by case_bool_decide.
Qed.

Lemma expire_compose d d1 stamp r rest :
  NoDup (Task.task_id <$> tasks d) → r ∈ tasks d → NoDup (Task.task_id <$> r :: rest) →
  same_rest d d1 →
  tasks d1 = update_where (task_is (Task.task_id r))
    (fun _ => expire (needs_reconciliation d r) stamp r) (tasks d) →
  update_where (fun t => existsb (fun x => task_is (Task.task_id x) t) rest)
    (fun t => expire (needs_reconciliation d1 t) stamp t) (tasks d1) =
  update_where (fun t => existsb (fun x => task_is (Task.task_id x) t) (r :: rest))
    (fun t => expire (needs_reconciliation d t) stamp t) (tasks d).
Proof.
  intros Hn Hr Hnd Hsr ->. cbn in Hnd. apply NoDup_cons in Hnd as [Hnot _].
  unfold update_where. rewrite map_map. apply map_ext_in. intros t Ht. cbn.
  rewrite (same_rest_needs d d1) by done.
  destruct (task_is (Task.task_id r) t) eqn:E; cbn.
  - apply task_is_true in E. assert (t = r) as -> by (apply (row_eq d); [done|by apply list_elem_of_In|done..]).
    destruct (existsb _ rest) eqn:Ex; [|done]. apply existsb_rows in Ex. by rewrite expire_id in Ex.
  - done.
Qed.

Lemma recover_loop stamp rows : ∀ d w,
  Inv d → db w = d → NoDup (Task.task_id <$> rows) → (∀ r, r ∈ rows → r ∈ tasks d ∧ active r = true) →
  ∃ w', for_each rows (recover_row stamp) w = (Ok tt, w') ∧ ticks w' = ticks w ∧ uuids w' = uuids w ∧
    rtc Step d (db w') ∧ same_rest d (db w') ∧
    tasks (db w') = update_where (fun t => existsb (fun r => task_is (Task.task_id r) t) rows)
      (fun t => expire (needs_reconciliation d t) stamp t) (tasks d).
Proof.
  induction rows as [|r rest IH]; intros d w Hi Ed Hn Hrows.
  - exists w. cbn. rewrite Ed. split_and!; try done.
    unfold update_where. by rewrite map_id.
  - destruct (Hrows r) as [Hin Ha]; [constructor|].
    destruct (recover_row_run d w stamp r Hi Ed Hin Ha) as (w1 & reason & ql & Hrun & Et & Eu & Hrel).
    pose proof (rel_step _ _ _ _ _ _ _ Hrel) as Hstep. pose proof (released_rest _ _ _ _ _ _ _ Hrel) as Hsr.
    pose proof Hn as Hn'. cbn in Hn'. apply NoDup_cons in Hn' as [Hnot Hnr].
    destruct (IH (db w1) w1 (inv_step _ _ Hstep Hi) eq_refl Hnr) as (w2 & Hrun2 & Et2 & Eu2 & Hs2 & Hsr2 & E2).
    { intros x Hx. destruct (Hrows x) as [Hxin Hxa]; [by constructor|]. split; [|done].
      eapply released_others; [done..|]. intros Eq. apply Hnot. rewrite <- Eq.
      by apply list_elem_of_fmap_2. }
    exists w2. cbn [for_each]. rewrite (bind_run _ _ _ _ _ Hrun). split_and!; try done; try congruence.
    + by eapply rtc_l.
    + by etrans.
    + rewrite E2. apply expire_compose; try done; [apply Hi|]. apply (rel_tasks _ _ _ _ _ _ _ Hrel).
Qed.

(** [_recover] always succeeds: every active row whose lease expired is
    released as [expiry_outcome] says, and the others are as they were. *)
Lemma recover_run d w :
  Inv d → db w = d →
  ∃ w', recover w = (Ok (Z.of_nat (length (List.filter (lease_expired_at (iso (clock (ticks w)))) (tasks d)))), w') ∧
    ticks w' = S (ticks w) ∧ uuids w' = uuids w ∧ rtc Step d (db w') ∧ same_rest d (db w') ∧
    tasks (db w') = update_where (lease_expired_at (iso (clock (ticks w))))
      (fun t => expire (needs_reconciliation d t) (iso (clock (ticks w))) t) (tasks d).
Proof.
  intros Hi <-. set (stamp := iso (clock (ticks w))).
  set (rows := List.filter (lease_expired_at stamp) (tasks (db w))).
  assert (∀ r, r ∈ rows ↔ r ∈ tasks (db w) ∧ lease_expired_at stamp r = true) as Hrows.
  { intros r. apply elem_of_where. }
  set (w1 := w <| ticks := S (ticks w) |>).
  destruct (recover_loop stamp rows (db w) w1 Hi eq_refl)
    as (w' & Hrun & Et & Eu & Hs & Hsr & E).
  - apply NoDup_fmap_filter, Hi.
  - intros r Hr. apply Hrows in Hr as [Hin He]. split; [done|].
    unfold lease_expired_at in He. by apply andb_true_iff in He as [-> _].
  - exists w'. split; [|split; [exact Et|split; [exact Eu|split; [exact Hs|split; [exact Hsr|]]]]].
    + unfold recover. rewrite bind_now_stamp, bind_query.
      by rewrite (bind_run _ _ _ _ _ Hrun).
    + rewrite E. unfold update_where. apply map_ext_in. intros t Ht%list_elem_of_In.
      assert (existsb (λ r, task_is (Task.task_id r) t) rows = lease_expired_at stamp t) as ->; [|done].
      apply eq_true_iff_eq. rewrite existsb_rows, list_elem_of_fmap. split.
      * intros (r & Eq & Hr). apply Hrows in Hr as [Hr He].
        assert (t = r) as -> by (apply (row_eq (db w)); [apply Hi|done..]). done.
      * intros He. exists t. split; [done|]. by apply Hrows.
Qed.

(** *** The stall watchdog *)

(** What the watchdog makes of a stalled row. *)
Definition stall_result (u : bool) (stamp : string) (row row' : Task.t) (k : StallOutcome) : Prop :=
  if u then k = so_blocked ∧ row' = recovered blocked (Some effect_required) effect_required stamp row
  else if Task.max_attempts row <=? Task.attempt_count row
  then k = so_failed ∧ row' = recovered failed None "material_progress_timeout_max_attempts" stamp row
  else (k = so_rerouted ∧
        row' = recovered (resume_state row) None "material_progress_timeout_rerouted" stamp row) ∨
       (k = so_blocked ∧
        row' = recovered blocked (Some "material_progress_timeout_no_alternative"%string)
                 "material_progress_timeout_no_alternative" stamp row).

Lemma stall_step u stamp row row' k :
  active row = true → stall_result u stamp row row' k → TaskStep u row row'.
Proof.
  unfold stall_result. intros Ha. destruct u; [intros [_ ->]; by apply ts_recover|].
  destruct (_ <=? _) eqn:Em; [intros [_ ->]|intros [[_ ->]|[_ ->]]]; apply ts_recover; rewrite ?Em; auto.
Qed.

(** The decision of the watchdog on a row, before anything is released. *)
Definition stall_decision (u : bool) (all_workers : list Worker.t) (row : Task.t)
  : M World (StallOutcome * (TaskState * option string * string)) :=
  if u then mret (so_blocked, (blocked, Some effect_required, effect_required))
  else if Task.max_attempts row <=? Task.attempt_count row
  then mret (so_failed, (failed, None, "material_progress_timeout_max_attempts"%string))
  else alternative ← any_m all_workers (worker_is_alternative row);
    mret (if (alternative : bool) then
      (so_rerouted, (resume_state row, None, "material_progress_timeout_rerouted"%string))
    else (so_blocked, (blocked, Some "material_progress_timeout_no_alternative"%string,
                       "material_progress_timeout_no_alternative"%string))).

Lemma reads_decision u ws row : reads (stall_decision u ws row).
Proof.
  unfold stall_decision. apply reads_if; [auto with reads|]. apply reads_if; [auto with reads|].
  apply reads_bind; [|intros; auto with reads]. apply reads_any. intros. apply reads_alternative.
Qed.

Lemma decision_result u ws row k st reason error stamp w w' :
  stall_decision u ws row w = (Ok (k, (st, reason, error)), w') →
  stall_result u stamp row (recovered st reason error stamp row) k ∧
  (st = failed ↔ u = false ∧ (Task.max_attempts row <=? Task.attempt_count row) = true).
Proof.
  unfold stall_decision, stall_result. intros H. destruct u; [sinv H; simplify_eq; naive_solver|].
  destruct (_ <=? _) eqn:Em; [sinv H; simplify_eq; naive_solver|].
  apply bind_ok in H as (b & s & _ & H). sinv H. pose proof (resume_not_failed row).
  destruct b; simplify_eq; naive_solver.
Qed.

(** A row of the watchdog, given its decision. *)
Lemma stalled_row_run d w stamp ws row k st reason error w1 :
  Inv d → db w = d → row ∈ tasks d → active row = true →
  stall_decision (needs_reconciliation d row) ws row w = (Ok (k, (st, reason, error)), w1) →
  ∃ w' ql, recover_stalled_row stamp ws row w = (Ok k, w') ∧ ticks w' = ticks w1 ∧ uuids w' = uuids w1 ∧
    released_to d (db w') row (recovered st reason error stamp row) stamp error ql.
Proof.
  intros Hi <- Hin Ha Hd. pose proof (reads_decision _ _ _ _ _ _ Hd) as Edb.
  destruct (decision_result _ _ _ _ _ _ _ stamp _ _ Hd) as [Hres Hfail].
  pose proof (stall_step _ _ _ _ _ Ha Hres) as Hs.
  unfold recover_stalled_row. rewrite bind_query. fold (needs_reconciliation (db w) row).
  match goal with |- context [(x ← ?D; @?K x) w] => set (decide_code := D); set (rest := K) end.
  assert (∃ w2 ql, decide_code w = (Ok (k, (st, reason, error)), w2) ∧
    db w2 = db w <| quarantine := quarantine (db w) ++ ql |> ∧ ticks w2 = ticks w1 ∧ uuids w2 = uuids w1 ∧
    ∃ q, Quarantine.task_id q = Task.task_id row ∧ ql = if bool_decide (st = failed) then [q] else [])
    as (w2 & ql & Hcode & E2 & Et & Eu & Hq).
  { unfold decide_code, stall_decision in *. set (q := Quarantine.mk (Task.task_id row) "" "" 0 "" "").
    destruct (needs_reconciliation (db w) row);
      [|destruct (Task.max_attempts row <=? Task.attempt_count row) eqn:Em].
    - exists w1, []. rewrite Edb. split_and!; try done; [apply no_quarantine|].
      exists q. rewrite bool_decide_eq_false_2; [done|]. naive_solver.
    - rewrite (bind_run _ _ _ _ _ (quarantine_row_run _ _ _ w)). sinv Hd. simplify_eq.
      eexists _, _. split; [reflexivity|]. do 3 (split; [reflexivity|]). eexists. split; [|reflexivity]. done.
    - exists w1, []. rewrite Edb. split_and!; try done; [apply no_quarantine|].
      exists q. rewrite bool_decide_eq_false_2; [done|]. naive_solver. }
  rewrite (bind_run _ _ _ _ _ Hcode). unfold rest.
  destruct (end_release (db w) w2 (needs_reconciliation (db w) row) row st reason error stamp ql)
    as (w' & Hrun & Et' & Eu' & Hrel); try done.
  exists w', ql. rewrite (bind_run2 _ _ _ _ _ _ Hrun). split; [done|]. split; [congruence|]. split; [congruence|done].
Qed.

Lemma stalled_row_ok d w stamp ws row k w' :
  Inv d → db w = d → row ∈ tasks d → active row = true →
  recover_stalled_row stamp ws row w = (Ok k, w') →
  ∃ row' reason ql, stall_result (needs_reconciliation d row) stamp row row' k ∧
    released_to d (db w') row row' stamp reason ql.
Proof.
  intros Hi <- Hin Ha H.
  assert (∃ st reason error w1, stall_decision (needs_reconciliation (db w) row) ws row w =
    (Ok (k, (st, reason, error)), w1)) as (st & reason & error & w1 & Hd).
  { unfold recover_stalled_row in H. rewrite bind_query in H. fold (needs_reconciliation (db w) row) in H.
    apply bind_ok in H as ([k' [[st reason] error]] & w2 & Hc & H). minv H.
    unfold stall_decision. destruct (needs_reconciliation (db w) row); [by eauto 10|].
    destruct (_ <=? _); [|by eauto 10]. minv Hc. simplify_eq. eauto 10. }
  destruct (stalled_row_run (db w) w stamp ws row k st reason error w1 Hi eq_refl Hin Ha Hd)
    as (w2 & ql & Hrun & _ & _ & Hrel).
  rewrite Hrun in H. injection H as <-. exists (recovered st reason error stamp row), error, ql.
  split; [|done]. by eapply decision_result.
Qed.

Definition stall_total (c : StallCounts.t) : Z :=
  StallCounts.rerouted c + StallCounts.blocked c + StallCounts.failed c.

(** A row of the watchdog before and after; the others are as they were. *)
Definition stall_rel (d : DB) (stamp : string) (stalled : Task.t → bool) (t t' : Task.t) : Prop :=
  if stalled t then ∃ k, stall_result (needs_reconciliation d t) stamp t t' k else t' = t.

Lemma stall_compose d d1 stamp r row' k rest l :
  NoDup (Task.task_id <$> tasks d) → r ∈ tasks d → NoDup (Task.task_id <$> r :: rest) →
  same_rest d d1 → stall_result (needs_reconciliation d r) stamp r row' k → Task.task_id row' = Task.task_id r →
  tasks d1 = update_where (task_is (Task.task_id r)) (fun _ => row') (tasks d) →
  Forall2 (stall_rel d1 stamp (fun t => existsb (fun x => task_is (Task.task_id x) t) rest)) (tasks d1) l →
  Forall2 (stall_rel d stamp (fun t => existsb (fun x => task_is (Task.task_id x) t) (r :: rest))) (tasks d) l.
Proof.
  intros Hn Hr Hnd Hsr Hres Eid -> HF. cbn in Hnd. apply NoDup_cons in Hnd as [Hnot _].
  eapply Forall2_update; [|exact HF]. intros t t' Ht. unfold stall_rel. cbn.
  rewrite (same_rest_needs d d1) by done.
  destruct (task_is (Task.task_id r) t) eqn:E; cbn.
  - apply task_is_true in E. assert (t = r) as -> by (by apply (row_eq d)).
    destruct (existsb _ rest) eqn:Ex; [|intros ->; eauto].
    apply existsb_rows in Ex. by rewrite Eid in Ex.
  - done.
Qed.

Lemma stalled_loop_ok stamp ws rows : ∀ d w acc c w',
  Inv d → db w = d → NoDup (Task.task_id <$> rows) → (∀ r, r ∈ rows → r ∈ tasks d ∧ active r = true) →
  stalled_loop stamp ws rows acc w = (Ok c, w') →
  rtc Step d (db w') ∧ same_rest d (db w') ∧
  Forall2 (stall_rel d stamp (fun t => existsb (fun r => task_is (Task.task_id r) t) rows))
    (tasks d) (tasks (db w')) ∧
  stall_total c = stall_total acc + Z.of_nat (length rows).
Proof.
  induction rows as [|r rest IH]; intros d w acc c w' Hi Ed Hn Hrows H; cbn [stalled_loop] in H.
  - sinv H. split_and!; try done; [|cbn; lia].
    clear. induction (tasks (db w')); by constructor.
  - apply bind_ok in H as (k & w1 & Hrun & H).
    destruct (Hrows r) as [Hin Ha]; [constructor|].
    destruct (stalled_row_ok d w stamp ws r k w1 Hi Ed Hin Ha Hrun) as (row' & reason & ql & Hres & Hrel).
    pose proof (rel_step _ _ _ _ _ _ _ Hrel) as Hstep. pose proof (released_rest _ _ _ _ _ _ _ Hrel) as Hsr.
    pose proof Hn as Hn'. cbn in Hn'. apply NoDup_cons in Hn' as [Hnot Hnr].
    destruct (IH (db w1) w1 (count_outcome acc k) c w' (inv_step _ _ Hstep Hi) eq_refl Hnr) as (Hs2 & Hsr2 & E2 & Ec); [|exact H|].
    { intros x Hx. destruct (Hrows x) as [Hxin Hxa]; [by constructor|]. split; [|done].
      eapply released_others; [done..|]. intros Eq. apply Hnot. rewrite <- Eq.
      by apply list_elem_of_fmap_2. }
    split_and!.
    + by eapply rtc_l.
    + by etrans.
    + eapply stall_compose; try done; [apply Hi| |apply (rel_tasks _ _ _ _ _ _ _ Hrel)].
      by apply (step_identity _ _ _ (stall_step _ _ _ _ _ Ha Hres)).
    + rewrite Ec. destruct k; unfold stall_total; cbn; lia.
Qed.

(** [_recover_stalled]: every active row without material progress since the
    cutoff is rerouted, blocked or failed, and the others are as they were. *)
Lemma recover_stalled_ok d w c w' :
  Inv d → db w = d → recover_stalled w = (Ok c, w') →
  ∃ cutoff, add_seconds (clock (ticks w)) (- progress_stall_seconds) = Ok cutoff ∧
    rtc Step d (db w') ∧ same_rest d (db w') ∧
    Forall2 (stall_rel d (iso (clock (ticks w))) (stalled_at (iso cutoff))) (tasks d) (tasks (db w')) ∧
    stall_total c = Z.of_nat (length (List.filter (stalled_at (iso cutoff)) (tasks d))).
Proof.
  intros Hi <- H. unfold recover_stalled in H. rewrite bind_now in H.
  apply bind_ok in H as (cutoff & w1 & Hc & H). apply lift_ok in Hc as [Hc <-].
  rewrite !bind_query in H. wsimpl. exists cutoff. split; [done|].
  set (rows := List.filter _ _) in *. set (stamp := iso (clock (ticks w))) in *.
  assert (∀ r, r ∈ rows ↔ r ∈ tasks (db w) ∧ stalled_at (iso cutoff) r = true) as Hrows.
  { intros r. apply elem_of_where. }
  apply (stalled_loop_ok stamp _ rows (db w)) in H as (Hs & Hsr & HF & Et); [|done|done|by apply NoDup_fmap_filter, Hi|].
  - split_and!; try done.
    eapply Forall2_impl_in; [|exact HF]. intros t t' Ht. unfold stall_rel.
    assert (existsb (fun r => task_is (Task.task_id r) t) rows = stalled_at (iso cutoff) t) as ->; [|done].
    apply eq_true_iff_eq. rewrite existsb_rows, list_elem_of_fmap. split.
    + intros (r & Eq & Hr). apply Hrows in Hr as [Hr He].
      assert (t = r) as -> by (apply (row_eq (db w)); [apply Hi|done..]). done.
    + intros He. exists t. split; [done|]. by apply Hrows.
  - intros r Hr. apply Hrows in Hr as [Hin He]. split; [done|].
    unfold stalled_at in He. by apply andb_true_iff in He as [-> _].
Qed.
End Recovery.

(** ** Claim *)

(** What the model relies on of [uuid4]: its text is not empty. *)
Class Uuids {self : Store} : Prop := uuid_nonempty n : nonempty (uuid4 n) = true.

Lemma insert_attempt_ok a d d' :
  insert_attempt a d = Ok d' →
  d' = d <| task_attempts := task_attempts d ++ [a] |> ∧
  existsb (attempt_is (Attempt.attempt_id a)) (task_attempts d) = false.
Proof.
  unfold insert_attempt. destruct (_ <? _); [done|]. destruct (existsb (attempt_is _) _); [done|].
  destruct (existsb _ _); [done|]. destruct (negb _); [done|]. by intros [= <-].
Qed.

(** A selected row is an eligible row of an existing lane. *)
Lemma candidates_elem d eligible key k t :
  (k, t) ∈ candidates d eligible key →
  t ∈ tasks d ∧ ∃ r n, find_lane d (Task.repository t) = Some r ∧ eligible r t = true ∧ k = key r n t.
Proof.
  unfold candidates. intros H. apply list_elem_of_omap in H as ([n u] & Hin & Hf).
  assert (u ∈ tasks d) as Hu.
  { apply list_elem_of_lookup in Hin as [i Hi]. apply lookup_zip_with_Some in Hi as (a & b & E & _ & Hb).
    injection E as -> ->. by eapply list_elem_of_lookup_2. }
  destruct (find_lane d (Task.repository u)) as [r|] eqn:El; [|done].
  destruct (eligible r u) eqn:Ee; [|done]. injection Hf as <- <-. eauto 10.
Qed.

Lemma select_task_ok d eligible key t :
  select_task d eligible key = Some t →
  t ∈ tasks d ∧ ∃ r, find_lane d (Task.repository t) = Some r ∧ eligible r t = true.
Proof.
  unfold select_task. intros H. apply fmap_Some in H as ([k u] & H & ->).
  apply least_elem, candidates_elem in H as (Hin & r & n & Hl & He & _). eauto.
Qed.

(** What the selection guarantees on the row, for the step of the claim. *)
Lemma select_for_ok d role wid fencing only t :
  select_for d role wid fencing only = Some t →
  t ∈ tasks d ∧ Task.state t = wanted_state role ∧
  (role = validator → is_Some (Task.produced_sha t) ∧ Task.builder_worker_id t ≠ Some wid).
Proof.
  unfold select_for. destruct role; intros H; apply select_task_ok in H as (Hin & r & _ & He).
  - unfold builder_eligible in He. repeat apply andb_true_iff in He as [He ?].
    apply bool_decide_eq_true in He. done.
  - unfold validator_eligible in He. repeat apply andb_true_iff in He as [He ?].
    apply bool_decide_eq_true in He. split; [done|]. split; [done|]. intros _.
    split; [by eapply bool_decide_eq_true|]. by eapply bool_decide_eq_false, negb_true_iff.
Qed.

(** The row after its update. *)
Lemma find_updated d d' t t' :
  NoDup (Task.task_id <$> tasks d) → t ∈ tasks d → Task.task_id t' = Task.task_id t →
  tasks d' = update_where (task_is (Task.task_id t)) (fun _ => t') (tasks d) →
  find_task d' (Task.task_id t) = Some t'.
Proof.
  intros Hn Hin Eid E. rewrite <- Eid. apply find_task_row.
  - assert (Task.task_id <$> tasks d' = Task.task_id <$> tasks d) as ->; [|done].
    rewrite E. unfold update_where, task_is. clear -Eid.
    induction (tasks d) as [|x l IH]; cbn; [done|]. rewrite IH. case_bool_decide; congruence.
  - rewrite E. apply elem_of_update. exists t. split; [done|]. unfold task_is. by rewrite bool_decide_eq_true_2.
Qed.

Section ClaimRefine.
Context {self : Store} {Hid : Uuids}.

(** The assignment of the selected row. *)
Record granted (d d' : DB) (role : Role) (wid token attempt expires cid stamp : string) (row : Task.t) : Prop := {
  gr_step : Step d d';
  gr_unleased : Task.leased_by row = None;
  gr_tasks : tasks d' = update_where (task_is (Task.task_id row))
    (fun _ => claimed role wid token attempt expires cid stamp row row) (tasks d);
  gr_attempts : task_attempts d' = task_attempts d ++
    [Attempt.mk attempt (Task.task_id row) (Task.lease_generation row + 1) wid role stamp expires None None];
  gr_lanes : repository_lanes d' =
    update_where (lane_is (Task.repository row)) (count_claim role stamp) (repository_lanes d);
  gr_workers : workers d' = workers d }.

Lemma assign_ok role wid cid ttl now_ stamp row w data lease w' :
  Inv (db w) → row ∈ tasks (db w) → Task.state row = wanted_state role →
  (role = validator → is_Some (Task.produced_sha row) ∧ Task.builder_worker_id row ≠ Some wid) →
  assign_lease role wid cid ttl now_ stamp row w = (Ok (data, lease), w') →
  ∃ expiry, add_seconds now_ ttl = Ok expiry ∧
    let token := uuid4 (uuids w) in let attempt := uuid4 (S (uuids w)) in
    granted (db w) (db w') role wid token attempt (iso expiry) cid stamp row ∧
    data = claimed role wid token attempt (iso expiry) cid stamp row row ∧
    lease = Lease.mk (Task.task_id row) token wid role (iso expiry) (Task.lease_generation row + 1) attempt.
Proof.
  intros Hi Hin Hst Hv H. unfold assign_lease in H. rewrite !bind_uuid in H. wsimpl.
  set (token := uuid4 (uuids w)) in *. set (attempt := uuid4 (S (uuids w))) in *.
  apply bind_ok in H as (expiry & w1 & He & H). apply lift_ok in He as [He <-]. exists expiry. split; [done|].
  set (expires := iso expiry) in *. cbv zeta in *.
  apply bind_ok in H as (n & w1 & Hu & H). apply exec_count_ok in Hu as (d1 & Hu & ->). wsimpl.
  pose proof (rows_ids _ (inv_rows _ Hi)) as Hn.
  apply update_task_ok in Hu as [[-> ->]|(-> & t & Hf & Hg & Hfc & -> & Hix)];
    [by sinv H| |done].
  assert (t = row) as ->.
  { destruct (find_task_in _ _ _ Hf) as [Ht Eq]. by apply (row_eq (db w)). }
  apply andb_true_iff in Hg as [_ Hno]. apply bool_decide_eq_true in Hno.
  sinv H. wsimpl.
  match goal with H : exec _ _ = _ |- _ => apply exec_ok in H as (d2 & Hins & ->) end.
  apply insert_attempt_ok in Hins as [-> Hnew]. wsimpl.
  match goal with H : Some _ = find_task ?d _ |- _ =>
    rewrite (find_updated (db w) d row (claimed role wid token attempt expires cid stamp row row)
      Hn Hin eq_refl eq_refl) in H; injection H as -> end.
  simplify_eq. split; [|done]. split; try done.
  eapply (st_claim _ _ role wid token attempt expires cid stamp row); try done.
  apply ts_claim; try done. apply Hid.
Qed.

Lemma steps_recover : steps recover.
Proof.
  intros w r w' Hi H. destruct (recover_run (db w) w Hi eq_refl) as (w1 & E & _ & _ & Hs & _).
  rewrite E in H. by injection H as _ <-.
Qed.

Lemma steps_ok_stalled : steps_ok recover_stalled.
Proof. intros w c w' Hi H. by apply (recover_stalled_ok (db w)) in H as (_ & _ & Hs & _). Qed.

Lemma steps_ok_bind {A B} (m : M World A) (f : A → M World B) :
  steps_ok m → (∀ a, steps_ok (f a)) → steps_ok (x ← m; f x).
Proof.
  intros Hm Hf w b w' Hi H. apply bind_ok in H as (a & w1 & H1 & H2).
  pose proof (Hm _ _ _ Hi H1) as Hs. etrans; [exact Hs|]. eapply Hf; [|exact H2]. by eapply inv_steps.
Qed.
Lemma steps_ok_reads {A} (m : M World A) : reads m → steps_ok m.
Proof. intros Hm. by apply steps_ok_of, steps_reads. Qed.

Lemma steps_expired_leases : steps recover_expired_leases.
Proof. apply steps_tx. intros _. apply steps_ok_of, steps_recover. Qed.
Lemma steps_stalled_tasks : steps recover_stalled_tasks.
Proof. apply steps_tx. intros _. apply steps_ok_stalled. Qed.
Lemma steps_sweep : steps Store.reconcile.
Proof.
  apply steps_tx. intros _. apply steps_ok_bind; [apply steps_ok_of, steps_recover|intros e].
  apply steps_ok_bind; [apply steps_ok_stalled|intros c]. apply steps_ok_reads, reads_ret.
Qed.

Lemma steps_claim wid role cid ttl only fencing : steps (claim_task wid role cid ttl only fencing).
Proof.
  unfold claim_task. cbv zeta. destruct (role_of_text _) as [r|]; [|apply steps_reads, reads_raise].
  apply steps_guard. intros _. apply steps_guard. intros _. apply steps_tx. intros _. unfold claim_body.
  apply steps_ok_bind; [apply steps_ok_reads, reads_now|intros d].
  apply steps_ok_bind; [apply steps_ok_reads, reads_now_stamp|intros stamp].
  apply steps_ok_bind; [|intros _].
  { case_bool_decide; [|apply steps_ok_reads, reads_ret].
    apply steps_ok_bind; [apply steps_ok_of, steps_recover|intros _].
    apply steps_ok_bind; [apply steps_ok_stalled|intros _]. apply steps_ok_reads, reads_ret. }
  apply steps_ok_bind; [apply steps_ok_reads, reads_ready|intros _].
  intros w a w' Hi H. rewrite bind_query in H.
  destruct (select_for _ _ _ _ _) as [row|] eqn:Es; [|sinv H; apply rtc_refl].
  apply bind_ok in H as ([data lease] & w1 & H & H'). sinv H'.
  apply select_for_ok in Es as (Hin & Hst & Hv).
  apply assign_ok in H as (expiry & _ & Hg & _); [|done..]. apply rtc_once. apply Hg.
Qed.
End ClaimRefine.

(** ** Every operation *)

(** A call of an operation that changes the store, with its arguments. *)
Inductive Op : Type :=
  | op_cutover (cid : string) (drained exclusive : bool)
  | op_register (worker_id host role cid profile : string) (capacity : Z)
      (controller rules_sha : option string) (gateway validated : bool) (root : option string)
  | op_heartbeat (worker_id cid : string) (profile : option string) (cpu memory : option Q)
      (gateway validated : option bool)
  | op_configure (repository : string) (enabled : bool) (max_in_flight : Z)
  | op_affinities (worker_id : string) (repositories : list string)
  | op_enqueue (repository : string) (issue : Z) (request_id cid : string) (priority : Z)
      (base_sha : option string) (max_attempts : option Z) (target : option string) (fencing : bool)
  | op_claim (worker_id role cid : string) (ttl : option Z) (only : option string) (fencing : bool)
  | op_renew (tid worker_id token cid : string) (seconds gen : option Z) (attempt : option string)
  | op_start (tid worker_id token cid : string) (gen : option Z) (attempt : option string)
  | op_submit (tid worker_id token sha cid : string) (gen : option Z) (attempt : option string)
  | op_complete (tid worker_id token cid : string) (gen : option Z) (attempt : option string)
  | op_fail (tid worker_id token cid reason : string) (gen : option Z) (attempt : option string)
  | op_block (tid worker_id token cid reason : string) (gen : option Z) (attempt : option string)
  | op_requeue (tid cid : string)
  | op_checkpoint (tid worker_id token : string) (gen : Z) (attempt checkpoint_id : string)
      (sequence : Z) (stage next_action cid : string) (kind ref sha256 effect_id : option string)
      (effect_state : string) (result_ref : option string)
  | op_reconcile_effect (tid effect_id : string) (gen : Z) (outcome readback cid : string)
  | op_expired | op_stalled | op_reconcile.

Section Run.
Context {self : Store}.

(** The call, without its result. *)
Definition call (o : Op) : M World unit :=
  match o with
  | op_cutover c d e => enable_fenced_cutover c d e ;; mret tt
  | op_register i h r c p s v sha g st root => register_worker i h r c p s v sha g st root ;; mret tt
  | op_heartbeat i c p cpu mem g s => heartbeat_worker i c p cpu mem g s ;; mret tt
  | op_configure r e m => configure_repository r e m ;; mret tt
  | op_affinities i rs => replace_worker_affinities i rs ;; mret tt
  | op_enqueue r n q c p b m t f => enqueue_task r n q c p b m t f ;; mret tt
  | op_claim i r c s o f => claim_task i r c s o f ;; mret tt
  | op_renew t i k c s g a => renew_lease t i k c s g a ;; mret tt
  | op_start t i k c g a => start_task t i k c g a ;; mret tt
  | op_submit t i k s c g a => submit_for_validation t i k s c g a ;; mret tt
  | op_complete t i k c g a => complete_task t i k c g a ;; mret tt
  | op_fail t i k c r g a => fail_task t i k c r g a ;; mret tt
  | op_block t i k c r g a => block_task t i k c r g a ;; mret tt
  | op_requeue t c => requeue_blocked t c ;; mret tt
  | op_checkpoint t i k g a ci n st nx c ak ar sh e es rr =>
      record_checkpoint t i k g a ci n st nx c ak ar sh e es rr ;; mret tt
  | op_reconcile_effect t e g o r c => reconcile_effect t e g o r c ;; mret tt
  | op_expired => recover_expired_leases ;; mret tt
  | op_stalled => recover_stalled_tasks ;; mret tt
  | op_reconcile => Store.reconcile ;; mret tt
  end.

(** The world after the call, whether it returned or raised. *)
Definition run (o : Op) (w : World) : World := (call o w).2.

Definition run_all (ops : list Op) (w : World) : World := fold_left (fun w o => run o w) ops w.

Lemma run_all_cons o ops w : run_all (o :: ops) w = run_all ops (run o w).
Proof. done. Qed.

Lemma steps_snd {A} (m : M World A) w : steps m → Inv (db w) → rtc Step (db w) (db (m w).2).
Proof. intros Hm Hi. destruct (m w) as [r w'] eqn:E. by eapply Hm. Qed.

Context {Hid : Uuids}.

Lemma run_steps o w : Inv (db w) → rtc Step (db w) (db (run o w)).
Proof.
  intros Hi. apply steps_snd; [|exact Hi].
  destruct o; cbn [call]; (apply steps_bind; [|intros _; apply steps_reads, reads_ret]).
  - apply steps_cutover.
  - apply steps_register.
  - apply steps_heartbeat.
  - apply steps_configure.
  - apply steps_affinities.
  - apply steps_enqueue.
  - apply steps_claim.
  - apply steps_renew.
  - apply steps_start.
  - apply steps_submit.
  - apply steps_complete.
  - apply steps_fail.
  - apply steps_block.
  - apply steps_requeue.
  - apply steps_checkpoint.
  - apply steps_reconcile.
  - apply steps_expired_leases.
  - apply steps_stalled_tasks.
  - apply steps_sweep.
Qed.

Lemma run_all_steps ops w : Inv (db w) → rtc Step (db w) (db (run_all ops w)).
Proof.
  unfold run_all. revert w. induction ops as [|o ops IH]; cbn [fold_left]; intros w Hi; [apply rtc_refl|].
  pose proof (run_steps o w Hi) as Hs. etrans; [exact Hs|]. apply IH. by eapply inv_steps.
Qed.

(** A world that calls of the operations reach from an empty database. *)
Definition reachable (w : World) : Prop := ∃ ops n m, w = run_all ops (mkWorld empty_db n m).

Lemma reachable_inv w : reachable w → Inv (db w).
Proof.
  intros (ops & n & m & ->). eapply inv_steps; [apply run_all_steps|]; apply inv_empty.
Qed.
End Run.
