(* ===== verification/Scenario.v ===== *)
(** A concrete store and histories of calls, at which the theorems of the
    other files are instantiated: one repository, a builder, a validator and
    one fenced task that is leased, started, checkpointed, handed over and
    completed, or blocked by an unresolved effect. *)
From S2P Require Import Prelude PyStr Clock Names Schema Store StoreInv StoreRefine.
From stdpp Require Import strings pretty.

Local Open Scope Z_scope.

(** The clock advances one second per reading; the identifiers are the
    numbered. *)
#[export] Instance demo_store : Store := {|
  clock := fun n => 63844934399250000 + Z.of_nat n * MICROS;
  uuid4 := fun n => String.append "id-" (pretty (N.of_nat n));
  heartbeat_ttl_seconds := 90; default_lease_seconds := 120; default_max_attempts := 3;
  progress_stall_seconds := 300; expected_rules_sha := None |}.

#[export] Instance demo_uuids : Uuids.
Proof. intros n. reflexivity. Qed.

Definition demo_empty : World := mkWorld empty_db 0 0.
Definition demo_repo : string := "acme/repo".
Definition demo_tid : string := Eval vm_compute in Names.task_id (identity "acme/repo" 12 "r1").
Definition demo_base : string := "0123456789012345678901234567890123456789".
Definition demo_sha : string := "00112233445566778899aabbccddeeff00112233".

(** The builder's lease: token [id-0], attempt [id-1], generation 1. *)
Definition demo_token : string := "id-0".
Definition demo_attempt : string := "id-1".

Definition h_setup : list Op := [
  op_register "b1" "h" "builder" "c" "NORMAL" 50 None None true true None;
  op_register "v1" "h" "validator" "c" "NORMAL" 50 None None true true None;
  op_cutover "c" true true].
Definition h_queued : list Op := h_setup ++ [
  op_enqueue "acme/repo" 12 "r1" "c" 100 (Some demo_base) None None true].
Definition h_leased : list Op := h_queued ++ [
  op_claim "b1" "builder" "c" None (Some demo_tid) true].
Definition h_running : list Op := h_leased ++ [
  op_start demo_tid "b1" demo_token "c" (Some 1) (Some demo_attempt)].
Definition h_effect : list Op := h_running ++ [
  op_checkpoint demo_tid "b1" demo_token 1 demo_attempt "cp1" 1 "publish" "open the PR" "c"
    None None None (Some "pr"%string) "unknown" None].
Definition h_blocked : list Op := h_effect ++ [
  op_block demo_tid "b1" demo_token "c" "waiting" (Some 1) (Some demo_attempt)].
Definition h_reconciled : list Op := h_blocked ++ [
  op_reconcile_effect demo_tid "pr" 1 "confirmed" "pull/7" "c"].
Definition h_submitted : list Op := h_running ++ [
  op_submit demo_tid "b1" demo_token demo_sha "c" (Some 1) (Some demo_attempt)].
Definition h_completed : list Op := h_submitted ++ [
  op_claim "v1" "validator" "c" None None true;
  op_complete demo_tid "v1" "id-2" "c" (Some 2) (Some "id-3"%string)].

(** With a single attempt allowed, the failure of the builder is final. *)
Definition h_failed : list Op := h_setup ++ [
  op_enqueue "acme/repo" 12 "r1" "c" 100 (Some demo_base) (Some 1) None true;
  op_claim "b1" "builder" "c" None (Some demo_tid) true;
  op_fail demo_tid "b1" demo_token "c" "broken" (Some 1) (Some demo_attempt)].

Definition demo (h : list Op) : World := run_all h demo_empty.

Lemma demo_app h k : demo (h ++ k) = run_all k (demo h).
Proof. unfold demo, run_all. apply fold_left_app. Qed.

#[global] Opaque demo.

Lemma demo_reachable h : reachable (demo h).
Proof. exists h, 0%nat, 0%nat. reflexivity. Qed.
Lemma demo_inv h : Inv (db (demo h)).
Proof. apply reachable_inv, demo_reachable. Qed.

(** The row of the task, and its state, in a history. *)
Definition demo_row (h : list Op) : option Task.t := find_task (db (demo h)) demo_tid.

Lemma demo_states :
  Task.state <$> demo_row h_queued = Some queued ∧
  Task.state <$> demo_row h_leased = Some leased ∧
  Task.state <$> demo_row h_running = Some running ∧
  Task.state <$> demo_row h_effect = Some running ∧
  Task.state <$> demo_row h_blocked = Some blocked ∧
  Task.state <$> demo_row h_submitted = Some validating ∧
  Task.state <$> demo_row h_completed = Some completed.
Proof. by vm_compute. Qed.
