(* ===== verification/StoreProps.v ===== *)
(** The guarantees of the store over every history of calls: rollback,
    fencing, the lease discipline, validation by an independent worker,
    terminal states, effects and checkpoints. *)
From S2P Require Import Prelude PyStr Clock Names Schema Store Claim LeaseOps Effects Lifecycle StoreInv.
From S2P Require Import StoreRefine Scenario.
From stdpp Require Import strings relations.

Local Open Scope Z_scope.

(** ** Definitions *)

(** The lease that a call presents: task, worker, token, generation, attempt. *)
Definition lease_call (o : Op) : option (string * string * string * option Z * option string) :=
  match o with
  | op_renew t i k _ _ g a => Some (t, i, k, g, a)
  | op_start t i k _ g a => Some (t, i, k, g, a)
  | op_submit t i k _ _ g a => Some (t, i, k, g, a)
  | op_complete t i k _ g a => Some (t, i, k, g, a)
  | op_fail t i k _ _ g a => Some (t, i, k, g, a)
  | op_block t i k _ _ g a => Some (t, i, k, g, a)
  | op_checkpoint t i k g a _ _ _ _ _ _ _ _ _ _ _ => Some (t, i, k, Some g, Some a)
  | _ => None
  end.

(** The lease is the one the row has. *)
Definition current_lease (t : Task.t) (wid tok : string) (g : option Z) (a : option string) : Prop :=
  Task.leased_by t = Some wid ∧ Task.lease_token t = Some tok ∧
  g = Some (Task.lease_generation t) ∧ a = Task.attempt_id t.

(** A registration whose identifier has surrounding white space. *)
Definition padded_registration (o : Op) : bool :=
  match o with
  | op_register wid _ _ _ _ _ _ _ _ _ _ => negb (bool_decide (strip wid = wid))
  | _ => false
  end.

(** ** Rollback *)

Definition rolls {A} (m : M World A) : Prop :=
  ∀ w e w', Inv (db w) → m w = (Raise e, w') → db w' = db w.

Section Rollback.
Context {self : Store} {Hid : Uuids}.

Lemma rolls_reads {A} (m : M World A) : reads m → rolls m.
Proof. intros H w e w' _ E. by apply H in E. Qed.
Lemma rolls_tx {A} (body : DB → M World A) : rolls (tx body).
Proof. intros w e w' _. unfold tx. by destruct (body (db w) w) as [[a|?] ?]; intros [= <- <-]. Qed.
Lemma rolls_bind {A B} (m : M World A) (f : A → M World B) :
  reads m → (∀ a, rolls (f a)) → rolls (x ← m; f x).
Proof.
  intros Hm Hf w e w' Hi. unfold mbind, M_bind. destruct (m w) as [[a|e'] w1] eqn:E.
  - apply Hm in E. intros Hr. rewrite <- E. eapply Hf; [|exact Hr]. by rewrite E.
  - intros [= <- <-]. by eapply Hm.
Qed.
Lemma rolls_then_at {A B} (m : M World A) (f : A → M World B) w :
  rolls m → Inv (db w) →
  (∀ a w', m w = (Ok a, w') → ∀ e w2, f a w' = (Raise e, w2) → False) →
  ∀ e w', (x ← m; f x) w = (Raise e, w') → db w' = db w.
Proof.
  intros Hm Hi Hf e w'. unfold mbind, M_bind. destruct (m w) as [[a|e'] w1] eqn:E.
  - intros Hr. by destruct (Hf _ _ eq_refl _ _ Hr).
  - intros [= <- <-]. by eapply Hm.
Qed.
Lemma rolls_then {A B} (m : M World A) (f : A → M World B) :
  rolls m → (∀ w a w', m w = (Ok a, w') → ∀ e w2, f a w' = (Raise e, w2) → False) →
  rolls (x ← m; f x).
Proof. intros Hm Hf w e w' Hi. apply rolls_then_at; [done..|]. apply Hf. Qed.

Lemma steps_forward d d' t :
  rtc Step d d' → Inv d → t ∈ tasks d →
  ∃ t', t' ∈ tasks d' ∧ same_identity t t' ∧ Task.lease_generation t ≤ Task.lease_generation t'.
Proof.
  intros Hs. revert t. induction Hs as [d|d d1 d' Hs Hss IH]; intros t Hi Ht.
  - exists t. split; [done|]. split; [by repeat split|lia].
  - destruct (step_forward d d1 t Hs (inv_rows d Hi) Ht) as (t1 & Ht1 & Hid1 & Hg1).
    destruct (IH t1 (inv_step _ _ Hs Hi) Ht1) as (t2 & Ht2 & Hid2 & Hg2).
    exists t2. split; [done|]. split; [|lia]. unfold same_identity in *. destruct_and!. split_and!; congruence.
Qed.

Lemma find_forward d d' tid t :
  rtc Step d d' → Inv d → find_task d tid = Some t → ∃ t', find_task d' tid = Some t' ∧
    same_identity t t' ∧ Task.lease_generation t ≤ Task.lease_generation t'.
Proof.
  intros Hs Hi Hf. destruct (find_task_in _ _ _ Hf) as [Hin <-].
  destruct (steps_forward d d' t Hs Hi Hin) as (t' & Ht' & Hid' & Hg). exists t'. split; [|done].
  rewrite <- (proj1 Hid'). apply find_task_row; [|done]. apply (rows_ids d'), inv_rows. by eapply inv_steps.
Qed.

(** A transaction on an existing task, then the read of the task. *)
Lemma rolls_get_at {A} (body : DB → M World A) tid w :
  Inv (db w) →
  (∀ r w', (tx body ;; get_task tid) w = (r, w') → rtc Step (db w) (db w')) →
  (∀ a w', body (db w) w = (Ok a, w') → is_Some (find_task (db w) tid)) →
  ∀ e w', (tx body ;; get_task tid) w = (Raise e, w') → db w' = db w.
Proof.
  intros Hi Hs Hf e w' H. pose proof (Hs _ _ H) as Hst. unfold mbind, M_bind in H.
  destruct (tx body w) as [[a|e'] w1] eqn:E.
  - exfalso. destruct (Hf _ _ (tx_ok _ _ _ _ E)) as [t Ht].
    assert (db w' = db w1) as E1 by (by eapply reads_get_task).
    destruct (find_forward _ _ _ _ Hst Hi Ht) as (t' & Ht' & _).
    unfold get_task in H. rewrite bind_query, <- E1, Ht' in H. done.
  - injection H as <- <-. by eapply rolls_tx.
Qed.

Lemma rolls_get {A} (body : DB → M World A) tid :
  steps (tx body ;; get_task tid) →
  (∀ c w a w', body c w = (Ok a, w') → is_Some (find_task (db w) tid)) →
  rolls (tx body ;; get_task tid).
Proof.
  intros Hs Hf w e w' Hi. apply rolls_get_at; [done| |]; intros ? ? H; [by eapply Hs|by eapply Hf].
Qed.

Lemma check_lease_found tid wid tok al g a w row w' :
  check_lease tid wid tok al g a w = (Ok row, w') → is_Some (find_task (db w) tid).
Proof. intros H. apply check_lease_ok in H as [HL _]. rewrite (lo_row _ _ _ _ _ _ _ _ _ HL). eauto. Qed.

Lemma rolls_guard {A} c e (m : M World A) : (c = false → rolls m) → rolls (raise_if c e ;; m).
Proof.
  intros Hm w e' w' Hi. destruct c; [by intros [= <- <-]|]. by apply Hm.
Qed.

Ltac lease_rolls :=
  apply rolls_get; [|intros ? ? ? ? H; apply bind_ok in H as (? & ? & H & _); by eapply check_lease_found].

Lemma rolls_renew tid wid tok cid s g a : rolls (renew_lease tid wid tok cid s g a).
Proof. lease_rolls. apply steps_renew. Qed.
Lemma rolls_start tid wid tok cid g a : rolls (start_task tid wid tok cid g a).
Proof. lease_rolls. apply steps_start. Qed.
Lemma rolls_complete tid wid tok cid g a : rolls (complete_task tid wid tok cid g a).
Proof. lease_rolls. apply steps_complete. Qed.

Lemma steps_unguard {A} c e (m : M World A) : steps (raise_if c e ;; m) → c = false → steps m.
Proof. intros Hs -> w r w' Hi H. by eapply Hs. Qed.
Lemma rolls_submit tid wid tok sha cid g a : rolls (submit_for_validation tid wid tok sha cid g a).
Proof.
  unfold submit_for_validation. cbv zeta. apply rolls_guard. intros Hc. lease_rolls.
  eapply steps_unguard; [|exact Hc]. apply steps_submit.
Qed.
Lemma rolls_block tid wid tok cid reason g a : rolls (block_task tid wid tok cid reason g a).
Proof.
  unfold block_task. cbv zeta. apply rolls_guard. intros Hc. lease_rolls.
  eapply steps_unguard; [|exact Hc]. apply steps_block.
Qed.
Lemma rolls_requeue tid cid : rolls (requeue_blocked tid cid).
Proof.
  apply rolls_get; [apply steps_requeue|]. intros c w a w' H. sinv H. eauto.
Qed.
Lemma rolls_checkpoint tid wid tok gen att cpid seq stage next cid kind ref sha eff st res :
  rolls (record_checkpoint tid wid tok gen att cpid seq stage next cid kind ref sha eff st res).
Proof. apply rolls_bind; [apply reads_lift|intros args]. apply rolls_tx. Qed.
Lemma rolls_reconcile tid eff gen out ref cid : rolls (reconcile_effect tid eff gen out ref cid).
Proof. unfold reconcile_effect. cbv zeta. do 4 (apply rolls_guard; intros _). apply rolls_tx. Qed.
Lemma rolls_enqueue r n q c p b m t f : rolls (enqueue_task r n q c p b m t f).
Proof.
  unfold enqueue_task. cbv zeta. do 2 (apply rolls_guard; intros _).
  do 2 (apply rolls_bind; [auto with reads|intros ?]). apply rolls_guard. intros _. apply rolls_tx.
Qed.
Lemma rolls_claim wid role cid ttl only fencing : rolls (claim_task wid role cid ttl only fencing).
Proof.
  unfold claim_task. cbv zeta. destruct (role_of_text _); [|apply rolls_reads, reads_raise].
  do 2 (apply rolls_guard; intros _). apply rolls_tx.
Qed.
Lemma rolls_cutover cid a b : rolls (enable_fenced_cutover cid a b).
Proof.
  unfold enable_fenced_cutover. cbv zeta. do 2 (apply rolls_guard; intros _).
  apply rolls_bind; [auto with reads|intros stamp]. apply rolls_then; [apply rolls_tx|]. done.
Qed.
Lemma rolls_affinities wid repos : rolls (replace_worker_affinities wid repos).
Proof.
  unfold replace_worker_affinities. cbv zeta. do 2 (apply rolls_bind; [auto with reads|intros ?]).
  apply rolls_then; [apply rolls_tx|]. done.
Qed.
Lemma rolls_fail tid wid tok cid reason g a : rolls (fail_task tid wid tok cid reason g a).
Proof.
  pose proof (steps_fail tid wid tok cid reason g a) as Hs. unfold fail_task in *. cbv zeta in *.
  intros w e w' Hi H. rewrite bind_now_stamp in H.
  set (w1 := w <| ticks := S (ticks w) |>) in H. change (db w) with (db w1).
  refine (rolls_get_at _ tid w1 Hi _ _ e w' H).
  - intros r w2 H2. apply (Hs w r w2 Hi). rewrite bind_now_stamp. exact H2.
  - intros u w2 H2. apply bind_ok in H2 as (row & w3 & H2 & _). by eapply check_lease_found.
Qed.

Lemma get_worker_run wid w :
  get_worker wid w = (match find_worker (db w) wid with Some x => Ok x | None => Raise not_found end, w).
Proof. done. Qed.

Lemma find_worker_update wid f d :
  (∀ x, Worker.worker_id (f x) = Worker.worker_id x) → is_Some (find_worker d wid) →
  is_Some (find_worker (d <| workers := update_where (worker_is wid) f (workers d) |>) wid).
Proof.
  unfold find_worker. cbn. intros Hf [x Hx]. apply first_match in Hx as [Hin Hx].
  apply (first_exists _ _ (f x)).
  - apply elem_of_update. exists x. split; [done|]. by rewrite Hx.
  - unfold worker_is in *. by rewrite Hf.
Qed.

Lemma rolls_heartbeat wid cid p c m g v : rolls (heartbeat_worker wid cid p c m g v).
Proof.
  unfold heartbeat_worker. intros w e w' Hi H. unfold mbind at 1, M_bind at 1 in H.
  rewrite get_worker_run in H. destruct (find_worker (db w) wid) as [x|] eqn:Ex; [|by injection H as <- <-].
  destruct (profile_of_text _) as [pr|]; [|by injection H as <- <-].
  revert e w' H. apply rolls_then_at; [apply rolls_tx|done|].
  intros u w1 Ht e w2 H. rewrite get_worker_run in H. apply tx_ok in Ht. sinv Ht. wsimpl.
  match type of H with context [find_worker ?d wid] => assert (is_Some (find_worker d wid)) as [y Hy] end.
  { apply find_worker_update; [done|eauto]. }
  by rewrite Hy in H.
Qed.

Lemma find_worker_upsert x d d' : upsert_worker x d = Ok d' → is_Some (find_worker d' (Worker.worker_id x)).
Proof.
  unfold upsert_worker. intros [= <-]. destruct (existsb _ _) eqn:Ee.
  - apply find_worker_update; [done|]. apply existsb_elem in Ee as (y & Hin & Hy).
    by apply (first_exists _ _ y).
  - apply (first_exists _ _ x).
    + cbn. apply elem_of_app. right. by apply list_elem_of_singleton.
    + unfold worker_is. by rewrite bool_decide_eq_true_2.
Qed.

Lemma rolls_register wid h r cid p s cv rs g v wr :
  strip wid = wid → rolls (register_worker wid h r cid p s cv rs g v wr).
Proof.
  intros Estrip. unfold register_worker. rewrite Estrip. apply rolls_guard. intros _.
  destruct (role_of_text _) as [role|]; [|apply rolls_reads, reads_raise].
  destruct (profile_of_text _) as [pr|]; [|apply rolls_reads, reads_raise]. cbv zeta.
  apply rolls_guard. intros _. apply rolls_bind; [auto with reads|intros stamp].
  apply rolls_then; [apply rolls_tx|]. intros w u w1 Ht e w2 H. rewrite get_worker_run in H.
  apply tx_ok, bind_ok in Ht as (score & w3 & Hl & Ht). apply exec_ok in Ht as (d & Hd & ->).
  apply find_worker_upsert in Hd as [y Hy]. wsimpl. cbn [Worker.worker_id] in Hy. by rewrite Hy in H.
Qed.

Lemma validate_repository_idem r n : validate_repository r = Ok n → validate_repository n = Ok n.
Proof.
  unfold validate_repository. destruct (negb (contains "/" (strip r)) || _ || _) eqn:E; [done|].
  intros [= <-]. by rewrite strip_idem, E.
Qed.

Lemma rolls_lift {A B} (r : res A) (f : A → M World B) :
  (∀ a, r = Ok a → rolls (f a)) → rolls (x ← lift r; f x).
Proof.
  intros Hf. destruct r as [a|e]; [|by intros w ? ? _ [= <- <-]].
  intros w e w' Hi H. eapply (Hf a eq_refl); [done|exact H].
Qed.

Lemma find_lane_configured repo en m stamp d :
  is_Some (find_lane (if existsb (lane_is repo) (repository_lanes d)
    then d <| repository_lanes := update_where (lane_is repo) (fun l =>
           l <| Lane.enabled := en |> <| Lane.max_in_flight := m |>
             <| Lane.updated_at := stamp |>) (repository_lanes d) |>
    else d <| repository_lanes :=
           repository_lanes d ++ [Lane.mk repo en m 0 0 None None stamp] |>) repo).
Proof.
  destruct (existsb _ _) eqn:Ee; unfold find_lane; cbn.
  - apply existsb_elem in Ee as (y & Hin & Hy).
    eapply (first_exists _ _ (_ : Lane.t)).
    + apply elem_of_update. exists y. split; [done|]. by rewrite Hy.
    + unfold lane_is in *. exact Hy.
  - apply (first_exists _ _ (Lane.mk repo en m 0 0 None None stamp)).
    + apply elem_of_app. right. by apply list_elem_of_singleton.
    + unfold lane_is. by rewrite bool_decide_eq_true_2.
Qed.

Lemma rolls_configure r en m : rolls (configure_repository r en m).
Proof.
  unfold configure_repository. apply rolls_lift. intros repo Hr.
  apply rolls_guard. intros _. apply rolls_bind; [auto with reads|intros stamp].
  apply rolls_then; [apply rolls_tx|]. intros w u w1 Ht e w2 H. apply tx_ok in Ht. sinv Ht.
  unfold get_repository in H. rewrite (validate_repository_idem _ _ Hr) in H.
  destruct (find_lane_configured repo en m stamp (db w)) as [y Hy].
  unfold lift, mbind, M_bind, query in H. wsimpl. by rewrite Hy in H.
Qed.

(** Every call that raises rolls back, a registration under a padded
    identifier apart. *)
Lemma rolls_unit {A} (m : M World A) : rolls m → rolls (m ;; mret tt).
Proof. intros H. by apply rolls_then. Qed.

Lemma call_rolls o : padded_registration o = false → rolls (call o).
Proof.
  destruct o; cbn [call padded_registration]; intros Hp; apply rolls_unit.
  - apply rolls_cutover.
  - apply rolls_register. by apply negb_false_iff, bool_decide_eq_true in Hp.
  - apply rolls_heartbeat.
  - apply rolls_configure.
  - apply rolls_affinities.
  - apply rolls_enqueue.
  - apply rolls_claim.
  - apply rolls_renew.
  - apply rolls_start.
  - apply rolls_submit.
  - apply rolls_complete.
  - apply rolls_fail.
  - apply rolls_block.
  - apply rolls_requeue.
  - apply rolls_checkpoint.
  - apply rolls_reconcile.
  - apply rolls_tx.
  - apply rolls_tx.
  - apply rolls_tx.
Qed.
End Rollback.

(** ** Fencing *)

Section Fencing.
Context {self : Store} {Hid : Uuids}.

Lemma get_checked {A} tid wid tok al g a (k : Task.t → M World A) (m : A → M World Task.t) w r w' :
  (x ← tx (fun _ => row ← check_lease tid wid tok al g a; k row); m x) w = (Ok r, w') →
  ∃ row, lease_ok (db w) (clock (ticks w)) tid wid tok al g a row.
Proof.
  intros H. apply bind_ok in H as (x & w1 & H & _). apply tx_ok, bind_ok in H as (row & w2 & H & _).
  apply check_lease_ok in H as [HL _]. eauto.
Qed.

(** A lease call that returns presented a lease that the row accepts. *)
Lemma lease_call_ok o tid wid tok g a w u w' :
  lease_call o = Some (tid, wid, tok, g, a) → call o w = (Ok u, w') →
  ∃ n allowed row, (ticks w ≤ n)%nat ∧ lease_ok (db w) (clock n) tid wid tok allowed g a row.
Proof.
  intros E H. destruct o; try done; injection E as <- <- <- <- <-; cbn [call] in H;
    apply bind_ok in H as (x & w1 & H & _).
  - apply get_checked in H as (row & HL). eauto.
  - unfold start_task in H. apply bind_ok in H as (y & w2 & H & _). apply tx_ok, bind_ok in H as (row & w3 & H & _).
    apply check_lease_ok in H as [HL _]. eauto.
  - unfold submit_for_validation in H. cbv zeta in H. apply bind_ok in H as ([] & w2 & Hg & H).
    apply raise_if_ok in Hg as [_ <-]. apply get_checked in H as (row & HL). eauto.
  - unfold complete_task in H. apply bind_ok in H as (y & w2 & H & _). apply tx_ok, bind_ok in H as (row & w3 & H & _).
    apply check_lease_ok in H as [HL _]. eauto.
  - unfold fail_task in H. cbv zeta in H. rewrite bind_now_stamp in H. apply get_checked in H as (row & HL).
    exists (S (ticks w)), ACTIVE, row. split; [lia|exact HL].
  - unfold block_task in H. cbv zeta in H. apply bind_ok in H as ([] & w2 & Hg & H).
    apply raise_if_ok in Hg as [_ <-]. apply get_checked in H as (row & HL). eauto.
  - unfold record_checkpoint in H. apply bind_ok in H as (args & w2 & Hl & H).
    apply lift_ok in Hl as [_ <-]. apply tx_ok in H. unfold checkpoint_body in H.
    apply bind_ok in H as (row & w3 & H & _). apply check_lease_ok in H as [HL _]. eauto.
Qed.

Lemma stale_refused o tid wid tok g a w t :
  Inv (db w) → lease_call o = Some (tid, wid, tok, g, a) → find_task (db w) tid = Some t →
  Task.fencing_required t = true → ¬ current_lease t wid tok g a →
  ∃ e w', call o w = (Raise e, w') ∧ db w' = db w.
Proof.
  intros Hi E Hf Hfen Hstale. destruct (call o w) as [[u|e] w'] eqn:Hc.
  - exfalso. destruct (lease_call_ok _ _ _ _ _ _ _ _ _ E Hc) as (n & al & row & _ & HL).
    destruct HL as [Hrow _ Hw Ht Hfence Hgen Hatt _]. rewrite Hf in Hrow. injection Hrow as <-.
    destruct (Hfence Hfen) as [[x ->] Ha]. apply Hstale. unfold current_lease.
    rewrite (Hgen x eq_refl), (Hatt Ha). done.
  - exists e, w'. split; [done|]. eapply call_rolls; [|exact Hi|exact Hc]. by destruct o.
Qed.

(** The generation of a task never decreases, over any history. *)
Lemma generation_forward ops w tid t :
  Inv (db w) → find_task (db w) tid = Some t →
  ∃ t', find_task (db (run_all ops w)) tid = Some t' ∧ same_identity t t' ∧
    Task.lease_generation t ≤ Task.lease_generation t'.
Proof. intros Hi Hf. eapply find_forward; [by apply run_all_steps|done|done]. Qed.
End Fencing.

(** ** What the steps preserve of one row *)

(** A finished row is not a source of any step. *)
Lemma step_not_finished u t t' :
  TaskStep u t t' → Task.state t ≠ completed ∧ Task.state t ≠ failed.
Proof.
  assert (∀ x, active x = true → Task.state x ≠ completed ∧ Task.state x ≠ failed) as Ha.
  { intros x Hx. unfold active in Hx. by split; intros E; rewrite E in Hx. }
  destruct 1 as [role ? ? ? ? ? ? t Hst| |? ? ? ? Hst|? ? ? ? ? Hst|? ? ? ? Hst| | | |? ? ? Hst|]; auto;
    rewrite Hst; by try destruct role.
Qed.

Lemma finished_step d d' t :
  Step d d' → Inv d → t ∈ tasks d → Task.state t = completed ∨ Task.state t = failed → t ∈ tasks d'.
Proof.
  intros Hs Hi Ht Hfin.
  assert (∀ u x x', TaskStep u x x' → replace_row x x' d d' → t ∈ tasks d') as Hrep.
  { intros u x x' Hts Hr. apply (replace_elem _ _ _ _ Hr). right. split; [done|]. intros Eq.
    rewrite (row_eq d t x (rows_ids d (inv_rows d Hi)) Ht (proj1 Hr) Eq) in Hfin.
    apply step_not_finished in Hts. tauto. }
  destruct Hs as [E|x Hf Hins| | | |x c stamp Ha Hl _ Hr|x r c ? ? ? ? ? ? ? ? ? E]; eauto.
  - by rewrite E.
  - apply insert_task_ok in Hins as (-> & _). cbn. apply elem_of_app. by left.
  - eapply Hrep; [|done]. by apply (ts_touch false).
  - by rewrite E.
Qed.

Lemma finished_steps d d' t :
  rtc Step d d' → Inv d → t ∈ tasks d → Task.state t = completed ∨ Task.state t = failed → t ∈ tasks d'.
Proof.
  induction 1 as [|d d1 d2 Hs Hss IH]; [done|]. intros Hi Ht Hfin.
  apply IH; [by eapply inv_step|by eapply finished_step|done].
Qed.

(** ** Properties *)

Section Claims.
Context {self : Store} {Hid : Uuids}.

(** C1: Every operation of the store, whether it returns or raises, is a
    sequence of steps of the transition system [Step], and it preserves the
    invariants. *)
Theorem store_refines (o : Op) (w : World) :
  Inv (db w) → rtc Step (db w) (db (run o w)) ∧ Inv (db (run o w)).
Proof.
  intros Hi. pose proof (run_steps o w Hi) as Hs. split; [done|]. by eapply inv_steps.
Qed.

(** C2: From an empty database, every history of calls keeps the invariants
    of rows, attempts, quarantine, checkpoints and effects. *)
Theorem store_invariant (w : World) : reachable w → Inv (db w).
Proof. apply reachable_inv. Qed.

(** C3: A lease that the task has outlived is refused for ever: once the
    generation of a fenced task exceeds the one a worker presents, every
    later call of that worker on the task raises and changes nothing. *)
Theorem stale_lease_refused (w : World) (t : Task.t) (g : Z) (ops : list Op) (o : Op)
  (wid tok : string) (a : option string) :
  reachable w → find_task (db w) (Task.task_id t) = Some t → Task.fencing_required t = true →
  g < Task.lease_generation t → lease_call o = Some (Task.task_id t, wid, tok, Some g, a) →
  ∃ e w', call o (run_all ops w) = (Raise e, w') ∧ db w' = db (run_all ops w).
Proof.
  intros Hr Hf Hfen Hg Hc. pose proof (reachable_inv w Hr) as Hi.
  destruct (generation_forward ops w _ t Hi Hf) as (t' & Hf' & Hsame & Hle).
  eapply stale_refused; [|exact Hc|exact Hf'| |].
  - eapply inv_steps; [by apply run_all_steps|done].
  - unfold same_identity in Hsame. destruct_and!. congruence.
  - intros (_ & _ & [= E] & _). lia.
Qed.

(** C4: A call that raises leaves the database as it was, unless it registers
    a worker under an identifier with surrounding white space. *)
Theorem failed_call_rolls_back (o : Op) (w : World) (e : exn) (w' : World) :
  reachable w → padded_registration o = false → call o w = (Raise e, w') → db w' = db w.
Proof. intros Hr Hp. apply call_rolls; [done|by apply reachable_inv]. Qed.

(** A worker holds at most one active task, in every reachable database. *)
Theorem one_task_per_worker (w : World) (t u : Task.t) (wid : string) :
  reachable w → t ∈ tasks (db w) → u ∈ tasks (db w) →
  holds wid t = true → holds wid u = true → t = u.
Proof.
  intros Hr Ht Hu Hht Hhu. apply (rows_workers _ (inv_rows _ (reachable_inv w Hr)) t u Ht Hu).
  unfold holds, same_active_worker in *. apply andb_true_iff in Hht as [Hlt%bool_decide_eq_true ->].
  apply andb_true_iff in Hhu as [Hlu%bool_decide_eq_true ->]. rewrite Hlt. by apply bool_decide_eq_true.
Qed.

(** C5: A completed task has a produced commit, and the validator that
    completed it is not the builder that produced it. *)
Theorem completion_is_independent (w : World) (t : Task.t) :
  reachable w → t ∈ tasks (db w) → Task.state t = completed →
  ∃ sha b v, Task.produced_sha t = Some sha ∧ fullmatch SHA40 sha = true ∧
    Task.builder_worker_id t = Some b ∧ Task.validator_worker_id t = Some v ∧ b ≠ v ∧
    Task.leased_by t = None.
Proof.
  intros Hr Ht Hs. pose proof (rows_wf _ (inv_rows _ (reachable_inv w Hr)) t Ht) as Hwf.
  pose proof (wf_in_state t Hwf) as H. unfold wf_state in H. rewrite Hs in H.
  destruct H as ((Hl & _) & (sha & b & Hsha & Hm & Hb) & [v Hv] & Hne).
  exists sha, b, v. split_and!; try done. congruence.
Qed.

(** A completed or failed task is final: no history of calls changes its
    row. *)
Theorem finished_is_final (w : World) (t : Task.t) (ops : list Op) :
  reachable w → t ∈ tasks (db w) → Task.state t = completed ∨ Task.state t = failed →
  t ∈ tasks (db (run_all ops w)).
Proof.
  intros Hr Ht Hs. eapply finished_steps; [|by apply reachable_inv|done|done].
  by apply run_all_steps, reachable_inv.
Qed.

(** Leases and open attempts mirror each other: a leased task has one
    open attempt, of its generation and worker; an open attempt belongs to
    the task that it leases. *)
Theorem leases_mirror_attempts (w : World) :
  reachable w →
  (∀ t, t ∈ tasks (db w) → is_Some (Task.leased_by t) →
     ∃ a, a ∈ task_attempts (db w) ∧ attempt_of t a ∧
       ∀ b, b ∈ task_attempts (db w) → Attempt.task_id b = Task.task_id t →
         Attempt.ended_at b = None → Attempt.attempt_id b = Attempt.attempt_id a) ∧
  (∀ a, a ∈ task_attempts (db w) → Attempt.ended_at a = None →
     ∃ t, t ∈ tasks (db w) ∧ attempt_of t a).
Proof.
  intros Hr. destruct (reachable_inv w Hr) as [Hrows Hatt _ _ _]. split; [|apply Hatt].
  intros t Ht Hl. destruct (wf_leased t (rows_wf _ Hrows t Ht) Hl) as [(?&?&?&x&_&_&_&Hx&_) _].
  destruct (att_leased _ Hatt t Ht ltac:(eauto)) as (a & Ha & Hat). exists a. do 2 (split; [done|]).
  intros b Hb Eb Ho. destruct (att_open _ Hatt b Hb Ho) as (u & Hu & Hub).
  destruct Hub as (Hu1 & Hu2 & _). destruct Hat as (Ha1 & _).
  assert (u = t) as -> by (apply (row_eq (db w)); [apply Hrows|done|done|congruence]). congruence.
Qed.

(** The quarantine holds exactly the failed tasks, each one once. *)
Theorem quarantine_is_the_failed (w : World) (t : Task.t) :
  reachable w → t ∈ tasks (db w) →
  (Task.state t = failed → quarantined (db w) (Task.task_id t) = 1%nat) ∧
  (Task.state t ≠ failed → quarantined (db w) (Task.task_id t) = 0%nat).
Proof.
  intros Hr Ht. pose proof (qr_rows _ (inv_quarantine _ (reachable_inv w Hr)) t Ht) as E.
  rewrite E. split; intros Hs; by case_bool_decide.
Qed.

(** The checkpoints of a generation are numbered 1, 2, ... without gap
    or repetition, and each belongs to a fenced task that reached that
    generation. *)
Theorem checkpoints_are_sequential (w : World) :
  reachable w →
  (∀ c, c ∈ task_checkpoints (db w) →
     1 ≤ Checkpoint.sequence c ∧
     (∃ t, t ∈ tasks (db w) ∧ Task.task_id t = Checkpoint.task_id c ∧
        Task.fencing_required t = true ∧ Checkpoint.lease_generation c ≤ Task.lease_generation t) ∧
     ∀ n, 1 ≤ n ≤ Checkpoint.sequence c → ∃ c', c' ∈ task_checkpoints (db w) ∧
       Checkpoint.task_id c' = Checkpoint.task_id c ∧
       Checkpoint.lease_generation c' = Checkpoint.lease_generation c ∧ Checkpoint.sequence c' = n) ∧
  (∀ c c', c ∈ task_checkpoints (db w) → c' ∈ task_checkpoints (db w) →
     Checkpoint.task_id c = Checkpoint.task_id c' →
     Checkpoint.lease_generation c = Checkpoint.lease_generation c' →
     Checkpoint.sequence c = Checkpoint.sequence c' → c = c').
Proof.
  intros Hr. pose proof (inv_checkpoints _ (reachable_inv w Hr)) as Hc. split; [|apply Hc].
  intros c Hin. split; [by apply Hc|]. split; [by apply Hc|]. intros n Hn.
  apply (cp_contiguous _ Hc). pose proof (last_sequence_le _ c Hin). lia.
Qed.

(** A task with an effect of unknown outcome is never offered: no claim,
    for any role and worker, selects a fenced row with an unresolved effect. *)
Theorem unresolved_never_claimed (w : World) (role : Role) (wid : string) (fencing : bool)
  (only : option string) (t : Task.t) :
  reachable w → select_for (db w) role wid fencing only = Some t →
  needs_reconciliation (db w) t = false.
Proof.
  intros Hr Hs. destruct (needs_reconciliation (db w) t) eqn:En; [|done]. exfalso.
  pose proof (reachable_inv w Hr) as Hi. pose proof Hs as Hsel.
  apply select_for_ok in Hs as (Hin & Hst & _).
  assert (Task.leased_by t = None) as Hl.
  { destruct role.
    - pose proof (wf_in_state t (rows_wf _ (inv_rows _ Hi) t Hin)) as H. unfold wf_state in H.
      rewrite Hst in H. apply H.
    - apply select_task_ok in Hsel as (_ & r & _ & He). unfold validator_eligible in He.
      repeat (apply andb_true_iff in He as [He ?]). by eapply bool_decide_eq_true. }
  destruct (fx_parked _ (inv_effects _ Hi) t Hin En Hl) as [Hb _].
  rewrite Hb in Hst. by destruct role.
Qed.
End Claims.

(** ** Instances *)

(** The row of the demonstration task in a history. *)
Lemma demo_row_in h t : demo_row h = Some t → t ∈ tasks (db (demo h)) ∧ Task.task_id t = demo_tid.
Proof. apply find_task_in. Qed.

Lemma demo_row_find h t : demo_row h = Some t → find_task (db (demo h)) (Task.task_id t) = Some t.
Proof. unfold demo_row. intros E. by destruct (find_task_in _ _ _ E) as [_ ->]. Qed.

Lemma store_refines_witness :
  Inv (db (demo h_leased)) ∧
  rtc Step (db (demo h_leased)) (db (run op_reconcile (demo h_leased))) ∧
  Inv (db (run op_reconcile (demo h_leased))).
Proof. split; [apply demo_inv|]. apply (store_refines op_reconcile (demo h_leased)), demo_inv. Defined.

Lemma store_invariant_witness : reachable (demo h_completed) ∧ Inv (db (demo h_completed)).
Proof. split; [apply demo_reachable|]. apply (store_invariant (demo h_completed)), demo_reachable. Defined.

(** The builder that handed its task over tries to fail it with its old lease. *)
Definition zombie : Op := op_fail demo_tid "b1" demo_token "c" "late" (Some 1) (Some demo_attempt).

Lemma stale_lease_refused_witness :
  ∃ e w', call zombie (run_all [op_reconcile] (demo h_completed)) = (Raise e, w') ∧
    db w' = db (run_all [op_reconcile] (demo h_completed)).
Proof.
  destruct (demo_row h_completed) as [t|] eqn:E; [|vm_compute in E; discriminate].
  destruct (demo_row_in _ _ E) as [Hin Eid].
  assert ((Task.fencing_required <$> demo_row h_completed) = Some true ∧
    (Task.lease_generation <$> demo_row h_completed) = Some 2) as [Ef Eg] by (split; vm_compute; reflexivity).
  rewrite E in Ef, Eg. injection Ef as Ef. injection Eg as Eg.
  apply (stale_lease_refused (demo h_completed) t 1 [op_reconcile] zombie "b1" demo_token (Some demo_attempt)).
  - apply demo_reachable.
  - apply demo_row_find. exact E.
  - exact Ef.
  - rewrite Eg. reflexivity.
  - rewrite Eid. reflexivity.
Defined.

Lemma failed_call_rolls_back_witness :
  ∃ e w', call zombie (demo h_completed) = (Raise e, w') ∧ db w' = db (demo h_completed).
Proof.
  destruct (call zombie (demo h_completed)) as [[u|e] w'] eqn:E.
  - exfalso. assert ((call zombie (demo h_completed)).1 ≠ Ok u) as H by (vm_compute; discriminate).
    rewrite E in H. apply H. reflexivity.
  - exists e, w'. split; [reflexivity|].
    apply (failed_call_rolls_back zombie (demo h_completed) e w'); [apply demo_reachable|reflexivity|exact E].
Defined.

Lemma one_task_per_worker_witness :
  ∃ t, holds "b1" t = true ∧ ∀ u, u ∈ tasks (db (demo h_leased)) → holds "b1" u = true → t = u.
Proof.
  destruct (demo_row h_leased) as [t|] eqn:E; [|vm_compute in E; discriminate].
  destruct (demo_row_in _ _ E) as [Hin _].
  assert ((holds "b1" <$> demo_row h_leased) = Some true) as Hh by (vm_compute; reflexivity).
  rewrite E in Hh. injection Hh as Hh. exists t. split; [exact Hh|]. intros u Hu Hhu.
  exact (one_task_per_worker (demo h_leased) t u "b1" (demo_reachable _) Hin Hu Hh Hhu).
Defined.

Lemma completion_is_independent_witness :
  ∃ t sha b v, demo_row h_completed = Some t ∧ Task.produced_sha t = Some sha ∧
    Task.builder_worker_id t = Some b ∧ Task.validator_worker_id t = Some v ∧ b ≠ v.
Proof.
  destruct (demo_row h_completed) as [t|] eqn:E; [|vm_compute in E; discriminate].
  destruct (demo_row_in _ _ E) as [Hin _].
  assert ((Task.state <$> demo_row h_completed) = Some completed) as Hs by (vm_compute; reflexivity).
  rewrite E in Hs. injection Hs as Hs.
  destruct (completion_is_independent (demo h_completed) t (demo_reachable _) Hin Hs)
    as (sha & b & v & H1 & _ & H2 & H3 & H4 & _).
  exists t, sha, b, v. auto.
Defined.

Lemma finished_is_final_witness :
  ∃ t, Task.state t = completed ∧
    t ∈ tasks (db (run_all [zombie; op_requeue demo_tid "c"; op_reconcile] (demo h_completed))).
Proof.
  destruct (demo_row h_completed) as [t|] eqn:E; [|vm_compute in E; discriminate].
  destruct (demo_row_in _ _ E) as [Hin _].
  assert ((Task.state <$> demo_row h_completed) = Some completed) as Hs by (vm_compute; reflexivity).
  rewrite E in Hs. injection Hs as Hs. exists t. split; [exact Hs|].
  apply (finished_is_final (demo h_completed) t); [apply demo_reachable|exact Hin|left; exact Hs].
Defined.

Lemma leases_mirror_attempts_witness :
  ∃ t a, t ∈ tasks (db (demo h_leased)) ∧ a ∈ task_attempts (db (demo h_leased)) ∧ attempt_of t a.
Proof.
  destruct (demo_row h_leased) as [t|] eqn:E; [|vm_compute in E; discriminate].
  destruct (demo_row_in _ _ E) as [Hin _].
  assert ((Task.leased_by <$> demo_row h_leased) = Some (Some "b1"%string)) as Hs by (vm_compute; reflexivity).
  rewrite E in Hs. injection Hs as Hs.
  destruct (leases_mirror_attempts (demo h_leased) (demo_reachable _)) as [H _].
  destruct (H t Hin (ex_intro _ _ Hs)) as (a & Ha & Hat & _). exists t, a. auto.
Defined.

Lemma quarantine_is_the_failed_witness :
  ∃ t, demo_row h_failed = Some t ∧ quarantined (db (demo h_failed)) (Task.task_id t) = 1%nat.
Proof.
  destruct (demo_row h_failed) as [t|] eqn:E; [|vm_compute in E; discriminate].
  destruct (demo_row_in _ _ E) as [Hin _].
  assert ((Task.state <$> demo_row h_failed) = Some failed) as Hs by (vm_compute; reflexivity).
  rewrite E in Hs. injection Hs as Hs. exists t. split; [reflexivity|].
  apply (proj1 (quarantine_is_the_failed (demo h_failed) t (demo_reachable _) Hin) Hs).
Defined.

Lemma checkpoints_are_sequential_witness :
  ∃ c, c ∈ task_checkpoints (db (demo h_effect)) ∧ 1 ≤ Checkpoint.sequence c.
Proof.
  destruct (checkpoints_are_sequential (demo h_effect) (demo_reachable _)) as [H _].
  destruct (task_checkpoints (db (demo h_effect))) as [|c l] eqn:E; [vm_compute in E; discriminate|].
  exists c. split; [constructor|]. apply H. constructor.
Defined.

Lemma unresolved_never_claimed_witness :
  ∃ t, select_for (db (demo h_queued)) builder "b1" true None = Some t ∧
    needs_reconciliation (db (demo h_queued)) t = false.
Proof.
  destruct (select_for (db (demo h_queued)) builder "b1" true None) as [t|] eqn:E;
    [|vm_compute in E; discriminate].
  exists t. split; [reflexivity|].
  exact (unresolved_never_claimed (demo h_queued) builder "b1" true None t (demo_reachable _) E).
Defined.
