(* ===== verification/StoreLive.v ===== *)
(** What the operations of the store achieve: recovery is exact, the claim
    grants the least eligible row within the capacity of its lane, a granted
    lease works, replays return the recorded row, and a reconciled effect lets
    its task go on.  Last, the order of rendered stamps, on which SQL compares
    expiries and progress: [iso] leaves out the fraction of a whole second, so
    that text order and time order differ within one second and agree beyond
    it. *)
From S2P Require Import Prelude PyStr Clock Names Schema Store Claim LeaseOps Effects Lifecycle StoreInv.
From S2P Require Import StoreRefine Scenario StoreProps.
From stdpp Require Import strings relations.

Local Open Scope Z_scope.

(** ** Definitions *)

(** Every heartbeat stamp is a text that [parse_iso] reads. *)
Definition heartbeats_parse (d : DB) : Prop :=
  ∀ x, x ∈ workers d → ∃ h, parse_iso (Worker.last_heartbeat_at x) = Ok h.

(** ** ORDER BY *)

Lemma sql_ltb_irrefl a : sql_ltb a a = false.
Proof. destruct a; cbn; [done|apply Z.ltb_irrefl|by destruct (text_leb s s)]. Qed.
Lemma sql_ltb_trans a b c : sql_ltb a b = true → sql_ltb b c = true → sql_ltb a c = true.
Proof.
  destruct a as [|m|s], b as [|n|t], c as [|k|u]; cbn; try done; try lia.
  rewrite !andb_true_iff, !negb_true_iff. intros [H1 H2] [H3 H4]. split; [by eapply text_leb_trans|].
  destruct (text_leb u s) eqn:E; [|done]. rewrite (text_leb_trans u s t E H1) in H4. done.
Qed.
Lemma sql_ltb_tri a b : sql_ltb a b = false → sql_ltb b a = false → a = b.
Proof.
  destruct a as [|m|s], b as [|n|t]; cbn; try done.
  - intros H1%Z.ltb_ge H2%Z.ltb_ge. f_equal. lia.
  - intros H1 H2. f_equal. destruct (text_leb_total s t) as [E|E]; rewrite E in *; cbn in *.
    + apply negb_false_iff in H1. by apply text_leb_antisym.
    + apply negb_false_iff in H2. by apply text_leb_antisym.
Qed.

Lemma key_leb_cons x a y b :
  key_leb (x :: a) (y :: b) = true ↔ sql_ltb x y = true ∨ (x = y ∧ key_leb a b = true).
Proof.
  cbn. rewrite orb_true_iff, andb_true_iff, negb_true_iff. split.
  - intros [H|[H1 H2]]; [by left|]. destruct (sql_ltb x y) eqn:E; [by left|].
    right. split; [by apply sql_ltb_tri|done].
  - intros [H|[-> H]]; [by left|right]. split; [apply sql_ltb_irrefl|done].
Qed.

Lemma key_leb_total a b : key_leb a b = true ∨ key_leb b a = true.
Proof.
  revert b. induction a as [|x a IH]; intros [|y b]; [by left|by left|by right|].
  rewrite !key_leb_cons. destruct (sql_ltb x y) eqn:E1; [by left; left|].
  destruct (sql_ltb y x) eqn:E2; [by right; left|].
  pose proof (sql_ltb_tri _ _ E1 E2) as ->. destruct (IH b); [left|right]; by right.
Qed.

Lemma key_leb_trans a b c : key_leb a b = true → key_leb b c = true → key_leb a c = true.
Proof.
  revert b c. induction a as [|x a IH]; intros [|y b] [|z c]; try done.
  rewrite !key_leb_cons. intros [H1|[-> H1]] [H2|[-> H2]].
  - left. by eapply sql_ltb_trans.
  - by left.
  - by left.
  - right. split; [done|]. by eapply IH.
Qed.

(** The candidates are the eligible rows of existing lanes. *)
Lemma candidates_in d eligible key r u :
  u ∈ tasks d → find_lane d (Task.repository u) = Some r → eligible r u = true →
  ∃ n, (key r n u, u) ∈ candidates d eligible key.
Proof.
  intros Hu Hl He. apply list_elem_of_lookup in Hu as [i Hi]. exists i. unfold candidates.
  apply list_elem_of_omap. exists (i, u). rewrite Hl, He. split; [|done].
  apply list_elem_of_lookup. exists i. apply lookup_zip_with_Some. exists i, u. split_and!; try done.
  apply lookup_seq. split; [done|]. by eapply lookup_lt_Some.
Qed.

Lemma select_task_least d eligible key t :
  select_task d eligible key = Some t →
  ∃ r n, t ∈ tasks d ∧ find_lane d (Task.repository t) = Some r ∧ eligible r t = true ∧
    ∀ u r', u ∈ tasks d → find_lane d (Task.repository u) = Some r' → eligible r' u = true →
      ∃ n', key_leb (key r n t) (key r' n' u) = true.
Proof.
  unfold select_task. intros H. apply fmap_Some in H as ([k v] & H & ->). cbn [snd].
  pose proof (least_elem _ _ _ H) as Hin. apply candidates_elem in Hin as (Ht & r & n & Hl & He & ->).
  exists r, n. do 3 (split; [done|]). intros u r' Hu Hl' He'.
  destruct (candidates_in d eligible key r' u Hu Hl' He') as [n' Hc]. exists n'.
  refine (least_le _ _ _ _ _ H _ Hc).
  - intros a b. apply key_leb_total.
  - intros a b c. apply key_leb_trans.
Qed.

Lemma select_task_none d eligible key u r :
  select_task d eligible key = None → u ∈ tasks d → find_lane d (Task.repository u) = Some r →
  eligible r u = false.
Proof.
  unfold select_task. intros H%fmap_None Hu Hl. apply least_none in H.
  destruct (eligible r u) eqn:He; [|done].
  destruct (candidates_in d eligible key r u Hu Hl He) as [n Hc]. rewrite H in Hc.
  by apply not_elem_of_nil in Hc.
Qed.

(** The eligibility and the sort key of a role. *)
Definition eligible_for (d : DB) (role : Role) (wid : string) (fencing : bool) (only : option string)
  : Lane.t → Task.t → bool :=
  match role with
  | builder => builder_eligible d wid fencing only
  | validator => validator_eligible d wid fencing only
  end.
Definition key_for (role : Role) : Lane.t → nat → Task.t → list sqlval :=
  match role with builder => builder_key | validator => validator_key end.

Lemma select_for_task d role wid fencing only :
  select_for d role wid fencing only = select_task d (eligible_for d role wid fencing only) (key_for role).
Proof. by destruct role. Qed.

(** ** Runs *)

Section Runs.
Context {self : Store} {Hid : Uuids}.

(** The converse of [check_lease_ok]. *)
Lemma check_lease_run tid wid tok al g a w row :
  lease_ok (db w) (clock (ticks w)) tid wid tok al g a row →
  check_lease tid wid tok al g a w = (Ok row, w <| ticks := S (ticks w) |>).
Proof.
  intros [Hrow Hst Hw Ht Hf Hg Ha (e & x & He & Hne & Hp & Hx)]. unfold check_lease.
  rewrite bind_query, Hrow. cbn [of_option]. rewrite bind_ret.
  rewrite (bool_decide_eq_true_2 (Task.state row ∈ al)) by done.
  rewrite Hw, Ht, (bool_decide_eq_true_2 (Some wid = Some wid)), (bool_decide_eq_true_2 (Some tok = Some tok)) by done.
  rewrite He. cbn [truthy from_option id]. rewrite Hne, Hp.
  unfold mbind, M_bind, raise_if, lift, now. cbn [negb orb].
  assert (Task.fencing_required row && (bool_decide (g = None) || bool_decide (a = None)) = false) as ->.
  { destruct (Task.fencing_required row); [|done]. destruct (Hf eq_refl) as [[y ->] [z ->]]. done. }
  assert (match g with Some g0 => negb (Task.lease_generation row =? g0) | None => false end = false) as ->.
  { destruct g as [y|]; [|done]. rewrite (Hg y eq_refl). by rewrite Z.eqb_refl. }
  assert (bool_decide (is_Some a) && negb (bool_decide (Task.attempt_id row = a)) = false) as ->.
  { case_bool_decide as Hs; [|done]. rewrite (Ha Hs). by rewrite bool_decide_eq_true_2. }
  by assert ((x <=? clock (ticks w)) = false) as -> by (by apply Z.leb_gt).
Qed.

(** An update that keeps the lease, the repository and the workspace of an
    active row is accepted by the indexes. *)
Lemma keep_accepted d row t' :
  Inv d → row ∈ tasks d → active row = true → is_Some (Task.leased_by row) →
  Task.leased_by t' = Task.leased_by row →
  Task.repository t' = Task.repository row → Task.workspace_key t' = Task.workspace_key row →
  index_check t' (filter (fun u => negb (task_is (Task.task_id row) u)) (tasks d)) = Ok tt ∧
  fenced_claim_refused row t' = false.
Proof.
  intros Hi Hin Ha [w Hw] El Er Ek.
  assert (∀ u, u ∈ filter (fun u => negb (task_is (Task.task_id row) u)) (tasks d) → u ∈ tasks d ∧ u ≠ row) as Hne.
  { intros u Hu. apply list_elem_of_filter in Hu as [Hn Hu]. split; [done|]. intros ->.
    unfold task_is in Hn. by rewrite bool_decide_eq_true_2 in Hn. }
  split.
  - unfold index_check. destruct (existsb (same_active_worker t') _) eqn:E1.
    { apply existsb_elem in E1 as (u & Hu & Hs). destruct (Hne u Hu) as [Huin Hur]. destruct Hur. symmetry.
      apply (rows_workers d (inv_rows d Hi)); [done..|]. unfold same_active_worker in *.
      rewrite El in Hs. rewrite Ha. apply andb_true_iff in Hs as [Hs ->].
      by apply andb_true_iff in Hs as [_ ->]. }
    destruct (existsb (same_active_workspace t') _) eqn:E2; [|done].
    apply existsb_elem in E2 as (u & Hu & Hs). destruct (Hne u Hu) as [Huin Hur]. destruct Hur. symmetry.
    apply (rows_workspaces d (inv_rows d Hi)); [done..|]. unfold same_active_workspace in *.
    rewrite Er, Ek in Hs. rewrite Ha. apply andb_true_iff in Hs as [Hs ->]. apply andb_true_iff in Hs as [Hs ->].
    by apply andb_true_iff in Hs as [_ ->].
  - unfold fenced_claim_refused. rewrite Hw, (bool_decide_eq_false_2 (Some w = None)) by done.
    by rewrite andb_false_r.
Qed.

(** What [_ready] guarantees on the worker. *)
Lemma ready_ok wid role w x w' :
  ready wid role w = (Ok x, w') →
  find_worker (db w) wid = Some x ∧ Worker.role x = role ∧ Worker.profile x = NORMAL ∧
  Worker.gateway_ok x = true ∧ Worker.state_validated x = true ∧
  existsb (holds wid) (tasks (db w)) = false ∧ db w' = db w ∧ uuids w' = uuids w.
Proof.
  unfold ready, older_than. intros H. sinv H. wsimpl.
  repeat match goal with
  | H : negb (bool_decide _) = false |- _ => apply negb_false_iff, bool_decide_eq_true in H
  | H : _ || _ = false |- _ => apply orb_false_iff in H as [?%negb_false_iff ?%negb_false_iff]
  end.
  split_and!; congruence.
Qed.

(** The grant of a claim: the row selected in [d] is the least eligible one. *)
Record least_eligible (d : DB) (role : Role) (wid : string) (fencing : bool) (only : option string)
  (row : Task.t) (r : Lane.t) : Prop := {
  le_row : row ∈ tasks d;
  le_lane : find_lane d (Task.repository row) = Some r;
  le_eligible : eligible_for d role wid fencing only r row = true;
  le_least : ∃ n, ∀ u r', u ∈ tasks d → find_lane d (Task.repository u) = Some r' →
    eligible_for d role wid fencing only r' u = true → ∃ n', key_leb (key_for role r n row) (key_for role r' n' u) = true }.

(** The database in which the claim selects: after the recoveries, for a
    claim of any task; as it is, for the claim of one task. *)
Lemma claim_run wid role cid ttl only fencing w res w' :
  Inv (db w) → claim_task wid role cid ttl only fencing w = (Ok res, w') →
  ∃ rl w1, role_of_text (lower role) = Some rl ∧ rtc Step (db w) (db w1) ∧ Inv (db w1) ∧
    (is_Some only → db w1 = db w ∧ uuids w1 = uuids w) ∧
    existsb (holds wid) (tasks (db w1)) = false ∧
    (∃ x, find_worker (db w1) wid = Some x ∧ Worker.role x = rl) ∧
    match res with
    | None => select_for (db w1) rl wid fencing only = None ∧ db w' = db w1
    | Some (t, lease) => ∃ row, select_for (db w1) rl wid fencing only = Some row ∧
        assign_lease rl wid cid (or_default ttl default_lease_seconds) (clock (ticks w))
          (iso (clock (S (ticks w)))) row w1 = (Ok (t, lease), w')
    end.
Proof.
  intros Hi H. unfold claim_task in H. cbv zeta in H.
  destruct (role_of_text (lower role)) as [rl|]; [|done]. exists rl.
  apply bind_ok in H as ([] & ? & Hg & H). apply raise_if_ok in Hg as [_ <-].
  apply bind_ok in H as ([] & ? & Hg & H). apply raise_if_ok in Hg as [_ <-].
  apply tx_ok in H. unfold claim_body in H. rewrite bind_now, bind_now_stamp in H. wsimpl.
  apply bind_ok in H as ([] & w1 & Hrec & H). apply bind_ok in H as (x & w2 & Hready & H).
  apply ready_ok in Hready as (Hx & Hxr & _ & _ & _ & Hbusy & Edb & Eu). rewrite bind_query, Edb in H.
  assert (rtc Step (db w) (db w1) ∧ (is_Some only → db w1 = db w ∧ uuids w1 = uuids w)) as [Hs Honly].
  { case_bool_decide as Eo; [|by sinv Hrec]. split; [|rewrite Eo; by intros []].
    assert (steps_ok (recover ;; recover_stalled ;; mret tt)) as Hrr.
    { apply steps_ok_bind; [apply steps_ok_of, steps_recover|intros e].
      apply steps_ok_bind; [apply steps_ok_stalled|intros c]. apply steps_ok_reads, reads_ret. }
    match type of Hrec with _ ?x = _ => change (rtc Step (db x) (db w1)); apply (Hrr x tt w1) end;
      [exact Hi|exact Hrec]. }
  exists w2. rewrite Edb, Eu. split; [done|]. split; [done|]. split; [by eapply inv_steps|].
  split; [done|]. split; [done|]. split; [eauto|].
  destruct (select_for _ _ _ _ _) as [row|]; [|by sinv H].
  apply bind_ok in H as ([t l] & w3 & Ha & H). sinv H. eauto.
Qed.
End Runs.

Section ClaimFacts.
Context {self : Store} {Hid : Uuids}.

(** The lease carries the columns of the row. *)
Definition lease_of (t : Task.t) (l : Lease.t) : Prop :=
  Lease.task_id l = Task.task_id t ∧ Some (Lease.lease_token l) = Task.lease_token t ∧
  Some (Lease.worker_id l) = Task.leased_by t ∧ Some (Lease.lease_expires_at l) = Task.lease_expires_at t ∧
  Lease.lease_generation l = Task.lease_generation t ∧ Some (Lease.attempt_id l) = Task.attempt_id t.

Lemma claim_granted wid role cid ttl only fencing w t lease w' :
  Inv (db w) → claim_task wid role cid ttl only fencing w = (Ok (Some (t, lease)), w') →
  ∃ rl d row r expiry token attempt,
    role_of_text (lower role) = Some rl ∧ rtc Step (db w) d ∧ Inv d ∧ (is_Some only → d = db w) ∧
    existsb (holds wid) (tasks d) = false ∧
    (∃ x, find_worker d wid = Some x ∧ Worker.role x = rl) ∧
    least_eligible d rl wid fencing only row r ∧
    add_seconds (clock (ticks w)) (or_default ttl default_lease_seconds) = Ok expiry ∧
    granted d (db w') rl wid token attempt (iso expiry) cid (iso (clock (S (ticks w)))) row ∧
    t = claimed rl wid token attempt (iso expiry) cid (iso (clock (S (ticks w)))) row row ∧
    find_task (db w') (Task.task_id row) = Some t ∧ lease_of t lease.
Proof.
  intros Hi H. apply claim_run in H as (rl & w1 & Hrl & Hs & Hi1 & Honly & Hbusy & Hx & row & Hsel & Ha); [|done].
  pose proof (select_for_ok _ _ _ _ _ _ Hsel) as (Hin & Hst & Hv).
  apply assign_ok in Ha as (expiry & Hexp & Hg & -> & ->); [|done..].
  rewrite select_for_task in Hsel. apply select_task_least in Hsel as (r & n & _ & Hl & He & Hleast).
  exists rl, (db w1), row, r, expiry, (uuid4 (uuids w1)), (uuid4 (S (uuids w1))).
  split_and!; try done.
  - intros Ho. by apply Honly.
  - split; try done. eauto.
  - destruct Hg as [_ _ Ht _ _]. by apply (find_updated (db w1)); [apply Hi1|..].
Qed.

(** The active tasks of a repository, one row being replaced. *)
Lemma active_count_replace d d' row t' repo :
  NoDup (Task.task_id <$> tasks d) → row ∈ tasks d →
  tasks d' = update_where (task_is (Task.task_id row)) (fun _ => t') (tasks d) →
  Task.repository t' = Task.repository row → active row = false →
  active_count d' repo ≤ active_count d repo + 1.
Proof.
  unfold active_count. intros Hn Hin -> Er Ha.
  set (p := fun t => bool_decide (Task.repository t = repo) && active t).
  assert (p row = false) as Hp by (unfold p; by rewrite Ha, andb_false_r).
  clear Ha. revert Hn Hin. induction (tasks d) as [|x l IH]; intros Hn Hin; [by apply not_elem_of_nil in Hin|].
  cbn in Hn. apply NoDup_cons in Hn as [Hnot Hn]. cbn.
  destruct (task_is (Task.task_id row) x) eqn:Ex.
  - apply task_is_true in Ex.
    assert (update_where (task_is (Task.task_id row)) (fun _ => t') l = l) as El.
    { apply update_none. intros y Hy. apply not_true_iff_false. intros Hyy%task_is_true.
      apply Hnot. rewrite Ex, <- Hyy. by apply list_elem_of_fmap_2. }
    unfold update_where in El. rewrite El. destruct (p t'), (p x); cbn; lia.
  - apply elem_of_cons in Hin as [->|Hin]; [exfalso; apply not_true_iff_false in Ex; apply Ex; by apply task_is_true|].
    specialize (IH Hn Hin). unfold update_where in IH. destruct (p x); cbn; lia.
Qed.

(** The lease of a claim passes the check of the next call, as long as it has
    not expired. *)
Lemma granted_check d w' rl wid token attempt expiry cid stamp row t lease al :
  granted d (db w') rl wid token attempt (iso expiry) cid stamp row →
  t = claimed rl wid token attempt (iso expiry) cid stamp row row →
  find_task (db w') (Task.task_id row) = Some t → lease_of t lease →
  valid_instant expiry → clock (ticks w') < expiry → next_state rl ∈ al →
  lease_ok (db w') (clock (ticks w')) (Lease.task_id lease) (Lease.worker_id lease) (Lease.lease_token lease) al
    (Some (Lease.lease_generation lease)) (Some (Lease.attempt_id lease)) t.
Proof.
  intros Hg -> Hf (E1 & E2 & E3 & E4 & E5 & E6) Hv Hlt Hal. cbn in E1, E2, E3, E4, E5, E6.
  rewrite E1. simplify_eq. split; cbn; try done.
  - intros g [= <-]. congruence.
  - exists (iso expiry), expiry. split_and!; try done; [apply iso_nonempty|by apply parse_iso_iso].
Qed.
End ClaimFacts.

(** ** Claims *)

Section ClaimProps.
Context {self : Store} {Hid : Uuids}.


(** C7: A claim by a builder respects the lane: the lane is enabled, and the
    active tasks of the repository do not exceed its limit afterwards. *)
Theorem claim_respects_capacity (wid role cid : string) (ttl : option Z) (only : option string)
  (fencing : bool) (w : World) (t : Task.t) (lease : Lease.t) (w' : World) :
  reachable w → role_of_text (lower role) = Some builder →
  claim_task wid role cid ttl only fencing w = (Ok (Some (t, lease)), w') →
  ∃ r, find_lane (db w') (Task.repository t) = Some r ∧ Lane.enabled r = true ∧
    active_count (db w') (Task.repository t) ≤ Lane.max_in_flight r.
Proof.
  intros Hr Hb H. apply claim_granted in H as (rl & d & row & r & ex & tok & att & Hrl & Hs & Hid' & _ & _ & _ &
    Hle & _ & Hg & -> & Hf & _); [|by apply reachable_inv].
  rewrite Hb in Hrl. injection Hrl as <-. destruct Hle as [Hin Hl He _].
  cbn [eligible_for] in He. unfold builder_eligible in He.
  repeat (apply andb_true_iff in He as [He ?]). apply bool_decide_eq_true in He.
  exists (count_claim builder (iso (clock (S (ticks w)))) r). cbn [claimed Task.repository].
  split; [|split; [done|]].
  - unfold find_lane in *. rewrite (gr_lanes _ _ _ _ _ _ _ _ _ _ Hg), first_update by done. by rewrite Hl.
  - cbn. pose proof (active_count_replace d (db w') row _ (Task.repository row)
      (rows_ids d (inv_rows d Hid')) Hin (gr_tasks _ _ _ _ _ _ _ _ _ _ Hg) eq_refl) as Hc.
    unfold active in Hc at 1. rewrite He in Hc. specialize (Hc eq_refl). lia.
Qed.

(** A claim that grants nothing had nothing to grant: no row is eligible
    for the worker. *)
Theorem claim_none_is_complete (wid role cid : string) (ttl : option Z) (only : option string)
  (fencing : bool) (w w' : World) :
  reachable w → claim_task wid role cid ttl only fencing w = (Ok None, w') →
  ∃ rl, role_of_text (lower role) = Some rl ∧
    ∀ u r, u ∈ tasks (db w') → find_lane (db w') (Task.repository u) = Some r →
      eligible_for (db w') rl wid fencing only r u = false.
Proof.
  intros Hr H. apply claim_run in H as (rl & w1 & Hrl & _ & _ & _ & _ & _ & Hsel & E); [|by apply reachable_inv].
  exists rl. split; [done|]. rewrite E. intros u r Hu Hl. rewrite select_for_task in Hsel.
  by eapply select_task_none.
Qed.

(** C8: The lease a builder is granted works: until it expires, starting the
    task with it succeeds and leaves the task running under that builder. *)
Theorem granted_lease_starts (wid role cid : string) (ttl : option Z) (only : option string)
  (fencing : bool) (w : World) (t : Task.t) (lease : Lease.t) (w' : World) (cid' : string) :
  reachable w → role_of_text (lower role) = Some builder →
  claim_task wid role cid ttl only fencing w = (Ok (Some (t, lease)), w') →
  clock (ticks w') < clock (ticks w) + or_default ttl default_lease_seconds * MICROS →
  ∃ t' w2, start_task (Lease.task_id lease) (Lease.worker_id lease) (Lease.lease_token lease) cid'
      (Some (Lease.lease_generation lease)) (Some (Lease.attempt_id lease)) w' = (Ok t', w2) ∧
    Task.state t' = running ∧ Task.builder_worker_id t' = Some wid ∧ Task.task_id t' = Task.task_id t.
Proof.
  intros Hr Hb H Hlt. apply claim_granted in H as (rl & d & row & r & ex & tok & att & Hrl & Hs & Hid' & _ & _ &
    (x & Hx & Hxr) & Hle & Hexp & Hg & Et & Hf & Hlo); [|by apply reachable_inv].
  rewrite Hb in Hrl. injection Hrl as <-. apply add_seconds_valid in Hexp as [Hv Hexp].
  assert (Inv (db w')) as Hi' by (eapply inv_step; [apply Hg|done]).
  pose proof (granted_check d w' builder wid tok att ex cid _ row t lease [leased] Hg Et Hf Hlo Hv) as Hlease.
  assert (clock (ticks w') < ex) as Hlt' by lia. specialize (Hlease Hlt' ltac:(constructor)).
  pose proof (check_lease_run _ _ _ _ _ _ _ _ Hlease) as Hcheck.
  destruct (find_task_in _ _ _ Hf) as [Hin Eid].
  assert (Lease.task_id lease = Task.task_id t ∧ Lease.worker_id lease = wid) as [El Ew].
  { destruct Hlo as (E1 & _ & E3 & _). split; [done|]. rewrite Et in E3. by injection E3. }
  rewrite El, Ew in *. set (stamp := iso (clock (S (ticks w')))).
  set (t' := started wid cid' stamp t).
  assert (active t = true ∧ is_Some (Task.leased_by t)) as [Hact Hls] by (rewrite Et; cbn; eauto).
  destruct (keep_accepted (db w') t t' Hi' Hin Hact Hls eq_refl eq_refl eq_refl) as [Hix Hfc].
  set (w2 := w' <| ticks := S (S (ticks w')) |>
    <| db := db w' <| tasks := update_where (task_is (Task.task_id t)) (fun _ => t') (tasks (db w')) |> |>).
  assert (find_task (db w2) (Task.task_id t) = Some t') as Hf2.
  { by apply (find_updated (db w')); [apply Hi'|..]. }
  assert (get_worker_in (db w') wid = Ok x) as Hgw.
  { pose proof (gr_workers _ _ _ _ _ _ _ _ _ _ Hg) as E. unfold get_worker_in, find_worker in *.
    rewrite E. by rewrite Hx. }
  exists t', w2. split; [|by rewrite Et]. unfold start_task.
  erewrite bind_run; [unfold get_task; rewrite bind_query, Hf2; done|].
  apply tx_run. rewrite (bind_run _ _ _ _ _ Hcheck).
  rewrite Hgw. unfold lift, mbind at 1, M_bind at 1.
  rewrite Hxr. unfold raise_if, mbind at 1, M_bind at 1. rewrite bool_decide_eq_true_2 by done. cbn [negb].
  rewrite bind_now_stamp.
  refine (set_task_run (db w') (Task.task_id t) (started wid cid' stamp) _ t _ _ _ Hfc Hix);
    [apply Hi'|by rewrite Eid|reflexivity].
Qed.
End ClaimProps.

(** ** Recovery *)

Section RecoveryFacts.
Context {self : Store} {Hid : Uuids}.

Lemma expire_not_expired u stamp s t : lease_expired_at s (expire u stamp t) = false.
Proof.
  unfold expire, lease_expired_at. destruct (expiry_outcome u t) as [[st reason] error]. cbn.
  by rewrite andb_false_r.
Qed.

(** [_worker_is_alternative] returns when the stamp of the worker can be read. *)
Lemma alternative_total row x w h :
  parse_iso (Worker.last_heartbeat_at x) = Ok h →
  ∃ b w', worker_is_alternative row x w = (Ok b, w') ∧ db w' = db w.
Proof.
  intros Hp. destruct (worker_is_alternative row x w) as [[b|e] w'] eqn:E.
  - exists b, w'. split; [done|]. by eapply reads_alternative.
  - exfalso. unfold worker_is_alternative in E. cbv zeta in E.
    do 4 match type of E with (if ?c then _ else _) _ = _ => destruct c; [done|] end.
    unfold older_than in E. rewrite Hp in E. unfold mbind, M_bind, now, lift, mret, M_ret, query in E.
    by repeat case_match; simplify_eq.
Qed.

Lemma any_total row (l : list Worker.t) w :
  (∀ x, x ∈ l → ∃ h, parse_iso (Worker.last_heartbeat_at x) = Ok h) →
  ∃ b w', any_m l (worker_is_alternative row) w = (Ok b, w') ∧ db w' = db w.
Proof.
  revert w. induction l as [|x l IH]; intros w Hp; cbn; [by eauto|].
  destruct (Hp x ltac:(constructor)) as [h Hh].
  destruct (alternative_total row x w h Hh) as (b & w1 & E1 & Ed1). rewrite (bind_run _ _ _ _ _ E1).
  destruct b; [by eauto|]. destruct (IH w1) as (b & w2 & E2 & Ed2); [intros y Hy; apply Hp; by constructor|].
  exists b, w2. split; [done|congruence].
Qed.

Lemma decision_total u ws row w :
  (∀ x, x ∈ ws → ∃ h, parse_iso (Worker.last_heartbeat_at x) = Ok h) →
  ∃ k st reason error w', stall_decision u ws row w = (Ok (k, (st, reason, error)), w').
Proof.
  intros Hp. unfold stall_decision. destruct u; [by eauto 10|]. destruct (_ <=? _); [by eauto 10|].
  destruct (any_total row ws w Hp) as (b & w1 & E & _). rewrite (bind_run _ _ _ _ _ E).
  destruct b; by eauto 10.
Qed.

Lemma stalled_loop_total stamp ws rows : ∀ d w acc,
  (∀ x, x ∈ ws → ∃ h, parse_iso (Worker.last_heartbeat_at x) = Ok h) →
  Inv d → db w = d → NoDup (Task.task_id <$> rows) → (∀ r, r ∈ rows → r ∈ tasks d ∧ active r = true) →
  ∃ c w', stalled_loop stamp ws rows acc w = (Ok c, w').
Proof.
  induction rows as [|r rest IH]; intros d w acc Hp Hi Ed Hn Hrows; cbn [stalled_loop]; [by eauto|].
  destruct (Hrows r) as [Hin Ha]; [constructor|].
  destruct (decision_total (needs_reconciliation d r) ws r w Hp) as (k & st & reason & error & w1 & Hd).
  destruct (stalled_row_run d w stamp ws r k st reason error w1 Hi Ed Hin Ha Hd) as (w2 & ql & Hrun & _ & _ & Hrel).
  rewrite (bind_run _ _ _ _ _ Hrun). cbn in Hn. apply NoDup_cons in Hn as [Hnot Hn].
  apply (IH (db w2)); try done.
  - eapply inv_step; [apply (rel_step _ _ _ _ _ _ _ Hrel)|done].
  - intros x Hx. destruct (Hrows x) as [Hxin Hxa]; [by constructor|]. split; [|done].
    eapply released_others; [done..|]. intros Eq. apply Hnot. rewrite <- Eq. by apply list_elem_of_fmap_2.
Qed.

Lemma recover_stalled_total w cutoff :
  Inv (db w) → heartbeats_parse (db w) →
  add_seconds (clock (ticks w)) (- progress_stall_seconds) = Ok cutoff →
  ∃ c w', recover_stalled w = (Ok c, w').
Proof.
  intros Hi Hp Hc. unfold recover_stalled. rewrite bind_now, Hc.
  unfold lift, mbind at 1, M_bind at 1. rewrite !bind_query.
  apply (stalled_loop_total _ _ _ (db w)); try done.
  - by apply NoDup_fmap_filter, Hi.
  - intros r Hr%elem_of_where. destruct Hr as [Hin He]. split; [done|].
    unfold stalled_at in He. by apply andb_true_iff in He as [-> _].
Qed.
End RecoveryFacts.

Section RecoveryProps.
Context {self : Store} {Hid : Uuids}.

(** C9: The recovery of expired leases always returns. It counts the active
    rows whose lease expired and gives each of them the outcome of
    [expiry_outcome]; every other row is untouched, and no expired lease is
    left. *)
Theorem expired_recovery_exact (w : World) :
  reachable w →
  let stamp := iso (clock (ticks w)) in
  ∃ w', recover_expired_leases w =
      (Ok (Z.of_nat (length (List.filter (lease_expired_at stamp) (tasks (db w))))), w') ∧
    tasks (db w') = update_where (lease_expired_at stamp)
      (fun t => expire (needs_reconciliation (db w) t) stamp t) (tasks (db w)) ∧
    ∀ t, t ∈ tasks (db w') → lease_expired_at stamp t = false.
Proof.
  intros Hr stamp. destruct (recover_run (db w) w (reachable_inv w Hr) eq_refl)
    as (w' & Hrun & _ & _ & _ & _ & E). exists w'. split; [by apply tx_run|]. split; [exact E|].
  intros t Ht. rewrite E in Ht. apply elem_of_update in Ht as (u & _ & ->).
  destruct (lease_expired_at _ u) eqn:Eu; [apply expire_not_expired|exact Eu].
Qed.

(** The stall watchdog returns whenever the heartbeat stamps can be read
    and the cutoff is a date; every active row without material progress since
    the cutoff is rerouted, blocked or failed as [stall_result] says, and
    counted once; every other row is untouched. *)
Theorem stall_recovery_exact (w : World) (cutoff : datetime) :
  reachable w → heartbeats_parse (db w) →
  add_seconds (clock (ticks w)) (- progress_stall_seconds) = Ok cutoff →
  ∃ c w', recover_stalled_tasks w = (Ok c, w') ∧
    Forall2 (stall_rel (db w) (iso (clock (ticks w))) (stalled_at (iso cutoff))) (tasks (db w)) (tasks (db w')) ∧
    stall_total c = Z.of_nat (length (List.filter (stalled_at (iso cutoff)) (tasks (db w)))).
Proof.
  intros Hr Hp Hc. pose proof (reachable_inv w Hr) as Hi.
  destruct (recover_stalled_total w cutoff Hi Hp Hc) as (c & w' & Hrun).
  exists c, w'. split; [by apply tx_run|].
  destruct (recover_stalled_ok (db w) w c w' Hi eq_refl Hrun) as (cut & Hcut & _ & _ & HF & Et).
  rewrite Hc in Hcut. by injection Hcut as <-.
Qed.
End RecoveryProps.

(** ** Replays *)

Section ReplayFacts.
Context {self : Store} {Hid : Uuids}.

Lemma checkpoint_kept d d' c : rtc Step d d' → c ∈ task_checkpoints d → c ∈ task_checkpoints d'.
Proof.
  induction 1 as [|d d1 d2 Hs Hss IH]; [done|]. intros Hc. apply IH. clear IH Hss.
  destruct Hs as [? ? ? E|t ? Hi|role w tok att ex cid stamp t t' ? ? ? ? ? ? E
    |t t' stamp reason q ? ? ? ? ? ? ? E|t t' ? ? ? ? ? ? ? ? E
    |t x stamp ? ? ? ? ? ? ? ? ? ? E|t r x ? ? ? ? ? ? ? ? ? ? ? ? E]; rewrite ?E; try done.
  - apply insert_task_ok in Hi as (-> & _). done.
  - apply elem_of_app. by left.
Qed.

Lemma checkpoint_is_true tid cpid c :
  checkpoint_is tid cpid c = true ↔ Checkpoint.task_id c = tid ∧ Checkpoint.checkpoint_id c = cpid.
Proof. unfold checkpoint_is. by rewrite andb_true_iff, !bool_decide_eq_true. Qed.

Lemma update_task_checkpoints tid g f d n d' :
  update_task tid g f d = Ok (n, d') → task_checkpoints d' = task_checkpoints d.
Proof.
  unfold update_task. destruct (first _ _) as [y|]; [|by intros [= _ <-]].
  destruct (fenced_claim_refused _ _); [done|]. destruct (index_check _ _); [|done]. by intros [= _ <-].
Qed.

(** The checkpoint that a call returns is recorded, with the digest of its
    arguments. *)
Lemma checkpoint_returned tid wid tok gen att a w c b w' :
  checkpoint_body tid wid tok gen att a w = (Ok (c, b), w') →
  c ∈ task_checkpoints (db w') ∧ Checkpoint.task_id c = tid ∧
  Checkpoint.checkpoint_id c = CheckpointArgs.checkpoint_id a ∧
  Checkpoint.content_digest c = checkpoint_digest a.
Proof.
  unfold checkpoint_body. intros H. apply bind_ok in H as (row & w1 & _ & H).
  apply bind_ok in H as ([] & w2 & Hg & H). apply raise_if_ok in Hg as [_ <-]. rewrite bind_query in H.
  destruct (first _ _) as [x|] eqn:Ef.
  - apply bind_ok in H as ([] & w2 & Hg & H). apply raise_if_ok in Hg as [Hd <-].
    apply negb_false_iff, bool_decide_eq_true in Hd. apply ret_ok in H as [[= <- <-] <-].
    apply first_match in Ef as [Hin Hk%checkpoint_is_true]. tauto.
  - rewrite bind_query in H. apply bind_ok in H as ([] & w2 & Hg & H). apply raise_if_ok in Hg as [_ <-].
    rewrite bind_query in H. apply bind_ok in H as ([] & w2 & Hg & H). apply raise_if_ok in Hg as [_ <-].
    rewrite bind_now_stamp in H. apply bind_ok in H as ([] & w2 & Hins & H).
    apply exec_ok in Hins as (d1 & Hins & ->). apply insert_checkpoint_ok in Hins as [-> Hnew].
    apply bind_ok in H as ([] & w3 & Hset & H). rewrite bind_query in H.
    apply bind_ok in H as (x & w4 & Ho & H). apply of_option_ok in Ho as [Ho <-].
    apply ret_ok in H as [[= <- <-] <-].
    assert (task_checkpoints (db w3) = task_checkpoints (db w1) ++
      [checkpoint_row tid gen att (iso (clock (ticks w1))) a]) as E3.
    { unfold set_task in Hset. apply bind_ok in Hset as (n & w5 & Hu & [= <-]).
      apply exec_count_ok in Hu as (d5 & Hu & ->). apply update_task_checkpoints in Hu. exact Hu. }
    apply first_match in Ho as [Hin Hk]. split; [done|]. apply checkpoint_is_true in Hk as [Hk1 Hk2].
    split; [done|]. split; [done|].
    rewrite E3 in Hin. apply elem_of_app in Hin as [Hin|Hin].
    + exfalso. pose proof (first_none _ _ _ Ef Hin) as Hno.
      rewrite (proj2 (checkpoint_is_true tid (CheckpointArgs.checkpoint_id a) x)) in Hno; done.
    + by apply list_elem_of_singleton in Hin as ->.
Qed.
End ReplayFacts.

(** ** Resolution of effects *)

Lemma newer_total a b : newer a b = true ∨ newer b a = true.
Proof.
  unfold newer. destruct (Z.lt_trichotomy (Checkpoint.lease_generation a) (Checkpoint.lease_generation b))
    as [H|[H|H]].
  - right. apply orb_true_iff. left. by apply Z.ltb_lt.
  - rewrite H, Z.eqb_refl, Z.ltb_irrefl. cbn. rewrite !Z.leb_le. lia.
  - left. apply orb_true_iff. left. by apply Z.ltb_lt.
Qed.
Lemma newer_spec a b :
  newer a b = true ↔ Checkpoint.lease_generation b < Checkpoint.lease_generation a ∨
    (Checkpoint.lease_generation a = Checkpoint.lease_generation b ∧ Checkpoint.sequence b ≤ Checkpoint.sequence a).
Proof. unfold newer. rewrite orb_true_iff, andb_true_iff, Z.ltb_lt, Z.eqb_eq, Z.leb_le. done. Qed.
Lemma newer_trans a b c : newer a b = true → newer b c = true → newer a c = true.
Proof. rewrite !newer_spec. lia. Qed.

(** Reconciling the generation of the last checkpoint of an effect resolves
    every checkpoint of the effect. *)
Lemma effect_resolved d tid eff last c :
  EffectsInv d → latest_for_effect d tid eff = Some last →
  existsb (reconciliation_is tid eff (Checkpoint.lease_generation last)) (effect_reconciliations d) = true →
  c ∈ task_checkpoints d → Checkpoint.task_id c = tid → Checkpoint.effect_id c = Some eff →
  unresolved d c = false.
Proof.
  intros He Hlast Hrec Hc Et Ee. unfold latest_for_effect in Hlast.
  pose proof (least_elem _ _ _ Hlast) as Hin. apply elem_of_where in Hin as [Hin Hk].
  apply andb_true_iff in Hk as [Hk1%bool_decide_eq_true Hk2%bool_decide_eq_true].
  assert (newer last c = true) as Hnew.
  { apply (least_le _ _ _ newer_total newer_trans Hlast). apply elem_of_where. split; [done|].
    by rewrite !bool_decide_eq_true_2. }
  apply not_true_iff_false. intros Hu. unfold unresolved in Hu.
  destruct (reconciled d c) eqn:Er; [by rewrite ?andb_false_r, ?andb_false_l, ?andb_false_r in Hu|].
  assert (later_checkpoint c last = true) as Hlater.
  { unfold later_checkpoint. rewrite !bool_decide_eq_true_2 by congruence. cbn.
    apply newer_spec in Hnew as [Hlt|[Eg Hs]]; [apply orb_true_iff; left; by apply Z.ltb_lt|].
    exfalso. unfold reconciled in Er. rewrite Ee, Et, <- Eg, Hrec in Er. done. }
  apply andb_true_iff in Hu as [Hs%bool_decide_eq_true Hu].
  apply orb_true_iff in Hu as [Hu|Hu]; apply andb_true_iff in Hu as [Hu1 Hu2].
  - apply bool_decide_eq_true in Hu1. pose proof (fx_last d He c last Hc Hin Hs Hu1 Er). congruence.
  - apply negb_true_iff in Hu2. by rewrite (proj1 (existsb_false _ _) Hu2 last Hin) in Hlater.
Qed.

Section ReplayProps.
Context {self : Store} {Hid : Uuids}.

(** A checkpoint is recorded once. After any history, repeating the call
    under the lease that is then valid changes nothing: with the recorded
    content it returns the recorded row, with another content it raises. *)
Theorem checkpoint_replay (tid wid tok : string) (gen : Z) (att cpid : string) (seq : Z)
  (stage next cid : string) (kind ref sha eff : option string) (st : string) (res : option string)
  (w : World) (c : Checkpoint.t) (b : bool) (w1 : World) (ops : list Op)
  (wid' tok' : string) (gen' : Z) (att' : string) (seq' : Z) (stage' next' cid' : string)
  (kind' ref' sha' eff' : option string) (st' : string) (res' : option string)
  (row : Task.t) (args : CheckpointArgs.t) :
  reachable w →
  record_checkpoint tid wid tok gen att cpid seq stage next cid kind ref sha eff st res w = (Ok (c, b), w1) →
  let w2 := run_all ops w1 in
  lease_ok (db w2) (clock (ticks w2)) tid wid' tok' ACTIVE (Some gen') (Some att') row →
  checkpoint_args cpid seq' stage' next' cid' kind' ref' sha' eff' st' res' = Ok args →
  ∃ w3, record_checkpoint tid wid' tok' gen' att' cpid seq' stage' next' cid' kind' ref' sha' eff' st' res' w2
      = (if bool_decide (Checkpoint.content_digest c = checkpoint_digest args) then Ok (c, false)
         else Raise (ConflictError "checkpoint divergente no replay"), w3) ∧
    db w3 = db w2.
Proof.
  intros Hr H w2 HL Hargs. pose proof (reachable_inv w Hr) as Hi.
  assert (Inv (db w1)) as Hi1 by (eapply inv_steps; [eapply steps_checkpoint; [exact Hi|exact H]|done]).
  assert (rtc Step (db w1) (db w2)) as Hs by (by apply run_all_steps).
  assert (Inv (db w2)) as Hi2 by (by eapply inv_steps).
  unfold record_checkpoint in H. apply bind_ok in H as (a & wa & Hl & H). apply lift_ok in Hl as [Ha <-].
  apply tx_ok, checkpoint_returned in H as (Hin & Htid & Hcp & Hdig).
  assert (CheckpointArgs.checkpoint_id a = cpid ∧ CheckpointArgs.checkpoint_id args = cpid) as [Ea Eargs].
  { clear -Ha Hargs. unfold checkpoint_args in *. repeat case_match; by simplify_eq. }
  apply (checkpoint_kept _ _ _ Hs) in Hin.
  assert (first (checkpoint_is tid cpid) (task_checkpoints (db w2)) = Some c) as Hf.
  { destruct (first_exists (checkpoint_is tid cpid) _ c Hin) as [x Hx].
    { apply checkpoint_is_true. split; congruence. }
    rewrite Hx. f_equal. apply first_match in Hx as [Hxin [Hx1 Hx2]%checkpoint_is_true].
    apply (cp_ids _ (inv_checkpoints _ Hi2)); try done; congruence. }
  assert (Task.fencing_required row = true) as Hfen.
  { destruct (cp_task _ (inv_checkpoints _ Hi2) c Hin) as (t & Ht & Et & Hfen & _).
    destruct (lease_ok_in _ _ _ _ _ _ _ _ _ HL) as [Hrow Erow].
    assert (t = row) as -> by (apply (row_eq (db w2)); [apply Hi2|done|done|congruence]). done. }
  unfold record_checkpoint. rewrite Hargs. unfold lift, mbind at 1, M_bind at 1.
  set (w3 := w2 <| ticks := S (ticks w2) |>).
  assert (checkpoint_body tid wid' tok' gen' att' args w2 =
    (if bool_decide (Checkpoint.content_digest c = checkpoint_digest args) then Ok (c, false)
     else Raise (ConflictError "checkpoint divergente no replay"), w3)) as Hbody.
  { unfold checkpoint_body. rewrite (bind_run _ _ _ _ _ (check_lease_run _ _ _ _ _ _ _ _ HL)).
    rewrite Hfen. cbn [negb]. rewrite bind_pass, bind_query, Eargs.
    replace (db (w2 <| ticks := S (ticks w2) |>)) with (db w2) by done. rewrite Hf.
    unfold raise_if, mbind, M_bind, mret, M_ret. by case_bool_decide. }
  unfold tx. rewrite Hbody. case_bool_decide; eexists; (split; [done|]); done.
Qed.

(** A reconciliation that is recorded resolves its effect: no checkpoint
    of the effect, of any generation, is unresolved afterwards. *)
Theorem reconciliation_resolves (tid eff : string) (gen : Z) (outcome readback cid : string)
  (w : World) (r : Reconciliation.t) (w' : World) :
  reachable w → reconcile_effect tid eff gen outcome readback cid w = (Ok (r, true), w') →
  ∀ c, c ∈ task_checkpoints (db w') → Checkpoint.task_id c = tid → Checkpoint.effect_id c = Some eff →
    unresolved (db w') c = false.
Proof.
  intros Hr H. pose proof (reachable_inv w Hr) as Hi.
  assert (Inv (db w')) as Hi' by (eapply inv_steps; [eapply steps_reconcile; [exact Hi|exact H]|done]).
  unfold reconcile_effect in H. cbv zeta in H.
  do 4 (apply bind_ok in H as ([] & ? & Hg & H); apply raise_if_ok in Hg as [_ <-]).
  apply tx_ok in H. unfold reconcile_effect_body in H. rewrite bind_query in H.
  apply bind_ok in H as (t & ? & Ho & H). apply of_option_ok in Ho as [Ht <-]. rewrite bind_query in H.
  destruct (first _ _) as [x|] eqn:Ef; [by sinv H|].
  do 2 (apply bind_ok in H as ([] & ? & Hg & H); apply raise_if_ok in Hg as [_ <-]). rewrite bind_query in H.
  apply bind_ok in H as (last & ? & Ho & H). apply of_option_ok in Ho as [Hlast <-].
  apply bind_Some in Hlast as (last' & Hleast & Hst). destruct (_ || _) in Hst; [|done]. injection Hst as <-.
  apply bind_ok in H as ([] & ? & Hg & H). apply raise_if_ok in Hg as [Hgen%negb_false_iff%Z.eqb_eq <-].
  rewrite bind_now_stamp in H. apply bind_ok in H as ([] & w2 & Hins & H).
  apply exec_ok in Hins as (d1 & Hins & ->). apply insert_reconciliation_ok in Hins as [-> _].
  sinv H. wsimpl. set (rec := Reconciliation.mk _ _ _ _ _ _ _ _) in *.
  intros c. apply (effect_resolved _ tid eff last'); [apply Hi'|exact Hleast|].
  cbn. rewrite existsb_app. cbn. unfold reconciliation_is at 2. cbn.
  by rewrite !bool_decide_eq_true_2, Z.eqb_refl, orb_true_r by done.
Qed.

(** A blocked task is requeued exactly when it has no unresolved effect:
    it then resumes where it stopped, without reason; otherwise the call
    raises and changes nothing. *)
Theorem requeue_when_resolved (cid : string) (w : World) (t : Task.t) :
  reachable w → t ∈ tasks (db w) → Task.state t = blocked →
  (∀ u, u ∈ tasks (db w) → active u = true → Task.repository u = Task.repository t →
     Task.workspace_key u ≠ Task.workspace_key t) →
  if needs_reconciliation (db w) t
  then ∃ e w', requeue_blocked (Task.task_id t) cid w = (Raise e, w') ∧ db w' = db w
  else ∃ t' w', requeue_blocked (Task.task_id t) cid w = (Ok t', w') ∧
    Task.state t' = resume_state t ∧ Task.blocked_reason t' = None ∧ same_identity t t'.
Proof.
  intros Hr Hin Hst Hfree. pose proof (reachable_inv w Hr) as Hi.
  pose proof (find_task_row (db w) t (rows_ids _ (inv_rows _ Hi)) Hin) as Hf.
  set (stamp := iso (clock (ticks w))). set (t' := requeued (resume_state t) cid stamp t).
  assert (lease_clear t) as (Hl & _).
  { pose proof (wf_in_state t (rows_wf _ (inv_rows _ Hi) t Hin)) as H. unfold wf_state in H.
    rewrite Hst in H. apply H. }
  assert (index_check t' (filter (fun u => negb (task_is (Task.task_id t) u)) (tasks (db w))) = Ok tt ∧
    fenced_claim_refused t t' = false) as [Hix Hfc].
  { split.
    - unfold index_check. destruct (existsb (same_active_worker t') _) eqn:E1.
      { apply existsb_elem in E1 as (u & _ & Hu). unfold same_active_worker in Hu. cbn in Hu.
        by rewrite Hl, andb_false_r in Hu. }
      destruct (existsb (same_active_workspace t') _) eqn:E2; [|done].
      apply existsb_elem in E2 as (u & Hu & Hs). apply list_elem_of_filter in Hu as [_ Hu]. exfalso.
      unfold same_active_workspace in Hs. apply andb_true_iff in Hs as [Hs Ek%bool_decide_eq_true].
      apply andb_true_iff in Hs as [Hs Er%bool_decide_eq_true]. apply andb_true_iff in Hs as [_ Ha].
      by apply (Hfree u Hu Ha).
    - unfold fenced_claim_refused. cbn. rewrite Hl, (bool_decide_eq_false_2 _ (is_Some_None (A := string))).
      by rewrite andb_false_r. }
  unfold requeue_blocked. fold (needs_reconciliation (db w) t).
  destruct (needs_reconciliation (db w) t) eqn:En.
  - exists (ConflictError (u8 "efeito requer reconciliação")), w. split; [|done].
    apply bind_raise. unfold tx. rewrite bind_query, Hf. cbn [of_option]. rewrite bind_ret, Hst.
    rewrite bool_decide_eq_true_2 by done. cbn [negb]. rewrite bind_pass, bind_query.
    fold (needs_reconciliation (db w) t). rewrite En. by destruct w.
  - set (w1 := w <| ticks := S (ticks w) |>).
    set (w2 := w1 <| db := db w <| tasks := update_where (task_is (Task.task_id t)) (fun _ => t') (tasks (db w)) |> |>).
    exists t', w2. split; [|by repeat split].
    assert (find_task (db w2) (Task.task_id t) = Some t') as Hf2.
    { apply (find_updated (db w)); try done. apply Hi. }
    erewrite bind_run; [unfold get_task; rewrite bind_query, Hf2; reflexivity|].
    apply tx_run. rewrite bind_query, Hf. cbn [of_option]. rewrite bind_ret, Hst.
    rewrite bool_decide_eq_true_2 by done. cbn [negb]. rewrite bind_pass, bind_query.
    fold (needs_reconciliation (db w) t). rewrite En, bind_pass, bind_now_stamp.
    refine (set_task_run (db w) (Task.task_id t) (requeued (resume_state t) cid stamp) _ t _ _ _ Hfc Hix);
      [apply Hi|done|reflexivity].
Qed.
End ReplayProps.

(** ** Admission *)

Section AdmissionFacts.
Context {self : Store} {Hid : Uuids}.

(** The branch an admission asks for. *)
Definition requested_branch (issue : Z) (rid : string) (target : option string) : res string :=
  match target with Some b => validate_target_branch b | None => Ok (branch issue rid) end.

Lemma lane_keeps_tasks repo u w w' :
  ensure_repository_lane repo w = (Ok u, w') → tasks (db w') = tasks (db w) ∧ pool_control (db w') = pool_control (db w).
Proof.
  unfold ensure_repository_lane. rewrite bind_now_stamp. intros H. apply exec_pure_ok in H as ->. cbn.
  by destruct (existsb _ _).
Qed.

Lemma lane_total repo w : ∃ w', ensure_repository_lane repo w = (Ok tt, w').
Proof. unfold ensure_repository_lane. rewrite bind_now_stamp. by eexists. Qed.

Lemma first_key d key row :
  RowsInv d → row ∈ tasks d → Task.idempotency_key row = key →
  first (fun t => bool_decide (Task.idempotency_key t = key)) (tasks d) = Some row.
Proof.
  intros Hr Hin Ek. destruct (first_exists (fun t => bool_decide (Task.idempotency_key t = key)) _ row Hin) as [x Hx].
  { by apply bool_decide_eq_true. }
  rewrite Hx. f_equal. apply first_match in Hx as [Hxin Hxk%bool_decide_eq_true].
  apply (row_eq d); [apply Hr|done|done|].
  rewrite (wf_identity x), (wf_identity row) by (by apply (rows_wf d Hr)). congruence.
Qed.

(** The row an admission returns. *)
Lemma enqueue_returned repo issue rid cid prio base att target fencing w t b w' :
  Inv (db w) → enqueue_task repo issue rid cid prio base att target fencing w = (Ok (t, b), w') →
  t ∈ tasks (db w') ∧ Task.idempotency_key t = identity repo issue rid ∧ Task.fencing_required t = fencing ∧
  (is_Some target → requested_branch issue rid target = Ok (Task.branch t)) ∧
  (negb (contains "/" repo) || (issue <? 1) || negb (nonempty (strip rid)) || negb (nonempty (strip cid)) = false) ∧
  (truthy base && negb (fullmatch SHA40 (lower (default ""%string base))) = false) ∧
  (or_default att default_max_attempts <? 1) = false ∧ (∃ n, requested_branch issue rid target = Ok n).
Proof.
  intros Hi H. assert (Inv (db w')) as Hi' by (eapply inv_steps; [by eapply steps_enqueue|done]).
  unfold enqueue_task in H. cbv zeta in H. fold (requested_branch issue rid target) in H.
  apply bind_ok in H as ([] & ? & Hg & H). apply raise_if_ok in Hg as [Hg1 <-].
  apply bind_ok in H as ([] & ? & Hg & H). apply raise_if_ok in Hg as [Hg2 <-].
  apply bind_ok in H as (name & ? & Hg & H). apply lift_ok in Hg as [Hname <-].
  rewrite bind_now_stamp in H. apply bind_ok in H as ([] & ? & Hg & H). apply raise_if_ok in Hg as [Hg3 <-].
  apply tx_ok in H. set (key := identity repo issue rid) in *. set (stamp := iso _) in *. rewrite bind_query in H.
  apply bind_ok in H as ([] & ? & Hg & H). apply raise_if_ok in Hg as [_ <-].
  apply bind_ok in H as ([] & w1 & Hlane & H). apply lane_keeps_tasks in Hlane as [Et Ec].
  rewrite bind_query in H. destruct (first _ _) as [row|] eqn:Ef.
  - apply bind_ok in H as ([] & ? & Hg & H). apply raise_if_ok in Hg as [Hb <-].
    apply bind_ok in H as ([] & ? & Hg & H). apply raise_if_ok in Hg as [Hfen <-].
    apply ret_ok in H as [[= <- <-] <-]. apply first_match in Ef as [Hin Hk%bool_decide_eq_true].
    split_and!; try done; [by destruct (Task.fencing_required row), fencing| |by eauto].
    intros Hs. rewrite bool_decide_eq_true_2 in Hb by done. cbn in Hb.
    apply negb_false_iff, bool_decide_eq_true in Hb. congruence.
  - apply bind_ok in H as (num & ? & Hg & H). apply lift_ok in Hg as [_ <-].
    apply bind_ok in H as (pr & ? & Hg & H). apply lift_ok in Hg as [_ <-].
    apply bind_ok in H as (at' & ? & Hg & H). apply lift_ok in Hg as [_ <-].
    apply bind_ok in H as ([] & w2 & Hins & H). apply exec_ok in Hins as (d' & Hins & ->).
    apply insert_task_ok in Hins as (-> & _). rewrite bind_query in H.
    apply bind_ok in H as (x & w3 & Ho & H). apply of_option_ok in Ho as [Ho <-].
    apply ret_ok in H as [[= -> <-] <-]. set (row := Task.mk _ _ _ _ _ _ _ _ _ _ _ _ _ _ _ _ _ _ _ _ _ _ _ _ _ _ _ _) in *.
    assert (t = row) as ->.
    { apply find_task_in in Ho as [Hin Eid]. apply (row_eq _ _ _ (rows_ids _ (inv_rows _ Hi')) Hin); [|done].
      cbn. apply elem_of_app. right. by apply list_elem_of_singleton. }
    split_and!; try done; [|by eauto]. cbn. apply elem_of_app. right. by apply list_elem_of_singleton.
Qed.
End AdmissionFacts.

Section AdmissionProps.
Context {self : Store} {Hid : Uuids}.

(** Admission is idempotent: after any history, asking again for the
    same task returns its row, not a new one, and changes no task. *)
Theorem admission_replay (repo : string) (issue : Z) (rid cid cid' : string) (prio prio' : Z)
  (base : option string) (att : option Z) (target : option string) (fencing : bool)
  (w : World) (t : Task.t) (b : bool) (w1 : World) (ops : list Op) :
  reachable w → enqueue_task repo issue rid cid prio base att target fencing w = (Ok (t, b), w1) →
  nonempty (strip cid') = true →
  let w2 := run_all ops w1 in
  (fencing = true → PoolControl.enabled (pool_control (db w2)) = true) →
  ∃ t' w3, enqueue_task repo issue rid cid' prio' base att target fencing w2 = (Ok (t', false), w3) ∧
    same_identity t t' ∧ tasks (db w3) = tasks (db w2).
Proof.
  intros Hr H Hcid w2 Hctl. pose proof (reachable_inv w Hr) as Hi.
  assert (Inv (db w1)) as Hi1 by (eapply inv_steps; [by eapply steps_enqueue|done]).
  pose proof (enqueue_returned _ _ _ _ _ _ _ _ _ _ _ _ _ Hi H) as (Hin & Hkey & Hfen & Hbr & Hg1 & Hg2 & Hg3 & name & Hname).
  assert (rtc Step (db w1) (db w2)) as Hs by (by apply run_all_steps).
  destruct (steps_forward _ _ t Hs Hi1 Hin) as (t' & Hin' & Hsame & _).
  assert (Inv (db w2)) as Hi2 by (by eapply inv_steps).
  assert (Task.idempotency_key t' = identity repo issue rid ∧ Task.fencing_required t' = fencing ∧
    Task.branch t' = Task.branch t) as (Hk' & Hf' & Hb') by (unfold same_identity in Hsame; destruct_and!; split_and!; congruence).
  apply orb_false_iff in Hg1 as [Hg1 _].
  set (w3 := w2 <| ticks := S (ticks w2) |>).
  destruct (lane_total (strip repo) w3) as [w4 Hlane]. pose proof (lane_keeps_tasks _ _ _ _ Hlane) as [Et _].
  exists t', w4. split; [|split; [done|exact Et]].
  unfold enqueue_task. cbv zeta. fold (requested_branch issue rid target).
  rewrite Hg1, Hcid. cbn [negb orb]. rewrite bind_pass, Hg2, bind_pass, Hname, bind_lift, bind_now_stamp, Hg3, bind_pass.
  apply tx_run. rewrite bind_query. fold w3.
  assert (fencing && negb (PoolControl.enabled (pool_control (db w3))) = false) as ->.
  { destruct fencing; [|done]. cbn. by rewrite Hctl. }
  rewrite bind_pass, (bind_run _ _ _ _ _ Hlane), bind_query, Et.
  change (db w3) with (db w2).
  rewrite (first_key (db w2) _ t' (inv_rows _ Hi2) Hin' Hk').
  assert (bool_decide (is_Some target) && negb (bool_decide (Task.branch t' = name)) = false) as ->.
  { case_bool_decide as Ht; [|done]. cbn. rewrite bool_decide_eq_true_2; [done|].
    specialize (Hbr Ht). congruence. }
  rewrite bind_pass, Hf'. assert (xorb fencing fencing = false) as -> by (by destruct fencing). done.
Qed.
End AdmissionProps.

(** ** Instances *)

Definition demo_claim : res (option (Task.t * Lease.t)) * World :=
  claim_task "b1" "builder" "c" None (Some demo_tid) true (demo h_queued).
Definition grants {W} (x : res (option (Task.t * Lease.t)) * W) : bool :=
  match x.1 with Ok (Some _) => true | _ => false end.
Definition returns {A W} (x : res A * W) : bool := match x.1 with Ok _ => true | Raise _ => false end.

Lemma demo_claim_grants : ∃ t l w', demo_claim = (Ok (Some (t, l)), w').
Proof.
  assert (grants demo_claim = true) as H by (vm_compute; reflexivity).
  destruct demo_claim as [[[[t l]|]|e] w']; try discriminate H. exists t, l, w'. reflexivity.
Qed.


Lemma claim_respects_capacity_witness :
  ∃ t l w' r, demo_claim = (Ok (Some (t, l)), w') ∧ Lane.enabled r = true ∧
    active_count (db w') (Task.repository t) ≤ Lane.max_in_flight r.
Proof.
  destruct demo_claim_grants as (t & l & w' & E).
  destruct (claim_respects_capacity "b1" "builder" "c" None (Some demo_tid) true _ t l w' (demo_reachable _) eq_refl E) as (r & _ & H1 & H2).
  exists t, l, w', r. auto.
Defined.

Lemma claim_none_is_complete_witness :
  ∃ w', claim_task "v1" "validator" "c" None None true (demo h_queued) = (Ok None, w') ∧
    ∀ u r, u ∈ tasks (db w') → find_lane (db w') (Task.repository u) = Some r →
      eligible_for (db w') validator "v1" true None r u = false.
Proof.
  set (x := claim_task "v1" "validator" "c" None None true (demo h_queued)).
  assert ((match x.1 with Ok None => true | _ => false end) = true) as H by (vm_compute; reflexivity).
  destruct x as [[[p|]|e] w'] eqn:E; try discriminate H. exists w'. split; [reflexivity|].
  destruct (claim_none_is_complete _ _ _ _ _ _ _ _ (demo_reachable _) E) as (rl & Hrl & Hall).
  assert (rl = validator) as -> by (vm_compute in Hrl; congruence). exact Hall.
Defined.

Lemma granted_lease_starts_witness :
  ∃ l w' t' w2, start_task (Lease.task_id l) (Lease.worker_id l) (Lease.lease_token l) "c"
      (Some (Lease.lease_generation l)) (Some (Lease.attempt_id l)) w' = (Ok t', w2) ∧
    Task.state t' = running.
Proof.
  destruct demo_claim_grants as (t & l & w' & E).
  assert (clock (ticks demo_claim.2) < clock (ticks (demo h_queued)) + or_default None default_lease_seconds * MICROS)
    as Hlt by (vm_compute; reflexivity).
  rewrite E in Hlt.
  destruct (granted_lease_starts "b1" "builder" "c" None (Some demo_tid) true _ t l w' "c" (demo_reachable _) eq_refl E Hlt)
    as (t' & w2 & H1 & H2 & _).
  exists l, w', t', w2. auto.
Defined.

Lemma expired_recovery_exact_witness :
  reachable (demo h_leased) ∧ ∃ n w', recover_expired_leases (demo h_leased) = (Ok n, w').
Proof.
  split; [apply demo_reachable|].
  destruct (expired_recovery_exact (demo h_leased) (demo_reachable _)) as (w' & E & _).
  eexists _, w'. exact E.
Defined.

Lemma demo_heartbeats : heartbeats_parse (db (demo h_leased)).
Proof.
  intros x Hx.
  assert (forallb (fun x => returns (parse_iso (Worker.last_heartbeat_at x), tt)) (workers (db (demo h_leased))) = true)
    as H by (vm_compute; reflexivity).
  rewrite forallb_elem in H. specialize (H x Hx). unfold returns in H. cbn in H.
  destruct (parse_iso _) as [h|]; [by exists h|done].
Qed.

Lemma stall_recovery_exact_witness :
  ∃ c w', recover_stalled_tasks (demo h_leased) = (Ok c, w').
Proof.
  set (now_ := clock (ticks (demo h_leased))).
  destruct (add_seconds now_ (- progress_stall_seconds)) as [cutoff|e] eqn:E.
  - destruct (stall_recovery_exact (demo h_leased) cutoff (demo_reachable _) demo_heartbeats E) as (c & w' & H & _).
    exists c, w'. exact H.
  - exfalso. assert (returns (add_seconds now_ (- progress_stall_seconds), tt) = true) as H by (vm_compute; reflexivity).
    rewrite E in H. discriminate H.
Defined.

(** The second call of the same checkpoint, in the same lease. *)
Definition demo_record (action : string) (w : World) : res (Checkpoint.t * bool) * World :=
  record_checkpoint demo_tid "b1" demo_token 1 demo_attempt "cp1" 1 "publish" action "c"
    None None None (Some "pr"%string) "unknown" None w.

Lemma demo_lease_holds : ∃ row, lease_ok (db (demo_record "go" (demo h_running)).2)
  (clock (ticks (demo_record "go" (demo h_running)).2)) demo_tid "b1" demo_token ACTIVE (Some 1) (Some demo_attempt) row.
Proof.
  set (w := (demo_record "go" (demo h_running)).2).
  assert (returns (check_lease demo_tid "b1" demo_token ACTIVE (Some 1) (Some demo_attempt) w) = true) as H
    by (vm_compute; reflexivity).
  destruct (check_lease demo_tid "b1" demo_token ACTIVE (Some 1) (Some demo_attempt) w) as [[row|e] w'] eqn:E;
    [|discriminate H].
  exists row. exact (proj1 (check_lease_ok _ _ _ _ _ _ _ _ _ E)).
Qed.

Lemma checkpoint_replay_witness :
  ∃ c w1 w3, demo_record "go" (demo h_running) = (Ok (c, true), w1) ∧
    demo_record "stop" w1 = (Raise (ConflictError "checkpoint divergente no replay"), w3) ∧ db w3 = db w1.
Proof.
  destruct (demo_record "go" (demo h_running)) as [[[c b]|e] w1] eqn:E.
  - assert ((match (demo_record "go" (demo h_running)).1 with
             | Ok (c, b) => b && negb (bool_decide (Checkpoint.content_digest c = checkpoint_digest
                 (CheckpointArgs.mk "cp1" 1 "publish" "stop" "c" None None None (Some "pr"%string) fx_unknown None)))
             | _ => false end) = true) as H by (vm_compute; reflexivity).
    rewrite E in H. apply andb_true_iff in H as [Hb Hd]. subst b.
    apply negb_true_iff, bool_decide_eq_false in Hd.
    destruct demo_lease_holds as [row HL]. rewrite E in HL.
    assert (checkpoint_args "cp1" 1 "publish" "stop" "c" None None None (Some "pr"%string) "unknown" None =
      Ok (CheckpointArgs.mk "cp1" 1 "publish" "stop" "c" None None None (Some "pr"%string) fx_unknown None)) as Ha
      by (vm_compute; reflexivity).
    destruct (checkpoint_replay _ _ _ _ _ _ _ _ _ _ _ _ _ _ _ _ _ c true w1 [] _ _ _ _ _ _ _ _ _ _ _ _ _ _ row _
      (demo_reachable h_running) E HL Ha) as (w3 & Hw3 & Edb).
    rewrite bool_decide_eq_false_2 in Hw3 by exact Hd. exists c, w1, w3.
    split; [reflexivity|]. split; [exact Hw3|exact Edb].
  - exfalso. assert (returns (demo_record "go" (demo h_running)) = true) as H by (vm_compute; reflexivity).
    rewrite E in H. discriminate H.
Defined.

Lemma reconciliation_resolves_witness :
  ∃ r w', reconcile_effect demo_tid "pr" 1 "confirmed" "pull/7" "c" (demo h_blocked) = (Ok (r, true), w') ∧
    ∀ c, c ∈ task_checkpoints (db w') → Checkpoint.task_id c = demo_tid →
      Checkpoint.effect_id c = Some "pr"%string → unresolved (db w') c = false.
Proof.
  set (x := reconcile_effect demo_tid "pr" 1 "confirmed" "pull/7" "c" (demo h_blocked)).
  assert ((match x.1 with Ok (_, b) => b | _ => false end) = true) as H by (vm_compute; reflexivity).
  destruct x as [[[r b]|e] w'] eqn:E; [|discriminate H]. cbn in H. subst b. exists r, w'. split; [reflexivity|].
  exact (reconciliation_resolves _ _ _ _ _ _ _ r w' (demo_reachable h_blocked) E).
Defined.

Lemma requeue_when_resolved_witness :
  ∃ t t' w', demo_row h_reconciled = Some t ∧
    requeue_blocked (Task.task_id t) "c" (demo h_reconciled) = (Ok t', w') ∧ Task.state t' = resume_state t.
Proof.
  destruct (demo_row h_reconciled) as [t|] eqn:E; [|vm_compute in E; discriminate].
  destruct (demo_row_in _ _ E) as [Hin _].
  assert ((Task.state <$> demo_row h_reconciled) = Some blocked ∧
    (needs_reconciliation (db (demo h_reconciled)) <$> demo_row h_reconciled) = Some false ∧
    forallb (fun u => negb (active u)) (tasks (db (demo h_reconciled))) = true) as (Hs & Hn & Hidle)
    by (split; [|split]; vm_compute; reflexivity).
  rewrite E in Hs, Hn. injection Hs as Hs. injection Hn as Hn. rewrite forallb_elem in Hidle.
  pose proof (requeue_when_resolved "c" (demo h_reconciled) t (demo_reachable _) Hin Hs) as H.
  rewrite Hn in H. destruct H as (t' & w' & H1 & H2 & _).
  - intros u Hu Ha. specialize (Hidle u Hu). rewrite Ha in Hidle. discriminate Hidle.
  - exists t, t', w'. auto.
Defined.

Lemma admission_replay_witness :
  ∃ t t' w3, demo_row h_queued = Some t ∧
    enqueue_task "acme/repo" 12 "r1" "other" 5 (Some demo_base) None None true (demo h_completed) = (Ok (t', false), w3) ∧
    tasks (db w3) = tasks (db (demo h_completed)).
Proof.
  set (x := enqueue_task "acme/repo" 12 "r1" "c" 100 (Some demo_base) None None true (demo h_setup)).
  assert ((match x.1 with Ok (t, b) => Some t | _ => None end) = demo_row h_queued ∧ returns x = true)
    as [Hrow Hret] by (split; vm_compute; reflexivity).
  destruct x as [[[t b]|e] w1] eqn:E; [|discriminate Hret]. cbn in Hrow.
  set (rest := [op_claim "b1" "builder" "c" None (Some demo_tid) true;
    op_start demo_tid "b1" demo_token "c" (Some 1) (Some demo_attempt);
    op_submit demo_tid "b1" demo_token demo_sha "c" (Some 1) (Some demo_attempt);
    op_claim "v1" "validator" "c" None None true;
    op_complete demo_tid "v1" "id-2" "c" (Some 2) (Some "id-3"%string)]).
  assert (run_all rest w1 = demo h_completed) as Hw.
  { change h_completed with (h_setup ++
      op_enqueue "acme/repo" 12 "r1" "c" 100 (Some demo_base) None None true :: rest).
    rewrite demo_app, run_all_cons. f_equal. unfold run, call. fold x. rewrite (bind_run _ _ _ _ _ E).
    reflexivity. }
  assert (PoolControl.enabled (pool_control (db (demo h_completed))) = true) as Hctl by (vm_compute; reflexivity).
  destruct (admission_replay _ _ _ _ "other" _ 5 _ _ _ _ _ t b w1 rest (demo_reachable h_setup) E eq_refl)
    as (t' & w3 & H1 & _ & H2).
  - intros _. rewrite Hw. exact Hctl.
  - rewrite Hw in H1, H2. exists t, t', w3. auto.
Defined.

(** ** Rendered stamps *)

#[local] Ltac Zify.zify_post_hook ::= Z.to_euclidean_division_equations.

(** A stamp with a written fraction. *)
Definition fractional (d : datetime) : Prop := d mod MICROS ≠ 0.

Lemma text_key_bounds d : d ≤ text_key d ≤ d + MICROS.
Proof. unfold text_key, MICROS. destruct (Z.eqb_spec (d mod 1000000) 0); lia. Qed.

(** A stamp written by [iso] is read back by [parse_iso] as the instant
    it was written for; two instants never share a stamp. *)
Theorem stamp_round_trip (d e : datetime) :
  valid_instant d → valid_instant e → parse_iso (iso d) = Ok d ∧ (iso d = iso e → d = e).
Proof.
  intros Hd He. split; [by apply parse_iso_iso|]. intros E.
  pose proof (parse_iso_iso d Hd) as H. rewrite E, (parse_iso_iso e He) in H. by injection H.
Qed.

(** A lease that the text comparison of the recovery takes for expired
    expires less than one second later at most; one that expired a second ago
    is taken for expired; and between stamps of which both or none have a
    fraction the comparison is exact. *)
Theorem stamp_order (t : Task.t) (expiry d : datetime) :
  valid_instant expiry → valid_instant d → active t = true → Task.lease_expires_at t = Some (iso expiry) →
  (lease_expired_at (iso d) t = true → expiry < d + MICROS) ∧
  (expiry + MICROS ≤ d → lease_expired_at (iso d) t = true) ∧
  ((fractional expiry ↔ fractional d) → (lease_expired_at (iso d) t = true ↔ expiry ≤ d)).
Proof.
  intros He Hd Ha E. unfold lease_expired_at. rewrite Ha, E. cbn [andb]. rewrite text_leb_iso by done.
  rewrite Z.leb_le. unfold text_key, fractional, MICROS.
  destruct (Z.eqb_spec (expiry mod 1000000) 0), (Z.eqb_spec (d mod 1000000) 0); split_and!; lia.
Qed.

Definition stamped_task (expiry : string) : Task.t :=
  Task.mk "t" "a/b" 1 "r" "k" leased 100 "br" "ws" None None (Some "b1"%string) None (Some "b1"%string)
    (Some "tok"%string) (Some expiry) 1 (Some "at"%string) false 1 3 None None "c" "s" "s" "s" None.

Lemma stamp_round_trip_witness :
  parse_iso (iso 63844934399250000) = Ok 63844934399250000 ∧
  (iso 63844934399250000 = iso 63844934399000000 → 63844934399250000 = 63844934399000000).
Proof.
  apply (stamp_round_trip 63844934399250000 63844934399000000); unfold valid_instant; vm_compute;
    split; congruence.
Defined.

Lemma stamp_order_witness :
  lease_expired_at (iso 63844934400000000) (stamped_task (iso 63844934399000000)) = true.
Proof.
  destruct (stamp_order (stamped_task (iso 63844934399000000)) 63844934399000000 63844934400000000)
    as (_ & H & _); [unfold valid_instant; vm_compute; split; congruence..|reflexivity|reflexivity|].
  apply H. vm_compute. congruence.
Defined.

(** The two errors of the order: a lease with half a second left is taken for
    expired, and one that expired half a second ago is not. *)
Theorem expiry_misjudged :
  lease_expired_at (iso 63844934399000000) (stamped_task (iso 63844934399500000)) = true ∧
  lease_expired_at (iso 63844934399500000) (stamped_task (iso 63844934399000000)) = false.
Proof. vm_compute. split; reflexivity. Qed.
