(* ===== verification/Work.v ===== *)
(** [WorkOrchestrator] of [app/work.py]: the facade that follows a task to its
    evidence and its merge.

    Every request has a half that reads and decides, and a half that commits
    in a transaction; the operations of the code are their sequence.  The two
    halves are separate definitions because the code opens the transaction
    after the reads, so that requests served at the same time interleave. *)
From S2P Require Import Prelude PyStr Clock Json Names Schema Store.
From Stdlib Require Import Ascii String.
From stdpp Require Import strings.

Local Open Scope Z_scope.

(** What the orchestrator calls of the pool. *)
Class TaskPool := {
  pool_enqueue : string → Z → string → string → Z → option string → option Z → option string → bool →
    M World (Task.t * bool);
  pool_get_task : string → M World Task.t }.

(** ** Rows as dictionaries *)

Definition opt_int (b : bool) : json := JInt (if b then 1 else 0).

(** [dict(row)] of a row of [tasks]. *)
Definition task_dict (t : Task.t) : list (string * json) :=
  [("task_id"%string, JStr (Task.task_id t)); ("repository"%string, JStr (Task.repository t));
   ("issue_number"%string, JInt (Task.issue_number t)); ("request_id"%string, JStr (Task.request_id t));
   ("idempotency_key"%string, JStr (Task.idempotency_key t)); ("state"%string, JStr (state_text (Task.state t)));
   ("priority"%string, JInt (Task.priority t)); ("branch"%string, JStr (Task.branch t));
   ("workspace_key"%string, JStr (Task.workspace_key t)); ("base_sha"%string, opt_str (Task.base_sha t));
   ("produced_sha"%string, opt_str (Task.produced_sha t));
   ("builder_worker_id"%string, opt_str (Task.builder_worker_id t));
   ("validator_worker_id"%string, opt_str (Task.validator_worker_id t));
   ("leased_by"%string, opt_str (Task.leased_by t)); ("lease_token"%string, opt_str (Task.lease_token t));
   ("lease_expires_at"%string, opt_str (Task.lease_expires_at t));
   ("lease_generation"%string, JInt (Task.lease_generation t)); ("attempt_id"%string, opt_str (Task.attempt_id t));
   ("fencing_required"%string, opt_int (Task.fencing_required t));
   ("attempt_count"%string, JInt (Task.attempt_count t)); ("max_attempts"%string, JInt (Task.max_attempts t));
   ("blocked_reason"%string, opt_str (Task.blocked_reason t)); ("last_error"%string, opt_str (Task.last_error t));
   ("correlation_id"%string, JStr (Task.correlation_id t)); ("created_at"%string, JStr (Task.created_at t));
   ("updated_at"%string, JStr (Task.updated_at t));
   ("last_material_progress_at"%string, JStr (Task.last_material_progress_at t));
   ("completed_at"%string, opt_str (Task.completed_at t))].

(** [_public_task]: without the lease token, the fence as a boolean. *)
Definition public_task (task : list (string * json)) : list (string * json) :=
  map (fun kv => if bool_decide (kv.1 = "fencing_required"%string) then (kv.1, JBool (truth kv.2)) else kv)
    (List.filter (fun kv => negb (bool_decide (kv.1 = "lease_token"%string))) task).

Module WorkView.
Record evidence_t := mk_evidence {
  state : EvidenceState; validation_run_id : option string; validation_sha : option string;
  evidence_reference : option string; independent_readback : bool; positive_control : bool;
  negative_control : bool }.
Record merge_t := mk_merge {
  merge_state : MergeState; expected_head_sha : option string; merge_commit_sha : option string;
  reason : option string; merged_at : option string }.
Record t := mk {
  work_id : string; task_id : string; phase : string; merge_policy : string;
  correlation_id : string; created_at : string; updated_at : string;
  task : list (string * json); evidence : evidence_t; merge : merge_t }.
End WorkView.

(** [_work_id] *)
Definition work_id (task : Task.t) : string := "work-" ++ take_str 24 (Task.idempotency_key task).

(** [_phase] *)
Definition phase (task : Task.t) (row : WorkRun.t) : string :=
  if bool_decide (WorkRun.merge_state row = mg_merged) then "merged"
  else if bool_decide (WorkRun.merge_state row = mg_blocked) then "merge_blocked"
  else if bool_decide (WorkRun.evidence_state row = ev_verified) then "merge"
  else match Task.state task with
       | queued => "queue"
       | leased | running => "worker"
       | validating => "validator"
       | completed => "evidence"
       | s => state_text s
       end.

Definition merge_text (m : MergeState) : string :=
  match m with mg_pending => "pending" | mg_ready => "ready" | mg_blocked => "blocked" | mg_merged => "merged" end.
Definition MERGE_POLICIES : list string := ["governed"%string].

(** A request that passed its reads: what is left to commit. *)
Inductive Plan : Type :=
  | plan_create (task : Task.t) (merge_policy correlation_id stamp : string)
  | plan_evidence (work_id run_id sha reference correlation_id stamp : string)
  | plan_merge (work_id : string) (next : MergeState) (commit reason : option string)
      (correlation_id stamp : string).

(** ** The [SET] clauses *)

Definition verified_with (run_id sha reference correlation_id stamp : string) (r : WorkRun.t) : WorkRun.t :=
  Eval cbn in r <| WorkRun.evidence_state := ev_verified |> <| WorkRun.merge_state := mg_ready |>
    <| WorkRun.validation_run_id := Some run_id |> <| WorkRun.validation_sha := Some sha |>
    <| WorkRun.evidence_reference := Some reference |> <| WorkRun.independent_readback := true |>
    <| WorkRun.positive_control := true |> <| WorkRun.negative_control := true |>
    <| WorkRun.expected_head_sha := Some sha |> <| WorkRun.correlation_id := correlation_id |>
    <| WorkRun.updated_at := stamp |>.
Definition merge_recorded (next : MergeState) (commit reason : option string)
  (correlation_id stamp : string) (r : WorkRun.t) : WorkRun.t :=
  Eval cbn in r <| WorkRun.merge_state := next |> <| WorkRun.merge_commit_sha := commit |>
    <| WorkRun.merge_reason := reason |> <| WorkRun.correlation_id := correlation_id |>
    <| WorkRun.updated_at := stamp |>
    <| WorkRun.merged_at := match next with mg_merged => Some stamp | _ => None end |>.
(** The defaults of the columns an [INSERT] leaves out. *)
Definition new_work (id task_id merge_policy correlation_id stamp : string) : WorkRun.t :=
  WorkRun.mk id task_id merge_policy ev_pending mg_pending None None None false false false None None None
    correlation_id stamp stamp None.

(** [(x or "").strip()...  or None] *)
Definition none_if_empty (s : string) : option string := if nonempty s then Some s else None.

Section Work.
Context {self : Store} {pool : TaskPool}.

(** ** Reads *)

Definition work_row (wid : string) : M World WorkRun.t :=
  found ← query (fun d => find_work d wid); of_option found (NotFoundError (u8 "work não encontrado: " ++ wid)).

Definition view (row : WorkRun.t) : M World WorkView.t :=
  task ← pool_get_task (WorkRun.task_id row);
  mret (WorkView.mk (WorkRun.work_id row) (WorkRun.task_id row) (phase task row) (WorkRun.merge_policy row)
    (WorkRun.correlation_id row) (WorkRun.created_at row) (WorkRun.updated_at row)
    (public_task (task_dict task))
    (WorkView.mk_evidence (WorkRun.evidence_state row) (WorkRun.validation_run_id row)
       (WorkRun.validation_sha row) (WorkRun.evidence_reference row) (WorkRun.independent_readback row)
       (WorkRun.positive_control row) (WorkRun.negative_control row))
    (WorkView.mk_merge (WorkRun.merge_state row) (WorkRun.expected_head_sha row)
       (WorkRun.merge_commit_sha row) (WorkRun.merge_reason row) (WorkRun.merged_at row))).

Definition get_work (wid : string) : M World WorkView.t := row ← work_row wid; view row.

(** ** The commits *)

Definition commit_create (task : Task.t) (merge_policy correlation_id stamp : string) : M World bool :=
  let wid := work_id task in
  tx (fun _ =>
    existing ← query (fun d => find_work d wid);
    match existing with
    | None => exec (insert_work (new_work wid (Task.task_id task) merge_policy correlation_id stamp)) ;; mret true
    | Some e =>
        raise_if (negb (bool_decide (WorkRun.task_id e = Task.task_id task)) ||
                  negb (bool_decide (WorkRun.merge_policy e = merge_policy)))
          (ConflictError "work divergente no replay") ;;
        mret false
    end).

(** [UPDATE work_runs SET ... WHERE guard] *)
Definition update_work (guard : WorkRun.t → bool) (f : WorkRun.t → WorkRun.t) : M World unit :=
  tx (fun _ => exec (fun d => Ok (d <| work_runs := update_where guard f (work_runs d) |>))).

Definition commit_evidence (wid run_id sha reference correlation_id stamp : string) : M World unit :=
  update_work (fun r => work_is wid r && bool_decide (WorkRun.evidence_state r = ev_pending))
    (verified_with run_id sha reference correlation_id stamp).
Definition commit_merge (wid : string) (next : MergeState) (commit reason : option string)
  (correlation_id stamp : string) : M World unit :=
  update_work (work_is wid) (merge_recorded next commit reason correlation_id stamp).

Definition commit (p : Plan) : M World unit :=
  match p with
  | plan_create task policy cid stamp => commit_create task policy cid stamp ;; mret tt
  | plan_evidence wid run_id sha reference cid stamp => commit_evidence wid run_id sha reference cid stamp
  | plan_merge wid next sha reason cid stamp => commit_merge wid next sha reason cid stamp
  end.

(** ** The reads of each request *)

Definition read_create (repository : string) (issue_number : Z) (request_id correlation_id base_sha : string)
  (priority : Z) (target_branch : option string) (max_attempts : option Z) (merge_policy : string)
  (fencing_required : bool) : M World (Task.t * string) :=
  raise_if (negb (bool_decide (merge_policy ∈ MERGE_POLICIES))) (ValueError (u8 "merge_policy inválida")) ;;
  '(task, _) ← pool_enqueue repository issue_number request_id correlation_id priority (Some base_sha)
                 max_attempts target_branch fencing_required;
  stamp ← now_stamp;
  mret (task, stamp).

Definition same_evidence (row : WorkRun.t) (run_id sha reference : string) (readback positive negative : bool) : bool :=
  bool_decide (WorkRun.validation_run_id row = Some run_id) && bool_decide (WorkRun.validation_sha row = Some sha) &&
  bool_decide (WorkRun.evidence_reference row = Some reference) &&
  eqb (WorkRun.independent_readback row) readback && eqb (WorkRun.positive_control row) positive &&
  eqb (WorkRun.negative_control row) negative.

(** Left: the answer to a replay; right: the update to commit. *)
Definition read_evidence (wid validation_run_id validation_sha evidence_reference : string)
  (independent_readback positive_control negative_control : bool) (correlation_id : string)
  : M World (WorkView.t + Plan) :=
  let sha := lower (strip validation_sha) in
  raise_if (negb (fullmatch SHA40 sha)) (ValueError (u8 "validation_sha inválido")) ;;
  raise_if (negb (nonempty (strip validation_run_id)) || negb (nonempty (strip evidence_reference)))
    (ValueError (u8 "identidade da evidência inválida")) ;;
  raise_if (negb (independent_readback && positive_control && negative_control))
    (ConflictError (u8 "controles de evidência incompletos")) ;;
  row ← work_row wid;
  task ← pool_get_task (WorkRun.task_id row);
  raise_if (negb (bool_decide (Task.state task = completed)) || negb (truthy (Task.produced_sha task)))
    (ConflictError (u8 "task ainda não está validada")) ;;
  raise_if (negb (bool_decide (sha = lower (default ""%string (Task.produced_sha task)))))
    (ConflictError "validation_sha divergente do produced_sha") ;;
  if bool_decide (WorkRun.evidence_state row = ev_verified) then
    raise_if (negb (same_evidence row (strip validation_run_id) sha (strip evidence_reference)
                      independent_readback positive_control negative_control))
      (ConflictError (u8 "evidência divergente no replay")) ;;
    v ← view row; mret (inl v)
  else
    stamp ← now_stamp;
    mret (inr (plan_evidence wid (strip validation_run_id) sha (strip evidence_reference)
                 (strip correlation_id) stamp)).

(** The state a merge result asks for, after its own checks. *)
Definition merge_outcome (merged : bool) (commit reason : option string) : res MergeState :=
  if merged then
    if match commit with Some c => fullmatch SHA40 c | None => false end then Ok mg_merged
    else Raise (ValueError (u8 "merge_commit_sha obrigatório e válido quando merged=true"))
  else if bool_decide (is_Some commit)
  then Raise (ValueError "merge_commit_sha deve ser omitido quando merged=false")
  else if bool_decide (reason = None)
  then Raise (ValueError (u8 "reason obrigatório quando merged=false"))
  else Ok mg_blocked.

Definition read_merge (wid expected_head_sha : string) (merged : bool) (correlation_id : string)
  (merge_commit_sha reason : option string) : M World (WorkView.t + Plan) :=
  let expected := lower (strip expected_head_sha) in
  raise_if (negb (fullmatch SHA40 expected)) (ValueError (u8 "expected_head_sha inválido")) ;;
  row ← work_row wid;
  task ← pool_get_task (WorkRun.task_id row);
  raise_if (negb (bool_decide (WorkRun.evidence_state row = ev_verified)) ||
            bool_decide (WorkRun.merge_state row = mg_pending))
    (ConflictError (u8 "evidência verificada obrigatória antes do merge")) ;;
  raise_if (negb (bool_decide (expected = lower (default ""%string (Task.produced_sha task)))) ||
            negb (bool_decide (WorkRun.expected_head_sha row = Some expected)))
    (ConflictError (u8 "expected_head_sha divergente da evidência")) ;;
  let commit := none_if_empty (lower (strip (default ""%string merge_commit_sha))) in
  let reason := none_if_empty (sanitize (strip (default ""%string reason))) in
  next ← lift (merge_outcome merged commit reason);
  if bool_decide (WorkRun.merge_state row = mg_merged) then
    raise_if (negb merged || negb (bool_decide (WorkRun.merge_commit_sha row = commit)))
      (ConflictError "resultado de merge divergente no replay") ;;
    v ← view row; mret (inl v)
  else if bool_decide (WorkRun.merge_state row = mg_blocked) && negb merged then
    raise_if (negb (bool_decide (WorkRun.merge_reason row = reason)))
      (ConflictError "bloqueio de merge divergente no replay") ;;
    v ← view row; mret (inl v)
  else
    stamp ← now_stamp;
    mret (inr (plan_merge wid next commit reason (strip correlation_id) stamp)).

(** ** The operations *)

Definition create_work (repository : string) (issue_number : Z) (request_id correlation_id base_sha : string)
  (priority : Z) (target_branch : option string) (max_attempts : option Z) (merge_policy : string)
  (fencing_required : bool) : M World (WorkView.t * bool) :=
  '(task, stamp) ← read_create repository issue_number request_id correlation_id base_sha priority
                     target_branch max_attempts merge_policy fencing_required;
  created ← commit_create task merge_policy correlation_id stamp;
  v ← get_work (work_id task);
  mret (v, created).

(** A decided request: its answer, or its commit and the row read back. *)
Definition finish (wid : string) (decided : WorkView.t + Plan) : M World WorkView.t :=
  match decided with
  | inl v => mret v
  | inr p => commit p ;; get_work wid
  end.

Definition record_evidence (wid validation_run_id validation_sha evidence_reference : string)
  (independent_readback positive_control negative_control : bool) (correlation_id : string)
  : M World WorkView.t :=
  decided ← read_evidence wid validation_run_id validation_sha evidence_reference
              independent_readback positive_control negative_control correlation_id;
  finish wid decided.

Definition record_merge_result (wid expected_head_sha : string) (merged : bool) (correlation_id : string)
  (merge_commit_sha reason : option string) : M World WorkView.t :=
  decided ← read_merge wid expected_head_sha merged correlation_id merge_commit_sha reason;
  finish wid decided.
End Work.

#[global] Arguments work_id : simpl never.
#[global] Arguments task_dict : simpl never.
#[global] Arguments public_task : simpl never.
