(* ===== verification/WorkInv.v ===== *)
(** The contract of the pool that [WorkOrchestrator] is proved against, the
    machine of interleaved requests, and its invariant: a run reaches its merge
    only through verified evidence on the commit of a completed task. *)
From S2P Require Import Prelude PyStr Clock Names Schema Store StoreRefine Work.
From stdpp Require Import strings relations.

Local Open Scope Z_scope.

(** ** The contract *)

Class TaskPoolLaws {self : Store} {pool : TaskPool} := {
  pool_ok : DB → Prop;
  (** The moves of the pool: its own calls, with any result. *)
  pool_move : World → World → Prop;
  pool_move_ok w w' : pool_move w w' → pool_ok (db w) → pool_ok (db w');
  pool_move_works w w' : pool_move w w' → work_runs (db w') = work_runs (db w);
  pool_move_rows w w' t : pool_move w w' → pool_ok (db w) → t ∈ tasks (db w) →
    ∃ t', t' ∈ tasks (db w') ∧ Task.task_id t' = Task.task_id t ∧
      Task.idempotency_key t' = Task.idempotency_key t;
  pool_move_final w w' t : pool_move w w' → pool_ok (db w) → t ∈ tasks (db w) →
    Task.state t = completed → t ∈ tasks (db w');
  pool_ok_works d l : pool_ok d → pool_ok (d <| work_runs := l |>);
  pool_ok_key d t : pool_ok d → t ∈ tasks d → Task.task_id t = task_id (Task.idempotency_key t);
  pool_enqueue_move r n q c p b m t f w x w' : pool_enqueue r n q c p b m t f w = (x, w') → pool_move w w';
  pool_enqueue_row r n q c p b m t f w task new w' : pool_ok (db w) →
    pool_enqueue r n q c p b m t f w = (Ok (task, new), w') →
    task ∈ tasks (db w') ∧ Task.idempotency_key task = identity r n q;
  pool_get_reads tid w x w' : pool_get_task tid w = (x, w') → w' = w;
  pool_get_row tid w t w' : pool_get_task tid w = (Ok t, w') → t ∈ tasks (db w) ∧ Task.task_id t = tid;
  pool_get_total w t : pool_ok (db w) → t ∈ tasks (db w) → pool_get_task (Task.task_id t) w = (Ok t, w) }.

(** ** Well-formed runs *)

(** The commit that the evidence of a run vouches for. *)
Definition vouched (d : DB) (r : WorkRun.t) (sha : string) : Prop :=
  ∃ t p, t ∈ tasks d ∧ Task.task_id t = WorkRun.task_id r ∧ Task.state t = completed ∧
    Task.produced_sha t = Some p ∧ sha = lower p ∧ fullmatch SHA40 sha = true.

Definition evidence_complete (d : DB) (r : WorkRun.t) : Prop :=
  WorkRun.independent_readback r = true ∧ WorkRun.positive_control r = true ∧
  WorkRun.negative_control r = true ∧
  (∃ run, WorkRun.validation_run_id r = Some run ∧ nonempty run = true) ∧
  (∃ ref, WorkRun.evidence_reference r = Some ref ∧ nonempty ref = true) ∧
  ∃ sha, vouched d r sha ∧ WorkRun.validation_sha r = Some sha ∧ WorkRun.expected_head_sha r = Some sha.

Record work_ok (d : DB) (r : WorkRun.t) : Prop := {
  wk_task : ∃ t, t ∈ tasks d ∧ Task.task_id t = WorkRun.task_id r ∧ work_id t = WorkRun.work_id r;
  wk_policy : WorkRun.merge_policy r ∈ MERGE_POLICIES;
  wk_evidence :
    match WorkRun.evidence_state r with
    | ev_pending => WorkRun.merge_state r = mg_pending
    | ev_verified => WorkRun.merge_state r ≠ mg_pending ∧ evidence_complete d r
    end;
  wk_merge :
    match WorkRun.merge_state r with
    | mg_merged => (∃ c, WorkRun.merge_commit_sha r = Some c ∧ fullmatch SHA40 c = true) ∧
                   is_Some (WorkRun.merged_at r)
    | mg_blocked => WorkRun.merge_commit_sha r = None ∧ WorkRun.merged_at r = None ∧
                    ∃ reason, WorkRun.merge_reason r = Some reason ∧ nonempty reason = true
    | _ => WorkRun.merge_commit_sha r = None ∧ WorkRun.merged_at r = None
    end }.

Section Machine.
Context {self : Store} {pool : TaskPool} {laws : TaskPoolLaws}.

Record WorkInv (d : DB) : Prop := {
  wi_pool : pool_ok d;
  wi_ids : NoDup (WorkRun.work_id <$> work_runs d);
  wi_rows r : r ∈ work_runs d → work_ok d r }.

(** A plan is still good: what its reads saw is stable. *)
Definition plan_ok (d : DB) (p : Plan) : Prop :=
  match p with
  | plan_create task policy _ _ =>
      policy ∈ MERGE_POLICIES ∧ ∃ t, t ∈ tasks d ∧ Task.task_id t = Task.task_id task ∧ work_id t = work_id task
  | plan_evidence wid run_id sha reference _ _ =>
      nonempty run_id = true ∧ nonempty reference = true ∧
      ∃ r, r ∈ work_runs d ∧ WorkRun.work_id r = wid ∧ vouched d r sha
  | plan_merge wid next sha reason _ _ =>
      (∃ r, r ∈ work_runs d ∧ WorkRun.work_id r = wid ∧ WorkRun.evidence_state r = ev_verified) ∧
      match next with
      | mg_merged => ∃ c, sha = Some c ∧ fullmatch SHA40 c = true
      | mg_blocked => sha = None ∧ ∃ x, reason = Some x ∧ nonempty x = true
      | _ => False
      end
  end.

(** ** The machine: the requests in flight with the plans they decided *)

Definition decided (x : res (WorkView.t + Plan)) : list Plan :=
  match x with Ok (inr p) => [p] | _ => [] end.

Inductive WStep : World * list Plan → World * list Plan → Prop :=
  | ws_pool w w' ps : pool_move w w' → WStep (w, ps) (w', ps)
  | ws_create r n q c b p t m policy f w x w' ps :
      read_create r n q c b p t m policy f w = (x, w') →
      WStep (w, ps) (w', match x with Ok (task, stamp) => [plan_create task policy c stamp] | _ => [] end ++ ps)
  | ws_evidence wid run sha reference rb pc nc cid w x w' ps :
      read_evidence wid run sha reference rb pc nc cid w = (x, w') → WStep (w, ps) (w', decided x ++ ps)
  | ws_merge wid sha merged cid mc reason w x w' ps :
      read_merge wid sha merged cid mc reason w = (x, w') → WStep (w, ps) (w', decided x ++ ps)
  | ws_commit w x w' ps p qs : commit p w = (x, w') → WStep (w, ps ++ p :: qs) (w', ps ++ qs)
  (** A request whose process dies. *)
  | ws_lost w ps p qs : WStep (w, ps ++ p :: qs) (w, ps ++ qs).

Definition machine_ok (m : World * list Plan) : Prop :=
  WorkInv (db m.1) ∧ Forall (plan_ok (db m.1)) m.2.
End Machine.

(** ** Stability *)

(** What two databases share for the plans and runs: task rows persist,
    completed rows as they are. *)
Record rows_persist (d d' : DB) : Prop := {
  rp_rows t : t ∈ tasks d → ∃ t', t' ∈ tasks d' ∧ Task.task_id t' = Task.task_id t ∧ work_id t' = work_id t;
  rp_final t : t ∈ tasks d → Task.state t = completed → t ∈ tasks d' }.

Lemma persist_tasks d d' : tasks d' = tasks d → rows_persist d d'.
Proof. intros E. split; rewrite E; eauto. Qed.

Lemma vouched_task d r r' sha : WorkRun.task_id r' = WorkRun.task_id r → vouched d r sha → vouched d r' sha.
Proof. intros E (t & p & H). exists t, p. by rewrite E. Qed.
Lemma vouched_persist d d' r sha : rows_persist d d' → vouched d r sha → vouched d' r sha.
Proof. intros Hp (t & p & Hin & E & Hs & H). exists t, p. split; [by eapply rp_final|done]. Qed.

Lemma work_ok_persist d d' r : rows_persist d d' → work_ok d r → work_ok d' r.
Proof.
  intros Hp [(t & Ht & E1 & E2) H2 H3 H4]. split; [|done| |done].
  - destruct (rp_rows _ _ Hp _ Ht) as (t' & Ht' & E3 & E4). exists t'. split_and!; congruence.
  - destruct (WorkRun.evidence_state r); [done|]. destruct H3 as (Hne & H). split; [done|].
    destruct H as (? & ? & ? & ? & ? & sha & Hv & ?). unfold evidence_complete. split_and!; try done.
    exists sha. split; [by eapply vouched_persist|done].
Qed.

(** Runs persist with their identity, their task and their evidence. *)
Definition runs_persist (d d' : DB) : Prop :=
  ∀ r, r ∈ work_runs d → ∃ r', r' ∈ work_runs d' ∧ WorkRun.work_id r' = WorkRun.work_id r ∧
    WorkRun.task_id r' = WorkRun.task_id r ∧
    (WorkRun.evidence_state r = ev_verified → WorkRun.evidence_state r' = ev_verified).

Section Invariant.
Context {self : Store} {pool : TaskPool} {laws : TaskPoolLaws}.

Lemma plan_ok_persist d d' p : rows_persist d d' → runs_persist d d' → plan_ok d p → plan_ok d' p.
Proof.
  intros Hp Hr. destruct p as [task policy cid stamp|wid run sha ref cid stamp|wid next sha reason cid stamp]; cbn.
  - intros (Hpol & t & Ht & E1 & E2). split; [done|].
    destruct (rp_rows _ _ Hp _ Ht) as (t' & Ht' & E3 & E4). exists t'. split_and!; congruence.
  - intros (H1 & H2 & r & Hin & E & Hv). do 2 (split; [done|]).
    destruct (Hr _ Hin) as (r' & Hin' & E1 & E2 & _). exists r'. split_and!; [done|congruence|].
    eapply vouched_task; [exact E2|]. by eapply vouched_persist.
  - intros ((r & Hin & E & Hv) & H). split; [|done].
    destruct (Hr _ Hin) as (r' & Hin' & E1 & E2 & Hev). exists r'. split_and!; [done|congruence|auto].
Qed.

Lemma runs_same d d' : work_runs d' = work_runs d → runs_persist d d'.
Proof. intros E r Hr. exists r. by rewrite E. Qed.

Lemma move_persist w w' : pool_move w w' → pool_ok (db w) → rows_persist (db w) (db w').
Proof.
  intros Hm Hok. split.
  - intros t Ht. destruct (pool_move_rows _ _ _ Hm Hok Ht) as (t' & H1 & H2 & H3). exists t'.
    unfold work_id. by rewrite H3.
  - intros t Ht Hs. by eapply pool_move_final.
Qed.

Lemma machine_move w w' ps : pool_move w w' → machine_ok (w, ps) → machine_ok (w', ps).
Proof.
  intros Hm [[Hok Hn Hrows] Hps]. cbn in *. pose proof (move_persist _ _ Hm Hok) as Hp.
  pose proof (pool_move_works _ _ Hm) as E. split.
  - split; cbn; rewrite ?E; [by eapply pool_move_ok|done|]. intros r Hr. by eapply work_ok_persist, Hrows.
  - eapply Forall_impl; [exact Hps|]. intros p. apply plan_ok_persist; [done|by apply runs_same].
Qed.

(** A read leaves the database; its plan is good. *)
Lemma machine_read w w' ps qs :
  db w' = db w → Forall (plan_ok (db w)) qs → machine_ok (w, ps) → machine_ok (w', qs ++ ps).
Proof.
  intros E Hq [Hi Hps]. split; cbn in *; rewrite E; [done|]. by apply Forall_app.
Qed.

Lemma work_row_ok wid w r w' : work_row wid w = (Ok r, w') →
  find_work (db w) wid = Some r ∧ w' = w.
Proof. unfold work_row. intros H. minv H. injection Hr as <- <-. done. Qed.

Lemma find_work_in d wid r : find_work d wid = Some r → r ∈ work_runs d ∧ WorkRun.work_id r = wid.
Proof. intros H. apply first_match in H as [Hin H]. by apply bool_decide_eq_true in H. Qed.

Lemma find_work_row d r : NoDup (WorkRun.work_id <$> work_runs d) → r ∈ work_runs d →
  find_work d (WorkRun.work_id r) = Some r.
Proof.
  intros Hn Hr. unfold find_work. induction (work_runs d) as [|x l IH]; [by apply not_elem_of_nil in Hr|].
  cbn in *. apply NoDup_cons in Hn as [Hnot Hn]. unfold work_is at 1. case_bool_decide as E.
  - apply elem_of_cons in Hr as [->|Hr]; [done|]. exfalso. apply Hnot. rewrite E. by apply list_elem_of_fmap_2.
  - apply elem_of_cons in Hr as [->|Hr]; [done|]. by apply IH.
Qed.

(** *** The reading halves *)

Lemma reads_pool_get tid : reads (pool_get_task tid).
Proof. intros w x w' H. by rewrite (pool_get_reads _ _ _ _ H). Qed.
Lemma reads_work_row wid : reads (work_row wid).
Proof. unfold work_row. auto 10 with reads. Qed.
Lemma reads_view row : reads (view row).
Proof. unfold view. apply reads_bind; [apply reads_pool_get|intros ?; apply reads_ret]. Qed.

Ltac work_reads :=
  cbv zeta;
  repeat lazymatch goal with
  | |- ∀ _, _ => intro
  | |- reads (mbind _ _) => apply reads_bind
  | |- reads (if _ then _ else _) => apply reads_if
  | |- reads (pool_get_task _) => apply reads_pool_get
  | |- reads (work_row _) => apply reads_work_row
  | |- reads (view _) => apply reads_view
  | |- reads _ => solve [auto with reads]
  end.

Lemma reads_evidence wid run sha ref rb pc nc cid : reads (read_evidence wid run sha ref rb pc nc cid).
Proof. unfold read_evidence. work_reads. Qed.
Lemma reads_merge wid sha merged cid mc reason : reads (read_merge wid sha merged cid mc reason).
Proof. unfold read_merge. work_reads. Qed.

Ltac bools :=
  repeat match goal with
  | H : negb _ = false |- _ => apply negb_false_iff in H
  | H : _ || _ = false |- _ => apply orb_false_iff in H as [? ?]
  | H : _ && _ = true |- _ => apply andb_true_iff in H as [? ?]
  | H : bool_decide _ = true |- _ => apply bool_decide_eq_true in H
  | H : bool_decide _ = false |- _ => apply bool_decide_eq_false in H
  end.

Lemma none_if_empty_some s x : none_if_empty s = Some x → x = s ∧ nonempty x = true.
Proof. unfold none_if_empty. destruct (nonempty s) eqn:E; [|done]. by intros [= <-]. Qed.

Lemma plan_of_evidence wid run sha ref rb pc nc cid w x w' :
  read_evidence wid run sha ref rb pc nc cid w = (x, w') → Forall (plan_ok (db w)) (decided x).
Proof.
  intros H. destruct x as [[v|p]|e]; cbn; [constructor| |constructor].
  unfold read_evidence in H. cbv zeta in H. minv H. bools. subst.
  match goal with H : work_row _ _ = _ |- _ => apply work_row_ok in H as [[Hrow <-]%find_work_in ->] end.
  match goal with H : pool_get_task _ _ = _ |- _ =>
    pose proof (pool_get_reads _ _ _ _ H) as ->; apply pool_get_row in H as [Ht Eid] end.
  match goal with H : (if _ then _ else _) _ = _ |- _ => rename H into Hend end.
  case_bool_decide as Ev; sinv Hend; [done|]. simplify_eq.
  repeat constructor; try done. match goal with H : ?r ∈ work_runs _ |- _ => exists r end.
  split; [done|]. split; [done|].
  match goal with H : truthy (Task.produced_sha ?t) = true |- _ =>
    destruct (Task.produced_sha t) as [q|] eqn:Eq; [|done]; exists t, q end.
  cbn in *. split_and!; try done; congruence.
Qed.

Lemma merge_outcome_ok merged c reason next :
  merge_outcome merged c reason = Ok next →
  match next with
  | mg_merged => merged = true ∧ ∃ s, c = Some s ∧ fullmatch SHA40 s = true
  | mg_blocked => merged = false ∧ c = None ∧ is_Some reason
  | _ => False
  end.
Proof.
  unfold merge_outcome. destruct merged.
  - destruct c as [s|]; [|done]. destruct (fullmatch SHA40 s) eqn:E; [|done]. intros [= <-]. eauto.
  - case_bool_decide as E; [done|]. case_bool_decide as E2; [done|]. intros [= <-].
    split; [done|]. split; [by apply eq_None_not_Some|]. by apply not_eq_None_Some.
Qed.

Lemma plan_of_merge wid sha merged cid mc reason w x w' :
  read_merge wid sha merged cid mc reason w = (x, w') → Forall (plan_ok (db w)) (decided x).
Proof.
  intros H. destruct x as [[v|p]|e]; cbn; [constructor| |constructor].
  unfold read_merge in H. cbv zeta in H. minv H. bools. subst.
  match goal with H : work_row _ _ = _ |- _ => apply work_row_ok in H as [[Hrow <-]%find_work_in ->] end.
  match goal with H : merge_outcome _ _ _ = _ |- _ => apply merge_outcome_ok in H as Hout end.
  match goal with H : (if _ then _ else _) _ = _ |- _ => rename H into Hend end.
  match goal with H : ?r ∈ work_runs _ |- _ => rename r into row end.
  match type of Hout with match ?n with _ => _ end => rename n into next end.
  assert (p = plan_merge (WorkRun.work_id row) next (none_if_empty (lower (strip (default "" mc)%string)))
    (none_if_empty (sanitize (strip (default "" reason)%string))) (strip cid) (match p with
      plan_merge _ _ _ _ _ s => s | _ => "" end)) as ->.
  { repeat case_bool_decide; cbn in Hend; repeat case_match; sinv Hend; simplify_eq; done. }
  constructor; [|done]. cbn. split; [eauto|]. destruct next; try done.
  - destruct Hout as (_ & -> & y & E). split; [done|]. exists y. split; [done|].
    by apply none_if_empty_some in E as [_ ?].
  - by destruct Hout as (_ & ?).
Qed.

Lemma plan_of_create r n q c b p t m policy f w task stamp w' :
  pool_ok (db w) → read_create r n q c b p t m policy f w = (Ok (task, stamp), w') →
  plan_ok (db w') (plan_create task policy c stamp) ∧ Task.idempotency_key task = identity r n q ∧
  task ∈ tasks (db w').
Proof.
  intros Hok H. unfold read_create in H. apply bind_ok in H as ([] & w1 & Hp & H).
  apply raise_if_ok in Hp as [Hp <-]. bools. apply bind_ok in H as ([u new] & w1 & He & H). sinv H. simplify_eq.
  apply pool_enqueue_row in He as [Hin Ek]; [|done]. cbn. eauto 10.
Qed.

Lemma moves_create r n q c b p t m policy f w x w' :
  read_create r n q c b p t m policy f w = (x, w') →
  (db w' = db w ∧ x = Raise (ValueError (u8 "merge_policy inválida"))) ∨
  ∃ w1, pool_move w w1 ∧ db w' = db w1.
Proof.
  unfold read_create, raise_if, mbind at 1, M_bind at 1. destruct (negb _); [intros [= <- <-]; by left|].
  unfold mbind at 1, M_bind at 1. intros H. right.
  destruct (pool_enqueue _ _ _ _ _ _ _ _ _ _) as [[[u new]|e] w1] eqn:E; exists w1;
    (split; [by eapply pool_enqueue_move|]).
  - by injection H as <- <-.
  - by injection H as <- <-.
Qed.

(** *** The committing halves *)

Lemma commit_create_run task policy cid stamp w x w' :
  commit_create task policy cid stamp w = (x, w') →
  db w' = db w ∨
  (find_work (db w) (work_id task) = None ∧
   db w' = db w <| work_runs := work_runs (db w) ++ [new_work (work_id task) (Task.task_id task) policy cid stamp] |>).
Proof.
  unfold commit_create, tx. cbv zeta. rewrite bind_query.
  destruct (find_work (db w) (work_id task)) as [e|] eqn:E.
  - unfold raise_if, mbind, M_bind. destruct (_ || _); intros [= <- <-]; by left.
  - unfold exec, mbind, M_bind, insert_work.
    destruct (existsb _ _); [intros [= <- <-]; by left|].
    destruct (existsb _ _); intros [= <- <-]; [by left|by right].
Qed.

Lemma update_work_run guard f w x w' :
  update_work guard f w = (x, w') →
  db w' = db w <| work_runs := update_where guard f (work_runs (db w)) |>.
Proof. by intros [= <- <-]. Qed.

(** An update of runs that keeps their identity and their evidence. *)
Lemma machine_update guard f w w' ps :
  machine_ok (w, ps) → db w' = db w <| work_runs := update_where guard f (work_runs (db w)) |> →
  (∀ r, WorkRun.work_id (f r) = WorkRun.work_id r ∧ WorkRun.task_id (f r) = WorkRun.task_id r ∧
     (WorkRun.evidence_state r = ev_verified → WorkRun.evidence_state (f r) = ev_verified)) →
  (∀ r, r ∈ work_runs (db w) → guard r = true → work_ok (db w) (f r)) →
  machine_ok (w', ps).
Proof.
  intros [[Hok Hn Hrows] Hps] E Hf Hg. cbn in *.
  assert (rows_persist (db w) (db w')) as Hp by (apply persist_tasks; by rewrite E).
  split; cbn.
  - split; rewrite ?E.
    + by apply pool_ok_works.
    + cbn. rewrite update_fields; [done|]. intros r. apply Hf.
    + cbn. intros r Hr. apply elem_of_update in Hr as (y & Hy & ->). rewrite <- E.
      eapply work_ok_persist; [exact Hp|]. destruct (guard y) eqn:Eg; auto.
  - eapply Forall_impl; [exact Hps|]. intros p. apply plan_ok_persist; [done|].
    intros r Hr. rewrite E. cbn. exists (if guard r then f r else r). split; [apply elem_of_update; eauto|].
    destruct (guard r); [|done]. destruct (Hf r) as (? & ? & ?). auto.
Qed.

Lemma machine_create task policy cid stamp w x w' ps :
  machine_ok (w, ps) → plan_ok (db w) (plan_create task policy cid stamp) →
  commit_create task policy cid stamp w = (x, w') → machine_ok (w', ps).
Proof.
  intros [[Hok Hn Hrows] Hps] (Hpol & t & Ht & E1 & E2) H. cbn in *.
  apply commit_create_run in H as [E|[Hnone E]]; [by split; cbn; rewrite E; [split|]|].
  assert (rows_persist (db w) (db w')) as Hp by (apply persist_tasks; by rewrite E).
  split; cbn.
  - split; rewrite ?E.
    + by apply pool_ok_works.
    + cbn. rewrite fmap_app. apply NoDup_app. split; [done|]. split; [|apply NoDup_singleton].
      intros i Hi Hin. cbn in Hin. apply list_elem_of_singleton in Hin as ->.
      apply list_elem_of_fmap in Hi as (r & Er & Hr).
      pose proof (first_none _ _ _ Hnone Hr) as Hne. unfold work_is in Hne.
      apply bool_decide_eq_false in Hne. congruence.
    + cbn. intros r [Hr|Hr]%elem_of_app; rewrite <- E; eapply work_ok_persist; try exact Hp; [by apply Hrows|].
      apply list_elem_of_singleton in Hr as ->. split; [|done|done|done]. exists t. done.
  - eapply Forall_impl; [exact Hps|]. intros p. apply plan_ok_persist; [done|].
    intros r Hr. rewrite E. cbn. exists r. split; [apply elem_of_app; by left|done].
Qed.

(** Evidence and merge results as they are written. *)
Lemma verified_ok d r run sha ref cid stamp :
  work_ok d r → WorkRun.evidence_state r = ev_pending → nonempty run = true → nonempty ref = true →
  vouched d r sha → work_ok d (verified_with run sha ref cid stamp r).
Proof.
  intros [H1 H2 H3 H4] Ev Hrun Href Hv. rewrite Ev in H3. rewrite H3 in H4. split; try done.
  cbn. split; [done|]. unfold evidence_complete. cbn. split_and!; eauto.
Qed.

Lemma merge_recorded_ok d r next sha reason cid stamp :
  work_ok d r → WorkRun.evidence_state r = ev_verified →
  match next with
  | mg_merged => ∃ c, sha = Some c ∧ fullmatch SHA40 c = true
  | mg_blocked => sha = None ∧ ∃ x, reason = Some x ∧ nonempty x = true
  | _ => False
  end → work_ok d (merge_recorded next sha reason cid stamp r).
Proof.
  intros [H1 H2 H3 H4] Ev Hnext. rewrite Ev in H3. destruct H3 as [_ H3].
  split; [done..| |]; cbn.
  - rewrite Ev. split; [by destruct next|done].
  - destruct next; [done|done|by destruct Hnext as [-> ?]|split; [exact Hnext|eauto]].
Qed.

Lemma machine_commit w x w' ps p qs :
  machine_ok (w, ps ++ p :: qs) → commit p w = (x, w') → machine_ok (w', ps ++ qs).
Proof.
  intros [Hi Hps] H. cbn in *. apply Forall_app in Hps as [H1 [Hp H2]%Forall_cons].
  assert (machine_ok (w, ps ++ qs)) as Hm by (split; [done|by apply Forall_app]).
  destruct p as [task policy cid stamp|wid run sha ref cid stamp|wid next sha reason cid stamp]; cbn [commit] in H.
  - unfold mbind, M_bind in H. destruct (commit_create _ _ _ _ _) as [y w1] eqn:E.
    assert (w' = w1) as -> by (destruct y; by injection H as _ <-). by eapply machine_create.
  - apply update_work_run in H. destruct Hp as (Hrun & Href & r & Hr & Er & Hv).
    eapply machine_update; [done|exact H| |].
    + intros y. done.
    + intros y Hy [Hw%bool_decide_eq_true Hev%bool_decide_eq_true]%andb_true_iff.
      apply verified_ok; try done; [by apply (wi_rows _ Hi)|].
      assert (y = r) as ->; [|done]. pose proof (find_work_row _ _ (wi_ids _ Hi) Hy) as F.
      rewrite Hw, <- Er, (find_work_row _ _ (wi_ids _ Hi) Hr) in F. by injection F.
  - apply update_work_run in H. destruct Hp as ((r & Hr & Er & Hv) & Hnext).
    eapply machine_update; [done|exact H| |].
    + intros y. done.
    + intros y Hy Hw%bool_decide_eq_true. apply merge_recorded_ok; try done; [by apply (wi_rows _ Hi)|].
      assert (y = r) as ->; [|done]. pose proof (find_work_row _ _ (wi_ids _ Hi) Hy) as F.
      rewrite Hw, <- Er, (find_work_row _ _ (wi_ids _ Hi) Hr) in F. by injection F.
Qed.

Lemma machine_db w w' ps : db w' = db w → machine_ok (w, ps) → machine_ok (w', ps).
Proof. intros E [H1 H2]. split; cbn in *; by rewrite E. Qed.

Lemma machine_step m m' : WStep m m' → machine_ok m → machine_ok m'.
Proof.
  destruct 1 as [w w' ps H|r n q c b p t m policy f w x w' ps H|wid run sha ref rb pc nc cid w x w' ps H
    |wid sha merged cid mc reason w x w' ps H|w x w' ps p qs H|w ps p qs]; intros Hm.
  - by eapply machine_move.
  - pose proof (moves_create _ _ _ _ _ _ _ _ _ _ _ _ _ H) as [[E ->]|(w1 & Hmv & E)].
    + by eapply (machine_db w).
    + assert (machine_ok (w', ps)) as Hm' by (eapply machine_db; [exact E|]; by eapply machine_move).
      destruct x as [[task stamp]|e]; [|done]. apply plan_of_create in H as (Hp & _); [|by apply Hm].
      destruct Hm' as [Hi Hps]. split; [done|]. by constructor.
  - eapply (machine_read w); [by eapply reads_evidence|by eapply plan_of_evidence|done].
  - eapply (machine_read w); [by eapply reads_merge|by eapply plan_of_merge|done].
  - by eapply machine_commit.
  - destruct Hm as [Hi Hps]. split; [done|]. cbn in *.
    apply Forall_app in Hps as [H1 [_ H2]%Forall_cons]. by apply Forall_app.
Qed.

Lemma machine_steps m m' : rtc WStep m m' → machine_ok m → machine_ok m'.
Proof. induction 1 as [|m m1 m2 Hs _ IH]; [done|]. intros Hm. by eapply IH, machine_step. Qed.
End Invariant.
