(* ===== verification/WorkPool.v ===== *)
(** The store implements the pool that [WorkOrchestrator] is proved against:
    no operation of the store touches [work_runs], task rows persist, and a
    completed row is final. *)
From S2P Require Import Prelude PyStr Clock Names Schema Store Claim LeaseOps Effects.
From S2P Require Import Lifecycle StoreInv StoreRefine StoreProps StoreLive Work WorkInv.
From stdpp Require Import strings relations.

Local Open Scope Z_scope.

#[export] Instance store_pool {self : Store} : TaskPool := {|
  pool_enqueue := fun r n q c p b m t f => enqueue_task r n q c p b m t f;
  pool_get_task := fun tid => get_task tid |}.

(** ** Programs that leave [work_runs] alone *)

Definition keeps {A} (m : M World A) : Prop :=
  ∀ w r w', m w = (r, w') → work_runs (db w') = work_runs (db w).

Section Keeps.
Context {self : Store}.

Lemma keeps_reads {A} (m : M World A) : reads m → keeps m.
Proof. intros Hm w r w' E. by rewrite (Hm _ _ _ E). Qed.
Lemma keeps_bind {A B} (m : M World A) (f : A → M World B) :
  keeps m → (∀ a, keeps (f a)) → keeps (x ← m; f x).
Proof.
  intros Hm Hf w r w'. unfold mbind, M_bind. destruct (m w) as [[a|e] w1] eqn:E.
  - intros Hr. rewrite (Hf a _ _ _ Hr). by eapply Hm.
  - intros [= <- <-]. by eapply Hm.
Qed.
Lemma keeps_tx {A} (body : DB → M World A) : (∀ c, keeps (body c)) → keeps (tx body).
Proof.
  intros Hb w r w'. unfold tx. destruct (body (db w) w) as [[a|e] w1] eqn:E; intros [= <- <-]; [|done].
  by eapply Hb.
Qed.
Lemma keeps_exec (f : DB → res DB) :
  (∀ d d', f d = Ok d' → work_runs d' = work_runs d) → keeps (exec f).
Proof.
  intros Hf w r w'. unfold exec. destruct (f (db w)) as [d|e] eqn:E; intros [= <- <-]; [|done].
  by eapply Hf.
Qed.
Lemma keeps_exec_count (f : DB → res (Z * DB)) :
  (∀ d n d', f d = Ok (n, d') → work_runs d' = work_runs d) → keeps (exec_count f).
Proof.
  intros Hf w r w'. unfold exec_count. destruct (f (db w)) as [[n d]|e] eqn:E; intros [= <- <-]; [|done].
  by eapply Hf.
Qed.
Lemma keeps_update tid guard f : keeps (exec_count (update_task tid guard f)).
Proof.
  apply keeps_exec_count. intros d n d'. unfold update_task. destruct (first _ _); [|by intros [= <- <-]].
  destruct (fenced_claim_refused _ _); [done|]. destruct (index_check _ _); cbn; [|done]. by intros [= <- <-].
Qed.
Lemma keeps_each {A} (l : list A) body : (∀ x, keeps (body x)) → keeps (for_each l body).
Proof.
  intros Hb. induction l as [|x l IH]; cbn; [apply keeps_reads, reads_ret|].
  apply keeps_bind; [done|]. by intros _.
Qed.
End Keeps.

Ltac keeps_tac :=
  cbv zeta;
  repeat lazymatch goal with
  | |- ∀ _, _ => intro
  | |- keeps (tx _) => apply keeps_tx; intro
  | |- keeps (for_each _ _) => apply keeps_each; intro
  | |- keeps (mbind _ _) => first [apply keeps_reads; solve [auto with reads] | apply keeps_bind; [|intro]]
  | |- keeps (exec_count (update_task _ _ _)) => apply keeps_update
  | |- keeps (match ?x with _ => _ end) => destruct x
  | |- keeps (exec _) =>
      apply keeps_exec; intros ? ?;
      unfold insert_task, insert_attempt, insert_checkpoint, insert_reconciliation, insert_affinity, index_check;
      repeat case_match; cbn; first [done | by intros [= <-]]
  | |- keeps (set_task _ _) => unfold set_task
  | |- keeps (end_attempt _ _ _) => unfold end_attempt
  | |- keeps (quarantine_row _ _ _) => unfold quarantine_row
  | |- keeps (require_resolved_effects _) => apply keeps_reads, reads_resolved
  | |- keeps (ensure_repository_lane _) => unfold ensure_repository_lane
  | |- keeps _ => first [ apply keeps_reads; solve [auto 10 with reads] | progress cbn beta iota ]
  end.

Section Operations.
Context {self : Store}.

Lemma keeps_recover : keeps recover.
Proof. unfold recover, recover_row. keeps_tac. Qed.
Lemma keeps_stalled_row stamp ws row : keeps (recover_stalled_row stamp ws row).
Proof.
  unfold recover_stalled_row. keeps_tac.
Qed.
Lemma keeps_stalled : keeps recover_stalled.
Proof.
  unfold recover_stalled. keeps_tac. generalize (StallCounts.mk 0 0 0) as acc.
  match goal with |- ∀ acc, keeps (stalled_loop _ _ ?l acc) => induction l as [|x l IH]; intros acc; cbn end.
  - apply keeps_reads, reads_ret.
  - apply keeps_bind; [apply keeps_stalled_row|]. intros k. apply IH.
Qed.
Lemma keeps_enqueue r n q c p b m t f : keeps (enqueue_task r n q c p b m t f).
Proof. unfold enqueue_task. keeps_tac. Qed.
Lemma keeps_claim i r c s o f : keeps (claim_task i r c s o f).
Proof.
  unfold claim_task, claim_body, assign_lease. pose proof keeps_recover. pose proof keeps_stalled.
  keeps_tac; try solve [done | apply keeps_reads, reads_ready].
Qed.

Lemma keeps_call o : keeps (call o).
Proof.
  pose proof keeps_recover. pose proof keeps_stalled.
  destruct o; cbn [call]; (apply keeps_bind; [|intros _; apply keeps_reads, reads_ret]).
  - unfold enable_fenced_cutover, fenced_cutover_status. keeps_tac.
  - unfold register_worker, upsert_worker. keeps_tac.
  - unfold heartbeat_worker. keeps_tac.
  - unfold configure_repository. keeps_tac.
  - unfold replace_worker_affinities. keeps_tac.
  - apply keeps_enqueue.
  - apply keeps_claim.
  - unfold renew_lease. keeps_tac; try apply keeps_reads, reads_check_lease.
  - unfold start_task. keeps_tac; try apply keeps_reads, reads_check_lease.
  - unfold submit_for_validation. keeps_tac; try apply keeps_reads, reads_check_lease.
  - unfold complete_task. keeps_tac; try apply keeps_reads, reads_check_lease.
  - unfold fail_task. keeps_tac; try apply keeps_reads, reads_check_lease.
  - unfold block_task. keeps_tac; try apply keeps_reads, reads_check_lease.
  - unfold requeue_blocked. keeps_tac.
  - unfold record_checkpoint, checkpoint_body. keeps_tac; try apply keeps_reads, reads_check_lease.
  - unfold reconcile_effect, reconcile_effect_body. keeps_tac.
  - unfold recover_expired_leases. keeps_tac; done.
  - unfold recover_stalled_tasks. keeps_tac; done.
  - unfold Store.reconcile. keeps_tac; done.
Qed.
End Operations.

(** ** The contract *)

Section Contract.
Context {self : Store} {Hid : Uuids}.

Lemma row_forward d d' t :
  rtc Step d d' → Inv d → t ∈ tasks d → ∃ t', t' ∈ tasks d' ∧ same_identity t t'.
Proof.
  intros Hs Hi Ht. pose proof (find_task_row d t (rows_ids d (inv_rows d Hi)) Ht) as Hf.
  destruct (find_forward _ _ _ _ Hs Hi Hf) as (t' & Hf' & Hsame & _). exists t'. split; [|done].
  by eapply find_task_in.
Qed.

(** A move of the pool: a read, or a call of one of its operations. *)
Definition pool_moves (w w' : World) : Prop := db w' = db w ∨ ∃ o, db w' = db (run o w).

Lemma pool_moves_steps w w' : pool_moves w w' → Inv (db w) → rtc Step (db w) (db w').
Proof. intros [->|[o ->]] Hi; [apply rtc_refl|by apply run_steps]. Qed.

#[export] Program Instance store_pool_laws : TaskPoolLaws := {|
  pool_ok := Inv;
  pool_move := pool_moves |}.
Next Obligation. intros w w' Hm Hi. eapply inv_steps; [by apply pool_moves_steps|done]. Qed.
Next Obligation.
  intros w w' [->|[o ->]]; [done|]. unfold run. destruct (call o w) as [x v] eqn:E. by eapply keeps_call.
Qed.
Next Obligation.
  intros w w' t Hm Hi Ht. destruct (row_forward _ _ t (pool_moves_steps _ _ Hm Hi) Hi Ht) as (t' & Hin & Hsame).
  exists t'. split; [done|]. split; apply Hsame.
Qed.
Next Obligation.
  intros w w' t Hm Hi Ht Hs. eapply finished_steps; [by apply pool_moves_steps|done|done|by left].
Qed.
Next Obligation.
  intros d l [H1 H2 H3 H4 H5]. split.
  - by destruct H1.
  - by destruct H2.
  - by destruct H3.
  - by destruct H4.
  - by destruct H5.
Qed.
Next Obligation. intros d t Hi Ht. by apply (wf_identity t), (rows_wf d (inv_rows d Hi)). Qed.
Next Obligation.
  intros r n q c b p m t f w x w' H. right. exists (op_enqueue r n q c b p m t f).
  unfold run. cbn [call]. unfold mbind, M_bind. cbn in H. rewrite H. by destruct x.
Qed.
Next Obligation.
  intros r n q c b p m t f w task new w' Hi H. cbn in H.
  by destruct (enqueue_returned _ _ _ _ _ _ _ _ _ _ _ _ _ Hi H) as (Hin & Hkey & _).
Qed.
Next Obligation. intros tid w x w' H. cbn in H. unfold get_task in H. rewrite bind_query in H. by destruct (find_task _ _); injection H. Qed.
Next Obligation.
  intros tid w t w' H. cbn in H. unfold get_task in H. rewrite bind_query in H.
  apply of_option_ok in H as [H _]. by apply find_task_in.
Qed.
Next Obligation.
  intros w t Hi Ht. cbn. unfold get_task. rewrite bind_query.
  by rewrite (find_task_row _ _ (rows_ids _ (inv_rows _ Hi)) Ht).
Qed.
End Contract.
