(* ===== verification/WorkProps.v ===== *)
(** Properties of [WorkOrchestrator] over the store: the gate before a merge,
    the immutability of evidence, and the replay of its requests. *)
From S2P Require Import Prelude PyStr Clock Names Schema Store Claim Lifecycle StoreInv StoreRefine.
From S2P Require Import Scenario Work WorkInv WorkPool.
From stdpp Require Import strings relations.

Local Open Scope Z_scope.

(** ** The operations are schedules of the machine *)

Section Schedules.
Context {self : Store} {pool : TaskPool} {laws : TaskPoolLaws}.

Lemma view_world row w x w' : view row w = (x, w') → w' = w.
Proof.
  unfold view, mbind, M_bind. destruct (pool_get_task _ w) as [[t|e] w1] eqn:E;
    pose proof (pool_get_reads _ _ _ _ E) as ->; by intros [= _ <-].
Qed.
Lemma work_row_run wid w :
  work_row wid w = (match find_work (db w) wid with
                    | Some r => Ok r | None => Raise (NotFoundError (u8 "work não encontrado: " ++ wid)) end, w).
Proof. unfold work_row. rewrite bind_query. by destruct (find_work (db w) wid). Qed.
Lemma get_work_world wid w x w' : get_work wid w = (x, w') → w' = w.
Proof.
  unfold get_work, mbind, M_bind. rewrite work_row_run.
  destruct (find_work (db w) wid); [apply view_world|by intros [= _ <-]].
Qed.

Lemma schedule_finish wid x w w' r : finish wid x w = (r, w') →
  rtc WStep (w, decided (Ok x)) (w', []).
Proof.
  destruct x as [v|p]; cbn.
  - intros [= <- <-]. apply rtc_refl.
  - unfold mbind, M_bind. destruct (commit p w) as [y w1] eqn:E. intros H. apply rtc_once.
    assert (w' = w1) as ->.
    { destruct y; [by eapply get_work_world|by injection H]. }
    by apply (ws_commit _ _ _ [] p []) in E.
Qed.

Lemma schedule_evidence wid run sha ref rb pc nc cid w :
  rtc WStep (w, []) ((record_evidence wid run sha ref rb pc nc cid w).2, []).
Proof.
  unfold record_evidence, mbind, M_bind. destruct (read_evidence _ _ _ _ _ _ _ _ w) as [x w1] eqn:E.
  eapply rtc_l; [by eapply ws_evidence|]. rewrite app_nil_r. destruct x as [x|e]; [|apply rtc_refl].
  destruct (finish wid x w1) as [r w2] eqn:F. by eapply schedule_finish.
Qed.
Lemma schedule_merge wid sha merged cid mc reason w :
  rtc WStep (w, []) ((record_merge_result wid sha merged cid mc reason w).2, []).
Proof.
  unfold record_merge_result, mbind, M_bind. destruct (read_merge _ _ _ _ _ _ w) as [x w1] eqn:E.
  eapply rtc_l; [by eapply ws_merge|]. rewrite app_nil_r. destruct x as [x|e]; [|apply rtc_refl].
  destruct (finish wid x w1) as [r w2] eqn:F. by eapply schedule_finish.
Qed.
Lemma schedule_create r n q c b p t m policy f w :
  rtc WStep (w, []) ((create_work r n q c b p t m policy f w).2, []).
Proof.
  unfold create_work, mbind, M_bind. destruct (read_create _ _ _ _ _ _ _ _ _ _ w) as [x w1] eqn:E.
  eapply rtc_l; [by eapply ws_create|]. destruct x as [[task stamp]|e]; [|apply rtc_refl].
  destruct (commit_create task policy c stamp w1) as [y w2] eqn:F. cbn [app].
  assert (commit (plan_create task policy c stamp) w1 = ((match y with Ok _ => Ok tt | Raise e => Raise e end), w2)) as G.
  { cbn. unfold mbind, M_bind. rewrite F. by destruct y. }
  eapply rtc_l; [exact (ws_commit _ _ _ [] _ [] G)|].
  destruct y as [created|e]; [|apply rtc_refl].
  destruct (get_work (work_id task) w2) as [z w3] eqn:K. rewrite (get_work_world _ _ _ _ K).
  destruct z; apply rtc_refl.
Qed.
End Schedules.

(** ** Evidence does not change *)

Definition same_proof (r r' : WorkRun.t) : Prop :=
  WorkRun.work_id r' = WorkRun.work_id r ∧ WorkRun.task_id r' = WorkRun.task_id r ∧
  WorkRun.evidence_state r' = WorkRun.evidence_state r ∧
  WorkRun.validation_run_id r' = WorkRun.validation_run_id r ∧
  WorkRun.validation_sha r' = WorkRun.validation_sha r ∧
  WorkRun.evidence_reference r' = WorkRun.evidence_reference r ∧
  WorkRun.expected_head_sha r' = WorkRun.expected_head_sha r.

Section Evidence.
Context {self : Store} {pool : TaskPool} {laws : TaskPoolLaws}.

Lemma update_proof guard f w w' r :
  db w' = db w <| work_runs := update_where guard f (work_runs (db w)) |> →
  (guard r = true → same_proof r (f r)) → r ∈ work_runs (db w) →
  ∃ r', r' ∈ work_runs (db w') ∧ same_proof r r'.
Proof.
  intros E Hf Hr. rewrite E. cbn. exists (if guard r then f r else r).
  split; [apply elem_of_update; eauto|]. destruct (guard r); [by apply Hf|done].
Qed.

Lemma step_proof m m' r :
  WStep m m' → r ∈ work_runs (db m.1) → WorkRun.evidence_state r = ev_verified →
  ∃ r', r' ∈ work_runs (db m'.1) ∧ same_proof r r'.
Proof.
  assert (∀ w w', work_runs (db w') = work_runs (db w) → r ∈ work_runs (db w) →
    ∃ r', r' ∈ work_runs (db w') ∧ same_proof r r') as Hsame.
  { intros w w' E Hr. exists r. by rewrite E. }
  destruct 1 as [w w' ps H|? n q c b p t m policy f w x w' ps H|? ? ? ? ? ? ? ? w x w' ps H
    |? ? ? ? ? ? w x w' ps H|w x w' ps p qs H|w ps p qs]; cbn; intros Hr Hev.
  - by eapply Hsame; [apply pool_move_works|].
  - apply moves_create in H as [[E _]|(w1 & Hm & E)]; (eapply (Hsame w); [|done]); rewrite E; [done|].
    by apply pool_move_works.
  - apply (Hsame w); [by rewrite (reads_evidence _ _ _ _ _ _ _ _ _ _ _ H)|done].
  - apply (Hsame w); [by rewrite (reads_merge _ _ _ _ _ _ _ _ _ H)|done].
  - destruct p as [task policy cid stamp|wid run sha ref cid stamp|wid next sha reason cid stamp]; cbn in H.
    + unfold mbind, M_bind in H. destruct (commit_create _ _ _ _ _) as [y w1] eqn:E.
      assert (w' = w1) as -> by (destruct y; by injection H as _ <-).
      apply commit_create_run in E as [E|[_ E]]; rewrite E; [by exists r|].
      exists r. split; [cbn; apply elem_of_app; by left|done].
    + apply update_work_run in H. eapply update_proof; [exact H| |done].
      intros [_ Hp%bool_decide_eq_true]%andb_true_iff. congruence.
    + apply update_work_run in H. by eapply update_proof; [exact H| |].
  - by exists r.
Qed.

Lemma steps_proof m m' r :
  rtc WStep m m' → r ∈ work_runs (db m.1) → WorkRun.evidence_state r = ev_verified →
  ∃ r', r' ∈ work_runs (db m'.1) ∧ same_proof r r'.
Proof.
  intros Hs. revert r. induction Hs as [m|m m1 m2 Hs _ IH]; intros r Hr Hev; [by exists r|].
  destruct (step_proof _ _ _ Hs Hr Hev) as (r1 & Hr1 & H1).
  destruct (IH r1 Hr1) as (r2 & Hr2 & H2); [by rewrite (proj1 (proj2 (proj2 H1)))|].
  exists r2. split; [done|]. unfold same_proof in *. intuition congruence.
Qed.
End Evidence.

(** ** Admission of a run *)

Section Create.
Context {self : Store} {pool : TaskPool} {laws : TaskPoolLaws}.

Lemma work_id_of_task d t u :
  pool_ok d → t ∈ tasks d → u ∈ tasks d → Task.task_id t = Task.task_id u → work_id t = work_id u.
Proof.
  intros Hok Ht Hu E. unfold work_id.
  rewrite (pool_ok_key _ _ Hok Ht), (pool_ok_key _ _ Hok Hu) in E.
  unfold task_id in E. apply (f_equal chars) in E. rewrite !chars_app in E. apply app_inv_head in E.
  apply chars_inj in E. by rewrite E.
Qed.

(** The run of a known task: created if it has none, found otherwise. *)
Lemma commit_create_ok d task policy cid stamp w :
  db w = d → WorkInv d → task ∈ tasks d → policy ∈ MERGE_POLICIES →
  ∃ created w', commit_create task policy cid stamp w = (Ok created, w') ∧
    (created = true ↔ find_work d (work_id task) = None) ∧
    (created = false → db w' = d) ∧
    ∃ r, find_work (db w') (work_id task) = Some r ∧ WorkRun.task_id r = Task.task_id task ∧
      WorkRun.merge_policy r = policy ∧ tasks (db w') = tasks d.
Proof.
  intros <- [Hok Hn Hrows] Ht Hpol. unfold commit_create, tx. cbv zeta. rewrite bind_query.
  destruct (find_work (db w) (work_id task)) as [r|] eqn:E.
  - pose proof (find_work_in _ _ _ E) as [Hr Er]. destruct (Hrows _ Hr) as [(t & Htin & E1 & E2) Hp _ _].
    assert (WorkRun.task_id r = Task.task_id task) as Eid.
    { rewrite <- E1, (pool_ok_key _ _ Hok Htin), (pool_ok_key _ _ Hok Ht).
      rewrite Er in E2. unfold work_id in E2. apply (f_equal chars) in E2. rewrite !chars_app in E2.
      apply app_inv_head, chars_inj in E2. unfold task_id. by rewrite E2. }
    assert (WorkRun.merge_policy r = policy) as Epol.
    { unfold MERGE_POLICIES in *. by apply list_elem_of_singleton in Hp as ->, Hpol as ->. }
    rewrite (bool_decide_eq_true_2 _ Eid), (bool_decide_eq_true_2 _ Epol). cbn.
    exists false, w. split_and!; try done. exists r. done.
  - unfold exec, mbind, M_bind, insert_work.
    assert (existsb (work_is (work_id task)) (work_runs (db w)) = false) as H1.
    { apply existsb_false. intros x Hx. by apply (first_none _ _ _ E). }
    assert (existsb (fun q => bool_decide (WorkRun.task_id q = Task.task_id task)) (work_runs (db w)) = false) as H2.
    { apply existsb_false. intros x Hx. apply bool_decide_eq_false. intros Ex.
      destruct (Hrows _ Hx) as [(t & Htin & E1 & E2) _ _ _].
      pose proof (first_none _ _ _ E Hx) as Hne. unfold work_is in Hne. apply bool_decide_eq_false in Hne.
      apply Hne. rewrite <- E2. eapply work_id_of_task; try done. congruence. }
    cbn [WorkRun.work_id WorkRun.task_id new_work] in *. rewrite H1, H2.
    eexists true, _. split; [done|]. split; [done|]. split; [done|]. cbn.
    exists (new_work (work_id task) (Task.task_id task) policy cid stamp). split; [|done].
    assert (∀ l x, existsb (work_is (work_id task)) l = false → WorkRun.work_id x = work_id task →
      first (work_is (work_id task)) (l ++ [x]) = Some x) as Hfind.
    { intros l x Hl Hx. unfold first. induction l as [|y l IH]; cbn in *.
      - unfold work_is. by rewrite bool_decide_eq_true_2.
      - apply orb_false_iff in Hl as [-> Hl]. by apply IH. }
    by apply Hfind.
Qed.

Lemma view_total d row w : db w = d → WorkInv d → row ∈ work_runs d → ∃ v, view row w = (Ok v, w).
Proof.
  intros <- [Hok _ Hrows] Hr. destruct (Hrows _ Hr) as [(t & Ht & E & _) _ _ _].
  pose proof (pool_get_total _ _ Hok Ht) as Hg. rewrite E in Hg.
  unfold view, mbind, M_bind. rewrite Hg. eauto.
Qed.

Lemma get_work_total wid w row : WorkInv (db w) → find_work (db w) wid = Some row →
  ∃ v, get_work wid w = (Ok v, w) ∧ WorkView.work_id v = wid ∧ WorkView.task_id v = WorkRun.task_id row.
Proof.
  intros Hi Hf. destruct (find_work_in _ _ _ Hf) as [Hr <-]. destruct Hi as [Hok _ Hrows].
  destruct (Hrows _ Hr) as [(t & Ht & E & _) _ _ _].
  unfold get_work, mbind at 1, M_bind at 1. rewrite work_row_run, Hf.
  pose proof (pool_get_total _ _ Hok Ht) as Hg. rewrite E in Hg.
  unfold view, mbind, M_bind. rewrite Hg. eauto.
Qed.
End Create.

(** ** Settled requests *)

Section Settled.
Context {self : Store} {pool : TaskPool} {laws : TaskPoolLaws}.

Lemma undecided_merge wid sha merged cid mc reason w p w' :
  read_merge wid sha merged cid mc reason w = (Ok (inr p), w') →
  ∃ row, find_work (db w) wid = Some row ∧ WorkRun.merge_state row ≠ mg_merged.
Proof.
  unfold read_merge. cbv zeta. intros H. minv H.
  match goal with H : work_row _ _ = _ |- _ => apply work_row_ok in H as [Hrow ->] end.
  eexists. split; [exact Hrow|]. intros E.
  match goal with H : (if _ then _ else _) _ = _ |- _ => rename H into Hend end.
  rewrite bool_decide_eq_true_2 in Hend by done. sinv Hend. done.
Qed.

Lemma undecided_evidence wid run sha ref rb pc nc cid w p w' :
  read_evidence wid run sha ref rb pc nc cid w = (Ok (inr p), w') →
  ∃ row, find_work (db w) wid = Some row ∧ WorkRun.evidence_state row ≠ ev_verified.
Proof.
  unfold read_evidence. cbv zeta. intros H. minv H.
  match goal with H : work_row _ _ = _ |- _ => apply work_row_ok in H as [Hrow ->] end.
  eexists. split; [exact Hrow|]. intros E.
  match goal with H : (if _ then _ else _) _ = _ |- _ => rename H into Hend end.
  rewrite bool_decide_eq_true_2 in Hend by done. sinv Hend. done.
Qed.

Lemma settled_finish wid (m : M World (WorkView.t + Plan)) w :
  reads m → (∀ p w', m w = (Ok (inr p), w') → False) → db ((x ← m; finish wid x) w).2 = db w.
Proof.
  intros Hm Hp. unfold mbind, M_bind. destruct (m w) as [[[v|p]|e] w1] eqn:E.
  - by apply Hm in E.
  - by destruct (Hp p w1).
  - by apply Hm in E.
Qed.
End Settled.

(** ** Properties *)

Section Claims.
Context {self : Store} {Hid : Uuids}.

(** C10: However the requests of the facade and the calls of the pool
    interleave, a run whose merge is open, refused or done has complete
    evidence on the commit of its completed task, which a validator other than
    its builder accepted; a merged run records a valid merge commit. *)
Theorem merge_needs_evidence (n k : nat) (w : World) (ps : list Plan) (r : WorkRun.t) :
  rtc WStep (mkWorld empty_db n k, []) (w, ps) → r ∈ work_runs (db w) → WorkRun.merge_state r ≠ mg_pending →
  evidence_complete (db w) r ∧
  (∃ t b v, t ∈ tasks (db w) ∧ Task.task_id t = WorkRun.task_id r ∧ Task.state t = completed ∧
     Task.builder_worker_id t = Some b ∧ Task.validator_worker_id t = Some v ∧ b ≠ v) ∧
  (WorkRun.merge_state r = mg_merged → ∃ c, WorkRun.merge_commit_sha r = Some c ∧ fullmatch SHA40 c = true).
Proof.
  intros Hs Hr Hm. assert (machine_ok (w, ps)) as [Hi _].
  { eapply machine_steps; [exact Hs|]. split; [|constructor]. split; cbn; [apply inv_empty|constructor|].
    intros x Hx. by apply not_elem_of_nil in Hx. }
  destruct (wi_rows _ Hi _ Hr) as [_ _ Hev Hmg].
  destruct (WorkRun.evidence_state r); [done|]. destruct Hev as [_ Hev]. split; [done|].
  split; [|intros E; rewrite E in Hmg; by destruct Hmg].
  destruct Hev as (_ & _ & _ & _ & _ & sha & (t & p & Ht & E & Hst & _) & _).
  pose proof (wf_in_state _ (rows_wf _ (inv_rows _ (wi_pool _ Hi)) t Ht)) as Hwf.
  unfold wf_state in Hwf. rewrite Hst in Hwf. destruct Hwf as (_ & (q & b & _ & _ & Hb) & [v Hv] & Hne).
  exists t, b, v. split_and!; try done. congruence.
Qed.

(** C11: Verified evidence is immutable: whatever requests and pool calls
    interleave afterwards, the run keeps its task, validation run, commit,
    reference and expected head. *)
Theorem evidence_is_immutable (w w' : World) (ps ps' : list Plan) (r : WorkRun.t) :
  rtc WStep (w, ps) (w', ps') → r ∈ work_runs (db w) → WorkRun.evidence_state r = ev_verified →
  ∃ r', r' ∈ work_runs (db w') ∧ same_proof r r'.
Proof. intros Hs Hr Hev. by apply (steps_proof _ _ r Hs). Qed.

(** Once the pool admits the task, the creation of its run succeeds:
    the run of the task exists afterwards, it is new exactly when the task had
    none, and a replay leaves the database as it was. *)
Theorem create_work_once (repo : string) (issue : Z) (rid cid base : string) (prio : Z)
  (target : option string) (att : option Z) (policy : string) (fencing : bool) (w : World)
  (task : Task.t) (stamp : string) (w1 : World) :
  WorkInv (db w) →
  read_create repo issue rid cid base prio target att policy fencing w = (Ok (task, stamp), w1) →
  ∃ v created w2, create_work repo issue rid cid base prio target att policy fencing w = (Ok (v, created), w2) ∧
    (created = true ↔ find_work (db w) (work_id task) = None) ∧ (created = false → db w2 = db w1) ∧
    WorkView.task_id v = Task.task_id task ∧ is_Some (find_work (db w2) (work_id task)).
Proof.
  intros Hi Hc. assert (Hc' := Hc). apply moves_create in Hc' as [[_ [=]]|(wm & Hmv & E)].
  assert (WorkInv (db w1)) as Hi1.
  { rewrite E. by apply (machine_move _ _ [] Hmv). }
  assert (work_runs (db w1) = work_runs (db w)) as Ewk by (rewrite E; by apply pool_move_works).
  assert (policy ∈ MERGE_POLICIES) as Hpol.
  { unfold read_create in Hc. apply bind_ok in Hc as ([] & ? & Hg & _). apply raise_if_ok in Hg as [Hg _].
    by apply negb_false_iff, bool_decide_eq_true in Hg. }
  pose proof (plan_of_create _ _ _ _ _ _ _ _ _ _ _ _ _ _ (wi_pool _ Hi) Hc) as (_ & _ & Ht).
  destruct (commit_create_ok (db w1) task policy cid stamp w1 eq_refl Hi1 Ht Hpol)
    as (created & w2 & Hrun & Hcr & Hsame & r & Hf & Er & _ & _).
  assert (WorkInv (db w2)) as Hi2.
  { apply (machine_create task policy cid stamp w1 (Ok created) w2 []); [by split; [|constructor]| |done].
    cbn. eauto. }
  destruct (get_work_total (work_id task) w2 r Hi2 Hf) as (v & Hv & _ & Etask).
  exists v, created, w2. split_and!; [| |done|congruence|eauto].
  - unfold create_work. unfold mbind, M_bind. rewrite Hc, Hrun. by rewrite Hv.
  - unfold find_work in *. by rewrite Ewk in Hcr.
Qed.

(** Settled requests do not rewrite: a merge result on a merged run and
    evidence on a verified run, whatever they ask for and whatever they
    answer, leave the database as it is. *)
Theorem settled_run_is_final (w : World) (r : WorkRun.t) :
  WorkInv (db w) → r ∈ work_runs (db w) →
  (WorkRun.merge_state r = mg_merged → ∀ sha merged cid mc reason,
     db (record_merge_result (WorkRun.work_id r) sha merged cid mc reason w).2 = db w) ∧
  (WorkRun.evidence_state r = ev_verified → ∀ run sha ref rb pc nc cid,
     db (record_evidence (WorkRun.work_id r) run sha ref rb pc nc cid w).2 = db w).
Proof.
  intros [_ Hn _] Hr. pose proof (find_work_row _ _ Hn Hr) as Hf. split.
  - intros Hm sha merged cid mc reason. apply settled_finish; [apply reads_merge|].
    intros p w' H. apply undecided_merge in H as (row & Hrow & Hne). congruence.
  - intros Hev run sha ref rb pc nc cid. apply settled_finish; [apply reads_evidence|].
    intros p w' H. apply undecided_evidence in H as (row & Hrow & Hne). congruence.
Qed.
End Claims.

(** ** Witnesses *)

Lemma pool_history `{Store} `{!Uuids} ops w : rtc WStep (w, []) (run_all ops w, []).
Proof.
  revert w. induction ops as [|o ops IH]; intros w; [apply rtc_refl|].
  eapply rtc_l; [apply (ws_pool w (run o w))|apply IH]. right. by exists o.
Qed.

Lemma demo_schedule h : rtc WStep (mkWorld empty_db 0 0, []) (demo h, []).
Proof. change (demo h) with (run_all h demo_empty). apply (pool_history h). Qed.

Definition demo_wid : string := Eval vm_compute in String.append "work-" (take_str 24 (identity "acme/repo" 12 "r1")).
Definition demo_commit : string := "ffeeddccbbaa99887766554433221100ffeeddcc".
(** The completed task is admitted as a run, verified, and merged. *)
Definition demo_admitted : World :=
  (create_work "acme/repo" 12 "r1" "c" demo_base 100 None None "governed" true (demo h_completed)).2.
Definition demo_verified : World :=
  (record_evidence demo_wid "run-9" demo_sha "artifact://e" true true true "c" demo_admitted).2.
Definition demo_merged : World :=
  (record_merge_result demo_wid demo_sha true "c" (Some demo_commit) None demo_verified).2.

Lemma demo_verified_schedule : rtc WStep (mkWorld empty_db 0 0, []) (demo_verified, []).
Proof.
  etrans; [apply (demo_schedule h_completed)|].
  etrans; [|apply schedule_evidence]. apply schedule_create.
Qed.
Lemma demo_merged_schedule : rtc WStep (mkWorld empty_db 0 0, []) (demo_merged, []).
Proof. etrans; [apply demo_verified_schedule|]. apply schedule_merge. Qed.

Lemma start_ok : machine_ok (mkWorld empty_db 0 0, []).
Proof.
  split; [|constructor]. split; cbn; [apply inv_empty|constructor|].
  intros x Hx. by apply not_elem_of_nil in Hx.
Qed.

Definition demo_run (w : World) : option WorkRun.t := find_work (db w) demo_wid.

Lemma demo_work_inv h : WorkInv (db (demo h)).
Proof. apply (machine_steps _ _ (demo_schedule h) start_ok). Qed.

Lemma demo_run_states :
  WorkRun.merge_state <$> demo_run demo_admitted = Some mg_pending ∧
  WorkRun.merge_state <$> demo_run demo_verified = Some mg_ready ∧
  WorkRun.merge_state <$> demo_run demo_merged = Some mg_merged.
Proof. split_and!; vm_compute; reflexivity. Qed.

#[global] Opaque demo_admitted demo_verified demo_merged.

Lemma merge_needs_evidence_witness :
  ∃ r, demo_run demo_merged = Some r ∧ WorkRun.merge_state r = mg_merged ∧
    ∃ c, WorkRun.merge_commit_sha r = Some c ∧ fullmatch SHA40 c = true.
Proof.
  destruct demo_run_states as (_ & _ & E). destruct (demo_run demo_merged) as [r|] eqn:F; [|discriminate E].
  injection E as E. exists r. split; [reflexivity|]. split; [exact E|].
  destruct (find_work_in _ _ _ F) as [Hr _].
  destruct (merge_needs_evidence 0 0 demo_merged [] r demo_merged_schedule Hr) as (_ & _ & H).
  - intros E'. rewrite E in E'. discriminate E'.
  - exact (H E).
Defined.

Lemma demo_verified_row : ∃ r, demo_run demo_verified = Some r ∧ WorkRun.evidence_state r = ev_verified.
Proof.
  destruct demo_run_states as (_ & E & _). destruct (demo_run demo_verified) as [r|] eqn:F; [|discriminate E].
  injection E as E. exists r. split; [reflexivity|]. destruct (find_work_in _ _ _ F) as [Hr _].
  pose proof (machine_steps _ _ demo_verified_schedule start_ok) as [Hi _].
  pose proof (wk_evidence _ _ (wi_rows _ Hi _ Hr)) as H. destruct (WorkRun.evidence_state r); [congruence|done].
Qed.

Lemma evidence_is_immutable_witness :
  ∃ r r', demo_run demo_verified = Some r ∧ r' ∈ work_runs (db demo_merged) ∧ same_proof r r'.
Proof.
  destruct demo_verified_row as (r & F & E). destruct (find_work_in _ _ _ F) as [Hr _].
  destruct (evidence_is_immutable demo_verified demo_merged [] [] r (schedule_merge _ _ _ _ _ _ _) Hr E)
    as (r' & Hr' & H). exists r, r'. auto.
Defined.

Lemma create_work_once_witness :
  ∃ v w2, create_work "acme/repo" 12 "r1" "c" demo_base 100 None None "governed" true (demo h_completed)
    = (Ok (v, true), w2) ∧ WorkView.task_id v = demo_tid.
Proof.
  assert (WorkInv (db (demo h_completed))) as Hi.
  { apply demo_work_inv. }
  destruct (read_create "acme/repo" 12 "r1" "c" demo_base 100 None None "governed" true (demo h_completed))
    as [[[task stamp]|e] w1] eqn:E.
  - assert (Task.task_id task = demo_tid ∧ find_work (db (demo h_completed)) (work_id task) = None) as [Et En].
    { set (x := read_create "acme/repo" 12 "r1" "c" demo_base 100 None None "governed" true (demo h_completed)) in E.
      assert (match x.1 with Ok (t, _) => Task.task_id t = demo_tid | _ => False end) as H
        by (vm_compute; reflexivity).
      assert (work_runs (db (demo h_completed)) = []) as H' by (vm_compute; reflexivity).
      rewrite E in H. cbn in H. unfold find_work. rewrite H'. auto. }
    destruct (create_work_once "acme/repo" 12 "r1" "c" demo_base 100 None None "governed" true
      (demo h_completed) task stamp w1 Hi E) as (v & created & w2 & H1 & H2 & _ & H4 & _).
    exists v, w2. assert (created = true) as -> by (apply H2; exact En).
    split; [exact H1|]. rewrite H4. exact Et.
  - exfalso. set (x := read_create "acme/repo" 12 "r1" "c" demo_base 100 None None "governed" true (demo h_completed)) in E.
    assert (match x.1 with Ok _ => True | _ => False end) as H by (vm_compute; exact I).
    rewrite E in H. exact H.
Defined.

Lemma settled_run_is_final_witness :
  db (record_merge_result demo_wid demo_sha false "c" None (Some "late"%string) demo_merged).2 = db demo_merged.
Proof.
  destruct demo_run_states as (_ & _ & E). destruct (demo_run demo_merged) as [r|] eqn:F; [|discriminate E].
  injection E as E. destruct (find_work_in _ _ _ F) as [Hr Er].
  pose proof (machine_steps _ _ demo_merged_schedule start_ok) as [Hi _].
  destruct (settled_run_is_final demo_merged r Hi Hr) as [H _].
  specialize (H E demo_sha false "c"%string None (Some "late"%string)). rewrite Er in H. exact H.
Defined.

(** ** A race *)

Lemma step_frame_plans qs m m' : WStep m m' → WStep (m.1, m.2 ++ qs) (m'.1, m'.2 ++ qs).
Proof.
  destruct 1; cbn [fst snd]; rewrite <- ?app_assoc, <- ?app_comm_cons.
  - by apply ws_pool.
  - by eapply ws_create.
  - by eapply ws_evidence.
  - by eapply ws_merge.
  - by eapply ws_commit.
  - apply ws_lost.
Qed.
Lemma steps_frame_plans qs m m' : rtc WStep m m' → rtc WStep (m.1, m.2 ++ qs) (m'.1, m'.2 ++ qs).
Proof.
  induction 1 as [m|m m1 m2 Hs _ IH]; [apply rtc_refl|]. eapply rtc_l; [by apply step_frame_plans|exact IH].
Qed.

Lemma commit_schedule p w : rtc WStep (w, [p]) ((commit p w).2, []).
Proof.
  destruct (commit p w) as [x w'] eqn:E. apply rtc_once. by apply (ws_commit _ _ _ [] p []) in E.
Qed.

(** A request that has read, while another one is served. *)
Lemma overlap_schedule wid sha merged cid mc reason w p w1 :
  read_merge wid sha merged cid mc reason w = (Ok (inr p), w1) → ∀ wid' sha' merged' cid' mc' reason',
  rtc WStep (w, []) ((record_merge_result wid' sha' merged' cid' mc' reason' w1).2, [p]).
Proof.
  intros H wid' sha' merged' cid' mc' reason'. eapply rtc_l; [exact (ws_merge _ _ _ _ _ _ _ _ _ [] H)|].
  apply (steps_frame_plans [p] _ _ (schedule_merge wid' sha' merged' cid' mc' reason' w1)).
Qed.

Definition demo_refuse (w : World) : res (WorkView.t + Plan) * World :=
  read_merge demo_wid demo_sha false "c" None (Some "conflict"%string) w.
Definition demo_plan : Plan :=
  plan_merge demo_wid mg_blocked None (Some "conflict"%string) "c"
    (iso (clock (ticks demo_verified))).

Lemma demo_refusal : demo_refuse demo_verified = (Ok (inr demo_plan), (demo_refuse demo_verified).2).
Proof.
  assert ((demo_refuse demo_verified).1 = Ok (inr demo_plan)) as <- by (vm_compute; reflexivity).
  apply surjective_pairing.
Qed.

Lemma demo_race :
  let w2 := (record_merge_result demo_wid demo_sha true "c" (Some demo_commit) None (demo_refuse demo_verified).2).2 in
  WorkRun.merge_state <$> demo_run w2 = Some mg_merged ∧
  WorkRun.merge_state <$> demo_run (commit demo_plan w2).2 = Some mg_blocked.
Proof. split; vm_compute; reflexivity. Qed.

(** Two merge results decided on the same row: the refusal committed last
    overwrites the merge that the first request was told of.  The update of
    [record_merge_result] does not repeat the condition on [merge_state] that
    its reads checked. *)
Theorem merged_run_can_be_overwritten :
  ∃ w ps w' ps' r r', rtc WStep (mkWorld empty_db 0 0, []) (w, ps) ∧ rtc WStep (w, ps) (w', ps') ∧
    demo_run w = Some r ∧ WorkRun.merge_state r = mg_merged ∧
    demo_run w' = Some r' ∧ WorkRun.merge_state r' = mg_blocked.
Proof.
  set (w1 := (demo_refuse demo_verified).2).
  set (w2 := (record_merge_result demo_wid demo_sha true "c" (Some demo_commit) None w1).2).
  destruct demo_race as [E2 E3]. fold w1 in E2, E3. fold w2 in E2, E3.
  apply fmap_Some in E2 as (r & F2 & E2), E3 as (r' & F3 & E3).
  exists w2, [demo_plan], (commit demo_plan w2).2, [], r, r'.
  split; [|split; [|split; [exact F2|split; [by rewrite E2|split; [exact F3|by rewrite E3]]]]].
  - etrans; [apply demo_verified_schedule|]. apply (overlap_schedule _ _ _ _ _ _ _ _ _ demo_refusal).
  - apply commit_schedule.
Qed.
