(* ===== verification/Controller.v ===== *)
(** [ReconciliationController] of [app/reconcile.py]: the loop that recovers
    expired leases and stalled tasks while the service runs.

    The loop runs as one [asyncio] task; [start] and [stop] are called by the
    lifespan of the service, one after the other, and [stop] awaits the
    cancelled loop.  A cancellation that arrives while the store works in its
    thread drops the result of the cycle, not its transaction.

    After the definitions: what a cycle does to the store, and that the status
    tells the truth after any schedule of starts, stops and cycles. *)
From S2P Require Import Prelude PyStr Clock Schema Store Lifecycle StoreInv StoreRefine StoreLive Scenario.
From Stdlib Require Import String QArith.
From stdpp Require Import strings relations.

Local Open Scope Z_scope.

(** The loop: never started or stopped, or running. *)
Inductive Handle : Type := h_none | h_live.

Module Controller.
Record t := mk {
  interval_seconds : Q; task : Handle; running : bool;
  last_started_at : option string; last_completed_at : option string;
  last_result : option (Z * StallCounts.t); consecutive_failures : Z; last_error_code : option string }.
End Controller.
#[export] Instance Controller_eta : Eta Controller.t := fun r => Controller.mk
  (Controller.interval_seconds r) (Controller.task r) (Controller.running r) (Controller.last_started_at r)
  (Controller.last_completed_at r) (Controller.last_result r) (Controller.consecutive_failures r)
  (Controller.last_error_code r).

(** [__init__] *)
Definition make_controller (interval : Q) : res Controller.t :=
  if Qle_bool (1 # 10) interval
  then Ok (Controller.mk interval h_none false None None None 0 None)
  else Raise (ValueError "reconciliation interval must be >= 0.1 seconds").

Definition start (c : Controller.t) : Controller.t :=
  match Controller.task c with
  | h_live => c
  | h_none => c <| Controller.running := true |> <| Controller.task := h_live |>
  end.
Definition stop (c : Controller.t) : Controller.t :=
  c <| Controller.task := h_none |> <| Controller.running := false |>.

Definition cycle_failed : string := "reconciliation_cycle_failed".

(** The process: the controller and the store. *)
Definition Process : Type := Controller.t * World.

Section Controller.
Context {self : Store}.

(** The controller before and after the call of the store. *)
Definition cycle_started (stamp : string) (c : Controller.t) : Controller.t :=
  c <| Controller.last_started_at := Some stamp |>.
Definition cycle_ended (r : res (Z * StallCounts.t)) (stamp : string) (c : Controller.t) : Controller.t :=
  match r with
  | Raise _ => c <| Controller.consecutive_failures := Controller.consecutive_failures c + 1 |>
                 <| Controller.last_error_code := Some cycle_failed |>
                 <| Controller.last_completed_at := Some stamp |>
  | Ok x => c <| Controller.last_result := Some x |> <| Controller.consecutive_failures := 0 |>
              <| Controller.last_error_code := None |> <| Controller.last_completed_at := Some stamp |>
  end.

(** The part of a cycle up to the call of the store, and the call. *)
Definition cycle_call (p : Process) : string * (res (Z * StallCounts.t) * World) :=
  let w := p.2 in
  let started := iso (clock (ticks w)) in
  (started, Store.reconcile (w <| ticks := S (ticks w) |>)).

(** [run_once]: its result, and the process. *)
Definition run_once (p : Process) : option (Z * StallCounts.t) * Process :=
  let '(started, (r, w)) := cycle_call p in
  let c := cycle_ended r (iso (clock (ticks w))) (cycle_started started p.1) in
  (match r with Ok x => Some x | Raise _ => None end, (c, w <| ticks := S (ticks w) |>)).

(** [stop] while the store works: the transaction ends, the result is lost. *)
Definition stop_midcycle (p : Process) : Process :=
  let '(started, (_, w)) := cycle_call p in (stop (cycle_started started p.1), w).

(** What happens to the process; [None] for the events that are not a cycle,
    and the result of a cycle otherwise. *)
Inductive CStep : Process → option (option (Z * StallCounts.t)) → Process → Prop :=
  | cs_start c w : CStep (c, w) None (start c, w)
  | cs_cycle p r p' : Controller.task p.1 = h_live → run_once p = (r, p') → CStep p (Some r) p'
  | cs_stop c w : CStep (c, w) None (stop c, w)
  | cs_stop_midcycle p : Controller.task p.1 = h_live → CStep p None (stop_midcycle p).

(** [status] *)
Definition status (c : Controller.t) : bool * Q * option string * option string * option (Z * StallCounts.t) * Z * option string :=
  (Controller.running c, Controller.interval_seconds c, Controller.last_started_at c,
   Controller.last_completed_at c, Controller.last_result c, Controller.consecutive_failures c,
   Controller.last_error_code c).
End Controller.


Section Cycle.
Context {self : Store} {Hid : Uuids}.

Lemma reconcile_run w r w' :
  Inv (db w) → Store.reconcile w = (r, w') →
  match r with
  | Ok (n, c) => n = Z.of_nat (length (List.filter (lease_expired_at (iso (clock (ticks w)))) (tasks (db w)))) ∧
      ∀ t, t ∈ tasks (db w') → lease_expired_at (iso (clock (ticks w))) t = false
  | Raise _ => db w' = db w
  end.
Proof.
  intros Hi H. set (stamp := iso (clock (ticks w))). destruct r as [[n c]|e].
  - unfold Store.reconcile in H. apply tx_ok in H. destruct (recover_run (db w) w Hi eq_refl) as (w1 & Hrun & Ht & _ & Hs & _ & E).
    rewrite (bind_run _ _ _ _ _ Hrun) in H. apply bind_ok in H as (c' & w2 & Hst & H). apply ret_ok in H as [[= <- <-] <-].
    split; [done|]. intros t Hin. assert (Inv (db w1)) as Hi1 by (by eapply inv_steps).
    destruct (recover_stalled_ok (db w1) w1 c' w2 Hi1 eq_refl Hst) as (cut & _ & _ & _ & HF & _).
    apply list_elem_of_lookup in Hin as [i Hi2].
    destruct (Forall2_lookup_r _ _ _ _ _ HF Hi2) as (u & Hu & Hrel).
    assert (lease_expired_at stamp u = false) as Hno.
    { apply list_elem_of_lookup_2 in Hu. rewrite E in Hu. apply elem_of_update in Hu as (v & _ & ->).
      fold stamp. destruct (lease_expired_at stamp v) eqn:Ev; [apply expire_not_expired|exact Ev]. }
    unfold stall_rel in Hrel. destruct (stalled_at _ u); [|by rewrite Hrel].
    destruct Hrel as (k & Hk). assert (Task.lease_expires_at t = None) as En.
    { unfold stall_result in Hk. destruct (needs_reconciliation _ _); [by destruct Hk as [_ ->]|].
      destruct (_ <=? _); [by destruct Hk as [_ ->]|]. by destruct Hk as [[_ ->]|[_ ->]]. }
    unfold lease_expired_at. rewrite En. apply andb_false_r.
  - unfold Store.reconcile, tx in H. match type of H with match ?x with _ => _ end = _ => destruct x as [[a|e'] w1] end; [done|].
    by injection H as _ <-.
Qed.

Lemma reconcile_returns w cutoff :
  Inv (db w) → heartbeats_parse (db w) →
  add_seconds (clock (S (ticks w))) (- progress_stall_seconds) = Ok cutoff →
  ∃ n c w', Store.reconcile w = (Ok (n, c), w').
Proof.
  intros Hi Hp Hc. destruct (recover_run (db w) w Hi eq_refl) as (w1 & Hrun & Ht & _ & Hs & Hsr & _).
  assert (heartbeats_parse (db w1)) as Hp1.
  { intros x Hx. apply Hp. by rewrite (sr_workers _ _ Hsr) in Hx. }
  destruct (recover_stalled_total w1 cutoff) as (c & w2 & Hst).
  - by eapply inv_steps.
  - exact Hp1.
  - by rewrite Ht.
  - eexists _, c, w2. unfold Store.reconcile. apply tx_run. rewrite (bind_run _ _ _ _ _ Hrun), (bind_run _ _ _ _ _ Hst). done.
Qed.

Lemma reconcile_inv w r w' : Inv (db w) → Store.reconcile w = (r, w') → Inv (db w').
Proof. intros Hi H. eapply inv_steps; [by eapply steps_sweep|done]. Qed.
End Cycle.

(** ** Schedules *)

Section Schedules.
Context {self : Store}.

(** A schedule, with the results of its cycles in order. *)
Inductive Schedule : Process → list (option (Z * StallCounts.t)) → Process → Prop :=
  | sc_nil p : Schedule p [] p
  | sc_snoc p l q o r : Schedule p l q → CStep q o r →
      Schedule p (l ++ match o with Some x => [x] | None => [] end) r.

(** The cycles that failed since the last one that did not. *)
Fixpoint failures (rl : list (option (Z * StallCounts.t))) : Z :=
  match rl with
  | None :: rl' => failures rl' + 1
  | _ => 0
  end.
Fixpoint last_success (rl : list (option (Z * StallCounts.t))) : option (Z * StallCounts.t) :=
  match rl with
  | [] => None
  | Some x :: _ => Some x
  | None :: rl' => last_success rl'
  end.

(** What the status says of the results so far. *)
Record truthful (l : list (option (Z * StallCounts.t))) (c : Controller.t) : Prop := {
  tr_running : Controller.running c = true ↔ Controller.task c = h_live;
  tr_failures : Controller.consecutive_failures c = failures (rev l);
  tr_result : Controller.last_result c = last_success (rev l);
  tr_code : Controller.last_error_code c = if failures (rev l) =? 0 then None else Some cycle_failed }.

Lemma failures_nonneg l : 0 ≤ failures l.
Proof. induction l as [|[x|] l IH]; cbn; lia. Qed.

Lemma truthful_stop l c : truthful l c → truthful l (stop c).
Proof. intros [H1 H2 H3 H4]. by split. Qed.

Lemma truthful_step l p o q :
  truthful l p.1 → CStep p o q → truthful (l ++ match o with Some x => [x] | None => [] end) q.1.
Proof.
  intros Ht Hs. destruct Hs as [c w|p r q Hl Hrun|c w|p Hl]; rewrite ?app_nil_r.
  - destruct Ht as [H1 H2 H3 H4]. cbn in *. unfold start. destruct (Controller.task c) eqn:E; by split; rewrite ?E.
  - unfold run_once, cycle_call in Hrun. destruct (Store.reconcile _) as [x w1].
    injection Hrun as <- <-. destruct Ht as [H1 H2 H3 H4].
    split; rewrite ?rev_app_distr; destruct x as [y|e]; cbn; try done.
    + by rewrite H2.
    + pose proof (failures_nonneg (rev l)). destruct (Z.eqb_spec (failures (rev l) + 1) 0); [lia|done].
  - by apply truthful_stop.
  - unfold stop_midcycle, cycle_call. destruct (Store.reconcile _) as [x w1]. cbn.
    destruct Ht as [H1 H2 H3 H4]. by split.
Qed.

Lemma inv_cstep {Hid : Uuids} p o q : Inv (db p.2) → CStep p o q → Inv (db q.2).
Proof.
  intros Hi Hs. destruct Hs as [c w|p r q Hl Hrun|c w|p Hl]; try done.
  - unfold run_once, cycle_call in Hrun. destruct (Store.reconcile _) as [x w1] eqn:E. injection Hrun as _ <-.
    destruct p as [c w]. cbn [fst snd] in *. apply reconcile_inv in E; [|exact Hi]. exact E. 
  - unfold stop_midcycle, cycle_call. destruct (Store.reconcile _) as [x w1] eqn:E.
    destruct p as [c w]. cbn [fst snd] in *. apply reconcile_inv in E; [|exact Hi]. exact E.
Qed.

(** C12: After any schedule of starts, stops, cancellations and cycles, the
    status is true: running exactly when the loop is live, the failures since
    the last success, the result of that success; and the store keeps its
    invariants. *)
Theorem controller_is_truthful {Hid : Uuids} (interval : Q) (c : Controller.t) (w : World)
  (l : list (option (Z * StallCounts.t))) (q : Process) :
  make_controller interval = Ok c → Inv (db w) → Schedule (c, w) l q → truthful l q.1 ∧ Inv (db q.2).
Proof.
  intros Hc Hi Hs. remember (c, w) as p eqn:Ep. induction Hs as [p|p l q o r Hs IH Hstep]; subst p.
  - split; [|done]. unfold make_controller in Hc. destruct (Qle_bool _ _); [|done]. by injection Hc as <-.
  - specialize (IH eq_refl) as [IH1 IH2]. split; [by eapply truthful_step|by eapply inv_cstep].
Qed.

(** A cycle that returns a result leaves no lease that was expired when
    it recovered; one that fails leaves the database as it was and counts one
    more failure; and when the heartbeat stamps can be read and the cutoff is
    a date, the cycle returns a result. *)
Theorem cycle_recovers {Hid : Uuids} (p : Process) (r : option (Z * StallCounts.t)) (q : Process) :
  Inv (db p.2) → run_once p = (r, q) →
  let stamp := iso (clock (S (ticks p.2))) in
  match r with
  | Some (n, _) =>
      n = Z.of_nat (length (List.filter (lease_expired_at stamp) (tasks (db p.2)))) ∧
      (∀ t, t ∈ tasks (db q.2) → lease_expired_at stamp t = false)
  | None => db q.2 = db p.2 ∧
      Controller.consecutive_failures q.1 = Controller.consecutive_failures p.1 + 1
  end ∧
  (heartbeats_parse (db p.2) →
   (∃ cutoff, add_seconds (clock (S (S (ticks p.2)))) (- progress_stall_seconds) = Ok cutoff) → is_Some r).
Proof.
  destruct p as [c0 w0]. intros Hi Hrun stamp. unfold run_once, cycle_call in Hrun. cbn [fst snd] in *.
  destruct (Store.reconcile _) as [x w1] eqn:E. injection Hrun as <- <-. split.
  - apply reconcile_run in E; [|exact Hi]. destruct x as [[n s]|e]; [exact E|split; [exact E|done]].
  - intros Hp [cutoff Hc]. destruct (reconcile_returns (w0 <| ticks := S (ticks w0) |>) cutoff)
      as (n & s & w2 & E'); [exact Hi|exact Hp|exact Hc|]. rewrite E' in E. injection E as <- <-. by eexists.
Qed.
End Schedules.

(** ** Witnesses *)

Definition demo_controller : Controller.t := Controller.mk 5 h_none false None None None 0 None.

Lemma controller_is_truthful_witness :
  truthful [(run_once (start demo_controller, demo h_leased)).1] (run_once (start demo_controller, demo h_leased)).2.1.
Proof.
  destruct (run_once (start demo_controller, demo h_leased)) as [r q] eqn:E. cbn [fst snd].
  apply (controller_is_truthful 5 demo_controller (demo h_leased) [r] q eq_refl (demo_inv _)).
  apply (sc_snoc _ [] (start demo_controller, demo h_leased) (Some r)).
  - apply (sc_snoc _ [] (demo_controller, demo h_leased) None); [apply sc_nil|apply cs_start].
  - apply cs_cycle; [reflexivity|exact E].
Defined.

Lemma cycle_recovers_witness :
  is_Some (run_once (start demo_controller, demo h_leased)).1.
Proof.
  destruct (run_once (start demo_controller, demo h_leased)) as [r q] eqn:E.
  assert (Inv (db (snd (start demo_controller, demo h_leased)))) as Hi by (cbn [snd]; apply demo_inv).
  apply (proj2 (cycle_recovers (start demo_controller, demo h_leased) r q Hi E)).
  - exact demo_heartbeats.
  - cbn [snd]. destruct (add_seconds (clock (S (S (ticks (demo h_leased))))) (- progress_stall_seconds)) as [c|e] eqn:F.
    + exists c. reflexivity.
    + exfalso. assert (returns (add_seconds (clock (S (S (ticks (demo h_leased))))) (- progress_stall_seconds), tt) = true) as H
        by (vm_compute; reflexivity). rewrite F in H. discriminate H.
Defined.
