(* ===== verification/Diagnostics.v ===== *)
(** [app/task_diagnostics.py]: the read-only preflight of one task, on the
    snapshot that its read transaction sees.

    The preflight agrees with the claim: a worker is reported eligible for a
    task exactly when the claim would accept the worker and consider the task,
    up to the rounding of its heartbeat age and to disabled lanes. *)
From S2P Require Import Prelude PyStr Clock Names Schema Store Claim Lifecycle StoreInv StoreRefine StoreLive.
From S2P Require Import Scenario.
From Stdlib Require Import Ascii String.
From stdpp Require Import strings.

Local Open Scope Z_scope.

(** ** Ages

    [total_seconds] is the double nearest to the quotient of the microseconds
    by a million, and [round(x, 3)] the millisecond nearest to that double,
    the even one when it is exactly between two. *)

(** The double nearest to [n / 10^6], as a mantissa and the power of two that
    divides it; [0 < n]. *)
Definition seconds_double (n : Z) : Z * Z :=
  let s := Z.max 0 (72 - Z.log2 n) in
  let scaled := n * 2 ^ s in
  let q := scaled / MICROS in
  let extra := Z.max 0 (Z.log2 q - 52) in
  let unit := MICROS * 2 ^ extra in
  let m := scaled / unit in
  let r := scaled mod unit in
  (if (unit <? 2 * r) || ((2 * r =? unit) && Z.odd m) then m + 1 else m, s - extra).

(** Milliseconds of [round(us / 10^6, 3)]. *)
Definition round3 (us : Z) : Z :=
  let k := us / 1000 in
  let r := us mod 1000 in
  if r <? 500 then k
  else if 500 <? r then k + 1
  else let '(m, s) := seconds_double us in
       match (2 * k + 1) * 2 ^ s ?= m * 2000 with
       | Lt => k + 1
       | Gt => k
       | Eq => if Z.odd k then k + 1 else k
       end.

(** [_age_seconds], in milliseconds. *)
Definition age_seconds (value : option string) (now : datetime) : option Z :=
  if negb (truthy value) then None else
  match parse_iso (default ""%string value) with
  | Ok timestamp => Some (round3 (Z.max 0 (now - timestamp)))
  | Raise _ => None
  end.

(** ** The view of a worker *)

Inductive Reason : Type :=
  | offline_or_stale | profile_not_normal | governance_not_ready | rules_sha_mismatch | worker_busy
  | repository_affinity_mismatch | lane_disabled_or_missing | lane_capacity_reached
  | validator_same_as_builder | role_not_required_for_task_state.
#[export] Instance Reason_eq_dec : EqDecision Reason.
Proof. solve_decision. Defined.

Module WorkerView.
Record t := mk {
  worker_id : string; role : Role; profile : Profile; heartbeat_age : option Z;
  gateway_ok : bool; state_validated : bool; rules_sha_matches : bool;
  eligibility_precheck : bool; why_idle : option Reason; reasons : list Reason }.
End WorkerView.

Module LaneView.
Record t := mk { configured : bool; enabled : bool; max_in_flight : option Z; active_count : Z }.
End LaneView.

Module TaskView.
Record t := mk {
  task_id : string; repository : string; issue_number : Z; state : TaskState;
  base_sha : option string; produced_sha : option string; leased_by : option string;
  lease_expires_at : option string; lease_expired_observed : bool; attempt_count : Z;
  max_attempts : Z; blocked_reason : option string; updated_at : string;
  last_material_progress_at : string; progress_age : option Z; progress_stalled_observed : bool }.
End TaskView.

Module Report.
Record t := mk {
  observed_at : string; task : TaskView.t; required_role : option Role; lane : LaneView.t;
  workers : list WorkerView.t; precheck_eligible_workers : Z;
  claim_performed : bool; reconciliation_requested : bool }.
End Report.

(** The first reason when there is one: [x if c else None]. *)
Definition when (c : bool) (r : Reason) : list Reason := if c then [r] else [].

(** [task["leased_by"] is not None] *)
Definition required_role (task : Task.t) : option Role :=
  match Task.state task, Task.leased_by task with
  | queued, None => Some builder
  | validating, None => Some validator
  | _, _ => None
  end.

(** [affinity_map.get(worker_id, set())] *)
Definition allowed_repos (d : DB) (worker_id : string) : list string :=
  map Affinity.repository
    (List.filter (fun a => bool_decide (Affinity.worker_id a = worker_id)) (worker_repository_affinity d)).
Definition busy (d : DB) (worker_id : string) : bool := existsb (holds worker_id) (tasks d).
Definition active_in_lane (d : DB) (repository : string) : Z :=
  Z.of_nat (length (List.filter (fun t => bool_decide (Task.repository t = repository) && active t) (tasks d))).

Section Diagnostics.
Context (expected_rules_sha : option string) (heartbeat_ttl_seconds progress_stall_seconds : Z).

Definition rules_match (w : Worker.t) : bool :=
  negb (truthy expected_rules_sha) || bool_decide (Worker.rules_sha w = expected_rules_sha).

Definition worker_reasons (d : DB) (now : datetime) (task : Task.t) (lane : option Lane.t) (w : Worker.t)
  : list Reason :=
  let age := age_seconds (Some (Worker.last_heartbeat_at w)) now in
  when (match age with None => true | Some ms => heartbeat_ttl_seconds * 1000 <? ms end) offline_or_stale ++
  when (negb (bool_decide (Worker.profile w = NORMAL))) profile_not_normal ++
  when (negb (Worker.gateway_ok w) || negb (Worker.state_validated w)) governance_not_ready ++
  when (negb (rules_match w)) rules_sha_mismatch ++
  when (busy d (Worker.worker_id w)) worker_busy ++
  (let allowed := allowed_repos d (Worker.worker_id w) in
   when (negb (bool_decide (allowed = [])) && negb (bool_decide (Task.repository task ∈ allowed)))
     repository_affinity_mismatch) ++
  when (match lane with None => true | Some l => negb (Lane.enabled l) end) lane_disabled_or_missing ++
  when (bool_decide (Worker.role w = builder) &&
        match lane with
        | Some l => Lane.max_in_flight l <=? active_in_lane d (Task.repository task)
        | None => false
        end) lane_capacity_reached ++
  when (bool_decide (Worker.role w = validator) &&
        bool_decide (Task.builder_worker_id task = Some (Worker.worker_id w))) validator_same_as_builder ++
  when (negb (bool_decide (required_role task = Some (Worker.role w)))) role_not_required_for_task_state.

Definition worker_view (d : DB) (now : datetime) (task : Task.t) (lane : option Lane.t) (w : Worker.t)
  : WorkerView.t :=
  let reasons := worker_reasons d now task lane w in
  WorkerView.mk (Worker.worker_id w) (Worker.role w) (Worker.profile w)
    (age_seconds (Some (Worker.last_heartbeat_at w)) now) (Worker.gateway_ok w) (Worker.state_validated w)
    (rules_match w) (bool_decide (reasons = [])) (head reasons) reasons.

(** [ORDER BY role,worker_id] *)
Definition worker_leb (a b : Worker.t) : bool :=
  match Worker.role a, Worker.role b with
  | builder, validator => true
  | validator, builder => false
  | _, _ => text_leb (Worker.worker_id a) (Worker.worker_id b)
  end.
Definition sorted_workers (l : list Worker.t) : list Worker.t := sort_by worker_leb l.

(** [re.fullmatch(r"[a-z][a-z0-9_:-]{0,127}", blocked_reason)] *)
Definition REASON : re :=
  Cat (Chr is_lower) (Rep 0 (Some 127%nat) (Chr (either is_lower (either is_digit (one_of "_:-"))))).
Definition public_reason (reason : option string) : option string :=
  match reason with
  | Some r => if negb (nonempty r) then None else if fullmatch REASON r then Some r else Some "redacted"%string
  | None => None
  end.

Definition lease_expired (task : Task.t) (now : datetime) : bool :=
  if truthy (Task.lease_expires_at task) then
    match parse_iso (default ""%string (Task.lease_expires_at task)) with
    | Ok expiry => expiry <=? now
    | Raise _ => false
    end
  else false.

Definition task_view (task : Task.t) (now : datetime) : TaskView.t :=
  let age := age_seconds (Some (Task.last_material_progress_at task)) now in
  TaskView.mk (Task.task_id task) (Task.repository task) (Task.issue_number task) (Task.state task)
    (Task.base_sha task) (Task.produced_sha task) (Task.leased_by task) (Task.lease_expires_at task)
    (lease_expired task now) (Task.attempt_count task) (Task.max_attempts task)
    (public_reason (Task.blocked_reason task)) (Task.updated_at task) (Task.last_material_progress_at task) age
    (bool_decide (Task.state task ∈ ACTIVE) &&
     match age with Some ms => progress_stall_seconds * 1000 <=? ms | None => false end).

Definition lane_view (d : DB) (task : Task.t) (lane : option Lane.t) : LaneView.t :=
  LaneView.mk (bool_decide (is_Some lane)) (match lane with Some l => Lane.enabled l | None => false end)
    (Lane.max_in_flight <$> lane) (active_in_lane d (Task.repository task)).

(** [read_task_diagnostics] on the snapshot [d], [now] being read after it. *)
Definition read_task_diagnostics (d : DB) (now : datetime) (task_id : string) : res Report.t :=
  if negb (fullmatch TASK_ID task_id) then Raise (ValueError (u8 "task_id inválido")) else
  if (heartbeat_ttl_seconds <=? 0) || (progress_stall_seconds <=? 0)
  then Raise (ValueError (u8 "timeouts inválidos")) else
  match find_task d task_id with
  | None => Raise (Error "TaskDiagnosticNotFound" "task_not_found")
  | Some task =>
      let lane := find_lane d (Task.repository task) in
      let views := map (worker_view d now task lane) (sorted_workers (workers d)) in
      Ok (Report.mk (iso now) (task_view task now) (required_role task) (lane_view d task lane) views
            (Z.of_nat (length (List.filter WorkerView.eligibility_precheck views))) false false)
  end.
End Diagnostics.

Example round3_even :
  map round3 [62500; 187500; 1500; 2675500; 1000500; 1001500; 4003500; 90000500] =
  [62; 188; 2; 2675; 1000; 1002; 4003; 90001].
Proof. vm_compute. reflexivity. Qed.


#[local] Ltac Zify.zify_post_hook ::= Z.to_euclidean_division_equations.

Lemma round3_near us : 0 ≤ us → 1000 * round3 us - 500 ≤ us ≤ 1000 * round3 us + 500.
Proof.
  intros H. unfold round3.
  destruct (Z.ltb_spec (us mod 1000) 500); [lia|].
  destruct (Z.ltb_spec 500 (us mod 1000)); [lia|].
  destruct (seconds_double us) as [m s].
  destruct (_ ?= _); [destruct (Z.odd _)| |]; lia.
Qed.

Section Agreement.
Context {self : Store}.

(** [_ready] accepts the worker, on its reading [d] of the clock. *)
Record ready_at (s : DB) (now_ : datetime) (role : Role) (x : Worker.t) : Prop := {
  ra_role : Worker.role x = role;
  ra_profile : Worker.profile x = NORMAL;
  ra_gateway : Worker.gateway_ok x = true;
  ra_validated : Worker.state_validated x = true;
  ra_rules : rules_diverge x = false;
  ra_fresh : ∃ hb, parse_iso (Worker.last_heartbeat_at x) = Ok hb ∧ now_ - hb ≤ heartbeat_ttl_seconds * MICROS;
  ra_free : existsb (holds (Worker.worker_id x)) (tasks s) = false }.

Lemma ready_iff w role x :
  find_worker (db w) (Worker.worker_id x) = Some x →
  (∃ w', ready (Worker.worker_id x) role w = (Ok x, w')) ↔ ready_at (db w) (clock (ticks w)) role x.
Proof.
  intros Hf. unfold ready, older_than. split.
  - intros [w' H]. sinv H. wsimpl. simplify_eq.
    repeat match goal with
    | H : negb _ = false |- _ => apply negb_false_iff in H
    | H : _ || _ = false |- _ => apply orb_false_iff in H as [? ?]
    | H : bool_decide _ = true |- _ => apply bool_decide_eq_true in H
    end.
    split; try done. eexists. split; [done|]. by apply Z.ltb_ge.
  - intros [Hr Hp Hg Hv Hd (hb & Hhb & Hage) Hb].
    rewrite bind_query, Hf. unfold of_option. rewrite bind_ret.
    rewrite (bool_decide_eq_true_2 _ Hr), (bool_decide_eq_true_2 _ Hp), Hg, Hv, Hd. cbn [negb orb].
    rewrite !bind_pass. eexists. erewrite bind_run.
    2: { rewrite bind_now, Hhb, bind_lift. done. }
    rewrite (proj2 (Z.ltb_ge _ _) Hage), bind_pass, bind_query. wsimpl. by rewrite Hb.
Qed.

Lemma rules_match_diverge x : rules_match expected_rules_sha x = negb (rules_diverge x).
Proof. unfold rules_match, rules_diverge. destruct (truthy _); cbn; [by rewrite negb_involutive|done]. Qed.

Lemma allowed_affinity d wid repo :
  negb (bool_decide (allowed_repos d wid = [])) && negb (bool_decide (repo ∈ allowed_repos d wid)) = false ↔
  affinity_ok d wid repo = true.
Proof.
  unfold allowed_repos, affinity_ok. rewrite andb_false_iff, !negb_false_iff, !bool_decide_eq_true, orb_true_iff, negb_true_iff.
  set (mine := fun a => bool_decide (Affinity.worker_id a = wid)).
  assert (Affinity.repository <$> List.filter mine (worker_repository_affinity d) = [] ↔
    existsb mine (worker_repository_affinity d) = false) as H1.
  { rewrite existsb_false. induction (worker_repository_affinity d) as [|a l IH]; cbn.
    - split; [intros _ x Hx; by apply not_elem_of_nil in Hx|done].
    - destruct (mine a) eqn:E; cbn.
      + split; [done|]. intros H. by rewrite (H a) in E by constructor.
      + rewrite IH. split; [|intros H x Hx; apply H; by constructor].
        intros H x [->|Hx]%elem_of_cons; [done|by apply H]. }
  assert (repo ∈ (Affinity.repository <$> List.filter mine (worker_repository_affinity d)) ↔
    existsb (fun a => mine a && bool_decide (Affinity.repository a = repo)) (worker_repository_affinity d) = true) as H2.
  { rewrite existsb_elem, list_elem_of_fmap. split.
    - intros (a & -> & [Ha Hm]%elem_of_where). exists a. split; [done|]. by rewrite Hm, bool_decide_eq_true_2.
    - intros (a & Ha & [Hm Hr%bool_decide_eq_true]%andb_true_iff). exists a. split; [done|]. by apply elem_of_where. }
  unfold fmap, list_fmap in H1, H2. tauto.
Qed.

(** The worker passes every check of the preflight but the age. *)
Definition age_fresh (x : Worker.t) (now_ : datetime) : bool :=
  match age_seconds (Some (Worker.last_heartbeat_at x)) now_ with
  | None => false | Some ms => ms <=? heartbeat_ttl_seconds * 1000
  end.

Lemma when_nil c r : when c r = [] ↔ c = false.
Proof. by destruct c. Qed.

Lemma precheck_nil d now_ task lane x :
  worker_reasons expected_rules_sha heartbeat_ttl_seconds d now_ task lane x = [] ↔
  age_fresh x now_ = true ∧ Worker.profile x = NORMAL ∧
  (Worker.gateway_ok x = true ∧ Worker.state_validated x = true) ∧ rules_diverge x = false ∧
  busy d (Worker.worker_id x) = false ∧ affinity_ok d (Worker.worker_id x) (Task.repository task) = true ∧
  (∃ l, lane = Some l ∧ Lane.enabled l = true) ∧
  (Worker.role x = builder → ∀ l, lane = Some l → active_count d (Task.repository task) < Lane.max_in_flight l) ∧
  (Worker.role x = validator → Task.builder_worker_id task ≠ Some (Worker.worker_id x)) ∧
  required_role task = Some (Worker.role x).
Proof.
  unfold worker_reasons. rewrite !app_nil, !when_nil. rewrite rules_match_diverge, negb_involutive.
  assert ((match age_seconds (Some (Worker.last_heartbeat_at x)) now_ with
    None => true | Some ms => heartbeat_ttl_seconds * 1000 <? ms end) = false ↔ age_fresh x now_ = true) as ->.
  { unfold age_fresh. destruct (age_seconds _ _); [|done]. by rewrite Z.ltb_ge, Z.leb_le. }
  rewrite allowed_affinity.
  assert ((match lane with None => true | Some l => negb (Lane.enabled l) end) = false ↔
    ∃ l, lane = Some l ∧ Lane.enabled l = true) as ->.
  { destruct lane as [l|]; [|naive_solver]. rewrite negb_false_iff. naive_solver. }
  assert ((bool_decide (Worker.role x = builder) && match lane with
      | Some l => Lane.max_in_flight l <=? active_in_lane d (Task.repository task) | None => false end) = false ↔
    (Worker.role x = builder → ∀ l, lane = Some l → active_count d (Task.repository task) < Lane.max_in_flight l)) as ->.
  { rewrite andb_false_iff, bool_decide_eq_false. unfold active_in_lane, active_count.
    destruct lane as [l|]; [|naive_solver]. rewrite Z.leb_gt. split; [naive_solver lia|]. intros H.
    destruct (decide (Worker.role x = builder)) as [Hb|Hb]; [right|by left]. by apply H. }
  assert ((bool_decide (Worker.role x = validator) &&
      bool_decide (Task.builder_worker_id task = Some (Worker.worker_id x))) = false ↔
    (Worker.role x = validator → Task.builder_worker_id task ≠ Some (Worker.worker_id x))) as ->.
  { rewrite andb_false_iff, !bool_decide_eq_false. destruct (decide (Worker.role x = validator)); naive_solver. }
  rewrite !negb_false_iff, !bool_decide_eq_true, orb_false_iff, !negb_false_iff. done.
Qed.

Lemma fresh_age x now_ hb :
  parse_iso (Worker.last_heartbeat_at x) = Ok hb → nonempty (Worker.last_heartbeat_at x) = true →
  0 ≤ heartbeat_ttl_seconds →
  (now_ - hb ≤ heartbeat_ttl_seconds * MICROS → age_fresh x now_ = true) ∧
  (age_fresh x now_ = true → now_ - hb ≤ heartbeat_ttl_seconds * MICROS + 500).
Proof.
  intros Hp Hn Ht. unfold age_fresh, age_seconds, truthy. cbn. rewrite Hn. cbn. rewrite Hp.
  pose proof (round3_near (Z.max 0 (now_ - hb)) ltac:(lia)). rewrite Z.leb_le. unfold MICROS in *. lia.
Qed.

(** Eligibility of a waiting row, without the lane switch. *)
Lemma eligible_required d x task l :
  wf_task task → required_role task = Some (Worker.role x) →
  (eligible_for d (Worker.role x) (Worker.worker_id x) (Task.fencing_required task) None l task = true ∧
   Lane.enabled l = true ↔
   affinity_ok d (Worker.worker_id x) (Task.repository task) = true ∧ Lane.enabled l = true ∧
   (Worker.role x = builder → active_count d (Task.repository task) < Lane.max_in_flight l) ∧
   (Worker.role x = validator → Task.builder_worker_id task ≠ Some (Worker.worker_id x))).
Proof.
  intros Hwf Hreq. unfold required_role in Hreq. pose proof (wf_in_state _ Hwf) as Hst. unfold wf_state in Hst.
  destruct (Task.state task) eqn:Es; try done; destruct (Task.leased_by task) eqn:El; try done;
    injection Hreq as <-; cbn [eligible_for]; unfold builder_eligible, validator_eligible; rewrite Es, ?El;
    rewrite !andb_true_iff, ?bool_decide_eq_true, ?negb_true_iff, ?bool_decide_eq_false, ?Z.ltb_lt, eqb_true_iff.
  - cbn [only_ok]. naive_solver.
  - destruct Hst as [(sha & b & Hsha & _) _]. rewrite Hsha. cbn [only_ok]. naive_solver.
Qed.

Lemma eligible_role d x task l :
  wf_task task →
  eligible_for d (Worker.role x) (Worker.worker_id x) (Task.fencing_required task) None l task = true →
  required_role task = Some (Worker.role x).
Proof.
  intros Hwf He. pose proof (wf_in_state _ Hwf) as Hst. unfold wf_state in Hst. unfold required_role.
  destruct (Worker.role x); cbn [eligible_for] in He; unfold builder_eligible, validator_eligible in He;
    repeat (apply andb_true_iff in He as [He ?]); apply bool_decide_eq_true in He; rewrite He in *.
  - destruct Hst as [(-> & _) _]. done.
  - match goal with H : bool_decide (Task.leased_by task = None) = true |- _ =>
      apply bool_decide_eq_true in H as -> end. done.
Qed.

Lemma parsed_nonempty s d : parse_iso s = Ok d → nonempty s = true.
Proof. by destruct s. Qed.

(** C13: The preflight agrees with the claim. In the report on a task, a
    registered worker is eligible exactly when [_ready] would accept it at the
    same instant and the query of the claim would consider the task for it on
    an enabled lane, unless its heartbeat is older than the limit by at most
    half a millisecond, which the rounding of the age hides. *)
Theorem preflight_agrees (w : World) (tid : string) (rep : Report.t) (x : Worker.t) :
  Inv (db w) → 0 ≤ heartbeat_ttl_seconds → find_worker (db w) (Worker.worker_id x) = Some x →
  read_task_diagnostics expected_rules_sha heartbeat_ttl_seconds progress_stall_seconds
    (db w) (clock (ticks w)) tid = Ok rep →
  (∀ hb, parse_iso (Worker.last_heartbeat_at x) = Ok hb →
     ¬ (heartbeat_ttl_seconds * MICROS < clock (ticks w) - hb ≤ heartbeat_ttl_seconds * MICROS + 500)) →
  ∃ t v, find_task (db w) tid = Some t ∧ v ∈ Report.workers rep ∧ WorkerView.worker_id v = Worker.worker_id x ∧
    (WorkerView.eligibility_precheck v = true ↔
     (∃ w', ready (Worker.worker_id x) (Worker.role x) w = (Ok x, w')) ∧
     ∃ l, find_lane (db w) (Task.repository t) = Some l ∧ Lane.enabled l = true ∧
       eligible_for (db w) (Worker.role x) (Worker.worker_id x) (Task.fencing_required t) None l t = true).
Proof.
  intros Hi Httl Hf Hrep Hexact. unfold read_task_diagnostics in Hrep.
  destruct (negb _); [done|]. destruct (_ || _); [done|].
  destruct (find_task (db w) tid) as [t|] eqn:Et; [|done]. injection Hrep as <-.
  destruct (find_task_in _ _ _ Et) as [Hin _]. pose proof (rows_wf _ (inv_rows _ Hi) t Hin) as Hwf.
  eexists t, (worker_view _ _ _ _ t _ x). split; [done|]. split; [|split; [done|]].
  { apply list_elem_of_fmap_2, elem_of_sort_by. by eapply first_match. }
  cbn [WorkerView.eligibility_precheck worker_view]. rewrite bool_decide_eq_true, precheck_nil, (ready_iff _ _ _ Hf).
  fold (find_lane (db w) (Task.repository t)).
  assert (age_fresh x (clock (ticks w)) = true ↔ ∃ hb, parse_iso (Worker.last_heartbeat_at x) = Ok hb ∧
    clock (ticks w) - hb ≤ heartbeat_ttl_seconds * MICROS) as Hage.
  { destruct (parse_iso (Worker.last_heartbeat_at x)) as [hb|e] eqn:Ep.
    - destruct (fresh_age x (clock (ticks w)) hb Ep (parsed_nonempty _ _ Ep) Httl) as [H1 H2].
      specialize (Hexact hb eq_refl). split.
      + intros H. exists hb. split; [done|]. specialize (H2 H). lia.
      + intros (hb' & [= <-] & H). auto.
    - split; [|by intros (? & [=] & _)]. unfold age_fresh, age_seconds. cbn.
      destruct (negb _); [done|]. by rewrite Ep. }
  rewrite Hage. split.
  - intros (Hfr & Hp & [Hg Hv] & Hr & Hb & Ha & (l & El & Hen) & Hcap & Hval & Hreq). split.
    + by split.
    + exists l. do 2 (split; [done|]). apply (eligible_required (db w) x t l Hwf Hreq). split_and!; auto.
  - intros ([_ Hp Hg Hv Hr Hfr Hb] & l & El & Hen & He).
    pose proof (eligible_role _ _ _ _ Hwf He) as Hreq.
    destruct (proj1 (eligible_required (db w) x t l Hwf Hreq) (conj He Hen)) as (Ha & _ & Hcap & Hval).
    split_and!; try done; [by exists l|]. intros Hrb l' El'. rewrite El in El'. injection El' as <-. auto.
Qed.
End Agreement.

(** ** Witness: a queued task, and the builder that may claim it *)

Lemma find_worker_id d wid x : find_worker d wid = Some x → Worker.worker_id x = wid.
Proof. intros [_ H]%first_match. by apply bool_decide_eq_true in H. Qed.

Definition demo_report : option Report.t :=
  match read_task_diagnostics expected_rules_sha heartbeat_ttl_seconds progress_stall_seconds
    (db (demo h_queued)) (clock (ticks (demo h_queued))) demo_tid with
  | Ok r => Some r | Raise _ => None
  end.

Lemma preflight_agrees_witness :
  ∃ x rep v, find_worker (db (demo h_queued)) "b1" = Some x ∧ demo_report = Some rep ∧ v ∈ Report.workers rep ∧
    WorkerView.worker_id v = "b1"%string.
Proof.
  destruct (find_worker (db (demo h_queued)) "b1") as [x|] eqn:Hf; [|vm_compute in Hf; discriminate Hf].
  assert (Worker.worker_id x = "b1"%string) as Ex.
  { exact (find_worker_id _ _ _ Hf). }
  destruct (read_task_diagnostics expected_rules_sha heartbeat_ttl_seconds progress_stall_seconds
    (db (demo h_queued)) (clock (ticks (demo h_queued))) demo_tid) as [rep|e] eqn:E.
  - destruct (preflight_agrees (demo h_queued) demo_tid rep x (demo_inv _)) as (t & v & _ & Hv & Ev & _).
    + vm_compute. congruence.
    + rewrite Ex. exact Hf.
    + exact E.
    + intros hb Hhb. assert (exists y, find_worker (db (demo h_queued)) "b1" = Some y ∧
        match parse_iso (Worker.last_heartbeat_at y) with
        | Ok h => (clock (ticks (demo h_queued)) - h <=? heartbeat_ttl_seconds * MICROS) = true | _ => False end) as (y & Hy & Hc).
      { eexists. split; [vm_compute; reflexivity|]. vm_compute. reflexivity. }
      rewrite Hf in Hy. injection Hy as <-. rewrite Hhb in Hc. apply Z.leb_le in Hc. lia.
    + exists x, rep, v. split; [reflexivity|]. split; [unfold demo_report; rewrite E; reflexivity|].
      split; [exact Hv|]. rewrite Ev. exact Ex.
  - exfalso. assert (is_Some demo_report) as [r Hr] by (eexists; vm_compute; reflexivity).
    unfold demo_report in Hr. rewrite E in Hr. discriminate Hr.
Defined.

(** The preflight reports a validator as ineligible on a disabled lane, where
    the query of the claim still grants it the task. *)
Lemma validator_ignores_lane d wid fencing only r t :
  validator_eligible d wid fencing only (r <| Lane.enabled := false |>) t = validator_eligible d wid fencing only r t.
Proof. reflexivity. Qed.
