(* ===== verification/Snapshot.v ===== *)
(** [WorkerPoolStore.snapshot] of [app/store.py]: two recoveries, then one
    read of the whole pool. *)
From S2P Require Import Prelude PyStr Clock Json Schema Store Work Diagnostics.
From Stdlib Require Import Ascii String.
From stdpp Require Import strings.

Local Open Scope Z_scope.

Module WorkerItem.
Record t := mk {
  worker : Worker.t; online : bool; heartbeat_age : Z; active_task : option string;
  active_sha : option string; repository_affinity : list string; why_idle : option string }.
End WorkerItem.

Module LaneItem.
Record t := mk { lane : Lane.t; queued : Z; active : Z }.
End LaneItem.

Module TaskItem.
Record t := mk { columns : list (string * json); progress_age : Z; progress_stalled : bool }.
End TaskItem.

Module Snap.
Record t := mk {
  generated_at : string; workers : list WorkerItem.t; repositories : list LaneItem.t;
  queue : list (TaskState * Z); quarantine_count : Z; progress_stall_seconds : Z; tasks : list TaskItem.t }.
End Snap.

(** The columns of a task that a snapshot shows. *)
Definition safe : list string :=
  ["task_id"; "repository"; "issue_number"; "state"; "priority"; "branch"; "workspace_key"; "base_sha";
   "produced_sha"; "builder_worker_id"; "validator_worker_id"; "leased_by"; "lease_expires_at";
   "lease_generation"; "attempt_id"; "fencing_required"; "attempt_count"; "max_attempts"; "blocked_reason";
   "last_error"; "correlation_id"; "updated_at"; "last_material_progress_at"]%string.

Definition column (row : list (string * json)) (k : string) : json :=
  match first (fun kv => bool_decide (kv.1 = k)) row with Some kv => kv.2 | None => JNull end.
(** [{k: row[k] for k in safe}], the fence as a boolean. *)
Definition safe_columns (t : Task.t) : list (string * json) :=
  map (fun k => let v := column (task_dict t) k in
                (k, if bool_decide (k = "fencing_required"%string) then JBool (truth v) else v)) safe.

Definition count_state (d : DB) (s : TaskState) : Z :=
  Z.of_nat (length (List.filter (fun t => bool_decide (Task.state t = s)) (tasks d))).
Definition count_in (d : DB) (repository : string) (p : Task.t → bool) : Z :=
  Z.of_nat (length (List.filter (fun t => bool_decide (Task.repository t = repository) && p t) (tasks d))).

(** [ORDER BY host,worker_id] *)
Definition host_leb (a b : Worker.t) : bool :=
  if bool_decide (Worker.host a = Worker.host b) then text_leb (Worker.worker_id a) (Worker.worker_id b)
  else text_leb (Worker.host a) (Worker.host b).
(** [ORDER BY priority,created_at,task_id] *)
Definition task_leb (a b : Task.t) : bool :=
  if Task.priority a =? Task.priority b then
    if bool_decide (Task.created_at a = Task.created_at b) then text_leb (Task.task_id a) (Task.task_id b)
    else text_leb (Task.created_at a) (Task.created_at b)
  else Task.priority a <? Task.priority b.
Definition lane_leb (a b : Lane.t) : bool := text_leb (Lane.repository a) (Lane.repository b).

(** [SELECT * FROM tasks WHERE state<>'completed' ORDER BY ...] *)
Definition open_tasks (d : DB) : list Task.t :=
  sort_by task_leb (List.filter (fun t => negb (bool_decide (Task.state t = completed))) (tasks d)).
(** [active.get(worker_id)]: the last open row the worker leases. *)
Definition active_of (rows : list Task.t) (worker_id : string) : option Task.t :=
  first (fun t => bool_decide (Task.leased_by t = Some worker_id) && nonempty worker_id) (rev rows).

Section Snapshot.
Context {self : Store}.

(** [max(0.0, (now - parse_iso(stamp)).total_seconds())], in microseconds. *)
Definition age (now_ : datetime) (stamp : string) : res Z :=
  t ← parse_iso stamp; Ok (Z.max 0 (now_ - t)).

Definition why_idle (d : DB) (online : bool) (task : option Task.t) (w : Worker.t) : option string :=
  if negb online then Some "offline_or_stale"%string
  else if bool_decide (Worker.profile w = ESTUDO) then Some "profile_estudo"%string
  else if negb (Worker.gateway_ok w) || negb (Worker.state_validated w) then Some "governance_not_ready"%string
  else if bool_decide (is_Some task) then None
  else if bool_decide (Worker.role w = builder) && (count_state d queued =? 0) then Some "no_queued_work"%string
  else if bool_decide (Worker.role w = validator) && (count_state d validating =? 0) then Some "no_validation_work"%string
  else Some "available"%string.

Definition worker_item (d : DB) (rows : list Task.t) (now_ : datetime) (w : Worker.t) : res WorkerItem.t :=
  us ← age now_ (Worker.last_heartbeat_at w);
  let online := us <=? heartbeat_ttl_seconds * MICROS in
  let task := active_of rows (Worker.worker_id w) in
  Ok (WorkerItem.mk w online (round3 us) (Task.task_id <$> task) (task ≫= Task.produced_sha)
        (ascending (allowed_repos d (Worker.worker_id w))) (why_idle d online task w)).

Definition task_item (now_ : datetime) (t : Task.t) : res TaskItem.t :=
  us ← age now_ (Task.last_material_progress_at t);
  Ok (TaskItem.mk (safe_columns t) (round3 us)
        (is_active (Task.state t) && (Store.progress_stall_seconds * MICROS <=? us))).

(** [[f(x) for x in l]] *)
Fixpoint collect {A B} (f : A → res B) (l : list A) : res (list B) :=
  match l with
  | [] => Ok []
  | x :: l' => y ← f x; ys ← collect f l'; Ok (y :: ys)
  end.

Definition lane_item (d : DB) (r : Lane.t) : LaneItem.t :=
  LaneItem.mk r (count_in d (Lane.repository r) (fun t => bool_decide (Task.state t = queued)))
    (count_in d (Lane.repository r) active).

(** The read after the recoveries. *)
Definition snapshot_of (d : DB) (now_ : datetime) : res Snap.t :=
  let rows := open_tasks d in
  ws ← collect (worker_item d rows now_) (sort_by host_leb (workers d));
  ts ← collect (task_item now_) rows;
  Ok (Snap.mk (iso now_) ws (map (lane_item d) (sort_by lane_leb (repository_lanes d)))
        (map (fun s => (s, count_state d s)) STATES) (Z.of_nat (length (quarantine d)))
        Store.progress_stall_seconds ts).

Definition snapshot : M World Snap.t :=
  recover_expired_leases ;;
  recover_stalled_tasks ;;
  now_ ← now;
  r ← query (fun d => snapshot_of d now_);
  lift r.
End Snapshot.
#[global] Arguments safe_columns : simpl never.
