(* ===== verification/Api.v ===== *)
(** The HTTP service of [app/main.py] over the SQLite backend: authorisation,
    the constraints of the payloads, every endpoint with its calls and its
    audit record, and the status of the answer.

    A request is a typed payload: the decoding of JSON and the coercions of
    the framework are outside.  The framework runs the dependency of an
    endpoint (the authorisation) first and rejects a payload that violates its
    constraints with 422 before the handler runs. *)
From S2P Require Import Prelude PyStr Clock Json Names Schema Store Claim LeaseOps Effects.
From S2P Require Import Work WorkPool Controller Diagnostics Snapshot.
From Stdlib Require Import Ascii String QArith.
From stdpp Require Import strings.

Local Open Scope Z_scope.

(** ** Payloads *)

Module WorkerRegistration.
Record t := mk {
  worker_id : string; host : string; role : Role; profile : Profile; capacity_score : Z;
  controller_version : option string; rules_sha : option string; gateway_ok : bool;
  state_validated : bool; worktree_root : option string; correlation_id : string }.
End WorkerRegistration.
Module Heartbeat.
Record t := mk {
  correlation_id : string; profile : option Profile; cpu_percent : option Q; memory_percent : option Q;
  gateway_ok : option bool; state_validated : option bool }.
End Heartbeat.
Module RepositoryLaneConfig.
Record t := mk { repository : string; enabled : bool; max_in_flight : Z; correlation_id : string }.
End RepositoryLaneConfig.
Module WorkerAffinityUpdate.
Record t := mk { repositories : list string; correlation_id : string }.
End WorkerAffinityUpdate.
Module TaskCreate.
Record t := mk {
  repository : string; issue_number : Z; request_id : string; correlation_id : string; priority : Z;
  base_sha : string; target_branch : option string; max_attempts : option Z; fencing_required : bool }.
End TaskCreate.
Module ClaimRequest.
Record t := mk { worker_id : string; correlation_id : string; lease_seconds : option Z }.
End ClaimRequest.
Module LeaseMutation.
Record t := mk {
  worker_id : string; lease_token : string; correlation_id : string;
  lease_generation : option Z; attempt_id : option string }.
End LeaseMutation.
Module CheckpointRecord.
Record t := mk {
  worker_id : string; lease_token : string; correlation_id : string; lease_generation : Z;
  attempt_id : string; checkpoint_id : string; sequence : Z; stage : string;
  artifact_kind : option string; artifact_ref : option string; artifact_sha256 : option string;
  next_action : string; effect_id : option string; effect_state : EffectState;
  effect_result_ref : option string }.
End CheckpointRecord.
Module EffectReconciliation.
Record t := mk { lease_generation : Z; outcome : string; readback_ref : string; correlation_id : string }.
End EffectReconciliation.
Module EvidenceRecord.
Record t := mk {
  validation_run_id : string; validation_sha : string; evidence_reference : string;
  independent_readback : bool; positive_control : bool; negative_control : bool; correlation_id : string }.
End EvidenceRecord.
Module MergeResult.
Record t := mk {
  expected_head_sha : string; merged : bool; merge_commit_sha : option string; reason : option string;
  correlation_id : string }.
End MergeResult.

(** ** Constraints: [Field(min_length, max_length, ge, le, pattern)] *)

Definition length_in (lo hi : nat) (s : string) : bool := (lo <=? len s)%nat && (len s <=? hi)%nat.
Definition at_most (hi : nat) (o : option string) : bool :=
  match o with Some s => (len s <=? hi)%nat | None => true end.
Definition between (lo hi n : Z) : bool := (lo <=? n) && (n <=? hi).
Definition opt_between (lo hi : Z) (o : option Z) : bool :=
  match o with Some n => between lo hi n | None => true end.
Definition percent (o : option Q) : bool :=
  match o with Some q => Qle_bool 0 q && Qle_bool q 100 | None => true end.
Definition id_text (s : string) : bool := length_in 1 128 s.
Definition opt_safe (o : option string) : bool :=
  match o with Some s => (len s <=? 128)%nat && fullmatch SAFE_ID s | None => true end.

Definition valid_registration (p : WorkerRegistration.t) : bool :=
  id_text (WorkerRegistration.worker_id p) && id_text (WorkerRegistration.host p) &&
  between 0 100 (WorkerRegistration.capacity_score p) && at_most 64 (WorkerRegistration.controller_version p) &&
  at_most 64 (WorkerRegistration.rules_sha p) && at_most 512 (WorkerRegistration.worktree_root p) &&
  id_text (WorkerRegistration.correlation_id p).
Definition valid_heartbeat (p : Heartbeat.t) : bool :=
  id_text (Heartbeat.correlation_id p) && percent (Heartbeat.cpu_percent p) && percent (Heartbeat.memory_percent p).
Definition valid_lane (p : RepositoryLaneConfig.t) : bool :=
  length_in 3 256 (RepositoryLaneConfig.repository p) && between 1 100 (RepositoryLaneConfig.max_in_flight p) &&
  id_text (RepositoryLaneConfig.correlation_id p).
Definition valid_affinities (p : WorkerAffinityUpdate.t) : bool :=
  (length (WorkerAffinityUpdate.repositories p) <=? 100)%nat && id_text (WorkerAffinityUpdate.correlation_id p).
Definition valid_task (p : TaskCreate.t) : bool :=
  length_in 3 256 (TaskCreate.repository p) && (1 <=? TaskCreate.issue_number p) &&
  length_in 1 256 (TaskCreate.request_id p) && id_text (TaskCreate.correlation_id p) &&
  between 0 10000 (TaskCreate.priority p) && length_in 40 40 (TaskCreate.base_sha p) &&
  at_most 200 (TaskCreate.target_branch p) && opt_between 1 20 (TaskCreate.max_attempts p).
Definition valid_claim (p : ClaimRequest.t) : bool :=
  id_text (ClaimRequest.worker_id p) && id_text (ClaimRequest.correlation_id p) &&
  opt_between 1 3600 (ClaimRequest.lease_seconds p).
Definition valid_task_id (tid : string) : bool := length_in 28 28 tid && fullmatch TASK_ID tid.
Definition valid_lease (p : LeaseMutation.t) : bool :=
  id_text (LeaseMutation.worker_id p) && length_in 16 128 (LeaseMutation.lease_token p) &&
  id_text (LeaseMutation.correlation_id p) &&
  match LeaseMutation.lease_generation p with Some g => 1 <=? g | None => true end &&
  match LeaseMutation.attempt_id p with Some a => id_text a && fullmatch SAFE_ID a | None => true end.
Definition valid_reason (reason : string) : bool := length_in 1 1000 reason.
Definition hex64 (o : option string) : bool :=
  match o with Some s => fullmatch (times 64 hex_any) s | None => true end.
Definition valid_checkpoint (p : CheckpointRecord.t) : bool :=
  valid_lease (LeaseMutation.mk (CheckpointRecord.worker_id p) (CheckpointRecord.lease_token p)
    (CheckpointRecord.correlation_id p) (Some (CheckpointRecord.lease_generation p))
    (Some (CheckpointRecord.attempt_id p))) &&
  id_text (CheckpointRecord.checkpoint_id p) && fullmatch SAFE_ID (CheckpointRecord.checkpoint_id p) &&
  (1 <=? CheckpointRecord.sequence p) && id_text (CheckpointRecord.stage p) &&
  fullmatch SAFE_ID (CheckpointRecord.stage p) && opt_safe (CheckpointRecord.artifact_kind p) &&
  at_most 1000 (CheckpointRecord.artifact_ref p) && hex64 (CheckpointRecord.artifact_sha256 p) &&
  length_in 1 1000 (CheckpointRecord.next_action p) && opt_safe (CheckpointRecord.effect_id p) &&
  at_most 1000 (CheckpointRecord.effect_result_ref p).
Definition valid_reconciliation (p : EffectReconciliation.t) : bool :=
  (1 <=? EffectReconciliation.lease_generation p) &&
  (bool_decide (EffectReconciliation.outcome p = "confirmed"%string) ||
   bool_decide (EffectReconciliation.outcome p = "not_applied"%string)) &&
  length_in 1 1000 (EffectReconciliation.readback_ref p) && id_text (EffectReconciliation.correlation_id p).
Definition valid_evidence (p : EvidenceRecord.t) : bool :=
  length_in 1 256 (EvidenceRecord.validation_run_id p) && length_in 40 40 (EvidenceRecord.validation_sha p) &&
  length_in 1 1000 (EvidenceRecord.evidence_reference p) && id_text (EvidenceRecord.correlation_id p).
Definition valid_merge (p : MergeResult.t) : bool :=
  length_in 40 40 (MergeResult.expected_head_sha p) &&
  match MergeResult.merge_commit_sha p with Some s => length_in 40 40 s | None => true end &&
  at_most 1000 (MergeResult.reason p) && id_text (MergeResult.correlation_id p).

(** ** Requests and answers *)

Inductive Request : Type :=
  | rq_health | rq_authority | rq_contract | rq_workers
  | rq_register (p : WorkerRegistration.t) | rq_heartbeat (worker_id : string) (p : Heartbeat.t)
  | rq_repositories | rq_configure (p : RepositoryLaneConfig.t)
  | rq_affinities (worker_id : string) (p : WorkerAffinityUpdate.t)
  | rq_enqueue (p : TaskCreate.t) | rq_get_task (tid : string) | rq_diagnostics (tid : string)
  | rq_create_work (p : TaskCreate.t) (merge_policy : string) | rq_get_work (wid : string)
  | rq_evidence (wid : string) (p : EvidenceRecord.t) | rq_merge_result (wid : string) (p : MergeResult.t)
  | rq_claim (p : ClaimRequest.t) | rq_claim_exact (tid : string) (p : ClaimRequest.t)
  | rq_claim_fenced_exact (tid : string) (p : ClaimRequest.t)
  | rq_renew (tid : string) (p : LeaseMutation.t) (lease_seconds : option Z)
  | rq_start (tid : string) (p : LeaseMutation.t)
  | rq_validation (tid : string) (p : LeaseMutation.t) (produced_sha : string)
  | rq_complete (tid : string) (p : LeaseMutation.t)
  | rq_fail (tid : string) (p : LeaseMutation.t) (reason : string)
  | rq_block (tid : string) (p : LeaseMutation.t) (reason : string)
  | rq_checkpoint (tid : string) (p : CheckpointRecord.t) | rq_latest_checkpoint (tid : string)
  | rq_reconcile (tid effect_id : string) (p : EffectReconciliation.t)
  | rq_requeue (tid correlation_id : string)
  | rq_recover_leases (x_correlation_id : option string) | rq_recover_stalled (x_correlation_id : option string)
  | rq_snapshot | rq_quarantine.

Module Health.
Record t := mk {
  healthy : bool; auth_configured : bool; reconciliation_auth_configured : bool;
  fenced_cutover_enabled : bool; expected_rules_sha_configured : bool; progress_stall_seconds : Z;
  reconciliation : Controller.t }.
End Health.

(** [public_task(task)] and the fields of the granted lease. *)
Definition public (t : Task.t) : list (string * json) := public_task (task_dict t).

Inductive Body : Type :=
  | b_health (h : Health.t) | b_contract (fields : list (string * string))
  | b_workers (l : list WorkerItem.t) | b_worker (w : Worker.t)
  | b_repositories (l : list LaneItem.t) | b_repository (l : Lane.t)
  | b_affinities (worker_id : string) (repositories : list string)
  | b_created_task (created : bool) (task : list (string * json)) | b_task (task : list (string * json))
  | b_diagnostics (r : Report.t)
  | b_created_work (created : bool) (work : WorkView.t) | b_work (work : WorkView.t)
  | b_claim (claim : option (list (string * json) * Lease.t))
      (recovery_context : option (option (option CheckpointView.t * list CheckpointView.t)))
  | b_checkpoint (created : bool) (c : Checkpoint.t) | b_latest (c : option CheckpointView.t)
  | b_reconciliation (created : bool) (r : Reconciliation.t)
  | b_recovered (n : Z) (correlation_id : string) | b_stalled (c : StallCounts.t) (correlation_id : string)
  | b_snapshot (s : Snap.t) | b_quarantine (l : list Quarantine.t)
  | b_detail (detail : string).

Record Response := mkResponse { status_code : Z; body : Body }.

(** One line of the audit log. *)
Record Audit := mkAudit { event : string; audit_correlation : string; fields : list (string * json) }.

(** The service: the store, the audit log, the controller. *)
Record Service := mkService { world : World; audit : list Audit; controller : Controller.t }.
#[export] Instance Service_eta : Eta Service := fun r => mkService (world r) (audit r) (controller r).

Definition unauthorized : exn := HTTPException 401 "unauthorized".

Section Api.
Context {self : Store}.
(** The configured paths, and [read_text]: [None] for an [OSError]. *)
Context (TOKEN_FILE RECONCILIATION_TOKEN_FILE : string) (read_text : string → option string).

(** ** Authorisation *)

Definition read_token (file : string) : string :=
  if negb (nonempty file) then ""%string
  else match read_text file with Some t => strip t | None => ""%string end.
Definition read_api_token : string := read_token TOKEN_FILE.
Definition read_reconciliation_token : string := read_token RECONCILIATION_TOKEN_FILE.

(** [hmac.compare_digest] of two [str]: only ASCII text is accepted. *)
Definition is_ascii (s : string) : bool := forallb (fun c => (code c <? 128)%N) (chars s).
Definition compare_digest (a b : string) : res bool :=
  if is_ascii a && is_ascii b then Ok (bool_decide (a = b))
  else Raise (TypeError "comparing strings with non-ASCII characters is not supported").

Definition reconciliation_auth_ready : res bool :=
  if nonempty read_reconciliation_token && nonempty read_api_token then
    same ← compare_digest read_reconciliation_token read_api_token; Ok (negb same)
  else Ok false.

(** The check of a bearer token against the expected one. *)
Definition check_bearer (authorization : option string) (expected : string) : res unit :=
  match authorization with
  | Some h =>
      if nonempty h && starts_with "Bearer " h then
        same ← compare_digest (strip (remove_prefix "Bearer " h)) expected;
        if (same : bool) then Ok tt else Raise unauthorized
      else Raise unauthorized
  | None => Raise unauthorized
  end.

Definition require_auth (authorization : option string) : res unit :=
  let expected := read_api_token in
  if negb (nonempty expected) then Raise (HTTPException 503 "worker_pool_auth_not_configured")
  else check_bearer authorization expected.

Definition separation_missing : exn := HTTPException 503 "reconciliation_auth_not_configured_or_not_separated".
Definition require_reconciliation_auth (authorization : option string) : res unit :=
  let expected := read_reconciliation_token in
  if negb (nonempty expected) then Raise separation_missing else
  ready ← reconciliation_auth_ready;
  if negb ready then Raise separation_missing else check_bearer authorization expected.

(** The dependency of each endpoint. *)
Definition authorize (rq : Request) (authorization : option string) : res unit :=
  match rq with
  | rq_health => Ok tt
  | rq_reconcile _ _ _ => require_reconciliation_auth authorization
  | _ => require_auth authorization
  end.

(** The constraints of its payload. *)
Definition valid (rq : Request) : bool :=
  match rq with
  | rq_register p => valid_registration p
  | rq_heartbeat _ p => valid_heartbeat p
  | rq_configure p => valid_lane p
  | rq_affinities _ p => valid_affinities p
  | rq_enqueue p => valid_task p
  | rq_create_work p policy => valid_task p && bool_decide (policy = "governed"%string)
  | rq_evidence _ p => valid_evidence p
  | rq_merge_result _ p => valid_merge p
  | rq_claim p => valid_claim p
  | rq_claim_exact tid p | rq_claim_fenced_exact tid p => valid_claim p && valid_task_id tid
  | rq_renew _ p s => valid_lease p && opt_between 1 3600 s
  | rq_start _ p | rq_complete _ p => valid_lease p
  | rq_validation _ p sha => valid_lease p && length_in 40 40 sha
  | rq_fail _ p r | rq_block _ p r => valid_lease p && valid_reason r
  | rq_checkpoint _ p => valid_checkpoint p
  | rq_reconcile _ _ p => valid_reconciliation p
  | rq_requeue _ cid => id_text cid
  | _ => true
  end.

(** ** Handlers *)

Definition on_store {A} (m : M World A) : M Service A :=
  fun s => let '(r, w) := m (world s) in (r, s <| world := w |>).
(** [_audit] *)
Definition log (event correlation_id : string) (fields : list (string * json)) : M Service unit :=
  fun s => (Ok tt, s <| audit := audit s ++ [mkAudit event correlation_id fields] |>).
Definition answer (status : Z) (b : Body) : M Service Response := mret (mkResponse status b).

(** [str(uuid.uuid4())] from its hexadecimal text. *)
Definition uuid_text (hex : string) : string :=
  let l := chars hex in let part i n := str (take n (drop i l)) in
  part 0%nat 8%nat ++ "-" ++ part 8%nat 4%nat ++ "-" ++ part 12%nat 4%nat ++ "-" ++ part 16%nat 4%nat ++ "-" ++
  part 20%nat 12%nat.
(** [correlation(value)] *)
Definition correlation (value : option string) : M World string :=
  let v := strip (default ""%string value) in
  if nonempty v then mret v else hex ← uuid4_hex; mret (uuid_text hex).

(** [if payload.fencing_required and not _reconciliation_auth_ready()] *)
Definition require_separation (fencing : bool) : res unit :=
  if fencing then ready ← reconciliation_auth_ready; if (ready : bool) then Ok tt else Raise separation_missing
  else Ok tt.

Definition health : M Service Response :=
  separated ← lift reconciliation_auth_ready;
  cutover ← on_store fenced_cutover_status;
  c ← gets controller;
  let auth := nonempty read_api_token in
  let rules := truthy expected_rules_sha in
  answer (if auth && rules then 200 else 503)
    (b_health (Health.mk (auth && rules) auth separated (PoolControl.enabled cutover) rules
       progress_stall_seconds c)).

Definition enqueue (p : TaskCreate.t) : M Service Response :=
  lift (require_separation (TaskCreate.fencing_required p)) ;;
  '(task, created) ← on_store (enqueue_task (TaskCreate.repository p) (TaskCreate.issue_number p)
     (TaskCreate.request_id p) (TaskCreate.correlation_id p) (TaskCreate.priority p)
     (Some (TaskCreate.base_sha p)) (TaskCreate.max_attempts p) (TaskCreate.target_branch p)
     (TaskCreate.fencing_required p));
  log (if (created : bool) then "task.enqueued" else "task.replayed") (TaskCreate.correlation_id p)
    [("task_id"%string, JStr (Task.task_id task)); ("issue_number"%string, JInt (TaskCreate.issue_number p));
     ("branch"%string, JStr (Task.branch task)); ("created"%string, JBool created)] ;;
  answer (if (created : bool) then 201 else 200) (b_created_task created (public task)).

Definition new_work_request (p : TaskCreate.t) (merge_policy : string) : M Service Response :=
  lift (require_separation (TaskCreate.fencing_required p)) ;;
  '(work, created) ← on_store (create_work (TaskCreate.repository p) (TaskCreate.issue_number p)
     (TaskCreate.request_id p) (TaskCreate.correlation_id p) (TaskCreate.base_sha p) (TaskCreate.priority p)
     (TaskCreate.target_branch p) (TaskCreate.max_attempts p) merge_policy (TaskCreate.fencing_required p));
  log (if (created : bool) then "work.created" else "work.replayed") (TaskCreate.correlation_id p)
    [("work_id"%string, JStr (WorkView.work_id work)); ("task_id"%string, JStr (WorkView.task_id work));
     ("phase"%string, JStr (WorkView.phase work))] ;;
  answer (if (created : bool) then 201 else 200) (b_created_work created work).

(** [_claim_impl] *)
Definition claim_impl (p : ClaimRequest.t) (only_task_id : option string) (fencing : bool) : M Service Response :=
  worker ← on_store (get_worker (ClaimRequest.worker_id p));
  granted ← on_store (claim_task (ClaimRequest.worker_id p) (role_text (Worker.role worker))
    (ClaimRequest.correlation_id p) (ClaimRequest.lease_seconds p) only_task_id fencing);
  let who := [("worker_id"%string, JStr (ClaimRequest.worker_id p));
              ("role"%string, JStr (role_text (Worker.role worker)))] in
  match granted with
  | None =>
      log "claim.empty" (ClaimRequest.correlation_id p) who ;;
      answer 200 (b_claim None (if fencing then Some None else None))
  | Some (task, lease) =>
      log "claim.acquired" (ClaimRequest.correlation_id p) (who ++ [("task_id"%string, JStr (Task.task_id task))]) ;;
      (if fencing then
         context ← on_store (get_recovery_context (Task.task_id task));
         answer 200 (b_claim (Some (public task, lease)) (Some (Some context)))
       else answer 200 (b_claim (Some (public task, lease)) None))
  end.

(** A call under a lease that answers with the public row. *)
Definition lease_call (tid : string) (p : LeaseMutation.t) (event : string)
  (op : string → string → string → string → option Z → option string → M World Task.t)
  (extra : Task.t → list (string * json)) : M Service Response :=
  task ← on_store (op tid (LeaseMutation.worker_id p) (LeaseMutation.lease_token p)
    (LeaseMutation.correlation_id p) (LeaseMutation.lease_generation p) (LeaseMutation.attempt_id p));
  log event (LeaseMutation.correlation_id p)
    ([("worker_id"%string, JStr (LeaseMutation.worker_id p)); ("task_id"%string, JStr tid)] ++ extra task) ;;
  answer 200 (b_task (public task)).

Definition checkpoint_request (tid : string) (p : CheckpointRecord.t) : M Service Response :=
  '(c, created) ← on_store (record_checkpoint tid (CheckpointRecord.worker_id p) (CheckpointRecord.lease_token p)
     (CheckpointRecord.lease_generation p) (CheckpointRecord.attempt_id p) (CheckpointRecord.checkpoint_id p)
     (CheckpointRecord.sequence p) (CheckpointRecord.stage p) (CheckpointRecord.next_action p)
     (CheckpointRecord.correlation_id p) (CheckpointRecord.artifact_kind p) (CheckpointRecord.artifact_ref p)
     (CheckpointRecord.artifact_sha256 p) (CheckpointRecord.effect_id p)
     (effect_text (CheckpointRecord.effect_state p)) (CheckpointRecord.effect_result_ref p));
  log "task.checkpoint_recorded" (CheckpointRecord.correlation_id p)
    [("worker_id"%string, JStr (CheckpointRecord.worker_id p)); ("task_id"%string, JStr tid);
     ("checkpoint_id"%string, JStr (CheckpointRecord.checkpoint_id p));
     ("lease_generation"%string, JInt (CheckpointRecord.lease_generation p)); ("created"%string, JBool created);
     ("effect_state"%string, JStr (effect_text (CheckpointRecord.effect_state p)))] ;;
  answer (if (created : bool) then 201 else 200) (b_checkpoint created c).

Definition reconcile_request (tid effect_id : string) (p : EffectReconciliation.t) : M Service Response :=
  '(r, created) ← on_store (reconcile_effect tid effect_id (EffectReconciliation.lease_generation p)
     (EffectReconciliation.outcome p) (EffectReconciliation.readback_ref p) (EffectReconciliation.correlation_id p));
  log "task.effect_reconciled" (EffectReconciliation.correlation_id p)
    [("task_id"%string, JStr tid); ("effect_id"%string, JStr effect_id);
     ("lease_generation"%string, JInt (EffectReconciliation.lease_generation p));
     ("outcome"%string, JStr (EffectReconciliation.outcome p)); ("created"%string, JBool created)] ;;
  answer (if (created : bool) then 201 else 200) (b_reconciliation created r).

Definition diagnostics_error (e : exn) : exn :=
  match e with
  | ValueError _ => HTTPException 422 "invalid_task_id"
  | Error cls _ =>
      if bool_decide (cls = "TaskDiagnosticNotFound"%string) then HTTPException 404 "task_not_found"
      else if bool_decide (cls = "TaskDiagnosticUnavailable"%string)
      then HTTPException 503 "task_diagnostics_unavailable" else e
  | _ => e
  end.
(** [task_diagnostics]: the exceptions of the preflight become statuses. *)
Definition diagnostics_request (tid : string) : M Service Response :=
  d ← on_store (query id); t ← on_store now;
  match read_task_diagnostics expected_rules_sha heartbeat_ttl_seconds progress_stall_seconds d t tid with
  | Ok r => answer 200 (b_diagnostics r)
  | Raise e => raise (diagnostics_error e)
  end.

Definition descriptor : list (string * string) :=
  [("contract_name", "engineering-worker-pool"); ("contract_version", "v1");
   ("service_name", "codex-worker-pool"); ("compatibility_policy", "backward-compatible-additive")]%string.

Definition shared_authority : M Service Response :=
  raise (HTTPException 503 "shared_authority_not_configured").

Definition public_contract : M Service Response :=
  answer 200 (b_contract descriptor).

Definition workers_view : M Service Response :=
  s ← on_store snapshot; answer 200 (b_workers (Snap.workers s)).

Definition register_worker_request (p : WorkerRegistration.t) : M Service Response :=
  w ← on_store (register_worker (WorkerRegistration.worker_id p) (WorkerRegistration.host p)
    (role_text (WorkerRegistration.role p)) (WorkerRegistration.correlation_id p)
    (profile_text (WorkerRegistration.profile p)) (WorkerRegistration.capacity_score p)
    (WorkerRegistration.controller_version p) (WorkerRegistration.rules_sha p)
    (WorkerRegistration.gateway_ok p) (WorkerRegistration.state_validated p) (WorkerRegistration.worktree_root p));
  log "worker.registered" (WorkerRegistration.correlation_id p)
    [("worker_id"%string, JStr (WorkerRegistration.worker_id p)); ("host"%string, JStr (WorkerRegistration.host p));
     ("role"%string, JStr (role_text (WorkerRegistration.role p)))] ;;
  answer 200 (b_worker w).

Definition heartbeat (wid : string) (p : Heartbeat.t) : M Service Response :=
  w ← on_store (heartbeat_worker wid (Heartbeat.correlation_id p) (profile_text <$> Heartbeat.profile p)
    (Heartbeat.cpu_percent p) (Heartbeat.memory_percent p) (Heartbeat.gateway_ok p) (Heartbeat.state_validated p));
  log "worker.heartbeat" (Heartbeat.correlation_id p)
    [("worker_id"%string, JStr wid); ("profile"%string, JStr (profile_text (Worker.profile w)))] ;;
  answer 200 (b_worker w).

Definition repositories_view : M Service Response :=
  s ← on_store snapshot; answer 200 (b_repositories (Snap.repositories s)).

Definition configure_repository_request (p : RepositoryLaneConfig.t) : M Service Response :=
  l ← on_store (configure_repository (RepositoryLaneConfig.repository p) (RepositoryLaneConfig.enabled p)
    (RepositoryLaneConfig.max_in_flight p));
  log "repository.configured" (RepositoryLaneConfig.correlation_id p)
    [("repository"%string, JStr (RepositoryLaneConfig.repository p));
     ("enabled"%string, JBool (RepositoryLaneConfig.enabled p));
     ("max_in_flight"%string, JInt (RepositoryLaneConfig.max_in_flight p))] ;;
  answer 200 (b_repository l).

Definition worker_affinities_request (wid : string) (p : WorkerAffinityUpdate.t) : M Service Response :=
  l ← on_store (replace_worker_affinities wid (WorkerAffinityUpdate.repositories p));
  log "worker.affinity.replaced" (WorkerAffinityUpdate.correlation_id p)
    [("worker_id"%string, JStr wid); ("repository_count"%string, JInt (Z.of_nat (length l)))] ;;
  answer 200 (b_affinities wid l).

Definition get_task_request (tid : string) : M Service Response :=
  t ← on_store (get_task tid); answer 200 (b_task (public t)).

Definition get_work_request (wid : string) : M Service Response :=
  v ← on_store (get_work wid); answer 200 (b_work v).

Definition record_work_evidence (wid : string) (p : EvidenceRecord.t) : M Service Response :=
  v ← on_store (record_evidence wid (EvidenceRecord.validation_run_id p) (EvidenceRecord.validation_sha p)
    (EvidenceRecord.evidence_reference p) (EvidenceRecord.independent_readback p)
    (EvidenceRecord.positive_control p) (EvidenceRecord.negative_control p) (EvidenceRecord.correlation_id p));
  log "work.evidence_verified" (EvidenceRecord.correlation_id p)
    [("work_id"%string, JStr wid); ("task_id"%string, JStr (WorkView.task_id v));
     ("validation_sha"%string, JStr (lower (EvidenceRecord.validation_sha p)))] ;;
  answer 200 (b_work v).

Definition record_merge_request (wid : string) (p : MergeResult.t) : M Service Response :=
  v ← on_store (record_merge_result wid (MergeResult.expected_head_sha p) (MergeResult.merged p)
    (MergeResult.correlation_id p) (MergeResult.merge_commit_sha p) (MergeResult.reason p));
  log "work.merge_result_recorded" (MergeResult.correlation_id p)
    [("work_id"%string, JStr wid); ("task_id"%string, JStr (WorkView.task_id v));
     ("merge_state"%string, JStr (merge_text (WorkView.merge_state (WorkView.merge v))));
     ("expected_head_sha"%string, JStr (lower (MergeResult.expected_head_sha p)))] ;;
  answer 200 (b_work v).

Definition claim (p : ClaimRequest.t) : M Service Response :=
  claim_impl p None false.

Definition claim_exact (tid : string) (p : ClaimRequest.t) : M Service Response :=
  claim_impl p (Some tid) false.

Definition claim_fenced_exact (tid : string) (p : ClaimRequest.t) : M Service Response :=
  claim_impl p (Some tid) true.

Definition renew (tid : string) (p : LeaseMutation.t) (seconds : option Z) : M Service Response :=
  lease_call tid p "lease.renewed" (fun t w k c g a => renew_lease t w k c seconds g a) (fun _ => []).

Definition start_request (tid : string) (p : LeaseMutation.t) : M Service Response :=
  lease_call tid p "task.started" start_task (fun _ => []).

Definition validation (tid : string) (p : LeaseMutation.t) (sha : string) : M Service Response :=
  lease_call tid p "task.validation_requested" (fun t w k c g a => submit_for_validation t w k sha c g a)
    (fun _ => [("produced_sha"%string, JStr sha)]).

Definition complete (tid : string) (p : LeaseMutation.t) : M Service Response :=
  lease_call tid p "task.completed" complete_task (fun _ => []).

Definition fail_request (tid : string) (p : LeaseMutation.t) (reason : string) : M Service Response :=
  lease_call tid p "task.failed_attempt" (fun t w k c g a => fail_task t w k c reason g a)
    (fun t => [("state"%string, JStr (state_text (Task.state t)))]).

Definition block_request (tid : string) (p : LeaseMutation.t) (reason : string) : M Service Response :=
  lease_call tid p "task.blocked_external" (fun t w k c g a => block_task t w k c reason g a)
    (fun _ => [("reason_code"%string, JStr "external_block")]).

Definition latest_checkpoint (tid : string) : M Service Response :=
  c ← on_store (get_latest_checkpoint tid); answer 200 (b_latest c).

Definition requeue (tid : string) (cid : string) : M Service Response :=
  t ← on_store (requeue_blocked tid cid);
  log "task.requeued" cid [("task_id"%string, JStr tid)] ;;
  answer 200 (b_task (public t)).

Definition recover_leases (x : option string) : M Service Response :=
  cid ← on_store (correlation x); n ← on_store recover_expired_leases;
  log "lease.recovery_cycle" cid [("recovered"%string, JInt n)] ;;
  answer 200 (b_recovered n cid).

Definition recover_stalled_request (x : option string) : M Service Response :=
  cid ← on_store (correlation x); c ← on_store recover_stalled_tasks;
  log "progress_watchdog.recovery_cycle" cid
    [("rerouted"%string, JInt (StallCounts.rerouted c)); ("blocked"%string, JInt (StallCounts.blocked c));
     ("failed"%string, JInt (StallCounts.failed c))] ;;
  answer 200 (b_stalled c cid).

Definition snapshot_request : M Service Response :=
  s ← on_store snapshot; answer 200 (b_snapshot s).

Definition quarantine_request : M Service Response :=
  l ← on_store list_quarantine; answer 200 (b_quarantine l).

Definition handle (rq : Request) : M Service Response :=
  match rq with
  | rq_health => health
  | rq_authority => shared_authority
  | rq_contract => public_contract
  | rq_workers => workers_view
  | rq_register p => register_worker_request p
  | rq_heartbeat wid p => heartbeat wid p
  | rq_repositories => repositories_view
  | rq_configure p => configure_repository_request p
  | rq_affinities wid p => worker_affinities_request wid p
  | rq_enqueue p => enqueue p
  | rq_get_task tid => get_task_request tid
  | rq_diagnostics tid => diagnostics_request tid
  | rq_create_work p policy => new_work_request p policy
  | rq_get_work wid => get_work_request wid
  | rq_evidence wid p => record_work_evidence wid p
  | rq_merge_result wid p => record_merge_request wid p
  | rq_claim p => claim p
  | rq_claim_exact tid p => claim_exact tid p
  | rq_claim_fenced_exact tid p => claim_fenced_exact tid p
  | rq_renew tid p seconds => renew tid p seconds
  | rq_start tid p => start_request tid p
  | rq_validation tid p sha => validation tid p sha
  | rq_complete tid p => complete tid p
  | rq_fail tid p reason => fail_request tid p reason
  | rq_block tid p reason => block_request tid p reason
  | rq_checkpoint tid p => checkpoint_request tid p
  | rq_latest_checkpoint tid => latest_checkpoint tid
  | rq_reconcile tid effect_id p => reconcile_request tid effect_id p
  | rq_requeue tid cid => requeue tid cid
  | rq_recover_leases x => recover_leases x
  | rq_recover_stalled x => recover_stalled_request x
  | rq_snapshot => snapshot_request
  | rq_quarantine => quarantine_request
  end.

(** ** Answers *)

(** The exception handlers; an exception without one is an internal error. *)
Definition error_response (e : exn) : Response :=
  match e with
  | NotFoundError m => mkResponse 404 (b_detail m)
  | ConflictError m => mkResponse 409 (b_detail m)
  | ValueError m => mkResponse 422 (b_detail m)
  | HTTPException code detail => mkResponse code (b_detail detail)
  | _ => mkResponse 500 (b_detail "Internal Server Error")
  end.

Definition serve (rq : Request) (authorization : option string) (s : Service) : Response * Service :=
  match authorize rq authorization with
  | Raise e => (error_response e, s)
  | Ok _ =>
      if negb (valid rq) then (mkResponse 422 (b_detail "request_validation_error"), s)
      else match handle rq s with
           | (Ok r, s') => (r, s')
           | (Raise e, s') => (error_response e, s')
           end
  end.
End Api.
