(* ===== verification/ApiProps.v ===== *)
(** Properties of the HTTP service: who may change the store, which moves the
    requests make, and what the answers and the audit log do not show. *)
From S2P Require Import Prelude PyStr Clock Json Names Schema Store Claim LeaseOps Effects.
From S2P Require Import Lifecycle StoreInv StoreRefine StoreProps Scenario.
From S2P Require Import Work WorkInv WorkPool WorkProps Controller Diagnostics Snapshot Api.
From Stdlib Require Import Ascii String QArith.
From stdpp Require Import strings relations pretty.

Local Open Scope Z_scope.

(** ** Authorisation *)

Section Authorisation.
Context {self : Store} (TOKEN_FILE RECONCILIATION_TOKEN_FILE : string) (read_text : string → option string).
Abbreviation api_token := (read_api_token TOKEN_FILE read_text).
Abbreviation reconciliation_token := (read_reconciliation_token RECONCILIATION_TOKEN_FILE read_text).
Abbreviation serve := (serve TOKEN_FILE RECONCILIATION_TOKEN_FILE read_text).
Abbreviation authorize := (authorize TOKEN_FILE RECONCILIATION_TOKEN_FILE read_text).

(** The header carries the token as a bearer. *)
Definition bears (authorization : option string) (token : string) : Prop :=
  ∃ h, authorization = Some h ∧ starts_with "Bearer " h = true ∧
    strip (remove_prefix "Bearer " h) = token ∧ nonempty token = true.

Lemma compare_digest_ok a b r : compare_digest a b = Ok r → r = bool_decide (a = b).
Proof. unfold compare_digest. destruct (_ && _); [|done]. by intros [= <-]. Qed.

Lemma check_bearer_ok auth expected :
  nonempty expected = true → check_bearer auth expected = Ok tt → bears auth expected.
Proof.
  intros Hn. unfold check_bearer. destruct auth as [h|]; [|done].
  destruct (nonempty h && starts_with "Bearer " h) eqn:E; [|done]. apply andb_true_iff in E as [_ E].
  destruct (compare_digest _ _) as [[|]|] eqn:C; try done. intros _.
  apply compare_digest_ok, eq_sym, bool_decide_eq_true in C. exists h. done.
Qed.

Lemma require_auth_ok auth : require_auth TOKEN_FILE read_text auth = Ok tt → bears auth api_token.
Proof.
  unfold require_auth. destruct (nonempty _) eqn:E; cbn; [|done]. by apply check_bearer_ok.
Qed.

Lemma require_reconciliation_ok auth :
  require_reconciliation_auth TOKEN_FILE RECONCILIATION_TOKEN_FILE read_text auth = Ok tt →
  bears auth reconciliation_token ∧ nonempty api_token = true ∧ api_token ≠ reconciliation_token.
Proof.
  unfold require_reconciliation_auth. destruct (nonempty reconciliation_token) eqn:E; cbn; [|done].
  unfold reconciliation_auth_ready. rewrite E. cbn [andb].
  destruct (nonempty api_token) eqn:Ea; cbn; [|done].
  destruct (compare_digest _ _) as [[|]|] eqn:C; cbn; try done. intros H.
  split; [by apply check_bearer_ok|]. split; [done|].
  apply compare_digest_ok, eq_sym, bool_decide_eq_false in C. congruence.
Qed.
End Authorisation.

(** ** Requests as schedules *)

Section Moves.
Context {self : Store} {Hid : Uuids}.

Definition moves {A} (m : M World A) : Prop := ∀ w r w', m w = (r, w') → rtc WStep (w, []) (w', []).

Lemma moves_read {A} (m : M World A) : reads m → moves m.
Proof. intros Hm w r w' H. apply rtc_once, ws_pool. left. by eapply Hm. Qed.
Lemma moves_op {A} (o : Op) (m : M World A) : call o = (m ;; mret tt) → moves m.
Proof.
  intros E w r w' H. apply rtc_once, ws_pool. right. exists o. unfold run. rewrite E.
  unfold mbind, M_bind. rewrite H. by destruct r.
Qed.
Lemma moves_bind {A B} (m : M World A) (f : A → M World B) :
  moves m → (∀ a, moves (f a)) → moves (x ← m; f x).
Proof.
  intros Hm Hf w r w'. unfold mbind, M_bind. destruct (m w) as [[a|e] w1] eqn:E.
  - intros H. etrans; [by eapply Hm|by eapply Hf].
  - intros [= <- <-]. by eapply Hm.
Qed.
Lemma moves_schedule {A} (m : M World A) : (∀ w, rtc WStep (w, []) ((m w).2, [])) → moves m.
Proof. intros Hm w r w' H. specialize (Hm w). by rewrite H in Hm. Qed.

Lemma moves_snapshot : moves snapshot.
Proof.
  unfold snapshot. apply moves_bind; [by apply (moves_op op_expired)|intros _].
  apply moves_bind; [by apply (moves_op op_stalled)|intros _]. apply moves_read.
  apply reads_bind; [apply reads_now|intros t]. apply reads_bind; [apply reads_query|intros r]. apply reads_lift.
Qed.

(** The same of the handlers: they move the store, and only log besides. *)
Definition serves {A} (m : M Service A) : Prop :=
  ∀ s r s', m s = (r, s') → rtc WStep (world s, []) (world s', []) ∧ controller s' = controller s.

Lemma serves_store {A} (m : M World A) : moves m → serves (on_store m).
Proof.
  intros Hm s r s'. unfold on_store. destruct (m (world s)) as [x w] eqn:E. intros [= <- <-].
  split; [|done]. by eapply Hm.
Qed.
Lemma serves_ret {A} (a : A) : serves (mret a).
Proof. intros s r s' [= <- <-]. split; [apply rtc_refl|done]. Qed.
Lemma serves_answer n b : serves (answer n b).
Proof. apply serves_ret. Qed.
Lemma serves_raise {A} e : serves (raise (A := A) e).
Proof. intros s r s' [= <- <-]. split; [apply rtc_refl|done]. Qed.
Lemma serves_lift {A} (x : res A) : serves (lift x).
Proof. intros s r s' [= <- <-]. split; [apply rtc_refl|done]. Qed.
Lemma serves_gets {A} (f : Service → A) : serves (gets f).
Proof. intros s r s' [= <- <-]. split; [apply rtc_refl|done]. Qed.
Lemma serves_log e c f : serves (log e c f).
Proof. intros s r s' [= <- <-]. split; [apply rtc_refl|done]. Qed.
Lemma serves_bind {A B} (m : M Service A) (f : A → M Service B) :
  serves m → (∀ a, serves (f a)) → serves (x ← m; f x).
Proof.
  intros Hm Hf s r s'. unfold mbind, M_bind. destruct (m s) as [[a|e] s1] eqn:E.
  - intros H. destruct (Hm _ _ _ E) as [H1 E1], (Hf _ _ _ _ H) as [H2 E2].
    split; [by etrans|congruence].
  - intros [= <- <-]. by eapply Hm.
Qed.
End Moves.

Create HintDb serves.
#[export] Hint Resolve serves_answer serves_raise serves_lift serves_gets serves_log : serves.

(** Unfolds the handlers that are one call and its answer. *)
Ltac handlers :=
  unfold shared_authority, public_contract, workers_view, register_worker_request, heartbeat, repositories_view, configure_repository_request, worker_affinities_request, get_task_request, get_work_request, record_work_evidence, record_merge_request, claim, claim_exact, claim_fenced_exact, renew, start_request, validation, complete, fail_request, block_request, latest_checkpoint, requeue, recover_leases, recover_stalled_request, snapshot_request, quarantine_request.

Ltac serves_tac :=
  repeat lazymatch goal with
  | |- ∀ _, _ => intro
  | |- serves (mbind _ _) => apply serves_bind
  | |- serves (on_store _) => apply serves_store
  | |- serves (match ?x with _ => _ end) => destruct x
  | |- serves _ => solve [auto with serves]
  end.

Section Handlers.
Context {self : Store} {Hid : Uuids}.
Context (TOKEN_FILE RECONCILIATION_TOKEN_FILE : string) (read_text : string → option string).

Lemma moves_correlation x : moves (correlation x).
Proof.
  apply moves_read. unfold correlation. cbv zeta. apply reads_if; [apply reads_ret|].
  apply reads_bind; [apply reads_uuid|intros h; apply reads_ret].
Qed.
Lemma reads_latest tid : reads (get_latest_checkpoint tid).
Proof. unfold get_latest_checkpoint. auto 10 with reads. Qed.

Lemma serves_lease tid p ev op extra :
  (∀ w k c g a, moves (op tid w k c g a)) → serves (lease_call tid p ev op extra).
Proof. intros Hop. unfold lease_call. serves_tac. apply Hop. Qed.

Lemma serves_claim p only fencing : serves (claim_impl p only fencing).
Proof.
  unfold claim_impl. apply serves_bind; [apply serves_store, moves_read, reads_get_worker|intros w].
  apply serves_bind.
  { apply serves_store. by apply (moves_op (op_claim (ClaimRequest.worker_id p) (role_text (Worker.role w))
      (ClaimRequest.correlation_id p) (ClaimRequest.lease_seconds p) only fencing)). }
  intros [[t l]|]; cbv zeta; serves_tac. apply moves_read. unfold get_recovery_context.
  apply reads_bind; [apply reads_latest|intros c]. apply reads_bind; [apply reads_query|intros e; apply reads_ret].
Qed.

Lemma handle_moves rq : serves (handle TOKEN_FILE RECONCILIATION_TOKEN_FILE read_text rq).
Proof.
  destruct rq; cbn [handle]; handlers.
  - unfold health. serves_tac. apply moves_read, reads_query.
  - serves_tac.
  - serves_tac.
  - serves_tac. apply moves_snapshot.
  - serves_tac. by eapply (moves_op (op_register _ _ _ _ _ _ _ _ _ _ _)).
  - serves_tac. by eapply (moves_op (op_heartbeat _ _ _ _ _ _ _)).
  - serves_tac. apply moves_snapshot.
  - serves_tac. by eapply (moves_op (op_configure _ _ _)).
  - serves_tac. by eapply (moves_op (op_affinities _ _)).
  - unfold enqueue. serves_tac. by eapply (moves_op (op_enqueue _ _ _ _ _ _ _ _ _)).
  - serves_tac. apply moves_read, reads_get_task.
  - unfold diagnostics_request. apply serves_bind; [apply serves_store, moves_read, reads_query|intros d].
    apply serves_bind; [apply serves_store, moves_read, reads_now|intros t].
    destruct (read_task_diagnostics _ _ _ _ _ _); auto with serves.
  - unfold new_work_request. serves_tac. apply moves_schedule. intros w. apply schedule_create.
  - serves_tac. apply moves_read. intros w r w' H. by rewrite (get_work_world _ _ _ _ H).
  - serves_tac. apply moves_schedule. intros w. apply schedule_evidence.
  - serves_tac. apply moves_schedule. intros w. apply schedule_merge.
  - apply serves_claim.
  - apply serves_claim.
  - apply serves_claim.
  - apply serves_lease. intros. by apply (moves_op (op_renew tid w k c lease_seconds g a)).
  - apply serves_lease. intros. by apply (moves_op (op_start tid w k c g a)).
  - apply serves_lease. intros. by apply (moves_op (op_submit tid w k produced_sha c g a)).
  - apply serves_lease. intros. by apply (moves_op (op_complete tid w k c g a)).
  - apply serves_lease. intros. by apply (moves_op (op_fail tid w k c reason g a)).
  - apply serves_lease. intros. by apply (moves_op (op_block tid w k c reason g a)).
  - unfold checkpoint_request. serves_tac.
    by eapply (moves_op (op_checkpoint _ _ _ _ _ _ _ _ _ _ _ _ _ _ _ _)).
  - serves_tac. apply moves_read, reads_latest.
  - unfold reconcile_request. serves_tac. by eapply (moves_op (op_reconcile_effect _ _ _ _ _ _)).
  - serves_tac. by eapply (moves_op (op_requeue _ _)).
  - serves_tac; [apply moves_correlation|by apply (moves_op op_expired)].
  - serves_tac; [apply moves_correlation|by apply (moves_op op_stalled)].
  - serves_tac. apply moves_snapshot.
  - serves_tac. apply moves_read, reads_query.
Qed.
End Handlers.

(** ** What an answer shows *)

Definition no_token (row : list (string * json)) : Prop := "lease_token"%string ∉ row.*1.
(** No task row in an answer carries its lease token. *)
Definition hides (b : Body) : Prop :=
  match b with
  | b_task row | b_created_task _ row => no_token row
  | b_work v | b_created_work _ v => no_token (WorkView.task v)
  | b_claim (Some (row, _)) _ => no_token row
  | b_snapshot s => ∀ t, t ∈ Snap.tasks s → no_token (TaskItem.columns t)
  | _ => True
  end.

Section Hides.
Context {self : Store}.

Lemma public_task_hides row : no_token (public_task row).
Proof.
  unfold no_token, public_task. intros H.
  apply list_elem_of_fmap in H as (kv & E & H). apply list_elem_of_fmap in H as (kv' & -> & H).
  apply elem_of_where in H as [_ H]. apply negb_true_iff, bool_decide_eq_false in H.
  case_bool_decide; cbn in E; congruence.
Qed.
Lemma public_hides t : no_token (public t).
Proof. apply public_task_hides. Qed.

Lemma view_hides row w v w' : view row w = (Ok v, w') → no_token (WorkView.task v).
Proof.
  unfold view. intros H. apply bind_ok in H as (t & w1 & _ & H). apply ret_ok in H as [<- _].
  cbn [WorkView.task]. apply public_task_hides.
Qed.
Lemma get_work_hides wid w v w' : Work.get_work wid w = (Ok v, w') → no_token (WorkView.task v).
Proof. unfold Work.get_work. intros H. apply bind_ok in H as (r & w1 & _ & H). by eapply view_hides. Qed.
Lemma finish_hides wid x w v w' :
  (∀ u, x = inl u → no_token (WorkView.task u)) → finish wid x w = (Ok v, w') → no_token (WorkView.task v).
Proof.
  intros Hx. destruct x as [u|p]; cbn.
  - intros [= <- <-]. by apply Hx.
  - intros H. apply bind_ok in H as (? & w1 & _ & H). by eapply get_work_hides.
Qed.

Ltac end_if H := match goal with H' : (if _ then _ else _) _ = _ |- _ => rename H' into H end.
Lemma evidence_hides wid run sha ref rb pc nc cid w v w' :
  record_evidence wid run sha ref rb pc nc cid w = (Ok v, w') → no_token (WorkView.task v).
Proof.
  unfold record_evidence. intros H. apply bind_ok in H as (x & w1 & Hr & H).
  eapply finish_hides; [|exact H]. intros u ->. unfold read_evidence in Hr. cbv zeta in Hr. minv Hr. end_if He.
  case_bool_decide; [|by sinv He]. sinv He. simplify_eq. by eapply view_hides.
Qed.
Lemma merge_hides wid sha merged cid mc reason w v w' :
  record_merge_result wid sha merged cid mc reason w = (Ok v, w') → no_token (WorkView.task v).
Proof.
  unfold record_merge_result. intros H. apply bind_ok in H as (x & w1 & Hr & H).
  eapply finish_hides; [|exact H]. intros u ->. unfold read_merge in Hr. cbv zeta in Hr. minv Hr. end_if He.
  case_bool_decide; [sinv He; simplify_eq; by eapply view_hides|].
  destruct (_ && _); sinv He; simplify_eq; by eapply view_hides.
Qed.
Lemma create_hides r n q c b p t m policy f w v new w' :
  create_work r n q c b p t m policy f w = (Ok (v, new), w') → no_token (WorkView.task v).
Proof.
  unfold create_work. intros H. apply bind_ok in H as ([task stamp] & w1 & _ & H).
  apply bind_ok in H as (x & w2 & _ & H). apply bind_ok in H as (u & w3 & Hg & H). apply ret_ok in H as [[= <- <-] _].
  by eapply get_work_hides.
Qed.

Lemma collect_elem {A B} (f : A → res B) l ys y :
  collect f l = Ok ys → y ∈ ys → ∃ x, x ∈ l ∧ f x = Ok y.
Proof.
  revert ys. induction l as [|x l IH]; cbn; intros ys.
  - intros [= <-] Hy. by apply not_elem_of_nil in Hy.
  - destruct (f x) as [z|] eqn:E; cbn; [|done]. destruct (collect f l) as [zs|]; cbn; [|done].
    intros [= <-] [->|Hy]%elem_of_cons; [exists x; split; [constructor|done]|].
    destruct (IH zs eq_refl Hy) as (u & Hu & Eu). exists u. split; [by constructor|done].
Qed.

Lemma safe_hides t : no_token (safe_columns t).
Proof.
  unfold no_token, safe_columns. intros H. apply list_elem_of_fmap in H as (kv & Ek & H).
  apply list_elem_of_In, in_map_iff in H as (k & <- & H).
  cbn [fst] in Ek. subst k. unfold safe in H. cbn [In] in H. repeat destruct H as [H|H]; done.
Qed.

Lemma snapshot_hides w s w' : snapshot w = (Ok s, w') → ∀ t, t ∈ Snap.tasks s → no_token (TaskItem.columns t).
Proof.
  unfold snapshot. intros H t Ht. apply bind_ok in H as (? & w1 & _ & H). apply bind_ok in H as (? & w2 & _ & H).
  rewrite bind_now, bind_query in H. apply lift_ok in H as [H _]. unfold snapshot_of in H.
  destruct (collect (worker_item _ _ _) _) as [ws|]; cbn in H; [|done].
  destruct (collect (task_item _) _) as [ts|] eqn:E; cbn in H; [|done]. injection H as <-. cbn in Ht.
  destruct (collect_elem _ _ _ _ E Ht) as (u & _ & Hu). unfold task_item in Hu.
  destruct (age _ _) as [us|]; cbn in Hu; [|done]. injection Hu as <-. cbn [TaskItem.columns].
  apply safe_hides.
Qed.

Context (TOKEN_FILE RECONCILIATION_TOKEN_FILE : string) (read_text : string → option string).

Lemma on_store_ok {A} (m : M World A) s a s' :
  on_store m s = (Ok a, s') → ∃ w', m (world s) = (Ok a, w').
Proof. unfold on_store. destruct (m (world s)) as [x w]. intros [= -> _]. eauto. Qed.

Lemma answer_ok n b s r s' : answer n b s = (Ok r, s') → body r = b.
Proof. by intros [= <- _]. Qed.

(** A handler that ends in an answer built from one result. *)
Lemma served_result {A} (m : M World A) (f : A → M Service Response) s r s' :
  (x ← on_store m; f x) s = (Ok r, s') → ∃ a w1 s1, m (world s) = (Ok a, w1) ∧ f a s1 = (Ok r, s').
Proof.
  intros H. apply bind_ok in H as (a & s1 & Hs & H). apply on_store_ok in Hs as [w1 Hs]. eauto.
Qed.
Lemma logged {A} e c l (m : M Service A) s r s' : (log e c l ;; m) s = (Ok r, s') → ∃ s1, m s1 = (Ok r, s').
Proof. intros H. apply bind_ok in H as (u & s1 & _ & H). eauto. Qed.

Lemma lease_call_hides tid p ev op extra s r s' :
  lease_call tid p ev op extra s = (Ok r, s') → hides (body r).
Proof.
  unfold lease_call. intros H. apply served_result in H as (t & w1 & s1 & _ & H). apply logged in H as [s2 H].
  apply answer_ok in H as ->. apply public_hides.
Qed.
Lemma claim_hides p only fencing s r s' : claim_impl p only fencing s = (Ok r, s') → hides (body r).
Proof.
  unfold claim_impl. intros H. apply served_result in H as (wk & w1 & s1 & _ & H).
  apply served_result in H as ([[t l]|] & w2 & s2 & _ & H); cbv zeta in H; apply logged in H as [s3 H].
  - destruct fencing; [apply served_result in H as (c & w4 & s4 & _ & H)|];
      apply answer_ok in H as ->; apply public_hides.
  - by apply answer_ok in H as ->.
Qed.

Ltac served :=
  match goal with H : (mbind _ (on_store _)) _ = (Ok _, _) |- _ =>
    apply served_result in H as (? & ? & ? & _ & H) end.
Ltac shown :=
  match goal with H : _ = (Ok ?r, _) |- hides (body ?r) =>
    repeat apply logged in H as [? H]; apply answer_ok in H as ->; try exact I end.

Lemma handle_hides rq s r s' :
  handle TOKEN_FILE RECONCILIATION_TOKEN_FILE read_text rq s = (Ok r, s') → hides (body r).
Proof.
  destruct rq; cbn [handle]; handlers; intros H;
    try solve [by apply lease_call_hides in H | by apply claim_hides in H].
  - unfold health in H. apply bind_ok in H as (sep & s1 & _ & H). served. apply bind_ok in H as (c & s2 & _ & H). shown.
  - done.
  - shown.
  - served. shown.
  - served. shown.
  - served. shown.
  - served. shown.
  - served. shown.
  - served. shown.
  - unfold enqueue in H. apply bind_ok in H as (u & s1 & _ & H). apply served_result in H as ([t new] & w1 & s2 & _ & H).
    shown. apply public_hides.
  - served. shown. apply public_hides.
  - unfold diagnostics_request in H. served. served. destruct (read_task_diagnostics _ _ _ _ _ _); [shown|done].
  - unfold new_work_request in H. apply bind_ok in H as (u & s1 & _ & H).
    apply served_result in H as ([v new] & w1 & s2 & Hv & H). shown. by eapply create_hides.
  - apply served_result in H as (v & w1 & s2 & Hv & H). shown. by eapply get_work_hides.
  - apply served_result in H as (v & w1 & s2 & Hv & H). shown. by eapply evidence_hides.
  - apply served_result in H as (v & w1 & s2 & Hv & H). shown. by eapply merge_hides.
  - unfold checkpoint_request in H. apply served_result in H as ([c new] & w1 & s2 & _ & H). shown.
  - served. shown.
  - unfold reconcile_request in H. apply served_result in H as ([c new] & w1 & s2 & _ & H). shown.
  - served. shown. apply public_hides.
  - served. served. shown.
  - served. served. shown.
  - apply served_result in H as (v & w1 & s2 & Hv & H). shown. exact (snapshot_hides _ _ _ Hv).
  - served. shown.
Qed.
End Hides.

(** ** Properties *)

Section Claims.
Context {self : Store} {Hid : Uuids}.
Context (TOKEN_FILE RECONCILIATION_TOKEN_FILE : string) (read_text : string → option string).
Abbreviation api_token := (read_api_token TOKEN_FILE read_text).
Abbreviation reconciliation_token := (read_reconciliation_token RECONCILIATION_TOKEN_FILE read_text).
Abbreviation serve := (serve TOKEN_FILE RECONCILIATION_TOKEN_FILE read_text).

(** C14: Only the bearer of the configured token moves the service. A request
    other than the health probe that changes anything carried the API token,
    or, to reconcile an effect, the reconciliation token, which differs from
    the API token; and its payload satisfied the constraints. *)
Theorem only_bearers_change (rq : Request) (auth : option string) (s s' : Service) (resp : Response) :
  serve rq auth s = (resp, s') → s' ≠ s → rq ≠ rq_health →
  valid rq = true ∧
  match rq with
  | rq_reconcile _ _ _ => bears auth reconciliation_token ∧ api_token ≠ reconciliation_token
  | _ => bears auth api_token
  end.
Proof.
  unfold Api.serve. intros H Hne Hh.
  destruct (authorize TOKEN_FILE RECONCILIATION_TOKEN_FILE read_text rq auth) as [[]|e] eqn:Ha; [|by injection H as _ <-].
  destruct (valid rq); cbn in H; [|by injection H as _ <-]. split; [done|].
  destruct rq; try done; cbn [authorize] in Ha; try by apply require_auth_ok in Ha.
  apply require_reconciliation_ok in Ha as (? & _ & ?). done.
Qed.

(** The service after a history of requests. *)
Definition serve_all (rqs : list (Request * option string)) (s : Service) : Service :=
  fold_left (fun s rq => (serve rq.1 rq.2 s).2) rqs s.

Lemma serve_moves rq auth s : rtc WStep (world s, []) (world (serve rq auth s).2, []).
Proof.
  unfold Api.serve. destruct (authorize _ _ _ _ _); [|apply rtc_refl]. destruct (valid rq); cbn [negb]; [|apply rtc_refl].
  destruct (handle _ _ _ rq s) as [[r|e] s'] eqn:E; by apply handle_moves in E as [E _].
Qed.
Lemma serve_all_moves rqs s : rtc WStep (world s, []) (world (serve_all rqs s), []).
Proof.
  revert s. induction rqs as [|rq rqs IH]; intros s; [apply rtc_refl|]. etrans; [apply serve_moves|apply IH].
Qed.

(** C15: The service refines the pool and the orchestrator: whatever requests
    are served from an empty database, with whatever authorisation and
    answers, the store reached is one of their schedules; it keeps the
    invariants of the pool, and every merged run has complete evidence. *)
Theorem service_refines (rqs : list (Request * option string)) (n k : nat) (c : Controller.t) :
  let w := world (serve_all rqs (mkService (mkWorld empty_db n k) [] c)) in
  rtc WStep (mkWorld empty_db n k, []) (w, []) ∧ Inv (db w) ∧
  ∀ r, r ∈ work_runs (db w) → WorkRun.merge_state r = mg_merged → evidence_complete (db w) r.
Proof.
  intros w. pose proof (serve_all_moves rqs (mkService (mkWorld empty_db n k) [] c)) as Hs.
  fold w in Hs. cbn [world] in Hs. split; [exact Hs|].
  assert (machine_ok (w, [])) as [Hi _].
  { eapply machine_steps; [exact Hs|]. split; [|constructor]. split; cbn; [apply inv_empty|constructor|].
    intros x Hx. by apply not_elem_of_nil in Hx. }
  split; [apply (wi_pool _ Hi)|]. intros r Hr Hm. destruct (wi_rows _ Hi _ Hr) as [_ _ Hev _].
  destruct (WorkRun.evidence_state r); [congruence|]. apply Hev.
Qed.

(** No task row in an answer, be it of a task, a run, a claim or a
    snapshot, carries a lease token; the token reaches the claimant in the
    lease of the answer to its claim only. *)
Theorem answers_hide_tokens (rq : Request) (auth : option string) (s : Service) :
  hides (body (serve rq auth s).1).
Proof.
  unfold Api.serve. destruct (authorize _ _ _ _ _) as [?|e]; [|by destruct e].
  destruct (valid rq); cbn [negb]; [|done].
  destruct (handle _ _ _ rq s) as [[r|e] s'] eqn:E; [|by destruct e]. cbn [fst].
  by eapply handle_hides.
Qed.
End Claims.

(** ** Witness: a configured service, and a request that moves it *)

(** The files of the two tokens. *)
Definition demo_files (path : string) : option string :=
  if bool_decide (path = "api"%string) then Some "secret-api"%string
  else if bool_decide (path = "rec"%string) then Some "secret-rec"%string else None.
Definition demo_service (h : list Op) : Service :=
  mkService (demo h) [] (Controller.mk 5 h_none false None None None 0 None).
Definition demo_lane : Request :=
  rq_configure (RepositoryLaneConfig.mk "acme/repo" true 2 "c").

Lemma only_bearers_change_witness : bears (Some "Bearer secret-api"%string) "secret-api".
Proof.
  destruct (serve "api" "rec" demo_files demo_lane (Some "Bearer secret-api"%string) (demo_service h_setup)) as [resp s'] eqn:E.
  assert (s' ≠ demo_service h_setup) as Hne.
  { intros ->. set (x := serve "api" "rec" demo_files demo_lane (Some "Bearer secret-api"%string) (demo_service h_setup)) in E.
    assert (length (audit x.2) = 1%nat) as H by (vm_compute; reflexivity). rewrite E in H. discriminate H. }
  apply (only_bearers_change "api" "rec" demo_files demo_lane _ _ _ _ E Hne). discriminate.
Defined.

(** A run of the service from registration to merge: a store whose lease
    tokens have the length that the payloads ask for, and the answers of the
    eleven requests. *)
Definition http_store : Store := {|
  clock := fun n => 63844934399250000 + Z.of_nat n * MICROS;
  uuid4 := fun n => String.append "0123456789abcdef-" (pretty (N.of_nat n));
  heartbeat_ttl_seconds := 90; default_lease_seconds := 120; default_max_attempts := 3;
  progress_stall_seconds := 300; expected_rules_sha := None |}.
Lemma http_uuids : @Uuids http_store.
Proof. intros n. reflexivity. Qed.
Definition http_lease (w : string) (n : nat) : LeaseMutation.t :=
  LeaseMutation.mk w (@uuid4 http_store n) "c" None None.
Definition http_requests : list (Request * option string) :=
  map (fun rq => (rq, Some "Bearer secret-api"%string)) [
    rq_register (WorkerRegistration.mk "b1" "h" builder NORMAL 50 None None true true None "c");
    rq_register (WorkerRegistration.mk "v1" "h" validator NORMAL 50 None None true true None "c");
    rq_configure (RepositoryLaneConfig.mk "acme/repo" true 1 "c");
    rq_create_work (TaskCreate.mk "acme/repo" 12 "r1" "c" 100 demo_base None None false) "governed";
    rq_claim (ClaimRequest.mk "b1" "c" None);
    rq_start demo_tid (http_lease "b1" 0);
    rq_validation demo_tid (http_lease "b1" 0) demo_sha;
    rq_claim (ClaimRequest.mk "v1" "c" None);
    rq_complete demo_tid (http_lease "v1" 2);
    rq_evidence demo_wid (EvidenceRecord.mk "run-9" demo_sha "artifact://e" true true true "c");
    rq_merge_result demo_wid (MergeResult.mk demo_sha true (Some demo_commit) None "c")]%string.
Definition http_service : Service :=
  mkService (mkWorld empty_db 0 0) [] (Controller.mk 5 h_none false None None None 0 None).
Definition http_final : Service := @serve_all http_store "api" "rec" demo_files http_requests http_service.

Lemma service_refines_witness :
  ∃ r, work_runs (db (world http_final)) = [r] ∧ WorkRun.merge_state r = mg_merged ∧
    evidence_complete (db (world http_final)) r.
Proof.
  pose proof (@service_refines http_store http_uuids "api" "rec" demo_files http_requests 0 0
    (Controller.mk 5 h_none false None None None 0 None)) as H.
  change (@serve_all http_store "api" "rec" demo_files http_requests _) with http_final in H.
  cbv zeta in H. destruct H as (_ & _ & H).
  destruct (work_runs (db (world http_final))) as [|r [|? ?]] eqn:E;
    [vm_compute in E; discriminate E| |vm_compute in E; discriminate E].
  assert (WorkRun.merge_state <$> work_runs (db (world http_final)) = [mg_merged]) as Hm by (vm_compute; reflexivity).
  rewrite E in Hm. injection Hm as Hm. exists r. split; [done|]. split; [done|].
  apply H; [apply list_elem_of_here|exact Hm].
Defined.

(** A bearer outside ASCII is not refused but ends in an internal error: the
    comparison of the tokens raises. *)
Theorem non_ascii_bearer_is_internal_error :
  status_code (serve "api" "rec" demo_files rq_contract
    (Some (u8 "Bearer segrédo")) (demo_service [])).1 = 500.
Proof. vm_compute. reflexivity. Qed.

(** An issue number beyond 64 bits satisfies the constraints of the payload
    and ends in an internal error. *)
Theorem huge_issue_number_is_internal_error :
  status_code (serve "api" "rec" demo_files
    (rq_enqueue (TaskCreate.mk "acme/repo" (2 ^ 63) "r" "c" 100 demo_base None None false))
    (Some "Bearer secret-api"%string) (demo_service [])).1 = 500.
Proof. vm_compute. reflexivity. Qed.
