(* ===== verification/PoolSql.v ===== *)
(** [compile_pool_sql] of [app/postgres_authority.py]: the statements of the
    store, written for SQLite, are translated to the placeholders of the
    PostgreSQL driver by one scan of the text. *)
From S2P Require Import Prelude PyStr Names.
From Stdlib Require Import Ascii String.
From stdpp Require Import strings.

Local Open Scope Z_scope.

Definition authority_error (code : string) : exn := Error "AuthorityUnavailable" code.
(** [_need] *)
Definition need (condition : bool) (code : string) : res unit :=
  if condition then Ok tt else Raise (authority_error code).

(** ** Searching *)

Fixpoint prefix_of (p l : list ascii) : option (list ascii) :=
  match p, l with
  | [], _ => Some l
  | a :: p', b :: l' => if Ascii.eqb a b then prefix_of p' l' else None
  | _, [] => None
  end.
(** The text up to and including the first occurrence of [p], and the rest. *)
Fixpoint find_through (p l : list ascii) : option (list ascii * list ascii) :=
  match prefix_of p l with
  | Some rest => Some (p, rest)
  | None => match l with
            | [] => None
            | c :: l' => '(a, b) ← find_through p l'; Some (c :: a, b)
            end
  end.

(** The class of identifiers in ASCII, and the character after a position. *)
Definition ident_char : ascii → bool := either alnum (one_of "_").
Definition ident_start : ascii → bool := either (either is_lower is_upper) (one_of "_").
Definition not_ident (o : option ascii) : bool := match o with Some c => negb (ident_char c) | None => true end.

(** ** [INSERT OR IGNORE INTO] *)

Definition spaces1 (l : list ascii) : option (list ascii) :=
  match span is_space l with (_ :: _, rest) => Some rest | _ => None end.
Definition word_end (l : list ascii) : bool := match l with c :: _ => negb (is_word c) | [] => true end.

(** The leading space and the text after [IGNORE], when the statement starts
    with [INSERT OR IGNORE INTO]. *)
Definition match_ignored (l : list ascii) : option (list ascii * list ascii) :=
  let '(ws, l0) := span is_space l in
  l1 ← prefix_ci (chars "insert") l0; l2 ← spaces1 l1;
  l3 ← prefix_ci (chars "or") l2; l4 ← spaces1 l3;
  l5 ← prefix_ci (chars "ignore") l4; l6 ← spaces1 l5;
  l7 ← prefix_ci (chars "into") l6;
  if word_end l7 then Some (ws, l5) else None.

(** [text.rstrip().removesuffix(";")] *)
Definition without_semicolon (l : list ascii) : list ascii :=
  match rev (rstrip_chars l) with
  | ";"%char :: r => rev r
  | r => rev r
  end.

Definition rewrite_ignored (l : list ascii) : list ascii :=
  match match_ignored l with
  | Some (ws, rest) => without_semicolon (ws ++ chars "INSERT" ++ rest) ++ chars " ON CONFLICT DO NOTHING"
  | None => l
  end.

(** ** The scan *)

Inductive Piece : Type :=
  | verbatim (fragment : list ascii)
  | rowid
  | placeholder
  | percent_sign
  | plain (c : ascii).

(** The rest of a quoted text, its closing quote included; a doubled quote is
    part of the text. *)
Fixpoint scan_quote (q : ascii) (l : list ascii) : option (list ascii * list ascii) :=
  match l with
  | [] => None
  | c :: l' =>
      if Ascii.eqb c q then
        match l' with
        | d :: l'' => if Ascii.eqb d q then '(a, b) ← scan_quote q l''; Some (c :: d :: a, b) else Some ([c], l')
        | [] => Some ([c], [])
        end
      else '(a, b) ← scan_quote q l'; Some (c :: a, b)
  end.

(** [$tag$] at the start of the text. *)
Definition match_dollar (l : list ascii) : option (list ascii * list ascii) :=
  match l with
  | "$"%char :: "$"%char :: rest => Some (["$"%char; "$"%char], rest)
  | "$"%char :: c :: rest =>
      if ident_start c then
        match span ident_char rest with
        | (name, "$"%char :: rest') => Some ("$"%char :: c :: name ++ ["$"%char], rest')
        | _ => None
        end
      else None
  | _ => None
  end.

Definition invalid {A} : res A := Raise (authority_error "authority_statement_invalid").
Definition fragment_of (o : option (list ascii * list ascii)) (start : list ascii) : res (Piece * list ascii) :=
  match o with Some (a, b) => Ok (verbatim (start ++ a), b) | None => invalid end.

(** One iteration on a non-empty text: the piece it reads and the rest. *)
Definition scan_piece (prev : option ascii) (c : ascii) (l : list ascii) : res (Piece * list ascii) :=
  if Ascii.eqb c "'" || Ascii.eqb c (chr 34) then fragment_of (scan_quote c l) [c]
  else match prefix_of (chars "--") (c :: l) with
  | Some rest =>
      Ok (match find_through [chr 10] rest with
          | Some (a, b) => (verbatim (chars "--" ++ a), b)
          | None => (verbatim (chars "--" ++ rest), [])
          end)
  | None =>
  match prefix_of (chars "/*") (c :: l) with
  | Some rest => fragment_of (find_through (chars "*/") rest) (chars "/*")
  | None =>
  match match_dollar (c :: l) with
  | Some (tag, rest) => fragment_of (find_through tag rest) tag
  | None =>
  match prefix_of (chars "t.rowid") (c :: l) with
  | Some rest =>
      if not_ident prev && not_ident (head rest) then Ok (rowid, rest) else Ok (plain c, l)
  | None =>
      if Ascii.eqb c "?" then Ok (placeholder, l)
      else if Ascii.eqb c "%" then Ok (percent_sign, l)
      else need (negb (Ascii.eqb c ";") || forallb is_space l) "authority_multiple_statements_rejected" ;; Ok (plain c, l)
  end end end end.

(** The text a piece stands for, and its last character. *)
Definition source (p : Piece) : list ascii :=
  match p with
  | verbatim f => f
  | rowid => chars "t.rowid"
  | placeholder => ["?"%char]
  | percent_sign => ["%"%char]
  | plain c => [c]
  end.
Definition last_char (p : Piece) : option ascii := last (source p).

(** The loop, with as much fuel as there are characters. *)
Fixpoint scan (fuel : nat) (prev : option ascii) (l : list ascii) : res (list Piece) :=
  match l with
  | [] => Ok []
  | c :: l' =>
      match fuel with
      | O => Raise (RuntimeError "out of fuel")
      | S fuel' =>
          '(p, rest) ← scan_piece prev c l';
          ps ← scan fuel' (last_char p) rest;
          Ok (p :: ps)
      end
  end.

(** ** The output *)

(** [fragment.replace("%", "%%")] *)
Definition double_percent (l : list ascii) : list ascii :=
  flat_map (fun c => if Ascii.eqb c "%" then [c; c] else [c]) l.
Definition emit (parameter_count : Z) (p : Piece) : list ascii :=
  match p with
  | verbatim f => if parameter_count =? 0 then f else double_percent f
  | rowid => chars "t.__pool_fifo"
  | placeholder => chars "%s"
  | percent_sign => if parameter_count =? 0 then ["%"%char] else chars "%%"
  | plain c => [c]
  end.
Definition is_placeholder (p : Piece) : bool := match p with placeholder => true | _ => false end.
Definition placeholders (ps : list Piece) : Z := Z.of_nat (length (List.filter is_placeholder ps)).

Definition pieces (statement : string) : res (list Piece) :=
  let l := rewrite_ignored (chars statement) in scan (length l) None l.

(** [compile_pool_sql(statement, parameter_count)] *)
Definition compile_pool_sql (statement : string) (parameter_count : Z) : res string :=
  need (nonempty (strip statement)) "authority_statement_invalid" ;;
  ps ← pieces statement;
  need (placeholders ps =? parameter_count) "authority_parameter_count_invalid" ;;
  Ok (str (flat_map (emit parameter_count) ps)).

Example compile_example :
  compile_pool_sql "INSERT OR IGNORE INTO t(a,b) VALUES(?,'50% ?'); " 1 =
    Ok "INSERT INTO t(a,b) VALUES(%s,'50%% ?') ON CONFLICT DO NOTHING"%string ∧
  compile_pool_sql "SELECT '?' FROM t ORDER BY t.rowid, at.rowid -- ?" 0 =
    Ok "SELECT '?' FROM t ORDER BY t.__pool_fifo, at.rowid -- ?"%string.
Proof. vm_compute. split; reflexivity. Qed.
