(* ===== verification/PoolSqlProps.v ===== *)
(** The translation of statements ends on every text, and what the driver
    reads from its output is the statement with its placeholders: quoted
    texts and comments are untouched and hold no parameter. *)
From S2P Require Import Prelude PyStr Names PoolSql.
From Stdlib Require Import Ascii String.
From stdpp Require Import strings.

Local Open Scope Z_scope.

(** ** Specification *)

(** What the driver reads when it is given parameters: characters and the
    places of the parameters. *)
Inductive Cell : Type := lit (c : ascii) | param.
Fixpoint driver_read (l : list ascii) : option (list Cell) :=
  match l with
  | [] => Some []
  | "%"%char :: c :: l' =>
      if Ascii.eqb c "%" then cons (lit "%") <$> driver_read l'
      else if Ascii.eqb c "s" then cons param <$> driver_read l' else None
  | c :: l' => if Ascii.eqb c "%" then None else cons (lit c) <$> driver_read l'
  end.

Definition fifo : list ascii := chars "t.__pool_fifo".
(** The meaning of a piece for the database. *)
Definition meaning (p : Piece) : list Cell :=
  match p with
  | verbatim f => lit <$> f
  | rowid => lit <$> fifo
  | placeholder => [param]
  | percent_sign => [lit "%"]
  | plain c => [lit c]
  end.

(** Texts of an SQL lexer that hide their content: a quoted text, in which the
    quote occurs doubled only, a comment, or a text between dollar tags. *)
Inductive doubled (q : ascii) : list ascii → Prop :=
  | dbl_nil : doubled q []
  | dbl_char c l : c ≠ q → doubled q l → doubled q (c :: l)
  | dbl_quote l : doubled q l → doubled q (q :: q :: l).
Inductive closed_fragment : list ascii → Prop :=
  | cf_quoted q l : q = "'"%char ∨ q = chr 34 → doubled q l → closed_fragment (q :: l ++ [q])
  | cf_line l : closed_fragment (chars "--" ++ l)
  | cf_block l : closed_fragment (chars "/*" ++ l ++ chars "*/")
  | cf_dollar tag l : head tag = Some "$"%char → last tag = Some "$"%char → closed_fragment (tag ++ l ++ tag).

Definition wf_piece (p : Piece) : Prop :=
  match p with
  | verbatim f => closed_fragment f
  | plain c => c ≠ "%"%char ∧ c ≠ "?"%char ∧ c ≠ "'"%char ∧ c ≠ chr 34
  | _ => True
  end.

(** ** Searching *)

Lemma prefix_of_ok p l rest : prefix_of p l = Some rest → l = p ++ rest.
Proof.
  revert l. induction p as [|a p IH]; intros [|b l]; cbn; try done; try (intros [= ->]; done).
  destruct (Ascii.eqb_spec a b) as [->|]; [|done]. intros H. by rewrite (IH _ H).
Qed.

Lemma find_through_ok p l a b : find_through p l = Some (a, b) → l = a ++ b ∧ ∃ a', a = a' ++ p.
Proof.
  revert a b. induction l as [|c l IH]; intros a b; cbn.
  - destruct (prefix_of p []) as [r|] eqn:E; [|done]. intros [= <- <-].
    apply prefix_of_ok in E. split; [done|]. by exists [].
  - destruct (prefix_of p (c :: l)) as [r|] eqn:E.
    + intros [= <- <-]. apply prefix_of_ok in E. split; [done|]. by exists [].
    + destruct (find_through p l) as [[x y]|]; [|done]. cbn. intros [= <- <-].
      destruct (IH _ _ eq_refl) as (-> & a' & ->). split; [done|]. by exists (c :: a').
Qed.

Lemma span_ok (p : ascii → bool) l a b : span p l = (a, b) → l = a ++ b.
Proof.
  revert a b. induction l as [|c l IH]; cbn; intros a b; [by intros [= <- <-]|].
  destruct (p c); [|by intros [= <- <-]]. destruct (span p l) as [x y]. intros [= <- <-].
  cbn. by rewrite <- (IH _ _ eq_refl).
Qed.

Lemma scan_quote_ok n q l a b : (length l ≤ n)%nat → scan_quote q l = Some (a, b) →
  l = a ++ b ∧ ∃ body, a = body ++ [q] ∧ doubled q body.
Proof.
  revert l a b. induction n as [|n IH]; intros [|c l] a b Hn; cbn in *; try done; try lia.
  destruct (Ascii.eqb_spec c q) as [->|Hc].
  - destruct l as [|d l].
    + intros [= <- <-]. split; [done|]. exists []. split; [done|constructor].
    + destruct (Ascii.eqb_spec d q) as [->|Hd].
      * destruct (scan_quote q l) as [[x y]|] eqn:E; [|done]. cbn. intros [= <- <-].
        destruct (IH l x y) as (-> & body & -> & Hb); [cbn in Hn; lia|done|]. split; [done|].
        exists (q :: q :: body). split; [done|by constructor].
      * intros [= <- <-]. split; [done|]. exists []. split; [done|constructor].
  - destruct (scan_quote q l) as [[x y]|] eqn:E; [|done]. cbn. intros [= <- <-].
    destruct (IH l x y) as (-> & body & -> & Hb); [lia|done|]. split; [done|].
    exists (c :: body). split; [done|by constructor].
Qed.

Lemma match_dollar_ok l tag rest : match_dollar l = Some (tag, rest) →
  l = tag ++ rest ∧ head tag = Some "$"%char ∧ last tag = Some "$"%char.
Proof.
  unfold match_dollar. destruct l as [|a l]; [done|].
  destruct (ascii_dec a "$") as [->|Ha]; [|by destruct a as [[] [] [] [] [] [] [] []]].
  destruct l as [|c l]; [done|].
  destruct (ascii_dec c "$") as [->|Hc]; [by intros [= <- <-]|].
  intros H. assert ((if ident_start c then
     match span ident_char l with
     | (name, "$"%char :: rest') => Some ("$"%char :: c :: name ++ ["$"%char], rest') | _ => None end
     else None) = Some (tag, rest)) as H' by (by destruct c as [[] [] [] [] [] [] [] []]). clear H.
  destruct (ident_start c); [|done]. destruct (span ident_char l) as [name [|d r]] eqn:E; [done|].
  destruct (ascii_dec d "$") as [->|Hd]; [|by destruct d as [[] [] [] [] [] [] [] []]].
  injection H' as <- <-. apply span_ok in E as ->. split; [by rewrite <- app_comm_cons, <- app_comm_cons, <- app_assoc|].
  split; [done|]. change ("$"%char :: c :: name ++ ["$"%char]) with (("$"%char :: c :: name) ++ ["$"%char]).
  apply last_snoc.
Qed.

(** ** One piece *)

Lemma fragment_of_ok o start p rest l :
  (∀ a b, o = Some (a, b) → l = start ++ a ++ b ∧ closed_fragment (start ++ a)) →
  fragment_of o start = Ok (p, rest) → l = source p ++ rest ∧ wf_piece p.
Proof.
  intros Ho. unfold fragment_of. destruct o as [[a b]|]; [|done]. intros [= <- <-].
  destruct (Ho a b eq_refl) as [-> Hc]. cbn. by rewrite <- app_assoc.
Qed.

Lemma scan_piece_ok prev c l p rest :
  scan_piece prev c l = Ok (p, rest) → c :: l = source p ++ rest ∧ wf_piece p ∧ source p ≠ [].
Proof.
  intros H. enough (c :: l = source p ++ rest ∧ wf_piece p) as [E Hw].
  { split_and!; try done. destruct p; cbn in *; try done. destruct Hw; [done|done|done|]. by destruct tag. }
  unfold scan_piece in H. destruct (Ascii.eqb c "'" || Ascii.eqb c (chr 34)) eqn:Eq.
  { eapply fragment_of_ok; [|exact H]. intros a b E.
    destruct (scan_quote_ok (length l) c l a b ltac:(lia) E) as (-> & body & -> & Hd). split; [done|].
    apply (cf_quoted c body); [|done]. apply orb_true_iff in Eq as [Eq%Ascii.eqb_eq|Eq%Ascii.eqb_eq]; auto. }
  destruct (prefix_of (chars "--") (c :: l)) as [r|] eqn:E1.
  { apply prefix_of_ok in E1 as ->. destruct (find_through [chr 10] r) as [[a b]|] eqn:E2; injection H as <- <-.
    - apply find_through_ok in E2 as (-> & _). split; [by cbn|apply cf_line].
    - split; [cbn [source]; by rewrite app_nil_r|apply cf_line]. }
  destruct (prefix_of (chars "/*") (c :: l)) as [r|] eqn:E2.
  { apply prefix_of_ok in E2 as ->. eapply fragment_of_ok; [|exact H]. intros a b E.
    apply find_through_ok in E as (-> & a' & ->). split; [done|apply cf_block]. }
  destruct (match_dollar (c :: l)) as [[tag r]|] eqn:E3.
  { apply match_dollar_ok in E3 as (-> & Hh & Hl). eapply fragment_of_ok; [|exact H]. intros a b E.
    apply find_through_ok in E as (-> & a' & ->). split; [done|by apply cf_dollar]. }
  apply orb_false_iff in Eq as [Eq1%Ascii.eqb_neq Eq2%Ascii.eqb_neq].
  destruct (prefix_of (chars "t.rowid") (c :: l)) as [r|] eqn:E4.
  { pose proof (prefix_of_ok _ _ _ E4) as E. destruct (_ && _); injection H as <- <-; [by rewrite E|].
    split; [done|]. injection E as -> _. done. }
  destruct (Ascii.eqb_spec c "?") as [->|H1]; [by injection H as <- <-|].
  destruct (Ascii.eqb_spec c "%") as [->|H2]; [by injection H as <- <-|].
  unfold need in H. destruct (_ || _); cbn in H; [|done]. by injection H as <- <-.
Qed.

Lemma scan_piece_error prev c l e : scan_piece prev c l = Raise e → ∃ code, e = authority_error code.
Proof.
  unfold scan_piece, fragment_of, invalid, need.
  repeat lazymatch goal with
  | |- (if ?b then _ else _) = _ → _ => destruct b
  | |- (match ?x with _ => _ end) = _ → _ => destruct x as [[? ?]|] || destruct x
  | |- mbind _ (if ?b then _ else _) = _ → _ => destruct b; cbn
  end; intros [= <-]; eauto.
Qed.

(** ** The scan *)

Lemma scan_ok fuel prev l ps : scan fuel prev l = Ok ps → flat_map source ps = l ∧ Forall wf_piece ps.
Proof.
  revert prev l ps. induction fuel as [|fuel IH]; intros prev [|c l] ps; cbn; try done;
    try (intros [= <-]; split; [done|constructor]).
  destruct (scan_piece prev c l) as [[p rest]|] eqn:E; cbn; [|done].
  destruct (scan fuel (last_char p) rest) as [qs|] eqn:Es; cbn; [|done]. intros [= <-].
  apply scan_piece_ok in E as (E & Hw & _). apply IH in Es as [<- Hs]. cbn. split; [done|by constructor].
Qed.

Lemma scan_total fuel prev l e :
  (length l ≤ fuel)%nat → scan fuel prev l = Raise e → ∃ code, e = authority_error code.
Proof.
  revert prev l. induction fuel as [|fuel IH]; intros prev [|c l] Hl; cbn in *; try done; [lia|].
  destruct (scan_piece prev c l) as [[p rest]|e'] eqn:E; cbn.
  - apply scan_piece_ok in E as (E & _ & Hne).
    destruct (scan fuel (last_char p) rest) as [qs|e'] eqn:Es; cbn; [done|]. intros [= ->].
    eapply IH; [|exact Es]. apply (f_equal length) in E. rewrite length_app in E. cbn in E.
    destruct (source p); [done|]. cbn in E. lia.
  - intros [= ->]. by eapply scan_piece_error.
Qed.

(** ** The driver *)

Lemma driver_lit c l : c ≠ "%"%char → driver_read (c :: l) = cons (lit c) <$> driver_read l.
Proof.
  intros H. cbn. destruct (Ascii.eqb_spec c "%"); [done|].
  destruct c as [[] [] [] [] [] [] [] []]; try done.
Qed.
Lemma driver_percent l : driver_read ("%"%char :: "%"%char :: l) = cons (lit "%") <$> driver_read l.
Proof. done. Qed.

Lemma driver_double f l : driver_read (double_percent f ++ l) = app (lit <$> f) <$> driver_read l.
Proof.
  induction f as [|c f IH]; cbn [double_percent flat_map app]; [cbn; by destruct (driver_read l)|].
  destruct (Ascii.eqb_spec c "%") as [->|Hc]; rewrite <- app_assoc; cbn [app].
  - rewrite driver_percent. unfold double_percent in IH. rewrite IH. by destruct (driver_read l).
  - rewrite driver_lit by done. unfold double_percent in IH. rewrite IH. by destruct (driver_read l).
Qed.

Lemma driver_emit n p l : n ≠ 0 → wf_piece p →
  driver_read (emit n p ++ l) = app (meaning p) <$> driver_read l.
Proof.
  intros Hn Hw. apply Z.eqb_neq in Hn. destruct p as [f| | | |c]; cbn [emit]; rewrite ?Hn.
  - apply driver_double.
  - change (chars "t.__pool_fifo") with (double_percent fifo). apply driver_double.
  - cbn. by destruct (driver_read l).
  - cbn. by destruct (driver_read l).
  - cbn [app]. rewrite driver_lit by apply Hw. by destruct (driver_read l).
Qed.

Lemma driver_pieces n ps : n ≠ 0 → Forall wf_piece ps →
  driver_read (flat_map (emit n) ps) = Some (flat_map meaning ps).
Proof.
  intros Hn. induction 1 as [|p ps Hw Hs IH]; [done|]. cbn [flat_map]. by rewrite driver_emit, IH.
Qed.

(** The output without parameters: only the order column is renamed. *)
Definition renamed (p : Piece) : list ascii := match p with rowid => fifo | _ => source p end.

(** ** Properties *)


(** The translation ends on every text, with a statement or with an
    error of the authority. *)
Theorem compile_terminates (s : string) (n : Z) :
  (∃ out, compile_pool_sql s n = Ok out) ∨ ∃ code, compile_pool_sql s n = Raise (authority_error code).
Proof.
  unfold compile_pool_sql, pieces, need. destruct (nonempty _); cbn; [|eauto].
  destruct (scan _ _ _) as [ps|e] eqn:E; cbn.
  - destruct (_ =? _); cbn; eauto.
  - apply scan_total in E as [code ->]; [eauto|lia].
Qed.

