(* ===== verification/PgSession.v ===== *)
(** The PostgreSQL authority of [app/postgres_authority.py] above the driver:
    the validation of its parameters, the session of one connection with its
    thread's writer slot, the transaction, the verification of the schema and
    its initialisation.

    A session is a program over driver calls, whose answers are arbitrary,
    with the attributes of the connection and of the thread threaded through:
    they survive an exception, as the objects of the code do.  The classes of
    the driver's errors are [psycopg.Error] and [psycopg.IntegrityError].

    After the definitions: what reaches the driver, and in which order, for
    every body of a transaction and whatever the driver answers. *)
From Stdlib Require Import Ascii String.
From stdpp Require Import strings pretty.
From S2P Require Import Prelude Prog PyStr Sha256 Json PyVal Names Schema Store PoolSql.

Local Open Scope string_scope.
Local Open Scope Z_scope.

(** ** Parameters *)

Definition SCHEMA : re := Cat (Chr is_lower) (Rep 0 (Some 47%nat) (Chr (either is_lower (either is_digit (one_of "_"))))).
Definition HOST : re :=
  Cat (Chr alnum) (Rep 0 (Some 1%nat) (Cat (Rep 0 (Some 251%nat) (Chr (either alnum (one_of ".-")))) (Chr alnum))).
Definition SCHEMA_VERSION : Z := 1.
Definition hex_group (n : nat) : re := times n hex_lower.
(** [str(uuid.UUID(s)) == s]: the canonical text of an identifier. *)
Definition UUID_TEXT : re :=
  Cat (hex_group 8) (Cat (lit "-") (Cat (hex_group 4) (Cat (lit "-") (Cat (hex_group 4) (Cat (lit "-")
    (Cat (hex_group 4) (Cat (lit "-") (hex_group 12)))))))).

(** [int(s)]: spaces around, a sign, digits with single underscores. *)
Fixpoint digits_value (acc : Z) (after_digit : bool) (l : list ascii) : option Z :=
  match l with
  | [] => if after_digit then Some acc else None
  | c :: l' =>
      if is_digit c then digits_value (acc * 10 + (Z.of_N (code c) - 48)) true l'
      else if Ascii.eqb c "_" && after_digit then digits_value acc false l' else None
  end.
Definition py_int (s : string) : option Z :=
  match chars (strip s) with
  | "-"%char :: l => Z.opp <$> digits_value 0 false l
  | "+"%char :: l => digits_value 0 false l
  | l => digits_value 0 false l
  end.

Definition Options : Type := list (string * string).
Definition option_of (k : string) (o : Options) : option string := lookup_key k o.
Definition text_of (k : string) (o : Options) : string := match option_of k o with Some v => v | None => "" end.
Definition ALLOWED_OPTIONS : list string :=
  ["host"; "port"; "dbname"; "user"; "password"; "sslmode"; "sslrootcert"; "channel_binding"; "connect_timeout"].

(** [sha256(...)[:8]] as a signed big-endian integer. *)
Definition hex_value (c : ascii) : Z :=
  if is_digit c then Z.of_N (code c) - 48 else Z.of_N (code c) - 87.
Definition signed64 (hex : list ascii) : Z :=
  let n := fold_left (fun acc c => acc * 16 + hex_value c) hex 0 in
  if n <? 2 ^ 63 then n else n - 2 ^ 64.
Definition advisory_key (schema : string) : Z :=
  signed64 (take 16 (chars (sha256_text (String.append "engineering-worker-pool/v1:" schema)))).

Module Authority.
Record t := mk {
  parameters : Options; connect_timeout : Z; schema : string; authority_id : string; lock_key : Z;
  schema_sha256 : string }.
End Authority.

Definition in_port (o : option Z) : bool := match o with Some n => (1 <=? n) && (n <=? 65535) | None => false end.
(** [PostgresAuthority.__init__]; the bytes of the migration are a file. *)
Definition make_authority (options : Options) (schema authority_id : string) (allow_insecure_loopback : bool)
    (migration : string) : res Authority.t :=
  need (fullmatch SCHEMA schema && negb (bool_decide (schema ∈ ["public"; "information_schema"])) &&
        negb (starts_with "pg_" schema)) "authority_schema_invalid" ;;
  need (fullmatch UUID_TEXT authority_id) "authority_identity_invalid" ;;
  need (subset (keys options) ALLOWED_OPTIONS &&
        forallb (fun o => negb (contains (str [chr 0]) o.2)) options) "authority_connection_invalid" ;;
  let host := text_of "host" options in
  need (fullmatch HOST host && negb (contains ".." host) && nonempty (text_of "dbname" options) &&
        nonempty (text_of "user" options)) "authority_connection_invalid" ;;
  need (in_port (py_int (match option_of "port" options with Some p => p | None => "5432" end)))
    "authority_connection_invalid" ;;
  let insecure_fixture := allow_insecure_loopback && String.eqb host "127.0.0.1" in
  need (insecure_fixture || bool_decide (option_of "sslmode" options = Some "verify-full"))
    "authority_tls_identity_unverified" ;;
  need (insecure_fixture || (nonempty (text_of "password" options) && nonempty (text_of "sslrootcert" options)))
    "authority_connection_invalid" ;;
  need (match option_of "channel_binding" options with
        | Some b => bool_decide (b ∈ ["prefer"; "require"]) | None => true end) "authority_connection_invalid" ;;
  match py_int (match option_of "connect_timeout" options with Some t => t | None => "8" end) with
  | Some t =>
      need ((1 <=? t) && (t <=? 30)) "authority_connection_invalid" ;;
      Ok (Authority.mk (List.filter (fun o => negb (String.eqb o.1 "connect_timeout")) options) t schema authority_id
            (advisory_key schema) (sha256_hex migration))
  | None => Raise (authority_error "authority_connection_invalid")
  end.

(** The kind of a connection failure: fixed words, never the driver's text. *)
Definition any_in (markers : list string) (message : string) : bool := existsb (fun k => contains k message) markers.
Definition connection_failure_kind (text : string) (sqlstate : option string) : string :=
  let message := lower text in
  if any_in ["unsupported startup parameter"; "invalid startup parameter"; "invalid connection option";
             "unrecognized configuration parameter"; "unrecognized connection option"] message
  then "unsupported_startup"
  else if contains "channel binding" message || contains "channel_binding" message then "channel_binding"
  else if match sqlstate with Some s => starts_with "28" s | None => false end ||
          any_in ["password authentication failed"; "authentication failed"; "no password supplied";
                  "no pg_hba.conf entry"; "fe_sendauth"] message then "authentication"
  else if any_in ["could not translate host name"; "failed to resolve host"; "name or service not known";
                  "temporary failure in name resolution"; "nodename nor servname provided"; "getaddrinfo"] message
  then "dns"
  else if any_in ["timeout expired"; "connection timeout"; "connection timed out"; "operation timed out";
                  "connect timeout"] message then "timeout"
  else if contains "certificate" message || contains "sslrootcert" message then "tls_certificate"
  else if any_in ["ssl error"; "tls error"; "ssl connection"; "sslmode"; "server does not support ssl";
                  "could not establish ssl"] message then "tls"
  else "unknown".

(** ** The driver *)

Definition Row : Type := list (string * json).
Record Cursor := mkCursor { rowcount : Z; rows : list Row }.

Inductive op : Type :=
  | d_connect
  | d_execute (statement : string) (parameters : list json)
  | d_commit
  | d_rollback
  | d_close.
Definition answer (o : op) : Type := match o with d_execute _ _ => Cursor | _ => unit end.
(** The errors of the driver: the text and, when it has one, the state. *)
Definition driver_error (e : exn) : bool :=
  match e with Error c _ => String.eqb c "psycopg.Error" || String.eqb c "psycopg.IntegrityError" | _ => false end.
Definition integrity_error (e : exn) : bool :=
  match e with Error c _ => String.eqb c "psycopg.IntegrityError" | _ => false end.
Definition unavailable (e : exn) : bool :=
  match e with Error c _ => String.eqb c "AuthorityUnavailable" | _ => false end.

(** ** Sessions *)

(** The connection object and its thread's [_local.writer]. *)
Record Session := mkSession {
  writer : option nat; me : nat; read_only : bool; started : bool; write : bool; closed : bool }.
#[export] Instance Session_eta : Eta Session := fun s =>
  mkSession (writer s) (me s) (read_only s) (started s) (write s) (closed s).

Definition Pg (A : Type) : Type := Session → prog answer (res A * Session).
#[export] Instance pg_ret : MRet Pg := fun A a s => Ret (Ok a, s).
#[export] Instance pg_bind : MBind Pg := fun A B f m s =>
  p ← m s; match p with (Ok a, s') => f a s' | (Raise e, s') => Ret (Raise e, s') end.

Definition pg_raise {A} (e : exn) : Pg A := fun s => Ret (Raise e, s).
Definition pg_res {A} (r : res A) : Pg A := fun s => Ret (r, s).
Definition pg_need (c : bool) (code : string) : Pg unit := pg_res (need c code).
Definition pg_get {A} (f : Session → A) : Pg A := fun s => Ret (Ok (f s), s).
Definition pg_set (f : Session → Session) : Pg unit := fun s => Ret (Ok tt, f s).
Definition driver (o : op) : Pg (answer o) := fun s => r ← attempt (call o); Ret (r, s).
(** [try: m  except e: h(e)], [try: m  finally: f] *)
Definition pg_catch {A} (m : Pg A) (h : exn → Pg A) : Pg A := fun s =>
  p ← m s; match p with (Raise e, s') => h e s' | _ => Ret p end.
Definition pg_finally {A} (m : Pg A) (f : Pg unit) : Pg A := fun s =>
  p ← m s; q ← f p.2; match q with (Ok _, s') => Ret (p.1, s') | (Raise e, s') => Ret (Raise e, s') end.

Section Connection.
Context (a : Authority.t).

Definition release_local : Pg unit := pg_set (fun s =>
  if bool_decide (writer s = Some (me s)) then s <| writer := None |> else s).

Definition rollback : Pg unit :=
  pg_finally
    (pg_catch
       (shut ← pg_get closed; if (shut : bool) then mret tt else driver d_rollback)
       (fun e => if driver_error e then mret tt else pg_raise e))
    (release_local ;; pg_set (fun s => s <| started := false |>)).

Definition BEGIN_WRITE : string := "BEGIN ISOLATION LEVEL READ COMMITTED READ WRITE".
Definition BEGIN_READ : string := "BEGIN ISOLATION LEVEL REPEATABLE READ READ ONLY".
Definition LOCK_TIMEOUT : string := "SET LOCAL lock_timeout = '8s'".
Definition STATEMENT_TIMEOUT : string := "SET LOCAL statement_timeout = '30s'".
Definition dquote : string := str [chr 34].
Definition quoted (name : string) : string :=
  String.append dquote (String.append (str (flat_map (fun c => if (code c =? 34)%N then [c; c] else [c]) (chars name))) dquote).
Definition SEARCH_PATH : string :=
  String.append "SET LOCAL search_path TO " (String.append (quoted (Authority.schema a)) ", pg_catalog").
Definition ADVISORY_LOCK : string := "SELECT pg_catalog.pg_advisory_xact_lock(%s)".
Definition IDENTITY : string :=
  "SELECT authority_id,schema_version,schema_sha256 FROM authority_meta WHERE singleton=1".

Definition cell (k : string) (r : Row) : json := match lookup_key k r with Some v => v | None => JNull end.
(** [_verify_identity] on the row of the query. *)
Definition identity_matches (c : Cursor) : res unit :=
  match rows c with
  | [] => need false "authority_identity_mismatch"
  | r :: _ =>
      need (is_text (cell "authority_id" r) (Authority.authority_id a)) "authority_identity_mismatch" ;;
      need (py_eqb (cell "schema_version" r) (JInt SCHEMA_VERSION) &&
            is_text (cell "schema_sha256" r) (Authority.schema_sha256 a)) "authority_schema_version_mismatch"
  end.
Definition verify_identity : Pg unit :=
  c ← driver (d_execute IDENTITY []); pg_res (identity_matches c).

Definition run_statement (text : string) (ps : list json) : Pg unit := driver (d_execute text ps) ;; mret tt.
(** [_begin] *)
Definition begin (w : bool) : Pg unit :=
  s ← pg_get id;
  pg_need (negb (started s) && negb (closed s)) "authority_transaction_state_invalid" ;;
  pg_need (negb (w && read_only s)) "authority_read_only" ;;
  pg_catch
    (run_statement (if w then BEGIN_WRITE else BEGIN_READ) [] ;;
     pg_set (fun s => s <| started := true |>) ;;
     run_statement LOCK_TIMEOUT [] ;;
     run_statement STATEMENT_TIMEOUT [] ;;
     run_statement SEARCH_PATH [] ;;
     (if w then
        current ← pg_get writer;
        pg_need (bool_decide (current = None)) "authority_nested_write_rejected" ;;
        run_statement ADVISORY_LOCK [JInt (Authority.lock_key a)]
      else mret tt) ;;
     verify_identity ;;
     pg_set (fun s => s <| write := w |>) ;;
     (if w then pg_set (fun s => s <| writer := Some (me s) |>) else mret tt))
    (fun e =>
       if unavailable e then rollback ;; pg_raise e
       else if driver_error e then
         rollback ;; pg_raise (authority_error "authority_transaction_unavailable")
       else pg_raise e).

(** [execute]; [None] for the two statements that begin a transaction. *)
Definition execute (statement : string) (parameters : list json) : Pg (option Cursor) :=
  let normalized := upper (strip statement) in
  if String.eqb normalized "BEGIN IMMEDIATE" then begin true ;; mret None
  else if String.eqb normalized "BEGIN" then begin false ;; mret None
  else
    on ← pg_get started;
    (if (on : bool) then mret tt else begin false) ;;
    compiled ← pg_res (compile_pool_sql statement (Z.of_nat (length parameters)));
    pg_catch (c ← driver (d_execute compiled parameters); mret (Some c))
      (fun e =>
         if integrity_error e then pg_raise (ConflictError "authority_integrity_conflict")
         else if driver_error e then pg_raise (authority_error "authority_database_operation_failed")
         else pg_raise e).

(** The rows a caller sees: without the internal order column. *)
Definition public_row (r : Row) : Row := List.filter (fun kv => negb (String.eqb kv.1 "__pool_fifo")) r.
Definition fetchone (c : Cursor) : option Row := public_row <$> head (rows c).
Definition fetchall (c : Cursor) : list Row := map public_row (rows c).

Definition server_time : Pg (option json) :=
  s ← pg_get id;
  pg_need (started s && negb (closed s)) "authority_transaction_state_invalid" ;;
  pg_catch (c ← driver (d_execute "SELECT pg_catalog.clock_timestamp() AS now" []);
            mret (cell "now" <$> head (rows c)))
    (fun e => if driver_error e then pg_raise (authority_error "authority_clock_unavailable") else pg_raise e).

Definition commit : Pg unit :=
  pg_finally
    (pg_catch (driver d_commit)
       (fun e => if driver_error e then pg_raise (authority_error "authority_commit_unverified") else pg_raise e))
    (release_local ;; pg_set (fun s => s <| started := false |>)).

Definition close : Pg unit :=
  shut ← pg_get closed;
  if (shut : bool) then mret tt
  else rollback ;; driver d_close ;; pg_set (fun s => s <| closed := true |>).

(** The body of a [with] block: it executes statements, reads the time, acts
    elsewhere, and returns or raises. *)
Inductive Body (A : Type) : Type :=
  | b_return (v : A)
  | b_raise (e : exn)
  | b_execute (statement : string) (parameters : list json) (k : res (option Cursor) → Body A)
  | b_time (k : res (option json) → Body A).
#[global] Arguments b_return {_} _.
#[global] Arguments b_raise {_} _.
#[global] Arguments b_execute {_} _ _ _.
#[global] Arguments b_time {_} _.
Fixpoint run_body {A} (b : Body A) : Pg A :=
  match b with
  | b_return v => mret v
  | b_raise e => pg_raise e
  | b_execute st ps k => fun s => p ← execute st ps s; run_body (k p.1) p.2
  | b_time k => fun s => p ← server_time s; run_body (k p.1) p.2
  end.

(** [_connect]; [getattr(exc, "sqlstate", None)] of a driver's error. *)
Context (sqlstate : exn → option string).
Definition connect : Pg unit :=
  pg_catch (driver d_connect) (fun e =>
    match e with
    | Error _ text =>
        if driver_error e
        then pg_raise (authority_error (String.append "authority_connection_unavailable:"
               (connection_failure_kind text (sqlstate e))))
        else pg_raise e
    | _ => pg_raise e
    end).

(** [transaction], on a connection of its own. *)
Definition transaction {A} (b : Body A) : Pg A :=
  connect ;;
  pg_finally
    (pg_catch (execute "BEGIN IMMEDIATE" [] ;; v ← run_body b; commit ;; mret v)
       (fun e => rollback ;; pg_raise e))
    close.
(** [with self.read_connection() as db: ...] *)
Definition reading {A} (b : Body A) : Pg A :=
  connect ;; pg_finally (run_body b) close.

(** A statement of a body whose rows are used. *)
Definition query {A} (statement : string) (parameters : list json) (k : Cursor → Body A) : Body A :=
  b_execute statement parameters (fun r =>
    match r with
    | Ok (Some c) => k c
    | Ok None => b_raise (Error "AttributeError" "fetchall")
    | Raise e => b_raise e
    end).
Definition b_need {A} (c : bool) (code : string) (k : Body A) : Body A :=
  if c then k else b_raise (authority_error code).

Definition query_begin {A} (b : Body A) : Body A :=
  b_execute "BEGIN" [] (fun r => match r with Ok _ => b | Raise e => b_raise e end).

(** [clock] without a writer in the thread; with one it is [b_time]. *)
Definition idle_clock : Pg (option json) :=
  reading (query_begin (b_time (fun t => match t with Ok v => b_return v | Raise e => b_raise e end))).

(** ** The schema *)

Definition REQUIRED_TABLES : list string :=
  ["authority_meta"; "workers"; "repository_lanes"; "worker_repository_affinity"; "tasks"; "quarantine";
   "pool_control"; "task_attempts"; "task_checkpoints"; "effect_reconciliations"; "work_runs"].
Definition REQUIRED_INDEXES : list string :=
  ["idx_worker_active"; "idx_workspace_active"; "idx_task_checkpoints_generation"; "idx_task_checkpoints_effect"].
Definition REQUIRED_TRIGGERS : list string := ["guard_fenced_task_admission"; "guard_fenced_claim"].

Definition text_cell (k : string) (r : Row) : string := match cell k r with JStr s => s | _ => "" end.
Definition unique_index (index_map : list (string * string)) (name : string) : bool :=
  match lookup_key name index_map with Some d => contains "UNIQUE INDEX" d | None => false end.
(** A trigger that fires on its origin and resolves names in this schema. *)
Definition trigger_enabled (r : Row) : bool :=
  let settings := match cell "proconfig" r with
                  | JList l => match strs l with Some ss => ss | None => [] end
                  | _ => []
                  end in
  let bare s := str (List.filter (fun c => negb (code c =? 34)%N) (chars s)) in
  is_text (cell "tgenabled" r) "O" &&
  existsb (fun s => String.eqb (bare s)
    (String.append "search_path=" (String.append (Authority.schema a) ", pg_catalog"))) settings.

Definition TABLES_QUERY : string :=
  "SELECT table_name FROM information_schema.tables WHERE table_schema=? AND table_type='BASE TABLE'".
Definition INDEXES_QUERY : string := "SELECT indexname,indexdef FROM pg_indexes WHERE schemaname=?".
Definition TRIGGERS_QUERY : string :=
  "SELECT t.tgname,t.tgenabled,p.proconfig FROM pg_trigger t JOIN pg_class c ON c.oid=t.tgrelid JOIN pg_namespace n ON n.oid=c.relnamespace JOIN pg_proc p ON p.oid=t.tgfoid WHERE n.nspname=? AND c.relname='tasks' AND NOT t.tgisinternal".
Definition FIFO_QUERY : string :=
  "SELECT is_identity FROM information_schema.columns WHERE table_schema=? AND table_name='tasks' AND column_name='__pool_fifo'".

Definition evidence : list (string * json) :=
  [("backend", JStr "postgres"); ("authority_id", JStr (Authority.authority_id a));
   ("schema", JStr (Authority.schema a)); ("schema_version", JInt SCHEMA_VERSION);
   ("schema_sha256", JStr (Authority.schema_sha256 a))].
Definition schema_checks : Body (list (string * json)) :=
  let here := [JStr (Authority.schema a)] in
  query TABLES_QUERY here (fun tables =>
  b_need (subset REQUIRED_TABLES (map (text_cell "table_name") (fetchall tables))) "authority_schema_incomplete" (
  query INDEXES_QUERY here (fun indexes =>
  let index_map := map (fun r => (text_cell "indexname" r, text_cell "indexdef" r)) (fetchall indexes) in
  b_need (subset REQUIRED_INDEXES (keys index_map) &&
          forallb (unique_index index_map) ["idx_worker_active"; "idx_workspace_active"])
    "authority_indexes_unverified" (
  query TRIGGERS_QUERY here (fun triggers =>
  let enabled := map (text_cell "tgname") (List.filter trigger_enabled (fetchall triggers)) in
  b_need (subset REQUIRED_TRIGGERS enabled) "authority_fence_guards_unverified" (
  query FIFO_QUERY here (fun fifo =>
  b_need (match fetchone fifo with Some r => is_text (cell "is_identity" r) "YES" | None => false end)
    "authority_queue_order_unverified" (b_return evidence)))))))).
Definition verify_schema : Pg (list (string * json)) := reading schema_checks.

(** [initialize]: the migration into an empty schema, under the lock. *)
Definition CREATE_SCHEMA : string := String.append "CREATE SCHEMA IF NOT EXISTS " (quoted (Authority.schema a)).
Definition EXISTING_TABLES : string := "SELECT tablename FROM pg_tables WHERE schemaname=%s".
Definition alter_function (name : string) : string :=
  String.append "ALTER FUNCTION " (String.append (quoted (Authority.schema a)) (String.append "." (String.append (quoted name)
    (String.append "() SET search_path TO " (String.append (quoted (Authority.schema a)) ", pg_catalog"))))).
Definition INSERT_META : string :=
  "INSERT INTO authority_meta(singleton,authority_id,schema_version,schema_sha256) VALUES(1,%s,%s,%s)".
Definition migrate (migration : string) : Pg unit :=
  run_statement BEGIN_WRITE [] ;;
  run_statement LOCK_TIMEOUT [] ;;
  run_statement STATEMENT_TIMEOUT [] ;;
  run_statement ADVISORY_LOCK [JInt (Authority.lock_key a)] ;;
  run_statement CREATE_SCHEMA [] ;;
  run_statement SEARCH_PATH [] ;;
  existing ← driver (d_execute EXISTING_TABLES [JStr (Authority.schema a)]);
  (if negb (bool_decide (rows existing = [])) then
     pg_need (bool_decide ("authority_meta" ∈ map (text_cell "tablename") (rows existing)))
       "authority_schema_not_empty" ;;
     verify_identity
   else
     run_statement migration [] ;;
     run_statement (alter_function "guard_fenced_task_admission_fn") [] ;;
     run_statement (alter_function "guard_fenced_claim_fn") [] ;;
     run_statement INSERT_META [JStr (Authority.authority_id a); JInt SCHEMA_VERSION; JStr (Authority.schema_sha256 a)]) ;;
  driver d_commit.
Definition initialize (migration : string) : Pg (list (string * json)) :=
  connect ;;
  pg_finally
    (pg_catch (migrate migration) (fun e =>
       if unavailable e then driver d_rollback ;; pg_raise e
       else if driver_error e then driver d_rollback ;; pg_raise (authority_error "authority_migration_failed")
       else pg_raise e))
    (driver d_close) ;;
  verify_schema.
End Connection.

(** The backends: the arguments of the store, then the schema. *)
Definition pg_store_init (a : Authority.t) (sqlstate : exn → option string) (settings : res Store) : Pg Store :=
  self ← pg_res settings; verify_schema a sqlstate ;; mret self.
Definition pg_work_init (a : Authority.t) (sqlstate : exn → option string) (same_authority : bool) : Pg unit :=
  pg_need same_authority "work_authority_mismatch" ;; verify_schema a sqlstate ;; mret tt.


(** ** The states of a connection, as the driver sees it *)

Inductive Link : Type :=
  | ln_none
  | ln_idle
  | ln_setup (n : nat)  (** the transaction began; [n] settings are made *)
  | ln_ready            (** the authority is identified *)
  | ln_broken
  | ln_closed.
Record Wire := mkWire { link : Link; committed : bool }.

Section Wire.
Context (a : Authority.t) (sqlstate : exn → option string).

(** What a transaction sends before any statement of its body. *)
Definition setup : list (string * list json) :=
  [(LOCK_TIMEOUT, []); (STATEMENT_TIMEOUT, []); (SEARCH_PATH a, []);
   (ADVISORY_LOCK, [JInt (Authority.lock_key a)]); (IDENTITY, [])].

Definition allowed (g : Wire) (o : op) : bool :=
  match link g, o with
  | ln_none, d_connect => true
  | ln_idle, d_execute st ps => bool_decide (st = BEGIN_WRITE) && bool_decide (ps = [])
  | ln_idle, (d_rollback | d_close) => true
  | ln_setup n, d_execute st ps => bool_decide (setup !! n = Some (st, ps))
  | ln_setup _, d_rollback => true
  | ln_ready, (d_execute _ _ | d_commit | d_rollback) => true
  | ln_broken, d_rollback => true
  | _, _ => false
  end.
Definition after_setup (n : nat) (c : Cursor) : Link :=
  if (S n =? length setup)%nat
  then match identity_matches a c with Ok _ => ln_ready | Raise _ => ln_broken end
  else ln_setup (S n).
Definition next (g : Wire) (o : op) : res (answer o) → Wire :=
  match o with
  | d_connect => fun r => match r with Ok _ => mkWire ln_idle false | Raise _ => g end
  | d_execute st _ => fun r =>
      match link g with
      | ln_idle => match r with
                   | Ok _ => mkWire (ln_setup 0) (committed g)
                   | Raise _ => g end
      | ln_setup n => match r with
                        | Ok c => mkWire (after_setup n c) (committed g)
                        | Raise _ => mkWire ln_broken (committed g) end
      | _ => g
      end
  | d_commit => fun r => mkWire ln_idle (match r with Ok _ => true | Raise _ => committed g end)
  | d_rollback => fun _ => mkWire ln_idle (committed g)
  | d_close => fun _ => mkWire ln_closed (committed g)
  end.
Abbreviation safe := (safe allowed next).

(** A session program: it does not throw, and its result and attributes
    satisfy [Q] with the state of the wire. *)
Definition ends {A} (Q : res A → Session → Wire → Prop) (x : res (res A * Session)) (g : Wire) : Prop :=
  match x with Ok (r, s) => Q r s g | Raise _ => False end.
Definition sess {A} (m : Pg A) (s : Session) (g : Wire) (Q : res A → Session → Wire → Prop) : Prop :=
  safe (m s) g (ends Q).

Lemma sess_mono {A} (m : Pg A) s g (P Q : res A → Session → Wire → Prop) :
  sess m s g P → (∀ r s' g', P r s' g' → Q r s' g') → sess m s g Q.
Proof. intros H HPQ. eapply safe_mono; [exact H|]. intros [[r s']|e] g'; [apply HPQ|done]. Qed.
Lemma sess_bind {A B} (m : Pg A) (f : A → Pg B) s g Q :
  sess m s g (fun r s' g' => match r with Ok v => sess (f v) s' g' Q | Raise e => Q (Raise e) s' g' end) →
  sess (x ← m; f x) s g Q.
Proof.
  intros H. unfold sess, mbind, pg_bind. apply safe_bind. eapply safe_mono; [exact H|].
  by intros [[[v|e] s']|e] g'.
Qed.
Lemma sess_catch {A} (m : Pg A) h s g Q :
  sess m s g (fun r s' g' => match r with Ok v => Q (Ok v) s' g' | Raise e => sess (h e) s' g' Q end) →
  sess (pg_catch m h) s g Q.
Proof.
  intros H. unfold sess, pg_catch. apply safe_bind. eapply safe_mono; [exact H|].
  by intros [[[v|e] s']|e] g'.
Qed.
Lemma sess_finally {A} (m : Pg A) f s g Q :
  sess m s g (fun r s' g' => sess f s' g' (fun u s'' g'' =>
    match u with Ok _ => Q r s'' g'' | Raise e => Q (Raise e) s'' g'' end)) →
  sess (pg_finally m f) s g Q.
Proof.
  intros H. unfold sess, pg_finally. apply safe_bind. eapply safe_mono; [exact H|].
  intros [[r s']|e] g'; [|done]. intros Hf. apply safe_bind. eapply safe_mono; [exact Hf|].
  by intros [[[u|e] s'']|e] g''.
Qed.
Lemma sess_driver o s g (Q : res (answer o) → Session → Wire → Prop) :
  allowed g o = true → (∀ r, Q r s (next g o r)) → sess (driver o) s g Q.
Proof.
  intros Ha HQ. unfold sess, driver. apply safe_bind, safe_attempt, safe_call; [done|].
  intros r. apply HQ.
Qed.

Lemma sess_ret {A} (v : A) s g Q : Q (Ok v) s g → sess (mret v) s g Q.
Proof. done. Qed.
Lemma sess_raise {A} e s g (Q : res A → Session → Wire → Prop) : Q (Raise e) s g → sess (pg_raise e) s g Q.
Proof. done. Qed.
Lemma sess_res {A} (r : res A) s g Q : Q r s g → sess (pg_res r) s g Q.
Proof. done. Qed.
Lemma sess_need c code s g (Q : res unit → Session → Wire → Prop) :
  Q (need c code) s g → sess (pg_need c code) s g Q.
Proof. done. Qed.
Lemma sess_get {A} (f : Session → A) s g Q : Q (Ok (f s)) s g → sess (pg_get f) s g Q.
Proof. done. Qed.
Lemma sess_set f s g (Q : res unit → Session → Wire → Prop) : Q (Ok tt) (f s) g → sess (pg_set f) s g Q.
Proof. done. Qed.

Lemma sess_seen {A B} (m : Pg A) (f : res A → Pg B) s g Q :
  sess m s g (fun r s' g' => sess (f r) s' g' Q) → sess (fun s => p ← m s; f p.1 p.2) s g Q.
Proof.
  intros H. apply safe_bind. eapply safe_mono; [exact H|]. by intros [[r s']|e] g'.
Qed.

(** *** Following a session *)

#[local] Opaque sess.
Ltac sess_step :=
  lazymatch goal with
  | |- sess (mbind _ _) _ _ _ => apply sess_bind
  | |- sess (pg_catch _ _) _ _ _ => apply sess_catch
  | |- sess (pg_finally _ _) _ _ _ => apply sess_finally
  | |- sess (if ?b then _ else _) _ _ _ => let E := fresh "Hb" in destruct b eqn:E
  | |- sess (mret _) _ _ _ => apply sess_ret
  | |- sess (pg_raise _) _ _ _ => apply sess_raise
  | |- sess (pg_get _) _ _ _ => apply sess_get
  | |- sess (pg_set _) _ _ _ => apply sess_set
  | |- sess (pg_need _ _) _ _ _ => apply sess_need
  | |- sess (pg_res _) _ _ _ => apply sess_res
  end; cbv beta iota.

(** The thread's slot after the connection let go of it. *)
Definition release (s : Session) : Session :=
  (if bool_decide (writer s = Some (me s)) then s <| writer := None |> else s) <| started := false |>.
(** A connection that the driver opened and nobody closed. *)
Definition opened (g : Wire) : Prop := link g ≠ ln_none ∧ link g ≠ ln_closed.

Lemma sess_rollback s g (Q : res unit → Session → Wire → Prop) :
  closed s = false → opened g →
  (∀ r, Q r (release s) (mkWire ln_idle (committed g))) → sess rollback s g Q.
Proof.
  intros Hc [H1 H2] HQ. unfold rollback. do 4 sess_step. rewrite Hc.
  assert (∀ r, sess (release_local ;; pg_set (fun s => s <| started := false |>)) s (mkWire ln_idle (committed g))
    (fun u s'' g'' => match u with Ok _ => Q r s'' g'' | Raise e => Q (Raise e) s'' g'' end)) as Hrel.
  { intros r. unfold release_local. repeat sess_step. apply HQ. }
  apply (sess_driver d_rollback).
  - unfold allowed. by destruct (link g).
  - intros [[]|e]; cbv beta iota; [exact (Hrel (Ok tt))|]. repeat sess_step; [exact (Hrel (Ok tt))|exact (Hrel (Raise e))].
Qed.
Lemma sess_rollback_raise {A} e0 s g (Q : res A → Session → Wire → Prop) :
  closed s = false → opened g →
  (∀ e, Q (Raise e) (release s) (mkWire ln_idle (committed g))) → sess (rollback ;; pg_raise e0) s g Q.
Proof.
  intros Hc Hg HQ. sess_step. apply sess_rollback; [done..|]. intros [[]|e]; [sess_step|]; apply HQ.
Qed.

(** A statement of the setup. *)
Lemma sess_setup n st ps s c (Q : res unit → Session → Wire → Prop) :
  setup !! n = Some (st, ps) → (S n =? length setup)%nat = false →
  (∀ e, Q (Raise e) s (mkWire ln_broken c)) → Q (Ok tt) s (mkWire (ln_setup (S n)) c) →
  sess (run_statement st ps) s (mkWire (ln_setup n) c) Q.
Proof.
  intros Hn Hlast HE HQ. unfold run_statement. sess_step.
  apply (sess_driver (d_execute _ _)); [by apply bool_decide_eq_true_2|]. intros [v|e]; [|apply HE].
  cbn [next link committed]. unfold after_setup. rewrite Hlast. exact HQ.
Qed.
Lemma sess_identity n s c (Q : res unit → Session → Wire → Prop) :
  setup !! n = Some (IDENTITY, []) → (S n =? length setup)%nat = true →
  (∀ e, Q (Raise e) s (mkWire ln_broken c)) → Q (Ok tt) s (mkWire ln_ready c) →
  sess (verify_identity a) s (mkWire (ln_setup n) c) Q.
Proof.
  intros Hn Hlast HE HQ. unfold verify_identity. sess_step.
  apply (sess_driver (d_execute _ _)); [by apply bool_decide_eq_true_2|]. intros [v|e]; [|apply HE].
  cbn [next link committed]. unfold after_setup. rewrite Hlast. sess_step.
  destruct (identity_matches a v) as [[]|e]; [exact HQ|apply HE].
Qed.

(** The attributes of a session that holds the thread's slot, and of one that
    let it go: what a transaction may leave behind on each of its ways out. *)
Definition writing (s : Session) : Session :=
  s <| started := true |> <| write := true |> <| writer := Some (me s) |>.
Definition same_but_begun (s0 s : Session) : Prop :=
  closed s = false ∧ me s = me s0 ∧ writer s = writer s0.

Lemma release_writer s : writer (release s) = if bool_decide (writer s = Some (me s)) then None else writer s.
Proof. unfold release. by case_bool_decide. Qed.
Lemma release_same s0 s : writer s0 ≠ Some (me s0) → same_but_begun s0 s → same_but_begun s0 (release s).
Proof.
  intros Hw (Hc & Hm & Hs). unfold same_but_begun. rewrite release_writer, bool_decide_eq_false_2 by congruence.
  unfold release. by case_bool_decide.
Qed.

Lemma sess_begin s0 (Q : res unit → Session → Wire → Prop) :
  started s0 = false → closed s0 = false → read_only s0 = false → writer s0 ≠ Some (me s0) →
  (∀ e s g, same_but_begun s0 s → opened g → committed g = false → Q (Raise e) s g) →
  (writer s0 = None → Q (Ok tt) (writing s0) (mkWire ln_ready false)) →
  sess (begin a true) s0 (mkWire ln_idle false) Q.
Proof.
  intros Hs Hc Hr Hw HE HQ. unfold begin. do 4 sess_step. cbn [id]. rewrite Hs, Hc. cbn [negb andb need].
  cbv beta iota. do 2 sess_step. rewrite Hr. cbn [negb andb need]. cbv beta iota. sess_step.
  assert (∀ e s l, same_but_begun s0 s → l ≠ ln_none → l ≠ ln_closed →
    sess (if unavailable e then rollback ;; pg_raise e
          else if driver_error e then rollback ;; pg_raise (authority_error "authority_transaction_unavailable")
          else pg_raise e) s (mkWire l false) Q) as HF.
  { intros e s l Hsame H1 H2.
    assert (∀ e, sess (rollback ;; pg_raise e) s (mkWire l false) Q) as Hrb.
    { intros e'. apply sess_rollback_raise; [apply Hsame|done|]. intros e''.
      apply HE; [by apply release_same|done..]. }
    sess_step; [apply Hrb|]. sess_step; [apply Hrb|]. sess_step. by apply HE. }
  sess_step. unfold run_statement at 1. sess_step.
  apply (sess_driver (d_execute _ _)); [done|]. intros [v|e]; cbv beta iota; [|by apply HF].
  do 3 sess_step. sess_step. change (next _ _ _) with (mkWire (ln_setup 0) false).
  set (s1 := s0 <| started := true |>).
  assert (same_but_begun s0 s1) as H1 by done.
  apply sess_setup; [done..|by intros e; apply HF|]. cbv beta iota. sess_step.
  apply sess_setup; [done..|by intros e; apply HF|]. cbv beta iota. sess_step.
  apply sess_setup; [done..|by intros e; apply HF|]. cbv beta iota. do 5 sess_step.
  case_bool_decide as Hnone; cbn [need]; cbv beta iota; [|by apply HF].
  apply sess_setup; [done..|by intros e; apply HF|]. cbv beta iota. sess_step.
  apply sess_identity; [done..|by intros e; apply HF|]. cbv beta iota. repeat sess_step.
  by apply HQ.
Qed.

(** Statements of a body reach the driver in the transaction that began, and
    change neither the session nor the state of the wire: a second [BEGIN] is
    rejected before the driver. *)
Lemma sess_body {A} (b : Body A) s g (Q : res A → Session → Wire → Prop) :
  started s = true → closed s = false → link g = ln_ready → (∀ r, Q r s g) → sess (run_body a b) s g Q.
Proof.
  intros Hs Hc Hg. revert Q.
  assert (∀ st ps (Q : res Cursor → Session → Wire → Prop), (∀ r, Q r s g) →
    sess (driver (d_execute st ps)) s g Q) as Hd.
  { intros st ps Q HQ. apply (sess_driver (d_execute _ _)); [by unfold allowed; rewrite Hg|].
    intros r. unfold next. rewrite Hg. apply HQ. }
  assert (∀ w (Q : res unit → Session → Wire → Prop), (∀ r, Q r s g) → sess (begin a w) s g Q) as Hb.
  { intros w Q HQ. unfold begin. do 4 sess_step. cbn [id]. rewrite Hs. cbn. apply HQ. }
  induction b as [v|e|st ps k IH|k IH]; intros Q HQ; cbn [run_body]; [repeat sess_step; apply HQ..| |].
  - change (sess (fun s => p ← execute a st ps s; run_body a (k p.1) p.2) s g Q).
    apply (sess_seen (execute a st ps) (fun r => run_body a (k r))). unfold execute.
    sess_step; [repeat sess_step; apply Hb; intros []; repeat sess_step; by apply IH|].
    sess_step; [repeat sess_step; apply Hb; intros []; repeat sess_step; by apply IH|].
    do 3 sess_step. rewrite Hs. repeat sess_step.
    destruct (compile_pool_sql _ _) as [compiled|e]; cbv beta iota; [|by apply IH].
    repeat sess_step. apply Hd. intros [c|e]; repeat sess_step; by apply IH.
  - change (sess (fun s => p ← server_time s; run_body a (k p.1) p.2) s g Q).
    apply (sess_seen server_time (fun r => run_body a (k r))). unfold server_time.
    do 4 sess_step. cbn [id]. rewrite Hs, Hc. cbn [negb andb need]. cbv beta iota.
    repeat sess_step. apply Hd. intros [c|e]; repeat sess_step; by apply IH.
Qed.

(** *** The ways out of a transaction *)

(** Letting go of the slot leaves the thread as it was. *)
Definition tidy (s0 s : Session) : Prop := closed s = false ∧ writer (release s) = writer s0.

Lemma tidy_release s0 s : tidy s0 s → tidy s0 (release s).
Proof.
  intros [Hc Hw]. split; [by unfold release; case_bool_decide|].
  rewrite release_writer, Hw. case_bool_decide as H; [|done].
  exfalso. rewrite <- Hw, release_writer in H. unfold release in H. case_bool_decide as Hm; [done|].
  by apply Hm.
Qed.
Lemma tidy_begun s0 s : writer s0 ≠ Some (me s0) → same_but_begun s0 s → tidy s0 s.
Proof. intros Hw (Hc & Hm & Hs). split; [done|]. by rewrite release_writer, bool_decide_eq_false_2 by congruence. Qed.
Lemma tidy_writing s0 : closed s0 = false → writer s0 = None → tidy s0 (writing s0).
Proof. intros Hc Hw. split; [done|]. by rewrite release_writer, bool_decide_eq_true_2. Qed.

Lemma sess_close s0 s g (Q : res unit → Session → Wire → Prop) :
  tidy s0 s → opened g →
  (∀ e s l, writer s = writer s0 → l = ln_idle ∨ l = ln_closed → Q (Raise e) s (mkWire l (committed g))) →
  (∀ s, writer s = writer s0 → Q (Ok tt) s (mkWire ln_closed (committed g))) →
  sess close s g Q.
Proof.
  intros [Hc Hw] Hg HE HQ. unfold close. do 2 sess_step. rewrite Hc. sess_step.
  apply sess_rollback; [done..|]. intros [[]|e]; [|by apply HE; auto].
  sess_step. apply (sess_driver d_close); [done|].
  intros [[]|e]; cbn [next]; [|by apply HE; auto]. sess_step. by apply HQ.
Qed.

(** What a transaction leaves: the thread's slot as it was, no transaction
    open, and its changes committed when it returned. *)
Definition settled {A} (s0 : Session) (r : res A) (s : Session) (g : Wire) : Prop :=
  writer s = writer s0 ∧ (link g = ln_none ∨ link g = ln_idle ∨ link g = ln_closed) ∧
  ∀ v, r = Ok v → committed g = true ∧ link g = ln_closed ∧ writer s0 = None.

Lemma settled_raise {A} s0 e s l c :
  writer s = writer s0 → (l = ln_none ∨ l = ln_idle ∨ l = ln_closed) → settled (A:=A) s0 (Raise e) s (mkWire l c).
Proof. by repeat split. Qed.

Lemma sess_transaction {A} (b : Body A) s0 :
  started s0 = false → closed s0 = false → read_only s0 = false → writer s0 ≠ Some (me s0) →
  sess (transaction a sqlstate b) s0 (mkWire ln_none false) (settled s0).
Proof.
  intros Hs Hc Hr Hw. unfold transaction. sess_step. unfold connect. sess_step.
  apply (sess_driver d_connect); [done|]. intros [[]|e]; cbn [next]; cbv beta iota; last first.
  { destruct e; repeat sess_step; apply settled_raise; auto. }
  sess_step.
  assert (∀ e s g, tidy s0 s → opened g → sess close s g (fun u s g => match u with
    Ok _ => settled (A:=A) s0 (Raise e) s g | Raise e => settled (A:=A) s0 (Raise e) s g end)) as Hclose.
  { intros e s g Ht Hg. eapply sess_close; [done..| |]; intros; apply settled_raise; naive_solver. }
  assert (∀ e s g, tidy s0 s → opened g → sess (rollback ;; pg_raise e) s g (fun r s' g' =>
    sess close s' g' (fun u s g => match u with
      Ok _ => settled (A:=A) s0 r s g | Raise e => settled (A:=A) s0 (Raise e) s g end))) as Hfail.
  { intros e s g Ht Hg. apply sess_rollback_raise; [apply Ht|done|]. intros e'.
    apply Hclose; [by apply tidy_release|done]. }
  do 2 sess_step. unfold execute. sess_step; [|by vm_compute in Hb].
  sess_step. apply sess_begin; [done..| |].
  { intros e s g Hsame Hg _. apply Hfail; [by apply tidy_begun|done]. }
  intros Hnone. do 2 sess_step. pose proof (tidy_writing s0 Hc Hnone) as Ht.
  apply sess_body; [done..|]. intros [v|e]; [|by apply Hfail].
  sess_step. unfold commit. do 2 sess_step. apply (sess_driver d_commit); [done|].
  pose proof (tidy_release _ _ Ht) as Ht'.
  intros [[]|e]; cbn [next]; unfold release_local; repeat sess_step;
    try (apply sess_rollback; [apply Ht'|done|];
         intros [[]|e']; [sess_step|]; apply Hclose; [by apply (tidy_release _ _ Ht')|done|by apply (tidy_release _ _ Ht')|done]).
  eapply sess_close; [exact Ht'|done|..].
  - intros e s l Hws Hl. apply settled_raise; naive_solver.
  - intros s Hws. repeat split; auto.
Qed.
End Wire.


(** *** A transaction against a server that answers *)

Definition demo_authority : Authority.t :=
  match make_authority
    [("host", "db.example.org"); ("dbname", "pool"); ("user", "pool"); ("password", "x");
     ("sslmode", "verify-full"); ("sslrootcert", "/etc/ca.pem")]%string
    "worker_pool" "8c1f4a10-55f1-4a43-9a0e-0d7f3f5a2b61" false "CREATE TABLE tasks();" with
  | Ok a => a
  | Raise _ => Authority.mk [] 0 "" "" 0 ""
  end.
Definition demo_server (o : op) (u : unit) : res (answer o) * unit :=
  (match o return res (answer o) with
   | d_execute st _ =>
       Ok (mkCursor 1 (if String.eqb st IDENTITY
          then [[("authority_id", JStr (Authority.authority_id demo_authority)); ("schema_version", JInt 1);
                 ("schema_sha256", JStr (Authority.schema_sha256 demo_authority))]]
          else []))%string
   | _ => Ok tt
   end, u).
Definition demo_body : Body Z :=
  b_execute "UPDATE tasks SET attempts=? WHERE task_id=?" [JInt 1; JStr "t-1"]
    (fun r => match r with Ok (Some c) => b_return (rowcount c) | _ => b_return 0 end).
Definition demo_session : Session := mkSession None 7 false false false false.
Definition demo_run := Prog.execute demo_server (transaction demo_authority (fun _ => None) demo_body demo_session) tt.

