(* ===== verification/IsoDate.v ===== *)
(** [datetime.fromisoformat] in full, as the library of the language scans
    it: the date alone or with a time, in extended or basic form or as a week
    date, any separator, a fraction of any length truncated to microseconds,
    and an optional offset; with the texts that its scanner accepts beyond
    the documented grammar.  [Clock.parse_iso] is
    its restriction to the stamps the store writes. *)
From S2P Require Import Prelude PyStr Clock.
From Stdlib Require Import Ascii String.
From stdpp Require Import strings.

Local Open Scope Z_scope.

(** A [datetime]: the wall clock, in microseconds since 0001-01-01, and the
    offset from UTC of an aware one. *)
Record DateTime := mkDateTime { wall : Z; utcoffset : option Z }.
Definition aware (d : DateTime) : bool := match utcoffset d with Some _ => true | None => false end.
(** The instant of an aware one. *)
Definition instant (d : DateTime) : Z :=
  wall d - match utcoffset d with Some o => o | None => 0 end.
(** [d.astimezone(timezone.utc)] of an aware one. *)
Definition astimezone_utc (d : DateTime) : res datetime :=
  if (0 <=? instant d) && (instant d <? MAX_DAYS * DAY_MICROS) then Ok (instant d)
  else Raise (OverflowError "date value out of range").

(** ** Dates *)

Definition monday_of_week1 (y : Z) : Z :=
  let first := day_number y 1 1 in
  let weekday := first mod 7 in
  let monday := first - weekday in
  if 3 <? weekday then monday + 7 else monday.
(** The day of a week date; the last week of some years only is the 53rd. *)
Definition iso_week (y week day : Z) : option Z :=
  if (1 <=? y) && (y <=? 9999) && (1 <=? week) && (week <=? 53) && (1 <=? day) && (day <=? 7) &&
     ((week <? 53) || (monday_of_week1 (y + 1) - monday_of_week1 y =? 371))
  then let n := monday_of_week1 y + (week - 1) * 7 + (day - 1) in
       if (0 <=? n) && (n <? MAX_DAYS) then Some n else None
  else None.

Definition at_char (l : list ascii) (i : nat) (c : ascii) : bool :=
  match l !! i with Some x => Ascii.eqb x c | None => false end.
Definition digit_at (l : list ascii) (i : nat) : bool :=
  match l !! i with Some x => is_digit x | None => false end.
Definition skip (b : bool) (l : list ascii) : list ascii := if b then tail l else l.

Fixpoint digit_run (l : list ascii) : nat :=
  match l with c :: l' => if is_digit c then S (digit_run l') else O | [] => O end.

(** Where the date ends. *)
Definition separator_location (l : list ascii) : option nat :=
  let n := length l in
  if (n =? 7)%nat then Some 7%nat
  else if at_char l 4 "-" then
    if at_char l 5 "W" then
      if (8 <? n)%nat && at_char l 8 "-" then
        if (n =? 9)%nat then None
        else if (10 <? n)%nat && digit_at l 10 then Some 8%nat else Some 10%nat
      else Some 8%nat
    else Some 10%nat
  else if at_char l 4 "W" then
    let idx := (7 + digit_run (drop 7 l))%nat in
    if (idx <? 9)%nat then Some idx
    else if Nat.even idx then Some 7%nat else Some 8%nat
  else Some 8%nat.

(** The day of a date text. *)
Definition parse_date (l : list ascii) : option Z :=
  '(y, l) ← read_digits 4 0 l;
  let has_sep := at_char l 0 "-" in
  let l := skip has_sep l in
  if at_char l 0 "W" then
    '(week, l) ← read_digits 2 0 (tail l);
    match l with
    | [] => iso_week y week 1
    | _ =>
        if negb (Bool.eqb (at_char l 0 "-") has_sep) then None
        else '(day, l) ← read_digits 1 0 (skip has_sep l);
             match l with [] => iso_week y week day | _ => None end
    end
  else
    '(m, l) ← read_digits 2 0 l;
    if negb (Bool.eqb (at_char l 0 "-") has_sep) then None
    else '(d, l) ← read_digits 2 0 (skip has_sep l);
         match l with
         | [] => if in_fields y m d 0 0 0 then Some (day_number y m d) else None
         | _ => None
         end.

(** ** Times *)

Definition micros_of (digits : list ascii) : option Z :=
  '(n, _) ← read_digits (length digits) 0 digits;
  Some (n * 10 ^ (6 - Z.of_nat (length digits))).
(** The digits after the seconds, and whether anything follows them. *)
Definition scan_fraction (l : list ascii) : option (Z * bool) :=
  us ← micros_of (take 6 l);
  Some (us, negb (forallb is_digit (drop 6 l))).
(** [HH[:?MM[:?SS[.f+]]]]: the fields from the one that is next, [n] of them
    after it; the flag says that the text did not end with them. *)
Fixpoint scan_fields (n : nat) (has_sep : bool) (l : list ascii) : option (list Z * Z * bool) :=
  '(v, l) ← read_digits 2 0 l;
  match l with
  | [] => Some ([v], 0, false)
  | [_] => Some ([v], 0, true)
  | c :: l' =>
      let fraction l := '(us, more) ← scan_fraction l; Some ([v], us, more) in
      let continue l :=
        match n with
        | O => fraction l
        | S n' => '(vs, us, more) ← scan_fields n' has_sep l; Some (v :: vs, us, more)
        end in
      if has_sep && Ascii.eqb c ":" then continue l'
      else if one_of ".," c then fraction l'
      else if negb has_sep then continue l
      else None
  end.
Definition scan_time (l : list ascii) : option (Z * Z * Z * Z * bool) :=
  '(vs, us, more) ← scan_fields 2 (at_char l 2 ":") l;
  Some (nth 0 vs 0, nth 1 vs 0, nth 2 vs 0, us, more).

Definition micros_of_time (t : Z * Z * Z * Z) : Z :=
  let '(hh, mi, ss, us) := t in (hh * 3600 + mi * 60 + ss) * MICROS + us.

(** The first sign or [Z]. *)
Fixpoint zone_at (l : list ascii) : option nat :=
  match l with
  | [] => None
  | x :: l' => if one_of "+-Z" x then Some O else S <$> zone_at l'
  end.
Definition zone_offset (sign : ascii) (l : list ascii) : option Z :=
  '(t, more) ← scan_time l;
  let size := micros_of_time t in
  let o := if size <? MICROS then 0 else (if Ascii.eqb sign "-" then -1 else 1) * size in
  if negb more && (- DAY_MICROS <? o) && (o <? DAY_MICROS) then Some o else None.

Definition parse_time (l : list ascii) : option (Z * Z * Z * Z * option Z) :=
  match zone_at l with
  | None => '(t, more) ← scan_time l; if (more : bool) then None else Some (t, None)
  | Some i =>
      '(t, _) ← scan_time (take i l);
      match drop i l with
      | ["Z"%char] => Some (t, Some 0)
      | "Z"%char :: _ | [] => None
      | sign :: rest => o ← zone_offset sign rest; Some (t, Some o)
      end
  end.

Definition in_day (t : Z * Z * Z * Z) : bool :=
  let '(hh, mi, ss, _) := t in (hh <? 24) && (mi <? 60) && (ss <? 60).

Definition parse_datetime (l : list ascii) : option DateTime :=
  if (length l <? 7)%nat then None
  else
    i ← separator_location l;
    day ← parse_date (take i l);
    if (length l <=? i)%nat then Some (mkDateTime (day * DAY_MICROS) None)
    else
      '(t, zone) ← parse_time (drop (S i) l);
      if in_day t then Some (mkDateTime (day * DAY_MICROS + micros_of_time t) zone) else None.
(** [datetime.fromisoformat(s)] *)
Definition fromisoformat (s : string) : res DateTime :=
  match parse_datetime (chars s) with
  | Some d => Ok d
  | None => Raise (ValueError "Invalid isoformat string")
  end.
(** [s.replace("Z", "+00:00")] *)
Definition zulu (s : string) : string :=
  str (flat_map (fun c => if Ascii.eqb c "Z" then chars "+00:00" else [c]) (chars s)).
(** [d.isoformat()] of an aware UTC [datetime]: [iso] with the offset. *)
Definition isoformat_utc (d : datetime) : string := zulu (iso d).

Example fromisoformat_examples :
  map (fun s => d ← fromisoformat s; Ok (instant d))
    ["2024-02-29T23:59:59.5+01:30"; "20240229T225959,50-0000"; "2024-W09-4T22:29:59.500000Z";
     "2024W094 235959.5+0130"; "2024-02-30"; "2024-02-29T24:00Z"; "2024-02-29T10:0Z"]%string
  = [Ok 63844842599500000; Ok 63844844399500000; Ok 63844842599500000; Ok 63844842599500000;
     Raise (ValueError "Invalid isoformat string"); Raise (ValueError "Invalid isoformat string");
     Raise (ValueError "Invalid isoformat string")].
Proof. vm_compute. reflexivity. Qed.
