(* ===== verification/Manifest.v ===== *)
(** The data of the one-shot executor, [app/native_one_shot.py] up to its
    artifact: the manifest a queue names, the contract of a locally installed
    adapter, the attested boundary, the result of an adapter and the durable
    artifact, each with its closed validation. *)
From S2P Require Import Prelude PyStr Sha256 Json PyVal Names.
From Stdlib Require Import Ascii String.
From stdpp Require Import strings.

Local Open Scope Z_scope.

Definition NAME : re := Cat (Chr is_lower) (Rep 2 (Some 127%nat) (Chr (either is_lower (either is_digit (one_of "_.-"))))).
Definition CORRELATION : re :=
  Cat (Chr (either is_lower is_digit)) (Rep 7 (Some 127%nat) (Chr (either is_lower (either is_digit (one_of "-"))))).
Definition FENCE_ID : re := Cat (Chr alnum) (Rep 0 (Some 127%nat) (Chr (either alnum (one_of "._:-")))).
Definition SESSION : re := Rep 3 (Some 64%nat) (Chr (either alnum (one_of "._-"))).
Definition repo_char : ascii → bool := either alnum (one_of "_.-").
Definition MANIFEST_REPOSITORY : re :=
  Cat (Rep 1 (Some 100%nat) (Chr repo_char)) (Cat (lit "/") (Rep 1 (Some 100%nat) (Chr repo_char))).

(** [NativeExecutorBlocked(code)] and [_need] *)
Definition blocked (code : string) : exn := Error "NativeExecutorBlocked" code.
(** [isinstance(e, cls)] for a class of another module. *)
Definition is_a (cls : string) (e : exn) : bool :=
  match e with Error c _ => String.eqb c cls | _ => false end.
Definition need (condition : bool) (code : string) : res unit :=
  if condition then Ok tt else Raise (blocked code).
Definition need_r (condition : res bool) (code : string) : res unit :=
  c ← condition; need c code.

Definition canonical (value : json) : string := str (dumps_ascii (sort_all value)).
Definition digest (value : json) : string := sha256_hex (canonical value).

(** ** Paths *)

Fixpoint split_on (c : ascii) (l : list ascii) : list (list ascii) :=
  match l with
  | [] => [[]]
  | x :: l' =>
      if Ascii.eqb x c then [] :: split_on c l'
      else match split_on c l' with w :: ws => (x :: w) :: ws | [] => [[x]] end
  end.
(** [PurePosixPath(value).parts] of a relative path. *)
Definition path_parts (value : string) : list string :=
  List.filter (fun p => negb (String.eqb p "") && negb (String.eqb p "."))
    (map str (split_on "/" (chars value))).
Fixpoint join (sep : string) (l : list string) : string :=
  match l with
  | [] => ""
  | [x] => x
  | x :: l' => String.append x (String.append sep (join sep l'))
  end.
Definition as_posix (parts : list string) : string :=
  match parts with [] => "." | _ => join "/" parts end.

Definition safe_path (value : string) : res string :=
  let parts := path_parts value in
  need ((1 <=? len value)%nat && (len value <=? 240)%nat) "manifest_path" ;;
  need (negb (starts_with "/" value) && negb (contains "\" value) &&
        negb (existsb (String.eqb "..") parts)) "manifest_path_traversal" ;;
  need (forallb (fun part => negb (starts_with "." part)) parts) "manifest_path_hidden" ;;
  Ok (as_posix parts).

Fixpoint map_res {A B} (f : A → res B) (l : list A) : res (list B) :=
  match l with
  | [] => Ok []
  | x :: l' => y ← f x; ys ← map_res f l'; Ok (y :: ys)
  end.

(** [tuple(sorted(set(l)))] *)
Definition sorted_set (l : list string) : list string := sort_by text_leb (remove_dups l).

(** ** The attested boundary *)

Module ExecutionBoundary.
Record t := mk {
  session_id : string; correlation_id : string; expected_head : string;
  state_validated : bool; gateway_verified : bool }.
End ExecutionBoundary.

Definition validate_boundary (b : ExecutionBoundary.t) : res unit :=
  need (fullmatch SESSION (ExecutionBoundary.session_id b)) "session_invalid" ;;
  need (fullmatch CORRELATION (ExecutionBoundary.correlation_id b)) "correlation_invalid" ;;
  need (fullmatch SHA40 (ExecutionBoundary.expected_head b)) "boundary_head_invalid" ;;
  need (ExecutionBoundary.state_validated b && ExecutionBoundary.gateway_verified b)
    "governed_boundary_unproved".

(** ** The adapter's contract *)

Module AdapterDescriptor.
Record t := mk {
  adapter_id : string; allowed_paths : list string;
  builder_commands : list string; validator_commands : list string; roles : list string }.
End AdapterDescriptor.

Definition check_commands (commands : list string) : res unit :=
  need (bool_decide (commands = sorted_set commands) && forallb (fullmatch NAME) commands)
    "adapter_commands".
Definition normalized (d : AdapterDescriptor.t) : res json :=
  need (fullmatch NAME (AdapterDescriptor.adapter_id d)) "adapter_id" ;;
  paths ← map_res safe_path (AdapterDescriptor.allowed_paths d);
  let builder := AdapterDescriptor.builder_commands d in
  let validator := AdapterDescriptor.validator_commands d in
  let roles := AdapterDescriptor.roles d in
  need (bool_decide (paths = sorted_set paths) && negb (bool_decide (paths = []))) "adapter_paths" ;;
  check_commands builder ;;
  check_commands validator ;;
  need (subset roles ["builder"; "validator"]%string && negb (bool_decide (roles = []))) "adapter_roles" ;;
  need ((negb (bool_decide ("builder"%string ∈ roles)) || negb (bool_decide (builder = []))) &&
        (negb (bool_decide ("validator"%string ∈ roles)) || negb (bool_decide (validator = []))))
    "adapter_role_commands" ;;
  Ok (JObj [("adapter_id", JStr (AdapterDescriptor.adapter_id d));
            ("allowed_paths", JList (map JStr paths));
            ("builder_commands", JList (map JStr builder));
            ("validator_commands", JList (map JStr validator));
            ("roles", JList (map JStr roles))])%string.
Definition command_keys (d : AdapterDescriptor.t) : list string :=
  sorted_set (AdapterDescriptor.builder_commands d ++ AdapterDescriptor.validator_commands d).
Definition commands_for (d : AdapterDescriptor.t) (role : string) : res (list string) :=
  need (bool_decide (role ∈ AdapterDescriptor.roles d)) "adapter_role_unsupported" ;;
  Ok (if bool_decide (role = "builder"%string) then AdapterDescriptor.builder_commands d
      else AdapterDescriptor.validator_commands d).
Definition contract_sha256 (d : AdapterDescriptor.t) : res string :=
  n ← normalized d; Ok (digest n).

(** ** The manifest *)

Module TaskManifest.
Record t := mk {
  schema_version : json; task_id : string; repository : string; base_sha : string;
  workspace_sha : string; adapter_id : string; adapter_contract_sha256 : string;
  before_sha256 : list (string * string) }.
End TaskManifest.

Definition MANIFEST_FIELDS : list string :=
  ["schema_version"; "task_id"; "repository"; "base_sha"; "workspace_sha";
   "adapter_id"; "adapter_contract_sha256"; "before_sha256"]%string.
(** The loop over [before.items()]. *)
Fixpoint normalize_hashes (acc : list (string * string)) (items : list (string * json))
    : res (list (string * string)) :=
  match items with
  | [] => Ok acc
  | (path, digest) :: items' =>
      safe ← safe_path path;
      match digest with
      | JStr d => need (fullmatch SHA256_HEX d) "manifest_hash" ;; normalize_hashes (set_key safe d acc) items'
      | _ => Raise (blocked "manifest_hash")
      end
  end.
(** [_need(type(v) is str and bool(r.fullmatch(v)), code)] *)
Definition text_field (r : re) (v : json) (code : string) : res string :=
  match v with
  | JStr s => need (fullmatch r s) code ;; Ok s
  | _ => Raise (blocked code)
  end.

Definition parse_manifest (raw : json) : res TaskManifest.t :=
  is_manifest ← match raw with JObj _ => has_fields MANIFEST_FIELDS raw | _ => Ok false end;
  need is_manifest "manifest_schema" ;;
  before ← item "before_sha256" raw;
  normal ← match before with
           | JObj items =>
               need ((1 <=? length items)%nat && (length items <=? 32)%nat) "manifest_hashes" ;;
               normalize_hashes [] items
           | _ => Raise (blocked "manifest_hashes")
           end;
  version ← item "schema_version" raw;
  tid ← item "task_id" raw; repository ← item "repository" raw;
  base ← item "base_sha" raw; workspace ← item "workspace_sha" raw;
  adapter ← item "adapter_id" raw; contract ← item "adapter_contract_sha256" raw;
  need (py_eqb version (JInt 1)) "manifest_version" ;;
  tid ← text_field TASK_ID tid "manifest_task_id";
  repository ← text_field MANIFEST_REPOSITORY repository "manifest_repository";
  base ← text_field SHA40 base "manifest_base_sha";
  workspace ← text_field SHA40 workspace "manifest_workspace_sha";
  adapter ← text_field NAME adapter "manifest_adapter";
  contract ← text_field SHA256_HEX contract "manifest_adapter_contract";
  Ok (TaskManifest.mk version tid repository base workspace adapter contract normal).

(** ** Results and artifacts *)

Module AdapterResult.
Record t := mk {
  produced_sha : string; changed_paths : list string; invoked_commands : list string;
  evidence_sha256 : string }.
End AdapterResult.

Module DurableArtifact.
Record t := mk { artifact_kind : string; artifact_ref : string; artifact_sha256 : string }.
End DurableArtifact.

Definition ARTIFACT_FIELDS : list string := ["artifact_kind"; "artifact_ref"; "artifact_sha256"]%string.
Definition parse_artifact (raw : json) : res DurableArtifact.t :=
  is_artifact ← match raw with JObj _ => has_fields ARTIFACT_FIELDS raw | _ => Ok false end;
  need is_artifact "durable_artifact_invalid" ;;
  kind ← item "artifact_kind" raw; ref ← item "artifact_ref" raw; sha ← item "artifact_sha256" raw;
  need_r (fullmatch_val NAME kind &&&
          Ok (str_that (fun r => (1 <=? len r)%nat && (len r <=? 2048)%nat &&
                negb (contains (str [chr 10]) r) && negb (contains (str [chr 13]) r)) ref) &&&
          fullmatch_val SHA256_HEX sha)%py "durable_artifact_invalid" ;;
  match kind, ref, sha with
  | JStr k, JStr r, JStr s => Ok (DurableArtifact.mk k r s)
  | _, _, _ => Raise (blocked "durable_artifact_invalid")
  end.
Definition checkpoint_fields (a : DurableArtifact.t) : list (string * json) :=
  [("artifact_kind", JStr (DurableArtifact.artifact_kind a));
   ("artifact_ref", JStr (DurableArtifact.artifact_ref a));
   ("artifact_sha256", JStr (DurableArtifact.artifact_sha256 a))]%string.
