(* ===== verification/OneShot.v ===== *)
(** The one-shot executor of [app/native_one_shot.py]: the local checks, the
    replay of a receipt, the claim of one exact task, the builder's and the
    validator's work, the handling of failures and the receipt.

    The executor is a program over external calls: the Worker Pool, the
    durable transport, the commands of the registry, git and the files of the
    workspace and of the receipts.  Nothing is assumed of their answers.  An
    adapter is a product's code: it is a script that invokes registered
    commands and acts locally, and its result is not trusted.  A call that
    raises stands for any exception of the library below [Exception]; the
    class [OSError] stands for its subclasses as well. *)
From Stdlib Require Import Ascii String.
From stdpp Require Import strings.
From S2P Require Import Prelude Prog PyStr Sha256 Json PyVal IsoDate Names Manifest.

Local Open Scope Z_scope.

(** ** Calls *)

(** The fence of a mutation: [lease_generation] and [attempt_id]. *)
Definition Fence : Type := option (Z * string).
Module LeaseCall.
Record t := mk {
  task_id : string; worker_id : string; lease_token : string; correlation_id : string; fence : Fence }.
End LeaseCall.
Module CheckpointCall.
Record t := mk {
  lease : LeaseCall.t; checkpoint_id : string; sequence : Z; stage : string; next_action : string;
  artifact : option DurableArtifact.t; effect_id : option string; effect_state : string;
  effect_result_ref : option string }.
End CheckpointCall.

(** What an adapter returns: an [AdapterResult] or something else; and a
    transport: a [DurableArtifact] or a raw value. *)
Inductive Returned : Type := adapter_result (r : AdapterResult.t) | other_value.
Inductive RawArtifact : Type := an_artifact (a : DurableArtifact.t) | raw_artifact (v : json).

Module RootStat.
Record t := mk { is_dir : bool; is_symlink : bool }.
End RootStat.
Module FileStat.
Record t := mk { is_file : bool; is_symlink : bool; st_nlink : Z; inside_root : bool }.
End FileStat.

Inductive op : Type :=
  (* WorkerApi *)
  | get_task (tid : string)
  | claim (fenced : bool) (worker_id tid correlation_id : string)
  | get_latest_checkpoint (tid : string)
  | record_checkpoint (c : CheckpointCall.t)
  | api_start (l : LeaseCall.t)
  | submit_validation (l : LeaseCall.t) (produced_sha : string)
  | api_complete (l : LeaseCall.t)
  | api_fail (l : LeaseCall.t) (reason : string)
  | api_block (l : LeaseCall.t) (reason : string)
  (* DurableArtifactTransport *)
  | preflight
  | publish (m : TaskManifest.t) (f : Fence) (effect_id : string) (r : AdapterResult.t)
  | materialize (m : TaskManifest.t) (a : DurableArtifact.t)
  | verify (m : TaskManifest.t) (produced_sha : string) (a : DurableArtifact.t)
  (* the adapter's commands and its local actions *)
  | command (adapter_id key : string)
  | local_action (what : string)
  (* the workspace *)
  | git (args : list string)
  | root_stat
  | file_stat (relative : string)
  | read_bytes (relative : string)
  (* the receipts *)
  | lock (tid role : string)
  | unlock (tid role : string)
  | receipt_exists (tid role : string)
  | receipt_stat (tid role : string)
  | read_receipt (tid role : string)
  | replace_receipt (tid role : string) (value : json)
  | utc_now.

Definition answer (o : op) : Type :=
  match o with
  | get_task _ | claim _ _ _ _ | get_latest_checkpoint _ | record_checkpoint _ => json
  | publish _ _ _ _ => RawArtifact
  | materialize _ _ => Returned
  | command _ _ | local_action _ => json
  | git _ => Z * string
  | root_stat => RootStat.t
  | file_stat _ => FileStat.t
  | read_bytes _ => string
  | receipt_exists _ _ => bool
  | receipt_stat _ _ => FileStat.t
  | read_receipt _ _ => json
  | utc_now => Z
  | _ => unit
  end.
Abbreviation P := (prog answer).

(** ** The workspace *)

Definition git_text (args : list string) : P string :=
  out ← catch (call (git args)) (fun e =>
    if is_a "OSError" e || is_a "TimeoutExpired" e then throw (blocked "workspace_git_unavailable")
    else throw e);
  of_res (need ((out.1 =? 0) && (Z.of_nat (len out.2) <=? 1048576)) "workspace_git_failed") ;;
  mret (strip out.2).
Definition head : P string := s ← git_text ["rev-parse"; "HEAD"]%string; mret (lower s).
Definition status : P string := git_text ["status"; "--porcelain"; "--untracked-files=all"]%string.

Definition line_break (c : ascii) : bool :=
  in_range 10 13 c || in_range 28 30 c || (code c =? 133)%N.
(** The lines of [s.splitlines()] that are not empty. *)
Fixpoint lines_of (cur : list ascii) (l : list ascii) : list string :=
  let flush := match cur with [] => [] | _ => [str (rev cur)] end in
  match l with
  | [] => flush
  | c :: l' => if line_break c then flush ++ lines_of [] l' else lines_of (c :: cur) l'
  end.
Definition changed_paths (base_sha produced_sha : string) : P (list string) :=
  output ← git_text ["diff"; "--name-only"; "--no-renames"; base_sha; produced_sha]%string;
  mret (sort_by text_leb (lines_of [] (chars output))).

Definition detached_clean : P unit :=
  root ← call root_stat;
  of_res (need (RootStat.is_dir root && negb (RootStat.is_symlink root)) "workspace_root") ;;
  remote ← git_text ["remote"]%string;
  of_res (need (negb (nonempty remote)) "workspace_remote_forbidden") ;;
  dirty ← status;
  of_res (need (negb (nonempty dirty)) "workspace_dirty").
Definition validate_replay (produced_sha : string) : P unit :=
  detached_clean ;;
  h ← head;
  of_res (need (bool_decide (h = produced_sha)) "replay_head_drift").
Fixpoint check_files (hashes : list (string * string)) : P unit :=
  match hashes with
  | [] => mret tt
  | (relative, expected) :: hashes' =>
      st ← call (file_stat relative);
      of_res (need (FileStat.is_file st && negb (FileStat.is_symlink st) && (FileStat.st_nlink st =? 1))
                "workspace_file_invalid") ;;
      of_res (need (FileStat.inside_root st) "workspace_path_escape") ;;
      bytes ← call (read_bytes relative);
      of_res (need (bool_decide (sha256_hex bytes = expected)) "workspace_file_drift") ;;
      check_files hashes'
  end.
Definition validate_before_claim (m : TaskManifest.t) (d : AdapterDescriptor.t) : P unit :=
  detached_clean ;;
  h ← head;
  of_res (need (bool_decide (h = TaskManifest.workspace_sha m)) "workspace_head_drift") ;;
  of_res (need (same_set (keys (TaskManifest.before_sha256 m)) (AdapterDescriptor.allowed_paths d))
            "manifest_adapter_path_mismatch") ;;
  check_files (TaskManifest.before_sha256 m).

(** ** Adapters *)

(** The code of an adapter: it invokes registered commands, acts locally and
    returns or raises. *)
Inductive Script : Type :=
  | s_return (r : Returned)
  | s_raise (e : exn)
  | s_invoke (key : string) (k : res json → Script)
  | s_local (what : string) (k : res json → Script).

Record Adapter := mkAdapter {
  descriptor : AdapterDescriptor.t;
  build : TaskManifest.t → Script;
  validate : TaskManifest.t → string → Script }.

(** [AdapterContext]; the commands invoked so far are threaded. *)
Module AdapterContext.
Record t := mk { adapter_id : string; commands : list string; allowed : list string }.
End AdapterContext.
Definition make_context (m : TaskManifest.t) (d : AdapterDescriptor.t) (registry : list string) (role : string)
    : res AdapterContext.t :=
  allowed ← commands_for d role;
  need (same_set registry (command_keys d)) "local_command_registry" ;;
  Ok (AdapterContext.mk (TaskManifest.adapter_id m) registry allowed).
Definition may_invoke (ctx : AdapterContext.t) (key : string) : bool :=
  bool_decide (key ∈ AdapterContext.commands ctx) && bool_decide (key ∈ AdapterContext.allowed ctx).
(** [invoke]: the key is recorded before the command runs. *)
Fixpoint run_script (ctx : AdapterContext.t) (invoked : list string) (s : Script) : P (Returned * list string) :=
  match s with
  | s_return r => mret (r, invoked)
  | s_raise e => throw e
  | s_invoke key k =>
      if may_invoke ctx key
      then Do (command (AdapterContext.adapter_id ctx) key)
             (fun r : res json => run_script ctx (invoked ++ [key]) (k r))
      else run_script ctx invoked (k (Raise (blocked "command_not_allowlisted")))
  | s_local what k => Do (local_action what) (fun r : res json => run_script ctx invoked (k r))
  end.

(** ** The executor *)

Module Executor.
Record t := mk {
  root : string; adapters : list (string * Adapter); registries : list (string * list string);
  boundary : ExecutionBoundary.t; has_transport : bool; has_preflight : bool;
  has_checkpoints : bool; has_fenced_claims : bool; fenced_adapter_ids : list string }.
End Executor.
(** [__init__] *)
Definition make_executor (x : Executor.t) : res Executor.t :=
  need (forallb (fullmatch NAME) (Executor.fenced_adapter_ids x)) "fenced_adapter_attestation_invalid" ;;
  need (subset (Executor.fenced_adapter_ids x) (keys (Executor.adapters x)))
    "fenced_adapter_attestation_unknown" ;;
  Ok x.

Local Open Scope string_scope.
Local Open Scope Z_scope.

Definition fencing_required (task : json) : res bool :=
  value ← get_or "fencing_required" (JBool false) task;
  match value with
  | JBool b => Ok b
  | JInt n => need ((n =? 0) || (n =? 1)) "task_fencing_invalid" ;; Ok (n =? 1)
  | _ => Raise (blocked "task_fencing_invalid")
  end.

Definition EFFECT_STATES : list string := ["none"; "pending"; "unknown"; "confirmed"; "not_applied"].
Definition short_text : json → bool := str_that (fun s => (1 <=? len s)%nat && (len s <=? 2048)%nat).
Definition fence_id : json → bool := str_that (fullmatch FENCE_ID).
Definition positive : json → bool := int_that (fun n => 1 <=? n).

(** The effect of a checkpoint is in one of the shapes that its state allows. *)
Definition effect_shape (state id ref : json) : bool :=
  if is_text state "none" then is_none id && is_none ref
  else fence_id id &&
       (if is_text state "pending" || is_text state "unknown" then is_none ref else short_text ref).
Definition validate_checkpoint_shape (checkpoint : json) (tid : string) : res unit :=
  generation ← get "lease_generation" checkpoint; attempt ← get "attempt_id" checkpoint;
  sequence ← get "sequence" checkpoint; effect_id ← get "effect_id" checkpoint;
  effect_state ← get "effect_state" checkpoint; effect_ref ← get "effect_result_ref" checkpoint;
  task ← get "task_id" checkpoint; cid ← get "checkpoint_id" checkpoint;
  stage ← get "stage" checkpoint; next ← get "next_action" checkpoint;
  need (is_text task tid && positive generation && fence_id attempt && fence_id cid &&
        positive sequence && fence_id stage && short_text next) "recovery_context_invalid" ;;
  kind ← get "artifact_kind" checkpoint; ref ← get "artifact_ref" checkpoint;
  sha ← get "artifact_sha256" checkpoint;
  need (forallb is_none [kind; ref; sha] || forallb (fun v => negb (is_none v)) [kind; ref; sha])
    "recovery_context_invalid" ;;
  (if is_none kind then Ok tt
   else a ← parse_artifact (JObj [("artifact_kind", kind); ("artifact_ref", ref); ("artifact_sha256", sha)]); Ok tt) ;;
  need_r (member_of EFFECT_STATES effect_state &&& Ok (effect_shape effect_state effect_id effect_ref))%py
    "recovery_context_invalid".

Definition int_below (g : Z) : json → bool := int_that (fun n => n <? g).
Definition text_in (l : list string) (v : json) : bool := existsb (is_text v) l.

Fixpoint check_effects (items : list json) (tid : string) (g : Z) (seen : list string) : res unit :=
  match items with
  | [] => Ok tt
  | item :: items' =>
      validate_checkpoint_shape item tid ;;
      id ← get "effect_id" item; state ← get "effect_state" item;
      outcome ← get "reconciliation_outcome" item; readback ← get "reconciliation_readback_ref" item;
      generation ← get "lease_generation" item;
      need_r (Ok (str_that (fun s => negb (bool_decide (s ∈ seen))) id && int_below g generation &&
                  text_in ["pending"; "unknown"; "confirmed"; "not_applied"] state) &&&
              (if hashable outcome then Ok (is_none outcome || text_in ["confirmed"; "not_applied"] outcome)
               else unhashable) &&&
              Ok ((is_none outcome || text_in ["pending"; "unknown"] state) &&
                  (is_none outcome || short_text readback)))%py
        "recovery_context_invalid" ;;
      match id with JStr s => check_effects items' tid g (s :: seen) | _ => Ok tt end
  end.

Definition COMPARED : list string :=
  ["checkpoint_id"; "lease_generation"; "attempt_id"; "sequence"; "stage"; "artifact_kind"; "artifact_ref";
   "artifact_sha256"; "next_action"; "effect_id"; "effect_state"; "effect_result_ref"].
Definition member (k : string) (v : json) : json :=
  match v with JObj ms => match lookup_key k ms with Some x => x | None => JNull end | _ => JNull end.
Definition recovery_context (raw : json) (tid : string) (g : Z) : res (option json * list json) :=
  shaped ← match raw with JObj _ => has_fields ["latest_checkpoint"; "effects"] raw | _ => Ok false end;
  need shaped "recovery_context_invalid" ;;
  let latest := member "latest_checkpoint" raw in
  need (is_none latest || is_dict latest) "recovery_context_invalid" ;;
  effects ← match member "effects" raw with
            | JList l => need ((length l <=? 64)%nat && forallb is_dict l) "recovery_context_invalid" ;; Ok l
            | _ => Raise (blocked "recovery_context_invalid")
            end;
  (if is_none latest then Ok tt
   else validate_checkpoint_shape latest tid ;;
        need (int_below g (member "lease_generation" latest)) "recovery_context_invalid") ;;
  check_effects effects tid g [] ;;
  (if is_none (member "effect_id" latest) then Ok tt
   else let same item := py_eqb (member "effect_id" item) (member "effect_id" latest) in
        need (match List.find same effects with
              | Some item => forallb (fun k => py_eqb (member k item) (member k latest)) COMPARED
              | None => false
              end) "recovery_context_invalid") ;;
  Ok (if is_none latest then None else Some latest, effects).

Definition artifact_from_checkpoint (checkpoint : json) : res DurableArtifact.t :=
  parse_artifact (JObj (map (fun k => (k, member k checkpoint)) ARTIFACT_FIELDS)).

(** A checkpoint from which the work resumes. *)
Definition resumable (latest : json) : bool :=
  is_text (member "stage" latest) "builder_result" && is_text (member "next_action" latest) "submit_validation".
Fixpoint validate_recovery_effects (latest : option json) (effects : list json) : res unit :=
  match effects with
  | [] => Ok tt
  | item :: effects' =>
      let effective := or_else (member "reconciliation_outcome" item) (member "effect_state" item) in
      let of_latest := match latest with
                       | Some l => py_eqb (member "effect_id" item) (member "effect_id" l)
                       | None => false
                       end in
      (if is_text effective "not_applied" then need (negb of_latest) "recovery_effect_not_resumable"
       else match latest with
            | Some l =>
                need (is_text effective "confirmed" && of_latest && is_text (member "effect_state" l) "confirmed" &&
                      resumable l) "recovery_effect_unsafe" ;;
                a ← artifact_from_checkpoint l; Ok tt
            | None => Raise (blocked "recovery_effect_unsafe")
            end) ;;
      validate_recovery_effects latest effects'
  end.

Definition lease_fence (fenced : bool) (lease claimed : json) : res Fence :=
  generation ← get "lease_generation" lease; attempt ← get "attempt_id" lease;
  if fenced then
    match generation, attempt with
    | JInt g, JStr a =>
        need_r (Ok ((1 <=? g) && fullmatch FENCE_ID a) &&& field "lease_generation" (py_eqb (JInt g)) claimed &&&
                field "attempt_id" (py_eqb (JStr a)) claimed)%py "lease_fence_invalid" ;;
        Ok (Some (g, a))
    | _, _ => Raise (blocked "lease_fence_invalid")
    end
  else Ok None.

Definition checkpoint_id (attempt role stage : string) : string :=
  String.append "native-" (String.append role (String.append "-" (String.append stage (String.append "-"
    (take_str 32 (sha256_text (join ":" [attempt; role; stage]))))))).
Definition artifact_effect_id (tid produced : string) : string :=
  String.append "native-artifact-" (take_str 32 (sha256_text (join ":" [tid; produced]))).

(** [_validate_recovered_result] and [_validate_result] share the checks of
    the commit, the paths and the evidence. *)
Definition checked_result (prefix : string) (r : Returned) (d : AdapterDescriptor.t) (commands_ok : AdapterResult.t → res bool)
    : res AdapterResult.t :=
  match r with
  | other_value => Raise (blocked (String.append prefix "sha"))
  | adapter_result r =>
      need (fullmatch SHA40 (AdapterResult.produced_sha r)) (String.append prefix "sha") ;;
      paths ← map_res safe_path (AdapterResult.changed_paths r);
      need (negb (bool_decide (paths = [])) && bool_decide (paths = sorted_set paths) &&
            subset paths (AdapterDescriptor.allowed_paths d)) (String.append prefix "paths") ;;
      need_r (commands_ok r) (String.append prefix "commands") ;;
      need (fullmatch SHA256_HEX (AdapterResult.evidence_sha256 r)) (String.append prefix "evidence") ;;
      Ok r
  end.
Definition validate_recovered_result (r : Returned) (d : AdapterDescriptor.t) : res AdapterResult.t :=
  checked_result "artifact_result_" r d (fun r =>
    expected ← commands_for d "builder";
    let invoked := AdapterResult.invoked_commands r in
    Ok ((length invoked =? length expected)%nat && same_set invoked expected)).
Definition validate_result (r : Returned) (d : AdapterDescriptor.t) (invoked : list string) (role : string)
    : res AdapterResult.t :=
  checked_result "adapter_result_" r d (fun r =>
    if bool_decide (AdapterResult.invoked_commands r = invoked)
    then allowed ← commands_for d role; Ok (subset (AdapterResult.invoked_commands r) allowed)
    else Ok false).

(** ** Before the claim *)

Definition workspace_id (x : Executor.t) : string := sha256_text (Executor.root x).
Definition is_builder (role : string) : bool := String.eqb role "builder".
Definition same (a b : string) : bool := String.eqb a b.

Definition prepare (x : Executor.t) (raw : json) (role worker_id : string) : res (TaskManifest.t * Adapter) :=
  need (bool_decide (role ∈ ["builder"; "validator"])) "role_invalid" ;;
  need (fullmatch NAME worker_id) "worker_id_invalid" ;;
  validate_boundary (Executor.boundary x) ;;
  m ← parse_manifest raw;
  need (same (TaskManifest.workspace_sha m) (ExecutionBoundary.expected_head (Executor.boundary x)))
    "boundary_manifest_drift" ;;
  need (negb (is_builder role) || same (TaskManifest.workspace_sha m) (TaskManifest.base_sha m))
    "builder_workspace_not_base" ;;
  match lookup_key (TaskManifest.adapter_id m) (Executor.adapters x) with
  | None => Raise (blocked "adapter_unavailable")
  | Some a =>
      let d := descriptor a in
      need_r (Ok (same (AdapterDescriptor.adapter_id d) (TaskManifest.adapter_id m)) &&&
              (c ← contract_sha256 d; Ok (same c (TaskManifest.adapter_contract_sha256 m))))%py
        "adapter_contract_mismatch" ;;
      need (bool_decide (role ∈ AdapterDescriptor.roles d)) "adapter_role_unsupported" ;;
      Ok (m, a)
  end.

Definition distinct_workspace (x : Executor.t) (tid : string) : P unit :=
  present ← call (receipt_exists tid "builder");
  if (present : bool) then
    prior ← call (read_receipt tid "builder");
    distinct ← of_res (field "workspace_id" (fun v => negb (is_text v (workspace_id x))) prior);
    of_res (need distinct "validator_workspace_not_distinct")
  else mret tt.
Definition local_checks (x : Executor.t) (m : TaskManifest.t) (d : AdapterDescriptor.t) (role : string)
    : P AdapterContext.t :=
  validate_before_claim m d ;;
  (if is_builder role then mret tt else distinct_workspace x (TaskManifest.task_id m)) ;;
  let registry := match lookup_key (TaskManifest.adapter_id m) (Executor.registries x) with
                  | Some r => r | None => [] end in
  of_res (make_context m d registry role).

Definition task_matches (m : TaskManifest.t) (task : json) : res bool :=
  (field "task_id" (fun v => is_text v (TaskManifest.task_id m)) task &&&
   field "repository" (fun v => is_text v (TaskManifest.repository m)) task &&&
   field "base_sha" (fun v => is_text v (TaskManifest.base_sha m)) task)%py.
Definition check_task (x : Executor.t) (m : TaskManifest.t) (task : json) : res bool :=
  need_r (task_matches m task) "task_identity_drift" ;;
  fenced ← fencing_required task;
  (if (fenced : bool) then
     need (bool_decide (TaskManifest.adapter_id m ∈ Executor.fenced_adapter_ids x)) "fenced_adapter_not_attested" ;;
     need (Executor.has_transport x) "durable_artifact_transport_required" ;;
     need (Executor.has_checkpoints x) "fenced_worker_api_unsupported"
   else Ok tt) ;;
  Ok fenced.

(** ** Replay of a receipt *)

Definition RECEIPT_FIELDS : list string :=
  ["schema_version"; "result"; "task_id"; "role"; "worker_id"; "manifest_sha256"; "adapter_contract_sha256";
   "produced_sha"; "evidence_sha256"; "changed_paths"; "invoked_commands"; "session_id"; "correlation_id";
   "gateway_verified"; "replayed"; "workspace_id"].
Definition FENCED_FIELDS : list string :=
  ["fencing_required"; "lease_generation"; "attempt_id"; "artifact_kind"; "artifact_ref"; "artifact_sha256"].
Definition receipt_fields (fenced : bool) : list string := RECEIPT_FIELDS ++ (if fenced then FENCED_FIELDS else []).
Definition receipt_version (fenced : bool) : Z := if fenced then 2 else 1.
Definition result_name (role : string) : string :=
  if is_builder role then "NATIVE_ONE_SHOT_BUILT" else "NATIVE_ONE_SHOT_VALIDATED".
(** [type(v) is list], all its items texts, with a test on them. *)
Definition texts_that (p : list string → bool) (v : json) : bool :=
  match v with
  | JList l => match strs l with Some ss => p ss | None => false end
  | _ => false
  end.
Definition all_distinct (l : list string) : bool := bool_decide (NoDup l).

Definition receipt_matches (x : Executor.t) (m : TaskManifest.t) (d : AdapterDescriptor.t) (raw : json)
    (role worker_id : string) (fenced : bool) (previous : json) : res bool :=
  let b := Executor.boundary x in
  let text k s := field k (fun v => is_text v s) previous in
  (has_fields (receipt_fields fenced) previous &&&
   field "schema_version" (py_eqb (JInt (receipt_version fenced))) previous &&&
   text "manifest_sha256" (digest raw) &&& text "task_id" (TaskManifest.task_id m) &&&
   text "role" role &&& text "worker_id" worker_id &&&
   (c ← contract_sha256 d; text "adapter_contract_sha256" c) &&&
   text "result" (result_name role) &&& text "workspace_id" (workspace_id x) &&&
   text "session_id" (ExecutionBoundary.session_id b) &&&
   text "correlation_id" (ExecutionBoundary.correlation_id b) &&&
   field "gateway_verified" is_true previous &&&
   field "replayed" (fun v => match v with JBool false => true | _ => false end) previous &&&
   field "evidence_sha256" (str_that (fullmatch SHA256_HEX)) previous &&&
   field "changed_paths" (texts_that (fun l => subset l (AdapterDescriptor.allowed_paths d) && all_distinct l)) previous &&&
   (allowed ← commands_for d role;
    field "invoked_commands" (texts_that (fun l => same_set l allowed && (length l =? length allowed)%nat)) previous))%py.

Definition expected_states (role : string) : list string :=
  if is_builder role then ["validating"; "completed"] else ["completed"].

(** The fenced part of a receipt against the task, and its artifact. *)
Definition receipt_artifact (task previous : json) : res DurableArtifact.t :=
  need_r (Ok (is_true (member "fencing_required" previous) && positive (member "lease_generation" previous) &&
              is_str (member "attempt_id" previous)) &&&
          field "lease_generation" (fun v => py_eqb v (member "lease_generation" previous)) task)%py
    "receipt_lease_stale" ;;
  parse_artifact (JObj (map (fun k => (k, member k previous)) ARTIFACT_FIELDS)).
Definition checkpoint_agrees (role tid produced : string) (previous : json) (a : DurableArtifact.t)
    (checkpoint : json) : bool :=
  let at_key k v := py_eqb (member k checkpoint) v in
  at_key "lease_generation" (member "lease_generation" previous) &&
  at_key "attempt_id" (member "attempt_id" previous) &&
  at_key "stage" (JStr (if is_builder role then "builder_result" else "validator_result")) &&
  at_key "next_action" (JStr (if is_builder role then "submit_validation" else "complete")) &&
  forallb (fun f : string * json => at_key f.1 f.2) (checkpoint_fields a) &&
  (if is_builder role
   then at_key "effect_state" (JStr "confirmed") &&
        at_key "effect_id" (JStr (artifact_effect_id tid produced)) &&
        at_key "effect_result_ref" (JStr (DurableArtifact.artifact_ref a))
   else at_key "effect_state" (JStr "none")).
Definition replay_checkpoint (m : TaskManifest.t) (role produced : string) (previous : json)
    (a : DurableArtifact.t) : P unit :=
  let tid := TaskManifest.task_id m in
  checkpoint ← call (get_latest_checkpoint tid);
  of_res (need (is_dict checkpoint) "receipt_checkpoint_missing" ;;
          validate_checkpoint_shape checkpoint tid ;;
          need (checkpoint_agrees role tid produced previous a checkpoint) "receipt_checkpoint_drift") ;;
  call (verify m produced a).

Definition replay (x : Executor.t) (m : TaskManifest.t) (d : AdapterDescriptor.t) (raw : json)
    (role worker_id : string) (fenced : bool) (task : json) : P json :=
  let tid := TaskManifest.task_id m in
  st ← call (receipt_stat tid role);
  of_res (need (negb (FileStat.is_symlink st) && FileStat.is_file st) "receipt_invalid") ;;
  previous ← call (read_receipt tid role);
  of_res (need_r (receipt_matches x m d raw role worker_id fenced previous) "receipt_mismatch") ;;
  produced ← of_res (text_field SHA40 (member "produced_sha" previous) "receipt_produced_sha");
  of_res (need_r ((s ← get "state" task; member_of (expected_states role) s) &&&
                  field "produced_sha" (fun v => is_text v produced) task)%py "receipt_canonical_state") ;;
  artifact ← (if (fenced : bool) then a ← of_res (receipt_artifact task previous); mret (Some a) else mret None);
  validate_replay produced ;;
  actual ← changed_paths (TaskManifest.base_sha m) produced;
  of_res (need (texts_that (fun l => bool_decide (l = actual)) (member "changed_paths" previous)) "receipt_mismatch") ;;
  match artifact with Some a => replay_checkpoint m role produced previous a | None => mret tt end ;;
  match previous with
  | JObj members => mret (JObj (set_key "replayed" (JBool true) members))
  | _ => throw (TypeError "object is not a mapping")
  end.

(** ** The claim *)

Module Claimed.
Record t := mk { lease : LeaseCall.t; latest : option json; task : json }.
End Claimed.

(** [except Exception: raise NativeExecutorBlocked(code)] *)
Definition or_blocked {A} (m : P A) (code : string) : P A := catch m (fun _ => throw (blocked code)).

Definition call_claim (x : Executor.t) (m : TaskManifest.t) (worker_id : string) (fenced : bool) : P json :=
  let c := call (claim fenced worker_id (TaskManifest.task_id m)
                   (ExecutionBoundary.correlation_id (Executor.boundary x))) in
  if fenced then
    of_res (need (Executor.has_fenced_claims x) "fenced_worker_api_unsupported") ;;
    of_res (need (Executor.has_preflight x) "durable_artifact_transport_invalid") ;;
    or_blocked (call preflight) "durable_artifact_preflight_failed" ;;
    c
  else c.

(** [datetime.fromisoformat(str(v))], and the least instant when it raises. *)
Definition expiry (v : json) : DateTime :=
  match v with
  | JStr s => match fromisoformat s with Ok d => d | Raise _ => mkDateTime 0 (Some 0) end
  | _ => mkDateTime 0 (Some 0)
  end.
Definition token_shape : json → bool := str_that (fun s => (16 <=? len s)%nat && (len s <=? 128)%nat).
Definition lease_shape (m : TaskManifest.t) (role worker_id : string) (lease : json) : res bool :=
  (field "lease_token" token_shape lease &&&
   field "task_id" (fun v => is_text v (TaskManifest.task_id m)) lease &&&
   field "worker_id" (fun v => is_text v worker_id) lease &&&
   field "role" (fun v => is_text v role) lease &&&
   field "lease_expires_at" (fun v => aware (expiry v)) lease)%py.
Definition check_lease_valid (m : TaskManifest.t) (role worker_id : string) (lease : json) : P string :=
  shaped ← of_res (lease_shape m role worker_id lease);
  (if (shaped : bool) then
     now ← call utc_now;
     of_res (need (now <? instant (expiry (member "lease_expires_at" lease))) "lease_invalid")
   else throw (blocked "lease_invalid")) ;;
  match member "lease_token" lease with JStr t => mret t | _ => throw (blocked "lease_invalid") end.

Definition task_ready (m : TaskManifest.t) (role worker_id : string) (task : json) : bool :=
  is_text (member "task_id" task) (TaskManifest.task_id m) &&
  is_text (member "repository" task) (TaskManifest.repository m) &&
  is_text (member "base_sha" task) (TaskManifest.base_sha m) &&
  is_text (member "state" task) (if is_builder role then "leased" else "validating") &&
  is_text (member "leased_by" task) worker_id.

Definition recover (c : json) (tid role : string) (f : Fence) : res (option json) :=
  match f with
  | Some (g, _) =>
      raw ← get "recovery_context" c;
      '(latest, effects) ← recovery_context raw tid g;
      validate_recovery_effects latest effects ;; Ok latest
  | None => Ok None
  end.

Definition acquire (x : Executor.t) (m : TaskManifest.t) (role worker_id : string) (fenced : bool) : P Claimed.t :=
  c ← call_claim x m worker_id fenced;
  claimed ← of_res (field "claimed" is_true c);
  of_res (need claimed "claim_unavailable") ;;
  task ← of_res (v ← get "task" c; Ok (or_else v (JObj [])));
  lease ← of_res (v ← get "lease" c; Ok (or_else v (JObj [])));
  token ← check_lease_valid m role worker_id lease;
  again ← of_res (fencing_required task);
  of_res (need (Bool.eqb again fenced) "claimed_task_fencing_drift") ;;
  f ← of_res (lease_fence fenced lease task);
  let l := LeaseCall.mk (TaskManifest.task_id m) worker_id token
             (ExecutionBoundary.correlation_id (Executor.boundary x)) f in
  latest ← match recover c (TaskManifest.task_id m) role f with
           | Ok latest => mret latest
           | Raise e => ignore (call (api_block l "unsafe_recovery_context")) ;; throw e
           end;
  if task_ready m role worker_id task then mret (Claimed.mk l latest task)
  else ignore (call (api_fail l "claimed_task_drift")) ;; throw (blocked "claimed_task_drift").

(** ** The builder *)

Definition checkpoint_call (l : LeaseCall.t) (role tag : string) (sequence : Z) (stage next : string)
    (artifact : option DurableArtifact.t) (effect : option string) (state : string) (ref : option string)
    : CheckpointCall.t :=
  let attempt := match LeaseCall.fence l with Some (_, a) => a | None => "" end in
  CheckpointCall.mk l (checkpoint_id attempt role tag) sequence stage next artifact effect state ref.

Definition same_lists (l k : list string) : bool := bool_decide (l = k).
Definition required_commands (d : AdapterDescriptor.t) (role : string) (invoked : list string) : res unit :=
  allowed ← commands_for d role;
  need (same_set invoked allowed) "required_command_missing".

(** The result of a fresh build, or the artifact of the checkpoint from which
    the work resumes. *)
Definition produce (m : TaskManifest.t) (a : Adapter) (ctx : AdapterContext.t) (latest : option json)
    : P (AdapterResult.t * option DurableArtifact.t * list string) :=
  match latest with
  | Some l =>
      of_res (need (resumable l) "fenced_resume_checkpoint_unsupported") ;;
      artifact ← of_res (artifact_from_checkpoint l);
      raw ← call (materialize m artifact);
      r ← of_res (validate_recovered_result raw (descriptor a));
      mret (r, Some artifact, [])
  | None =>
      '(raw, invoked) ← run_script ctx [] (build a m);
      r ← of_res (validate_result raw (descriptor a) invoked "builder");
      mret (r, None, invoked)
  end.

Definition to_artifact (raw : RawArtifact) : res DurableArtifact.t :=
  parse_artifact (match raw with an_artifact a => JObj (checkpoint_fields a) | raw_artifact v => v end).
(** The publication, whose failure is ambiguous: the effect is marked unknown
    and the task blocked. *)
Definition publish_artifact (m : TaskManifest.t) (l : LeaseCall.t) (effect : string) (r : AdapterResult.t)
    : P DurableArtifact.t :=
  call (record_checkpoint (checkpoint_call l "builder" "artifact-pending" 1 "artifact_publish" "publish_artifact"
          None (Some effect) "pending" None)) ;;
  catch
    (raw ← call (publish m (LeaseCall.fence l) effect r);
     artifact ← of_res (to_artifact raw);
     call (verify m (AdapterResult.produced_sha r) artifact) ;;
     mret artifact)
    (fun _ =>
       ignore (call (record_checkpoint (checkpoint_call l "builder" "artifact-unknown" 2 "artifact_publish"
                       "reconcile_artifact" None (Some effect) "unknown" None)) ;; mret tt) ;;
       ignore (call (api_block l "artifact_publish_ambiguous")) ;;
       throw (blocked "artifact_publish_ambiguous")).

(** Durability of the result under a fence. *)
Definition make_durable (m : TaskManifest.t) (l : LeaseCall.t) (latest : option json) (r : AdapterResult.t)
    (artifact : option DurableArtifact.t) : P DurableArtifact.t :=
  let effect := artifact_effect_id (TaskManifest.task_id m) (AdapterResult.produced_sha r) in
  match latest with
  | Some c => of_res (need (is_text (member "effect_id" c) effect) "artifact_effect_identity_drift")
  | None => mret tt
  end ;;
  durable ← match artifact with
            | None => publish_artifact m l effect r
            | Some a => call (verify m (AdapterResult.produced_sha r) a) ;; mret a
            end;
  call (record_checkpoint (checkpoint_call l "builder" "result" (match latest with None => 2 | Some _ => 1 end)
          "builder_result" "submit_validation" (Some durable) (Some effect) "confirmed"
          (Some (DurableArtifact.artifact_ref durable)))) ;;
  mret durable.

Definition builder_work (m : TaskManifest.t) (a : Adapter) (ctx : AdapterContext.t) (fenced : bool) (c : Claimed.t)
    : P (AdapterResult.t * option DurableArtifact.t) :=
  let l := Claimed.lease c in let latest := Claimed.latest c in
  call (api_start l) ;;
  '(r, artifact, invoked) ← produce m a ctx latest;
  h ← head;
  of_res (need (same h (AdapterResult.produced_sha r)) "builder_produced_sha_drift") ;;
  dirty ← status;
  of_res (need (negb (nonempty dirty)) "builder_workspace_dirty") ;;
  actual ← changed_paths (TaskManifest.base_sha m) (AdapterResult.produced_sha r);
  of_res (need (same_lists actual (AdapterResult.changed_paths r)) "builder_diff_mismatch") ;;
  match latest with
  | None => of_res (required_commands (descriptor a) "builder" invoked)
  | Some _ => mret tt
  end ;;
  durable ← (if fenced then d ← make_durable m l latest r artifact; mret (Some d) else mret None);
  call (submit_validation l (AdapterResult.produced_sha r)) ;;
  mret (r, durable).

(** ** The validator *)

Definition validator_work (m : TaskManifest.t) (a : Adapter) (ctx : AdapterContext.t) (fenced : bool) (c : Claimed.t)
    : P (AdapterResult.t * option DurableArtifact.t) :=
  let l := Claimed.lease c in
  produced ← of_res (text_field SHA40 (member "produced_sha" (Claimed.task c)) "validation_sha_missing");
  of_res (need (same (TaskManifest.workspace_sha m) produced) "validator_workspace_sha_drift") ;;
  artifact ← (if fenced then
                match Claimed.latest c with
                | Some latest =>
                    of_res (need (resumable latest) "validator_artifact_checkpoint_missing") ;;
                    art ← of_res (artifact_from_checkpoint latest);
                    call (verify m produced art) ;; mret (Some art)
                | None => throw (blocked "validator_artifact_checkpoint_missing")
                end
              else mret None);
  before_head ← head; before_status ← status;
  '(raw, invoked) ← run_script ctx [] (validate a m produced);
  r ← of_res (validate_result raw (descriptor a) invoked "validator");
  same_sha ← (if same (AdapterResult.produced_sha r) produced then
                h ← head;
                if same h before_head && same before_head produced then
                  s ← status; mret (same s before_status && same before_status "")
                else mret false
              else mret false);
  of_res (need same_sha "validator_sha_drift") ;;
  of_res (required_commands (descriptor a) "validator" invoked) ;;
  match artifact with
  | Some art =>
      call (record_checkpoint (checkpoint_call l "validator" "result" 1 "validator_result" "complete"
              (Some art) None "none" None)) ;; mret tt
  | None => mret tt
  end ;;
  call (api_complete l) ;;
  mret (r, artifact).

(** ** Failures *)

Definition CLOSED_REASONS : list string :=
  ["adapter_result_sha"; "adapter_result_paths"; "adapter_result_commands"; "adapter_result_evidence";
   "builder_produced_sha_drift"; "builder_workspace_dirty"; "builder_diff_mismatch"; "required_command_missing";
   "validation_sha_missing"; "validator_workspace_sha_drift"; "validator_sha_drift"; "command_not_allowlisted";
   "artifact_publish_ambiguous"].
Definition candidate (e : exn) : option string :=
  match e with
  | Error _ code => if is_a "NativeExecutorBlocked" e then Some code else None
  | _ => None
  end.
Definition closed (o : option string) : bool :=
  match o with Some code => bool_decide (code ∈ CLOSED_REASONS) | None => false end.
Definition failure_reason (e : exn) : string :=
  match candidate e with
  | Some code => if closed (Some code) then code else "adapter_failed"
  | None => "adapter_failed"
  end.
(** The task is failed under the lease, except after an ambiguous
    publication; the original error survives a rejected failure. *)
Definition on_failure {A} (l : LeaseCall.t) (e : exn) : P A :=
  rejected ← (if bool_decide (candidate e = Some "artifact_publish_ambiguous") then mret false
              else r ← attempt (call (api_fail l (failure_reason e)));
                   mret (match r with Ok _ => false | Raise _ => true end));
  if rejected && match candidate e with Some _ => true | None => false end then throw e
  else if closed (candidate e) then throw e
  else throw (blocked "adapter_failed").

(** ** The receipt and the run *)

Definition make_receipt (x : Executor.t) (m : TaskManifest.t) (raw : json) (contract role worker_id : string)
    (fenced : bool) (l : LeaseCall.t) (r : AdapterResult.t) (artifact : option DurableArtifact.t)
    : list (string * json) :=
  let b := Executor.boundary x in
  [("schema_version", JInt (receipt_version fenced)); ("result", JStr (result_name role));
   ("task_id", JStr (TaskManifest.task_id m)); ("role", JStr role); ("worker_id", JStr worker_id);
   ("manifest_sha256", JStr (digest raw)); ("adapter_contract_sha256", JStr contract);
   ("produced_sha", JStr (AdapterResult.produced_sha r));
   ("evidence_sha256", JStr (AdapterResult.evidence_sha256 r));
   ("changed_paths", JList (map JStr (AdapterResult.changed_paths r)));
   ("invoked_commands", JList (map JStr (AdapterResult.invoked_commands r)));
   ("session_id", JStr (ExecutionBoundary.session_id b));
   ("correlation_id", JStr (ExecutionBoundary.correlation_id b));
   ("gateway_verified", JBool true); ("replayed", JBool false); ("workspace_id", JStr (workspace_id x))] ++
  match artifact, LeaseCall.fence l with
  | Some a, Some (g, attempt) =>
      [("fencing_required", JBool true); ("lease_generation", JInt g); ("attempt_id", JStr attempt)] ++
      checkpoint_fields a
  | _, _ => []
  end.
(** [ReceiptStore.write]: the file appears with its whole content. *)
Definition write_receipt (tid role : string) (receipt : list (string * json)) : P unit :=
  present ← call (receipt_exists tid role);
  link ← (if (present : bool) then mret true else st ← call (receipt_stat tid role); mret (FileStat.is_symlink st));
  of_res (need (negb link) "receipt_exists") ;;
  call (replace_receipt tid role (sort_all (JObj receipt))).

Definition work (m : TaskManifest.t) (a : Adapter) (ctx : AdapterContext.t) (role : string) (fenced : bool)
    (c : Claimed.t) : P (AdapterResult.t * option DurableArtifact.t) :=
  catch (if is_builder role then builder_work m a ctx fenced c else validator_work m a ctx fenced c)
        (on_failure (Claimed.lease c)).
Definition execute_claim (x : Executor.t) (m : TaskManifest.t) (a : Adapter) (ctx : AdapterContext.t) (raw : json)
    (role worker_id : string) (fenced : bool) : P json :=
  c ← acquire x m role worker_id fenced;
  '(r, artifact) ← work m a ctx role fenced c;
  contract ← of_res (contract_sha256 (descriptor a));
  let receipt := make_receipt x m raw contract role worker_id fenced (Claimed.lease c) r artifact in
  write_receipt (TaskManifest.task_id m) role receipt ;;
  mret (JObj receipt).

Definition locked (x : Executor.t) (m : TaskManifest.t) (a : Adapter) (raw : json) (role worker_id : string) : P json :=
  let tid := TaskManifest.task_id m in
  has_receipt ← call (receipt_exists tid role);
  ctx ← (if (has_receipt : bool) then mret None
         else ctx ← local_checks x m (descriptor a) role; mret (Some ctx));
  task ← call (get_task tid);
  fenced ← of_res (check_task x m task);
  match ctx with
  | None => replay x m (descriptor a) raw role worker_id fenced task
  | Some ctx => execute_claim x m a ctx raw role worker_id fenced
  end.
Definition run (x : Executor.t) (raw : json) (role worker_id : string) : P json :=
  '(m, a) ← of_res (prepare x raw role worker_id);
  let tid := TaskManifest.task_id m in
  catch (call (lock tid role)) (fun e =>
    if is_a "FileExistsError" e then throw (blocked "executor_busy") else throw e) ;;
  finally (locked x m a raw role worker_id) (call (unlock tid role)).
