(* ===== verification/OneShotSpec.v ===== *)
(** The protocol of the one-shot executor: a monitor of its external calls,
    with what it must have been answered before each of them.  The lemmas
    below follow the program and show that every call it makes is allowed,
    whatever the environment answers. *)
From Stdlib Require Import Ascii String.
From stdpp Require Import strings.
From S2P Require Import Prelude Prog PyStr Json PyVal Names Manifest OneShot.

Local Open Scope Z_scope.

(** What the calls so far have established. *)
Record Ledger := mkLedger {
  fresh : bool;       (** no receipt of this task and role *)
  matched : bool;     (** the pool's task is the manifest's *)
  claimed : bool;     (** the claim was made *)
  held : option LeaseCall.t; (** the lease it granted *)
  started : bool;
  pending : option string;   (** the effect of an accepted pending checkpoint *)
  published : bool;
  publishing : bool;  (** published, and not verified since *)
  sound : option (string * DurableArtifact.t); (** verified by the transport *)
  durable : option string;   (** the commit of the accepted result checkpoint *)
  finished : bool;    (** handed over or completed *)
  written : bool }.
#[export] Instance Ledger_eta : Eta Ledger := fun g =>
  mkLedger (fresh g) (matched g) (claimed g) (held g) (started g) (pending g) (published g) (publishing g)
           (sound g) (durable g) (finished g) (written g).
Definition no_ledger : Ledger := mkLedger false false false None false None false false None None false false.

Inductive Phase : Type := ph_idle | ph_locked (g : Ledger) | ph_released.

#[export] Instance LeaseCall_eq_dec : EqDecision LeaseCall.t.
Proof. solve_decision. Defined.
#[export] Instance DurableArtifact_eq_dec : EqDecision DurableArtifact.t.
Proof. solve_decision. Defined.
#[export] Instance AdapterResult_eq_dec : EqDecision AdapterResult.t.
Proof. solve_decision. Defined.

Section Protocol.
Context (m : TaskManifest.t) (role worker_id correlation_id adapter_id : string) (commands : list string).
Abbreviation tid := (TaskManifest.task_id m).

(** The lease that the answer of a claim grants. *)
Definition granted (fenced : bool) (answered : json) : option LeaseCall.t :=
  let lease := member "lease" answered in
  match member "lease_token" lease with
  | JStr token =>
      if fenced then
        match member "lease_generation" lease, member "attempt_id" lease with
        | JInt g, JStr a => Some (LeaseCall.mk tid worker_id token correlation_id (Some (g, a)))
        | _, _ => None
        end
      else Some (LeaseCall.mk tid worker_id token correlation_id None)
  | _ => None
  end.

Definition under (g : Ledger) (l : LeaseCall.t) : bool := bool_decide (held g = Some l).
Definition fenced_lease (l : LeaseCall.t) : bool :=
  match LeaseCall.fence l with Some _ => true | None => false end.
(** Work may run: the builder started, the validator has its artifact. *)
Definition may_work (g : Ledger) : bool :=
  match held g with
  | Some l => if is_builder role then started g
              else negb (fenced_lease l) || match sound g with Some _ => true | None => false end
  | None => false
  end.

Definition checkpoint_allowed (g : Ledger) (c : CheckpointCall.t) : bool :=
  under g (CheckpointCall.lease c) &&
  if bool_decide (CheckpointCall.stage c = "artifact_publish"%string) then
    started g &&
    if bool_decide (CheckpointCall.effect_state c = "pending"%string)
    then (CheckpointCall.sequence c =? 1) && negb (published g)
    else bool_decide (CheckpointCall.effect_state c = "unknown"%string) && publishing g
  else
    match CheckpointCall.artifact c, sound g with
    | Some a, Some (sha, b) =>
        bool_decide (a = b) && negb (publishing g) &&
        if is_builder role
        then started g && bool_decide (CheckpointCall.stage c = "builder_result"%string) &&
             bool_decide (CheckpointCall.effect_id c = Some (artifact_effect_id tid sha))
        else bool_decide (CheckpointCall.stage c = "validator_result"%string)
    | _, _ => false
    end.

Definition settled (g : Ledger) (l : LeaseCall.t) (sha : option string) : bool :=
  negb (fenced_lease l) ||
  match durable g, sha with
  | Some s, Some s' => bool_decide (s = s')
  | Some _, None => true
  | None, _ => false
  end.

Definition allowed_locked (g : Ledger) (o : op) : bool :=
  match o with
  | lock _ _ => false
  | unlock t r => bool_decide (t = tid) && bool_decide (r = role)
  | get_task t => bool_decide (t = tid) && negb (claimed g)
  | claim _ w t c =>
      bool_decide (w = worker_id) && bool_decide (t = tid) && bool_decide (c = correlation_id) &&
      fresh g && matched g && negb (claimed g)
  | preflight => negb (claimed g)
  | record_checkpoint c => checkpoint_allowed g c
  | api_start l => under g l && is_builder role && negb (started g)
  | submit_validation l sha =>
      under g l && started g && negb (publishing g) && negb (finished g) && settled g l (Some sha)
  | api_complete l =>
      under g l && negb (is_builder role) && negb (publishing g) && negb (finished g) && settled g l None
  | api_fail l _ => under g l && negb (publishing g) && negb (finished g)
  | api_block l reason =>
      under g l && (publishing g || (negb (started g) && bool_decide (reason = "unsafe_recovery_context"%string)))
  | publish m' f effect r =>
      started g && negb (published g) && bool_decide (pending g = Some effect) &&
      match held g with Some l => bool_decide (LeaseCall.fence l = f) | None => false end &&
      bool_decide (effect = artifact_effect_id tid (AdapterResult.produced_sha r))
  | materialize _ _ => started g
  | command id key => bool_decide (id = adapter_id) && bool_decide (key ∈ commands) && may_work g
  | local_action _ => may_work g
  | replace_receipt t r _ => bool_decide (t = tid) && bool_decide (r = role) && finished g && negb (written g)
  | verify _ _ _ | get_latest_checkpoint _ | git _ | root_stat | file_stat _ | read_bytes _
  | receipt_exists _ _ | receipt_stat _ _ | read_receipt _ _ | utc_now => true
  end.
Definition allowed (s : Phase) (o : op) : bool :=
  match s with
  | ph_idle => match o with lock t r => bool_decide (t = tid) && bool_decide (r = role) | _ => false end
  | ph_locked g => allowed_locked g o
  | ph_released => false
  end.

Definition next_locked (g : Ledger) (o : op) : res (answer o) → Ledger :=
  match o with
  | receipt_exists t r => fun x =>
      if bool_decide (t = tid) && bool_decide (r = role)
      then g <| fresh := match x with Ok b => negb b | Raise _ => false end |> else g
  | get_task _ => fun x =>
      g <| matched := match x with
                      | Ok task => match task_matches m task with Ok b => b | Raise _ => false end
                      | Raise _ => false end |>
  | claim fenced _ _ _ => fun x =>
      g <| claimed := true |> <| held := match x with Ok c => granted fenced c | Raise _ => None end |>
  | api_start _ => fun x => match x with Ok _ => g <| started := true |> | Raise _ => g end
  | record_checkpoint c => fun x =>
      match x with
      | Ok _ => if bool_decide (CheckpointCall.stage c = "artifact_publish"%string)
                then if bool_decide (CheckpointCall.effect_state c = "pending"%string)
                     then g <| pending := CheckpointCall.effect_id c |> else g
                else g <| durable := fst <$> sound g |>
      | Raise _ => g
      end
  | publish _ _ _ _ => fun _ => g <| published := true |> <| publishing := true |>
  | verify _ sha a => fun x =>
      match x with Ok _ => g <| publishing := false |> <| sound := Some (sha, a) |> | Raise _ => g end
  | submit_validation _ _ | api_complete _ => fun x =>
      match x with Ok _ => g <| finished := true |> | Raise _ => g end
  | replace_receipt _ _ _ => fun x => match x with Ok _ => g <| written := true |> | Raise _ => g end
  | _ => fun _ => g
  end.
Definition next (s : Phase) (o : op) (x : res (answer o)) : Phase :=
  match s with
  | ph_idle =>
      (match o return res (answer o) → Phase with
       | lock _ _ => fun x => match x with Ok _ => ph_locked no_ledger | Raise _ => ph_idle end
       | _ => fun _ => ph_idle end) x
  | ph_locked g =>
      (match o return res (answer o) → Phase with
       | unlock _ _ => fun _ => ph_released
       | o => fun x => ph_locked (next_locked g o x) end) x
  | ph_released => ph_released
  end.
End Protocol.

(** ** Following the program *)

(** One step of the symbolic execution of a program under a monitor. *)
Ltac run_step :=
  lazymatch goal with
  | |- safe _ _ (mbind _ _) _ _ => apply safe_bind
  | |- safe _ _ (mret _) _ _ => apply safe_ret
  | |- safe _ _ (throw _) _ _ => apply safe_throw
  | |- safe _ _ (of_res _) _ _ => apply safe_of_res
  | |- safe _ _ (catch _ _) _ _ => apply safe_catch
  | |- safe _ _ (ignore _) _ _ => apply safe_ignore
  | |- safe _ _ (finally _ _) _ _ => apply safe_finally
  | |- safe _ _ (attempt _) _ _ => apply safe_attempt
  | |- safe _ _ (if ?b then _ else _) _ _ => let E := fresh "Hb" in destruct b eqn:E
  | |- only _ _ _ => unfold only
  end.

Create HintDb quiet.

Section Quiet.
Context (tid role : string).

(** Calls that the protocol allows at any time under the lock. *)
Definition quiet_op (o : op) : bool :=
  match o with
  | git _ | root_stat | file_stat _ | read_bytes _ | receipt_stat _ _ | read_receipt _ _
  | get_latest_checkpoint _ | utc_now => true
  | receipt_exists t r => negb (bool_decide (t = tid) && bool_decide (r = role))
  | _ => false
  end.
Abbreviation quiet := (only quiet_op).

Lemma quiet_use {A} (m : prog answer A) (s : unit) Q :
  quiet m (fun _ => True) → (∀ x, Q x s) →
  safe (fun (_ : unit) o => quiet_op o) (fun s _ _ => s) m s Q.
Proof. intros H HQ. destruct s. eapply safe_mono; [exact H|]. by intros x [] _. Qed.

Ltac quiet_steps :=
  repeat first
    [ run_step
    | lazymatch goal with |- safe _ _ (call ?o) _ _ => refine (safe_call _ _ o _ _ _ _); [done|intros [?|?]] end
    | apply quiet_use; [solve [auto with quiet]|intros [?|?]]
    | match goal with |- match ?x with Ok _ => _ | Raise _ => _ end => destruct x as [?|?] end
    | match goal with |- safe _ _ (match ?x with _ => _ end) _ _ => destruct x end ]; try done.

Lemma quiet_git args : quiet (git_text args) (fun _ => True).
Proof. unfold git_text. quiet_steps. Qed.
Hint Resolve quiet_git : quiet.
Lemma quiet_head : quiet head (fun _ => True).
Proof. unfold head. quiet_steps. Qed.
Lemma quiet_status : quiet status (fun _ => True).
Proof. unfold status. quiet_steps. Qed.
Lemma quiet_changed_paths a b : quiet (changed_paths a b) (fun _ => True).
Proof. unfold changed_paths. quiet_steps. Qed.
Hint Resolve quiet_head quiet_status quiet_changed_paths : quiet.
Lemma quiet_detached : quiet detached_clean (fun _ => True).
Proof. unfold detached_clean. quiet_steps. Qed.
Hint Resolve quiet_detached : quiet.
Lemma quiet_files hashes : quiet (check_files hashes) (fun _ => True).
Proof.
  induction hashes as [|[f h] hashes IH]; [done|]. cbn [check_files]. quiet_steps.
  all: apply quiet_use; [exact IH|done].
Qed.
Hint Resolve quiet_files : quiet.
Lemma quiet_before_claim m d : quiet (validate_before_claim m d) (fun _ => True).
Proof. unfold validate_before_claim. quiet_steps. Qed.
Lemma quiet_replay_head sha : quiet (validate_replay sha) (fun _ => True).
Proof. unfold validate_replay. quiet_steps. Qed.
Hint Resolve quiet_before_claim quiet_replay_head : quiet.

(** The same with the verification of an artifact. *)
Definition reads_op (o : op) : bool := match o with verify _ _ _ => true | _ => quiet_op o end.
Abbreviation reads := (only reads_op).
Lemma reads_use {A} (p : prog answer A) (s : unit) Q :
  quiet p (fun _ => True) → (∀ x, Q x s) →
  safe (fun (_ : unit) o => reads_op o) (fun s _ _ => s) p s Q.
Proof.
  intros H HQ. destruct s. apply (only_weaken _ reads_op) in H; [|by intros []].
  eapply safe_mono; [exact H|]. by intros x [] _.
Qed.

Lemma reads_replay x m d raw worker_id fenced task :
  reads (replay x m d raw role worker_id fenced task) (fun _ => True).
Proof.
  unfold replay, replay_checkpoint.
  repeat first
    [ run_step
    | lazymatch goal with |- safe _ _ (call ?o) _ _ => refine (safe_call _ _ o _ _ _ _); [done|intros [?|?]] end
    | apply reads_use; [solve [auto with quiet]|intros [?|?]]
    | match goal with |- match ?x with Ok _ => _ | Raise _ => _ end => destruct x as [?|?] end
    | match goal with |- safe _ _ (match ?x with _ => _ end) _ _ => destruct x end ]; try done.
Qed.
End Quiet.
#[export] Hint Resolve quiet_git quiet_head quiet_status quiet_changed_paths quiet_detached quiet_files
  quiet_before_claim quiet_replay_head : quiet.

Section Follow.
Context (m : TaskManifest.t) (role worker_id correlation_id adapter_id : string) (commands : list string).
Abbreviation tid := (TaskManifest.task_id m).
Abbreviation safe := (safe (allowed m role worker_id correlation_id adapter_id commands) (next m role worker_id correlation_id)).

Lemma safe_quiet {A} (p : prog answer A) g (R : res A → Prop) Q :
  only (quiet_op tid role) p R → (∀ x, R x → Q x (ph_locked g)) → safe p (ph_locked g) Q.
Proof.
  intros Hp HQ. eapply safe_only; [|exact Hp|exact HQ]. intros o r Ho.
  destruct o; try discriminate Ho; split; try done.
  cbn in *. destruct (_ && _); [discriminate Ho|done].
Qed.

(** The same for a sub-program of which nothing is used. *)
Lemma safe_quiet_any {A} (p : prog answer A) g Q :
  only (quiet_op tid role) p (fun _ => True) → (∀ x, Q x (ph_locked g)) → safe p (ph_locked g) Q.
Proof. intros Hp HQ. eapply safe_quiet; [exact Hp|]. by intros x _. Qed.

Ltac call_step :=
  lazymatch goal with |- Prog.safe _ _ (call ?o) _ _ => refine (safe_call _ _ o _ _ _ _) end.
Ltac follow :=
  repeat first
    [ run_step
    | apply safe_quiet_any; [solve [auto with quiet]|intros [?|?]]
    | match goal with |- match ?x with Ok _ => _ | Raise _ => _ end => destruct x as [?|?] eqn:? end ]; try done.

Lemma safe_commands (ctx : AdapterContext.t) s g invoked (Q : res (Returned * list string) → Phase → Prop) :
  AdapterContext.adapter_id ctx = adapter_id → AdapterContext.allowed ctx = commands →
  may_work role g = true → (∀ x, Q x (ph_locked g)) →
  safe (run_script ctx invoked s) (ph_locked g) Q.
Proof.
  intros Hid Hal Hw HQ. revert invoked.
  induction s as [r|e|key k IH|what k IH]; intros invoked; cbn [run_script]; [by apply HQ..| |].
  - destruct (may_invoke ctx key) eqn:E; [|by apply IH].
    split; [|intros r; by apply IH]. cbn. rewrite Hid, Hw, bool_decide_eq_true_2 by done.
    apply andb_prop in E as [_ E]. rewrite Hal in E. by rewrite E.
  - split; [exact Hw|]. intros r. by apply IH.
Qed.

Lemma safe_local_checks x d g (Q : res AdapterContext.t → Phase → Prop) :
  role = "builder"%string ∨ role = "validator"%string →
  (∀ e, Q (Raise e) (ph_locked g)) →
  (∀ registry ctx, make_context m d registry role = Ok ctx → Q (Ok ctx) (ph_locked g)) →
  safe (local_checks x m d role) (ph_locked g) Q.
Proof.
  intros Hrole HE HQ. unfold local_checks.
  run_step. apply safe_quiet_any; [auto with quiet|]. intros [[]|e]; [|by apply HE].
  assert (only (quiet_op tid role) (if is_builder role then mret tt else distinct_workspace x tid) (fun _ => True)) as Hq.
  { destruct Hrole as [->| ->]; [done|]. 
    change (is_builder "validator") with false. unfold distinct_workspace.
    run_step. run_step. call_step; [cbn; by rewrite andb_false_r|]. intros [[|]|e]; repeat run_step; try done.
    call_step; [done|]. intros [v|e]; repeat run_step; [|done]. by destruct (field _ _ _); repeat run_step. }
  run_step. eapply safe_quiet_any; [exact Hq|]. intros [[]|e]; [|by apply HE]. run_step.
  destruct (make_context _ _ _ _) eqn:E; [by eapply HQ|by apply HE].
Qed.

(** A replay only reads, and asks the transport to verify. *)
Lemma safe_replay x d raw fenced task g (Q : res json → Phase → Prop) :
  (∀ r g', Q r (ph_locked g')) → safe (replay x m d raw role worker_id fenced task) (ph_locked g) Q.
Proof.
  intros HQ. eapply (safe_within _ _ (reads_op tid role) (fun s => ∃ g, s = ph_locked g)).
  - intros s o r [g' ->] Ho. split; [|destruct o; try discriminate Ho; eexists; reflexivity].
    by destruct o.
  - apply reads_replay.
  - by exists g.
  - by intros r s' _ [g' ->].
Qed.

(** *** The claim *)

(** The ledgers before and after the claim. *)
Definition cleared : Ledger := mkLedger true true false None false None false false None None false false.
Definition answered (o : option LeaseCall.t) : Ledger := cleared <| claimed := true |> <| held := o |>.
Definition holding (l : LeaseCall.t) : Ledger := answered (Some l).

Lemma or_else_member k v s : member k (or_else v (JObj [])) = JStr s → or_else v (JObj []) = v.
Proof. unfold or_else. by destruct (truth v). Qed.
Lemma get_member k v x : get k v = Ok x → x = member k v.
Proof.
  unfold get, get_or, member. destruct v; try discriminate. by intros [= <-].
Qed.

(** The lease that the executor works under is the one the claim granted. *)
Lemma lease_is_granted c v fenced task token f :
  get "lease" c = Ok v → member "lease_token" (or_else v (JObj [])) = JStr token →
  lease_fence fenced (or_else v (JObj [])) task = Ok f →
  granted m worker_id correlation_id fenced c = Some (LeaseCall.mk tid worker_id token correlation_id f) ∧
  (if fenced then ∃ p, f = Some p else f = None).
Proof.
  intros Hv Ht Hf. pose proof (or_else_member _ _ _ Ht) as E. rewrite E in *.
  apply get_member in Hv as ->. unfold granted. rewrite Ht. unfold lease_fence in Hf.
  apply res_bind_ok in Hf as (g & Hg & Hf). apply res_bind_ok in Hf as (a & Ha & Hf).
  apply get_member in Hg as ->. apply get_member in Ha as ->.
  destruct fenced; [|injection Hf as <-; done].
  destruct (member "lease_generation" _); try discriminate Hf.
  destruct (member "attempt_id" _); try discriminate Hf.
  apply res_bind_ok in Hf as (? & _ & Hf). injection Hf as <-. split; [done|by eexists].
Qed.

Lemma safe_claim x fenced (Q : res json → Phase → Prop) :
  correlation_id = ExecutionBoundary.correlation_id (Executor.boundary x) →
  (∀ e g, Q (Raise e) (ph_locked g)) →
  (∀ c, Q (Ok c) (ph_locked (answered (granted m worker_id correlation_id fenced c)))) →
  safe (call_claim x m worker_id fenced) (ph_locked cleared) Q.
Proof.
  intros Hc HE HQ. unfold call_claim. rewrite <- Hc.
  assert (safe (call (claim fenced worker_id tid correlation_id)) (ph_locked cleared) Q) as H.
  { call_step; [by cbn; rewrite !bool_decide_eq_true_2 by done|]. intros [c|e]; [apply HQ|apply HE]. }
  destruct fenced; [|exact H]. unfold or_blocked.
  run_step. run_step. destruct (need _ _) as [[]|e]; [|apply HE].
  run_step. run_step. destruct (need _ _) as [[]|e]; [|apply HE].
  run_step. run_step. call_step; [done|]. intros [[]|e]; [exact H|]. run_step. apply HE.
Qed.

Lemma under_answered l : under (answered (Some l)) l = true.
Proof. by apply bool_decide_eq_true_2. Qed.

Lemma safe_lease_valid lease g (Q : res string → Phase → Prop) :
  (∀ e, Q (Raise e) (ph_locked g)) →
  (∀ t, member "lease_token" lease = JStr t → Q (Ok t) (ph_locked g)) →
  safe (check_lease_valid m role worker_id lease) (ph_locked g) Q.
Proof.
  intros HE HQ. unfold check_lease_valid. run_step. run_step.
  destruct (lease_shape _ _ _ _) as [[|]|e]; [| |apply HE]; run_step; [|run_step; apply HE].
  run_step. call_step; [done|]. intros [now|e]; [|apply HE]. run_step.
  destruct (need _ _) as [[]|e]; [|apply HE].
  destruct (member "lease_token" lease) eqn:E; run_step; [apply HE..|by apply HQ|apply HE|apply HE].
Qed.

Lemma safe_acquire x fenced (Q : res Claimed.t → Phase → Prop) :
  correlation_id = ExecutionBoundary.correlation_id (Executor.boundary x) →
  (∀ e g, Q (Raise e) (ph_locked g)) →
  (∀ c, fenced_lease (Claimed.lease c) = fenced → Q (Ok c) (ph_locked (holding (Claimed.lease c)))) →
  safe (acquire x m role worker_id fenced) (ph_locked cleared) Q.
Proof.
  intros Hc HE HQ. unfold acquire. run_step. apply safe_claim; [done|done|]. intros c.
  do 4 (run_step; run_step; match goal with |- match ?x with _ => _ end => destruct x as [?|?] eqn:?; [|apply HE] end).
  run_step. apply safe_lease_valid; [done|]. intros token Ht.
  do 3 (run_step; run_step; match goal with |- match ?x with _ => _ end => destruct x as [?|?] eqn:?; [|apply HE] end).
  match goal with H : (v ← get "lease" c; _) = Ok _ |- _ => apply res_bind_ok in H as (v & Hv & [= <-]) end.
  match goal with H : lease_fence _ _ _ = Ok _ |- _ =>
    destruct (lease_is_granted _ _ _ _ _ _ Hv Ht H) as [-> Hf] end.
  rewrite <- Hc. set (l := LeaseCall.mk _ _ _ _ _).
  assert (fenced_lease l = fenced) as Hfe by (destruct fenced; [by destruct Hf as [? ->]|by subst]).
  run_step. destruct (recover _ _ _ _) as [latest|e].
  - run_step. run_step; [by apply (HQ (Claimed.mk l latest _))|].
    run_step. run_step. call_step; [unfold allowed, allowed_locked; by rewrite under_answered|]. intros r. run_step. apply HE.
  - run_step. run_step. call_step; [unfold allowed, allowed_locked; by rewrite under_answered|]. intros r. run_step. apply HE.
Qed.

(** *** The work *)

#[local] Arguments bool_decide _ {_} : simpl never.

(** How the work ends: handed over or completed, or with an error that leaves
    an unresolved publication only as the ambiguous one. *)
Definition ended {A} (l : LeaseCall.t) (x : res A) (s : Phase) : Prop :=
  ∃ g, s = ph_locked g ∧ held g = Some l ∧ written g = false ∧
    match x with
    | Ok _ => finished g = true
    | Raise e => finished g = false ∧
        (publishing g = true → candidate e = Some "artifact_publish_ambiguous"%string)
    end.
(** Work in progress on a ledger without unresolved publication. *)
Definition going (l : LeaseCall.t) (g : Ledger) : Prop :=
  held g = Some l ∧ written g = false ∧ finished g = false ∧ publishing g = false.
Lemma going_ended {A} l g e : going l g → ended (A := A) l (Raise e) (ph_locked g).
Proof. intros (H1 & H2 & H3 & H4). exists g. repeat split; try done. by rewrite H4. Qed.

Lemma under_true g l : held g = Some l → under g l = true.
Proof. intros H. by apply bool_decide_eq_true_2. Qed.

Ltac allow :=
  unfold allowed, allowed_locked, checkpoint_allowed; cbn; rewrite ?under_true by done;
  repeat first [rewrite bool_decide_eq_true_2 by done | rewrite bool_decide_eq_false_2 by done];
  cbn; try done.
Ltac res_step tac :=
  run_step; run_step; match goal with |- match ?x with _ => _ end => destruct x as [?|?] eqn:?; [|tac] end.
Ltac quiet_step tac :=
  run_step; apply safe_quiet_any; [solve [auto with quiet]|intros [?|?]; [|tac]].

(** The ledger of a builder that started, with its result durable or not. *)
Definition building (l : LeaseCall.t) : Ledger := holding l <| started := true |>.
Definition announced (l : LeaseCall.t) (effect : string) : Ledger := building l <| pending := Some effect |>.

Lemma safe_produce a ctx latest l (Q : res (AdapterResult.t * option DurableArtifact.t * list string) → Phase → Prop) :
  role = "builder"%string → AdapterContext.adapter_id ctx = adapter_id → AdapterContext.allowed ctx = commands →
  (∀ e, Q (Raise e) (ph_locked (building l))) →
  (∀ r art invoked, (latest = None → art = None) ∧ (∀ c, latest = Some c → ∃ d, art = Some d) →
    Q (Ok (r, art, invoked)) (ph_locked (building l))) →
  safe (produce m a ctx latest) (ph_locked (building l)) Q.
Proof.
  intros Hrole Hid Hal HE HQ. unfold produce. destruct latest as [c|].
  - do 2 res_step ltac:(apply HE). run_step. call_step; [done|]. intros [raw|e]; [|apply HE].
    res_step ltac:(apply HE). run_step. apply HQ. split; [done|]. eauto.
  - run_step. apply safe_commands; [done|done|by rewrite Hrole|]. intros [[raw invoked]|e]; [|apply HE].
    res_step ltac:(apply HE). run_step. by apply HQ.
Qed.

Lemma safe_publish l effect r (Q : res DurableArtifact.t → Phase → Prop) :
  role = "builder"%string → effect = artifact_effect_id tid (AdapterResult.produced_sha r) →
  (∀ e g, ended (A := DurableArtifact.t) l (Raise e) (ph_locked g) → Q (Raise e) (ph_locked g)) →
  (∀ a, Q (Ok a) (ph_locked (announced l effect <| published := true |>
          <| publishing := false |> <| sound := Some (AdapterResult.produced_sha r, a) |>))) →
  safe (publish_artifact m l effect r) (ph_locked (building l)) Q.
Proof.
  intros Hrole -> HE HQ. unfold publish_artifact.
  set (effect := artifact_effect_id _ _) in *. run_step. call_step; [by allow|].
  intros [v|e]; [|apply HE, going_ended; done].
  match goal with |- Prog.safe _ _ _ ?s _ => change s with (ph_locked (announced l effect)) end.
  set (g3 := announced l effect <| published := true |> <| publishing := true |>).
  assert (safe
     (ignore (call (record_checkpoint (checkpoint_call l "builder" "artifact-unknown" 2 "artifact_publish"
                       "reconcile_artifact" None (Some effect) "unknown" None)) ;; mret tt) ;;
       ignore (call (api_block l "artifact_publish_ambiguous")) ;;
       throw (blocked "artifact_publish_ambiguous")) (ph_locked g3) Q) as Hun.
  { run_step. run_step. run_step. call_step; [by allow|]. intros r1.
    assert (safe (_ ← ignore (call (api_block l "artifact_publish_ambiguous"));
       throw (A := DurableArtifact.t) (blocked "artifact_publish_ambiguous")) (ph_locked g3) Q) as Hb.
    { run_step. run_step. call_step; [by allow|]. intros r2. run_step. apply HE.
      exists g3. repeat split; done. }
    destruct r1; [run_step|]; exact Hb. }
  run_step. run_step. call_step; [by allow|]. intros [raw|e]; [|exact Hun].
  res_step ltac:(exact Hun). run_step. call_step; [done|]. intros [[]|e]; [|exact Hun].
  run_step. apply HQ.
Qed.

(** A checkpoint of a verified result makes its commit durable. *)
Lemma safe_durable l latest r art (Q : res DurableArtifact.t → Phase → Prop) :
  role = "builder"%string →
  (latest = None → art = None) ∧ (∀ c, latest = Some c → ∃ d, art = Some d) →
  (∀ e g, ended (A := DurableArtifact.t) l (Raise e) (ph_locked g) → Q (Raise e) (ph_locked g)) →
  (∀ a g, going l g → started g = true → durable g = Some (AdapterResult.produced_sha r) → Q (Ok a) (ph_locked g)) →
  safe (make_durable m l latest r art) (ph_locked (building l)) Q.
Proof.
  intros Hrole [Hn Hs] HE HQ. unfold make_durable.
  assert (∀ e g, going l g → Q (Raise e) (ph_locked g)) as HG by (intros; by apply HE, going_ended).
  set (effect := artifact_effect_id _ _).
  assert (∀ a g, going l g → started g = true → sound g = Some (AdapterResult.produced_sha r, a) →
    safe (call (record_checkpoint (checkpoint_call l "builder" "result" (match latest with None => 2 | Some _ => 1 end)
            "builder_result" "submit_validation" (Some a) (Some effect) "confirmed"
            (Some (DurableArtifact.artifact_ref a)))) ;; mret a) (ph_locked g) Q) as Hlast.
  { intros a g (H1 & H2 & H3 & H4) Hst Hso. run_step.
    call_step; [by unfold allowed, allowed_locked, checkpoint_allowed; cbn; rewrite Hso, H4, Hst, Hrole; allow|].
    intros [v|e]; [|by apply HG]. run_step. cbn. rewrite bool_decide_eq_false_2 by done.
    apply HQ; [by repeat split|done|]. cbn. by rewrite Hso. }
  destruct latest as [c|].
  - destruct (Hs c eq_refl) as [d ->].
    res_step ltac:(apply HG; done). run_step. run_step. call_step; [done|].
    intros [[]|e]; [|apply HG; done]. run_step. by apply Hlast.
  - rewrite Hn by done. run_step. run_step. run_step. apply safe_publish; [done|done|done|].
    intros a. by apply Hlast.
Qed.

Lemma safe_builder a ctx fenced c (Q : res (AdapterResult.t * option DurableArtifact.t) → Phase → Prop) :
  role = "builder"%string → AdapterContext.adapter_id ctx = adapter_id → AdapterContext.allowed ctx = commands →
  fenced_lease (Claimed.lease c) = fenced →
  (∀ x s, ended (Claimed.lease c) x s → Q x s) →
  safe (builder_work m a ctx fenced c) (ph_locked (holding (Claimed.lease c))) Q.
Proof.
  intros Hrole Hid Hal Hf HQ. unfold builder_work. set (l := Claimed.lease c) in *.
  assert (∀ e g, going l g → Q (Raise e) (ph_locked g)) as HG by (intros; by apply HQ, going_ended).
  run_step. call_step; [by allow; rewrite Hrole|]. intros [[]|e]; [|by apply HG].
  match goal with |- Prog.safe _ _ _ ?s _ => change s with (ph_locked (building l)) end.
  run_step. apply safe_produce; [done|done|done|intros; by apply HG|]. intros r art invoked Hart.
  quiet_step ltac:(by apply HG). res_step ltac:(by apply HG).
  quiet_step ltac:(by apply HG). res_step ltac:(by apply HG).
  quiet_step ltac:(by apply HG). res_step ltac:(by apply HG).
  assert (∀ d g, going l g → started g = true → (fenced = true → durable g = Some (AdapterResult.produced_sha r)) →
    safe (call (submit_validation l (AdapterResult.produced_sha r)) ;; mret (r, d)) (ph_locked g) Q) as Hlast.
  { intros d g (H1 & H2 & H3 & H4) Hst Hdu. run_step.
    call_step.
    - cbn. rewrite under_true, Hst, H4, H3 by done. unfold settled. cbn. rewrite Hf.
      destruct fenced; [|done]. rewrite Hdu by done. by rewrite bool_decide_eq_true_2.
    - intros [[]|e]; [|by apply HG]. run_step. apply HQ. eexists. split; [reflexivity|]. by repeat split. }
  run_step. match goal with |- Prog.safe _ _ _ _ ?R => set (after := R) end.
  assert (after (Ok tt) (ph_locked (building l))) as Hafter.
  { subst after. cbv beta iota. run_step. destruct fenced.
    - run_step. apply safe_durable; [done|done|intros e g He; by apply HQ; destruct He as (? & ? & ? & ? & ?); eexists|].
      intros d g Hg Hst Hdu. run_step. by apply Hlast.
    - run_step. by apply Hlast. }
  destruct (Claimed.latest c); [run_step; exact Hafter|].
  run_step. destruct (required_commands _ _ _) as [[]|e]; [exact Hafter|]. by apply HG.
Qed.

Lemma safe_validator a ctx fenced c (Q : res (AdapterResult.t * option DurableArtifact.t) → Phase → Prop) :
  role = "validator"%string → AdapterContext.adapter_id ctx = adapter_id → AdapterContext.allowed ctx = commands →
  fenced_lease (Claimed.lease c) = fenced →
  (∀ x s, ended (Claimed.lease c) x s → Q x s) →
  safe (validator_work m a ctx fenced c) (ph_locked (holding (Claimed.lease c))) Q.
Proof.
  intros Hrole Hid Hal Hf HQ. unfold validator_work. set (l := Claimed.lease c) in *.
  assert (∀ e g, going l g → Q (Raise e) (ph_locked g)) as HG by (intros; by apply HQ, going_ended).
  run_step. run_step. destruct (text_field _ _ _) as [produced|e]; [|by apply HG]. res_step ltac:(by apply HG).
  run_step. match goal with |- Prog.safe _ _ _ _ ?R => set (after := R) end.
  assert (∀ art g, going l g → started g = false →
    (if fenced then ∃ d, art = Some d ∧ sound g = Some (produced, d) else art = None) →
    after (Ok art) (ph_locked g)) as Hafter.
  { intros art g Hg Hst Hart. pose proof Hg as (H1 & H2 & H3 & H4). subst after. cbv beta iota.
    quiet_step ltac:(by apply HG). quiet_step ltac:(by apply HG).
    run_step. apply safe_commands; [done|done| |].
    { unfold may_work. rewrite H1, Hrole. cbn. rewrite Hf. destruct fenced; [|done]. by destruct Hart as (d & _ & ->). }
    intros [[raw invoked]|e]; [|by apply HG].
    run_step. run_step. destruct (validate_result _ _ _ _) as [r|e]; [|by apply HG].
    run_step. match goal with |- Prog.safe _ _ _ _ ?R => set (rest := R) end.
    assert (∀ b, rest (Ok b) (ph_locked g)) as Hrest.
    { intros b. subst rest. cbv beta iota. res_step ltac:(by apply HG). res_step ltac:(by apply HG).
      assert (∀ g, going l g → settled g l None = true → safe (call (api_complete l) ;; mret (r, art)) (ph_locked g) Q) as Hlast.
      { intros g' Hg' Hse. pose proof Hg' as (? & ? & ? & ?). run_step.
        call_step; [unfold allowed, allowed_locked; rewrite Hse, under_true, Hrole by done; by destruct (publishing g'), (finished g')|].
        intros [[]|e]; [|by apply HG]. run_step. apply HQ. eexists. split; [reflexivity|]. by repeat split. }
      run_step. destruct fenced.
      - destruct Hart as (d & -> & Hso). run_step.
        call_step; [by unfold allowed, allowed_locked, checkpoint_allowed; cbn; rewrite Hso, H4, Hrole; allow|].
        intros [v|e]; [|by apply HG]. run_step. cbn. rewrite bool_decide_eq_false_2 by done.
        apply Hlast; [by repeat split|]. unfold settled. cbn. by rewrite Hso, orb_true_r.
      - subst art. run_step. apply Hlast; [done|]. unfold settled. by rewrite Hf. }
    run_step; [|run_step; apply Hrest].
    quiet_step ltac:(by apply HG). run_step; [|run_step; apply Hrest].
    quiet_step ltac:(by apply HG). run_step. apply Hrest. }
  destruct fenced; [|run_step; by apply Hafter].
  destruct (Claimed.latest c) as [latest|]; [|by apply HG].
  res_step ltac:(by apply HG). res_step ltac:(by apply HG). run_step. call_step; [done|].
  intros [[]|e]; [|by apply HG]. run_step. apply Hafter; [by repeat split|done|]. by eexists.
Qed.

(** *** Failures, the receipt and the run *)

Lemma safe_failure {A} l e g (Q : res A → Phase → Prop) :
  ended (A := A) l (Raise e) (ph_locked g) → (∀ e g, Q (Raise e) (ph_locked g)) →
  safe (on_failure l e) (ph_locked g) Q.
Proof.
  intros (g' & [= <-] & H1 & _ & H2 & H3) HQ. unfold on_failure. run_step.
  match goal with |- Prog.safe _ _ _ _ ?R => set (rest := R) end.
  assert (∀ b, rest (Ok b) (ph_locked g)) as Hrest.
  { intros b. subst rest. cbv beta iota. repeat run_step; apply HQ. }
  run_step; [run_step; apply Hrest|]. run_step. run_step.
  assert (publishing g = false) as Hp.
  { destruct (publishing g); [|done]. by rewrite H3, bool_decide_eq_true_2 in Hb. }
  call_step; [by allow; rewrite Hp, H2|]. intros r. destruct r; run_step; apply Hrest.
Qed.

Lemma safe_work a ctx fenced c (Q : res (AdapterResult.t * option DurableArtifact.t) → Phase → Prop) :
  role = "builder"%string ∨ role = "validator"%string →
  AdapterContext.adapter_id ctx = adapter_id → AdapterContext.allowed ctx = commands →
  fenced_lease (Claimed.lease c) = fenced →
  (∀ e g, Q (Raise e) (ph_locked g)) →
  (∀ x g, finished g = true → written g = false → Q (Ok x) (ph_locked g)) →
  safe (work m a ctx role fenced c) (ph_locked (holding (Claimed.lease c))) Q.
Proof.
  intros Hrole Hid Hal Hf HE HQ. unfold work. run_step.
  assert (∀ x s, ended (Claimed.lease c) x s →
    match x with Ok v => Q (Ok v) s | Raise e => safe (on_failure (Claimed.lease c) e) s Q end) as Hend.
  { intros [v|e] s Hx; pose proof Hx as (g & -> & _ & Hw & Hr); [by apply HQ|]. by apply safe_failure. }
  destruct Hrole as [Hr|Hr].
  - replace (is_builder role) with true by (by rewrite Hr). by apply safe_builder.
  - replace (is_builder role) with false by (by rewrite Hr). by apply safe_validator.
Qed.

Lemma safe_write receipt g (Q : res unit → Phase → Prop) :
  finished g = true → written g = false → (∀ x g, Q x (ph_locked g)) →
  safe (write_receipt tid role receipt) (ph_locked g) Q.
Proof.
  intros Hf Hw HQ. unfold write_receipt. run_step. call_step; [done|]. intros [b|e]; [|apply HQ].
  match goal with |- context [next _ _ _ _ (ph_locked g) ?o ?x] =>
    assert (∃ g', next m role worker_id correlation_id (ph_locked g) o x = ph_locked g' ∧
      finished g' = true ∧ written g' = false) as (g' & -> & Hf' & Hw') end.
  { cbn. destruct (_ && _); eexists; (split; [reflexivity|]); done. }
  assert (∀ link : bool, safe (of_res (need (negb link) "receipt_exists") ;;
     call (replace_receipt tid role (sort_all (JObj receipt)))) (ph_locked g') Q) as Hrest.
  { intros link. res_step ltac:(apply HQ). call_step; [by allow; rewrite Hf', Hw'|]. intros r. apply HQ. }
  run_step. run_step; [run_step; apply Hrest|]. run_step. call_step; [done|].
  intros [st|e]; [|apply HQ]. run_step. apply Hrest.
Qed.

Lemma safe_locked x a raw (Q : res json → Phase → Prop) :
  role = "builder"%string ∨ role = "validator"%string →
  correlation_id = ExecutionBoundary.correlation_id (Executor.boundary x) →
  adapter_id = TaskManifest.adapter_id m → commands_for (descriptor a) role = Ok commands →
  (∀ x g, Q x (ph_locked g)) →
  safe (locked x m a raw role worker_id) (ph_locked no_ledger) Q.
Proof.
  intros Hrole Hc Hid Hal HQ. unfold locked. run_step. call_step; [done|]. intros [has|e]; [|apply HQ].
  assert (next m role worker_id correlation_id (ph_locked no_ledger) (receipt_exists tid role) (Ok has)
    = ph_locked (no_ledger <| fresh := negb has |>)) as ->.
  { cbn. by rewrite !bool_decide_eq_true_2. }
  set (g := no_ledger <| fresh := negb has |>). run_step.
  match goal with |- Prog.safe _ _ _ _ ?R => set (rest := R) end.
  assert (∀ ctx, (has = true ∧ ctx = None ∨ has = false ∧ ∃ v, ctx = Some v ∧
      AdapterContext.adapter_id v = adapter_id ∧ AdapterContext.allowed v = commands) →
    rest (Ok ctx) (ph_locked g)) as Hrest.
  { intros ctx Hctx. subst rest. cbv beta iota. run_step. call_step; [by allow|]. intros [task|e]; [|apply HQ].
    res_step ltac:(apply HQ). rename a0 into fenced.
    unfold check_task in Heqr. apply res_bind_ok in Heqr as (? & Hm & _).
    unfold need_r in Hm. apply res_bind_ok in Hm as (mt & Hm & Hn). destruct mt; [|discriminate Hn].
    destruct Hctx as [[-> ->]|[-> (v & -> & Hv1 & Hv2)]]; [by apply safe_replay|].
    assert (next m role worker_id correlation_id (ph_locked g) (get_task tid) (Ok task) = ph_locked cleared) as ->.
    { cbn. by rewrite Hm. }
    unfold execute_claim. run_step. apply safe_acquire; [done|intros; apply HQ|]. intros c Hf. cbv beta iota.
    run_step. apply safe_work; [done|done|done|done|intros; apply HQ|]. intros [r art] g' Hfin Hw. cbv beta iota.
    res_step ltac:(apply HQ). run_step. apply safe_write; [done|done|]. intros [[]|e] g''; [run_step|]; apply HQ. }
  destruct has; [run_step; apply Hrest; by left|].
  run_step. apply safe_local_checks; [done|intros; apply HQ|]. intros registry ctx Hctx. run_step.
  apply Hrest. right. split; [done|]. exists ctx. split; [done|].
  unfold make_context in Hctx. rewrite Hal in Hctx. cbn in Hctx.
  apply res_bind_ok in Hctx as (? & _ & [= <-]). done.
Qed.
End Follow.

(** The names that the monitor of a run is about. *)
Definition run_allowed (x : Executor.t) (m : TaskManifest.t) (a : Adapter) (role worker_id : string)
    : Phase → op → bool :=
  allowed m role worker_id (ExecutionBoundary.correlation_id (Executor.boundary x)) (TaskManifest.adapter_id m)
    (if is_builder role then AdapterDescriptor.builder_commands (descriptor a)
     else AdapterDescriptor.validator_commands (descriptor a)).
Definition run_next (x : Executor.t) (m : TaskManifest.t) (role worker_id : string)
    : Phase → ∀ o, res (answer o) → Phase :=
  next m role worker_id (ExecutionBoundary.correlation_id (Executor.boundary x)).

Lemma prepare_role x raw role worker_id m a :
  prepare x raw role worker_id = Ok (m, a) →
  (role = "builder"%string ∨ role = "validator"%string) ∧ role ∈ AdapterDescriptor.roles (descriptor a).
Proof.
  unfold prepare. intros H. apply res_bind_ok in H as (? & H1 & H).
  do 2 apply res_bind_ok in H as (? & _ & H). apply res_bind_ok in H as (m' & _ & H).
  do 2 apply res_bind_ok in H as (? & _ & H).
  destruct (lookup_key _ _) as [a'|]; [|discriminate H].
  apply res_bind_ok in H as (? & _ & H). apply res_bind_ok in H as (? & H2 & H). injection H as -> ->.
  unfold need in H1, H2. destruct (bool_decide (role ∈ ["builder"; "validator"]%string)) eqn:E1; [|done].
  destruct (bool_decide (role ∈ AdapterDescriptor.roles _)) eqn:E2; [|done].
  apply bool_decide_eq_true in E1, E2. split; [|done].
  apply elem_of_cons in E1 as [->|E1]; [by left|]. apply list_elem_of_singleton in E1. by right.
Qed.

Lemma safe_run x raw role worker_id m a :
  prepare x raw role worker_id = Ok (m, a) →
  safe (run_allowed x m a role worker_id) (run_next x m role worker_id) (run x raw role worker_id) ph_idle
    (fun out s => s = ph_released ∨ s = ph_idle ∧ ∃ e, out = Raise e).
Proof.
  intros Hp. pose proof (prepare_role _ _ _ _ _ _ Hp) as [Hrole Hin]. unfold run. rewrite Hp. run_step. run_step.
  run_step. run_step. refine (safe_call _ _ _ _ _ _ _); [by cbn; rewrite !bool_decide_eq_true_2|].
  intros [[]|e]; [|by repeat run_step; right; eauto].
  run_step. change (run_next _ _ _ _ _ _ _) with (ph_locked no_ledger).
  refine (safe_locked m role worker_id _ _ _ x a raw _ Hrole eq_refl eq_refl _ _).
  - unfold commands_for, need. rewrite (bool_decide_eq_true_2 _ Hin). cbn. unfold is_builder.
    f_equal. destruct (String.eqb_spec role "builder") as [E|E];
      [by rewrite bool_decide_eq_true_2|by rewrite bool_decide_eq_false_2].
  - intros out g. refine (safe_call _ _ _ _ _ _ _); [by cbn; rewrite !bool_decide_eq_true_2|].
    intros [[]|e]; by left.
Qed.
