(* ===== verification/OneShotProps.v ===== *)
(** Properties of the one-shot executor: its calls follow the protocol
    whatever it is answered, what it hands over is durable, an unresolved
    publication is not failed, and its receipts replay.  They are
    instantiated on a fenced task, a builder and a workspace of one file, in
    memory, defined first. *)
From Stdlib Require Import Ascii String.
From stdpp Require Import strings.
From S2P Require Import Prelude Prog PyStr Sha256 Json PyVal Names Manifest OneShot OneShotSpec.

Local Open Scope string_scope.
Local Open Scope Z_scope.
Local Open Scope list_scope.

Definition shot_tid : string := "cwp-0123456789abcdef01234567".
Definition shot_base : string := "0123456789012345678901234567890123456789".
Definition shot_sha : string := "00112233445566778899aabbccddeeff00112233".
Definition shot_path : string := "app/a.py".
Definition shot_bytes : string := "x = 1".
Definition shot_evidence : string := Eval vm_compute in sha256_hex "evidence".

Definition shot_descriptor : AdapterDescriptor.t :=
  AdapterDescriptor.mk "bridge.v1" [shot_path] ["repair.one"] ["check.one"] ["builder"; "validator"].
Definition shot_contract : string :=
  Eval vm_compute in match contract_sha256 shot_descriptor with Ok c => c | Raise _ => "" end.
Definition shot_result : AdapterResult.t := AdapterResult.mk shot_sha [shot_path] ["repair.one"] shot_evidence.
Definition shot_adapter : Adapter := {|
  descriptor := shot_descriptor;
  build := fun _ => s_invoke "repair.one" (fun _ => s_local "commit" (fun _ => s_return (adapter_result shot_result)));
  validate := fun _ sha => s_invoke "check.one" (fun _ =>
    s_return (adapter_result (AdapterResult.mk sha [shot_path] ["check.one"] shot_evidence))) |}.
Definition shot_manifest : json :=
  JObj [("schema_version", JInt 1); ("task_id", JStr shot_tid); ("repository", JStr "acme/repo");
        ("base_sha", JStr shot_base); ("workspace_sha", JStr shot_base); ("adapter_id", JStr "bridge.v1");
        ("adapter_contract_sha256", JStr shot_contract);
        ("before_sha256", JObj [(shot_path, JStr (sha256_hex shot_bytes))])].
Definition shot_executor : Executor.t :=
  Executor.mk "/work/repo" [("bridge.v1", shot_adapter)] [("bridge.v1", ["check.one"; "repair.one"])]
    (ExecutionBoundary.mk "session-1" "corr-0001" shot_base true true) true true true true ["bridge.v1"].

(** ** The environment *)

Record Env := mkEnv { built : bool; state : string; receipt : option json; publishes : bool }.
Definition shot_env : Env := mkEnv false "queued" None true.

Definition task_view (e : Env) : list (string * json) :=
  [("task_id", JStr shot_tid); ("repository", JStr "acme/repo"); ("base_sha", JStr shot_base);
   ("fencing_required", JBool true); ("state", JStr (state e)); ("leased_by", JStr "builder-1");
   ("lease_generation", JInt 1); ("attempt_id", JStr "attempt-1");
   ("produced_sha", if built e then JStr shot_sha else JNull)].
Definition claim_answer (e : Env) : json :=
  JObj [("claimed", JBool true); ("task", JObj (task_view e));
        ("lease", JObj [("lease_token", JStr "token-0123456789"); ("task_id", JStr shot_tid);
                        ("worker_id", JStr "builder-1"); ("role", JStr "builder");
                        ("lease_expires_at", JStr "2100-01-01T00:00:00Z"); ("lease_generation", JInt 1);
                        ("attempt_id", JStr "attempt-1")]);
        ("recovery_context", JObj [("latest_checkpoint", JNull); ("effects", JList [])])].
Definition shot_artifact : DurableArtifact.t := DurableArtifact.mk "git_bundle" "cas://bundle/1" shot_evidence.
Definition git_answer (e : Env) (args : list string) : Z * string :=
  (0, match args with
      | "rev-parse" :: _ => if built e then shot_sha else shot_base
      | "diff" :: _ => shot_path
      | _ => ""
      end).
(** The checkpoint of the accepted result, as the pool reports it. *)
Definition checkpoint_answer : json :=
  JObj ([("task_id", JStr shot_tid); ("lease_generation", JInt 1); ("attempt_id", JStr "attempt-1");
         ("checkpoint_id", JStr (checkpoint_id "attempt-1" "builder" "result")); ("sequence", JInt 2);
         ("stage", JStr "builder_result"); ("next_action", JStr "submit_validation")] ++
        checkpoint_fields shot_artifact ++
        [("effect_id", JStr (artifact_effect_id shot_tid shot_sha)); ("effect_state", JStr "confirmed");
         ("effect_result_ref", JStr (DurableArtifact.artifact_ref shot_artifact))]).

Definition environment (o : op) (e : Env) : res (answer o) * Env :=
  match o return res (answer o) * Env with
  | get_task _ => (Ok (JObj (task_view e)), e)
  | claim _ _ _ _ =>
      let e' := mkEnv (built e) "leased" (receipt e) (publishes e) in (Ok (claim_answer e'), e')
  | get_latest_checkpoint _ => (Ok checkpoint_answer, e)
  | record_checkpoint _ => (Ok JNull, e)
  | submit_validation _ _ => (Ok tt, mkEnv (built e) "validating" (receipt e) (publishes e))
  | publish _ _ _ _ =>
      (if publishes e then Ok (an_artifact shot_artifact) else Raise (Error "OSError" "connection reset"), e)
  | materialize _ _ => (Ok other_value, e)
  | command _ _ => (Ok JNull, e)
  | local_action _ => (Ok JNull, mkEnv true (state e) (receipt e) (publishes e))
  | git args => (Ok (git_answer e args), e)
  | root_stat => (Ok (RootStat.mk true false), e)
  | file_stat _ => (Ok (FileStat.mk true false 1 true), e)
  | read_bytes _ => (Ok shot_bytes, e)
  | receipt_exists _ _ => (Ok (match receipt e with Some _ => true | None => false end), e)
  | receipt_stat _ _ => (Ok (FileStat.mk (match receipt e with Some _ => true | None => false end) false 1 true), e)
  | read_receipt _ _ =>
      (match receipt e with Some v => Ok v | None => Raise (Error "OSError" "no such file") end, e)
  | replace_receipt _ _ v => (Ok tt, mkEnv (built e) (state e) (Some v) (publishes e))
  | utc_now => (Ok 63844934399250000, e)
  | _ => (Ok tt, e)
  end.

Definition shot : P json := run shot_executor shot_manifest "builder" "builder-1".
Definition shot_run (e : Env) := execute environment shot e.
Definition shot_trace : list (@event op answer) := (shot_run shot_env).1.
Definition after_shot : Env := (shot_run shot_env).2.2.

(** The names of the calls of a trace. *)
Definition call_name (o : op) : string :=
  match o with
  | get_task _ => "get_task" | claim _ _ _ _ => "claim" | get_latest_checkpoint _ => "get_latest_checkpoint"
  | record_checkpoint c => CheckpointCall.stage c | api_start _ => "start" | submit_validation _ _ => "submit"
  | api_complete _ => "complete" | api_fail _ _ => "fail" | api_block _ _ => "block" | preflight => "preflight"
  | publish _ _ _ _ => "publish" | materialize _ _ => "materialize" | verify _ _ _ => "verify"
  | command _ key => key | local_action what => what | replace_receipt _ _ _ => "receipt"
  | lock _ _ => "lock" | unlock _ _ => "unlock" | utc_now => "now" | _ => "read"
  end.
Definition calls (t : list (@event op answer)) : list string :=
  List.filter (fun s => negb (String.eqb s "read")) (map (fun e => call_name (projT1 e)) t).

Example builder_calls :
  calls shot_trace = ["lock"; "get_task"; "preflight"; "claim"; "now"; "start"; "repair.one"; "commit";
    "artifact_publish"; "publish"; "verify"; "builder_result"; "submit"; "receipt"; "unlock"].
Proof. vm_compute. reflexivity. Qed.

(** The run again: the receipt replays without a claim. *)
Example replay_calls :
  calls (shot_run after_shot).1 = ["lock"; "get_task"; "get_latest_checkpoint"; "verify"; "unlock"] ∧
  (v ← (shot_run after_shot).2.1; get "replayed" v) = Ok (JBool true).
Proof. vm_compute. split; reflexivity. Qed.

(** A publication that breaks off is marked unknown and blocks the task. *)
Definition failing_trace : list (@event op answer) := (shot_run (mkEnv false "queued" None false)).1.
Example failing_calls :
  calls failing_trace = ["lock"; "get_task"; "preflight"; "claim"; "now"; "start"; "repair.one"; "commit";
    "artifact_publish"; "publish"; "artifact_publish"; "block"; "unlock"].
Proof. vm_compute. reflexivity. Qed.

(** ** What the ledger says of the calls made *)

Section History.
Context (m : TaskManifest.t) (role worker_id correlation_id adapter_id : string) (commands : list string).
Abbreviation tid := (TaskManifest.task_id m).
Abbreviation allowed := (allowed m role worker_id correlation_id adapter_id commands).
Abbreviation next := (next m role worker_id correlation_id).
Abbreviation trace := (list (@event op answer)).

Definition verified_in (t : trace) (sha : string) (a : DurableArtifact.t) : Prop :=
  ∃ m', ev (verify m' sha a) (Ok tt) ∈ t.
(** An accepted checkpoint of a result, with the artifact it names. *)
Definition recorded_in (t : trace) (l : LeaseCall.t) (a : DurableArtifact.t) : Prop :=
  ∃ c v, ev (record_checkpoint c) (Ok v) ∈ t ∧ CheckpointCall.lease c = l ∧ CheckpointCall.artifact c = Some a ∧
    CheckpointCall.stage c = (if is_builder role then "builder_result" else "validator_result")%string.

(** What an established fact of the ledger was established by. *)
Record grounded (t : trace) (g : Ledger) : Prop := {
  gr_held : ∀ l, held g = Some l →
    ∃ fenced c, ev (claim fenced worker_id tid correlation_id) (Ok c) ∈ t ∧
      granted m worker_id correlation_id fenced c = Some l;
  gr_started : started g = true → ∃ l, held g = Some l ∧ ev (api_start l) (Ok tt) ∈ t;
  gr_sound : ∀ sha a, sound g = Some (sha, a) → verified_in t sha a;
  gr_durable : ∀ sha, durable g = Some sha →
    ∃ l a, held g = Some l ∧ verified_in t sha a ∧ recorded_in t l a;
  gr_claimed : held g ≠ None → claimed g = true }.

Definition grounded_phase (t : trace) (s : Phase) : Prop :=
  match s with ph_locked g => grounded t g | _ => True end.

Lemma grounded_more t e g : grounded t g → grounded (t ++ [e]) g.
Proof.
  intros [H1 H2 H3 H4 H5].
  assert (∀ x, x ∈ t → x ∈ t ++ [e]) as Hin by (intros; apply elem_of_app; by left).
  assert (∀ sha a, verified_in t sha a → verified_in (t ++ [e]) sha a) as Hv
    by (intros sha a [m' ?]; exists m'; by apply Hin).
  split; [| | | |done].
  - intros l Hl. destruct (H1 l Hl) as (f & c & ? & ?). exists f, c. split; [by apply Hin|done].
  - intros Hs. destruct (H2 Hs) as (l & ? & ?). exists l. split; [done|by apply Hin].
  - intros sha a Hs. by apply Hv, H3.
  - intros sha Hs. destruct (H4 sha Hs) as (l & a & ? & ? & c & v & Hc & ?).
    exists l, a. split; [done|]. split; [by apply Hv|]. exists c, v. split; [by apply Hin|done].
Qed.

(** Changes of the fields that no fact is about. *)
Lemma grounded_same t g g' :
  grounded t g → held g' = held g → started g' = started g → sound g' = sound g → durable g' = durable g →
  (claimed g = true → claimed g' = true) → grounded t g'.
Proof.
  intros [H1 H2 H3 H4 H5] Eh Es Eo Ed Ec. split; rewrite ?Eh, ?Es, ?Eo, ?Ed; try done.
  intros Hn. by apply Ec, H5.
Qed.

Lemma last_in (t : trace) e : e ∈ t ++ [e].
Proof. apply elem_of_app. right. by apply list_elem_of_singleton. Qed.

Lemma under_held g l : under g l = true → held g = Some l.
Proof. apply bool_decide_eq_true. Qed.

Lemma grounded_claim t g fenced w t' c (r : res json) :
  grounded t g → allowed_locked m role worker_id correlation_id adapter_id commands g (claim fenced w t' c) = true →
  grounded (t ++ [ev (claim fenced w t' c) r]) (next_locked m role worker_id correlation_id g (claim fenced w t' c) r).
Proof.
  cbn [allowed_locked]. rewrite !andb_true_iff, !bool_decide_eq_true, negb_true_iff.
  intros Hg (((((-> & ->) & ->) & _) & _) & Hc).
  assert (held g = None) as Hn.
  { destruct (held g) eqn:E; [|done]. rewrite (gr_claimed _ _ Hg) in Hc by (by rewrite E). done. }
  pose proof (grounded_more _ (ev (claim fenced worker_id tid correlation_id) r) _ Hg) as [H1 H2 H3 H4 H5].
  cbn [next_locked]. split; cbn.
  - intros l Hl. destruct r as [v|e]; [|done]. exists fenced, v. split; [apply last_in|done].
  - intros Hs. destruct (H2 Hs) as (l & Hl & _). congruence.
  - done.
  - intros sha Hs. destruct (H4 sha Hs) as (l & _ & Hl & _). congruence.
  - done.
Qed.

Lemma grounded_checkpoint t g c (r : res json) :
  grounded t g → checkpoint_allowed m role g c = true →
  grounded (t ++ [ev (record_checkpoint c) r]) (next_locked m role worker_id correlation_id g (record_checkpoint c) r).
Proof.
  intros Hg Ha. pose proof (grounded_more _ (ev (record_checkpoint c) r) _ Hg) as Hg'.
  cbn [next_locked]. destruct r as [v|e]; [|done]. unfold checkpoint_allowed in Ha.
  apply andb_prop in Ha as [Hu Ha]. apply under_held in Hu.
  destruct (bool_decide (CheckpointCall.stage c = "artifact_publish"%string)) eqn:E.
  - destruct (bool_decide (_ = "pending"%string)); [|done]. by apply (grounded_same _ _ _ Hg').
  - destruct (CheckpointCall.artifact c) as [a|] eqn:Ea; [|done].
    destruct (sound g) as [[sha b]|] eqn:Eb; [|done].
    rewrite !andb_true_iff, bool_decide_eq_true in Ha. destruct Ha as [[-> _] Hst].
    destruct Hg' as [H1 H2 H3 H4 H5]. split; cbn; rewrite ?Eb; try done.
    + intros sha' b'. by rewrite <- Eb; apply H3.
    + intros sha' [= <-]. exists (CheckpointCall.lease c), b. split; [done|]. split; [by apply H3|].
      exists c, v. split; [apply last_in|]. split; [done|]. split; [done|].
      destruct (is_builder role); rewrite ?andb_true_iff, ?bool_decide_eq_true in Hst; [by destruct Hst as [[_ ?] _]|done].
Qed.

Lemma grounded_step t g o r :
  grounded t g → allowed_locked m role worker_id correlation_id adapter_id commands g o = true →
  grounded (t ++ [ev o r]) (next_locked m role worker_id correlation_id g o r).
Proof.
  intros Hg Ha. pose proof (grounded_more _ (ev o r) _ Hg) as Hg'.
  destruct o; cbn [next_locked]; try done;
    try (destruct r; try done; by apply (grounded_same _ _ _ Hg')).
  - by apply grounded_claim.
  - by apply grounded_checkpoint.
  - destruct r as [[]|e]; [|done]. cbn in Ha. rewrite !andb_true_iff in Ha. destruct Ha as [[Hu _] _].
    apply under_held in Hu. destruct Hg' as [H1 H2 H3 H4 H5]. split; cbn; try done.
    intros _. exists l. split; [done|apply last_in].
  - destruct r as [[]|e]; [|done]. destruct Hg' as [H1 H2 H3 H4 H5]. split; cbn; try done.
    intros sha b [= -> ->]. eexists. apply last_in.
  - destruct (_ && _); [|done]. by apply (grounded_same _ _ _ Hg').
Qed.

Lemma grounded_trace t : accepts allowed next ph_idle t = true → grounded_phase t (reached next ph_idle t).
Proof.
  revert t. apply (accepts_ind allowed next grounded_phase); [done|].
  intros t o r Hi Ha. destruct (reached next ph_idle t) as [|g|]; [| |done].
  - destruct o; try done. destruct r; [|done]. by repeat split.
  - cbn in Ha. destruct o; try exact (grounded_step t g _ r Hi Ha). done.
Qed.
End History.

(** ** A publication *)

Section Publication.
Context (m : TaskManifest.t) (role worker_id correlation_id adapter_id : string) (commands : list string).
Abbreviation allowed := (allowed m role worker_id correlation_id adapter_id commands).
Abbreviation next := (next m role worker_id correlation_id).

(** A successful verification by the transport. *)
Definition verifies (e : @event op answer) : bool :=
  let 'existT o r := e in
  (match o return res (answer o) → bool with
   | verify _ _ _ => fun r => match r with Ok _ => true | Raise _ => false end
   | _ => fun _ => false
   end) r.

(** Until the transport verifies something, a publication is unresolved. *)
Lemma unresolved_stays g t s :
  publishing g = true → published g = true → existsb verifies t = false → reached next (ph_locked g) t = s →
  s = ph_released ∨ ∃ g', s = ph_locked g' ∧ publishing g' = true ∧ published g' = true.
Proof.
  intros H1 H2 Hn <-. revert g H1 H2. induction t as [|[o r] t IH]; intros g H1 H2; cbn [reached]; [right; by exists g|].
  cbn in Hn. apply orb_false_iff in Hn as [Hv Hn].
  assert (reached next ph_released t = ph_released) as Hrel.
  { clear. induction t as [|[o r] t IH]; cbn; [done|apply IH]. }
  destruct o; cbn [OneShotSpec.next next_locked]; try (by apply IH); try (by left);
    try (destruct r; [discriminate Hv|by apply IH]); repeat case_match; by apply IH.
Qed.
Lemma published_stays g t s :
  published g = true → reached next (ph_locked g) t = s →
  s = ph_released ∨ ∃ g', s = ph_locked g' ∧ published g' = true.
Proof.
  intros H1 <-. revert g H1. induction t as [|[o r] t IH]; intros g H1; cbn [reached]; [right; by exists g|].
  assert (reached next ph_released t = ph_released) as Hrel.
  { clear. induction t as [|[o r] t IH]; cbn; [done|apply IH]. }
  destruct o; cbn [OneShotSpec.next next_locked]; try (by apply IH); try (by left);
    repeat case_match; by apply IH.
Qed.
End Publication.

(** ** The properties of a run *)

Lemma run_prefix x raw role worker_id t1 o r t2 out :
  runs (run x raw role worker_id) (t1 ++ ev o r :: t2) out →
  ∃ m a, prepare x raw role worker_id = Ok (m, a) ∧
    accepts (run_allowed x m a role worker_id) (run_next x m role worker_id) ph_idle t1 = true ∧
    run_allowed x m a role worker_id (reached (run_next x m role worker_id) ph_idle t1) o = true ∧
    accepts (run_allowed x m a role worker_id) (run_next x m role worker_id)
      (run_next x m role worker_id (reached (run_next x m role worker_id) ph_idle t1) o r) t2 = true.
Proof.
  intros Hr. destruct (prepare x raw role worker_id) as [[m a]|e] eqn:E.
  - exists m, a. split; [done|]. destruct (safe_runs _ _ _ _ _ _ _ (safe_run _ _ _ _ _ _ E) Hr) as [Ha _].
    rewrite accepts_app in Ha. cbn in Ha. by rewrite !andb_true_iff in Ha.
  - unfold run in Hr. rewrite E in Hr. inversion Hr as [|? E1 E2|]; subst. by destruct t1.
Qed.

(** C17: Whatever the pool, the transport, the adapter, git and the files
    answer, every call of a run is one the protocol allows when it is made:
    under the lock of the task and role, before the claim only readings; at
    most one claim, on a task that matches the manifest and has no receipt;
    every mutation under exactly the lease that the claim granted; commands
    of the contract's role only, and only once the work may run; and the lock
    is released at the end. *)
Theorem run_follows_protocol x raw role worker_id t out :
  runs (run x raw role worker_id) t out →
  match prepare x raw role worker_id with
  | Raise e => t = [] ∧ out = Raise e
  | Ok (m, a) =>
      accepts (run_allowed x m a role worker_id) (run_next x m role worker_id) ph_idle t = true ∧
      (reached (run_next x m role worker_id) ph_idle t = ph_released ∨
       reached (run_next x m role worker_id) ph_idle t = ph_idle ∧ ∃ e, out = Raise e)
  end.
Proof.
  intros Hr. destruct (prepare x raw role worker_id) as [[m a]|e] eqn:E.
  - by apply (safe_runs _ _ _ _ _ _ _ (safe_run _ _ _ _ _ _ E)).
  - unfold run in Hr. rewrite E in Hr. by inversion Hr.
Qed.

Definition hands_over (l : LeaseCall.t) (o : op) (sha : option string) : Prop :=
  match sha with Some s => o = submit_validation l s | None => o = api_complete l end.

(** C18: What a fenced run hands over is durable: before a builder submits a
    commit, and before a validator completes, the claim granted the lease
    used, the transport verified an artifact, of that commit for the builder,
    and the pool accepted a result checkpoint that names it. *)
Theorem handover_is_durable x raw role worker_id t1 o r t2 out l sha :
  runs (run x raw role worker_id) (t1 ++ ev o r :: t2) out →
  hands_over l o sha → LeaseCall.fence l ≠ None →
  ∃ s a, (sha = Some s ∨ sha = None) ∧ verified_in t1 s a ∧ recorded_in role t1 l a ∧
    ∃ c, ev (claim true worker_id (LeaseCall.task_id l) (LeaseCall.correlation_id l)) (Ok c) ∈ t1 ∧
      member "lease_token" (member "lease" c) = JStr (LeaseCall.lease_token l).
Proof.
  intros Hr Ho Hf. apply run_prefix in Hr as (m & a & _ & Ha & Hal & _).
  pose proof (grounded_trace _ _ _ _ _ _ _ Ha) as Hg. unfold run_next in Hal.
  destruct (reached _ ph_idle t1) as [|g|]; [by destruct sha; cbn in Ho; subst o| |done].
  assert (under g l = true ∧ settled g l sha = true) as [Hu Hs].
  { destruct sha; cbn in Ho; subst o; cbn in Hal; by rewrite !andb_true_iff in Hal; destruct_and!. }
  apply under_held in Hu. unfold settled, fenced_lease in Hs. destruct (LeaseCall.fence l) as [p|] eqn:Ef; [|done].
  cbn in Hs. destruct (durable g) as [s|] eqn:Ed; [|done].
  destruct (gr_durable _ _ _ _ _ _ Hg _ Ed) as (l' & b & Hl & Hv & Hc).
  assert (l' = l) as -> by congruence. exists s, b.
  split; [destruct sha; [left; by apply bool_decide_eq_true in Hs as ->|by right]|].
  split; [done|]. split; [done|].
  destruct (gr_held _ _ _ _ _ _ Hg _ Hu) as (fenced & c & Hin & Hgr).
  unfold granted in Hgr. destruct (member "lease_token" (member "lease" c)) eqn:Et; try discriminate Hgr.
  destruct fenced; [|injection Hgr as <-; discriminate Ef].
  destruct (member "lease_generation" _); try discriminate Hgr.
  destruct (member "attempt_id" _); try discriminate Hgr.
  injection Hgr as <-. exists c. by split.
Qed.

(** Calls that a run makes only on a resolved publication. *)
Definition resolves (o : op) : bool :=
  match o with
  | api_fail _ _ | submit_validation _ _ | api_complete _ | publish _ _ _ _ => true
  | _ => false
  end.
Definition is_publish (o : op) : bool := match o with publish _ _ _ _ => true | _ => false end.

(** C19: A publication is never repeated, and after one that may have
    happened the task is neither failed nor handed over until the transport
    has verified an artifact: an unresolved effect is left to reconciliation. *)
Theorem unresolved_publication_is_kept x raw role worker_id t1 m' f effect res r t2 o r' t3 out :
  runs (run x raw role worker_id) (t1 ++ ev (publish m' f effect res) r :: t2 ++ ev o r' :: t3) out →
  resolves o = true → is_publish o = false ∧ existsb verifies t2 = true.
Proof.
  intros Hr Ho. apply run_prefix in Hr as (m & a & _ & _ & Hal & Ha).
  unfold run_next, run_allowed in *.
  destruct (reached _ ph_idle t1) as [|g|]; [done| |done]. cbn [OneShotSpec.next next_locked] in Ha.
  rewrite accepts_app in Ha. cbn in Ha. apply andb_prop in Ha as [Ha Hb]. apply andb_prop in Hb as [Hb _].
  set (g1 := g <| published := true |> <| publishing := true |>) in *.
  assert (is_publish o = false) as Hp.
  { destruct o; try done. destruct (published_stays m role worker_id (ExecutionBoundary.correlation_id (Executor.boundary x))
      g1 t2 _ eq_refl eq_refl) as [E|(g' & E & H)]; rewrite E in Hb; [done|]. cbn in Hb.
    by rewrite H, andb_false_r in Hb. }
  split; [done|].
  destruct (existsb verifies t2) eqn:Hn; [done|exfalso].
  destruct (unresolved_stays m role worker_id (ExecutionBoundary.correlation_id (Executor.boundary x))
    g1 t2 _ eq_refl eq_refl Hn eq_refl) as [E|(g' & E & H & _)];
    rewrite E in Hb; [done|].
  destruct o; try done; cbn in Hb; by rewrite H, ?andb_false_r in Hb.
Qed.

(** ** The receipt *)

Section Receipt.
Context (x : Executor.t) (m : TaskManifest.t) (d : AdapterDescriptor.t) (raw : json)
  (contract role worker_id : string) (fenced : bool) (l : LeaseCall.t) (r : AdapterResult.t)
  (art : option DurableArtifact.t) (invoked allowed : list string).
Hypothesis Hcontract : contract_sha256 d = Ok contract.
Hypothesis Hallowed : commands_for d role = Ok allowed.
Hypothesis Hresult : validate_result (adapter_result r) d invoked role = Ok r.
Hypothesis Hrequired : required_commands d role invoked = Ok tt.
Hypothesis Hfence : fenced_lease l = fenced.
Hypothesis Hart : if fenced then ∃ a, art = Some a else art = None.

Abbreviation receipt := (make_receipt x m raw contract role worker_id fenced l r art).

Lemma receipt_keys : keys receipt = receipt_fields fenced.
Proof.
  unfold make_receipt, fenced_lease in *. destruct (LeaseCall.fence l) as [[g a]|]; subst fenced;
    [destruct Hart as [b ->]|rewrite Hart]; reflexivity.
Qed.
Lemma receipt_fields_distinct b : NoDup (receipt_fields b).
Proof. destruct b; apply (bool_decide_unpack _); vm_compute; exact I. Qed.
Lemma receipt_get k v : lookup_key k receipt = Some v → get k (sort_all (JObj receipt)) = Ok (sort_all v).
Proof. apply get_sort_all. rewrite receipt_keys. apply receipt_fields_distinct. Qed.

Lemma result_checked : AdapterResult.invoked_commands r = invoked ∧ fullmatch SHA256_HEX (AdapterResult.evidence_sha256 r) = true.
Proof.
  unfold validate_result, checked_result, need, need_r in Hresult.
  apply res_bind_ok in Hresult as (? & _ & H). apply res_bind_ok in H as (? & _ & H).
  apply res_bind_ok in H as (? & _ & H). apply res_bind_ok in H as (? & H1 & H).
  apply res_bind_ok in H as (? & H2 & _). apply res_bind_ok in H1 as (b & H1 & H3). split.
  - destruct (bool_decide (_ = invoked)) eqn:E; [by apply bool_decide_eq_true in E|].
    injection H1 as <-. discriminate H3.
  - by destruct (fullmatch SHA256_HEX _).
Qed.

Lemma field_get k p v w : get k w = Ok v → field k p w = Ok (p v).
Proof. unfold field. by intros ->. Qed.
Lemma is_text_same s : is_text (JStr s) s = true.
Proof. by apply is_text_true. Qed.
End Receipt.

(** The receipt of a run replays: read back, it satisfies every check of
    a replay by the same worker on the same configuration, exactly if each
    command of the role was invoked once and the result names distinct paths
    of the contract. *)
Theorem own_receipt_matches x m d raw contract role worker_id fenced l r art invoked allowed :
  contract_sha256 d = Ok contract → commands_for d role = Ok allowed →
  validate_result (adapter_result r) d invoked role = Ok r → required_commands d role invoked = Ok tt →
  fenced_lease l = fenced → (if fenced then ∃ a, art = Some a else art = None) →
  receipt_matches x m d raw role worker_id fenced
    (sort_all (JObj (make_receipt x m raw contract role worker_id fenced l r art)))
  = Ok (subset (AdapterResult.changed_paths r) (AdapterDescriptor.allowed_paths d) &&
        all_distinct (AdapterResult.changed_paths r) && (length invoked =? length allowed)%nat).
Proof.
  intros Hc Ha Hr Hq Hf Hart. pose proof (result_checked _ _ _ _ Hr) as [Hinv Hev].
  set (rc := make_receipt _ _ _ _ _ _ _ _ _ _).
  assert (∀ k v, lookup_key k rc = Some v → get k (sort_all (JObj rc)) = Ok (sort_all v)) as Hget
    by (intros; by apply receipt_get).
  unfold receipt_matches.
  assert (has_fields (receipt_fields fenced) (sort_all (JObj rc)) = Ok true) as ->.
  { cbn [sort_all has_fields]. f_equal. rewrite keys_sort_keys, keys_map_values.
    unfold rc. rewrite receipt_keys by done. unfold same_set. rewrite (proj2 (subset_spec _ _)) by done. done. }
  assert (∀ k v p, lookup_key k rc = Some v → field k p (sort_all (JObj rc)) = Ok (p (sort_all v))) as Hfield
    by (intros k v p Hk; by rewrite (field_get _ _ _ _ (Hget k v Hk))).
  rewrite Hc, Ha. cbn [mbind res_bind].
  rewrite (Hfield "schema_version" _ _ eq_refl), (Hfield "manifest_sha256" _ _ eq_refl),
    (Hfield "task_id" _ _ eq_refl), (Hfield "role" _ _ eq_refl), (Hfield "worker_id" _ _ eq_refl),
    (Hfield "adapter_contract_sha256" _ _ eq_refl), (Hfield "result" _ _ eq_refl),
    (Hfield "workspace_id" _ _ eq_refl), (Hfield "session_id" _ _ eq_refl), (Hfield "correlation_id" _ _ eq_refl),
    (Hfield "gateway_verified" _ _ eq_refl), (Hfield "replayed" _ _ eq_refl), (Hfield "evidence_sha256" _ _ eq_refl),
    
    (Hfield "changed_paths" (JList (map JStr (AdapterResult.changed_paths r))) _ eq_refl),
    (Hfield "invoked_commands" (JList (map JStr (AdapterResult.invoked_commands r))) _ eq_refl).
  rewrite !sort_all_strs. cbn [snd sort_all is_true str_that].
  rewrite !is_text_same, Hev.
  unfold texts_that. rewrite !strs_map, Hinv.
  assert (py_eqb (JInt (receipt_version fenced)) (JInt (receipt_version fenced)) = true) as -> by (cbn; by rewrite Z.eqb_refl).
  cbn [andr].
  destruct (subset _ _ && _); [|done]. cbn [andr andb]. f_equal.
  unfold required_commands, need in Hq. rewrite Ha in Hq. cbn in Hq. by destruct (same_set invoked allowed).
Qed.

(** ** Witnesses: the run of a builder *)

#[local] Opaque run execute prepare shot_executor shot_manifest environment.

Lemma shot_runs e :
  runs (run shot_executor shot_manifest "builder" "builder-1") (shot_run e).1 (shot_run e).2.1.
Proof. exact (execute_runs environment (run shot_executor shot_manifest "builder" "builder-1") e). Qed.
Lemma shot_trace_runs :
  runs (run shot_executor shot_manifest "builder" "builder-1") shot_trace (shot_run shot_env).2.1.
Proof. exact (shot_runs shot_env). Qed.
Lemma failing_runs :
  runs (run shot_executor shot_manifest "builder" "builder-1") failing_trace
    (shot_run (mkEnv false "queued" None false)).2.1.
Proof. exact (shot_runs _). Qed.
#[local] Opaque shot_trace shot_run failing_trace.

Lemma run_follows_protocol_witness :
  ∃ m, accepts (run_allowed shot_executor m shot_adapter "builder" "builder-1")
         (run_next shot_executor m "builder" "builder-1") ph_idle shot_trace = true ∧
       TaskManifest.task_id m = shot_tid ∧ length shot_trace = 27%nat.
Proof.
  pose proof (run_follows_protocol shot_executor shot_manifest "builder" "builder-1" _ _ shot_trace_runs) as H.
  destruct (prepare shot_executor shot_manifest "builder" "builder-1") as [[m a]|e] eqn:E.
  - exists m. assert (a = shot_adapter ∧ TaskManifest.task_id m = shot_tid) as [-> Ht].
    { vm_compute in E. injection E as <- <-. by split. }
    split; [exact (proj1 H)|]. split; [exact Ht|]. vm_compute. reflexivity.
  - vm_compute in E. discriminate E.
Defined.

(** Where a call of a trace is. *)
Fixpoint position (name : string) (t : list (@event op answer)) : nat :=
  match t with
  | [] => O
  | e :: t' => if String.eqb (call_name (projT1 e)) name then O else S (position name t')
  end.
Definition before (name : string) (t : list (@event op answer)) := take (position name t) t.
Definition after (name : string) (t : list (@event op answer)) := drop (S (position name t)) t.

Definition shot_lease : LeaseCall.t :=
  LeaseCall.mk shot_tid "builder-1" "token-0123456789" "corr-0001" (Some (1, "attempt-1"%string)).

Lemma handover_is_durable_witness :
  ∃ s a, verified_in (before "submit" shot_trace) s a ∧
    recorded_in "builder" (before "submit" shot_trace) shot_lease a.
Proof.
  assert (shot_trace = before "submit" shot_trace ++ ev (submit_validation shot_lease shot_sha) (Ok tt) ::
            after "submit" shot_trace) as E by (vm_compute; reflexivity).
  pose proof shot_trace_runs as Hr. rewrite E in Hr.
  destruct (handover_is_durable shot_executor shot_manifest "builder" "builder-1" _ _ _ _ _ shot_lease (Some shot_sha)
    Hr eq_refl ltac:(discriminate)) as (s & a & _ & Hv & Hc & _).
  exists s, a. split; [exact Hv|exact Hc].
Defined.

Lemma unresolved_publication_is_kept_witness :
  is_publish (submit_validation shot_lease shot_sha) = false ∧
  existsb verifies (before "submit" (after "publish" shot_trace)) = true.
Proof.
  set (effect := artifact_effect_id shot_tid shot_sha).
  destruct (prepare shot_executor shot_manifest "builder" "builder-1") as [[m a]|e] eqn:Ep;
    [|vm_compute in Ep; discriminate Ep].
  assert (shot_trace = before "publish" shot_trace ++
            ev (publish m (Some (1, "attempt-1"%string)) effect shot_result) (Ok (an_artifact shot_artifact)) ::
            before "submit" (after "publish" shot_trace) ++
            ev (submit_validation shot_lease shot_sha) (Ok tt) :: after "submit" (after "publish" shot_trace)) as E.
  { vm_compute in Ep. injection Ep as <- <-. vm_compute. reflexivity. }
  pose proof shot_trace_runs as Hr. rewrite E in Hr at 1.
  exact (unresolved_publication_is_kept shot_executor shot_manifest "builder" "builder-1" _ _ _ _ _ _ _ _ _ _ _
    Hr eq_refl).
Defined.

Lemma own_receipt_matches_witness :
  ∃ m, receipt_matches shot_executor m shot_descriptor shot_manifest "builder" "builder-1" true
    (sort_all (JObj (make_receipt shot_executor m shot_manifest shot_contract "builder" "builder-1" true shot_lease
                       shot_result (Some shot_artifact)))) = Ok true.
Proof.
  destruct (prepare shot_executor shot_manifest "builder" "builder-1") as [[m a]|e] eqn:Ep;
    [|vm_compute in Ep; discriminate Ep].
  exists m.
  rewrite (own_receipt_matches shot_executor m shot_descriptor shot_manifest shot_contract "builder" "builder-1" true
    shot_lease shot_result (Some shot_artifact) ["repair.one"%string] ["repair.one"%string]);
    try (vm_compute; reflexivity). by exists shot_artifact.
Defined.
