(* ===== verification/PyText.v ===== *)
(** More methods of [str] and the default layout of [json.dumps]: lines, the
    stripping of one end, occurrences, and what the editing of source code
    needs of them. *)
From Stdlib Require Import Ascii String.
From stdpp Require Import strings.
From S2P Require Import Prelude PyStr Json PyVal.

Local Open Scope Z_scope.

(** ** Lines *)

(** The line boundaries of [str.splitlines] below 256. *)
Definition is_break (c : ascii) : bool := in_range 10 13 c || in_range 28 30 c || (code c =? 133)%N.
Definition CR : ascii := chr 13.
Definition LF : ascii := chr 10.

(** [s.splitlines(keepends=True)]; [cur] is the current line, reversed. *)
Fixpoint split_lines (cur : list ascii) (l : list ascii) : list (list ascii) :=
  match l with
  | [] => match cur with [] => [] | _ => [rev cur] end
  | c :: l' =>
      if Ascii.eqb c CR then
        match l' with
        | d :: l'' => if Ascii.eqb d LF then (rev (d :: c :: cur)) :: split_lines [] l''
                      else rev (c :: cur) :: split_lines [] l'
        | [] => [rev (c :: cur)]
        end
      else if is_break c then rev (c :: cur) :: split_lines [] l'
      else split_lines (c :: cur) l'
  end.
Definition splitlines_keep (s : string) : list string := map str (split_lines [] (chars s)).
(** A line without its boundary, and [s.splitlines()]. *)
Definition chomp (s : string) : string := str (rev (drop_while is_break (rev (chars s)))).
Definition splitlines (s : string) : list string := map chomp (splitlines_keep s).
(** [''.join(l)] *)
Definition concat_text (l : list string) : string := str (flat_map chars l).

(** ** One end of a text *)

Definition lstrip (s : string) : string := str (drop_while is_space (chars s)).
Definition rstrip (s : string) : string := str (rstrip_chars (chars s)).
(** [s.lstrip(' ')] and [s.rstrip('\n')] *)
Definition lstrip_blank (s : string) : string := str (drop_while (Ascii.eqb " ") (chars s)).
Definition rstrip_newline (s : string) : string := str (rev (drop_while (Ascii.eqb LF) (rev (chars s)))).
Definition newline : string := str [LF].
(** The leading spaces: [s[:len(s) - len(s.lstrip(' '))]]. *)
Definition indent_of (s : string) : string := take_str (len s - len (lstrip_blank s)) s.

(** [len(s.encode())] *)
Definition byte_length (s : string) : Z := Z.of_nat (len (utf8_encode s)).
Definition length_of (s : string) : Z := Z.of_nat (len s).
(** [all(c not in s for c in cs)] *)
Definition has_none_of (cs : list ascii) (s : string) : bool :=
  forallb (fun c => negb (existsb (Ascii.eqb c) (chars s))) cs.

(** ** [json.dumps] with its default separators *)

Section Spaced.
Context (escape : ascii → list ascii).
Definition spaced_string (s : string) : list ascii := json_string_with escape s.
Fixpoint spaced (v : json) : list ascii :=
  match v with
  | JList items =>
      "["%char ::
      (fix go (l : list json) : list ascii :=
         match l with
         | [] => ["]"%char]
         | [x] => spaced x ++ ["]"%char]
         | x :: l' => spaced x ++ ","%char :: " "%char :: go l'
         end) items
  | JObj members =>
      "{"%char ::
      (fix go (ms : list (string * json)) : list ascii :=
         match ms with
         | [] => ["}"%char]
         | [(k, x)] => spaced_string k ++ ":"%char :: " "%char :: spaced x ++ ["}"%char]
         | (k, x) :: ms' =>
             spaced_string k ++ ":"%char :: " "%char :: spaced x ++ ","%char :: " "%char :: go ms'
         end) members
  | _ => dumps_with escape v
  end.
End Spaced.
(** [json.dumps(v)] and [json.dumps(v, ensure_ascii=False)] *)
Definition json_dumps (v : json) : string := str (spaced escape_ascii v).
Definition json_dumps_text (v : json) : string := str (spaced escape_char v).

(** ** Lemmas *)

Lemma concat_text_app l k : concat_text (l ++ k) = (concat_text l ++ concat_text k)%string.
Proof.
  apply chars_inj. unfold concat_text. by rewrite chars_app, !chars_str, flat_map_app.
Qed.
Lemma concat_text_cons s l : concat_text (s :: l) = (s ++ concat_text l)%string.
Proof. apply chars_inj. unfold concat_text. by rewrite chars_app, !chars_str. Qed.

Lemma split_lines_concat n l : (length l ≤ n)%nat → ∀ cur, concat (split_lines cur l) = rev cur ++ l.
Proof.
  revert l. induction n as [|n IH]; intros [|c l] Hn cur; cbn in Hn; try lia.
  1, 2: by destruct cur; cbn; rewrite ?app_nil_r.
  cbn [split_lines]. destruct (Ascii.eqb c CR).
  - destruct l as [|d l]; [by cbn; rewrite app_nil_r|].
    destruct (Ascii.eqb d LF); cbn [concat]; rewrite IH by (cbn in *; lia); cbn; by rewrite <- !app_assoc.
  - destruct (is_break c); [cbn [concat]|]; rewrite IH by lia; cbn; by rewrite <- !app_assoc.
Qed.
(** The lines of a text are the text. *)
Lemma splitlines_keep_concat s : concat_text (splitlines_keep s) = s.
Proof.
  apply chars_inj. unfold concat_text, splitlines_keep. rewrite chars_str, flat_map_concat_map, map_map.
  rewrite (map_ext _ (fun x => x)) by (intros; apply chars_str). rewrite map_id.
  by rewrite (split_lines_concat (length (chars s))).
Qed.

Lemma starts_with_app p s : starts_with p (p ++ s)%string = true.
Proof.
  induction p as [|c p IH]; [done|]. change (String c p ++ s)%string with (String c (p ++ s)). cbn [starts_with].
  by rewrite Ascii.eqb_refl.
Qed.
