(* ===== verification/PyAst.v ===== *)
(** Syntax trees of the language, as its module [ast] builds them, and the
    services of the language that the editing of source code relies on.

    A node has its class, its position, its atomic fields and its other
    fields, each a list of nodes: a field that holds one node is a list of
    one, an absent node is an empty list and a [None] inside a list is
    [None]. *)
From Stdlib Require Import Ascii String.
From stdpp Require Import strings.
From S2P Require Import Prelude PyStr Json PyVal.

Local Open Scope Z_scope.

(** The value of a constant: of a JSON type other than the floats; a float,
    with whether it is finite and at most a million in magnitude; another. *)
Inductive const : Type := c_json (v : json) | c_float (bounded : bool) | c_other.
Inductive atom : Type := a_text (s : string) | a_const (c : const) | a_int (n : Z).
Record position := at_position { lineno : nat; col_offset : Z; end_lineno : nat }.

Local Unset Elimination Schemes.
Inductive node : Type :=
  | Node (cls : string) (pos : position) (atoms : list (string * atom)) (fields : list (string * list (option node))).
Local Set Elimination Schemes.

Definition cls_of (n : node) : string := match n with Node c _ _ _ => c end.
Definition pos_of (n : node) : position := match n with Node _ p _ _ => p end.
Definition atoms_of (n : node) : list (string * atom) := match n with Node _ _ a _ => a end.
Definition fields_of (n : node) : list (string * list (option node)) := match n with Node _ _ _ f => f end.
(** [type(n) is cls] *)
Definition is_node (cls : string) (n : node) : bool := String.eqb (cls_of n) cls.

Definition text_atom (k : string) (n : node) : string :=
  match lookup_key k (atoms_of n) with Some (a_text s) => s | _ => "" end.
Definition const_of (n : node) : const :=
  match lookup_key "value" (atoms_of n) with Some (a_const c) => c | _ => c_other end.
Definition int_atom (k : string) (n : node) : Z :=
  match lookup_key k (atoms_of n) with Some (a_int z) => z | _ => 0 end.
Definition entries (k : string) (n : node) : list (option node) :=
  match lookup_key k (fields_of n) with Some l => l | None => [] end.
(** The nodes of a field, and the node of a field that has at most one. *)
Definition nodes (k : string) (n : node) : list node := omap id (entries k n).
Definition subnode (k : string) (n : node) : option node := head (nodes k n).
Definition absent (k : string) (n : node) : bool := match entries k n with [] => true | _ => false end.
(** [p(n.k)] for the node of a field. *)
Definition sub_that (k : string) (p : node → bool) (n : node) : bool :=
  match subnode k n with Some m => p m | None => false end.

(** [ast.iter_child_nodes] *)
Definition children (n : node) : list node := omap id (flat_map snd (fields_of n)).

Section Induction.
Context (P : node → Prop)
  (HN : ∀ cls pos atoms fields,
     Forall (fun f => Forall (fun o => match o with Some m => P m | None => True end) f.2) fields →
     P (Node cls pos atoms fields)).
Fixpoint node_ind (n : node) : P n :=
  match n with
  | Node cls pos atoms fields =>
      HN cls pos atoms fields
        ((fix go (fs : list (string * list (option node))) :
            Forall (fun f => Forall (fun o => match o with Some m => P m | None => True end) f.2) fs :=
            match fs with
            | [] => Forall_nil_2 _
            | (k, l) :: fs' =>
                Forall_cons_2 _ (k, l) fs'
                  ((fix each (l : list (option node)) :
                      Forall (fun o => match o with Some m => P m | None => True end) l :=
                      match l with
                      | [] => Forall_nil_2 _
                      | Some m :: l' => Forall_cons_2 _ (Some m) l' (node_ind m) (each l')
                      | None :: l' => Forall_cons_2 _ None l' I (each l')
                      end) l)
                  (go fs')
            end) fields)
  end.
End Induction.

(** The same with the children. *)
Lemma node_children_ind (P : node → Prop) :
  (∀ n, (∀ m, m ∈ children n → P m) → P n) → ∀ n, P n.
Proof.
  intros H n. induction n as [cls pos atoms fields IH] using node_ind. apply H. intros m Hm.
  unfold children in Hm. cbn [fields_of] in Hm.
  apply list_elem_of_omap in Hm as (o & Ho & E). cbn in E. subst o.
  apply list_elem_of_In, in_flat_map in Ho as ([k l] & Hf & Hl). cbn in Hl.
  rewrite Forall_forall in IH. specialize (IH _ Hf). cbn in IH.
  rewrite Forall_forall in IH. apply (IH _ Hl).
Qed.

(** Every level of the tree, the root first; [ast.walk] visits them in turn. *)
Fixpoint join_levels {A} (a b : list (list A)) : list (list A) :=
  match a, b with
  | [], _ => b
  | _, [] => a
  | x :: a', y :: b' => (x ++ y) :: join_levels a' b'
  end.
Fixpoint levels (n : node) : list (list node) :=
  match n with
  | Node _ _ _ fields =>
      [n] :: foldr (fun f acc =>
               foldr (fun o acc => match o with Some m => join_levels (levels m) acc | None => acc end) acc f.2)
             [] fields
  end.
Definition walk (n : node) : list node := concat (levels n).

(** [within n k]: [k] is [n] or below it. *)
Inductive within (n : node) : node → Prop :=
  | within_self : within n n
  | within_child m k : m ∈ children n → within m k → within n k.

(** *** What the code takes from the language *)

(** [ast.parse(s)], the body of [ast.parse(s, mode="eval")], [ast.unparse],
    [ast.dump(n, include_attributes=False)], [json.loads] and
    [b.decode("utf-8")]; failures raise the classes of the library. *)
Class Language := {
  ast_parse : string → res node;
  ast_parse_eval : string → res node;
  ast_unparse : node → string;
  ast_dump : node → string;
  repr_text : string → string;
  json_loads : string → res json;
  utf8_decode : string → res string }.
Definition syntax_failure (e : exn) : bool :=
  match e with
  | Error c _ => String.eqb c "SyntaxError" || String.eqb c "RecursionError"
  | ValueError _ => true
  | _ => false
  end.
(** [except ValueError] of a decoder. *)
Definition value_failure (e : exn) : bool := match e with ValueError _ => true | _ => false end.
