(* ===== verification/Structured.v ===== *)
(** The structured code worker, [app/structured_code_worker.py], up to its
    validator: the trusted task, the guard on the syntax tree of a candidate,
    the assembly of the repaired module, the observations, the report of the
    child process and the feedback to the model.

    The parser of the language is [Language]; the child process is an external
    call of [Repair].  A decoded number is an integer. *)
From Stdlib Require Import Ascii String.
From stdpp Require Import strings.
From S2P Require Import Prelude PyStr Sha256 Json PyVal PyText PyAst Names.

Local Open Scope string_scope.
Local Open Scope Z_scope.

Definition BUILTINS : list string := ["isinstance"; "str"; "dict"; "list"; "len"; "bool"; "int"; "float"].
Definition METHODS : list string := ["get"; "strip"; "join"; "append"].
Definition NODES : list string :=
  ["Module"; "FunctionDef"; "arguments"; "arg"; "If"; "For"; "Return"; "Assign"; "Expr"; "Call"; "Attribute"; "Name";
   "Load"; "Store"; "Constant"; "List"; "Tuple"; "Dict"; "Compare"; "Eq"; "NotEq"; "Is"; "IsNot"; "In"; "NotIn";
   "BoolOp"; "And"; "Or"; "UnaryOp"; "Not"; "IfExp"; "BinOp"; "Add"; "GeneratorExp"; "comprehension"].

(** [StructuredBlocked(code)] and [need] *)
Definition blocked (code : string) : exn := Error "StructuredBlocked" code.
Definition is_blocked (e : exn) : bool := match e with Error c _ => String.eqb c "StructuredBlocked" | _ => false end.
Definition need (ok : bool) (code : string) : res unit := if ok then Ok tt else Raise (blocked code).
Definition sha256_of (s : string) : string := sha256_hex (utf8_encode s).

Fixpoint each {A} (f : A → res unit) (l : list A) : res unit :=
  match l with [] => Ok tt | x :: l' => f x ;; each f l' end.

Fixpoint json_value (depth : Z) (value : json) : res unit :=
  need (depth <=? 8) "json_depth" ;;
  match value with
  | JObj members =>
      need ((length members <=? 64)%nat && forallb (fun m => length_of m.1 <=? 128) members) "json_object" ;;
      (fix go (ms : list (string * json)) : res unit :=
         match ms with [] => Ok tt | (_, x) :: ms' => json_value (depth + 1) x ;; go ms' end) members
  | JList items =>
      need (length items <=? 64)%nat "json_array" ;;
      (fix go (l : list json) : res unit :=
         match l with [] => Ok tt | x :: l' => json_value (depth + 1) x ;; go l' end) items
  | JStr s => need (length_of s <=? 4096) "json_string"
  | JInt n => need (Z.abs n <=? 1000000) "json_number"
  | JBool _ | JNull => Ok tt
  end.

(** ** The trusted task *)

Module Case.
Record t := mk { args : list json; expected : json; raw : json }.
End Case.
Module Task.
Record t := mk {
  task_id : string; path : string; function : string; parameters : list string; instruction : string;
  base_sha : string; before_sha256 : string; cases : list Case.t; raw : json }.
End Task.

Definition TASK_FIELDS : list string :=
  ["task_id"; "path"; "function"; "parameters"; "instruction"; "base_sha"; "before_sha256"; "cases"].
Definition word_char : ascii → bool := either is_lower (either is_digit (one_of "_")).
Definition TASK_ID : re := Rep 1 (Some 128%nat) (Chr (either alnum (one_of "_-"))).
Definition MODULE_PATH : re :=
  Cat (Alt (lit "app") (lit "src")) (Cat (lit "/") (Cat (Chr is_lower) (Cat (Rep 0 (Some 60%nat) (Chr word_char)) (lit ".py")))).
Definition FUNCTION_NAME : re :=
  Cat (Rep 0 (Some 1%nat) (lit "_")) (Cat (Chr is_lower) (Rep 0 (Some 60%nat) (Chr word_char))).
Definition PARAMETER : re := Cat (Chr is_lower) (Rep 0 (Some 40%nat) (Chr word_char)).
Definition HEX64 : re := times 64 hex_lower.

Definition disjoint (l k : list string) : bool := forallb (fun x => negb (bool_decide (x ∈ k))) l.
(** A member of the task that is a text of the given form. *)
Definition text_member (r : re) (key : string) (task : json) : res string :=
  match item key task with
  | Ok (JStr s) => need (fullmatch r s) (String.append "task_" key) ;; Ok s
  | _ => Raise (blocked (String.append "task_" key))
  end.
Definition list_member (key code : string) (v : json) : res (list json) :=
  match item key v with Ok (JList l) => Ok l | _ => Raise (blocked code) end.
Definition has_exactly (fields : list string) (v : json) : bool :=
  match v with JObj ms => same_set (keys ms) fields | _ => false end.

Definition parse_case (arity : nat) (case : json) : res Case.t :=
  need (has_exactly ["args"; "expected"] case) "task_case" ;;
  args ← list_member "args" "task_case" case;
  need (length args =? arity)%nat "task_case" ;;
  json_value 0 case ;;
  expected ← item "expected" case;
  Ok (Case.mk args expected case).
Fixpoint parse_cases (arity : nat) (l : list json) : res (list Case.t) :=
  match l with
  | [] => Ok []
  | x :: l' => c ← parse_case arity x; cs ← parse_cases arity l'; Ok (c :: cs)
  end.

(** [task_spec]: the task is returned with its members read. *)
Definition task_spec (task : json) : res Task.t :=
  need (has_exactly TASK_FIELDS task) "task_schema" ;;
  task_id ← text_member TASK_ID "task_id" task;
  path ← text_member MODULE_PATH "path" task;
  function ← text_member FUNCTION_NAME "function" task;
  base_sha ← text_member SHA40 "base_sha" task;
  before_sha256 ← text_member HEX64 "before_sha256" task;
  raw_parameters ← list_member "parameters" "task_parameters" task;
  need ((1 <=? length raw_parameters) && (length raw_parameters <=? 4))%nat "task_parameters" ;;
  parameters ← match strs raw_parameters with Some l => Ok l | None => Raise (blocked "task_parameters") end;
  need (forallb (fullmatch PARAMETER) parameters && bool_decide (NoDup parameters) && disjoint parameters BUILTINS)
    "task_parameters" ;;
  need (negb (bool_decide (function ∈ BUILTINS))) "reserved_function" ;;
  instruction ← match item "instruction" task with Ok (JStr s) => Ok s | _ => Raise (blocked "task_instruction") end;
  need ((1 <=? length_of instruction) && (length_of instruction <=? 4000)) "task_instruction" ;;
  raw_cases ← list_member "cases" "task_cases" task;
  need ((2 <=? length raw_cases) && (length raw_cases <=? 100))%nat "task_cases" ;;
  cases ← parse_cases (length parameters) raw_cases;
  need (length_of (json_dumps task) <=? 100000) "task_size" ;;
  Ok (Task.mk task_id path function parameters instruction base_sha before_sha256 cases task).

(** ** The function of a module, and the guard *)

Section Language.
Context {py : Language}.

(** [try: ast.parse(s)  except (...): raise StructuredBlocked(code)] *)
Definition parse_or (code s : string) : res node :=
  match ast_parse s with
  | Raise e => Raise (if syntax_failure e then blocked code else e)
  | r => r
  end.

Definition named_function (name : string) (n : node) : bool :=
  is_node "FunctionDef" n && String.eqb (text_atom "name" n) name.
Definition function_tree (source name : string) : res node :=
  need (byte_length source <=? 262144) "module_size" ;;
  tree ← parse_or "module_syntax" source;
  match List.filter (named_function name) (nodes "body" tree) with
  | [f] => need (absent "decorator_list" f) "function_decorator" ;; Ok f
  | _ => Raise (blocked "function_identity")
  end.

(** The parameters as an [arguments] node, and the plain signature. *)
Definition arguments_of (f : node) : node :=
  match subnode "args" f with Some a => a | None => Node "arguments" (at_position 0 0 0) [] [] end.
Definition plain_signature (parameters : list string) (f : node) : bool :=
  let a := arguments_of f in
  bool_decide (map (text_atom "arg") (nodes "args" a) = parameters) &&
  absent "defaults" a && absent "kwonlyargs" a && absent "posonlyargs" a &&
  absent "vararg" a && absent "kwarg" a && absent "type_params" f.

(** [n.k = None] for one node, and for every node of a field. *)
Definition without (k : string) (n : node) : node :=
  match n with
  | Node c p a fs => Node c p a (map (fun f => if String.eqb f.1 k then (f.1, []) else f) fs)
  end.
Definition in_field (k : string) (g : node → node) (n : node) : node :=
  match n with
  | Node c p a fs =>
      Node c p a (map (fun f => if String.eqb f.1 k then (f.1, map (fmap g) f.2) else f) fs)
  end.
Definition without_annotations (f : node) : node :=
  in_field "args" (in_field "args" (without "annotation")) (without "returns" f).

Definition extracted (source : string) (t : Task.t) : res string :=
  f ← function_tree source (Task.function t);
  need (plain_signature (Task.parameters t) f) "function_signature" ;;
  Ok (String.append (ast_unparse (without_annotations f)) newline).

(** What [guarded] asks of one node. *)
Definition one_name (k : string) (n : node) : bool := sub_that k (is_node "Name") n.
Definition allowed_call (n : node) : bool :=
  sub_that "func" (fun f =>
    (is_node "Name" f && bool_decide (text_atom "id" f ∈ BUILTINS)) ||
    (is_node "Attribute" f && bool_decide (text_atom "attr" f ∈ METHODS))) n.
Definition check_const (n : node) : res unit :=
  match const_of n with
  | c_json v => json_value 0 v
  | c_float bounded => need bounded "json_number"
  | c_other => Raise (blocked "json_type")
  end.
Definition when (c : bool) (m : res unit) : res unit := if c then m else Ok tt.
Definition check_node (function : string) (n : node) : res unit :=
  when (is_node "Name" n)
    (need (negb (starts_with "__" (text_atom "id" n))) "candidate_name" ;;
     when (sub_that "ctx" (is_node "Store") n)
       (need (negb (bool_decide (text_atom "id" n ∈ BUILTINS)) && negb (String.eqb (text_atom "id" n) function))
          "reserved_assignment")) ;;
  when (is_node "Assign" n)
    (need ((length (entries "targets" n) =? 1)%nat && one_name "targets" n) "assignment_target") ;;
  when (is_node "For" n) (need (one_name "target" n && absent "orelse" n) "loop_target") ;;
  when (is_node "comprehension" n) (need (one_name "target" n && (int_atom "is_async" n =? 0)) "generator_target") ;;
  when (is_node "Call" n)
    (need (absent "keywords" n && forallb (fun a => negb (is_node "Starred" a)) (nodes "args" n)) "call_expansion" ;;
     need (allowed_call n) "candidate_call") ;;
  when (is_node "Attribute" n)
    (need (bool_decide (text_atom "attr" n ∈ METHODS) && sub_that "ctx" (is_node "Load") n) "candidate_attribute") ;;
  when (is_node "Dict" n)
    (need (forallb (fun o => match o with Some _ => true | None => false end) (entries "keys" n))
       "dictionary_expansion") ;;
  when (is_node "Constant" n) (check_const n).

(** The stack of the loop: a node, then its children from the last. *)
Fixpoint visit (function : string) (depth : Z) (n : node) : res unit :=
  need (depth <=? 24) "candidate_depth" ;;
  check_node function n ;;
  match n with
  | Node _ _ _ fields =>
      foldr (fun f later =>
        later ;;
        foldr (fun o later => later ;; match o with Some m => visit function (depth + 1) m | None => Ok tt end)
          (Ok tt) f.2) (Ok tt) fields
  end.

Definition count (p : node → bool) (l : list node) : nat := length (List.filter p l).
Definition guarded (source : string) (t : Task.t) : res node :=
  normalized ← extracted source t;
  tree ← ast_parse normalized;
  let nodes := walk tree in
  need ((length nodes <=? 350)%nat && forallb (fun n => bool_decide (cls_of n ∈ NODES)) nodes) "candidate_grammar" ;;
  need (count (is_node "FunctionDef") nodes =? 1)%nat "nested_function" ;;
  need (count (fun n => is_node "For" n || is_node "comprehension" n) nodes <=? 1)%nat "candidate_loops" ;;
  visit (Task.function t) 0 tree ;;
  Ok tree.

(** ** The repaired module *)

(** [json.loads(reply)["function"]] of a reply in the closed schema. *)
Definition reply_function (reply : json) : res string :=
  match reply with
  | JStr text =>
      need (byte_length text <=? 20000) "reply_size" ;;
      proposed ← match json_loads text with
                 | Raise e => Raise (if value_failure e then blocked "reply_json" else e)
                 | r => r
                 end;
      need (has_exactly ["function"] proposed) "reply_schema" ;;
      match item "function" proposed with Ok (JStr s) => Ok s | _ => Raise (blocked "reply_schema") end
  | _ => Raise (blocked "reply_size")
  end.

(** [lines[i]] and the parts of the module around the function. *)
Definition line_at (lines : list string) (i : nat) : res string :=
  match lines !! i with Some l => Ok l | None => Raise (Error "IndexError" "list index out of range") end.
Definition replacement (header : string) (candidate : node) : string :=
  String.append header (String.append (rstrip_newline (concat_text (tail (splitlines_keep (ast_unparse candidate))))) newline).
Definition assemble (lines : list string) (original : node) (header : string) (candidate : node) : string :=
  String.append (concat_text (take (lineno (pos_of original) - 1) lines))
    (String.append (replacement header candidate) (concat_text (drop (end_lineno (pos_of original)) lines))).
Definition one_line_header (header : string) : bool :=
  ends_with ":" (rstrip header) && starts_with "def " (lstrip header).

Definition render (before : string) (task reply : json) : res string :=
  t ← task_spec task;
  proposed ← reply_function reply;
  tree ← parse_or "candidate_syntax" proposed;
  need (match entries "body" tree with [Some f] => is_node "FunctionDef" f | _ => false end) "candidate_function_only" ;;
  guarded_tree ← guarded proposed t;
  candidate ← match nodes "body" guarded_tree with
              | f :: _ => Ok f | [] => Raise (Error "IndexError" "list index out of range") end;
  original ← function_tree before (Task.function t);
  reviewed ← extracted before t;
  let lines := splitlines_keep before in
  header ← line_at lines (lineno (pos_of original) - 1);
  need (one_line_header header) "multiline_signature_not_supported" ;;
  let after := assemble lines original header candidate in
  parsed ← ast_parse after;
  Ok after.

(** [candidate_fingerprint] *)
Definition candidate_fingerprint (source : string) (t : Task.t) : res string :=
  tree ← guarded source t; Ok (sha256_of (ast_dump tree)).
End Language.

(** ** Observations and reports *)

Definition OBSERVATION_TYPES : list string := ["NoneType"; "str"; "bool"; "int"; "float"; "list"; "dict"].
Definition EXCEPTION_TYPES : list string :=
  ["AttributeError"; "TypeError"; "ValueError"; "KeyError"; "IndexError"; "NameError"; "UnboundLocalError";
   "OverflowError"; "RuntimeError"; "RecursionError"; "MemoryError"; "InvalidResult"; "Exception"].
Definition FEEDBACK_LIMIT : Z := 12000.
(** [type(v).__name__] *)
Definition type_name (v : json) : string :=
  match v with
  | JNull => "NoneType" | JBool _ => "bool" | JInt _ => "int" | JStr _ => "str" | JList _ => "list" | JObj _ => "dict"
  end.
Definition same_type (v w : json) : bool := String.eqb (type_name v) (type_name w).

Definition observation (value : json) : res json :=
  json_value 0 value ;;
  let text := json_dumps_text (sort_all value) in
  Ok (if 512 <? byte_length text
      then JObj [("kind", JStr "value"); ("type", JStr (type_name value)); ("truncated", JBool true);
                 ("bytes", JInt (byte_length text)); ("sha256", JStr (sha256_of text))]
      else JObj [("kind", JStr "value"); ("type", JStr (type_name value)); ("value", value)]).

(** A member of an object, [None] when it is absent. *)
Definition value_of (k : string) (v : json) : option json :=
  match v with JObj ms => lookup_key k ms | _ => None end.
Definition member_that (k : string) (p : json → bool) (v : json) : bool :=
  match value_of k v with Some x => p x | None => false end.
Definition has_member (k : string) (v : json) : bool := member_that k (fun _ => true) v.
Definition line_number : json → bool := int_that (fun n => (1 <=? n) && (n <=? 400)).
Definition one_of_texts (l : list string) : json → bool := str_that (fun s => bool_decide (s ∈ l)).

Definition validate_observation (value : json) : res unit :=
  need (is_dict value) "observation_schema" ;;
  if member_that "kind" (fun k => is_text k "exception") value then
    let has_line := has_member "candidate_line" value in
    need (has_exactly (if has_line then ["kind"; "type"; "candidate_line"] else ["kind"; "type"]) value &&
          member_that "type" (one_of_texts EXCEPTION_TYPES) value &&
          (negb has_line || member_that "candidate_line" line_number value)) "observation_exception"
  else
    need (member_that "kind" (fun k => is_text k "value") value && member_that "type" (one_of_texts OBSERVATION_TYPES) value)
      "observation_type" ;;
    match value_of "value" value with
    | Some v =>
        need (has_exactly ["kind"; "type"; "value"] value && member_that "type" (fun t => is_text t (type_name v)) value)
          "observation_value" ;;
        seen ← observation v;
        need (py_eqb seen value) "observation_size"
    | None =>
        need (has_exactly ["kind"; "type"; "truncated"; "bytes"; "sha256"] value &&
              member_that "truncated" is_true value && member_that "bytes" (int_that (fun n => 512 <? n)) value &&
              member_that "sha256" (str_that (fullmatch HEX64)) value) "observation_digest"
    end.

(** A report of the validator, its members read. *)
Module Report.
Record t := mk { passed : Z; total : Z; errors : Z; failures : list (Z * json); raw : json }.
End Report.
Definition int_member (k code : string) (v : json) : res Z :=
  match value_of k v with Some (JInt n) => Ok n | _ => Raise (blocked code) end.
(** [indices == sorted(set(indices))] *)
Fixpoint increasing (l : list Z) : bool :=
  match l with
  | a :: (b :: _) as l' => (a <? b) && increasing l'
  | _ => true
  end.
Definition is_exception (f : Z * json) : bool := member_that "kind" (fun k => is_text k "exception") f.2.
Definition case_at (t : Task.t) (i : Z) : option Case.t := Task.cases t !! Z.to_nat i.

Definition validate_failure (t : Task.t) (total : Z) (failure : json) : res (Z * json) :=
  need (has_exactly ["case_index"; "observed"] failure) "validator_case" ;;
  index ← int_member "case_index" "validator_case" failure;
  need ((0 <=? index) && (index <? total)) "validator_case" ;;
  observed ← item "observed" failure;
  validate_observation observed ;;
  match value_of "value" observed, case_at t index with
  | Some v, Some case =>
      need (negb (same_type v (Case.expected case)) || negb (py_eqb v (Case.expected case))) "validator_false_failure"
  | _, _ => Ok tt
  end ;;
  Ok (index, observed).
Fixpoint validate_failures (t : Task.t) (total : Z) (l : list json) : res (list (Z * json)) :=
  match l with
  | [] => Ok []
  | x :: l' => f ← validate_failure t total x; fs ← validate_failures t total l'; Ok (f :: fs)
  end.

Definition validate_report (evidence : json) (t : Task.t) : res Report.t :=
  need (has_exactly ["passed"; "total"; "errors"; "failures"] evidence) "validator_evidence" ;;
  passed ← int_member "passed" "validator_counts" evidence;
  total ← int_member "total" "validator_counts" evidence;
  errors ← int_member "errors" "validator_counts" evidence;
  need ((total =? Z.of_nat (length (Task.cases t))) && (0 <=? passed) && (passed <=? total) &&
        (0 <=? errors) && (errors <=? total - passed)) "validator_counts" ;;
  raw ← list_member "failures" "validator_failures" evidence;
  need (Z.of_nat (length raw) =? total - passed) "validator_failures" ;;
  failures ← validate_failures t total raw;
  need (increasing (map fst failures)) "validator_case_order" ;;
  need (Z.of_nat (length (List.filter is_exception failures)) =? errors) "validator_error_count" ;;
  Ok (Report.mk passed total errors failures evidence).

(** ** Feedback *)

(** [{k: v for k, v in proposal.items() if k != "feedback"}] *)
Definition without_key (k : string) (v : json) : json :=
  match v with JObj ms => JObj (List.filter (fun m => negb (String.eqb m.1 k)) ms) | _ => v end.
Definition FEEDBACK_FIELDS : list string := ["schema_version"; "candidate_sha256"; "failed_count"; "failures"].
Definition check_feedback_failure (t : Task.t) (failure : json) : res Z :=
  need (has_exactly ["case_index"; "args"; "expected"; "observed"] failure) "feedback_case" ;;
  index ← int_member "case_index" "feedback_case" failure;
  need ((0 <=? index) && (index <? Z.of_nat (length (Task.cases t)))) "feedback_case" ;;
  args ← item "args" failure; expected ← item "expected" failure; observed ← item "observed" failure;
  match case_at t index with
  | Some case =>
      need (String.eqb (json_dumps (sort_all (JObj [("args", args); ("expected", expected)])))
              (json_dumps (sort_all (Case.raw case)))) "feedback_case_changed"
  | None => Ok tt
  end ;;
  validate_observation observed ;;
  Ok index.
Fixpoint check_feedback_failures (t : Task.t) (l : list json) : res (list Z) :=
  match l with
  | [] => Ok []
  | x :: l' => i ← check_feedback_failure t x; rest ← check_feedback_failures t l'; Ok (i :: rest)
  end.

Definition proposal_spec (proposal : json) : res Task.t :=
  need (is_dict proposal) "proposal_schema" ;;
  t ← task_spec (without_key "feedback" proposal);
  match value_of "feedback" proposal with
  | None => Ok t
  | Some feedback =>
      let total := Z.of_nat (length (Task.cases t)) in
      need (has_exactly FEEDBACK_FIELDS feedback && member_that "schema_version" (int_that (fun n => n =? 1)) feedback &&
            member_that "candidate_sha256" (str_that (fullmatch HEX64)) feedback &&
            member_that "failed_count" (int_that (fun n => (1 <=? n) && (n <=? total))) feedback) "feedback_schema" ;;
      failed_count ← int_member "failed_count" "feedback_schema" feedback;
      failures ← list_member "failures" "feedback_failures" feedback;
      need ((1 <=? Z.of_nat (length failures)) && (Z.of_nat (length failures) <=? Z.min 8 failed_count))
        "feedback_failures" ;;
      indices ← check_feedback_failures t failures;
      need (increasing indices) "feedback_case_order" ;;
      need (byte_length (json_dumps_text feedback) <=? FEEDBACK_LIMIT) "feedback_size" ;;
      Ok t
  end.

(** The entries of the feedback, as many as fit. *)
Definition feedback_value (digest : string) (failed_count : Z) (entries : list json) : json :=
  JObj [("schema_version", JInt 1); ("candidate_sha256", JStr digest); ("failed_count", JInt failed_count);
        ("failures", JList entries)].
Definition feedback_entry (t : Task.t) (f : Z * json) : json :=
  match case_at t f.1 with
  | Some case =>
      JObj ([("case_index", JInt f.1)] ++ match Case.raw case with JObj ms => ms | _ => [] end ++ [("observed", f.2)])%list
  | None => JNull
  end.
Fixpoint fit_entries (t : Task.t) (digest : string) (failed_count : Z) (taken : list json) (l : list (Z * json)) : list json :=
  match l with
  | [] => taken
  | f :: l' =>
      let trial := (taken ++ [feedback_entry t f])%list in
      if FEEDBACK_LIMIT <? byte_length (json_dumps_text (feedback_value digest failed_count trial)) then taken
      else fit_entries t digest failed_count trial l'
  end.
(** [{**task, "feedback": feedback}] *)
Definition with_feedback (task feedback : json) : json :=
  match task with JObj ms => JObj (set_key "feedback" feedback ms) | _ => task end.

Definition semantic_feedback {py : Language} (task : json) (t : Task.t) (source : string) (report : json) : res json :=
  r ← validate_report report t;
  need (negb (bool_decide (Report.failures r = []))) "semantic_feedback_missing" ;;
  digest ← candidate_fingerprint source t;
  let failed_count := Z.of_nat (length (Report.failures r)) in
  let feedback := feedback_value digest failed_count (fit_entries t digest failed_count [] (take 8 (Report.failures r))) in
  checked ← proposal_spec (with_feedback task feedback);
  Ok feedback.

(** ** The child process *)

(** What one call of the candidate does: it returns a JSON value or another
    object, or raises an exception of a class, at a line when the traceback
    names one of the candidate. *)
Inductive Outcome : Type := o_value (v : json) | o_object | o_raise (cls : string) (line : option Z).
Definition exception_observed (cls : string) (line : option Z) : json :=
  JObj ([("kind", JStr "exception"); ("type", JStr (if bool_decide (cls ∈ EXCEPTION_TYPES) then cls else "Exception"))] ++
        match line with
        | Some n => if (1 <=? n) && (n <=? 400) then [("candidate_line", JInt n)] else []
        | None => []
        end)%list.
(** The case passes, or what was observed of it. *)
Definition run_case (o : Outcome) (expected : json) : option (bool * json) :=
  match o with
  | o_value v =>
      match json_value 0 v with
      | Ok _ =>
          if same_type v expected && py_eqb v expected then None
          else match observation v with
               | Ok seen => Some (false, seen)
               | Raise _ => Some (true, exception_observed "InvalidResult" None)
               end
      | Raise _ => Some (true, exception_observed "InvalidResult" None)
      end
  | o_object => Some (true, exception_observed "InvalidResult" None)
  | o_raise cls line => Some (true, exception_observed cls line)
  end.

Section Child.
Context (call_candidate : list json → Outcome).
Fixpoint run_cases (index : Z) (cases : list Case.t) : Z * Z * list json :=
  match cases with
  | [] => (0, 0, [])
  | case :: cases' =>
      let '(passed, errors, failures) := run_cases (index + 1) cases' in
      match run_case (call_candidate (Case.args case)) (Case.expected case) with
      | None => (passed + 1, errors, failures)
      | Some (error, observed) =>
          (passed, errors + Z.b2z error,
           JObj [("case_index", JInt index); ("observed", observed)] :: failures)
      end
  end.
(** The report that [_validate_child] prints, once its input passed the
    guard. *)
Definition child_report (t : Task.t) : json :=
  let '(passed, errors, failures) := run_cases 0 (Task.cases t) in
  JObj [("passed", JInt passed); ("total", JInt (Z.of_nat (length (Task.cases t)))); ("errors", JInt errors);
        ("failures", JList failures)].
End Child.
