(* ===== verification/StructuredProps.v ===== *)
(** Properties of the structured code worker: what the guard admits, what the
    assembly changes, and that parent and child agree on a report. *)
From Stdlib Require Import Ascii String.
From stdpp Require Import strings list sets.
From S2P Require Import Prelude PyStr Sha256 Json PyVal PyText PyAst Names Structured.

Local Open Scope Z_scope.

(** ** Results *)

Lemma need_ok c code u : need c code = Ok u ↔ c = true.
Proof. destruct c, u; cbn; naive_solver. Qed.
Lemma bind_res_ok {A B} (r : res A) (f : A → res B) b :
  (x ← r; f x) = Ok b ↔ ∃ a, r = Ok a ∧ f a = Ok b.
Proof. destruct r; cbn; naive_solver. Qed.
Lemma when_ok c m : when c m = Ok tt → c = true → m = Ok tt.
Proof. by intros H ->. Qed.

(** ** Values: every object has each of its keys once *)

Fixpoint wf_json (v : json) : Prop :=
  match v with
  | JList items => (fix go (l : list json) : Prop := match l with [] => True | x :: l' => wf_json x ∧ go l' end) items
  | JObj ms =>
      NoDup (keys ms) ∧
      (fix go (ms : list (string * json)) : Prop := match ms with [] => True | m :: ms' => wf_json m.2 ∧ go ms' end) ms
  | _ => True
  end.

Section JsonInd.
Context (P : json → Prop) (H0 : P JNull) (Hb : ∀ b, P (JBool b)) (Hi : ∀ n, P (JInt n)) (Hs : ∀ s, P (JStr s))
  (Hl : ∀ l, Forall P l → P (JList l)) (Ho : ∀ ms, Forall (fun m => P m.2) ms → P (JObj ms)).
Fixpoint json_values_ind (v : json) : P v :=
  match v with
  | JNull => H0 | JBool b => Hb b | JInt n => Hi n | JStr s => Hs s
  | JList l =>
      Hl l ((fix go (l : list json) : Forall P l :=
               match l with [] => Forall_nil_2 _ | x :: l' => Forall_cons_2 _ x l' (json_values_ind x) (go l') end) l)
  | JObj ms =>
      Ho ms ((fix go (ms : list (string * json)) : Forall (fun m => P m.2) ms :=
                match ms with
                | [] => Forall_nil_2 _
                | m :: ms' => Forall_cons_2 (fun m => P m.2) m ms' (json_values_ind m.2) (go ms')
                end) ms)
  end.
End JsonInd.

Lemma lookup_key_nodup {A} (ms : list (string * A)) k x : NoDup (keys ms) → (k, x) ∈ ms → lookup_key k ms = Some x.
Proof.
  unfold lookup_key, keys. induction ms as [|[k' y] ms IH]; cbn; intros Hn Hin; [by apply not_elem_of_nil in Hin|].
  apply list.NoDup_cons in Hn as [Hk Hn]. apply elem_of_cons in Hin as [[= <- <-]|Hin].
  - by rewrite String.eqb_refl.
  - destruct (String.eqb_spec k' k) as [->|]; [|by apply IH].
    destruct Hk. apply list_elem_of_fmap. by exists (k, x).
Qed.

Lemma py_eqb_refl v : wf_json v → py_eqb v v = true.
Proof.
  induction v as [|b|n|s|l IH|ms IH] using json_values_ind; cbn; intros Hw.
  - done.
  - by destruct b.
  - apply Z.eqb_refl.
  - apply String.eqb_refl.
  - induction IH as [|x l Hx _ IHl]; [done|]. destruct Hw as [Hx' Hl]. by rewrite Hx, IHl.
  - rewrite Nat.eqb_refl. cbn. destruct Hw as [Hn Hw].
    assert (∀ m, m ∈ ms → lookup_key m.1 ms = Some m.2) as Hlook
      by (intros [k x] Hin; by apply lookup_key_nodup).
    revert Hlook. generalize ms at 2 3. intros all Hlook. clear Hn.
    induction IH as [|[k x] ms Hx _ IHm]; [done|]. destruct Hw as [Hx' Hw].
    pose proof (Hlook (k, x) ltac:(left)) as E. cbn in E. rewrite E. cbn in Hx, Hx'. rewrite Hx by done. cbn.
    apply IHm; [done|]. intros m Hm. apply Hlook. by right.
Qed.

(** ** Observations *)

Lemma sha256_of_hex s : fullmatch HEX64 (sha256_of s) = true.
Proof. apply fullmatch_times. split; [apply sha256_hex_len|apply sha256_hex_class]. Qed.
Lemma type_name_observed v : bool_decide (type_name v ∈ OBSERVATION_TYPES) = true.
Proof. by destruct v. Qed.

Lemma observation_valid v :
  json_value 0 v = Ok tt → wf_json v →
  ∃ seen, observation v = Ok seen ∧ validate_observation seen = Ok tt ∧ is_exception (0, seen) = false ∧
    (value_of "value" seen = None ∨ value_of "value" seen = Some v).
Proof.
  intros Hv Hw. unfold observation. rewrite Hv. cbn [mbind res_bind].
  destruct (512 <? byte_length _) eqn:E; eexists; (split; [reflexivity|]); (split; [|split; [reflexivity|auto]]).
  - unfold validate_observation. cbn -[Z.ltb bool_decide sha256_of byte_length].
    unfold member_that, has_exactly. cbn -[Z.ltb bool_decide sha256_of byte_length type_name].
    rewrite type_name_observed, E, sha256_of_hex. done.
  - unfold validate_observation. cbn -[observation bool_decide py_eqb]. rewrite type_name_observed.
    cbn -[observation bool_decide py_eqb].
    assert (is_text (JStr (type_name v)) (type_name v) = true) as -> by by apply is_text_true.
    cbn -[observation bool_decide py_eqb]. unfold observation. rewrite Hv. cbn [mbind res_bind]. rewrite E.
    cbn [mbind res_bind]. rewrite py_eqb_refl; [done|].
    split; [|by repeat split]. by apply (bool_decide_unpack _).
Qed.

Lemma exception_valid cls line : 
  validate_observation (exception_observed cls line) = Ok tt ∧ is_exception (0, exception_observed cls line) = true ∧
  value_of "value" (exception_observed cls line) = None.
Proof.
  assert (member_that "type" (one_of_texts EXCEPTION_TYPES) (exception_observed cls line) = true) as Ht.
  { unfold exception_observed, member_that. cbn -[bool_decide EXCEPTION_TYPES]. 
    by destruct (bool_decide (cls ∈ EXCEPTION_TYPES)) eqn:E. }
  destruct line as [n|]; [destruct ((1 <=? n) && (n <=? 400)) eqn:E|];
    (split; [|split; unfold exception_observed; rewrite ?E; reflexivity]);
    unfold validate_observation, need; rewrite Ht;
    unfold exception_observed; rewrite ?E; cbn -[bool_decide EXCEPTION_TYPES]; try done.
  unfold member_that. cbn -[bool_decide EXCEPTION_TYPES]. by rewrite E.
Qed.

(** ** The child's report, as its parent reads it *)

(** The candidate returns a JSON value of the type and value expected. *)
Definition passes (o : Outcome) (expected : json) : bool :=
  match o with
  | o_value v => match json_value 0 v with Ok _ => same_type v expected && py_eqb v expected | _ => false end
  | _ => false
  end.
Definition wf_outcome (o : Outcome) : Prop := match o with o_value v => wf_json v | _ => True end.

Lemma run_case_spec o expected :
  wf_outcome o →
  match run_case o expected with
  | None => passes o expected = true
  | Some (error, observed) =>
      passes o expected = false ∧ validate_observation observed = Ok tt ∧
      is_exception (0, observed) = error ∧
      ∀ v, value_of "value" observed = Some v → negb (same_type v expected) || negb (py_eqb v expected) = true
  end.
Proof.
  intros Hw.
  assert (∀ cls line v, value_of "value" (exception_observed cls line) = Some v →
    negb (same_type v expected) || negb (py_eqb v expected) = true) as Hno.
  { intros cls line v Hv. destruct (exception_valid cls line) as (_ & _ & E). congruence. }
  destruct o as [v| |cls line]; cbn -[exception_observed validate_observation observation].
  - destruct (json_value 0 v) as [[]|e] eqn:Hv.
    + destruct (same_type v expected && py_eqb v expected) eqn:Hp; [done|].
      destruct (observation_valid v Hv Hw) as (seen & -> & Hvalid & Hk & Hval).
      repeat split; [done..|]. intros w Hseen. destruct Hval as [Hval|Hval]; [congruence|].
      rewrite Hseen in Hval. injection Hval as ->. by rewrite <- negb_andb, Hp.
    + split; [done|]. destruct (exception_valid "InvalidResult" None) as (H1 & H2 & _). split_and!; [done..|]. apply Hno.
  - split; [done|]. destruct (exception_valid "InvalidResult" None) as (H1 & H2 & _). split_and!; [done..|]. apply Hno.
  - split; [done|]. destruct (exception_valid cls line) as (H1 & H2 & _). split_and!; [done..|]. apply Hno.
Qed.

Section Child.
Context (call : list json → Outcome) (Hcall : ∀ args, wf_outcome (call args)) (t : Task.t).
Definition case_passes (c : Case.t) : bool := passes (call (Case.args c)) (Case.expected c).
(** The indices of the failing cases. *)
Fixpoint failing (i : Z) (cases : list Case.t) : list Z :=
  match cases with
  | [] => []
  | c :: cases' => if case_passes c then failing (i + 1) cases' else i :: failing (i + 1) cases'
  end.

Lemma failing_ge i cases x : x ∈ failing i cases → i ≤ x.
Proof.
  revert i. induction cases as [|c cases IH]; intros i Hx; cbn in Hx; [by apply not_elem_of_nil in Hx|].
  destruct (case_passes c); [apply IH in Hx; lia|].
  apply elem_of_cons in Hx as [->|Hx]; [lia|]. apply IH in Hx. lia.
Qed.
Lemma increasing_cons x l : increasing l = true → (∀ y, y ∈ l → x < y) → increasing (x :: l) = true.
Proof.
  destruct l as [|y l]; intros Hl Hx; [done|]. cbn [increasing].
  rewrite (proj2 (Z.ltb_lt x y)); [exact Hl|]. apply Hx. left.
Qed.
Lemma failing_increasing i cases : increasing (failing i cases) = true.
Proof.
  revert i. induction cases as [|c cases IH]; intros i; cbn [failing]; [done|].
  destruct (case_passes c); [apply IH|]. apply increasing_cons; [apply IH|].
  intros y Hy. apply failing_ge in Hy. lia.
Qed.

Lemma run_cases_spec pre cases p e f :
  Task.cases t = pre ++ cases → run_cases call (Z.of_nat (length pre)) cases = (p, e, f) →
  p = Z.of_nat (length (List.filter case_passes cases)) ∧ p + Z.of_nat (length f) = Z.of_nat (length cases) ∧
  0 ≤ e ≤ Z.of_nat (length f) ∧
  ∃ fs, validate_failures t (Z.of_nat (length (Task.cases t))) f = Ok fs ∧
    map fst fs = failing (Z.of_nat (length pre)) cases ∧ Z.of_nat (length (List.filter is_exception fs)) = e.
Proof.
  revert pre p e f. induction cases as [|c cases IH]; intros pre p e f Ht; cbn [run_cases].
  { intros [= <- <- <-]. cbn. split_and!; [done..|]. by exists []. }
  destruct (run_cases call (Z.of_nat (length pre) + 1) cases) as [[p' e'] f'] eqn:Er.
  replace (Z.of_nat (length pre) + 1) with (Z.of_nat (length (pre ++ [c]))) in * by (rewrite length_app; cbn; lia).
  destruct (IH (pre ++ [c]) p' e' f') as (-> & Hlen & He & fs & Hfs & Hmap & Hex); [by rewrite <- app_assoc|done|].
  pose proof (run_case_spec (call (Case.args c)) (Case.expected c) (Hcall _)) as Hrun.
  change (passes (call (Case.args c)) (Case.expected c)) with (case_passes c) in Hrun. cbn [List.filter failing].
  assert (Z.of_nat (length (pre ++ [c])) = Z.of_nat (length pre) + 1) as Hl by (rewrite length_app; cbn; lia).
  destruct (run_case _ _) as [[err obs]|]; last first.
  { rewrite Hrun. intros [= <- <- <-]. cbn [length]. split_and!; try lia. exists fs. by rewrite <- Hl. }
  destruct Hrun as (-> & Hobs & Herr & Hval). intros [= <- <- <-]. cbn [length].
  split_and!; [lia|lia|destruct err; cbn; lia|destruct err; cbn; lia|].
  exists ((Z.of_nat (length pre), obs) :: fs). cbn [validate_failures]. rewrite Hfs.
  assert (validate_failure t (Z.of_nat (length (Task.cases t)))
    (JObj [("case_index", JInt (Z.of_nat (length pre))); ("observed", obs)])%string = Ok (Z.of_nat (length pre), obs)) as ->.
  { unfold validate_failure. cbn -[validate_observation Z.leb Z.ltb]. unfold case_at.
    rewrite (proj2 (Z.leb_le _ _)) by lia. rewrite (proj2 (Z.ltb_lt _ _)) by (rewrite Ht, length_app; cbn; lia).
    cbn -[validate_observation]. rewrite Hobs. cbn -[value_of]. rewrite Nat2Z.id, Ht, list_lookup_middle by done.
    destruct (value_of "value" obs) as [v|]; [|done]. by rewrite (Hval v eq_refl). }
  cbn. rewrite Hmap, Hl. split_and!; [done..|].
  change (is_exception (Z.of_nat (length pre), obs)) with (is_exception (0, obs)). rewrite Herr.
  destruct err; cbn; lia.
Qed.

(** The parent accepts every report of the child, and reads in it how many
    cases pass and exactly which ones fail. *)
Lemma child_report_valid :
  ∃ r, validate_report (child_report call t) t = Ok r ∧
    Report.total r = Z.of_nat (length (Task.cases t)) ∧
    Report.passed r = Z.of_nat (length (List.filter case_passes (Task.cases t))) ∧
    map fst (Report.failures r) = failing 0 (Task.cases t).
Proof.
  unfold child_report. destruct (run_cases call 0 (Task.cases t)) as [[p e] f] eqn:Er.
  destruct (run_cases_spec [] (Task.cases t) p e f eq_refl Er) as (Hp & Hlen & He & fs & Hfs & Hmap & Hex).
  set (n := Z.of_nat (length (Task.cases t))) in *.
  exists (Report.mk p n e fs (JObj [("passed", JInt p); ("total", JInt n); ("errors", JInt e); ("failures", JList f)])%string).
  split; [|done]. unfold validate_report, int_member. cbn -[validate_failures Z.leb Z.eqb increasing n].
  rewrite Z.eqb_refl, !(proj2 (Z.leb_le _ _)) by lia. cbn -[validate_failures Z.eqb increasing n].
  rewrite (proj2 (Z.eqb_eq _ (n - p))) by lia. cbn -[validate_failures Z.eqb increasing n]. rewrite Hfs.
  cbn -[Z.eqb increasing n]. rewrite Hmap, failing_increasing. cbn -[Z.eqb n]. by rewrite (proj2 (Z.eqb_eq _ e)).
Qed.
End Child.

(** ** Walks *)

Lemma elem_of_join_levels {A} (a b : list (list A)) x :
  x ∈ concat (join_levels a b) ↔ x ∈ concat a ∨ x ∈ concat b.
Proof.
  revert b. induction a as [|l a IH]; intros [|k b]; cbn; rewrite ?app_nil_r, ?elem_of_nil; try tauto.
  rewrite !elem_of_app, IH. tauto.
Qed.
Lemma length_join_levels {A} (a b : list (list A)) : length (join_levels a b) = Nat.max (length a) (length b).
Proof. revert b. induction a as [|l a IH]; intros [|k b]; cbn; rewrite ?IH; lia. Qed.

Section Fold.
Context {A : Type} (g : node → list (list A)).
Let merge (fs : list (string * list (option node))) : list (list A) :=
  foldr (fun f acc => foldr (fun o acc => match o with Some m => join_levels (g m) acc | None => acc end) acc f.2) [] fs.
Lemma elem_of_merge fs x :
  x ∈ concat (merge fs) ↔ ∃ m, m ∈ omap id (flat_map snd fs) ∧ x ∈ concat (g m).
Proof.
  unfold merge. induction fs as [|[k l] fs IH]; cbn.
  { split; [by intros ?%elem_of_nil|]. by intros (m & ?%elem_of_nil & _). }
  induction l as [|[m|] l IHl]; cbn; [exact IH| |exact IHl].
  rewrite elem_of_join_levels, IHl. set_solver.
Qed.
Lemma length_merge fs n :
  (length (merge fs) ≤ n)%nat ↔ ∀ m, m ∈ omap id (flat_map snd fs) → (length (g m) ≤ n)%nat.
Proof.
  unfold merge. induction fs as [|[k l] fs IH]; cbn.
  { split; [by intros _ m ?%elem_of_nil|lia]. }
  induction l as [|[m|] l IHl]; cbn; [exact IH| |exact IHl].
  rewrite length_join_levels, Nat.max_lub_iff, IHl. set_solver.
Qed.
End Fold.

Lemma levels_unfold n :
  levels n = [n] :: foldr (fun f acc => foldr (fun o acc =>
    match o with Some m => join_levels (levels m) acc | None => acc end) acc f.2) [] (fields_of n).
Proof. by destruct n. Qed.

(** [ast.walk] yields every node of the tree. *)
Lemma within_walk n m : within n m → m ∈ walk n.
Proof.
  unfold walk. induction 1 as [n|n m k Hm _ IH]; rewrite levels_unfold; cbn; [left|].
  right. apply elem_of_merge. by exists m.
Qed.

(** ** The guard *)

Definition height (n : node) : nat := length (levels n).

Section Guard.
Context {py : Language} (function : string).

Lemma visit_unfold d n :
  visit function d n =
  (need (d <=? 24) "candidate_depth" ;; check_node function n ;;
   foldr (fun f later => later ;; foldr (fun o later => later ;; match o with Some m => visit function (d + 1) m | None => Ok tt end)
            (Ok tt) f.2) (Ok tt) (fields_of n)).
Proof. by destruct n. Qed.

Lemma visit_fields d (fs : list (string * list (option node))) :
  foldr (fun f later => later ;; foldr (fun o later => later ;; match o with Some m => visit function (d + 1) m | None => Ok tt end)
    (Ok tt) f.2) (Ok tt) fs = Ok tt →
  ∀ m, m ∈ omap id (flat_map snd fs) → visit function (d + 1) m = Ok tt.
Proof.
  induction fs as [|[k l] fs IH]; cbn; [by intros _ m ?%elem_of_nil|].
  intros H. apply bind_res_ok in H as ([] & Hfs & H). specialize (IH Hfs).
  induction l as [|o l IHl]; cbn in *; [exact IH|].
  apply bind_res_ok in H as ([] & Hl & Ho). specialize (IHl Hl).
  destruct o as [m|]; cbn; [|exact IHl].
  intros k' [->|Hk]%elem_of_cons; [done|by apply IHl].
Qed.

Lemma visit_ok n d :
  visit function d n = Ok tt →
  (∀ m, within n m → check_node function m = Ok tt) ∧ d + Z.of_nat (height n) ≤ 25.
Proof.
  revert d. induction n as [n IH] using node_children_ind; intros d. rewrite visit_unfold.
  intros (u & Hd%need_ok & H)%bind_res_ok. clear u. apply bind_res_ok in H as ([] & Hn & H).
  pose proof (visit_fields d (fields_of n) H) as Hc. split.
  - intros m Hm. destruct Hm as [|k n' Hk Hm]; [done|]. by apply (proj1 (IH k Hk (d + 1) (Hc k Hk))).
  - unfold height. rewrite levels_unfold. cbn [length].
    assert (length (foldr (fun f acc => foldr (fun o acc =>
      match o with Some m => join_levels (levels m) acc | None => acc end) acc f.2) [] (fields_of n)) ≤ Z.to_nat (24 - d))%nat
      as Hl; [|lia].
    apply length_merge. intros m Hm. destruct (IH m Hm (d + 1) (Hc m Hm)) as [_ Hh]. unfold height in Hh. lia.
Qed.
End Guard.

(** What the guard leaves to a node of a candidate. *)
Record confined (function : string) (n : node) : Prop := {
  cf_class : cls_of n ∈ NODES;
  cf_name : is_node "Name" n = true → starts_with "__" (text_atom "id" n) = false;
  cf_store : is_node "Name" n = true → sub_that "ctx" (is_node "Store") n = true →
    (text_atom "id" n ∉ BUILTINS) ∧ text_atom "id" n ≠ function;
  cf_call : is_node "Call" n = true → ∃ f, subnode "func" n = Some f ∧
    ((is_node "Name" f = true ∧ text_atom "id" f ∈ BUILTINS) ∨
     (is_node "Attribute" f = true ∧ text_atom "attr" f ∈ METHODS));
  cf_attribute : is_node "Attribute" n = true →
    text_atom "attr" n ∈ METHODS ∧ sub_that "ctx" (is_node "Load") n = true;
  cf_constant : is_node "Constant" n = true → check_const n = Ok tt }.

Lemma andb_split a b : a && b = true ↔ a = true ∧ b = true.
Proof. apply andb_true_iff. Qed.
Lemma check_node_confined function n :
  cls_of n ∈ NODES → check_node function n = Ok tt → confined function n.
Proof.
  intros Hc H. unfold check_node in H.
  apply bind_res_ok in H as ([] & Hname & H). apply bind_res_ok in H as ([] & _ & H).
  apply bind_res_ok in H as ([] & _ & H). apply bind_res_ok in H as ([] & _ & H).
  apply bind_res_ok in H as ([] & Hcall & H). apply bind_res_ok in H as ([] & Hattr & H).
  apply bind_res_ok in H as ([] & _ & Hconst).
  split; [done|..].
  - intros Hn. pose proof (when_ok _ _ Hname Hn) as Hn'. apply bind_res_ok in Hn' as ([] & Hd%need_ok & _). by apply negb_true_iff.
  - intros Hn Hs. pose proof (when_ok _ _ Hname Hn) as Hn'. apply bind_res_ok in Hn' as ([] & _ & Hst).
    pose proof (when_ok _ _ Hst Hs) as [H1 H2]%need_ok%andb_split. apply negb_true_iff in H1, H2.
    split; [by eapply bool_decide_eq_false_1|]. intros E. by rewrite E, String.eqb_refl in H2.
  - intros Hn. pose proof (when_ok _ _ Hcall Hn) as Hn'. apply bind_res_ok in Hn' as ([] & _ & Ha%need_ok).
    unfold allowed_call, sub_that in Ha. destruct (subnode "func" n) as [f|]; [|done]. exists f. split; [done|].
    apply orb_true_iff in Ha as [[H1 H2]%andb_split|[H1 H2]%andb_split]; apply bool_decide_eq_true_1 in H2; auto.
  - intros Hn. pose proof (when_ok _ _ Hattr Hn) as [H1 H2]%need_ok%andb_split. by apply bool_decide_eq_true_1 in H1.
  - by apply when_ok.
Qed.

Section Candidate.
Context {py : Language}.

Lemma guarded_ok source t tree :
  guarded source t = Ok tree →
  (∀ n, within tree n → confined (Task.function t) n) ∧ (length (walk tree) ≤ 350)%nat ∧ (height tree ≤ 25)%nat ∧
  (count (fun n => is_node "For" n || is_node "comprehension" n) (walk tree) ≤ 1)%nat ∧
  count (is_node "FunctionDef") (walk tree) = 1%nat.
Proof.
  unfold guarded. intros H.
  apply bind_res_ok in H as (normalized & _ & H). apply bind_res_ok in H as (tree' & _ & H).
  apply bind_res_ok in H as ([] & [Hsize Hcls]%need_ok%andb_split & H).
  apply bind_res_ok in H as ([] & Hfun%need_ok & H). apply bind_res_ok in H as ([] & Hloops%need_ok & H).
  apply bind_res_ok in H as ([] & Hv & [= <-]).
  apply visit_ok in Hv as [Hchecks Hheight].
  apply Nat.leb_le in Hsize, Hloops. apply Nat.eqb_eq in Hfun. split_and!; [|done|lia|done|done].
  intros n Hn. apply check_node_confined; [|by apply Hchecks].
  rewrite forallb_elem in Hcls. apply (bool_decide_eq_true_1 _ (Hcls n (within_walk _ _ Hn))).
Qed.

Lemma head_within f rest tree : nodes "body" tree = f :: rest → within tree f.
Proof.
  intros E. apply within_child with f; [|apply within_self].
  assert (f ∈ nodes "body" tree) as Hf by (rewrite E; left). clear E.
  unfold nodes, entries in Hf. apply list_elem_of_omap in Hf as (o & Ho & Eo).
  unfold lookup_key in Ho. destruct (List.find _ (fields_of tree)) as [[k l]|] eqn:Ef; [|by apply not_elem_of_nil in Ho].
  cbn in Ho. apply find_some in Ef as [Hin _]. apply list_elem_of_omap. exists o. split; [|done].
  apply list_elem_of_In, in_flat_map. exists (k, l). split; [done|]. by apply list_elem_of_In.
Qed.
Lemma within_trans a b c : within a b → within b c → within a c.
Proof. induction 1; [done|]. intros Hc. eapply within_child; eauto. Qed.

(** The lines of a module around its function. *)
Lemma module_parts (lines : list string) (first last : nat) header :
  (1 ≤ first ≤ last)%nat → lines !! (first - 1)%nat = Some header →
  concat_text lines =
    String.append (concat_text (take (first - 1) lines)) (String.append header
      (String.append (concat_text (drop first (take last lines))) (concat_text (drop last lines)))).
Proof.
  intros Hl Hh. rewrite <- !concat_text_app, <- concat_text_cons, <- concat_text_app. f_equal.
  rewrite <- (take_drop (first - 1) lines) at 1. f_equal.
  rewrite (drop_S lines header (first - 1)) by done. f_equal. replace (S (first - 1)) with first by lia.
  rewrite <- (take_drop (last - first) (drop first lines)) at 1. rewrite drop_drop. 
  replace (first + (last - first))%nat with last by lia. f_equal.
  rewrite <- skipn_firstn_comm. f_equal.
Qed.

(** The repaired module is the original one with the body of a function
    replaced by that of the candidate. *)
Definition repaired_by (candidate : node) (before after : string) : Prop :=
  ∃ above header old_body below, one_line_header header = true ∧
    before = String.append above (String.append header (String.append old_body below)) ∧
    after = String.append above (String.append (replacement header candidate) below).

Lemma function_tree_body source name f :
  function_tree source name = Ok f → ∃ tree, ast_parse source = Ok tree ∧ f ∈ nodes "body" tree ∧ named_function name f = true.
Proof.
  unfold function_tree, parse_or. intros H. apply bind_res_ok in H as ([] & _ & H).
  apply bind_res_ok in H as (tree & Htree & H). exists tree. split; [by destruct (ast_parse source)|].
  destruct (List.filter _ _) as [|g [|? ?]] eqn:E; [done| |done].
  apply bind_res_ok in H as ([] & _ & [= <-]). apply elem_of_where. rewrite E. left.
Qed.

(** The positions that the parser gives to the functions of a module. *)
Definition positioned (source : string) : Prop :=
  ∀ tree f, ast_parse source = Ok tree → f ∈ nodes "body" tree →
    (1 ≤ lineno (pos_of f) ≤ end_lineno (pos_of f))%nat.

Lemma render_ok before task reply after :
  positioned before → render before task reply = Ok after →
  ∃ t candidate original, task_spec task = Ok t ∧ (∀ n, within candidate n → confined (Task.function t) n) ∧
    repaired_by candidate before after ∧ function_tree before (Task.function t) = Ok original ∧
    ∃ tree, ast_parse after = Ok tree.
Proof.
  intros Hpos H. unfold render in H. apply bind_res_ok in H as (t & Ht & H).
  apply bind_res_ok in H as (proposed & _ & H). apply bind_res_ok in H as (tree & _ & H).
  apply bind_res_ok in H as ([] & _ & H). apply bind_res_ok in H as (guarded_tree & Hg & H).
  apply bind_res_ok in H as (candidate & Hc & H). apply bind_res_ok in H as (original & Ho & H).
  apply bind_res_ok in H as (reviewed & _ & H). apply bind_res_ok in H as (header & Hh & H).
  apply bind_res_ok in H as ([] & Hone%need_ok & H). apply bind_res_ok in H as (parsed & Hp & [= <-]).
  exists t, candidate, original. split_and!; [done| | |done|by exists parsed].
  - intros n Hn. apply guarded_ok in Hg as [Hg _]. apply Hg.
    destruct (nodes "body" guarded_tree) as [|f rest] eqn:E; [done|]. injection Hc as ->.
    apply within_trans with candidate; [by eapply head_within|done].
  - destruct (function_tree_body _ _ _ Ho) as (module & Hm & Hin & _).
    pose proof (Hpos module original Hm Hin) as Hl. unfold line_at in Hh.
    destruct (_ !! _) as [h|] eqn:El; [|done]. injection Hh as ->.
    exists (concat_text (take (lineno (pos_of original) - 1) (splitlines_keep before))), header,
      (concat_text (drop (lineno (pos_of original)) (take (end_lineno (pos_of original)) (splitlines_keep before)))),
      (concat_text (drop (end_lineno (pos_of original)) (splitlines_keep before))).
    split_and!; [done| |done]. rewrite <- (splitlines_keep_concat before) at 1. by apply module_parts.
Qed.
End Candidate.
