(* ===== verification/Anchors.v ===== *)
(** Line anchors for the revisions of a model, [app/structured_anchors.py]:
    the catalogue of lines, the statements that a guard may precede, the
    closed shape of a guard, and the assembly of a revision; and the sites of
    [app/structured_type_guard_completion.py].  The schemas sent to the model
    are not modelled, except the one in use; the diagnostics of a revision are
    in [Revision]. *)
From Stdlib Require Import Ascii String.
From stdpp Require Import strings pretty list.
From S2P Require Import Prelude PyStr Sha256 Json PyVal PyText PyAst Names Structured.

Local Open Scope string_scope.
Local Open Scope Z_scope.

(** [AnchorRejected(code)] with its [anchor_failure_kind], which follows the
    class's name here, and [require]. *)
Definition rejected (code : string) : exn := Error "AnchorRejected" code.
Definition rejected_as (code kind : string) : exn := Error (String.append "AnchorRejected " kind) code.
Definition is_rejected (e : exn) : bool := match e with Error c _ => starts_with "AnchorRejected" c | _ => false end.
Definition anchor_failure_kind (e : exn) : option string :=
  match e with
  | Error c _ => if starts_with "AnchorRejected " c then Some (remove_prefix "AnchorRejected " c) else None
  | _ => None
  end.
Definition require (ok : bool) (code : string) : res unit := if ok then Ok tt else Raise (rejected code).

Definition anchor_of (number : nat) : string := String.append "L" (pretty (Z.of_nat number)).
(** The anchors of the lines after the first that are not blank, with their
    indices. *)
Fixpoint catalog_from (i : nat) (lines : list string) : list (string * nat) :=
  match lines with
  | [] => []
  | line :: lines' =>
      if nonempty (strip line) then (anchor_of (S i), i) :: catalog_from (S i) lines' else catalog_from (S i) lines'
  end.
Definition line_catalog (source : string) : res (list (string * nat)) :=
  require ((1 <=? byte_length source) && (byte_length source <=? 20000)) "revision_size" ;;
  let lines := splitlines_keep source in
  require ((2 <=? length lines) && (length lines <=? 350))%nat "revision_anchor_source" ;;
  require (match lines with first :: _ => starts_with "def " first && ends_with ":" (rstrip first) | [] => false end)
    "revision_anchor_source" ;;
  require (forallb (fun line => negb (nonempty (strip line)) || starts_with "    " line) (tail lines))
    "revision_anchor_source" ;;
  Ok (catalog_from 1 (tail lines)).

Definition is_statement (n : node) : bool :=
  bool_decide (cls_of n ∈ ["If"; "For"; "Assign"; "Return"; "Expr"]).
(** The constants that a guard may return. *)
Definition is_literal (n : node) : bool :=
  is_node "Constant" n &&
  match const_of n with c_json (JList _ | JObj _) => false | c_json _ => true | c_float _ => true | c_other => false end.
Definition before_pos (m n : node) : bool :=
  let p := pos_of m in let q := pos_of n in
  (lineno p <? lineno q)%nat || ((lineno p =? lineno q)%nat && (col_offset p <=? col_offset q)).
Definition if_header (line : string) : bool := starts_with "if " (lstrip line) && ends_with ":" (rstrip line).

Section Anchors.
Context {py : Language}.

(** The one function that a source consists of. *)
Definition only_function (source : string) : res node :=
  tree ← match ast_parse source with
         | Raise e => Raise (if syntax_failure e then rejected "revision_anchor_source" else e)
         | r => r
         end;
  match entries "body" tree with
  | [Some f] => require (is_node "FunctionDef" f) "revision_anchor_source" ;; Ok f
  | _ => Raise (rejected "revision_anchor_source")
  end.

Definition add_literal (acc : list string) (n : node) : list string :=
  match subnode "value" n with
  | Some v =>
      let literal := ast_unparse v in
      if is_literal v && (byte_length literal <=? 128) && negb (bool_decide (literal ∈ acc)) then (acc ++ [literal])%list else acc
  | None => acc
  end.
Definition guard_return_literals (source : string) : res (list string) :=
  catalog ← line_catalog source;
  f ← only_function source;
  let returns := sort_by before_pos (List.filter (is_node "Return") (walk f)) in
  Ok (take 16 (fold_left add_literal returns [])).

Definition starts_line (lines : list string) (n : node) : bool :=
  match lines !! (lineno (pos_of n) - 1)%nat with
  | Some line =>
      (col_offset (pos_of n) =? length_of line - length_of (lstrip_blank line)) &&
      negb (starts_with "elif " (lstrip line) || starts_with "elif(" (lstrip line))
  | None => false
  end.
Definition statement_anchors (source : string) : res (list string) :=
  anchors ← line_catalog source;
  f ← only_function source;
  let lines := splitlines source in
  let locations := map (fun n => anchor_of (lineno (pos_of n)))
    (List.filter (fun n => is_statement n && bool_decide (anchor_of (lineno (pos_of n)) ∈ keys anchors) && starts_line lines n)
       (walk f)) in
  Ok (List.filter (fun a => bool_decide (a ∈ locations)) (keys anchors)).

(** *** The closed shape of a guard *)

Definition dunder (s : string) : bool := starts_with "__" s.
Definition text_constant (n : node) : option string :=
  if is_node "Constant" n then match const_of n with c_json (JStr s) => Some s | _ => None end else None.
Definition none_constant (n : node) : bool :=
  is_node "Constant" n && match const_of n with c_json JNull => true | _ => false end.
(** A local name, or one [local.get('key')]. *)
Definition subject (value : node) : bool :=
  if is_node "Name" value then negb (dunder (text_atom "id" value))
  else
    is_node "Call" value &&
    sub_that "func" (fun f =>
      is_node "Attribute" f && String.eqb (text_atom "attr" f) "get" &&
      sub_that "value" (fun v => is_node "Name" v && negb (dunder (text_atom "id" v))) f) value &&
    absent "keywords" value &&
    match entries "args" value with
    | [Some a] => match text_constant a with Some s => (length_of s <=? 128) | None => false end
    | _ => false
    end.
Definition GUARD_TYPES : list string := ["str"; "dict"; "list"; "bool"; "int"; "float"].
(** [not isinstance(subject, type)]: the subject. *)
Definition negative_isinstance (value : node) : option node :=
  if is_node "UnaryOp" value && sub_that "op" (is_node "Not") value then
    match subnode "operand" value with
    | Some call =>
        match is_node "Call" call && sub_that "func" (fun f => is_node "Name" f && String.eqb (text_atom "id" f) "isinstance") call &&
              absent "keywords" call, entries "args" call with
        | true, [Some a; Some b] =>
            if is_node "Name" b && bool_decide (text_atom "id" b ∈ GUARD_TYPES) && subject a then Some a else None
        | _, _ => None
        end
    | None => None
    end
  else None.
Definition validated_type_guard (n : node) : res string :=
  match is_node "BoolOp" n && sub_that "op" (is_node "And") n, entries "values" n with
  | true, [Some check; Some guard] =>
      require
        (is_node "Compare" check &&
         match entries "ops" check, entries "comparators" check, subnode "left" check, negative_isinstance guard with
         | [Some o], [Some c], Some lhs, Some checked =>
             is_node "IsNot" o && none_constant c && subject lhs && String.eqb (ast_dump lhs) (ast_dump checked)
         | _, _, _, _ => false
         end) "revision_guard_expression"
  | _, _ => require (match negative_isinstance n with Some _ => true | None => false end) "revision_guard_expression"
  end ;;
  Ok (ast_unparse n).

(** *** Assembly *)

Definition EDIT_FIELDS : list string := ["anchor"; "new"].
Definition GUARD_FIELDS : list string := ["anchor"; "guard"; "return_expression"].
Definition edit_text (k : string) (edit : json) : res string :=
  match value_of k edit with Some (JStr s) => Ok s | _ => Raise (rejected "revision_edit_schema") end.
Definition index_of (anchors : list (string * nat)) (anchor : string) : res nat :=
  match lookup_key anchor anchors with Some i => Ok i | None => Raise (rejected_as "revision_anchor_invalid" "unknown_anchor") end.
Definition has_index (i : nat) (l : list (nat * string)) : bool := existsb (fun e => (e.1 =? i)%nat) l.
Definition TAB : ascii := chr 9.
Definition NUL : ascii := chr 0.

(** The replacements and the guards so far. *)
Record Edits := mkEdits { replacements : list (nat * string); guards : list (nat * string) }.

(** An early return under a guard, before an existing line. *)
Definition guard_edit (model_split : bool) (source : string) (anchors : list (string * nat)) (lines : list string)
    (done : Edits) (edit : json) : res Edits :=
  anchor ← edit_text "anchor" edit;
  condition ← edit_text "guard" edit;
  value ← edit_text "return_expression" edit;
  require ((1 <=? length_of condition) && (length_of condition <=? 2000) && (1 <=? length_of value) &&
           (length_of value <=? 2000)) "revision_edit_schema" ;;
  index ← index_of anchors anchor;
  require (negb (has_index index (guards done)) && (model_split || negb (has_index index (replacements done))))
    "revision_anchor_duplicate" ;;
  original ← line_at lines index;
  (if if_header original then Ok tt
   else if model_split then
     allowed ← statement_anchors source;
     if bool_decide (anchor ∈ allowed) then Ok tt else Raise (rejected_as "revision_anchor_invalid" "guard_not_statement")
   else Raise (rejected_as "revision_anchor_invalid" "guard_not_if_header")) ;;
  require (has_none_of [CR; LF; TAB; NUL; "["%char; "]"%char] condition &&
           has_none_of [CR; LF; TAB; NUL; "["%char; "]"%char] value) "revision_indentation" ;;
  checked ←
    (if model_split then
       let parsed s := match ast_parse_eval s with
                       | Raise e => Raise (if syntax_failure e then rejected "revision_edit_schema" else e)
                       | r => r
                       end in
       guard_ast ← parsed condition; return_ast ← parsed value;
       let literal := ast_unparse return_ast in
       require (is_node "Constant" return_ast) "revision_edit_schema" ;;
       literals ← guard_return_literals source;
       require (bool_decide (literal ∈ literals)) "revision_edit_schema" ;;
       shape ← validated_type_guard guard_ast;
       Ok (shape, literal)
     else Ok (condition, value));
  let indent := indent_of original in
  let text := concat_text [indent; "if "; checked.1; ":"; newline; indent; "    return "; checked.2; newline] in
  Ok (mkEdits (replacements done) (guards done ++ [(index, text)])%list).

(** Lines in the place of an existing line. *)
Definition replace_edit (model_split : bool) (anchors : list (string * nat)) (lines : list string)
    (done : Edits) (edit : json) : res Edits :=
  require (has_exactly EDIT_FIELDS edit) "revision_edit_schema" ;;
  anchor ← edit_text "anchor" edit;
  new ← edit_text "new" edit;
  require (length_of new <=? 6000) "revision_edit_schema" ;;
  index ← index_of anchors anchor;
  require (negb (has_index index (replacements done)) && (model_split || negb (has_index index (guards done))))
    "revision_anchor_duplicate" ;;
  require (has_none_of [CR; TAB; NUL] new) "revision_indentation" ;;
  let added := splitlines new in
  require (match added with
           | [] => true
           | first :: _ => match chars first with c :: _ => negb (is_space c) | [] => false end
           end) "revision_indentation" ;;
  original ← line_at lines index;
  require (negb (ends_with ":" (rstrip original)) ||
           match head (rev added) with Some line => ends_with ":" (rstrip line) | None => false end) "revision_block_header" ;;
  let indent := indent_of original in
  Ok (mkEdits (replacements done ++ [(index, concat_text (map (fun line => concat_text [indent; line; newline]) added))])%list
        (guards done)).

Fixpoint collect (model_split : bool) (source : string) (anchors : list (string * nat)) (lines : list string)
    (done : Edits) (edits : list json) : res Edits :=
  match edits with
  | [] => Ok done
  | edit :: edits' =>
      require (is_dict edit) "revision_edit_schema" ;;
      next ← (if has_exactly GUARD_FIELDS edit then guard_edit model_split source anchors lines done edit
              else replace_edit model_split anchors lines done edit);
      collect model_split source anchors lines next edits'
  end.
(** [lines[i] = text] and [lines[i] = prefix + lines[i]] *)
Definition put_replacement (lines : list string) (e : nat * string) : list string := <[e.1 := e.2]> lines.
Definition put_guard (lines : list string) (e : nat * string) : list string := alter (String.append e.2) e.1 lines.
Definition apply_edits (lines : list string) (e : Edits) : list string :=
  fold_left put_guard (guards e) (fold_left put_replacement (replacements e) lines).

(** The edits of a decoded reply. *)
Definition list_of (k : string) (v : json) : res (list json) :=
  match value_of k v with Some (JList l) => Ok l | _ => Raise (rejected "revision_schema") end.
Definition between_1_6 (n : nat) : bool := ((1 <=? n) && (n <=? 6))%nat.
Definition reply_edits (model_split : bool) (value : json) : res (list json) :=
  require (is_dict value) "revision_schema" ;;
  if model_split then
    require (has_exactly ["edits"; "guards"] value) "revision_schema" ;;
    edits ← list_of "edits" value; guards ← list_of "guards" value;
    require (between_1_6 (length edits + length guards)) "revision_schema" ;;
    require (forallb (has_exactly EDIT_FIELDS) edits) "revision_edit_schema" ;;
    require (forallb (has_exactly GUARD_FIELDS) guards) "revision_edit_schema" ;;
    Ok (edits ++ guards)%list
  else
    require (has_exactly ["edits"] value) "revision_schema" ;;
    edits ← list_of "edits" value;
    require (between_1_6 (length edits)) "revision_schema" ;;
    Ok edits.

Definition assemble_anchors (reply : json) (source : string) (model_split : bool) : res (string * list json) :=
  anchors ← line_catalog source;
  text ← match reply with
         | JStr s => require (byte_length s <=? 16384) "revision_size" ;; Ok s
         | _ => Raise (rejected "revision_size")
         end;
  value ← match json_loads text with
          | Raise e => Raise (if value_failure e then rejected "revision_json" else e)
          | r => r
          end;
  edits ← reply_edits model_split value;
  let lines := splitlines_keep source in
  collected ← collect model_split source anchors lines (mkEdits [] []) edits;
  let assembled := concat_text (apply_edits lines collected) in
  require (negb (String.eqb assembled source)) "candidate_repeated" ;;
  require (byte_length assembled <=? 20000) "revision_size" ;;
  Ok (assembled, edits).

(** A replacement is one complete line, a block header exactly for one. *)
Definition strict_edit (catalog : list (string * nat)) (lines : list string) (edit : json) : res unit :=
  if has_exactly EDIT_FIELDS edit then
    anchor ← edit_text "anchor" edit; new ← edit_text "new" edit;
    index ← index_of catalog anchor; old ← line_at lines index;
    require ((length (splitlines new) =? 1)%nat && nonempty (strip new) &&
             Bool.eqb (ends_with ":" (rstrip new)) (ends_with ":" (rstrip old))) "revision_block_header"
  else Ok tt.
(** [except AnchorRejected as e: raise StructuredBlocked(str(e))] *)
Definition as_blocked {A} (r : res A) : res A :=
  match r with
  | Raise (Error c code) => if is_rejected (Error c code) then Raise (blocked code) else r
  | _ => r
  end.
Definition apply_anchored_edits (reply : json) (before : string) (proposal : json) (model_strict model_split : bool)
    : res (json * list json) :=
  as_blocked
    (task ← proposal_spec proposal;
     feedback ← match value_of "feedback" proposal with
                | Some f => Ok f | None => Raise (blocked "revision_feedback_missing") end;
     digest ← candidate_fingerprint before task;
     need (member_that "candidate_sha256" (fun v => is_text v digest) feedback) "feedback_candidate_mismatch" ;;
     source ← extracted before task;
     assembled ← assemble_anchors reply source model_split;
     need (negb model_split || model_strict) "revision_edit_schema" ;;
     (if model_strict then
        catalog ← line_catalog source;
        each (strict_edit catalog (splitlines source)) assembled.2
      else Ok tt) ;;
     candidate ← render before (without_key "feedback" proposal) (JStr (json_dumps (JObj [("function", JStr assembled.1)])));
     renewed ← candidate_fingerprint candidate task;
     need (negb (String.eqb renewed digest)) "candidate_repeated" ;;
     function ← extracted candidate task;
     Ok (JStr (json_dumps_text (JObj [("function", JStr function)])), assembled.2)).

(** [model_split_schema]: the grammar of a revision's reply. *)
Definition closed_object (properties : list (string * json)) : json :=
  JObj [("type", JStr "object"); ("properties", JObj properties); ("required", JList (map JStr (keys properties)));
        ("additionalProperties", JBool false)].
Definition any_text : json := JObj [("type", JStr "string")].
Definition text_among (l : list string) : json :=
  match l with [] => any_text | _ => JObj [("type", JStr "string"); ("enum", JList (map JStr l))] end.
Definition array_of (most : Z) (items : json) : json :=
  JObj [("type", JStr "array"); ("minItems", JInt 0); ("maxItems", JInt most); ("items", items)].
Definition model_split_schema (source : string) : res json :=
  anchors ← line_catalog source;
  require (negb (bool_decide (anchors = []))) "revision_anchor_source" ;;
  guardable ← statement_anchors source;
  return_literals ← guard_return_literals source;
  Ok (closed_object
        [("edits", array_of 6 (closed_object [("anchor", text_among (keys anchors)); ("new", any_text)]));
         ("guards", array_of (if bool_decide (return_literals = []) then 0 else Z.min 6 (Z.of_nat (length guardable)))
            (closed_object [("anchor", text_among guardable); ("guard", any_text);
                            ("return_expression", text_among return_literals)]))]).

(** ** The sites of a completion *)

Definition MAX_GUARD_TRIALS : nat := 12.
(** The text of a subject, with [repr] of its key. *)
Definition guard_target (value : node) : option string :=
  if is_node "Name" value then
    let id := text_atom "id" value in if dunder id then None else Some id
  else if is_node "Call" value then
    match subnode "func" value with
    | Some f =>
        match subnode "value" f, entries "args" value with
        | Some v, Some key :: rest =>
            match text_constant key with
            | Some s =>
                if is_node "Attribute" f && String.eqb (text_atom "attr" f) "get" && is_node "Name" v &&
                   negb (dunder (text_atom "id" v)) && absent "keywords" value && (length rest <=? 1)%nat &&
                   (length_of s <=? 128) &&
                   match rest with
                   | [Some d] => none_constant d || match text_constant d with Some _ => true | None => false end
                   | [None] => false
                   | _ => true
                   end
                then Some (concat_text [text_atom "id" v; ".get("; repr_text s; ")"])
                else None
            | None => None
            end
        | _, _ => None
        end
    | None => None
    end
  else None.

(** The conditions that one statement suggests. *)
Definition strip_conditions (n : node) : list (option string) :=
  map (fun child =>
    if is_node "Call" child && sub_that "func" (fun f => is_node "Attribute" f && String.eqb (text_atom "attr" f) "strip") child &&
       absent "args" child && absent "keywords" child
    then match subnode "func" child with
         | Some f => match subnode "value" f with
                     | Some v => (fun s => concat_text ["not isinstance("; s; ", str)"]) <$> guard_target v
                     | None => None
                     end
         | None => None
         end
    else None) (walk n).
Definition else_conditions (n : node) : list (option string) :=
  map (fun child =>
    if is_node "Call" child && sub_that "func" (fun f => is_node "Name" f && String.eqb (text_atom "id" f) "isinstance") child &&
       absent "keywords" child
    then match entries "args" child with
         | [Some a; Some b] =>
             if is_node "Name" b && String.eqb (text_atom "id" b) "str" then
               match guard_target a with
               | Some s => if contains ".get(" s
                           then Some (concat_text [s; " is not None and not isinstance("; s; ", str)"]) else None
               | None => None
               end
             else None
         | _ => None
         end
    else None) (match subnode "test" n with Some test => walk test | None => [] end).
Definition site_conditions (n : node) : list (option string) :=
  if bool_decide (cls_of n ∈ ["Assign"; "Return"; "Expr"]) then strip_conditions n
  else if is_node "If" n && negb (absent "orelse" n) then else_conditions n
  else [].
Definition add_site (allowed : list string) (acc : list (string * string)) (site : string * option string)
    : list (string * string) :=
  match site.2 with
  | Some c => if bool_decide (site.1 ∈ allowed) && negb (bool_decide ((site.1, c) ∈ acc)) then (acc ++ [(site.1, c)])%list else acc
  | None => acc
  end.
Definition guard_sites (function : string) : res (list (string * string)) :=
  allowed ← statement_anchors function;
  tree ← ast_parse function;
  match nodes "body" tree with
  | f :: _ =>
      Ok (take MAX_GUARD_TRIALS
        (fold_left (add_site allowed)
           (flat_map (fun n => map (fun c => (anchor_of (lineno (pos_of n)), c)) (site_conditions n)) (walk f)) []))
  | [] => Raise (Error "IndexError" "list index out of range")
  end.
End Anchors.
