(* ===== verification/Repair.v ===== *)
(** The repair of one function, [repair] of [app/structured_code_worker.py]
    with [validate], the git and file checks around it, and the completion of
    [app/structured_type_guard_completion.py], as a program over the calls
    that leave it: the validator's child process, the model, git, the files
    of the copy and of the state directory.  Nothing is assumed of their
    answers. *)
From Stdlib Require Import Ascii String.
From stdpp Require Import strings list.
From S2P Require Import Prelude Prog PyStr Sha256 Json PyVal PyText PyAst Names Structured Anchors.

Local Open Scope string_scope.
Local Open Scope Z_scope.

(** ** Calls *)

Module Roots.
Record t := mk { root_symlink : bool; state_symlink : bool; root : string; state : string }.
End Roots.
Module GitConfig.
Record t := mk { folder_is_dir : bool; folder_is_symlink : bool; is_file : bool; is_symlink : bool; st_size : Z }.
End GitConfig.
Module GitHooks.
Record t := mk { is_symlink : bool; exists_ : bool; items : list (bool * string); alternates : bool }.
End GitHooks.
Module TargetStat.
Record t := mk {
  root_is_dir : bool; root_is_symlink : bool; parent_is_dir : bool; parent_is_symlink : bool;
  is_file : bool; is_symlink : bool; st_nlink : Z; parent_in_root : bool }.
End TargetStat.

Inductive op : Type :=
  | run_child (payload : string)
  | propose (task : json) (source : string)
  | git (arguments : list string)
  | resolve_roots
  | make_state
  | config_stat
  | read_config                         (** the sections, each with its members *)
  | hooks_stat
  | target_stat (relative : string)
  | read_bytes (relative : string)
  | read_text (relative : string)
  | write_text (relative text : string)
  | lock (identity : string)
  | unlock (identity : string)
  | receipt_exists (identity : string)
  | read_receipt (identity : string)
  | replace_receipt (identity : string) (value : json)
  | read_patch
  | write_patch (text : string).
Definition answer (o : op) : Type :=
  match o with
  | run_child _ | git _ => Z * string
  | propose _ _ | read_receipt _ => json
  | resolve_roots => Roots.t
  | config_stat => GitConfig.t
  | read_config => list (string * list (string * string))
  | hooks_stat => GitHooks.t
  | target_stat _ => TargetStat.t
  | read_bytes _ | read_text _ | read_patch => string
  | receipt_exists _ => bool
  | _ => unit
  end.
Abbreviation P := (prog answer).
Definition ensure (c : bool) (code : string) : P unit := of_res (need c code).
(** [try: call  except (classes): raise StructuredBlocked(code)] *)
Definition or_blocked {A} (m : P A) (classes : list string) (code : string) : P A :=
  catch m (fun e => match e with
                    | Error c _ => if bool_decide (c ∈ classes) then throw (blocked code) else throw e
                    | _ => throw e
                    end).

(** ** Git and files *)

Definition run_git (arguments : list string) : P string :=
  out ← or_blocked (call (git arguments)) ["OSError"; "TimeoutExpired"] "git_unavailable";
  ensure ((out.1 =? 0) && (length_of out.2 <=? 1048576)) "git_operation" ;;
  mret (strip out.2).
Definition git_head : P string := run_git ["rev-parse"; "HEAD"].
Definition git_status : P string := run_git ["status"; "--porcelain"; "--untracked-files=all"].

Definition CORE_OPTIONS : list string :=
  ["repositoryformatversion"; "filemode"; "bare"; "logallrefupdates"; "ignorecase"; "precomposeunicode"; "symlinks"].
Definition is_false (k : string) (section : list (string * string)) : bool :=
  match lookup_key k section with Some v => String.eqb v "false" | None => true end.
Fixpoint check_sections (sections : list (string * list (string * string))) : res unit :=
  match sections with
  | [] => Ok tt
  | (name, members) :: sections' =>
      (if String.eqb name "core" then
         need (subset (keys members) CORE_OPTIONS) "git_configuration_unsafe" ;;
         need (is_false "bare" members) "bare_repository" ;;
         need (is_false "symlinks" members) "git_configuration_unsafe"
       else need (starts_with (String.append "branch " (str [chr 34])) name && subset (keys members) ["remote"; "merge"])
              "git_configuration_unsafe") ;;
      check_sections sections'
  end.
Definition clean_git_configuration : P unit :=
  c ← call config_stat;
  ensure (GitConfig.folder_is_dir c && negb (GitConfig.folder_is_symlink c)) "isolated_git_directory" ;;
  ensure (GitConfig.is_file c && negb (GitConfig.is_symlink c) && (GitConfig.st_size c <=? 16384)) "git_config_file" ;;
  sections ← or_blocked (call read_config) ["OSError"; "configparser.Error"] "git_configuration_invalid";
  of_res (check_sections sections) ;;
  h ← call hooks_stat;
  ensure (negb (GitHooks.is_symlink h) &&
          (negb (GitHooks.exists_ h) || forallb (fun i => i.1 && ends_with ".sample" i.2) (GitHooks.items h)))
    "active_git_hooks" ;;
  ensure (negb (GitHooks.alternates h)) "shared_git_objects".

Definition regular (relative : string) : P unit :=
  s ← call (target_stat relative);
  ensure (TargetStat.root_is_dir s && negb (TargetStat.root_is_symlink s) && TargetStat.parent_is_dir s &&
          negb (TargetStat.parent_is_symlink s) && TargetStat.is_file s && negb (TargetStat.is_symlink s) &&
          (TargetStat.st_nlink s =? 1) && TargetStat.parent_in_root s) "target_not_regular".

Module Attempt.
Record t := mk { attempt : Z; candidate_sha256 : string; validation : json; completion : option json }.
End Attempt.

Section Repair.
Context {py : Language}.

(** ** The validator *)

Definition validate (source : string) (task : json) : P Report.t :=
  t ← of_res (task_spec task);
  tree ← of_res (guarded source t);
  function ← of_res (extracted source t);
  result ← or_blocked (call (run_child (json_dumps (JObj [("source", JStr function); ("task", task)]))))
             ["OSError"; "TimeoutExpired"] "validator_unavailable";
  ensure ((result.1 =? 0) && (length_of result.2 <=? 131072)) "validator_process" ;;
  evidence ← match json_loads result.2 with
             | Raise e => throw (if value_failure e then blocked "validator_json" else e)
             | Ok v => mret v
             end;
  of_res (validate_report evidence t).
Definition full_pass (r : Report.t) : bool := (Report.passed r =? Report.total r) && (Report.errors r =? 0).

(** ** Completion by a type guard *)

(** One trial: a guard with a literal, rendered and validated. *)
Definition trial_reply (site : string * string) (literal : string) : json :=
  JStr (json_dumps (JObj [("edits", JList []);
    ("guards", JList [JObj [("anchor", JStr site.1); ("guard", JStr site.2); ("return_expression", JStr literal)]])])).
Definition try_guard (candidate function : string) (task : json) (site : string * string) (literal : string)
    : P (string * Report.t) :=
  assembled ← of_res (assemble_anchors (trial_reply site literal) function true);
  revised ← of_res (render candidate task (JStr (json_dumps (JObj [("function", JStr assembled.1)]))));
  checked ← validate revised task;
  mret (revised, checked).
Definition guard_proof (trials : Z) (candidate revised condition : string) (total : Z) : json :=
  JObj [("result", JStr "AST_GUARD_COMPLETED"); ("strategy", JStr "bounded_source_derived_type_guard");
        ("trials", JInt trials); ("before_sha256", JStr (sha256_of candidate)); ("after_sha256", JStr (sha256_of revised));
        ("guard_sha256", JStr (sha256_of condition)); ("validated_cases", JInt total)].
Definition Completion : Type := option (string * Report.t * json).
Fixpoint try_guards (candidate function : string) (task : json) (trials : Z) (l : list ((string * string) * string))
    : P Completion :=
  match l with
  | [] => mret None
  | (site, literal) :: l' =>
      let next := try_guards candidate function task (trials + 1) l' in
      r ← attempt (try_guard candidate function task site literal);
      match r with
      | Raise e => if is_rejected e || is_blocked e then next else throw e
      | Ok (revised, checked) =>
          if full_pass checked && bool_decide (Report.failures checked = []) && negb (String.eqb revised candidate)
          then mret (Some (revised, checked, guard_proof (trials + 1) candidate revised site.2 (Report.total checked)))
          else next
      end
  end.
Definition complete_checked_type_guard (candidate : string) (task : json) (failed : Report.t) : P Completion :=
  t ← of_res (task_spec task);
  failed ← of_res (validate_report (Report.raw failed) t);
  if Report.passed failed =? Report.total failed then mret None
  else
    function ← of_res (extracted candidate t);
    literals ← of_res (guard_return_literals function);
    if bool_decide (literals = []) then mret None
    else
      sites ← of_res (guard_sites function);
      try_guards candidate function task 0
        (take MAX_GUARD_TRIALS (flat_map (fun site => map (pair site) literals) sites)).

(** ** The repair *)

Definition is_parent (a b : string) : bool := starts_with (if ends_with "/" a then a else String.append a "/") b.
Definition task_hash (task : json) : string := sha256_of (json_dumps (sort_all task)).
Definition no_change_since (t : Task.t) : P unit :=
  head ← git_head;
  ensure (String.eqb head (Task.base_sha t)) "concurrent_change" ;;
  status ← git_status;
  ensure (String.eqb status "") "concurrent_change" ;;
  bytes ← call (read_bytes (Task.path t));
  ensure (String.eqb (sha256_hex bytes) (Task.before_sha256 t)) "concurrent_change".

Definition attempt_json (x : Attempt.t) : json :=
  JObj ([("attempt", JInt (Attempt.attempt x)); ("candidate_sha256", JStr (Attempt.candidate_sha256 x));
         ("validation", Attempt.validation x)] ++
        match Attempt.completion x with Some p => [("ast_guard_completion", p)] | None => [] end)%list.

(** A proposal, checked: what it renders to, its fingerprint and report. *)
Definition proposed (before : string) (task : json) (t : Task.t) (proposal : json) (source : string) (seen : list string)
    : P (string * string * Report.t) :=
  no_change_since t ;;
  reply ← call (propose proposal source);
  after ← of_res (render before task reply);
  ensure (negb (String.eqb after before)) "no_change" ;;
  fingerprint ← of_res (candidate_fingerprint after t);
  ensure (negb (bool_decide (fingerprint ∈ seen))) "candidate_repeated" ;;
  checked ← validate after task;
  mret (after, fingerprint, checked).
(** The two rounds: the repaired module, its report and the attempts. *)
Definition search (before : string) (task : json) (t : Task.t) : P (string * Report.t * list Attempt.t) :=
  source ← of_res (extracted before t);
  first ← proposed before task t task source [];
  let '(after, fingerprint, checked) := first in
  let attempt1 := Attempt.mk 1 (sha256_of after) (Report.raw checked) None in
  if full_pass checked then mret (after, checked, [attempt1])
  else
    feedback ← of_res (semantic_feedback task t after (Report.raw checked));
    source ← of_res (extracted after t);
    second ← proposed before task t (with_feedback task feedback) source [fingerprint];
    let '(after, _, checked) := second in
    let attempt2 := Attempt.mk 2 (sha256_of after) (Report.raw checked) in
    if full_pass checked then mret (after, checked, [attempt1; attempt2 None])
    else
      completion ← complete_checked_type_guard after task checked;
      match completion with
      | Some (after, checked, proof) =>
          ensure (full_pass checked) "candidate_tests_failed" ;;
          mret (after, checked, [attempt1; attempt2 (Some proof)])
      | None => throw (blocked "candidate_tests_failed")
      end.

(** The change in the copy: written, staged and committed. *)
Definition commit_change (t : Task.t) (after : string) : P (string * string) :=
  no_change_since t ;;
  regular (Task.path t) ;;
  call (write_text (Task.path t) after) ;;
  names ← run_git ["diff"; "--name-only"];
  ensure (String.eqb names (Task.path t)) "change_scope" ;;
  run_git ["diff"; "--check"] ;;
  diff ← run_git ["diff"; "--"; Task.path t];
  run_git ["add"; "--"; Task.path t] ;;
  staged ← run_git ["diff"; "--cached"; "--name-only"];
  ensure (String.eqb staged (Task.path t)) "staged_scope" ;;
  run_git ["-c"; "user.name=Structured Code Worker"; "-c"; "user.email=worker@localhost";
           "commit"; "-m"; "fix: validated structured-function repair"] ;;
  produced ← git_head;
  ensure (negb (String.eqb produced (Task.base_sha t))) "commit_not_proved" ;;
  status ← run_git ["status"; "--porcelain"];
  ensure (String.eqb status "") "commit_not_proved" ;;
  names ← run_git ["diff"; "--name-only"; Task.base_sha t; produced];
  ensure (String.eqb names (Task.path t)) "commit_not_proved" ;;
  mret (produced, String.append diff newline).

(** A receipt of an earlier repair of the same task. *)
Definition replay (identity : string) (task : json) (t : Task.t) : P json :=
  previous ← call (read_receipt identity);
  hash ← of_res (get "task_hash" previous);
  ensure (is_text hash (task_hash task)) "replay_changed" ;;
  produced ← of_res (get "produced_sha" previous);
  head ← git_head;
  ensure (is_text produced head) "replay_changed" ;;
  after ← of_res (get "after_sha256" previous);
  bytes ← call (read_bytes (Task.path t));
  ensure (is_text after (sha256_hex bytes)) "replay_changed" ;;
  text ← call (read_text (Task.path t));
  checked ← validate text task;
  ensure (Report.passed checked =? Report.total checked) "replay_validation" ;;
  patch ← call read_patch;
  expected ← of_res (item "patch_sha256" previous);
  ensure (is_text expected (sha256_hex patch)) "replay_patch_changed" ;;
  mret (match previous with
        | JObj ms => JObj (set_key "model_calls" (JInt 0) (set_key "replayed" (JBool true) ms))
        | v => v
        end).

Definition fresh (identity : string) (task : json) (t : Task.t) : P json :=
  before_bytes ← call (read_bytes (Task.path t));
  before ← of_res (utf8_decode before_bytes);
  head ← git_head;
  ensure (String.eqb head (Task.base_sha t) && String.eqb (sha256_hex before_bytes) (Task.before_sha256 t)) "source_changed" ;;
  baseline ← validate before task;
  ensure (Report.passed baseline <? Report.total baseline) "no_failing_baseline" ;;
  found ← search before task t;
  let '(after, checked, attempts) := found in
  produced ← commit_change t after;
  text ← call (read_text (Task.path t));
  again ← validate text task;
  ensure (py_eqb (Report.raw again) (Report.raw checked)) "post_commit_validation" ;;
  after_bytes ← call (read_bytes (Task.path t));
  let result := JObj
    [("result", JStr "STRUCTURED_CODE_REPAIRED"); ("task_id", JStr (Task.task_id t)); ("task_hash", JStr (task_hash task));
     ("base_sha", JStr (Task.base_sha t)); ("produced_sha", JStr produced.1); ("path", JStr (Task.path t));
     ("function", JStr (Task.function t)); ("before_sha256", JStr (sha256_hex before_bytes));
     ("after_sha256", JStr (sha256_hex after_bytes)); ("baseline", Report.raw baseline);
     ("validation", Report.raw checked); ("patch_sha256", JStr (sha256_of produced.2)); ("replayed", JBool false);
     ("model_calls", JInt (Z.of_nat (length attempts))); ("attempts", JList (map attempt_json attempts))] in
  call (write_patch produced.2) ;;
  call (replace_receipt identity result) ;;
  mret result.

Definition locked_repair (identity : string) (task : json) (t : Task.t) : P json :=
  regular (Task.path t) ;;
  clean_git_configuration ;;
  remote ← run_git ["remote"];
  ensure (String.eqb remote "") "remote_repository" ;;
  branch ← run_git ["branch"; "--show-current"];
  ensure (starts_with "worker/" branch) "worker_branch" ;;
  status ← git_status;
  ensure (String.eqb status "") "dirty_worktree" ;;
  known ← call (receipt_exists identity);
  if (known : bool) then replay identity task t else fresh identity task t.

Definition repair (task : json) : P json :=
  t ← of_res (task_spec task);
  r ← call resolve_roots;
  ensure (negb (Roots.root_symlink r) && negb (Roots.state_symlink r)) "symlink_root" ;;
  ensure (negb (String.eqb (Roots.root r) (Roots.state r)) && negb (is_parent (Roots.root r) (Roots.state r)) &&
          negb (is_parent (Roots.state r) (Roots.root r))) "state_location" ;;
  call make_state ;;
  let identity := sha256_of (Roots.root r) in
  or_blocked (call (lock identity)) ["FileExistsError"] "worker_busy" ;;
  finally (locked_repair identity task t) (call (unlock identity)).
End Repair.
