(* ===== verification/RepairProps.v ===== *)
(** Properties of the repair: the order of its calls, and what it writes,
    whatever the model, the validator's process, git and the files answer. *)
From Stdlib Require Import Ascii String.
From stdpp Require Import strings list sets.
From S2P Require Import Prelude Prog PyStr Sha256 Json PyVal PyText PyAst Names Structured StructuredProps Anchors Repair.

Local Open Scope Z_scope.

(** ** The validator, for any monitor *)

Section Validator.
Context {py : Language} (task : json) (t : Task.t).

(** The input of the child process for a module. *)
Definition payload_of (source : string) : option string :=
  match extracted source t with
  | Ok f => Some (json_dumps (JObj [("source", JStr f); ("task", task)]))%string
  | Raise _ => None
  end.
(** The report in an answer of the process. *)
Definition reported (out : Z * string) : option Report.t :=
  if (out.1 =? 0) && (length_of out.2 <=? 131072) then
    match json_loads out.2 with
    | Ok evidence => match validate_report evidence t with Ok r => Some r | Raise _ => None end
    | Raise _ => None
    end
  else None.

Lemma validate_spec {G} (allowed : G → op → bool) (next : G → ∀ o, res (answer o) → G) source g
    (Q : res Report.t → G → Prop) :
  task_spec task = Ok t → (∀ p, allowed g (run_child p) = true) →
  (∀ e g', g' = g ∨ (∃ p r, g' = next g (run_child p) r) → Q (Raise e) g') →
  (∀ r p out, payload_of source = Some p → reported out = Some r → Q (Ok r) (next g (run_child p) (Ok out))) →
  Prog.safe allowed next (validate source task) g Q.
Proof.
  intros Ht Ha HE HQ. unfold validate. rewrite Ht. apply safe_bind, safe_of_res.
  apply safe_bind, safe_of_res. destruct (guarded source t) as [tree|e]; [|by apply HE; left].
  apply safe_bind, safe_of_res. unfold payload_of in HQ.
  destruct (extracted source t) as [f|e] eqn:Ef; [|by apply HE; left].
  set (payload := json_dumps _) in *.
  apply safe_bind, safe_catch, (Prog.safe_call (answer:=answer) allowed next (run_child payload)); [apply Ha|].
  intros [out|e]; last first.
  { assert (∀ e' r, Q (Raise e') (next g (run_child payload) r)) as HE' by (intros; apply HE; right; eauto).
    destruct e; try apply HE'. case_bool_decide; apply HE'. }
  assert (∀ e', Q (Raise e') (next g (run_child payload) (Ok out))) as HE' by (intros; apply HE; right; eauto).
  apply safe_bind, safe_of_res. specialize (HQ) with (p := payload) (out := out). unfold reported in HQ.
  destruct ((out.1 =? 0) && _) eqn:Hout; [|apply HE'].
  destruct (json_loads out.2) as [evidence|e] eqn:El; [|apply safe_bind, safe_throw; by apply HE'].
  apply safe_bind, safe_ret, safe_of_res. destruct (validate_report evidence t) as [r|e] eqn:Er; [|apply HE'].
  by apply HQ.
Qed.
End Validator.

(** ** What the calls so far have established *)

Inductive LockState : Type := lk_free | lk_held | lk_released.
#[export] Instance LockState_eq_dec : EqDecision LockState.
Proof. solve_decision. Defined.

Record Ledger := mkLedger {
  lock_st : LockState;
  head_is_base : bool;        (** the last [rev-parse HEAD] *)
  clean : bool;               (** the last [status] *)
  source_is_base : bool;      (** the last read of the target *)
  passing : option string;    (** the input of the last child process, if every case passed *)
  proposals : nat;
  written : option string;
  scoped : bool;              (** the last [diff --name-only] *)
  staged : bool;
  committed : bool;
  recorded : bool }.
#[export] Instance Ledger_eta : Eta Ledger := fun g =>
  mkLedger (lock_st g) (head_is_base g) (clean g) (source_is_base g) (passing g) (proposals g) (written g)
    (scoped g) (staged g) (committed g) (recorded g).
Definition start : Ledger := mkLedger lk_free false false false None 0 None false false false false.

(** The arguments of git that change the copy, and those whose answer counts. *)
Inductive GitKind : Type := k_head | k_status | k_diff_names | k_cached_names | k_add | k_commit | k_read.
Definition git_kind (args : list string) : GitKind :=
  if bool_decide (args = ["rev-parse"; "HEAD"]) then k_head
  else if bool_decide (args = ["status"; "--porcelain"; "--untracked-files=all"]) then k_status
  else if bool_decide (args = ["diff"; "--name-only"]) then k_diff_names
  else if bool_decide (args = ["diff"; "--cached"; "--name-only"]) then k_cached_names
  else match args with
       | cmd :: _ => if String.eqb cmd "add" then k_add else if String.eqb cmd "-c" then k_commit else k_read
       | [] => k_read
       end%string.

Section Protocol.
Context {py : Language} (task : json) (t : Task.t).

(** What [git] of the code makes of the process's answer. *)
Definition git_result (r : res (Z * string)) : res string :=
  match r with
  | Ok out => need ((out.1 =? 0) && (length_of out.2 <=? 1048576)) "git_operation" ;; Ok (strip out.2)
  | Raise e => Raise e
  end.
Definition says (r : res string) (s : string) : bool := match r with Ok out => String.eqb out s | Raise _ => false end.
Definition succeeded (r : res string) : bool := match r with Ok _ => true | Raise _ => false end.
Definition after_git (args : list string) (r : res string) (g : Ledger) : Ledger :=
  match git_kind args with
  | k_head => g <| head_is_base := says r (Task.base_sha t) |>
  | k_status => g <| clean := says r "" |>
  | k_diff_names => g <| scoped := says r (Task.path t) |>
  | k_cached_names => g <| staged := says r (Task.path t) |>
  | k_commit => g <| committed := succeeded r |>
  | _ => g
  end.

(** A process that reports that every case passes. *)
Definition child_passes (r : res (Z * string)) : bool :=
  match r with
  | Ok out => match reported t out with Some report => full_pass report | None => false end
  | Raise _ => false
  end.
Abbreviation payload_of := (payload_of task t).

Definition ready (g : Ledger) : bool := head_is_base g && clean g && source_is_base g.
Definition unwritten (g : Ledger) : bool := match written g with None => true | Some _ => false end.
Definition allowed_held (g : Ledger) (o : op) : bool :=
  match o with
  | propose _ _ => (proposals g <? 2)%nat && unwritten g && ready g
  | write_text path text =>
      String.eqb path (Task.path t) && unwritten g && ready g && bool_decide (payload_of text = passing g) &&
      match passing g with Some _ => true | None => false end
  | git args =>
      match git_kind args with
      | k_add => negb (unwritten g) && scoped g
      | k_commit => negb (unwritten g) && scoped g && staged g && negb (committed g)
      | _ => true
      end
  | write_patch _ => committed g && negb (recorded g)
  | replace_receipt _ _ => committed g && negb (recorded g)
  | resolve_roots | make_state | lock _ => false
  | _ => true
  end.
Definition allowed (g : Ledger) (o : op) : bool :=
  match lock_st g with
  | lk_free => match o with resolve_roots | make_state | lock _ => true | _ => false end
  | lk_held => allowed_held g o
  | lk_released => false
  end.

Definition next (g : Ledger) (o : op) : res (answer o) → Ledger :=
  match o with
  | git args => fun r => after_git args (git_result r) g
  | run_child payload => fun r => g <| passing := if child_passes r then Some payload else None |>
  | read_bytes _ => fun r =>
      g <| source_is_base := match r with Ok bytes => String.eqb (sha256_hex bytes) (Task.before_sha256 t) | Raise _ => false end |>
  | propose _ _ => fun _ => g <| proposals := S (proposals g) |>
  | write_text _ text => fun _ => g <| written := Some text |>
  | lock _ => fun r => match r with Ok _ => g <| lock_st := lk_held |> | Raise _ => g end
  | unlock _ => fun _ => g <| lock_st := lk_released |>
  | replace_receipt _ _ => fun r => match r with Ok _ => g <| recorded := true |> | Raise _ => g end
  | _ => fun _ => g
  end.
Abbreviation safe := (safe allowed next).

(** The fields that only the main steps change. *)
Definition core (g : Ledger) : LockState * nat * option string * bool * bool :=
  (lock_st g, proposals g, written g, committed g, recorded g).
Definition holds (g : Ledger) : Prop := lock_st g = lk_held.

Lemma core_holds g g' : core g' = core g → holds g → holds g'.
Proof. unfold core, holds. congruence. Qed.

(** ** Rules *)

Lemma safe_use (o : op) g (Q : res (answer o) → Ledger → Prop) :
  allowed g o = true → (∀ r, Q r (next g o r)) → safe (call o) g Q.
Proof. apply (Prog.safe_call (answer:=answer)). Qed.
Lemma safe_ensure c code g (Q : res unit → Ledger → Prop) :
  (c = true → Q (Ok tt) g) → (c = false → Q (Raise (blocked code)) g) → safe (ensure c code) g Q.
Proof. intros H1 H2. apply safe_of_res. destruct c; [by apply H1|by apply H2]. Qed.
Lemma safe_or_blocked {A} (m : P A) classes code g (Q : res A → Ledger → Prop) :
  safe m g (fun x g' => match x with Ok v => Q (Ok v) g' | Raise e => ∀ e', Q (Raise e') g' end) →
  safe (or_blocked m classes code) g Q.
Proof.
  intros H. apply safe_catch. eapply safe_mono; [exact H|]. intros [v|e] g' HQ; [done|].
  destruct e; try apply HQ. case_bool_decide; apply HQ.
Qed.

Lemma safe_run_git args g (Q : res string → Ledger → Prop) :
  allowed g (git args) = true → (∀ e g', g' = after_git args (Raise e) g → ∀ e', Q (Raise e') g') →
  (∀ s, Q (Ok s) (after_git args (Ok s) g)) →
  safe (run_git args) g Q.
Proof.
  intros Ha HE HQ. apply safe_bind, safe_or_blocked. apply (safe_use (git args)); [done|].
  intros [[rc out]|e]; cbn [next git_result fst snd]; [|by eapply HE].
  apply safe_bind, safe_ensure; intros Hc; rewrite Hc; cbn; [apply HQ|by eapply HE].
Qed.

Lemma kind_core args r g : git_kind args ≠ k_commit → core (after_git args r g) = core g.
Proof. unfold after_git. by destruct (git_kind args). Qed.
(** A git command that only reads. *)
Lemma safe_git_read args g (Q : res string → Ledger → Prop) :
  holds g → git_kind args ≠ k_commit → git_kind args ≠ k_add →
  (∀ r g', core g' = core g → g' = after_git args r g → 
     match r with Ok s => Q (Ok s) g' | Raise _ => ∀ e, Q (Raise e) g' end) →
  safe (run_git args) g Q.
Proof.
  intros Hg Hk Hk' HQ. apply safe_run_git.
  - unfold allowed. rewrite Hg. cbn. by destruct (git_kind args).
  - intros e g' ->. apply (HQ (Raise e)); [by apply kind_core|done].
  - intros s. apply (HQ (Ok s)); [by apply kind_core|done].
Qed.

(** A call that only reads, whatever it is answered. *)
Definition reads (o : op) : bool :=
  match o with
  | run_child _ | config_stat | read_config | hooks_stat | target_stat _ | read_bytes _ | read_text _ | receipt_exists _
  | read_receipt _ | read_patch => true
  | _ => false
  end.
Lemma safe_read o g (Q : res (answer o) → Ledger → Prop) :
  holds g → reads o = true → (∀ r g', core g' = core g → g' = next g o r → Q r g') → safe (call o) g Q.
Proof.
  intros Hg Ho HQ. apply (safe_use o).
  - unfold allowed. rewrite Hg. by destruct o.
  - intros r. apply HQ; [|done]. by destruct o.
Qed.

(** *** Parts that only look *)

Definition quiet (o : op) : bool :=
  match o with
  | git args => match git_kind args with k_add | k_commit => false | _ => true end
  | _ => reads o
  end.
Definition looks {A} (m : P A) : Prop := Prog.only quiet m (fun _ => True).
Lemma safe_looking {A} (m : P A) g (Q : res A → Ledger → Prop) :
  holds g → looks m → (∀ x g', core g' = core g → Q x g') → safe m g Q.
Proof.
  intros Hg Hm HQ. eapply (safe_within _ _ quiet (fun g' => core g' = core g)); [|exact Hm|done|by auto].
  intros g' o r Hc Ho. assert (holds g') as Hg' by by eapply core_holds.
  unfold allowed. rewrite Hg'. split.
  - destruct o; try done. cbn in *. by destruct (git_kind arguments).
  - rewrite <- Hc. destruct o; try done. apply kind_core. intros E. cbn in Ho. by rewrite E in Ho.
Qed.

Lemma only_bind {A B} (m : P A) (f : A → P B) :
  looks m → (∀ a, looks (f a)) →
  looks (x ← m; f x).
Proof.
  intros Hm Hf. apply Prog.safe_bind. eapply Prog.safe_mono; [exact Hm|]. intros [a|e] [] _; [apply Hf|done].
Qed.
Lemma only_of_res {A} (r : res A) : looks (of_res r).
Proof. by destruct r. Qed.
Lemma only_call o : quiet o = true → looks (call o).
Proof. intros H. split; [done|]. intros r. apply only_of_res. Qed.
Lemma only_catch {A} (m : P A) h :
  looks m → (∀ e, looks (h e)) →
  looks (catch m h).
Proof.
  intros Hm Hf. apply Prog.safe_catch. eapply Prog.safe_mono; [exact Hm|]. intros [a|e] [] _; [done|apply Hf].
Qed.
Lemma only_or_blocked {A} (m : P A) classes code :
  looks m → looks (or_blocked m classes code).
Proof. intros Hm. apply only_catch; [done|]. intros e. destruct e; try done. by case_bool_decide. Qed.
Lemma only_run_git args : quiet (git args) = true → looks (run_git args).
Proof.
  intros H. apply only_bind; [apply only_or_blocked; by apply (only_call (git args))|].
  intros out. apply only_bind; [apply only_of_res|done].
Qed.

Lemma only_regular relative : looks (regular relative).
Proof. apply only_bind; [by apply (only_call (target_stat _))|]. intros s. apply only_of_res. Qed.
Lemma only_clean_configuration : looks clean_git_configuration.
Proof.
  unfold clean_git_configuration.
  apply only_bind; [by apply (only_call config_stat)|]. intros c.
  do 2 (apply only_bind; [apply only_of_res|]; intros _).
  apply only_bind; [apply only_or_blocked; by apply (only_call read_config)|]. intros sections.
  apply only_bind; [apply only_of_res|]. intros _.
  apply only_bind; [by apply (only_call hooks_stat)|]. intros h.
  apply only_bind; [apply only_of_res|]. intros _. apply only_of_res.
Qed.

(** *** The unchanged copy *)

Lemma safe_no_change g (Q : res unit → Ledger → Prop) :
  holds g → (∀ e g', core g' = core g → Q (Raise e) g') →
  (∀ g', core g' = core g → ready g' = true → passing g' = passing g → Q (Ok tt) g') →
  safe (no_change_since t) g Q.
Proof.
  intros Hg HE HQ. unfold no_change_since, git_head, git_status.
  apply safe_bind, safe_git_read; [done..|]. intros [h|e] g1 Hc1 Hg1; [|intros e'; by apply HE].
  apply safe_bind, safe_ensure; intros Hh; [|by apply HE].
  apply safe_bind, safe_git_read; [by eapply core_holds|done..|]. intros [s|e] g2 Hc2 Hg2; [|intros e'; apply HE; congruence].
  apply safe_bind, safe_ensure; intros Hs; [|apply HE; congruence].
  apply safe_bind. apply (safe_read (read_bytes _)); [by eapply core_holds; [|exact Hg]; congruence|done|].
  intros [b|e] g3 Hc3 ->; [|apply HE; congruence].
  apply safe_ensure; intros Hb; [|apply HE; congruence].
  change (g1 = g <| head_is_base := (h =? Task.base_sha t)%string |>) in Hg1.
  change (g2 = g1 <| clean := (s =? "")%string |>) in Hg2. subst g1 g2.
  apply HQ; [congruence| |done]. change ((h =? Task.base_sha t)%string && (s =? "")%string && (sha256_hex b =? Task.before_sha256 t)%string = true).
  by rewrite Hb, Hs, Hh.
Qed.

(** *** The validator *)

Context (Ht : task_spec task = Ok t).

Lemma safe_validate source g (Q : res Report.t → Ledger → Prop) :
  holds g → (∀ e g', core g' = core g → Q (Raise e) g') →
  (∀ r g', core g' = core g → (full_pass r = true → passing g' = payload_of source ∧ is_Some (passing g')) → Q (Ok r) g') →
  safe (validate source task) g Q.
Proof.
  intros Hg HE HQ. apply (validate_spec task t); [done|by intros p; unfold allowed; rewrite Hg| |].
  - intros e g' [->|(p & r & ->)]; by apply HE.
  - intros r p out Hp Hr. apply HQ; [done|]. intros Hfull. cbn [next child_passes]. rewrite Hr, Hfull.
    cbn. rewrite Hp. split; [done|by eexists].
Qed.

(** A module that the last child process passed. *)
Definition passed_by (g : Ledger) (source : string) : Prop :=
  passing g = payload_of source ∧ is_Some (passing g).

(** *** The completion *)

Lemma safe_try_guards candidate function l trials g (Q : res Completion → Ledger → Prop) :
  holds g → (∀ e g', core g' = core g → Q (Raise e) g') → (∀ g', core g' = core g → Q (Ok None) g') →
  (∀ s r proof g' reply, core g' = core g → full_pass r = true → passed_by g' s →
     render candidate task reply = Ok s → Q (Ok (Some (s, r, proof))) g') →
  safe (try_guards candidate function task trials l) g Q.
Proof.
  intros Hg HE HN HQ. revert trials g Hg HE HN HQ. induction l as [|[site literal] l IH]; intros trials g Hg HE HN HQ.
  { by apply HN. }
  cbn [try_guards].
  assert (∀ g', core g' = core g → safe (try_guards candidate function task (trials + 1) l) g' Q) as Hnext.
  { intros g' Hc. apply IH; [by eapply core_holds|..]; intros; [apply HE|apply HN|eapply HQ]; eauto; congruence. }
  apply safe_bind, safe_attempt. unfold try_guard.
  assert (∀ e g', core g' = core g →
    safe (if is_rejected e || is_blocked e then try_guards candidate function task (trials + 1) l else throw e) g' Q) as Hfail.
  { intros e g' Hc. destruct (_ || _); [by apply Hnext|]. apply safe_throw. by apply HE. }
  apply safe_bind, safe_of_res. destruct (assemble_anchors _ _ _) as [assembled|e]; [|by apply Hfail].
  apply safe_bind, safe_of_res. destruct (render candidate _ _) as [revised|e] eqn:Er; [|by apply Hfail].
  apply safe_bind, safe_validate; [done|by intros e g' Hc; apply Hfail|].
  intros r g' Hc Hp. cbn.
  destruct (full_pass r && _ && _) eqn:E; [|by apply Hnext].
  apply andb_split in E as [[E1 _]%andb_split _]. by eapply HQ; eauto; apply Hp.
Qed.

Lemma safe_complete candidate failed g (Q : res Completion → Ledger → Prop) :
  holds g → (∀ e g', core g' = core g → Q (Raise e) g') → (∀ g', core g' = core g → Q (Ok None) g') →
  (∀ s r proof g' reply, core g' = core g → full_pass r = true → passed_by g' s →
     render candidate task reply = Ok s → Q (Ok (Some (s, r, proof))) g') →
  safe (complete_checked_type_guard candidate task failed) g Q.
Proof.
  intros Hg HE HN HQ. unfold complete_checked_type_guard. rewrite Ht.
  apply safe_bind, safe_of_res, safe_bind, safe_of_res. destruct (validate_report _ t) as [f|e]; [|by apply HE].
  destruct (_ =? _); [by apply safe_ret, HN|].
  apply safe_bind, safe_of_res. destruct (extracted candidate t) as [function|e]; [|by apply HE].
  apply safe_bind, safe_of_res. destruct (guard_return_literals function) as [literals|e]; [|by apply HE].
  case_bool_decide; [by apply safe_ret, HN|].
  apply safe_bind, safe_of_res. destruct (guard_sites function) as [sites|e]; [|by apply HE].
  by apply safe_try_guards.
Qed.

(** *** The search *)

(** What the written module comes from: the original one by one or two
    renderings. *)
Definition derived (before s : string) : Prop :=
  ∃ s1 reply1, render before task reply1 = Ok s1 ∧ (s = s1 ∨ ∃ reply2, render s1 task reply2 = Ok s).

Lemma safe_proposed before proposal source seen g n (Q : res (string * string * Report.t) → Ledger → Prop) :
  core g = (lk_held, n, None, false, false) → (n < 2)%nat →
  (∀ e g', core g' = (lk_held, n, None, false, false) ∨ core g' = (lk_held, S n, None, false, false) → Q (Raise e) g') →
  (∀ s f r g' reply, core g' = (lk_held, S n, None, false, false) → (full_pass r = true → passed_by g' s) →
     render before task reply = Ok s → Q (Ok (s, f, r)) g') →
  safe (proposed before task t proposal source seen) g Q.
Proof.
  intros Hg Hn HE HQ. assert (holds g) as Hh by (unfold holds; unfold core in Hg; congruence).
  apply safe_bind, safe_no_change; [done|by intros e g' Hc; apply HE; left; congruence|].
  intros g1 Hc1 Hready _. assert (core g1 = (lk_held, n, None, false, false)) as Hg1 by congruence.
  apply safe_bind. apply (safe_use (propose _ _)).
  { pose proof Hg1 as E. injection E as Hl Hp Hw _ _. apply Nat.ltb_lt in Hn.
    unfold allowed, allowed_held, unwritten. by rewrite Hl, Hp, Hw, Hready, Hn. }
  set (g2 := g1 <| proposals := S (proposals g1) |>).
  assert (core g2 = (lk_held, S n, None, false, false)) as Hg2 by (unfold core in *; cbn; congruence).
  assert (holds g2) as Hh2 by (unfold holds; unfold core in Hg2; congruence).
  intros [reply|e]; cbn [next]; [|by apply HE; right].
  apply safe_bind, safe_of_res. destruct (render before task reply) as [after|e] eqn:Er; [|by apply HE; right].
  apply safe_bind, safe_ensure; intros _; [|by apply HE; right].
  apply safe_bind, safe_of_res. destruct (candidate_fingerprint after t) as [f|e]; [|by apply HE; right].
  apply safe_bind, safe_ensure; intros _; [|by apply HE; right].
  apply safe_bind, safe_validate; [done|by intros e g' Hc; apply HE; right; rewrite Hc|].
  intros r g' Hc Hp. apply safe_ret. eapply HQ; [by rewrite Hc|exact Hp|exact Er].
Qed.

Lemma safe_search before g (Q : res (string * Report.t * list Attempt.t) → Ledger → Prop) :
  core g = (lk_held, 0%nat, None, false, false) →
  (∀ e g' n, core g' = (lk_held, n, None, false, false) → Q (Raise e) g') →
  (∀ s r attempts g' n, core g' = (lk_held, n, None, false, false) → passed_by g' s → derived before s →
     Q (Ok (s, r, attempts)) g') →
  safe (search before task t) g Q.
Proof.
  intros Hg HE HQ. unfold search.
  apply safe_bind, safe_of_res. destruct (extracted before t) as [source|e]; [|by eapply HE].
  apply safe_bind. eapply safe_proposed; [exact Hg|lia|by intros e g' [Hc|Hc]; eapply HE|].
  intros s f r g1 reply Hc1 Hp1 Hr1. cbn beta iota zeta.
  destruct (full_pass r) eqn:Ep; [apply safe_ret; eapply HQ; [done|by apply Hp1|by exists s, reply; auto]|].
  apply safe_bind, safe_of_res. destruct (semantic_feedback _ _ _ _) as [feedback|e]; [|by eapply HE].
  apply safe_bind, safe_of_res. destruct (extracted s t) as [source2|e]; [|by eapply HE].
  apply safe_bind. eapply safe_proposed; [exact Hc1|lia|by intros e g' [Hc|Hc]; eapply HE|].
  intros s2 f2 r2 g2 reply2 Hc2 Hp2 Hr2. cbn beta iota zeta.
  destruct (full_pass r2) eqn:Ep2; [apply safe_ret; eapply HQ; [done|by apply Hp2|by exists s2, reply2; auto]|].
  assert (holds g2) as Hh2 by (unfold holds; unfold core in Hc2; congruence).
  apply safe_bind, safe_complete; [done|intros e g' Hc; eapply HE; by rewrite Hc| |].
  - intros g' Hc. apply safe_throw. eapply HE. by rewrite Hc.
  - intros s3 r3 proof g3 reply3 Hc3 Hp3 Hpass Hr3. rewrite Hp3. apply safe_bind, safe_ensure; intros H; [|done].
    apply safe_ret. eapply HQ; [by rewrite Hc3|done|]. exists s2, reply2. split; [done|]. right. by exists reply3.
Qed.

(** *** The change *)

(** After the module may have been written. *)
Definition late (after : string) (g : Ledger) : Prop :=
  holds g ∧ (written g = None ∨ written g = Some after) ∧ recorded g = false.
Lemma late_core after g g' : core g' = core g → late after g → late after g'.
Proof. unfold late, holds, core. intros [= -> _ -> _ ->]. done. Qed.

(** A git command after the module was written. *)
Lemma safe_git_late after args g (Q : res string → Ledger → Prop) :
  late after g → git_kind args ≠ k_commit → git_kind args ≠ k_add →
  (∀ e g', late after g' → Q (Raise e) g') → (∀ s, Q (Ok s) (after_git args (Ok s) g)) →
  safe (run_git args) g Q.
Proof.
  intros Hl H1 H2 HE HQ. apply safe_git_read; [apply Hl|done..|].
  intros [s|e] g' Hc ->; [apply HQ|]. intros e'. apply HE. by eapply late_core.
Qed.

Lemma safe_commit after g n (Q : res (string * string) → Ledger → Prop) :
  core g = (lk_held, n, None, false, false) → passed_by g after →
  (∀ e g', late after g' → Q (Raise e) g') →
  (∀ v g', core g' = (lk_held, n, Some after, true, false) → Q (Ok v) g') →
  safe (commit_change t after) g Q.
Proof.
  intros Hg [Hpass Hsome] HE HQ.
  assert (∀ g', core g' = core g → late after g') as Hearly.
  { intros g' Hc. unfold late, holds. unfold core in *. rewrite Hg in Hc. injection Hc as -> _ -> _ ->. auto. }
  unfold commit_change. apply safe_bind, safe_no_change; [by apply (Hearly g)|by intros; apply HE, Hearly|].
  intros g1 Hc1 Hready Hp1. apply safe_bind. unfold regular. apply safe_bind.
  apply (safe_read (target_stat _)); [by apply Hearly|done|]. intros [st|e] g' _ ->; [|by apply HE, Hearly].
  cbn [next]. apply safe_ensure; intros _; [|by apply HE, Hearly].
  assert (core g1 = (lk_held, n, None, false, false)) as Hg1 by congruence. pose proof Hg1 as E. injection E as Hlk Hpr Hw Hcm Hrc.
  apply safe_bind. apply (safe_use (write_text _ _)).
  { unfold allowed, allowed_held, unwritten. rewrite Hlk, String.eqb_refl, Hw, Hready, Hp1, <- Hpass. cbn.
    rewrite bool_decide_eq_true_2 by done. by destruct Hsome as [x ->]. }
  set (g2 := g1 <| written := Some after |>).
  assert (late after g2) as Hl2 by (split; [done|split; [by right|done]]).
  intros [[]|e]; cbn [next]; [|by apply HE].
  apply safe_bind, (safe_git_late after); [done..|]. intros names. apply safe_bind, safe_ensure; intros Hn; [|by apply HE].
  change (after_git _ _ _) with (g2 <| scoped := (names =? Task.path t)%string |>). rewrite Hn.
  set (g3 := g2 <| scoped := true |>). assert (late after g3) as Hl3 by done.
  apply safe_bind, (safe_git_late after); [done..|]. intros ?. change (after_git _ _ _) with g3.
  apply safe_bind, (safe_git_late after); [done..|]. intros diff. change (after_git _ _ _) with g3.
  apply safe_bind, safe_run_git.
  { unfold allowed. by change (lock_st g3) with (lock_st g1); rewrite Hlk. }
  { intros e g' -> e'. by apply HE. }
  intros ?. change (after_git _ _ _) with g3.
  apply safe_bind, (safe_git_late after); [done..|]. intros names1. apply safe_bind, safe_ensure; intros Hs; [|by apply HE].
  change (after_git _ _ _) with (g3 <| staged := (names1 =? Task.path t)%string |>). rewrite Hs.
  set (g4 := g3 <| staged := true |>). assert (late after g4) as Hl4 by done.
  apply safe_bind, safe_run_git.
  { unfold allowed. change (lock_st g4) with (lock_st g1). rewrite Hlk. cbn. change (committed g4) with (committed g1).
    by rewrite Hcm. }
  { intros e g' -> e'. by apply HE. }
  intros ?. change (after_git _ _ _) with (g4 <| committed := true |>).
  set (g5 := g4 <| committed := true |>). assert (late after g5) as Hl5 by done.
  assert (core g5 = (lk_held, n, Some after, true, false)) as Hg5 by (unfold core; cbn; congruence).
  assert (∀ g', core g' = core g5 → late after g') as Hlate by (intros; by eapply late_core).
  unfold git_head. apply safe_bind, safe_git_read; [apply Hl5|done..|].
  intros [produced|e] g6 Hc6 _; [|by intros; apply HE, Hlate].
  apply safe_bind, safe_ensure; intros _; [|by apply HE, Hlate].
  apply safe_bind, safe_git_read; [by apply Hlate|done..|].
  intros [status|e] g7 Hc7 _; [|intros; apply HE, Hlate; congruence].
  apply safe_bind, safe_ensure; intros _; [|apply HE, Hlate; congruence].
  apply safe_bind, safe_git_read; [apply Hlate; congruence|done..|].
  intros [names2|e] g8 Hc8 _; [|intros; apply HE, Hlate; congruence].
  apply safe_bind, safe_ensure; intros _; [|apply HE, Hlate; congruence].
  apply safe_ret, HQ. congruence.
Qed.

(** *** The whole repair *)

Lemma looks_validate source : looks (validate source task).
Proof.
  unfold validate. do 3 (apply only_bind; [apply only_of_res|]; intros ?).
  apply only_bind; [apply only_or_blocked; by apply (only_call (run_child _))|]. intros out.
  apply only_bind; [apply only_of_res|]. intros _.
  apply only_bind; [by destruct (json_loads out.2)|]. intros evidence. apply only_of_res.
Qed.
Lemma looks_replay identity : looks (replay identity task t).
Proof.
  unfold replay. apply only_bind; [by apply (only_call (read_receipt _))|]. intros previous.
  do 3 (apply only_bind; [apply only_of_res|]; intros ?).
  apply only_bind; [by apply only_run_git|]. intros h.
  do 2 (apply only_bind; [apply only_of_res|]; intros ?).
  apply only_bind; [by apply (only_call (read_bytes _))|]. intros bytes.
  apply only_bind; [apply only_of_res|]. intros _.
  apply only_bind; [by apply (only_call (read_text _))|]. intros text.
  apply only_bind; [apply looks_validate|]. intros checked.
  apply only_bind; [apply only_of_res|]. intros _.
  apply only_bind; [by apply (only_call read_patch)|]. intros patch.
  do 2 (apply only_bind; [apply only_of_res|]; intros ?). done.
Qed.

(** What is in the copy comes from the module that the task names, and a
    repair that returned either committed and recorded it or is a replay. *)
Definition settled {A} (x : res A) (g : Ledger) : Prop :=
  (∀ s, written g = Some s → ∃ bytes before, sha256_hex bytes = Task.before_sha256 t ∧
     utf8_decode bytes = Ok before ∧ derived before s) ∧
  (∀ v, x = Ok v → (committed g = true ∧ recorded g = true ∧ is_Some (written g)) ∨
     (proposals g = 0%nat ∧ written g = None)).
Definition done_with {A} (x : res A) (g : Ledger) : Prop := holds g ∧ settled x g.

Lemma done_raise {A} e g n : core g = (lk_held, n, None, false, false) → done_with (A:=A) (Raise e) g.
Proof. unfold core. intros [= Hl _ Hw _ _]. split; [done|]. split; [by rewrite Hw|done]. Qed.

Lemma safe_fresh identity g :
  core g = (lk_held, 0%nat, None, false, false) → safe (fresh identity task t) g done_with.
Proof.
  intros Hg. unfold fresh.
  assert (∀ g', core g' = core g → holds g') as Hheld
    by (intros g' Hc; rewrite Hg in Hc; unfold core in Hc; unfold holds; congruence).
  assert (∀ A e g', core g' = core g → done_with (A:=A) (Raise e) g') as Hraise
    by (intros; eapply done_raise; by etransitivity).
  apply safe_bind. apply (safe_read (read_bytes _)); [by apply Hheld|done|]. intros [bytes|e] g1 Hc1 _; [|by apply Hraise].
  apply safe_bind, safe_of_res. destruct (utf8_decode bytes) as [before|e] eqn:Eu; [|by apply Hraise].
  unfold git_head. apply safe_bind, safe_git_read; [by apply Hheld|done..|].
  intros [h|e] g2 Hc2 _; [|intros e'; apply Hraise; congruence].
  apply safe_bind, safe_ensure; intros Hb; [|apply Hraise; congruence].
  apply andb_split in Hb as [_ Hb%String.eqb_eq].
  apply safe_bind, safe_validate; [apply Hheld; congruence|intros; apply Hraise; congruence|].
  intros baseline g3 Hc3 _. apply safe_bind, safe_ensure; intros _; [|apply Hraise; congruence].
  apply safe_bind, safe_search; [congruence|intros; by eapply done_raise|].
  intros after checked attempts g4 n Hc4 Hpass Hd. cbn beta iota zeta.
  assert (∀ (x : res json) g', written g' = Some after →
    (∀ v, x = Ok v → committed g' = true ∧ recorded g' = true) → settled x g') as Hset.
  { intros x g' Hw Hv. split; [|intros v ->; left; destruct (Hv v eq_refl); rewrite Hw; eauto].
    rewrite Hw. intros s [= <-]. by exists bytes, before. }
  apply safe_bind, (safe_commit after _ n); [done..| |].
  { intros e g' (Hh & [Hw|Hw] & _); (split; [done|]); [split; [by rewrite Hw|done]|by apply Hset]. }
  intros produced g5 Hc5.
  assert (∀ (x : res json) g', core g' = core g5 → (∀ v, x ≠ Ok v) → done_with x g') as Hfail.
  { intros x g' Hc Hx. rewrite Hc5 in Hc. unfold core in Hc. injection Hc as Hl _ Hw _ _.
    split; [done|]. apply Hset; [done|]. intros v ->. by destruct (Hx v). }
  assert (∀ g', core g' = core g5 → holds g') as Hheld5
    by (intros g' Hc; rewrite Hc5 in Hc; unfold core in Hc; unfold holds; congruence).
  apply safe_bind. apply (safe_read (read_text _)); [by apply Hheld5|done|]. intros [text|e] g6 Hc6 _; [|by apply Hfail].
  apply safe_bind, safe_validate; [by apply Hheld5|intros; by apply Hfail; [congruence|]|].
  intros again g7 Hc7 _. apply safe_bind, safe_ensure; intros _; [|by apply Hfail; [congruence|]].
  apply safe_bind. apply (safe_read (read_bytes _)); [apply Hheld5; congruence|done|].
  intros [final|e] g8 Hc8 _; [|by apply Hfail; [congruence|]].
  assert (core g8 = (lk_held, n, Some after, true, false)) as Hg8 by congruence.
  pose proof Hg8 as E. injection E as Hl _ Hw Hcm Hrc.
  apply safe_bind. apply (safe_use (write_patch _)); [by unfold allowed, allowed_held; rewrite Hl, Hcm, Hrc|].
  intros [[]|e]; cbn [next]; [|by apply Hfail; [congruence|]].
  apply safe_bind. apply (safe_use (replace_receipt _ _)); [by unfold allowed, allowed_held; rewrite Hl, Hcm, Hrc|].
  intros [[]|e]; cbn [next]; [|by apply Hfail; [congruence|]].
  apply safe_ret. split; [done|]. by apply Hset.
Qed.

Lemma safe_locked_repair identity g :
  core g = (lk_held, 0%nat, None, false, false) → safe (locked_repair identity task t) g done_with.
Proof.
  intros Hg. unfold locked_repair, git_status.
  assert (∀ g', core g' = core g → holds g') as Hheld
    by (intros g' Hc; rewrite Hg in Hc; unfold core in Hc; unfold holds; congruence).
  assert (∀ A e g', core g' = core g → done_with (A:=A) (Raise e) g') as Hraise
    by (intros; eapply done_raise; by etransitivity).
  apply safe_bind, safe_looking; [by apply Hheld|apply only_regular|]. intros [[]|e] g1 Hc1; [|by apply Hraise].
  apply safe_bind, safe_looking; [by apply Hheld|apply only_clean_configuration|].
  intros [[]|e] g2 Hc2; [|apply Hraise; congruence].
  apply safe_bind, safe_looking; [apply Hheld; congruence|by apply only_run_git|].
  intros [remote|e] g3 Hc3; [|apply Hraise; congruence].
  apply safe_bind, safe_ensure; intros _; [|apply Hraise; congruence].
  apply safe_bind, safe_looking; [apply Hheld; congruence|by apply only_run_git|].
  intros [branch|e] g4 Hc4; [|apply Hraise; congruence].
  apply safe_bind, safe_ensure; intros _; [|apply Hraise; congruence].
  apply safe_bind, safe_looking; [apply Hheld; congruence|by apply only_run_git|].
  intros [status|e] g5 Hc5; [|apply Hraise; congruence].
  apply safe_bind, safe_ensure; intros _; [|apply Hraise; congruence].
  apply safe_bind. apply (safe_read (receipt_exists _)); [apply Hheld; congruence|done|].
  intros [known|e] g6 Hc6 _; [|apply Hraise; congruence].
  destruct known; [|apply safe_fresh; congruence].
  apply safe_looking; [apply Hheld; congruence|apply looks_replay|].
  intros x g7 Hc7. assert (core g7 = (lk_held, 0%nat, None, false, false)) as E by congruence.
  injection E as Hl Hp Hw _ _. split; [done|]. split; [by rewrite Hw|]. intros v _. by right.
Qed.

(** The lock is not held when the repair ends. *)
Definition finished {A} (x : res A) (g : Ledger) : Prop := lock_st g ≠ lk_held ∧ settled x g.

Lemma safe_repair : safe (repair task) start finished.
Proof.
  unfold repair. rewrite Ht. apply safe_bind, safe_of_res.
  assert (∀ A e, finished (A:=A) (Raise e) start) as Hstart by (intros; by repeat split).
  apply safe_bind. apply (safe_use resolve_roots); [done|]. intros [r|e]; cbn [next]; [|apply Hstart].
  do 2 (apply safe_bind, safe_ensure; intros _; [|apply Hstart]).
  apply safe_bind. apply (safe_use make_state); [done|]. intros [[]|e]; cbn [next]; [|apply Hstart].
  apply safe_bind, safe_or_blocked. apply (safe_use (lock _)); [done|].
  intros [[]|e]; cbn [next]; [|intros; apply Hstart].
  apply safe_finally. eapply safe_mono; [by apply safe_locked_repair|].
  intros x g [Hh Hs]. apply (safe_use (unlock _)); [by unfold allowed; rewrite Hh|].
  intros [[]|e]; cbn [next]; (split; [done|]); [exact Hs|]. destruct Hs as [Hs _]. by split.
Qed.
End Protocol.
