(* ===== verification/CodeWorkerProps.v ===== *)
(** What the structured code worker promises: which modules it writes, what a
    rendering changes, and that the validator's report says what happened.
    Before the properties, a concrete repair that instantiates them: a module of
    one function, a model that corrects it, a validator's process that runs its
    two cases, a copy under git and a parser that knows the two texts. *)
From Stdlib Require Import Ascii String.
From stdpp Require Import strings list.
From S2P Require Import Prelude Prog PyStr Sha256 Json PyVal PyText PyAst Names Structured StructuredProps.
From S2P Require Import Anchors Repair RepairProps.

Local Open Scope string_scope.
Local Open Scope Z_scope.
Local Open Scope list_scope.

(** ** The language, as far as the two texts need it *)

Definition f_text (n : Z) : string := concat_text ["def f(x):"; newline; "    return "; int_text n].
Definition f_source (n : Z) : string := String.append (f_text n) newline.
Definition at_line (l : nat) (c : Z) (e : nat) : position := at_position l c e.
Definition constant_node (n : Z) : node := Node "Constant" (at_line 2 11 2) [("value", a_const (c_json (JInt n)))] [].
Definition f_node (n : Z) : node :=
  Node "FunctionDef" (at_line 1 0 2) [("name", a_text "f")]
    [("args", [Some (Node "arguments" (at_line 0 0 0) []
        [("posonlyargs", []); ("args", [Some (Node "arg" (at_line 1 6 1) [("arg", a_text "x")] [("annotation", [])])]);
         ("vararg", []); ("kwonlyargs", []); ("kwarg", []); ("defaults", [])])]);
     ("body", [Some (Node "Return" (at_line 2 4 2) [] [("value", [Some (constant_node n)])])]);
     ("decorator_list", []); ("returns", []); ("type_params", [])].
Definition module_node (n : Z) : node := Node "Module" (at_line 0 0 0) [] [("body", [Some (f_node n)])].
(** The first constant of a tree. *)
Definition constant_in (n : node) : Z :=
  match List.find (is_node "Constant") (walk n) with
  | Some c => match const_of c with c_json (JInt z) => z | _ => 0 end
  | None => 0
  end.
Definition fail_report : json :=
  JObj [("passed", JInt 0); ("total", JInt 2); ("errors", JInt 0);
        ("failures", JList (map (fun i => JObj [("case_index", JInt i);
           ("observed", JObj [("kind", JStr "value"); ("type", JStr "int"); ("value", JInt 1)])]) [0; 1]))].
Definition pass_report : json :=
  JObj [("passed", JInt 2); ("total", JInt 2); ("errors", JInt 0); ("failures", JList [])].
Definition reply_value : json := JObj [("function", JStr (f_source 2))].
Definition syntax_error : exn := Error "SyntaxError" "invalid syntax".
#[export] Instance demo_language : Language := {|
  ast_parse s :=
    if existsb (String.eqb s) [f_text 1; f_source 1] then Ok (module_node 1)
    else if existsb (String.eqb s) [f_text 2; f_source 2] then Ok (module_node 2) else Raise syntax_error;
  ast_parse_eval s := Raise syntax_error;
  ast_unparse n := if is_node "Constant" n then int_text (constant_in n) else f_text (constant_in n);
  ast_dump n := f_text (constant_in n);
  repr_text s := s;
  json_loads s :=
    match List.find (fun v => String.eqb s (json_dumps v)) [reply_value; fail_report; pass_report] with
    | Some v => Ok v
    | None => Raise (ValueError "Expecting value")
    end;
  utf8_decode s := Ok s |}.

(** ** The task and its surroundings *)

Definition base_commit : string := "1111111111111111111111111111111111111111".
Definition new_commit : string := "2222222222222222222222222222222222222222".
Definition demo_case (n : Z) : json := JObj [("args", JList [JInt n]); ("expected", JInt 2)].
Definition demo_task : json :=
  JObj [("task_id", JStr "t-1"); ("path", JStr "app/f.py"); ("function", JStr "f"); ("parameters", JList [JStr "x"]);
        ("instruction", JStr "Return two."); ("base_sha", JStr base_commit);
        ("before_sha256", JStr (sha256_hex (f_source 1))); ("cases", JList [demo_case 1; demo_case 5])].
Definition demo_parsed : Task.t :=
  match task_spec demo_task with Ok t => t | Raise _ => Task.mk "" "" "" [] "" "" "" [] JNull end.

(** The copy: the text of the module and whether it was committed. *)
Definition Copy : Type := string * bool.
Definition demo_git (args : list string) (e : Copy) : string :=
  match args with
  | "rev-parse" :: _ => if e.2 then new_commit else base_commit
  | "branch" :: _ => "worker/t-1"
  | "diff" :: "--check" :: _ | "diff" :: "--" :: _ => ""
  | "diff" :: _ => "app/f.py"
  | _ => ""
  end.
Definition demo_world (o : op) (e : Copy) : res (answer o) * Copy :=
  match o return res (answer o) * Copy with
  | run_child payload => (Ok (0, json_dumps (if contains "return 2" payload then pass_report else fail_report)), e)
  | propose _ _ => (Ok (JStr (json_dumps reply_value)), e)
  | git args => (Ok (0, demo_git args e), match args with "-c" :: _ => (e.1, true) | _ => e end)
  | resolve_roots => (Ok (Roots.mk false false "/copy" "/state"), e)
  | config_stat => (Ok (GitConfig.mk true false true false 64), e)
  | read_config => (Ok [("core", [("bare", "false")])], e)
  | hooks_stat => (Ok (GitHooks.mk false false [] false), e)
  | target_stat _ => (Ok (TargetStat.mk true false true false true false 1 true), e)
  | read_bytes _ | read_text _ => (Ok e.1, e)
  | write_text _ text => (Ok tt, (text, e.2))
  | receipt_exists _ => (Ok false, e)
  | read_receipt _ => (Ok JNull, e)
  | read_patch => (Ok "", e)
  | make_state | lock _ | unlock _ | replace_receipt _ _ | write_patch _ => (Ok tt, e)
  end.
Definition demo_repair := Prog.execute demo_world (repair demo_task) (f_source 1, false).
Example demo_repair_result :
  (match demo_repair.2.1 with Ok v => value_of "result" v | Raise _ => None end) = Some (JStr "STRUCTURED_CODE_REPAIRED") ∧
  demo_repair.2.2 = (f_source 2, true).
Proof. vm_compute. split; reflexivity. Qed.

(** ** Rendering *)


Definition demo_reply : json := JStr (json_dumps reply_value).
Lemma demo_positioned : positioned (f_source 1).
Proof.
  intros tree f Htree Hf. vm_compute in Htree. injection Htree as <-. vm_compute in Hf.
  apply list_elem_of_In in Hf. destruct Hf as [<-|[]]. cbn. lia.
Qed.

(** ** Reports *)

(** C23: the parent process accepts every report that its child makes of a
    task, whatever the candidate does on each case, and reads in it the number
    of cases and of the cases that pass, and as failing exactly the indices of
    the cases on which the candidate did not return a JSON value of the type
    and value expected. *)
Theorem report_says_what_happened (call : list json → Outcome) (t : Task.t)
    (Hvalues : ∀ args, wf_outcome (call args)) :
  ∃ r, validate_report (child_report call t) t = Ok r ∧
    Report.total r = Z.of_nat (length (Task.cases t)) ∧
    Report.passed r = Z.of_nat (length (List.filter (case_passes call) (Task.cases t))) ∧
    map fst (Report.failures r) = failing call 0 (Task.cases t).
Proof. exact (child_report_valid call Hvalues t). Qed.

(** A candidate that fails one case with a wrong value and the other with an
    exception. *)
Definition demo_candidate (args : list json) : Outcome :=
  match args with [JInt 1] => o_value (JStr "two") | _ => o_raise "ZeroDivisionError" (Some 2) end.
Lemma report_says_what_happened_witness :
  failing demo_candidate 0 (Task.cases demo_parsed) = [0; 1] ∧
  ∃ r, validate_report (child_report demo_candidate demo_parsed) demo_parsed = Ok r ∧
    Report.total r = Z.of_nat (length (Task.cases demo_parsed)) ∧
    Report.passed r = Z.of_nat (length (List.filter (case_passes demo_candidate) (Task.cases demo_parsed))) ∧
    map fst (Report.failures r) = failing demo_candidate 0 (Task.cases demo_parsed).
Proof.
  split; [vm_compute; reflexivity|]. apply (report_says_what_happened demo_candidate demo_parsed).
  intros args. unfold demo_candidate. repeat case_match; exact I.
Defined.

(** ** The repair *)

(** C21: whatever the model, the validator's process, git and the files answer,
    a repair works under its lock and gives it back; it asks the model at most
    twice, and only while the copy is clean, at the base commit and with the
    module of the task; it writes the module at most once, under those same
    conditions, and only a text whose function the last child process reported
    to pass every case; it stages and commits only that path, and records only
    what it committed.  What it writes comes from the module of the task by
    one or two renderings.  When it returns, it committed and recorded the
    repair, or replayed the receipt of an earlier one without asking or
    writing. *)
Theorem repair_writes_validated {py : Language} (task : json) (t : Task.t)
    (tr : list (event (answer:=Repair.answer))) (x : res json)
    (Htask : task_spec task = Ok t) (Hruns : runs (repair task) tr x) :
  accepts (allowed task t) (next t) start tr = true ∧ finished task t x (reached (next t) start tr).
Proof. exact (safe_runs _ _ _ _ _ _ _ (safe_repair task t Htask) Hruns). Qed.

Lemma repair_writes_validated_witness :
  length demo_repair.1 = 39%nat ∧
  accepts (allowed demo_task demo_parsed) (next demo_parsed) start demo_repair.1 = true ∧
  finished demo_task demo_parsed demo_repair.2.1 (reached (next demo_parsed) start demo_repair.1).
Proof.
  split; [vm_compute; reflexivity|].
  apply (repair_writes_validated demo_task demo_parsed); [vm_compute; reflexivity|].
  exact (execute_runs demo_world _ (f_source 1, false)).
Defined.
