(* ===== verification/IssueDraft.v ===== *)
(** From an issue to a draft pull request, [app/issue_draft_pr.py], with the
    acceptance cases of [scripts/structured_acceptance.py]: the admission of
    the owner's authorisation, the verification of a patch and the publication
    of a branch and a draft.

    Publication is a program over a GitHub port, the independent regression
    checker and the validator's process, whose answers are arbitrary.  The
    calls of the coordinator and of the admission to the pool, which are
    modelled in [IssuePool], belong to the same interface. *)
From Stdlib Require Import Ascii String.
From stdpp Require Import strings list.
From S2P Require Import Prelude Prog PyStr Sha256 Clock Json PyVal PyText PyAst IsoDate Names Structured Repair.

Local Open Scope string_scope.
Local Open Scope Z_scope.

Definition REPO : string := "ericson-j-santos/engineering-worker-pool".
Definition OWNER : string := "ericson-j-santos".
Definition PROFILE : string := "bridge.property.v1".
Definition PATH : string := "app/portfolio_bridge.py".
Definition FUNCTION : string := "_property".
Definition MODEL : string := "qwen2.5-coder:7b".
Definition MODEL_DIGEST_PREFIX : string := "dae161e27b0e".
Definition MARKER : string := "local-qwen7b-issue-draft-v1".

(** [HandoffBlocked(reason)] and [require] *)
Definition handoff (reason : string) : exn := Error "HandoffBlocked" reason.
Definition require (ok : bool) (reason : string) : res unit := if ok then Ok tt else Raise (handoff reason).

Lemma require_true c reason u : require c reason = Ok u → c = true.
Proof. by destruct c. Qed.

(** [v.get(k)] of an object, [None] when it is absent. *)
Definition member (k : string) (v : json) : json := match value_of k v with Some x => x | None => JNull end.
Definition text_is (k s : string) (v : json) : bool := is_text (member k v) s.

(** ** Admission *)

Definition observed_date (raw : string) : res datetime :=
  result ← match fromisoformat (zulu raw) with
           | Raise e => Raise (if value_failure e then handoff "observation_timestamp_invalid" else e)
           | r => r
           end;
  require (aware result) "observation_timezone_required" ;;
  astimezone_utc result.

Module IssueBinding.
Record t := mk {
  number : Z; base_sha : string; comment_id : Z; request_id : string; correlation_id : string; branch : string }.
End IssueBinding.
#[export] Instance IssueBinding_eq_dec : EqDecision IssueBinding.t.
Proof. solve_decision. Defined.

Definition issue_url (number : Z) : string :=
  concat_text ["https://github.com/"; REPO; "/issues/"; int_text number].
Definition issue_api_url (number : Z) : string :=
  concat_text ["https://api.github.com/repos/"; REPO; "/issues/"; int_text number].
Definition FIVE_MINUTES : Z := 300 * MICROS.
Definition positive : json → bool := int_that (fun n => 0 <? n).
Definition int_value (v : json) : Z := match v with JInt n => n | _ => 0 end.

Definition issue_identified (issue : json) : bool :=
  let number := member "number" issue in
  positive number && text_is "state" "open" issue && negb (truth (member "pull_request" issue)) &&
  text_is "html_url" (issue_url (int_value number)) issue &&
  text_is "repository_url" (concat_text ["https://api.github.com/repos/"; REPO]) issue.
Definition main_at (base_sha : string) (branch : json) : bool :=
  text_is "name" "main" branch && is_dict (member "commit" branch) && text_is "sha" base_sha (member "commit" branch).
Definition owner_authorized (comment : json) (number : Z) (base_sha : string) : bool :=
  positive (member "id" comment) && is_dict (member "user" comment) &&
  text_is "login" OWNER (member "user" comment) && text_is "type" "User" (member "user" comment) &&
  text_is "author_association" "OWNER" comment && text_is "issue_url" (issue_api_url number) comment &&
  text_is "body" (concat_text ["/local-agent authorize "; PROFILE; " sha:"; base_sha]) comment.

Definition bind_issue (number comment_id : Z) (base_sha : string) : IssueBinding.t :=
  let identity := concat_text [REPO; "#"; int_text number; ":"; PROFILE; ":"; base_sha] in
  let short := concat_text ["qwen7b-issue-"; int_text number; "-"; take_str 12 base_sha] in
  IssueBinding.mk number base_sha comment_id (String.append "issue-" (sha256_of identity)) short
    (String.append "agent/" short).

(** [now] is the instant of an aware [datetime]. *)
Definition admit_issue (issue comment branch : json) (base_sha observed_at : string) (now : datetime) : res IssueBinding.t :=
  require (is_dict issue && is_dict comment && is_dict branch) "untrusted_snapshot_shape" ;;
  require (fullmatch SHA40 base_sha) "base_sha_invalid" ;;
  timestamp ← observed_date observed_at;
  require ((0 <=? now - timestamp) && (now - timestamp <=? FIVE_MINUTES)) "github_observation_stale_or_future" ;;
  require (issue_identified issue) "issue_identity_invalid" ;;
  let number := int_value (member "number" issue) in
  require (main_at base_sha branch) "main_head_drift" ;;
  require (owner_authorized comment number base_sha) "owner_authorization_missing" ;;
  Ok (bind_issue number (int_value (member "id" comment)) base_sha).

(** ** The trusted task *)

Definition INSTRUCTION : string := concat_text [
  "Repair _property(properties, name) used by the TODO Global admission bridge. ";
  "Return a string or empty string for invalid/missing data, never coerce numbers/containers. ";
  "If properties or the selected property is not a dict, return empty. ";
  "For type select, select must be a dict and name must be str; strip that string. ";
  "For type url, url must be str; strip it. ";
  "For type rich_text, rich_text must be a list of dict fragments. ";
  "Use plain_text when it is a string, including empty string; when it is missing or None, ";
  "require a text dict with string content. Any invalid fragment invalidates the whole field. ";
  "Concatenate the strings in order and strip the concatenation. Unknown type returns empty. ";
  "Do not raise exceptions on any JSON input. Do not change unrelated functions, imports or tests."].
Definition acceptance (args : list json) (expected : string) : json :=
  JObj [("args", JList args); ("expected", JStr expected)].
Definition field_case (data : json) (expected : string) : json :=
  acceptance [JObj [("F", data)]; JStr "F"] expected.
Definition select (v : json) : json := JObj [("type", JStr "select"); ("select", v)].
Definition url (v : json) : json := JObj [("type", JStr "url"); ("url", v)].
Definition rich_text (v : json) : json := JObj [("type", JStr "rich_text"); ("rich_text", v)].
Definition plain (v : json) : json := JObj [("plain_text", v)].
Definition content (v : json) : json := JObj [("text", JObj [("content", v)])].
Definition cases : list json :=
  [field_case (select (JObj [("name", JStr " PENDENTE ")])) "PENDENTE";
   field_case (select (JList [JStr "invalid"])) "";
   field_case (url (JStr " https://github.com/a/b ")) "https://github.com/a/b";
   field_case (url (JInt 123)) "";
   field_case (rich_text JNull) "";
   field_case (rich_text (JList [plain (JStr " foo"); content (JStr "bar ")])) "foobar";
   field_case (rich_text (JList [plain (JInt 5)])) "";
   field_case (rich_text (JList [JObj [("text", JList [JStr "invalid"])]])) ""] ++
  map (fun data => field_case data "")
    [JNull; JList []; JStr "invalid"; JInt 1; JBool true; JObj []; JObj [("type", JStr "unknown")]] ++
  map (fun selected => field_case (select selected) "")
    [JNull; JStr "x"; JInt 1; JBool true; JObj []; JObj [("name", JInt 1)]; JObj [("name", JList [])];
     JObj [("name", JStr "")]] ++
  map (fun value => field_case (url value) "") [JNull; JList []; JObj []; JBool true; JStr ""; JStr "  "] ++
  map (fun items => field_case (rich_text items) "")
    [JList []; JStr "x"; JObj []; JInt 1; JList [JInt 1]; JList [plain JNull]; JList [content (JInt 1)];
     JList [plain (JStr "safe"); JNull];
     JList [JObj [("plain_text", JStr ""); ("text", JObj [("content", JStr "not-used")])]]] ++
  [acceptance [JNull; JStr "F"] ""; acceptance [JList []; JStr "F"] ""; acceptance [JObj []; JStr "F"] "";
   field_case (rich_text (JList [plain (JStr (u8 " ação")); plain (JStr (u8 " válida "))])) (u8 "ação válida")].
Example cases_42 : length cases = 42%nat.
Proof. reflexivity. Qed.

(** Bytes are texts of code points below 256. *)
Definition trusted_task (binding : IssueBinding.t) (before : string) : res json :=
  require ((1 <=? length_of before) && (length_of before <=? 262144)) "source_bytes_invalid" ;;
  Ok (JObj [("task_id", JStr (IssueBinding.correlation_id binding)); ("path", JStr PATH); ("function", JStr FUNCTION);
            ("parameters", JList [JStr "properties"; JStr "name"]); ("instruction", JStr INSTRUCTION);
            ("base_sha", JStr (IssueBinding.base_sha binding)); ("before_sha256", JStr (sha256_hex before));
            ("cases", JList cases)]).
(** What [extracted] reads of it. *)
Definition trusted_function : Task.t :=
  Task.mk "" PATH FUNCTION ["properties"; "name"] INSTRUCTION "" "" [] JNull.

(** ** Calls *)

Inductive op : Type :=
  (* GitHubDraftPort *)
  | get_branch (name : string)
  | get_source (ref : string)
  | changed_paths (base_sha head_sha : string)
  | create_branch (name sha : string)
  | replace_source (name content blob_sha : string)
  | find_pr (head : string)
  | create_pr (head title body : string)
  | get_issue (number : Z)
  | get_comment (comment_id : Z)
  (* the callbacks and the validator's process *)
  | regression_checker (source produced_sha : string)
  | worker (o : Repair.op)
  | materialize (checkpoint : json) (task_id produced_sha : string)
  | git_verify (source base_sha produced_sha : string)
  (* the Worker Pool *)
  | get_task (task_id : string)
  | get_latest_checkpoint (task_id : string)
  | list_repositories
  | enqueue_fenced_issue (payload : json).

(** What [materialize] returns: its members, some of which are bytes. *)
Record Cas := mkCas { artifact_bytes : option string; source_bytes : option string; cas_facts : json }.
Definition answer (o : op) : Type :=
  match o with
  | get_source _ => string * json
  | changed_paths _ _ => list string
  | create_branch _ _ | replace_source _ _ _ | create_pr _ _ _ => unit
  | worker o => Repair.answer o
  | materialize _ _ _ => Cas
  | _ => json
  end.
Abbreviation P := (prog answer).
Definition demand (c : bool) (reason : string) : P unit := of_res (require c reason).
(** A program of the code worker among these calls. *)
Fixpoint by_worker {A} (m : prog Repair.answer A) : P A :=
  match m with
  | Ret a => Ret a
  | Throw e => Throw e
  | Do o k => Do (worker o : op) (fun r : res (Repair.answer o) => by_worker (k r))
  end.

Section Publish.
Context {py : Language}.

(** ** Verification of a patch *)

Definition unicode_or (reason : string) (r : res string) : res string :=
  match r with
  | Raise e => Raise (if value_failure e then handoff reason else e)
  | _ => r
  end.
Definition digest_member (r : re) : json → bool := str_that (fullmatch r).
Definition full_report : json :=
  JObj [("passed", JInt 42); ("total", JInt 42); ("errors", JInt 0); ("failures", JList [])].
Definition model_proved (binding : IssueBinding.t) (audit : json) : bool :=
  text_is "model" MODEL audit && digest_member HEX64 (member "model_digest" audit) &&
  str_that (starts_with MODEL_DIGEST_PREFIX) (member "model_digest" audit) &&
  int_that (fun n => (n =? 1) || (n =? 2)) (member "model_calls" audit) &&
  str_that (fun s => fullmatch SHA40 s && negb (String.eqb s (IssueBinding.base_sha binding))) (member "produced_sha" audit).
Definition regression_proved (after produced_sha : string) (observed : json) : bool :=
  is_dict observed && is_true (member "independent_checkout" observed) &&
  text_is "source_sha256" (sha256_hex after) observed && text_is "produced_sha" produced_sha observed &&
  int_that (fun n => 52 <=? n) (member "passed" observed) && is_int (member "collected" observed) &&
  py_eqb (member "failed" observed) (JInt 0) && py_eqb (member "errors" observed) (JInt 0) &&
  (int_value (member "passed" observed) <=? int_value (member "collected" observed)).
Definition str_value (v : json) : string := match v with JStr s => s | _ => "" end.

Definition verify_patch (binding : IssueBinding.t) (before after : string) (audit : json) : P json :=
  demand (model_proved binding audit) "model_identity_unproved" ;;
  demand ((length_of after <=? 262144) && negb (String.eqb before after)) "candidate_bytes_invalid" ;;
  let produced_sha := str_value (member "produced_sha" audit) in
  task ← of_res (trusted_task binding before);
  original ← of_res (unicode_or "source_encoding_invalid" (utf8_decode before));
  candidate ← of_res (unicode_or "source_encoding_invalid" (utf8_decode after));
  function ← of_res (extracted candidate trusted_function);
  reconstructed ← of_res (render original task (JStr (json_dumps_text (JObj [("function", JStr function)]))));
  demand (String.eqb candidate reconstructed) "candidate_scope_changed" ;;
  baseline ← by_worker (validate original task);
  report ← by_worker (validate candidate task);
  demand ((Report.passed baseline <? Report.total baseline) && (Report.total baseline =? 42) &&
          py_eqb (Report.raw report) full_report) "bounded_acceptance_failed" ;;
  observed ← call (regression_checker after produced_sha);
  demand (regression_proved after produced_sha observed) "independent_regression_unproved" ;;
  mret (JObj [("model", member "model" audit); ("model_digest", member "model_digest" audit);
              ("model_calls", member "model_calls" audit); ("base_sha", JStr (IssueBinding.base_sha binding));
              ("produced_sha", JStr produced_sha); ("source_sha256", JStr (sha256_hex after));
              ("baseline_passed", JInt (Report.passed baseline)); ("accepted_cases", JInt 42);
              ("regressions_passed", member "passed" observed); ("request_id", JStr (IssueBinding.request_id binding))]).

(** ** Publication *)

(** An f-string's field of a text or an integer. *)
Definition shown (v : json) : string := match v with JStr s => s | JInt n => int_text n | _ => "" end.
Definition title_of (binding : IssueBinding.t) : string :=
  concat_text ["fix: issue #"; int_text (IssueBinding.number binding); " via local Qwen7B"].
Definition body_of (binding : IssueBinding.t) (audit : json) : string := concat_text [
  "Closes #"; int_text (IssueBinding.number binding); " only after independent review."; newline; newline;
  "Marker: "; MARKER; newline;
  "Authorization comment: "; int_text (IssueBinding.comment_id binding); newline;
  "Base SHA: "; IssueBinding.base_sha binding; newline;
  "Builder SHA: "; shown (member "produced_sha" audit); newline;
  "Model: "; MODEL; " (digest "; shown (member "model_digest" audit); ")"; newline;
  "Validation: 42/42 cases; "; shown (member "regressions_passed" audit); " regressions."; newline;
  "Source SHA-256: "; shown (member "source_sha256" audit); newline;
  "Request: "; IssueBinding.request_id binding; newline;
  "Draft only. No automatic merge, deployment or product cutover."; newline].
Definition commit_sha (branch : json) : json := member "sha" (member "commit" branch).
Definition has_commit (branch : json) : bool := negb (is_none branch) && is_dict (member "commit" branch).
(** [existing] is [None] or a mapping. *)
Definition new_head (binding : IssueBinding.t) (head : json) : bool :=
  str_that (fun s => fullmatch SHA40 s && negb (String.eqb s (IssueBinding.base_sha binding))) head.

(** The branch holds the repaired source and nothing else. *)
Definition ensure_branch (binding : IssueBinding.t) (before after blob_sha : string) : P string :=
  let name := IssueBinding.branch binding in
  found ← call (get_branch name);
  existing ← (if is_none found then call (create_branch name (IssueBinding.base_sha binding)) ;; call (get_branch name)
              else mret found);
  demand (has_commit existing) "draft_branch_unreadable" ;;
  let head := commit_sha existing in
  remote ← call (get_source name);
  (if is_text head (IssueBinding.base_sha binding) && String.eqb remote.1 before
   then call (replace_source name after blob_sha)
   else demand (new_head binding head && String.eqb remote.1 after) "branch_collision_or_divergence") ;;
  final_branch ← call (get_branch name);
  final_source ← call (get_source name);
  demand (has_commit final_branch && new_head binding (commit_sha final_branch) && String.eqb final_source.1 after)
    "branch_readback_failed" ;;
  let head := str_value (commit_sha final_branch) in
  paths ← call (changed_paths (IssueBinding.base_sha binding) head);
  demand (bool_decide (paths = [PATH])) "draft_branch_diff_scope_invalid" ;;
  mret head.
Definition pr_verified (head body : string) (pr : json) : bool :=
  is_dict pr && is_int (member "number" pr) && text_is "state" "open" pr && is_true (member "draft" pr) &&
  text_is "head_sha" head pr && text_is "base_ref" "main" pr && text_is "body" body pr.
Definition ensure_pr (binding : IssueBinding.t) (head body : string) : P (json * bool) :=
  let name := IssueBinding.branch binding in
  found ← call (find_pr name);
  p ← (if is_none found then call (create_pr name (title_of binding) body) ;; again ← call (find_pr name); mret (again, true)
       else mret (found, false));
  demand (pr_verified head body p.1) "draft_pr_readback_failed" ;;
  mret p.

Definition publish_draft (binding : IssueBinding.t) (before after : string) (audit : json) (now : datetime)
    (observed_at : string) : P json :=
  main ← call (get_branch "main");
  demand (negb (is_none main)) "main_unavailable" ;;
  issue ← call (get_issue (IssueBinding.number binding));
  comment ← call (get_comment (IssueBinding.comment_id binding));
  checked ← of_res (admit_issue issue comment main (IssueBinding.base_sha binding) observed_at now);
  demand (bool_decide (checked = binding)) "admission_revalidated_different" ;;
  actual ← call (get_source (IssueBinding.base_sha binding));
  demand (String.eqb actual.1 before && digest_member SHA40 actual.2) "base_source_changed" ;;
  demand (is_dict audit) "audit_binding_invalid" ;;
  checked_audit ← verify_patch binding before after audit;
  demand (py_eqb audit checked_audit) "audit_binding_invalid" ;;
  head ← ensure_branch binding before after (str_value actual.2);
  pr ← ensure_pr binding head (body_of binding audit);
  mret (JObj [("result", JStr "DRAFT_PR_VERIFIED"); ("issue", JInt (IssueBinding.number binding));
              ("pr_number", member "number" pr.1); ("head_sha", JStr head); ("replayed", JBool (negb pr.2));
              ("request_id", JStr (IssueBinding.request_id binding)); ("model", JStr MODEL);
              ("merge_performed", JBool false)]).
End Publish.
