(* ===== verification/IssuePool.v ===== *)
(** The issue pipeline at the Worker Pool: the admission of an authorised
    issue as a fenced task, [app/issue_pool_admission.py], and the publication
    of a completed one, [app/issue_publish_coordinator.py]. *)
From Stdlib Require Import Ascii String.
From stdpp Require Import strings list.
From S2P Require Import Prelude Prog PyStr Sha256 Clock Json PyVal PyText PyAst IsoDate Names Structured Repair IssueDraft.

Local Open Scope string_scope.
Local Open Scope Z_scope.

(** ** Admission to the pool *)

(** [_read_binding]; the clock is an aware UTC [datetime]. *)
Definition read_binding (issue_number comment_id : Z) (clock : datetime) : P IssueBinding.t :=
  branch ← call (get_branch "main");
  demand (is_dict branch && is_dict (member "commit" branch)) "issue_main_unavailable" ;;
  base_sha ← match commit_sha branch with JStr s => mret s | _ => throw (handoff "issue_main_invalid") end;
  issue ← call (get_issue issue_number);
  comment ← call (get_comment comment_id);
  of_res (admit_issue issue comment branch base_sha (isoformat_utc clock) clock).

Definition dicts (v : json) (most : nat) : option (list json) :=
  match v with JList l => if (length l <=? most)%nat && forallb is_dict l then Some l else None | _ => None end.
Definition lane_ready (lanes : list json) : bool :=
  match List.filter (text_is "repository" REPO) lanes with
  | [lane] => is_true (member "enabled" lane) && int_that (fun n => n =? 1) (member "max_in_flight" lane)
  | _ => false
  end.
Definition task_payload (binding : IssueBinding.t) : json :=
  JObj [("repository", JStr REPO); ("issue_number", JInt (IssueBinding.number binding));
        ("request_id", JStr (IssueBinding.request_id binding));
        ("correlation_id", JStr (IssueBinding.correlation_id binding)); ("priority", JInt 10);
        ("base_sha", JStr (IssueBinding.base_sha binding)); ("target_branch", JStr (IssueBinding.branch binding));
        ("max_attempts", JInt 1); ("fencing_required", JBool true)].
Definition SHARED_KEYS : list string := ["repository"; "issue_number"; "request_id"; "correlation_id"; "base_sha"].
Definition admitted_shape (admitted : json) : bool :=
  is_dict admitted && is_dict (member "task" admitted) && is_str (member "task_id" admitted) &&
  py_eqb (member "task_id" (member "task" admitted)) (member "task_id" admitted) &&
  match member "created" admitted with JBool _ => true | _ => false end.
Definition admitted_matches (binding : IssueBinding.t) (admitted : json) : bool :=
  let task := member "task" admitted in
  forallb (fun k => py_eqb (member k task) (member k (task_payload binding))) SHARED_KEYS &&
  text_is "branch" (IssueBinding.branch binding) task && is_true (member "fencing_required" task) &&
  py_eqb (member "max_attempts" task) (JInt 1).

Section Pool.
Context {py : Language}.

(** [type(issue_number) is int] and the clock's zone are in the types. *)
Definition admit_to_existing_pool (issue_number comment_id : Z) (environment : string) (clock : datetime) : P json :=
  demand (String.eqb environment "dev") "issue_dispatch_dev_only" ;;
  demand ((0 <? issue_number) && (0 <? comment_id)) "issue_dispatch_identity_invalid" ;;
  binding ← read_binding issue_number comment_id clock;
  source ← call (get_source (IssueBinding.base_sha binding));
  task ← of_res (trusted_task binding source.1);
  text ← of_res (unicode_or "issue_source_encoding_invalid" (utf8_decode source.1));
  result ← by_worker (validate text task);
  demand ((Report.total result =? 42) && (Report.passed result <? 42)) "issue_no_failing_baseline" ;;
  raw_lanes ← call list_repositories;
  lanes ← match dicts raw_lanes 128 with Some l => mret l | None => throw (handoff "issue_lanes_invalid") end;
  demand (lane_ready lanes) "issue_fenced_lane_not_ready" ;;
  current ← read_binding issue_number comment_id clock;
  demand (bool_decide (current = binding)) "issue_admission_changed_before_enqueue" ;;
  admitted ← call (enqueue_fenced_issue (task_payload binding));
  demand (admitted_shape admitted) "issue_pool_readback_invalid" ;;
  demand (admitted_matches binding admitted) "issue_pool_readback_invalid" ;;
  mret (JObj [("result", JStr "ISSUE_FENCED_ENQUEUED"); ("task_id", member "task_id" admitted);
              ("created", member "created" admitted); ("issue_number", JInt (IssueBinding.number binding));
              ("owner_comment_id", JInt (IssueBinding.comment_id binding));
              ("base_sha", JStr (IssueBinding.base_sha binding)); ("target_branch", JStr (IssueBinding.branch binding));
              ("request_id", JStr (IssueBinding.request_id binding));
              ("correlation_id", JStr (IssueBinding.correlation_id binding));
              ("baseline_passed", JInt (Report.passed result)); ("baseline_total", JInt 42);
              ("fencing_required", JBool true); ("builder_started", JBool false);
              ("validator_completed", JBool false); ("draft_pr_created", JBool false)]).

(** ** Publication of a completed task *)

Definition POOL_TASK_ID : re := Cat (lit "cwp-") (times 24 hex_lower).
(** The conditions of [_completed] on the task that the pool reads. *)
Definition completed_task (binding : IssueBinding.t) (task_id : string) (observed : json) : bool :=
  is_dict observed && text_is "task_id" task_id observed && text_is "repository" REPO observed &&
  py_eqb (member "issue_number" observed) (JInt (IssueBinding.number binding)) &&
  text_is "request_id" (IssueBinding.request_id binding) observed &&
  text_is "base_sha" (IssueBinding.base_sha binding) observed &&
  text_is "branch" (IssueBinding.branch binding) observed && is_true (member "fencing_required" observed) &&
  text_is "state" "completed" observed && is_none (member "leased_by" observed) &&
  new_head binding (member "produced_sha" observed) &&
  is_str (member "builder_worker_id" observed) && is_str (member "validator_worker_id" observed) &&
  negb (py_eqb (member "builder_worker_id" observed) (member "validator_worker_id" observed)) &&
  int_that (fun n => 2 <=? n) (member "attempt_count" observed) &&
  int_that (fun n => 2 <=? n) (member "lease_generation" observed).
Definition completed (binding : IssueBinding.t) (task_id : string) : P json :=
  demand (fullmatch POOL_TASK_ID task_id) "issue_task_id_invalid" ;;
  observed ← call (get_task task_id);
  demand (completed_task binding task_id observed) "issue_completed_pool_unproved" ;;
  mret observed.

Definition text_between (lo hi : Z) : json → bool := str_that (fun s => (lo <=? length_of s) && (length_of s <=? hi)).
Definition validator_checkpoint (task_id : string) (task checkpoint : json) : bool :=
  is_dict checkpoint && text_is "task_id" task_id checkpoint && text_is "stage" "validator_result" checkpoint &&
  text_is "next_action" "complete" checkpoint &&
  py_eqb (member "lease_generation" checkpoint) (member "lease_generation" task) &&
  text_between 1 2048 (member "artifact_ref" checkpoint) && digest_member HEX64 (member "artifact_sha256" checkpoint) &&
  text_between 1 128 (member "artifact_kind" checkpoint).
Definition materialized (binding : IssueBinding.t) (task checkpoint : json) (cas : Cas) : option string :=
  match artifact_bytes cas, source_bytes cas with
  | Some artifact, Some source =>
      if (1 <=? length_of artifact) && (length_of artifact <=? 10000000) &&
         text_is "artifact_sha256" (sha256_hex artifact) checkpoint &&
         (1 <=? length_of source) && (length_of source <=? 262144) &&
         py_eqb (member "produced_sha" (cas_facts cas)) (member "produced_sha" task) &&
         text_is "base_sha" (IssueBinding.base_sha binding) (cas_facts cas)
      then Some source else None
  | _, _ => None
  end.
Definition git_verified (binding : IssueBinding.t) (task : json) (after : string) (v : json) : bool :=
  is_dict v && text_is "base_sha" (IssueBinding.base_sha binding) v &&
  py_eqb (member "produced_sha" v) (member "produced_sha" task) && text_is "source_sha256" (sha256_hex after) v &&
  py_eqb (member "changed_paths" v) (JList [JStr PATH]) && is_true (member "checkout_isolated" v) &&
  is_true (member "commit_verified" v).
(** [{**result, ...}] *)
Definition set_all (v : json) (more : list (string * json)) : json :=
  match v with JObj ms => JObj (fold_left (fun acc m => set_key m.1 m.2 acc) more ms) | _ => v end.

Definition publish_completed_fenced_issue (binding : IssueBinding.t) (task_id : string) (model_audit : json)
    (now : datetime) : P json :=
  task ← completed binding task_id;
  checkpoint ← call (get_latest_checkpoint task_id);
  demand (validator_checkpoint task_id task checkpoint) "issue_validator_checkpoint_unproved" ;;
  let produced := str_value (member "produced_sha" task) in
  cas ← call (materialize checkpoint task_id produced);
  after ← match materialized binding task checkpoint cas with
          | Some s => mret s | None => throw (handoff "issue_cas_materialization_unproved") end;
  verified ← call (git_verify after (IssueBinding.base_sha binding) produced);
  demand (git_verified binding task after verified) "issue_git_materialization_unproved" ;;
  before ← call (get_source (IssueBinding.base_sha binding));
  demand (is_dict model_audit && text_is "produced_sha" produced model_audit &&
          text_is "base_sha" (IssueBinding.base_sha binding) model_audit) "issue_model_audit_mismatch" ;;
  result ← publish_draft binding before.1 after model_audit now (isoformat_utc now);
  final ← completed binding task_id;
  demand (py_eqb (member "produced_sha" final) (member "produced_sha" task) &&
          py_eqb (member "lease_generation" final) (member "lease_generation" task)) "issue_pool_changed_after_publication" ;;
  mret (set_all result
    [("worker_task_id", JStr task_id); ("validator_worker_id", member "validator_worker_id" task);
     ("artifact_sha256", member "artifact_sha256" checkpoint); ("fenced_generation", member "lease_generation" task);
     ("independent_readback", JBool true)]).
End Pool.
