(* ===== verification/IssueSpec.v ===== *)
(** The protocol of publication: a monitor of the calls of the issue pipeline
    with what GitHub, the pool, the callbacks and the validator's process
    answered, and the lemmas that follow the programs. *)
From Stdlib Require Import Ascii String.
From stdpp Require Import strings list.
From S2P Require Import Prelude Prog PyStr Sha256 Clock Json PyVal PyText PyAst IsoDate Names Structured StructuredProps.
From S2P Require Import Repair RepairProps IssueDraft IssuePool.

Local Open Scope Z_scope.

Lemma require_ok c code u : require c code = Ok u ↔ c = true.
Proof. destruct c, u; cbn; naive_solver. Qed.

Lemma sha_no_agent s x : fullmatch SHA40 s = true → String.eqb (String.append "agent/" x) s = false.
Proof.
  intros [_ Hall]%fullmatch_times. apply String.eqb_neq. intros <-. by vm_compute in Hall.
Qed.

(** The last answers. *)
Record Pub := mkPub {
  main : option json; issue : option json; comment : option json;
  source : option (string * json);          (** at the base commit *)
  after : option string;                    (** the source to publish *)
  children : list (string * Report.t);      (** inputs and reports of the child process, the last first *)
  regression : option (string * string * json);
  branch : option json;                     (** of the draft *)
  remote : option string;
  paths : option (string * list string);
  pr : option json;
  made_branch : bool; made_source : bool; made_pr : bool;
  task : option json; checkpoint : option json;
  git_proved : bool }.
#[export] Instance Pub_eta : Eta Pub := fun g =>
  mkPub (main g) (issue g) (comment g) (source g) (after g) (children g) (regression g) (branch g) (remote g) (paths g)
    (pr g) (made_branch g) (made_source g) (made_pr g) (task g) (checkpoint g) (git_proved g).
Definition start_with (after : option string) : Pub :=
  mkPub None None None None after [] None None None None None false false false None None false.

Section Protocol.
Context {py : Language} (binding : IssueBinding.t) (audit : json) (now : datetime) (observed_at : string)
  (task_id : string) (fenced : bool).
Let name := IssueBinding.branch binding.
Let base := IssueBinding.base_sha binding.
Let body := body_of binding audit.
Let produced := str_value (member "produced_sha" audit).

(** The task of the acceptance cases for a source. *)
Definition parsed_task (before : string) : option (json * Task.t) :=
  match trusted_task binding before with
  | Ok task => match task_spec task with Ok t => Some (task, t) | Raise _ => None end
  | Raise _ => None
  end.
(** The child process failed the base and passed every case of the repair. *)
Definition validated (before after : string) (children : list (string * Report.t)) : bool :=
  match parsed_task before, utf8_decode before, utf8_decode after, children with
  | Some (task, t), Ok original, Ok candidate, (p2, report) :: (p1, baseline) :: _ =>
      bool_decide (payload_of task t original = Some p1) && bool_decide (payload_of task t candidate = Some p2) &&
      (Report.passed baseline <? Report.total baseline) && (Report.total baseline =? 42) &&
      py_eqb (Report.raw report) full_report
  | _, _, _, _ => false
  end.

(** Everything that a write to GitHub has to be preceded by. *)
Definition authorized (g : Pub) : bool :=
  match main g, issue g, comment g with
  | Some m, Some i, Some c =>
      match admit_issue i c m base observed_at now with Ok b => bool_decide (b = binding) | Raise _ => false end
  | _, _, _ => false
  end.
Definition source_known (g : Pub) : bool :=
  match source g, after g with
  | Some (before, blob), Some new =>
      digest_member SHA40 blob && negb (String.eqb before new) && validated before new (children g)
  | _, _ => false
  end.
Definition regression_passed (g : Pub) : bool :=
  match regression g, after g with
  | Some (s, sha, observed), Some new => String.eqb s new && String.eqb sha produced && regression_proved new produced observed
  | _, _ => false
  end.
Definition checks (g : Pub) : bool :=
  authorized g && source_known g && regression_passed g && (negb fenced || git_proved g).

(** The branch as it was read: its head and its source. *)
Definition head_of (g : Pub) : json := match branch g with Some b => commit_sha b | None => JNull end.
Definition remote_is (g : Pub) (s : option string) : bool :=
  match remote g, s with Some r, Some s => String.eqb r s | _, _ => false end.
Definition branch_ready (g : Pub) : bool :=
  match branch g with Some b => has_commit b && new_head binding (commit_sha b) | None => false end &&
  remote_is g (after g) &&
  match paths g with Some (h, l) => String.eqb h (str_value (head_of g)) && bool_decide (l = [PATH]) | None => false end.

Definition allowed (g : Pub) (o : op) : bool :=
  match o with
  | create_branch n sha =>
      String.eqb n name && String.eqb sha base && checks g && negb (made_branch g) && bool_decide (branch g = Some JNull)
  | replace_source n content blob =>
      String.eqb n name && checks g && negb (made_source g) && bool_decide (Some content = after g) &&
      match source g with Some (before, b) => is_text b blob && remote_is g (Some before) | None => false end &&
      is_text (head_of g) base
  | create_pr h title text =>
      String.eqb h name && String.eqb text body && String.eqb title (title_of binding) && checks g &&
      negb (made_pr g) && branch_ready g && bool_decide (pr g = Some JNull)
  | worker (run_child _) => true
  | worker _ | enqueue_fenced_issue _ | list_repositories => false
  | _ => true
  end.

(** [_completed], the checkpoint and the materialised source of the task. *)
Definition task_proved (g : Pub) : bool :=
  match task g, checkpoint g with
  | Some k, Some c => completed_task binding task_id k && validator_checkpoint task_id k c
  | _, _ => false
  end.
Definition task_facts (g : Pub) : json := match task g with Some k => k | None => JNull end.

Definition next (g : Pub) (o : op) : res (answer o) → Pub :=
  match o with
  | get_branch n => fun r =>
      if String.eqb n "main" then g <| main := ok_value r |>
      else if String.eqb n name then g <| branch := ok_value r |> else g
  | get_issue _ => fun r => g <| issue := ok_value r |>
  | get_comment _ => fun r => g <| comment := ok_value r |>
  | get_source ref => fun r =>
      if String.eqb ref base then g <| source := ok_value r |>
      else if String.eqb ref name then g <| remote := fst <$> ok_value r |> else g
  | changed_paths b h => fun r => g <| paths := l ← ok_value r; if String.eqb b base then Some (h, l) else None |>
  | find_pr _ => fun r => g <| pr := ok_value r |>
  | regression_checker s sha => fun r => g <| regression := v ← ok_value r; Some (s, sha, v) |>
  | worker (run_child p) => fun r =>
      match before ← fst <$> source g; k ← parsed_task before; out ← ok_value r; reported k.2 out with
      | Some report => g <| children := (p, report) :: children g |>
      | None => g
      end
  | create_branch _ _ => fun _ => g <| made_branch := true |>
  | replace_source _ _ _ => fun _ => g <| made_source := true |>
  | create_pr _ _ _ => fun _ => g <| made_pr := true |>
  | IssueDraft.get_task _ => fun r => g <| task := ok_value r |>
  | IssueDraft.get_latest_checkpoint _ => fun r => g <| checkpoint := ok_value r |>
  | materialize c _ _ => fun r => g <| after := cas ← ok_value r; materialized binding (task_facts g) c cas |>
  | git_verify s _ _ => fun r => g <| git_proved :=
      task_proved g && bool_decide (Some s = after g) &&
      match ok_value r with Some v => git_verified binding (task_facts g) s v | None => false end |>
  | _ => fun _ => g
  end.
Abbreviation safe := (Prog.safe allowed next).

Lemma safe_hub (o : op) g (Q : res (answer o) → Pub → Prop) :
  allowed g o = true → (∀ r, Q r (next g o r)) → safe (call o) g Q.
Proof. apply (Prog.safe_call (answer:=answer)). Qed.
Lemma safe_demand c reason g (Q : res unit → Pub → Prop) :
  (c = true → Q (Ok tt) g) → (∀ e, Q (Raise e) g) → safe (demand c reason) g Q.
Proof. intros H1 H2. apply safe_of_res. destruct c; [by apply H1|apply H2]. Qed.
Lemma safe_res {A} (r : res A) g (Q : res A → Pub → Prop) :
  (∀ v, r = Ok v → Q (Ok v) g) → (∀ e, Q (Raise e) g) → safe (of_res r) g Q.
Proof. intros H1 H2. apply safe_of_res. destruct r; [by apply H1|apply H2]. Qed.
Lemma safe_by_worker {A} (m : prog Repair.answer A) g (Q : res A → Pub → Prop) :
  Prog.safe (fun g o => allowed g (worker o)) (fun g o r => next g (worker o) r) m g Q → safe (by_worker m) g Q.
Proof.
  revert g. induction m as [a|e|o k IH]; intros g; cbn; [done..|]. intros [Ha Hk]. split; [done|]. intros r. apply IH, Hk.
Qed.

(** ** Following the programs *)

(** What the checks are computed from. *)
Definition basis (g : Pub) :=
  (main g, issue g, comment g, source g, after g, children g, regression g, git_proved g, made_pr g).
Lemma checks_basis g g' : basis g' = basis g → checks g' = checks g.
Proof.
  unfold basis, checks, authorized, source_known, regression_passed. intros [= -> -> -> -> -> -> -> -> _]. done.
Qed.
Lemma made_pr_basis g g' : basis g' = basis g → made_pr g' = made_pr g ∧ after g' = after g ∧ source g' = source g.
Proof. unfold basis. by intros [= _ _ _ -> -> _ _ _ ->]. Qed.

(** The draft's branch is neither the main branch nor the base commit. *)
Definition proper_name : Prop := String.eqb name "main" = false ∧ String.eqb name base = false.
Lemma admitted_name i c m : admit_issue i c m base observed_at now = Ok binding → proper_name.
Proof.
  unfold admit_issue. intros H. apply bind_res_ok in H as ([] & _ & H). apply bind_res_ok in H as ([] & Hsha%require_ok & H).
  apply bind_res_ok in H as (ts & _ & H). do 4 (apply bind_res_ok in H as ([] & _ & H)). injection H as H.
  unfold proper_name, name. rewrite <- H. unfold bind_issue. cbn [IssueBinding.branch]. split; [done|].
  by apply sha_no_agent.
Qed.

Lemma safe_validation src tk g (Q : res Report.t → Pub → Prop) :
  (∀ e g', Q (Raise e) g') →
  (∀ t r p out, task_spec tk = Ok t → payload_of tk t src = Some p → reported t out = Some r →
     Q (Ok r) (next g (worker (run_child p)) (Ok out))) →
  safe (by_worker (validate src tk)) g Q.
Proof.
  intros HE HQ. apply safe_by_worker. destruct (task_spec tk) as [t|e] eqn:Et; last first.
  { unfold validate. rewrite Et. cbn. apply HE. }
  apply (validate_spec tk t); [done|done|by intros; apply HE|]. intros r p out Hp Hr. by eapply HQ.
Qed.

Lemma regression_passed_at g new observed :
  regression g = Some (new, produced, observed) → after g = Some new → regression_proved new produced observed = true →
  regression_passed g = true.
Proof. unfold regression_passed. intros -> ->. by rewrite !String.eqb_refl. Qed.

Lemma safe_verify before blob new g (Q : res json → Pub → Prop) :
  source g = Some (before, blob) → after g = Some new → (∀ e g', Q (Raise e) g') →
  (∀ v c r, let g' := g <| children := c |> <| regression := r |> in
     negb (String.eqb before new) = true → validated before new c = true → regression_passed g' = true → Q (Ok v) g') →
  safe (verify_patch binding before new audit) g Q.
Proof.
  intros Hsrc Hnew HE HQ. unfold verify_patch.
  apply safe_bind, safe_demand; [|by intros; apply HE]. intros Hmodel.
  apply safe_bind, safe_demand; [|by intros; apply HE]. intros [_ Hne]%andb_split.
  apply safe_bind, safe_res; [|by intros; apply HE]. intros tk Htk.
  apply safe_bind, safe_res; [|by intros; apply HE]. intros original Ho.
  apply safe_bind, safe_res; [|by intros; apply HE]. intros candidate Hc.
  do 2 (apply safe_bind, safe_res; [|by intros; apply HE]; intros ? _).
  apply safe_bind, safe_demand; [|by intros; apply HE]. intros _.
  assert (utf8_decode before = Ok original) as Ho' by by unfold unicode_or in Ho; destruct (utf8_decode before).
  assert (utf8_decode new = Ok candidate) as Hc' by by unfold unicode_or in Hc; destruct (utf8_decode new).
  apply safe_bind, safe_validation; [by intros; apply HE|]. intros t baseline p1 out1 Ht Hp1 Hr1.
  assert (parsed_task before = Some (tk, t)) as Hparsed by (unfold parsed_task; by rewrite Htk, Ht).
  assert (∀ gg p out r, source gg = Some (before, blob) → reported t out = Some r →
    next gg (worker (run_child p)) (Ok out) = gg <| children := (p, r) :: children gg |>) as Hnext.
  { intros gg p out r Hs Hr. cbn [next]. rewrite Hs. cbn [fmap option_fmap option_map mbind option_bind fst].
    rewrite Hparsed. cbn. by rewrite Hr. }
  rewrite (Hnext g _ _ _ Hsrc Hr1). set (g1 := g <| children := (p1, baseline) :: children g |>).
  apply safe_bind, safe_validation; [by intros; apply HE|]. intros t' report p2 out2 Ht' Hp2 Hr2.
  assert (t' = t) as -> by congruence. rewrite (Hnext g1 _ _ _ Hsrc Hr2). set (g2 := g1 <| children := _ |>).
  apply safe_bind, safe_demand; [|by intros; apply HE]. intros [[Hb1 Hb2]%andb_split Hfull]%andb_split.
  apply safe_bind. apply (safe_hub (regression_checker _ _)); [done|]. intros [observed|e]; [|by apply HE].
  apply safe_bind, safe_demand; [|by intros; apply HE]. intros Hreg.
  apply safe_ret.
  apply (HQ _ ((p2, report) :: (p1, baseline) :: children g) (Some (new, produced, observed))); [done| |].
  - unfold validated. rewrite Hparsed, Ho', Hc', Hb1, Hb2, Hfull. by rewrite !bool_decide_eq_true_2.
  - apply regression_passed_at with new observed; [done|exact Hnew|exact Hreg].
Qed.

Section Named.
Context (Hname : proper_name).
Lemma next_branch g r : next g (get_branch name) r = g <| branch := ok_value r |>.
Proof. destruct Hname as [H _]. cbn [next]. by rewrite H, String.eqb_refl. Qed.
Lemma next_remote g r : next g (get_source name) r = g <| remote := fst <$> ok_value r |>.
Proof. destruct Hname as [_ H]. cbn [next]. by rewrite H, String.eqb_refl. Qed.

Lemma digest_text r v : digest_member r v = true → is_text v (str_value v) = true.
Proof. destruct v; cbn; try done. intros _. apply String.eqb_refl. Qed.

(** The branch is created at most once, at the base, and written at most once,
    over the base source; then it is read back. *)
Lemma safe_branch before blob new g (Q : res string → Pub → Prop) :
  checks g = true → source g = Some (before, blob) → after g = Some new → digest_member SHA40 blob = true →
  made_branch g = false → made_source g = false → (∀ e g', Q (Raise e) g') →
  (∀ h g', basis g' = basis g → branch_ready g' = true → h = str_value (head_of g') → Q (Ok h) g') →
  safe (ensure_branch binding before new (str_value blob)) g Q.
Proof.
  intros Hck Hsrc Hnew Hblob Hmb Hms HE HQ. unfold ensure_branch. fold name base.
  apply safe_bind. apply (safe_hub (get_branch _)); [done|]. intros [found|e]; [|by apply HE]. rewrite next_branch.
  cbn [ok_value]. set (g1 := g <| branch := Some found |>).
  (* from the branch as it is *)
  assert (∀ existing g2, basis g2 = basis g → made_source g2 = false → branch g2 = Some existing →
    safe (demand (has_commit existing) "draft_branch_unreadable" ;;
      remote ← call (get_source name);
      (if is_text (commit_sha existing) base && String.eqb remote.1 before
       then call (replace_source name new (str_value blob))
       else demand (new_head binding (commit_sha existing) && String.eqb remote.1 new) "branch_collision_or_divergence") ;;
      final_branch ← call (get_branch name);
      final_source ← call (get_source name);
      demand (has_commit final_branch && new_head binding (commit_sha final_branch) && String.eqb final_source.1 new)
        "branch_readback_failed" ;;
      paths ← call (changed_paths base (str_value (commit_sha final_branch)));
      demand (bool_decide (paths = [PATH])) "draft_branch_diff_scope_invalid" ;;
      mret (str_value (commit_sha final_branch))) g2 Q) as Hrest.
  { intros existing g2 Hb2 Hms2 Hex. destruct (made_pr_basis _ _ Hb2) as (Hmp2 & Ha2 & Hs2).
    assert (checks g2 = true) as Hck2 by (by rewrite (checks_basis _ _ Hb2)).
    apply safe_bind, safe_demand; [|by intros; apply HE]. intros _.
    apply safe_bind. apply (safe_hub (get_source _)); [done|]. intros [seen|e]; [|by apply HE]. rewrite next_remote.
    cbn [ok_value fmap option_fmap option_map]. set (g3 := g2 <| remote := Some seen.1 |>).
    assert (∀ g4, basis g4 = basis g2 →
      safe (final_branch ← call (get_branch name); final_source ← call (get_source name);
        demand (has_commit final_branch && new_head binding (commit_sha final_branch) && String.eqb final_source.1 new)
          "branch_readback_failed" ;;
        paths ← call (changed_paths base (str_value (commit_sha final_branch)));
        demand (bool_decide (paths = [PATH])) "draft_branch_diff_scope_invalid" ;;
        mret (str_value (commit_sha final_branch))) g4 Q) as Hfinal.
    { intros g4 Hb4.
      apply safe_bind. apply (safe_hub (get_branch _)); [done|]. intros [fb|e]; [|by apply HE]. rewrite next_branch.
      apply safe_bind. apply (safe_hub (get_source _)); [done|]. intros [fs|e]; [|by apply HE]. rewrite next_remote.
      apply safe_bind, safe_demand; [|by intros; apply HE]. intros [[Hc Hh]%andb_split Hf]%andb_split.
      apply safe_bind. apply (safe_hub (changed_paths _ _)); [done|]. intros [ps|e]; [|by apply HE].
      apply safe_bind, safe_demand; [|by intros; apply HE]. intros Hp.
      cbn [next ok_value mbind option_bind fmap option_fmap option_map]. rewrite String.eqb_refl.
      apply safe_ret, HQ; [by rewrite <- Hb2, <- Hb4| |done].
      unfold branch_ready, head_of, remote_is. 
      destruct (made_pr_basis _ _ Hb4) as (_ & Ha4 & _).
      replace (after _) with (Some new) by (cbn; congruence). cbn. by rewrite Hc, Hh, Hf, String.eqb_refl, Hp. }
    destruct (is_text (commit_sha existing) base && String.eqb seen.1 before) eqn:Eb.
    - apply andb_split in Eb as [Eh Er].
      apply safe_bind. apply (safe_hub (replace_source _ _ _)); [|intros [[]|e]; [by apply Hfinal|by apply HE]].
      unfold allowed. rewrite String.eqb_refl. cbn [andb]. change (checks g3) with (checks g2). rewrite Hck2.
      change (made_source g3) with (made_source g2). rewrite Hms2. change (after g3) with (after g2).
      rewrite Ha2, Hnew, bool_decide_eq_true_2 by done. change (source g3) with (source g2). rewrite Hs2, Hsrc. cbn [andb negb].
      rewrite (digest_text _ _ Hblob). unfold remote_is, head_of.
      change (remote g3) with (Some seen.1). change (branch g3) with (branch g2). by rewrite Hex, Er, Eh.
    - apply safe_bind, safe_demand; [|by intros; apply HE]. intros _. by apply Hfinal. }
  destruct (is_none found) eqn:En.
  - apply is_none_spec in En as ->. do 2 apply safe_bind.
    apply (safe_hub (create_branch _ _)).
    { unfold allowed. rewrite !String.eqb_refl. change (checks g1) with (checks g). rewrite Hck. cbn.
      change (made_branch g1) with (made_branch g). by rewrite Hmb. }
    intros [[]|e]; [|by apply HE]. cbn [next].
    apply (safe_hub (get_branch _)); [done|]. intros [existing|e]; [|by apply HE]. rewrite next_branch.
    by apply Hrest.
  - apply safe_bind, safe_ret. by apply Hrest.
Qed.
End Named.

(** A draft that was read back. *)
Definition published (g : Pub) : Prop :=
  checks g = true ∧ branch_ready g = true ∧
  ∃ p, pr g = Some p ∧ pr_verified (str_value (head_of g)) body p = true.

Lemma safe_pr g (Q : res (json * bool) → Pub → Prop) :
  checks g = true → branch_ready g = true → made_pr g = false → (∀ e g', Q (Raise e) g') →
  (∀ v g', published g' → Q (Ok v) g') →
  safe (ensure_pr binding (str_value (head_of g)) body) g Q.
Proof.
  intros Hck Hbr Hmp HE HQ. unfold ensure_pr. fold name.
  assert (∀ g2 p made, checks g2 = true → branch_ready g2 = true → head_of g2 = head_of g → pr g2 = Some p →
    safe (demand (pr_verified (str_value (head_of g)) body p) "draft_pr_readback_failed" ;; mret (p, made)) g2 Q) as Hend.
  { intros g2 p made H1 H2 H3 Hp. apply safe_bind, safe_demand; [|by intros; apply HE]. intros Hv.
    apply safe_ret, HQ. split; [done|]. split; [done|]. exists p. by rewrite H3. }
  apply safe_bind. apply (safe_hub (find_pr _)); [done|]. intros [found|e]; [|by apply HE]. cbn [next ok_value].
  set (g1 := g <| pr := Some found |>). destruct (is_none found) eqn:En; [|apply safe_bind, safe_ret; by apply Hend].
  apply is_none_spec in En as ->. do 2 apply safe_bind. apply (safe_hub (create_pr _ _ _)).
  { unfold allowed. rewrite !String.eqb_refl. change (checks g1) with (checks g). rewrite Hck.
    change (made_pr g1) with (made_pr g). rewrite Hmp. change (branch_ready g1) with (branch_ready g). by rewrite Hbr. }
  intros [[]|e]; [|by apply HE]. cbn [next]. apply safe_bind. apply (safe_hub (find_pr _)); [done|].
  intros [again|e]; [|by apply HE]. apply safe_ret. by apply Hend.
Qed.

Lemma safe_publish_draft before new g (Q : res json → Pub → Prop) :
  after g = Some new → (negb fenced || git_proved g) = true →
  made_branch g = false → made_source g = false → made_pr g = false → (∀ e g', Q (Raise e) g') →
  (∀ v g', published g' → Q (Ok v) g') →
  safe (publish_draft binding before new audit now observed_at) g Q.
Proof.
  intros Hnew Hf Hmb Hms Hmp HE HQ. unfold publish_draft. fold base.
  apply safe_bind. apply (safe_hub (get_branch _)); [done|]. intros [m|e]; [|by apply HE]. cbn [next ok_value].
  apply safe_bind, safe_demand; [|by intros; apply HE]. intros _.
  apply safe_bind. apply (safe_hub (get_issue _)); [done|]. intros [i|e]; [|by apply HE]. cbn [next ok_value].
  apply safe_bind. apply (safe_hub (get_comment _)); [done|]. intros [c|e]; [|by apply HE]. cbn [next ok_value].
  apply safe_bind, safe_res; [|by intros; apply HE]. intros checked Hadmit.
  apply safe_bind, safe_demand; [|by intros; apply HE]. intros ->%bool_decide_eq_true_1.
  pose proof (admitted_name _ _ _ Hadmit) as Hname.
  apply safe_bind. apply (safe_hub (get_source _)); [done|]. intros [[actual blob]|e]; [|by apply HE].
  apply safe_bind, safe_demand; [|by intros; apply HE]. intros [E%String.eqb_eq Hblob]%andb_split.
  cbn [fst snd] in E, Hblob. subst actual. cbn [next]. rewrite String.eqb_refl. cbn [ok_value snd].
  apply safe_bind, safe_demand; [|by intros; apply HE]. intros _.
  apply safe_bind, (safe_verify before blob new); [done|exact Hnew|by intros; apply HE|].
  intros v ch rg g1 Hne Hval Hreg.
  apply safe_bind, safe_demand; [|by intros; apply HE]. intros _.
  assert (after g1 = Some new) as Hnew1 by exact Hnew.
  assert (checks g1 = true) as Hck.
  { unfold checks. rewrite Hreg. change (git_proved g1) with (git_proved g). rewrite Hf.
    unfold authorized. cbn [main issue comment]. replace (main g1) with (Some m) by done.
    replace (issue g1) with (Some i) by done. replace (comment g1) with (Some c) by done. rewrite Hadmit.
    rewrite bool_decide_eq_true_2 by done.
    unfold source_known. replace (source g1) with (Some (before, blob)) by done. rewrite Hnew1.
    replace (children g1) with ch by done. by rewrite Hblob, Hne, Hval. }
  apply safe_bind, (safe_branch Hname before); [exact Hck|done|exact Hnew1|exact Hblob|exact Hmb|exact Hms|by intros; apply HE|].
  intros h g2 Hb2 Hbr ->. destruct (made_pr_basis _ _ Hb2) as (Hmp2 & _ & _).
  apply safe_bind, safe_pr; [by rewrite (checks_basis _ _ Hb2)|done|rewrite Hmp2; exact Hmp|by intros; apply HE|].
  intros pr g3 Hpub. apply safe_ret. by apply HQ.
Qed.

(** The coordinator: the pool, the stored artifact and the independent
    checkout come first. *)
Lemma safe_completed g (Q : res json → Pub → Prop) :
  (∀ e g', Q (Raise e) g') →
  (∀ k, completed_task binding task_id k = true → Q (Ok k) (g <| task := Some k |>)) →
  safe (completed binding task_id) g Q.
Proof.
  intros HE HQ. unfold completed. apply safe_bind, safe_demand; [|by intros; apply HE]. intros _.
  apply safe_bind. apply (safe_hub (IssueDraft.get_task _)); [done|]. intros [k|e]; [|by apply HE]. cbn [next ok_value].
  apply safe_bind, safe_demand; [|by intros; apply HE]. intros Hk. by apply safe_ret, HQ.
Qed.
End Protocol.

Lemma safe_publish_completed {py : Language} binding audit now task_id g
    (Q : res json → Pub → Prop) :
  made_branch g = false → made_source g = false → made_pr g = false → (∀ e g', Q (Raise e) g') →
  (∀ v g' g'', published binding audit now (isoformat_utc now) true g' → pr g'' = pr g' → Q (Ok v) g'') →
  Prog.safe (allowed binding audit now (isoformat_utc now) true) (next binding task_id)
    (publish_completed_fenced_issue binding task_id audit now) g Q.
Proof.
  intros Hmb Hms Hmp HE HQ. unfold publish_completed_fenced_issue.
  apply safe_bind, safe_completed; [by intros; apply HE|]. intros k Hk.
  apply safe_bind. eapply (safe_hub _ _ _ _ _ _ (IssueDraft.get_latest_checkpoint _)); [done|].
  intros [c|e]; [|by apply HE]. cbn [next ok_value].
  apply safe_bind, safe_demand; [|by intros; apply HE]. intros Hc.
  apply safe_bind. eapply (safe_hub _ _ _ _ _ _ (materialize _ _ _)); [done|].
  intros [cas|e]; [|by apply HE]. cbn [next ok_value mbind option_bind].
  change (task_facts _) with k. destruct (materialized binding k c cas) as [new|]; [|by apply safe_bind, safe_throw, HE].
  apply safe_bind, safe_ret.
  apply safe_bind. eapply (safe_hub _ _ _ _ _ _ (git_verify _ _ _)); [done|].
  intros [v|e]; [|by apply HE]. cbn [next ok_value].
  apply safe_bind, safe_demand; [|by intros; apply HE]. intros Hv.
  set (g1 := g <| task := Some k |> <| checkpoint := Some c |> <| after := Some new |>).
  set (g2 := (g1 <| git_proved := _ |>)).
  assert (git_proved g2 = true) as Hproved.
  { change (git_proved g2) with (task_proved binding task_id g1 && bool_decide (Some new = after g1) && git_verified binding k new v).
    rewrite bool_decide_eq_true_2 by done. rewrite Hv. unfold task_proved.
    change (task g1) with (Some k). change (checkpoint g1) with (Some c). cbv iota beta. by rewrite Hk, Hc. }
  apply safe_bind. eapply (safe_hub _ _ _ _ _ _ (get_source _)); [done|].
  intros [[before blob]|e]; [|by apply HE]. cbn [next]. rewrite String.eqb_refl. cbn [ok_value fst].
  apply safe_bind, safe_demand; [|by intros; apply HE]. intros _.
  apply safe_bind, safe_publish_draft; [done|exact Hproved|exact Hmb|exact Hms|exact Hmp|by intros; apply HE|].
  intros result g3 Hpub. apply safe_bind, safe_completed; [by intros; apply HE|]. intros final _.
  apply safe_bind, safe_demand; [|by intros; apply HE]. intros _.
  apply safe_ret. by eapply HQ.
Qed.
