(* ===== verification/IssueScenario.v ===== *)
(** A concrete publication: an authorised issue whose fenced task is completed
    in the pool, the repaired source in the store, and a GitHub that keeps a
    branch and a pull request. *)
From Stdlib Require Import Ascii String.
From stdpp Require Import strings list.
From S2P Require Import Prelude Prog PyStr Sha256 Clock Json PyVal PyText PyAst IsoDate Names Structured Repair.
From S2P Require Import IssueDraft IssuePool IssueSpec.

Local Open Scope string_scope.
Local Open Scope Z_scope.

(** ** The function, before and after *)

Definition p_text (n : Z) : string :=
  concat_text ["def _property(properties, name):"; newline; "    return "; int_text n].
Definition p_source (n : Z) : string := String.append (p_text n) newline.
Definition p_arg (name : string) : option node :=
  Some (Node "arg" (at_position 1 14 1) [("arg", a_text name)] [("annotation", [])]).
Definition p_node (n : Z) : node :=
  Node "FunctionDef" (at_position 1 0 2) [("name", a_text "_property")]
    [("args", [Some (Node "arguments" (at_position 0 0 0) []
        [("posonlyargs", []); ("args", [p_arg "properties"; p_arg "name"]); ("vararg", []); ("kwonlyargs", []);
         ("kwarg", []); ("defaults", [])])]);
     ("body", [Some (Node "Return" (at_position 2 4 2) []
        [("value", [Some (Node "Constant" (at_position 2 11 2) [("value", a_const (c_json (JInt n)))] [])])])]);
     ("decorator_list", []); ("returns", []); ("type_params", [])].
Definition p_module (n : Z) : node := Node "Module" (at_position 0 0 0) [] [("body", [Some (p_node n)])].
Definition p_constant (n : node) : Z :=
  match List.find (is_node "Constant") (walk n) with
  | Some c => match const_of c with c_json (JInt z) => z | _ => 0 end
  | None => 0
  end.
Definition failing_42 : json :=
  JObj [("passed", JInt 0); ("total", JInt 42); ("errors", JInt 0);
        ("failures", JList (map (fun i => JObj [("case_index", JInt (Z.of_nat i));
           ("observed", JObj [("kind", JStr "value"); ("type", JStr "int"); ("value", JInt 1)])]) (seq 0 42)))].
Definition p_reply : json := JObj [("function", JStr (p_source 2))].
#[export] Instance issue_language : Language := {|
  ast_parse s :=
    if existsb (String.eqb s) [p_text 1; p_source 1] then Ok (p_module 1)
    else if existsb (String.eqb s) [p_text 2; p_source 2] then Ok (p_module 2)
    else Raise (Error "SyntaxError" "invalid syntax");
  ast_parse_eval s := Raise (Error "SyntaxError" "invalid syntax");
  ast_unparse n := p_text (p_constant n);
  ast_dump n := p_text (p_constant n);
  repr_text s := s;
  json_loads s :=
    if String.eqb s (json_dumps_text p_reply) then Ok p_reply
    else if String.eqb s (json_dumps failing_42) then Ok failing_42
    else if String.eqb s (json_dumps full_report) then Ok full_report else Raise (ValueError "Expecting value");
  utf8_decode s := Ok s |}.

(** ** The surroundings *)

Definition issue_base : string := "1111111111111111111111111111111111111111".
Definition issue_produced : string := "2222222222222222222222222222222222222222".
Definition issue_head : string := "3333333333333333333333333333333333333333".
Definition issue_blob : string := "4444444444444444444444444444444444444444".
Definition issue_digest : string := "dae161e27b0e0000000000000000000000000000000000000000000000000000".
Definition issue_task : string := "cwp-0123456789abcdef01234567".
Definition issue_now : datetime := 63844842599500000.
Definition issue_binding : IssueBinding.t := bind_issue 7 99 issue_base.
Definition bundle : string := "bundle".
Definition issue_audit : json :=
  JObj [("model", JStr MODEL); ("model_digest", JStr issue_digest); ("model_calls", JInt 1); ("base_sha", JStr issue_base);
        ("produced_sha", JStr issue_produced); ("source_sha256", JStr (sha256_hex (p_source 2)));
        ("baseline_passed", JInt 0); ("accepted_cases", JInt 42); ("regressions_passed", JInt 60);
        ("request_id", JStr (IssueBinding.request_id issue_binding))].

(** GitHub's state: the branch's source, if it exists, and the pull request. *)
Record Hub := mkHub { hub_branch : option string; hub_pr : option json }.
Definition commit_json (name sha : string) : json := JObj [("name", JStr name); ("commit", JObj [("sha", JStr sha)])].
Definition draft_head (h : Hub) : string :=
  match hub_branch h with Some s => if String.eqb s (p_source 2) then issue_head else issue_base | None => issue_base end.
Definition hub_task : json :=
  JObj [("task_id", JStr issue_task); ("repository", JStr REPO); ("issue_number", JInt 7);
        ("request_id", JStr (IssueBinding.request_id issue_binding)); ("base_sha", JStr issue_base);
        ("branch", JStr (IssueBinding.branch issue_binding)); ("fencing_required", JBool true);
        ("state", JStr "completed"); ("leased_by", JNull); ("produced_sha", JStr issue_produced);
        ("builder_worker_id", JStr "builder-1"); ("validator_worker_id", JStr "validator-1");
        ("attempt_count", JInt 2); ("lease_generation", JInt 2)].
Definition hub_checkpoint : json :=
  JObj [("task_id", JStr issue_task); ("stage", JStr "validator_result"); ("next_action", JStr "complete");
        ("lease_generation", JInt 2); ("artifact_ref", JStr "cas://1"); ("artifact_sha256", JStr (sha256_hex bundle));
        ("artifact_kind", JStr "git_bundle_s3_cas")].
Definition hub_world (o : op) (h : Hub) : res (answer o) * Hub :=
  match o return res (answer o) * Hub with
  | get_branch n =>
      (Ok (if String.eqb n "main" then commit_json "main" issue_base
           else match hub_branch h with Some _ => commit_json n (draft_head h) | None => JNull end), h)
  | get_source ref =>
      (Ok (if String.eqb ref issue_base then p_source 1
           else match hub_branch h with Some s => s | None => "" end, JStr issue_blob), h)
  | changed_paths _ _ => (Ok [PATH], h)
  | create_branch _ _ => (Ok tt, mkHub (Some (p_source 1)) (hub_pr h))
  | replace_source _ content _ => (Ok tt, mkHub (Some content) (hub_pr h))
  | find_pr _ => (Ok (match hub_pr h with Some p => p | None => JNull end), h)
  | create_pr _ _ body =>
      (Ok tt, mkHub (hub_branch h) (Some (JObj [("number", JInt 12); ("state", JStr "open"); ("draft", JBool true);
         ("head_sha", JStr (draft_head h)); ("base_ref", JStr "main"); ("body", JStr body)])))
  | get_issue n =>
      (Ok (JObj [("number", JInt n); ("state", JStr "open"); ("html_url", JStr (issue_url n));
                 ("repository_url", JStr (concat_text ["https://api.github.com/repos/"; REPO]))]), h)
  | get_comment c =>
      (Ok (JObj [("id", JInt c); ("user", JObj [("login", JStr OWNER); ("type", JStr "User")]);
                 ("author_association", JStr "OWNER"); ("issue_url", JStr (issue_api_url 7));
                 ("body", JStr (concat_text ["/local-agent authorize "; PROFILE; " sha:"; issue_base]))]), h)
  | regression_checker s sha =>
      (Ok (JObj [("independent_checkout", JBool true); ("source_sha256", JStr (sha256_hex s)); ("produced_sha", JStr sha);
                 ("passed", JInt 60); ("collected", JInt 60); ("failed", JInt 0); ("errors", JInt 0)]), h)
  | worker (run_child payload) =>
      (Ok (0, json_dumps (if contains "return 2" payload then full_report else failing_42)), h)
  | worker _ => (Raise (RuntimeError "not used"), h)
  | materialize _ _ sha =>
      (Ok (mkCas (Some bundle) (Some (p_source 2)) (JObj [("produced_sha", JStr sha); ("base_sha", JStr issue_base)])), h)
  | git_verify s b p =>
      (Ok (JObj [("base_sha", JStr b); ("produced_sha", JStr p); ("source_sha256", JStr (sha256_hex s));
                 ("changed_paths", JList [JStr PATH]); ("checkout_isolated", JBool true); ("commit_verified", JBool true)]), h)
  | IssueDraft.get_task _ => (Ok hub_task, h)
  | IssueDraft.get_latest_checkpoint _ => (Ok hub_checkpoint, h)
  | list_repositories | enqueue_fenced_issue _ => (Raise (RuntimeError "not used"), h)
  end.
Definition issue_run := Prog.execute hub_world
  (publish_completed_fenced_issue issue_binding issue_task issue_audit issue_now) (mkHub None None).
Definition issue_replay := Prog.execute hub_world
  (publish_completed_fenced_issue issue_binding issue_task issue_audit issue_now) issue_run.2.2.
Definition outcome (r : res json) (k : string) : json := match r with Ok v => member k v | Raise _ => JNull end.
Example issue_run_publishes :
  map (outcome issue_run.2.1) ["result"; "pr_number"; "replayed"] = [JStr "DRAFT_PR_VERIFIED"; JInt 12; JBool false] ∧
  map (outcome issue_replay.2.1) ["result"; "pr_number"; "replayed"] = [JStr "DRAFT_PR_VERIFIED"; JInt 12; JBool true].
Proof. vm_compute. split; reflexivity. Qed.
