(* ===== verification/Revision.v ===== *)
(** The revisions of a candidate: [app/structured_revision.py] (exact edits of
    the text, or a whole function), the traced revision by line anchors of
    [app/structured_anchors.py], and the metadata that
    [app/structured_diagnostics.py] hands to an observer at each stage.

    A revision is a program over the observer's callback, which may raise.
    After the definitions: the observer decides nothing and receives no text,
    and the edits are a simultaneous replacement. *)
From Stdlib Require Import Ascii String.
From S2P Require Import Prelude Prog PyStr Sha256 Json PyVal PyText PyAst Names Structured Anchors.
From S2P Require StructuredProps IssueDraft IssueScenario.
From stdpp Require Import strings list.

Local Open Scope string_scope.
Local Open Scope Z_scope.
Local Open Scope list_scope.

(** ** Metadata of a revision *)

Definition REASONS : list string :=
  ["revision_feedback_missing"; "feedback_candidate_mismatch"; "revision_size"; "revision_json"; "revision_schema";
   "revision_edit_schema"; "revision_edit_not_unique"; "revision_signature_edit"; "revision_edits_overlap";
   "revision_anchor_source"; "revision_anchor_invalid"; "revision_anchor_duplicate"; "revision_indentation";
   "revision_block_header"; "revision_guard_expression"; "candidate_repeated"; "candidate_grammar"; "candidate_function_only";
   "candidate_syntax"; "candidate_loops"; "candidate_depth"; "candidate_name"; "candidate_call"; "candidate_attribute";
   "nested_function"; "reserved_assignment"; "assignment_target"; "loop_target"; "generator_target"; "call_expansion";
   "dictionary_expansion"; "function_identity"; "function_signature"; "function_decorator"; "reply_size"; "reply_json";
   "reply_schema"; "module_size"; "module_syntax"; "multiline_signature_not_supported"; "json_depth"; "json_object";
   "json_array"; "json_type"; "json_string"; "json_number"].
Definition SYNTAX_KINDS : list (string * string) :=
  [("expected an indented block", "missing_block"); ("unexpected indent", "unexpected_indent");
   ("unindent does not match", "bad_unindent"); ("inconsistent use of tabs and spaces", "tabs_spaces");
   ("expected ':'", "missing_colon"); ("invalid syntax", "invalid_syntax"); ("'return' outside function", "return_outside");
   ("'break' outside loop", "break_outside"); ("unterminated string", "unterminated_string");
   ("'(' was never closed", "open_parenthesis"); ("'[' was never closed", "open_bracket");
   ("'{' was never closed", "open_brace")].
Definition syntax_kind (msg : json) : string :=
  match msg with
  | JStr message =>
      match List.find (fun k => starts_with k.1 message) SYNTAX_KINDS with Some k => k.2 | None => "other" end
  | _ => "other"
  end.
Definition ANCHOR_FAILURE_KINDS : list string := ["unknown_anchor"; "guard_not_if_header"; "guard_not_statement"].

(** The members [msg], [lineno] and [offset] of the [SyntaxError] that the
    parser raises for a source. *)
Class SyntaxErrors := { error_msg : string → json; error_lineno : string → json; error_offset : string → json }.

(** [self.observer(copy.deepcopy(self.record))] *)
Inductive op : Type := observe (record : json).
Definition answer (o : op) : Type := unit.
Abbreviation P := (prog answer).
Abbreviation Record_ := (list (string * json)).
Definition write_error (message : string) : exn := Error "DiagnosticWriteError" message.

Definition emit (watched : bool) (record : Record_) : P unit :=
  if watched then catch (call (observe (JObj record))) (fun _ => throw (write_error "revision_diagnostic_write_failed"))
  else mret tt.
(** [self.record.update(entries)] *)
Definition note (entries : Record_) (record : Record_) : Record_ := fold_left (fun r e => set_key e.1 e.2 r) entries record.

(** [RevisionTrace.__init__], before it emits. *)
Definition received (reply : json) : Record_ :=
  [("schema_version", JInt 1); ("stage", JStr "received")] ++
  match reply with
  | JStr s =>
      ("response_characters", JInt (length_of s)) ::
      if length_of s <=? 16384 then [("response_sha256", JStr (sha256_of s))] else []
  | _ => []
  end.

Section Trace.
Context {py : Language} {errors : SyntaxErrors}.

Definition leading_blanks (s : string) : Z := length_of s - length_of (lstrip_blank s).
(** What is noted of the line that does not parse. *)
Definition syntax_location (source : string) : Record_ :=
  let lines := splitlines source in
  match error_lineno source with
  | JInt line =>
      if (1 <=? line) && (line <=? Z.of_nat (length lines)) && (line <=? 400) then
        match lines !! Z.to_nat (line - 1) with
        | Some content =>
            [("syntax_line", JInt line); ("syntax_line_sha256", JStr (sha256_of content));
             ("syntax_line_indent", JInt (leading_blanks content)); ("syntax_line_characters", JInt (length_of content))] ++
            (if int_that (fun offset => (1 <=? offset) && (offset <=? length_of content + 1)) (error_offset source)
             then [("syntax_column", error_offset source)] else []) ++
            (if 1 <? line then
               match lines !! Z.to_nat (line - 2) with
               | Some previous =>
                   [("syntax_prior_line_colon", JBool (ends_with ":" (rstrip previous)));
                    ("syntax_prior_line_indent", JInt (leading_blanks previous))]
               | None => []
               end
             else [])
        | None => []
        end
      else []
  | _ => []
  end.
Definition forbidden_node (n : node) : json :=
  JObj [("type", JStr (cls_of n)); ("line", JInt (Z.of_nat (lineno (pos_of n)))); ("column", JInt (col_offset (pos_of n)))].
(** [sorted({...})] of texts. *)
Definition sorted_texts (l : list string) : list string := sort_by text_leb (remove_dups l).
Definition tree_notes (tree : node) : Record_ :=
  let visited := take 4096 (walk tree) in
  let count := Z.of_nat (length visited) in
  let forbidden := take 16 (List.filter (fun n => negb (bool_decide (cls_of n ∈ NODES))) visited) in
  [("ast_parse", JStr "valid"); ("ast_node_count", JInt count); ("ast_scan_truncated", JBool (4096 <=? count));
   ("rejected_ast_nodes", JList (map forbidden_node forbidden));
   ("rejected_ast_types", JList (map JStr (sorted_texts (map cls_of forbidden))))].

(** [before_guard(source, NODES)]: what is noted, or an error of another class
    than those of the parser. *)
Definition guard_notes (source : string) : res Record_ :=
  let first := [("stage", JStr "guard"); ("assembly_characters", JInt (length_of source))] in
  if 65536 <? length_of source then Ok (first ++ [("ast_parse", JStr "size_blocked")])
  else
    let parsed := first ++ [("assembly_sha256", JStr (sha256_of source))] in
    match ast_parse source with
    | Ok tree => Ok (parsed ++ tree_notes tree)
    | Raise e =>
        if syntax_failure e then
          Ok (parsed ++ [("ast_parse", JStr "invalid")] ++
              match e with
              | Error c _ =>
                  if String.eqb c "SyntaxError"
                  then ("syntax_kind", JStr (syntax_kind (error_msg source))) :: syntax_location source else []
              | _ => []
              end)
        else Raise e
    end.
Definition before_guard (watched : bool) (record : Record_) (source : string) : P Record_ :=
  notes ← of_res (guard_notes source);
  let record := note notes record in
  emit watched record ;;
  mret record.

Definition rejected_notes (record : Record_) (reason : string) (kind : option string) : Record_ :=
  note (match kind with Some k => [("anchor_failure_kind", JStr k)] | None => [] end ++
        [("failed_stage", match lookup_key "stage" record with Some s => s | None => JNull end); ("stage", JStr "rejected");
         ("reason_code", JStr (if bool_decide (reason ∈ REASONS) then reason else "structured_rejection"))]) record.
Definition trace_rejected (watched : bool) (record : Record_) (reason : string) (kind : option string) : P unit :=
  (if match kind with
      | Some k => negb (String.eqb reason "revision_anchor_invalid") || negb (bool_decide (k ∈ ANCHOR_FAILURE_KINDS))
      | None => false
      end
   then throw (write_error "revision_diagnostic_kind_invalid") else mret tt) ;;
  emit watched (rejected_notes record reason kind).
Definition trace_accepted (watched : bool) (record : Record_) : P unit := emit watched (note [("stage", JStr "accepted")] record).
End Trace.

(** ** Exact edits of the text *)

(** [s.index(p)], and [s.count(p)] for a nonempty [p]: [skip] characters belong
    to the occurrence before. *)
Fixpoint index_text (p s : string) : option nat :=
  if starts_with p s then Some O else match s with EmptyString => None | String _ s' => S <$> index_text p s' end.
Fixpoint count_text (skip : nat) (p s : string) : nat :=
  match s with
  | EmptyString => O
  | String _ s' =>
      match skip with
      | S k => count_text k p s'
      | O => if starts_with p s then S (count_text (len p - 1) p s') else count_text O p s'
      end
  end.
Module Span.
Record t := mk { start : nat; end_ : nat; new : string }.
Definition leb (a b : t) : bool :=
  (start a <? start b)%nat ||
  ((start a =? start b)%nat && ((end_ a <? end_ b)%nat || ((end_ a =? end_ b)%nat && text_leb (new a) (new b)))).
End Span.
Definition edit_span (source : string) (edit : json) : res Span.t :=
  need (has_exactly ["old"; "new"] edit &&
        member_that "old" (str_that (fun s => (1 <=? length_of s) && (length_of s <=? 3000))) edit &&
        member_that "new" (str_that (fun s => length_of s <=? 6000)) edit) "revision_edit_schema" ;;
  match value_of "old" edit, value_of "new" edit with
  | Some (JStr old), Some (JStr new) =>
      need (negb (String.eqb old new)) "candidate_repeated" ;;
      need (count_text 0 old source =? 1)%nat "revision_edit_not_unique" ;;
      match index_text old source, index_text newline source with
      | Some start, Some header =>
          need (S header <=? start)%nat "revision_signature_edit" ;;
          Ok (Span.mk start (start + len old) new)
      | _, _ => Raise (ValueError "substring not found")
      end
  | _, _ => Raise (blocked "revision_edit_schema")
  end.
Fixpoint edit_spans (source : string) (edits : list json) : res (list Span.t) :=
  match edits with
  | [] => Ok []
  | e :: edits' => s ← edit_span source e; rest ← edit_spans source edits'; Ok (s :: rest)
  end.
(** [all(left[1] <= right[0] for left, right in zip(spans, spans[1:]))] *)
Fixpoint apart (l : list Span.t) : bool :=
  match l with
  | a :: (b :: _) as l' => (Span.end_ a <=? Span.start b)%nat && apart l'
  | _ => true
  end.
(** [source[:start] + new + source[end:]] *)
Definition splice (source : string) (s : Span.t) : string :=
  concat_text [take_str (Span.start s) source; Span.new s; str (drop (Span.end_ s) (chars source))].
Definition splice_all (source : string) (spans : list Span.t) : string := fold_left splice (rev spans) source.

Section Revision.
Context {py : Language} {errors : SyntaxErrors}.

(** The feedback names the candidate: the task, and its fingerprint. *)
Definition revised_task (before : string) (proposal : json) : res (Task.t * string) :=
  task ← proposal_spec proposal;
  feedback ← match value_of "feedback" proposal with
             | Some f => Ok f | None => Raise (blocked "revision_feedback_missing") end;
  digest ← candidate_fingerprint before task;
  need (member_that "candidate_sha256" (fun v => is_text v digest) feedback) "feedback_candidate_mismatch" ;;
  Ok (task, digest).
Definition decoded_reply (code : string) (reply : json) : res json :=
  match reply with
  | JStr s =>
      need (byte_length s <=? 16384) "revision_size" ;;
      match json_loads s with
      | Raise e => Raise (if value_failure e then blocked code else e)
      | r => r
      end
  | _ => Raise (blocked "revision_size")
  end.
(** A candidate that is rendered, and is not the one before. *)
Definition renewed (before : string) (proposal : json) (task : Task.t) (digest : string) (reply : json) : res string :=
  candidate ← render before (without_key "feedback" proposal) reply;
  fingerprint ← candidate_fingerprint candidate task;
  need (negb (String.eqb fingerprint digest)) "candidate_repeated" ;;
  Ok candidate.

(** Before the guard: the task, its fingerprint, the assembled function and
    what the reply asked for. *)
Definition Assembly : Type := Task.t * string * string * list json.
Definition local_assembly (reply : json) (before : string) (proposal : json) : res Assembly :=
  known ← revised_task before proposal;
  value ← decoded_reply "revision_json" reply;
  edits ← match value_of "edits" value with
          | Some (JList l) => need (has_exactly ["edits"] value && between_1_6 (length l)) "revision_schema" ;; Ok l
          | _ => Raise (blocked "revision_schema")
          end;
  source ← extracted before known.1;
  spans ← edit_spans source edits;
  let spans := sort_by Span.leb spans in
  need (apart spans) "revision_edits_overlap" ;;
  Ok (known.1, known.2, splice_all source spans, edits).
Definition full_assembly (reply : json) (before : string) (proposal : json) : res Assembly :=
  known ← revised_task before proposal;
  value ← decoded_reply "reply_json" reply;
  match value_of "function" value with
  | Some (JStr f) => need (has_exactly ["function"] value) "reply_schema" ;; Ok (known.1, known.2, f, [])
  | _ => Raise (blocked "reply_schema")
  end.
Definition anchored_assembly (model_strict model_split : bool) (reply : json) (before : string) (proposal : json) : res Assembly :=
  known ← revised_task before proposal;
  source ← extracted before known.1;
  assembled ← assemble_anchors reply source model_split;
  need (negb model_split || model_strict) "revision_edit_schema" ;;
  (if model_strict then
     catalog ← line_catalog source;
     each (strict_edit catalog (splitlines source)) assembled.2
   else Ok tt) ;;
  Ok (known.1, known.2, assembled.1, assembled.2).

Definition function_reply (function : string) : json := JStr (json_dumps (JObj [("function", JStr function)])).
Definition function_text (function : string) : json := JStr (json_dumps_text (JObj [("function", JStr function)])).
(** After the guard. *)
Definition local_result (before : string) (proposal : json) (a : Assembly) : res (json * list json) :=
  let '(task, digest, source, edits) := a in
  candidate ← renewed before proposal task digest (function_reply source);
  function ← extracted candidate task;
  Ok (function_text function, edits).
Definition full_result (reply : json) (before : string) (proposal : json) (a : Assembly) : res json :=
  let '(task, digest, _, _) := a in
  renewed before proposal task digest reply ;;
  Ok reply.
Definition anchored_candidate (before : string) (proposal : json) (a : Assembly) : res (Task.t * string * list json) :=
  let '(task, digest, assembled, edits) := a in
  candidate ← renewed before proposal task digest (function_reply assembled);
  Ok (task, candidate, edits).

(** [except StructuredBlocked as error], and [AnchorRejected] where it can be
    raised: the observer is told, and the error is raised again. *)
Definition on_rejection {A} (watched : bool) (record : Record_) (e : exn) : P A :=
  match e with
  | Error c code =>
      if is_rejected e then trace_rejected watched record code (anchor_failure_kind e) ;; throw (blocked code)
      else if is_blocked e then trace_rejected watched record code None ;; throw e
      else throw e
  | _ => throw e
  end.
(** The trace around an assembly and what follows the guard. *)
Definition traced {A} (watched : bool) (reply : json) (assembly : res Assembly) (result : Assembly → res A) : P A :=
  let record := received reply in
  emit watched record ;;
  match assembly with
  | Raise e => on_rejection watched record e
  | Ok a =>
      record ← before_guard watched record a.1.2;
      match result a with
      | Raise e => on_rejection watched record e
      | Ok r => trace_accepted watched record ;; mret r
      end
  end.

Definition apply_local_edits (watched : bool) (reply : json) (before : string) (proposal : json) : P (json * list json) :=
  traced watched reply (local_assembly reply before proposal) (local_result before proposal).
Definition apply_full_function_revision (watched : bool) (reply : json) (before : string) (proposal : json) : P json :=
  traced watched reply (full_assembly reply before proposal) (full_result reply before proposal).
(** [apply_anchored_edits(..., observer=...)] *)
Definition observe_anchored_edits (watched : bool) (reply : json) (before : string) (proposal : json) (model_strict model_split : bool)
    : P (json * list json) :=
  found ← traced watched reply (anchored_assembly model_strict model_split reply before proposal) (anchored_candidate before proposal);
  let '(task, candidate, edits) := found in
  function ← of_res (extracted candidate task);
  mret (function_text function, edits).
End Revision.

(** ** The observer decides nothing *)

Section Observer.
Context {py : Language} {errors : SyntaxErrors}.

Lemma runs_emit watched record t r :
  runs (emit watched record) t r →
  if watched then ∃ a : res unit, t = [ev (observe (JObj record)) a] ∧
                    r = match a with Ok _ => Ok tt | Raise _ => Raise (write_error "revision_diagnostic_write_failed") end
  else t = [] ∧ r = Ok tt.
Proof.
  destruct watched; intros H; [|by apply runs_inv in H]. cbn in H.
  apply (runs_inv (Do _ _)) in H as (a & t' & -> & H). exists a. destruct a as [[]|e]; by apply runs_inv in H as [-> ->].
Qed.

Lemma runs_assoc {A B C} (m : P A) (g : A → P B) (f : B → P C) t x :
  runs (mbind f (mbind g m)) t x → runs (mbind (fun a => mbind f (g a)) m) t x.
Proof.
  revert t. induction m as [a|e|[r] k IH]; intros t Hr; [exact Hr..|].
  apply (runs_inv (Do _ _)) in Hr as (a & t' & -> & Hr). by apply (runs_do _ _ a), IH.
Qed.

(** What the revision comes to without an observer. *)
Definition decided {A} (assembly : res Assembly) (result : Assembly → res A) : res A :=
  match assembly with
  | Raise e => as_blocked (Raise e)
  | Ok a => match guard_notes a.1.2 with Raise e => Raise e | Ok _ => as_blocked (result a) end
  end.
Definition kind_ok (e : exn) : bool :=
  match e, anchor_failure_kind e with
  | Error _ code, Some k => String.eqb code "revision_anchor_invalid" && bool_decide (k ∈ ANCHOR_FAILURE_KINDS)
  | _, _ => true
  end.
Definition stage_of (e : event (answer:=answer)) : json :=
  match e with existT (observe (JObj r)) _ => match lookup_key "stage" r with Some s => s | None => JNull end | _ => JNull end.
Definition raised (e : event (answer:=answer)) : bool := match projT2 e with Ok _ => false | Raise _ => true end.

(** *** What may be in a record *)

Definition STAGES : list string := ["received"; "guard"; "rejected"; "accepted"].
Definition CLOSED_TEXTS : list string :=
  STAGES ++ ["valid"; "invalid"; "size_blocked"; "other"; "structured_rejection"] ++ map snd SYNTAX_KINDS ++ REASONS ++ ANCHOR_FAILURE_KINDS.
Definition is_class (s : string) : Prop := ∃ source tree n, ast_parse source = Ok tree ∧ n ∈ walk tree ∧ s = cls_of n.
Definition plain_value (v : json) : Prop :=
  match v with
  | JNull | JBool _ | JInt _ => True
  | JStr s => s ∈ CLOSED_TEXTS ∨ ∃ text, s = sha256_of text
  | _ => False
  end.
Definition class_text (v : json) : Prop := match v with JStr s => is_class s | _ => False end.
Definition class_entry (v : json) : Prop :=
  match v with JObj [(_, t); (_, JInt _); (_, JInt _)] => class_text t | _ => False end.
(** Integers, truth values, closed words, digests, and names of classes. *)
Definition metadata (m : string * json) : Prop :=
  plain_value m.2 ∨
  match m.2 with JList l => Forall class_text l ∨ Forall class_entry l | _ => False end.
Definition metadata_event (e : event (answer:=answer)) : Prop :=
  match e with existT (observe (JObj r)) _ => Forall metadata r | _ => False end.

Lemma set_key_metadata k v r : metadata (k, v) → Forall metadata r → Forall metadata (set_key k v r).
Proof.
  intros Hv Hr. unfold set_key. destruct (existsb _ r); [|by apply Forall_app; split; [|constructor]].
  induction Hr as [|m r Hm Hr IH]; cbn; constructor; [|exact IH]. by destruct (String.eqb m.1 k).
Qed.
Lemma note_metadata entries r : Forall metadata entries → Forall metadata r → Forall metadata (note entries r).
Proof.
  unfold note. intros He. revert r. induction He as [|[k v] entries Hm _ IH]; intros r Hr; [done|]. cbn.
  by apply IH, set_key_metadata.
Qed.
Lemma plain_metadata k v : plain_value v → metadata (k, v).
Proof. by left. Qed.
Lemma closed_metadata k s : s ∈ CLOSED_TEXTS → metadata (k, JStr s).
Proof. intros H. left. by left. Qed.
Lemma digest_metadata k s : metadata (k, JStr (sha256_of s)).
Proof. left. right. by exists s. Qed.

(** The members of a literal record, one by one. *)
Ltac each_member := repeat (apply Forall_nil_2 || apply Forall_cons_2 || apply Forall_app_2); try (left; exact I).
Lemma closed_member k s : bool_decide (s ∈ CLOSED_TEXTS) = true → metadata (k, JStr s).
Proof. intros H. apply closed_metadata. by apply bool_decide_eq_true in H. Qed.

Lemma received_metadata reply : Forall metadata (received reply).
Proof.
  unfold received. each_member; [by apply closed_member; vm_compute|].
  destruct reply as [| | |s| |]; each_member. destruct (length_of s <=? 16384); each_member. apply digest_metadata.
Qed.
Lemma location_metadata source : Forall metadata (syntax_location source).
Proof.
  unfold syntax_location. destruct (error_lineno source) as [| |line| | |]; each_member.
  destruct (_ && _ && _); [|each_member]. destruct (_ !! _) as [content|]; each_member.
  - apply digest_metadata.
  - destruct (error_offset source) as [| |o| | |]; cbn; each_member. destruct (_ && _); each_member.
  - destruct (1 <? line); [|each_member]. destruct (_ !! _); each_member.
Qed.
Lemma syntax_kind_closed msg : syntax_kind msg ∈ CLOSED_TEXTS.
Proof.
  unfold syntax_kind. assert (bool_decide ("other" ∈ CLOSED_TEXTS) = true) as Ho%bool_decide_eq_true by by vm_compute.
  destruct msg as [| | |m| |]; try exact Ho. destruct (List.find _ SYNTAX_KINDS) as [k|] eqn:E; [|exact Ho].
  apply find_some in E as [E _]. apply list_elem_of_In in E. unfold CLOSED_TEXTS. apply elem_of_app. right. apply elem_of_app. right.
  apply elem_of_app. left. by apply list_elem_of_fmap_2.
Qed.
Lemma tree_metadata source tree : ast_parse source = Ok tree → Forall metadata (tree_notes tree).
Proof.
  intros Hp. unfold tree_notes. set (bad := take 16 _).
  assert (Forall (λ n, is_class (cls_of n)) bad) as Hb.
  { apply Forall_take, Forall_forall. intros n Hn%elem_of_where. destruct Hn as [Hn _]. exists source, tree, n. split; [done|]. split; [|done].
    eapply elem_of_submseteq; [exact Hn|]. apply sublist_submseteq, sublist_take. }
  each_member; [by apply closed_member; vm_compute| |]; right; cbn.
  - right. apply Forall_fmap. by eapply Forall_impl; [exact Hb|].
  - left. apply Forall_fmap, Forall_forall. intros s Hs. unfold sorted_texts in Hs. apply elem_of_sort_by, elem_of_remove_dups, list_elem_of_fmap in Hs as (n & -> & Hn).
    rewrite Forall_forall in Hb. by apply Hb.
Qed.
Lemma guard_metadata source notes : guard_notes source = Ok notes → Forall metadata notes.
Proof.
  unfold guard_notes. set (first := [_; _]).
  assert (Forall metadata first) as H1 by (each_member; by apply closed_member; vm_compute).
  destruct (65536 <? length_of source).
  { intros <-%ok_inj. apply Forall_app_2; [done|]. each_member. by apply closed_member; vm_compute. }
  assert (Forall metadata (first ++ [("assembly_sha256", JStr (sha256_of source))])) as H2.
  { apply Forall_app_2; [done|]. each_member. apply digest_metadata. }
  destruct (ast_parse source) as [tree|e] eqn:Ep.
  { intros <-%ok_inj. apply Forall_app. split; [done|]. by eapply tree_metadata. }
  destruct (syntax_failure e); [|done]. intros <-%ok_inj. rewrite app_assoc. apply Forall_app. split.
  { apply Forall_app_2; [done|]. each_member. by apply closed_member; vm_compute. }
  destruct e; each_member. destruct (String.eqb _ _); [|each_member]. constructor; [|apply location_metadata].
  apply closed_metadata, syntax_kind_closed.
Qed.

(** *** The stage of a record *)

Lemma lookup_set_key_ne {A} j k (v : A) r : j ≠ k → lookup_key j (set_key k v r) = lookup_key j r.
Proof.
  intros Hne. unfold set_key, lookup_key. destruct (existsb _ r).
  - induction r as [|m r IH]; [done|]. cbn. destruct (String.eqb_spec m.1 k) as [E|E]; cbn.
    + destruct (String.eqb_spec m.1 j) as [E'|E']; [congruence|exact IH].
    + destruct (String.eqb m.1 j); [done|exact IH].
  - induction r as [|m r IH]; cbn; [by destruct (String.eqb_spec k j)|]. by destruct (String.eqb m.1 j).
Qed.
Definition no_stage (m : string * json) : Prop := m.1 ≠ "stage".
Lemma note_stage notes r : Forall no_stage notes → lookup_key "stage" (note notes r) = lookup_key "stage" r.
Proof.
  unfold note. intros Hn. revert r. induction Hn as [|[k v] notes Hk _ IH]; intros r; [done|]. cbn [fold_left fst snd].
  rewrite IH. by apply lookup_set_key_ne.
Qed.
Ltac each_name := repeat (apply Forall_nil_2 || apply Forall_cons_2 || apply Forall_app_2); try done.
Lemma location_stage source : Forall no_stage (syntax_location source).
Proof.
  unfold syntax_location. destruct (error_lineno source) as [| |line| | |]; each_name.
  destruct (_ && _ && _); [|each_name]. destruct (_ !! _) as [content|]; each_name.
  - destruct (int_that _ _); each_name.
  - destruct (1 <? line); [|each_name]. destruct (_ !! _); each_name.
Qed.
Lemma guard_stage source notes r : guard_notes source = Ok notes → lookup_key "stage" (note notes r) = Some (JStr "guard").
Proof.
  intros H. assert (∃ rest, notes = ("stage", JStr "guard") :: rest ∧ Forall no_stage rest) as (rest & -> & Hr).
  { unfold guard_notes in H. destruct (65536 <? length_of source); [apply ok_inj in H; subst; eexists; split; [reflexivity|each_name]|].
    destruct (ast_parse source) as [tree|e]; [apply ok_inj in H; subst; eexists; split; [reflexivity|unfold tree_notes; each_name]|].
    destruct (syntax_failure e); [|done]. apply ok_inj in H. subst. eexists. split; [reflexivity|]. each_name.
    destruct e; each_name. destruct (String.eqb _ _); [|each_name]. constructor; [done|]. apply location_stage. }
  change (note (("stage", JStr "guard") :: rest) r) with (note rest (set_key "stage" (JStr "guard") r)).
  by rewrite note_stage, lookup_set_key.
Qed.
Lemma rejected_stage record reason kind : lookup_key "stage" (rejected_notes record reason kind) = Some (JStr "rejected").
Proof.
  unfold rejected_notes. set (kinds := match kind with Some k => _ | None => _ end).
  set (first := kinds ++ _). unfold note, first. rewrite fold_left_app. cbn [fold_left fst snd].
  rewrite lookup_set_key_ne, lookup_set_key; done.
Qed.

Lemma lookup_metadata k j v r : Forall metadata r → lookup_key k r = Some v → metadata (j, v).
Proof.
  unfold lookup_key. intros Hr H. destruct (List.find _ r) as [m|] eqn:E; [|done]. injection H as <-.
  apply find_some in E as [E _]. rewrite Forall_forall in Hr. exact (Hr m (proj2 (list_elem_of_In _ _) E)).
Qed.
Lemma rejected_metadata record e code :
  Forall metadata record → kind_ok (Error e code) = true → Forall metadata (rejected_notes record code (anchor_failure_kind (Error e code))).
Proof.
  intros Hr Hk. unfold rejected_notes. apply note_metadata; [|done]. unfold kind_ok in Hk. each_member.
  - destruct (anchor_failure_kind _) as [k|]; each_member. apply andb_prop in Hk as [_ Hk%bool_decide_eq_true]. apply closed_metadata.
    unfold CLOSED_TEXTS. rewrite !elem_of_app. auto.
  - destruct (lookup_key "stage" record) as [s|] eqn:E; [by eapply lookup_metadata|by left].
  - by apply closed_member; vm_compute.
  - case_bool_decide; [|by apply closed_member; vm_compute]. apply closed_metadata. unfold CLOSED_TEXTS. rewrite !elem_of_app. auto.
Qed.

(** *** The run *)

(** The stages that the observer is told of. *)
Definition stages_after {A} (r : res A) : list string :=
  match r with
  | Ok _ => ["accepted"]
  | Raise e => match e with Error _ _ => if is_rejected e || is_blocked e then ["rejected"] else [] | _ => [] end
  end.
Definition stages_of {A} (assembly : res Assembly) (result : Assembly → res A) : list string :=
  "received" ::
  match assembly with
  | Raise e => stages_after (Raise (A:=A) e)
  | Ok a => match guard_notes a.1.2 with Raise _ => [] | Ok _ => "guard" :: stages_after (result a) end
  end.
(** What a trace and an outcome say, against the outcome without an observer. *)
Definition told {A} (watched : bool) (stages : list string) (expected : res A) (failing : exn → Prop)
    (t : list (event (answer:=answer))) (x : res A) : Prop :=
  Forall metadata_event t ∧
  ((existsb raised t = false ∧ x = expected ∧ map stage_of t = if watched then map JStr stages else []) ∨
   (existsb raised t = true ∧ x = Raise (write_error "revision_diagnostic_write_failed")) ∨
   (∃ e, failing e ∧ kind_ok e = false ∧ x = Raise (write_error "revision_diagnostic_kind_invalid"))).

(** One emission, then the rest. *)
Lemma told_emit {A} watched record s stages (expected : res A) failing (m : P A) t x :
  Forall metadata record → lookup_key "stage" record = Some (JStr s) →
  runs (emit watched record ;; m) t x →
  (∀ t' x', runs m t' x' → told watched stages expected failing t' x') →
  told watched (s :: stages) expected failing t x.
Proof.
  intros Hm Hs Hr Hk. apply runs_bind in Hr as [(e & H & ->)|([] & t1 & t2 & H1 & H2 & ->)].
  - apply runs_emit in H. destruct watched; [|by destruct H]. destruct H as ([[]|a] & -> & [= ->]).
    split; [by repeat constructor|]. right. left. done.
  - destruct (Hk _ _ H2) as (Hf & Hcase). apply runs_emit in H1. destruct watched; last first.
    { destruct H1 as [-> _]. split; [done|]. destruct Hcase as [(? & ? & ?)|Hcase]; [by left|by right]. }
    destruct H1 as ([[]|a] & -> & [=]). split; [by repeat constructor|]. cbn [app existsb raised projT2 orb].
    destruct Hcase as [(H3 & H4 & H5)|Hcase]; [|by right]. left. split; [done|]. split; [done|].
    cbn [map]. rewrite H5. f_equal. unfold stage_of, ev. by rewrite Hs.
Qed.
Lemma told_end {A} watched (x : res A) failing t y : runs (of_res x) t y → told watched [] x failing t y.
Proof. intros [-> ->]%runs_of_res. split; [constructor|]. left. by destruct watched. Qed.
Lemma told_rejection {A} watched record e (failing : exn → Prop) t (x : res A) :
  Forall metadata record → failing e → runs (on_rejection watched record e) t x →
  told watched (stages_after (Raise (A:=A) e)) (as_blocked (Raise e)) failing t x.
Proof.
  intros Hm Hf Hr. destruct e as [| | | | | | | |c code]; try by apply (told_end (A:=A) watched (Raise _)).
  set (e := Error c code) in *. unfold on_rejection in Hr. subst e. cbv iota beta in Hr. unfold stages_after, as_blocked.
  set (e := Error c code) in *. destruct (is_rejected e) eqn:Er; cbn [orb].
  - destruct (kind_ok e) eqn:Ek.
    + eapply (told_emit watched (rejected_notes record code (anchor_failure_kind e)) "rejected" []);
        [by apply rejected_metadata|by apply rejected_stage| |intros t' x' H; by apply (told_end (A:=A) watched (Raise _))].
      unfold trace_rejected in Hr. unfold kind_ok, e in Ek. fold e in Ek. destruct (anchor_failure_kind e) as [k|]; [|exact Hr].
      apply andb_prop in Ek as [E1 E2]. rewrite E1, E2 in Hr. exact Hr.
    + unfold trace_rejected in Hr. unfold kind_ok, e in Ek. fold e in Ek. destruct (anchor_failure_kind e) as [k|] eqn:Ea; [|done].
      rewrite <- negb_andb, Ek in Hr. cbn in Hr. apply (runs_inv (Throw _)) in Hr as [-> ->].
      split; [constructor|]. right. right. exists e. split; [done|]. split; [|done]. unfold kind_ok, e. fold e. by rewrite Ea.
  - destruct (is_blocked e) eqn:Eb; [|by apply (told_end (A:=A) watched (Raise e))].
    assert (anchor_failure_kind e = None) as Ea.
    { unfold anchor_failure_kind, e. unfold is_blocked, e in Eb. apply String.eqb_eq in Eb. by rewrite Eb. }
    eapply (told_emit watched (rejected_notes record code None) "rejected" []);
      [|by apply rejected_stage|exact Hr|intros t' x' H; by apply (told_end (A:=A) watched (Raise _))].
    rewrite <- Ea. apply rejected_metadata; [done|]. unfold kind_ok, e. fold e. by rewrite Ea.
Qed.

End Observer.

(** A rejected candidate, its feedback and a reply with a whole function. *)
#[local] Existing Instance IssueScenario.issue_language.
#[local] Instance scenario_errors : SyntaxErrors := {|
  error_msg s := JStr "invalid syntax"; error_lineno s := JInt 1; error_offset s := JInt 1 |}.
Definition revised_proposal : json :=
  match IssueDraft.trusted_task IssueScenario.issue_binding (IssueScenario.p_source 1) with
  | Ok task =>
      match (t ← task_spec task; semantic_feedback task t (IssueScenario.p_source 1) IssueScenario.failing_42) with
      | Ok feedback => with_feedback task feedback
      | Raise _ => JNull
      end
  | Raise _ => JNull
  end.
Definition revised_reply : json := JStr (json_dumps_text IssueScenario.p_reply).
Definition revision_world (o : op) (u : unit) : res (answer o) * unit := (Ok tt, u).
Definition revision_run (reply : json) :=
  Prog.execute revision_world (apply_full_function_revision true reply (IssueScenario.p_source 1) revised_proposal) tt.
Example revision_run_accepts :
  (revision_run revised_reply).2.1 = Ok revised_reply ∧
  map stage_of (revision_run revised_reply).1 = map JStr ["received"; "guard"; "accepted"] ∧
  (revision_run JNull).2.1 = Raise (blocked "revision_size") ∧
  map stage_of (revision_run JNull).1 = map JStr ["received"; "rejected"].
Proof. vm_compute. repeat split; reflexivity. Qed.

(** ** The edits are one simultaneous replacement *)

(** The text from a position on, with the spans replaced in one pass. *)
Fixpoint patched (pos : nat) (spans : list Span.t) (l : list ascii) : list ascii :=
  match spans with
  | [] => drop pos l
  | s :: spans' => take (Span.start s - pos) (drop pos l) ++ chars (Span.new s) ++ patched (Span.end_ s) spans' l
  end.
(** Spans of a text, in order from a position on. *)
Fixpoint in_order (pos : nat) (spans : list Span.t) (size : nat) : Prop :=
  match spans with
  | [] => (pos <= size)%nat
  | s :: spans' => (pos <= Span.start s)%nat ∧ (Span.start s <= Span.end_ s)%nat ∧ in_order (Span.end_ s) spans' size
  end.
Lemma in_order_le pos spans size : in_order pos spans size → (pos <= size)%nat.
Proof. revert pos. induction spans as [|s spans IH]; cbn; intros pos H; [done|]. destruct H as (H1 & H2 & H3%IH). lia. Qed.
Lemma splice_chars source s :
  chars (splice source s) = take (Span.start s) (chars source) ++ chars (Span.new s) ++ drop (Span.end_ s) (chars source).
Proof. unfold splice, take_str. by rewrite !concat_text_cons, !chars_app, !chars_str, app_nil_r. Qed.
Lemma splice_all_patched source spans pos :
  in_order pos spans (len source) → chars (splice_all source spans) = take pos (chars source) ++ patched pos spans (chars source).
Proof.
  unfold splice_all. revert pos. induction spans as [|s spans IH]; intros pos H; [cbn; by rewrite take_drop|].
  destruct H as (H1 & H2 & H3). cbn [rev]. rewrite fold_left_app. cbn [fold_left]. rewrite splice_chars, (IH _ H3).
  apply in_order_le in H3. rewrite len_chars in H3. cbn [patched].
  assert (length (take (Span.end_ s) (chars source)) = Span.end_ s) as Hl by (rewrite length_take; lia).
  rewrite take_app_le, take_take, drop_app_length' by lia.
  rewrite Nat.min_l by lia. rewrite (app_assoc (take pos _)). f_equal.
  rewrite <- (take_drop pos (take (Span.start s) (chars source))), take_take, Nat.min_l by lia. f_equal.
  by rewrite skipn_firstn_comm.
Qed.

(** Sorted spans that are apart, each nonempty and inside the text. *)
Lemma index_text_bound p s i : index_text p s = Some i → (i + len p <= len s)%nat.
Proof.
  assert (∀ p s, starts_with p s = true → (len p <= len s)%nat) as Hp.
  { clear. induction p as [|c p IH]; intros [|d s]; cbn; try done; try lia. intros [_ H]%andb_prop. apply IH in H. unfold len in *. lia. }
  revert i. induction s as [|c s IH]; intros i; cbn [index_text].
  - destruct (starts_with p "") eqn:E; [|done]. intros [= <-]. by apply Hp in E.
  - destruct (starts_with p (String c s)) eqn:E; [intros [= <-]; by apply Hp in E|].
    destruct (index_text p s) as [j|]; [|done]. intros [= <-]. specialize (IH _ eq_refl). unfold len in *. cbn. lia.
Qed.
Definition good_span (source : string) (s : Span.t) : Prop :=
  (Span.start s < Span.end_ s <= len source)%nat ∧ ∃ header, index_text newline source = Some header ∧ (header < Span.start s)%nat.
Lemma edit_span_good source edit s : edit_span source edit = Ok s → good_span source s.
Proof.
  unfold edit_span. intros H. apply res_bind_ok in H as (? & Hn%StructuredProps.need_ok & H).
  destruct (value_of "old" edit) as [[| | |old| |]|] eqn:Eo; try done. destruct (value_of "new" edit) as [[| | |new| |]|]; try done.
  apply res_bind_ok in H as (? & _ & H). apply res_bind_ok in H as (? & _ & H).
  destruct (index_text old source) as [i|] eqn:Ei; [|done]. destruct (index_text newline source) as [h|] eqn:Eh; [|done].
  apply res_bind_ok in H as (? & Hh%StructuredProps.need_ok%Nat.leb_le & [= <-]). split; [|exists h; split; [done|cbn; lia]].
  cbn [Span.start Span.end_]. split; [|by apply index_text_bound]. rewrite !andb_true_iff in Hn. destruct Hn as [[_ Hn] _].
  unfold member_that in Hn. rewrite Eo in Hn. apply andb_prop in Hn as [Hn%Z.leb_le _]. unfold length_of in Hn. lia.
Qed.
Lemma edit_spans_good source edits spans : edit_spans source edits = Ok spans → Forall (good_span source) spans.
Proof.
  revert spans. induction edits as [|e edits IH]; intros spans; cbn; [intros [= <-]; constructor|].
  intros H. apply res_bind_ok in H as (s & Hs & H). apply res_bind_ok in H as (rest & Hr & [= <-]).
  constructor; [by eapply edit_span_good|by apply IH].
Qed.
Lemma apart_in_order source spans pos :
  Forall (good_span source) spans → apart spans = true → (pos <= len source)%nat →
  (∀ s, head spans = Some s → (pos <= Span.start s)%nat) → in_order pos spans (len source).
Proof.
  intros Hg. revert pos. induction Hg as [|s spans [Hs _] Hg IH]; intros pos Ha Hp Hh; [done|]. cbn.
  split; [by apply Hh|]. split; [lia|]. apply IH; [|lia|].
  - destruct spans; [done|]. by apply andb_prop in Ha as [_ Ha].
  - intros u Hu. destruct spans as [|u' spans]; [done|]. injection Hu as ->. cbn in Ha. apply andb_prop in Ha as [Ha _]. by apply Nat.leb_le.
Qed.

(** The function that the exact edits assemble is the text of the
    candidate with each edited passage replaced, all at once: applying the
    replacements one by one from the last is the one pass over the text that
    copies what lies between them; and its header line is kept. *)
Theorem edits_are_simultaneous {py : Language} (reply : json) (before : string) (proposal : json) (task : Task.t)
    (digest assembled : string) (edits : list json)
    (Hok : local_assembly reply before proposal = Ok (task, digest, assembled, edits)) :
  ∃ source spans header, extracted before task = Ok source ∧ edit_spans source edits = Ok spans ∧
    index_text newline source = Some header ∧
    assembled = str (patched 0 (sort_by Span.leb spans) (chars source)) ∧
    take_str (S header) assembled = take_str (S header) source.
Proof.
  unfold local_assembly in Hok. apply res_bind_ok in Hok as ([task' digest'] & _ & Hok). apply res_bind_ok in Hok as (value & _ & Hok).
  apply res_bind_ok in Hok as (edits' & He & Hok). apply res_bind_ok in Hok as (source & Hsrc & Hok).
  apply res_bind_ok in Hok as (spans & Hspans & Hok). apply res_bind_ok in Hok as (u & Hap & Hok). cbn in Hsrc.
  injection Hok as <- <- <- <-. destruct (apart (sort_by Span.leb spans)) eqn:Ea; [|done].
  assert (Forall (good_span source) (sort_by Span.leb spans)) as Hg.
  { apply edit_spans_good in Hspans. rewrite Forall_forall in Hspans |- *. intros s Hs%elem_of_sort_by. by apply Hspans. }
  assert (edits' ≠ []) as Hne.
  { destruct (value_of "edits" value) as [[| | | |l|]|]; try done. apply res_bind_ok in He as (? & Hb & [= <-]). intros ->.
    cbn in Hb. by rewrite andb_false_r in Hb. }
  assert (∃ s, s ∈ spans) as (s & Hs).
  { destruct edits' as [|e edits']; [done|]. cbn in Hspans. apply res_bind_ok in Hspans as (s & _ & H). apply res_bind_ok in H as (r & _ & [= <-]). exists s. left. }
  rewrite Forall_forall in Hg. destruct (Hg s ltac:(by apply elem_of_sort_by)) as (_ & header & Hh & _).
  exists source, spans, header. split; [done|]. split; [done|]. split; [done|].
  assert (∀ pos, (pos <= S header)%nat → chars (splice_all source (sort_by Span.leb spans)) =
    take pos (chars source) ++ patched pos (sort_by Span.leb spans) (chars source)) as Hall.
  { intros pos Hp. apply splice_all_patched, apart_in_order; [by apply Forall_forall|done| |].
    - apply index_text_bound in Hh. change (len newline) with 1%nat in Hh. lia.
    - intros u' Hu. destruct (Hg u') as (_ & h & Hh' & Hlt); [|rewrite Hh in Hh'; injection Hh' as <-; lia].
      destruct (sort_by Span.leb spans); [done|]. injection Hu as ->. left. }
  split; [rewrite <- (str_chars (splice_all _ _)), (Hall 0%nat) by lia; done|].
  unfold take_str. rewrite (Hall (S header)) by lia. rewrite take_app_length'; [done|]. apply index_text_bound in Hh.
  change (len newline) with 1%nat in Hh. rewrite length_take, <- len_chars. lia.
Qed.

(** One edit of the rejected candidate. *)
Definition edit_reply : json := JObj [("edits", JList [JObj [("old", JStr "return 1"); ("new", JStr "return 2")]])].
Definition edit_language : Language := {|
  ast_parse := ast_parse (Language:=IssueScenario.issue_language); ast_parse_eval := ast_parse_eval;
  ast_unparse := ast_unparse; ast_dump := ast_dump; repr_text := repr_text;
  json_loads s := if String.eqb s (json_dumps edit_reply) then Ok edit_reply else json_loads s; utf8_decode := utf8_decode |}.
Definition edit_assembly : res Assembly :=
  local_assembly (py:=edit_language) (JStr (json_dumps edit_reply)) (IssueScenario.p_source 1) revised_proposal.
Example edit_assembles :
  match edit_assembly with Ok (_, _, assembled, edits) => (assembled, length edits) | Raise _ => ("", 0%nat) end =
  (IssueScenario.p_source 2, 1%nat).
Proof. vm_compute. reflexivity. Qed.
Lemma edits_are_simultaneous_witness :
  ∃ task digest edits,
    edit_assembly = Ok (task, digest, IssueScenario.p_source 2, edits) ∧
    ∃ source spans header, extracted (py:=edit_language) (IssueScenario.p_source 1) task = Ok source ∧
      edit_spans source edits = Ok spans ∧ index_text newline source = Some header ∧
      IssueScenario.p_source 2 = str (patched 0 (sort_by Span.leb spans) (chars source)) ∧
      take_str (S header) (IssueScenario.p_source 2) = take_str (S header) source.
Proof.
  destruct edit_assembly as [[[[task digest] assembled] edits]|e] eqn:E; [|exfalso; vm_compute in E; discriminate E].
  assert (assembled = IssueScenario.p_source 2) as ->.
  { pose proof edit_assembles as H. rewrite E in H. congruence. }
  exists task, digest, edits. split; [reflexivity|].
  exact (edits_are_simultaneous (py:=edit_language) (JStr (json_dumps edit_reply)) (IssueScenario.p_source 1) revised_proposal
    task digest (IssueScenario.p_source 2) edits E).
Defined.
