(* ===== verification/IssueProps.v ===== *)
(** Properties of the issue pipeline: what precedes a draft pull request and
    what precedes the one fenced task that the admission of an issue enqueues,
    whatever GitHub, the pool, the callbacks and the validator's process
    answer. *)
From Stdlib Require Import Ascii String.
From stdpp Require Import strings list.
From S2P Require Import Prelude Prog PyStr Sha256 Clock Json PyVal PyText PyAst IsoDate Names Structured StructuredProps.
From S2P Require Import Repair RepairProps IssueDraft IssuePool IssueSpec IssueScenario.

Local Open Scope string_scope.
Local Open Scope Z_scope.

(** ** Publication *)

(** C24: whatever the pool, the artifact store, the callbacks and GitHub
    answer, the publication of a completed issue writes to GitHub at most one
    branch, one file and one pull request: the branch of the binding, at the
    authorised base, only when it was absent; the source that the artifact
    store returned for the checkpoint of a completed fenced task with distinct
    builder and validator, over the base source; and a pull request with the
    binding's text, only when there was none.  Each write comes after the
    owner's authorisation of that base was read from GitHub, the independent
    checkout confirmed the source, the child process failed the base and
    passed all cases of the source, and the regression checker proved it; the
    pull request also after the branch was read back with that source and
    nothing else changed.  It returns only when the open draft was read back. *)
Theorem publication_is_guarded {py : Language} (binding : IssueBinding.t) (task_id : string) (audit : json)
    (now : datetime) (t : list (event (answer:=IssueDraft.answer))) (x : res json)
    (Hruns : runs (publish_completed_fenced_issue binding task_id audit now) t x) :
  accepts (allowed binding audit now (isoformat_utc now) true) (next binding task_id) (start_with None) t = true ∧
  ∀ v, x = Ok v → ∃ g, published binding audit now (isoformat_utc now) true g ∧
    pr (reached (next binding task_id) (start_with None) t) = pr g.
Proof.
  assert (Prog.safe (allowed binding audit now (isoformat_utc now) true) (next binding task_id)
    (publish_completed_fenced_issue binding task_id audit now) (start_with None)
    (fun r g' => ∀ v, r = Ok v → ∃ g, published binding audit now (isoformat_utc now) true g ∧ pr g' = pr g)) as Hsafe.
  { apply safe_publish_completed; [done..|]. intros v g' g'' Hp E w _. by exists g'. }
  exact (safe_runs _ _ _ _ _ _ _ Hsafe Hruns).
Qed.
Lemma publication_is_guarded_witness :
  length issue_run.1 = 24%nat ∧
  accepts (allowed issue_binding issue_audit issue_now (isoformat_utc issue_now) true) (next issue_binding issue_task)
    (start_with None) issue_run.1 = true ∧
  ∀ v, issue_run.2.1 = Ok v → ∃ g, published issue_binding issue_audit issue_now (isoformat_utc issue_now) true g ∧
    pr (reached (next issue_binding issue_task) (start_with None) issue_run.1) = pr g.
Proof.
  split; [vm_compute; reflexivity|].
  apply (publication_is_guarded issue_binding issue_task issue_audit issue_now).
  exact (execute_runs hub_world _ (mkHub None None)).
Defined.

(** ** Admission *)

(** The answers of GitHub, the last one first, and what else was read. *)
Record Gate := mkGate {
  mains : list json; issues : list json; comments : list json; base_source : option (string * json);
  child : option (string * Report.t); lanes_read : option json; asked : bool; taken : option json }.
#[export] Instance Gate_eta : Eta Gate := fun g =>
  mkGate (mains g) (issues g) (comments g) (base_source g) (child g) (lanes_read g) (asked g) (taken g).
Definition at_gate : Gate := mkGate [] [] [] None None None false None.

Section Admission.
Context {py : Language} (issue_number comment_id : Z) (environment : string) (clock : datetime).

(** The binding that three answers of GitHub authorise. *)
Definition binding_of (m i c : json) : option IssueBinding.t :=
  match commit_sha m with
  | JStr sha => match admit_issue i c m sha (isoformat_utc clock) clock with Ok b => Some b | Raise _ => None end
  | _ => None
  end.
Definition task_of (b : IssueBinding.t) (before : string) : option (json * Task.t) :=
  match trusted_task b before with
  | Ok task => match task_spec task with Ok t => Some (task, t) | Raise _ => None end
  | Raise _ => None
  end.
(** The child process ran the 42 cases on the source and failed some. *)
Definition baseline_fails (g : Gate) (b : IssueBinding.t) : bool :=
  match base_source g, child g with
  | Some (before, _), Some (p, r) =>
      match task_of b before, utf8_decode before with
      | Some (task, t), Ok text =>
          bool_decide (payload_of task t text = Some p) && (Report.total r =? 42) && (Report.passed r <? 42)
      | _, _ => false
      end
  | _, _ => false
  end.
Definition admissible (g : Gate) : option IssueBinding.t :=
  match mains g, issues g, comments g, lanes_read g with
  | [m2; m1], [i2; i1], [c2; c1], Some lanes =>
      match binding_of m1 i1 c1, dicts lanes 128 with
      | Some b, Some lanes =>
          if bool_decide (binding_of m2 i2 c2 = Some b) && baseline_fails g b && lane_ready lanes then Some b else None
      | _, _ => None
      end
  | _, _, _, _ => None
  end.

Definition gate_allows (g : Gate) (o : op) : bool :=
  match o with
  | enqueue_fenced_issue payload =>
      String.eqb environment "dev" && negb (asked g) &&
      match admissible g with Some b => bool_decide (payload = task_payload b) | None => false end
  | get_branch n => String.eqb n "main"
  | get_issue n => n =? issue_number
  | get_comment c => c =? comment_id
  | get_source _ | worker (run_child _) | list_repositories => true
  | _ => false
  end.
(** What the child process reported, for the task of the first binding. *)
Definition seen_report (g : Gate) (out : res (Z * string)) : option Report.t :=
  match mains g, issues g, comments g, base_source g, out with
  | [m], [i], [c], Some (before, _), Ok out =>
      b ← binding_of m i c; tt' ← task_of b before; reported tt'.2 out
  | _, _, _, _, _ => None
  end.
Definition push (r : res json) (l : list json) : list json := match r with Ok v => v :: l | Raise _ => l end.
Definition gate_next (g : Gate) (o : op) : res (answer o) → Gate :=
  match o with
  | get_branch _ => fun r => g <| mains := push r (mains g) |>
  | get_issue _ => fun r => g <| issues := push r (issues g) |>
  | get_comment _ => fun r => g <| comments := push r (comments g) |>
  | get_source _ => fun r => g <| base_source := ok_value r |>
  | worker (run_child p) => fun r => g <| child := r ← seen_report g r; Some (p, r) |>
  | list_repositories => fun r => g <| lanes_read := ok_value r |>
  | enqueue_fenced_issue _ => fun r => g <| asked := true |> <| taken := ok_value r |>
  | _ => fun _ => g
  end.
Abbreviation safe := (Prog.safe gate_allows gate_next).

Lemma safe_gate (o : op) g (Q : res (answer o) → Gate → Prop) :
  gate_allows g o = true → (∀ r, Q r (gate_next g o r)) → safe (call o) g Q.
Proof. apply (Prog.safe_call (answer:=answer)). Qed.
Lemma safe_gate_demand c reason g (Q : res unit → Gate → Prop) :
  (c = true → Q (Ok tt) g) → (∀ e, Q (Raise e) g) → safe (demand c reason) g Q.
Proof. intros H1 H2. apply safe_of_res. destruct c; [by apply H1|apply H2]. Qed.
Lemma safe_gate_worker {A} (m : prog Repair.answer A) g (Q : res A → Gate → Prop) :
  Prog.safe (fun g o => gate_allows g (worker o)) (fun g o r => gate_next g (worker o) r) m g Q → safe (by_worker m) g Q.
Proof.
  revert g. induction m as [a|e|o k IH]; intros g; cbn; [done..|]. intros [Ha Hk]. split; [done|]. intros r. apply IH, Hk.
Qed.

(** A reading of the binding, whatever was read before. *)
Lemma safe_read_binding g (Q : res IssueBinding.t → Gate → Prop) :
  (∀ e g', Q (Raise e) g') →
  (∀ m i c b, binding_of m i c = Some b →
     Q (Ok b) (g <| mains := m :: mains g |> <| issues := i :: issues g |> <| comments := c :: comments g |>)) →
  safe (read_binding issue_number comment_id clock) g Q.
Proof.
  intros HE HQ. unfold read_binding. apply safe_bind, (safe_gate (get_branch "main")); [done|]. intros [m|e]; [|apply HE].
  apply safe_bind, safe_gate_demand; [intros _|intros e; apply HE]. apply safe_bind. destruct (commit_sha m) as [| | |sha| |] eqn:Em; try apply HE.
  apply safe_ret, safe_bind, (safe_gate (get_issue issue_number)); [apply Z.eqb_refl|]. intros [i|e]; [|apply HE].
  apply safe_bind, (safe_gate (get_comment comment_id)); [apply Z.eqb_refl|]. intros [c|e]; [|apply HE].
  apply safe_of_res. destruct (admit_issue i c m sha _ clock) as [b|e] eqn:Ea; [|apply HE].
  refine (HQ m i c b _). unfold binding_of. by rewrite Em, Ea.
Qed.

(** What was read when an admission returns [v]. *)
Definition enqueued (g : Gate) (v : json) : Prop :=
  ∃ b admitted, asked g = true ∧ admissible g = Some b ∧ taken g = Some admitted ∧
    admitted_shape admitted = true ∧ admitted_matches b admitted = true ∧
    member "task_id" v = member "task_id" admitted ∧ member "request_id" v = JStr (IssueBinding.request_id b).

Lemma safe_admission :
  safe (admit_to_existing_pool issue_number comment_id environment clock) at_gate
    (fun r g => ∀ v, r = Ok v → enqueued g v).
Proof.
  unfold admit_to_existing_pool. apply safe_bind, safe_gate_demand; [intros Henv|done].
  apply safe_bind, safe_gate_demand; [intros _|done].
  apply safe_bind, safe_read_binding; [done|]. intros m i c b Hb.
  apply safe_bind, (safe_gate (get_source _)); [done|]. intros [[before blob]|e]; [|done]. cbn [fst].
  apply safe_bind, safe_of_res. destruct (trusted_task b before) as [task|] eqn:Et; [|done].
  apply safe_bind, safe_of_res. destruct (utf8_decode before) as [text|e] eqn:Eu; [|cbn [unicode_or]; intros v; by destruct (value_failure e)].
  cbn [unicode_or]. apply safe_bind, safe_gate_worker.
  destruct (task_spec task) as [t|e] eqn:Es; last first.
  { unfold validate. rewrite Es. done. }
  apply (validate_spec task t); [done|done|done|]. intros report p out Hp Hr.
  set (g := gate_next _ _ _).
  assert (g = mkGate [m] [i] [c] (Some (before, blob)) (Some (p, report)) None false None) as E.
  { unfold g, gate_next, seen_report. cbn. rewrite Hb. cbn. unfold task_of. rewrite Et, Es. cbn. by rewrite Hr. }
  clearbody g. subst g.
  apply safe_bind, safe_gate_demand; [intros [Htotal Hpassed]%andb_prop|done].
  apply safe_bind, (safe_gate list_repositories); [done|]. intros [raw|e]; [|done].
  apply safe_bind. destruct (dicts raw 128) as [lanes|] eqn:El; [|by apply safe_throw]. apply safe_ret.
  apply safe_bind, safe_gate_demand; [intros Hlane|done].
  apply safe_bind, safe_read_binding; [done|]. intros m2 i2 c2 b2 Hb2.
  apply safe_bind, safe_gate_demand; [intros ->%bool_decide_eq_true|done].
  set (g := mkGate [m2; m] [i2; i] [c2; c] (Some (before, blob)) (Some (p, report)) (Some raw) false None).
  match goal with |- Prog.safe _ _ _ ?g' _ => change g' with g end.
  assert (∀ a k, admissible (g <| asked := a |> <| taken := k |>) = Some b) as Hadm.
  { intros a k. unfold admissible, g. cbn -[bool_decide lane_ready dicts]. rewrite Hb, El, Hb2.
    unfold baseline_fails. cbn -[bool_decide lane_ready dicts]. unfold task_of. rewrite Et, Es, Eu, Hp.
    by rewrite !bool_decide_eq_true_2, Htotal, Hpassed, Hlane. }
  apply safe_bind, (safe_gate (enqueue_fenced_issue _)).
  { cbn [gate_allows]. rewrite Henv. change (asked g) with false.
    change (admissible g) with (admissible (g <| asked := false |> <| taken := None |>)). rewrite Hadm.
    by apply bool_decide_eq_true_2. }
  intros [admitted|e]; [|done].
  apply safe_bind, safe_gate_demand; [intros Hshape|done]. apply safe_bind, safe_gate_demand; [intros Hmatch|done].
  apply safe_ret. intros ? [= <-]. exists b, admitted. split_and!; try done. apply Hadm.
Qed.
End Admission.

(** Whatever GitHub, the pool and the validator's process answer, the
    admission of an issue enqueues at most one task, only in the environment
    [dev], and only the fenced task of a binding that the owner authorised on
    the head of the main branch; the authorisation was read twice with the
    same result, before and after the child process failed some of the 42
    cases on the source at that head and the lane of the repository was seen
    enabled and of one task at a time.  It writes nothing to GitHub, and
    returns only when the pool answered with that task. *)
Theorem admission_is_guarded {py : Language} (issue_number comment_id : Z) (environment : string) (clock : datetime)
    (t : list (Prog.event (answer:=IssueDraft.answer))) (x : res json)
    (Hruns : runs (admit_to_existing_pool issue_number comment_id environment clock) t x) :
  accepts (gate_allows issue_number comment_id environment clock) (gate_next clock) at_gate t = true ∧
  ∀ v, x = Ok v → enqueued clock (reached (gate_next clock) at_gate t) v.
Proof.
  exact (safe_runs _ _ _ _ _ t x (safe_admission issue_number comment_id environment clock) Hruns).
Qed.

(** A lane and a pool that takes the task. *)
Definition ready_lane : json := JObj [("repository", JStr REPO); ("enabled", JBool true); ("max_in_flight", JInt 1)].
Definition taken_task (payload : json) : json :=
  JObj [("task_id", JStr issue_task); ("created", JBool true);
        ("task", JObj (("task_id", JStr issue_task) :: ("branch", member "target_branch" payload) ::
                       map (fun k => (k, member k payload)) (["fencing_required"; "max_attempts"] ++ SHARED_KEYS)))].
Definition gate_world (o : op) (h : Hub) : res (answer o) * Hub :=
  match o return res (answer o) * Hub with
  | list_repositories => (Ok (JList [ready_lane]), h)
  | enqueue_fenced_issue payload => (Ok (taken_task payload), h)
  | o => hub_world o h
  end.
Definition admit_run := Prog.execute gate_world (admit_to_existing_pool 7 99 "dev" issue_now) (mkHub None None).
Lemma admission_is_guarded_witness :
  length admit_run.1 = 10%nat ∧
  accepts (gate_allows 7 99 "dev" issue_now) (gate_next issue_now) at_gate admit_run.1 = true ∧
  ∃ v, admit_run.2.1 = Ok v ∧ enqueued issue_now (reached (gate_next issue_now) at_gate admit_run.1) v.
Proof.
  split; [vm_compute; reflexivity|].
  destruct (admission_is_guarded 7 99 "dev" issue_now admit_run.1 admit_run.2.1) as [Ha Hv].
  { exact (execute_runs gate_world _ (mkHub None None)). }
  split; [exact Ha|]. destruct admit_run.2.1 as [v|e] eqn:E; [exists v; split; [reflexivity|by apply Hv]|].
  exfalso. assert (match admit_run.2.1 with Ok _ => true | Raise _ => false end = true) as H by (vm_compute; reflexivity).
  rewrite E in H. discriminate H.
Defined.
