(* ===== verification/PoolClient.v ===== *)
(** The HTTP client of the Worker Pool, [app/native_pool_http.py]: the class
    [LocalWorkerApi] as a program over the token's file, the clock and one
    request at a time, whose answers are arbitrary.

    A response is what the code reads of it: the URL it came from, whether it
    was redirected, its status, its size, its content type and its JSON value,
    if it has one.  [HTTPError] stands for the errors of the HTTP library. *)
From Stdlib Require Import Ascii String QArith.
From stdpp Require Import strings list.
From S2P Require Import Prelude Prog PyStr Sha256 Clock Json PyVal PyText PyAst IsoDate Names Structured IssueDraft Manifest.

Local Open Scope string_scope.
Local Open Scope Z_scope.

Definition TOKEN_CHAR : ascii → bool := in_range 33 126.
Definition TOKEN_RE : re := Rep 16 (Some 4096%nat) (Chr TOKEN_CHAR).
Definition MAX_RESPONSE_BYTES : Z := 65536.
Definition HTTP_TASK_STATES : list string :=
  ["queued"; "leased"; "running"; "validating"; "blocked"; "completed"; "failed"].

(** ** Calls *)

Record Reply := mkReply {
  reply_url : string; redirected : bool; reply_status : Z; reply_size : Z; content_type : string;
  content : option json }.
Inductive op : Type :=
  | read_token
  | send (method url token : string) (payload : option json)
  | utc_now.
Definition answer (o : op) : Type :=
  match o with read_token => string | send _ _ _ _ => Reply | utc_now => Z end.
Abbreviation P := (prog answer).
(** [_need] *)
Definition insist (c : bool) (reason : string) : P unit := of_res (Manifest.need c reason).

Module Client.
Record t := mk { timeout_seconds : Q; base_url : string }.
End Client.
Definition make_client (port : Z) (timeout : Q) : res Client.t :=
  Manifest.need (Qle_bool 1 timeout && Qle_bool timeout 120) "worker_timeout_invalid" ;;
  Manifest.need ((1 <=? port) && (port <=? 65535)) "worker_port_invalid" ;;
  Ok (Client.mk timeout (String.append "http://127.0.0.1:" (int_text port))).

(** ** Arguments *)

(** The arguments of [record_checkpoint]. *)
Module Mark.
Record t := mk {
  task_id : string; worker_id : string; lease_token : string; lease_generation : Z; attempt_id : string;
  checkpoint_id : string; sequence : Z; stage : string; next_action : string; correlation_id : string;
  artifact_kind : option string; artifact_ref : option string; artifact_sha256 : option string;
  effect_id : option string; effect_state : string; effect_result_ref : option string }.
End Mark.
Module Hold.
Record t := mk {
  task_id : string; worker_id : string; lease_token : string; correlation_id : string;
  lease_generation : option Z; attempt_id : option string }.
End Hold.
(** [operation], with the argument of its method. *)
Inductive Mutation : Type :=
  | start | submit_validation (produced_sha : string) | complete | fail (reason : string) | block (reason : string).

(** ** The token *)

Definition token_error (e : exn) : exn :=
  match e with
  | Error cls msg =>
      if String.eqb cls "SecureFileError" then
        Manifest.blocked (if String.eqb msg "file_not_private" then "worker_token_permissions"
                          else "worker_token_file_unavailable")
      else if String.eqb cls "OSError" then Manifest.blocked "worker_token_file_unavailable" else e
  | _ => e
  end.
(** The checks on the bytes of the file. *)
Definition token_of (raw : string) : res string :=
  Manifest.need ((16 <=? len raw)%nat && (len raw <=? 4096)%nat) "worker_token_invalid" ;;
  Manifest.need (forallb (fun c => (code c <? 128)%N) (chars raw)) "worker_token_invalid" ;;
  let token := strip raw in
  Manifest.need (fullmatch TOKEN_RE token) "worker_token_invalid" ;;
  Ok token.
Definition client_token : P string :=
  raw ← catch (call read_token) (fun e => throw (token_error e));
  of_res (token_of raw).

(** ** One request *)

Definition route_ok (method path : string) : bool :=
  bool_decide (method ∈ ["GET"; "POST"]) && starts_with "/v1/" path && negb (contains "//" path) &&
  negb (contains "?" path) && negb (contains "#" path).
(** [value.split(";")[0].strip()] *)
Definition media_type (s : string) : string :=
  strip (str (fst (span (fun c => negb (Ascii.eqb c ";")) (chars s)))).
Definition transport_failure (e : exn) : bool := is_a "HTTPError" e || is_a "OSError" e.
(** The value of a response that passes the checks. *)
Definition accept_reply (target : string) (expected_statuses : list Z) (expect_list : bool) (r : Reply) : res json :=
  Manifest.need (String.eqb (reply_url r) target && negb (redirected r)) "worker_response_origin_mismatch" ;;
  Manifest.need (negb (reply_status r =? 401)) "worker_auth_rejected" ;;
  Manifest.need (bool_decide (reply_status r ∈ expected_statuses)) "worker_http_unverified" ;;
  Manifest.need ((reply_size r <=? MAX_RESPONSE_BYTES) && String.eqb (media_type (content_type r)) "application/json")
    "worker_response_invalid" ;;
  match content r with
  | None => Raise (Manifest.blocked "worker_response_invalid")
  | Some data =>
      Manifest.need (if expect_list then match data with JList l => (length l <=? 128)%nat && forallb is_dict l | _ => false end
                     else is_dict data) "worker_response_invalid" ;;
      Ok data
  end.

Section Client.
Context (client : Client.t).

Definition request (method path : string) (payload : option json) (expected_statuses : list Z) (expect_list : bool)
    : P json :=
  insist (route_ok method path) "worker_route_invalid" ;;
  let target := String.append (Client.base_url client) path in
  result ← catch (token ← client_token;
                  call (send method target token (if String.eqb method "POST" then payload else None)))
             (fun e => if transport_failure e then throw (Manifest.blocked "worker_transport_unverified") else throw e);
  of_res (accept_reply target expected_statuses expect_list result).
Definition get_json (path : string) : P json := request "GET" path None [200] false.
Definition post_json (path : string) (payload : json) (statuses : list Z) : P json :=
  request "POST" path (Some payload) statuses false.

(** [_id], [_worker] *)
Definition check_id (task_id : string) : P unit := insist (fullmatch Names.TASK_ID task_id) "worker_task_id_invalid".
Definition check_worker (worker_id correlation_id : string) : P unit :=
  insist (fullmatch NAME worker_id) "worker_id_invalid" ;;
  insist (fullmatch CORRELATION correlation_id) "correlation_invalid".
Definition task_path (task_id : string) : string := String.append "/v1/tasks/" task_id.
Definition absent_key (k : string) (v : json) : bool :=
  match v with JObj ms => negb (bool_decide (k ∈ keys ms)) | _ => true end.
(** [_task] *)
Definition task_shape (task_id : string) (task : json) : bool :=
  text_is "task_id" task_id task && str_that (fun s => bool_decide (s ∈ HTTP_TASK_STATES)) (member "state" task) &&
  absent_key "lease_token" task.
Definition checked_task (task : json) (task_id : string) : P json :=
  insist (task_shape task_id task) "worker_task_readback_invalid" ;; mret task.

Definition list_repositories : P json := request "GET" "/v1/repositories" None [200] true.
Definition get_task (task_id : string) : P json :=
  check_id task_id ;; v ← get_json (task_path task_id); checked_task v task_id.

(** ** Admission of an issue *)

Definition ISSUE_PAYLOAD_KEYS : list string :=
  ["repository"; "issue_number"; "request_id"; "correlation_id"; "priority"; "base_sha"; "target_branch";
   "max_attempts"; "fencing_required"].
Definition ISSUE_REQUEST : re := Cat (lit "issue-") (times 64 hex_lower).
Definition issue_payload_ok (payload : json) : bool :=
  let base := str_value (member "base_sha" payload) in
  let issue := int_value (member "issue_number" payload) in
  match payload with JObj ms => same_set (keys ms) ISSUE_PAYLOAD_KEYS | _ => false end &&
  text_is "repository" REPO payload && int_that (fun n => 0 <? n) (member "issue_number" payload) &&
  str_that (fullmatch ISSUE_REQUEST) (member "request_id" payload) &&
  str_that (fullmatch CORRELATION) (member "correlation_id" payload) &&
  str_that (fullmatch SHA40) (member "base_sha" payload) &&
  text_is "target_branch" (concat_text ["agent/qwen7b-issue-"; int_text issue; "-"; take_str 12 base]) payload &&
  int_that (fun n => n =? 10) (member "priority" payload) && int_that (fun n => n =? 1) (member "max_attempts" payload) &&
  is_true (member "fencing_required" payload).
Definition READBACK_KEYS : list string :=
  ["repository"; "issue_number"; "request_id"; "correlation_id"; "priority"; "base_sha"].
Definition issue_readback_ok (payload readback : json) : bool :=
  forallb (fun k => py_eqb (member k readback) (member k payload)) READBACK_KEYS &&
  py_eqb (member "branch" readback) (member "target_branch" payload) && is_true (member "fencing_required" readback) &&
  py_eqb (member "max_attempts" readback) (JInt 1) &&
  str_that (fun s => bool_decide (s ∈ HTTP_TASK_STATES)) (member "state" readback).
Definition is_bool (v : json) : bool := match v with JBool _ => true | _ => false end.
Definition enqueue_fenced_issue (payload : json) : P json :=
  insist (issue_payload_ok payload) "worker_issue_payload_invalid" ;;
  reply ← post_json "/v1/tasks" payload [200; 201];
  let task := member "task" reply in
  insist (is_bool (member "created" reply) && is_dict task && str_that (fullmatch Names.TASK_ID) (member "task_id" task))
    "worker_issue_enqueue_invalid" ;;
  let task_id := str_value (member "task_id" task) in
  readback ← get_task task_id;
  insist (issue_readback_ok payload readback) "worker_issue_readback_mismatch" ;;
  mret (JObj [("task_id", JStr task_id); ("created", member "created" reply); ("task", readback)]).

(** ** Claims *)

Definition not_claimed (fenced : bool) (reply : json) : bool :=
  is_none (member "task" reply) && is_none (member "lease" reply) &&
  (negb fenced || is_none (member "recovery_context" reply)).
Definition claimed_ok (worker_id task_id : string) (reply : json) : bool :=
  let task := member "task" reply in let lease := member "lease" reply in
  is_dict task && is_dict lease && text_is "task_id" task_id task && text_is "leased_by" worker_id task &&
  text_is "task_id" task_id lease && text_is "worker_id" worker_id lease &&
  str_that (fun s => (16 <=? len s)%nat && (len s <=? 128)%nat) (member "lease_token" lease) &&
  str_that (fun s => bool_decide (s ∈ ["builder"; "validator"])) (member "role" lease).
(** [task.get("state") in {"leased", "validating"}] *)
Definition claimed_state (reply : json) : res bool := member_of ["leased"; "validating"] (member "state" (member "task" reply)).
(** The deadline of a lease, an aware [datetime]. *)
Definition deadline_of (expires : string) : res datetime :=
  match fromisoformat (zulu expires) with
  | Ok d => if aware d then astimezone_utc d else Raise (Manifest.blocked "worker_claim_invalid")
  | Raise e => Raise (if value_failure e then Manifest.blocked "worker_claim_invalid" else e)
  end.
Definition fenced_claim_ok (reply : json) : bool :=
  let task := member "task" reply in let lease := member "lease" reply in
  let recovery := member "recovery_context" reply in
  is_true (member "fencing_required" task) && int_that (fun g => 1 <=? g) (member "lease_generation" lease) &&
  str_that (fullmatch SAFE_ID) (member "attempt_id" lease) &&
  py_eqb (member "lease_generation" task) (member "lease_generation" lease) &&
  py_eqb (member "attempt_id" task) (member "attempt_id" lease) &&
  match recovery with JObj ms => same_set (keys ms) ["latest_checkpoint"; "effects"] | _ => false end &&
  (is_none (member "latest_checkpoint" recovery) || is_dict (member "latest_checkpoint" recovery)) &&
  match member "effects" recovery with JList l => (length l <=? 64)%nat && forallb is_dict l | _ => false end.
Definition claim_path (fenced : bool) : string := if fenced then "/v1/claims/fenced/exact" else "/v1/claims/exact".
Definition claim_body (worker_id task_id correlation_id : string) : json :=
  JObj [("worker_id", JStr worker_id); ("task_id", JStr task_id); ("correlation_id", JStr correlation_id)].
(** [_claim_exact]; [claim_exact] and [claim_fenced_exact] choose [fenced]. *)
Definition claim_exact (fenced : bool) (worker_id task_id correlation_id : string) : P json :=
  check_worker worker_id correlation_id ;;
  check_id task_id ;;
  reply ← post_json (claim_path fenced) (claim_body worker_id task_id correlation_id) [200];
  insist (is_bool (member "claimed" reply)) "worker_claim_invalid" ;;
  if negb (is_true (member "claimed" reply)) then
    insist (not_claimed fenced reply) "worker_claim_invalid" ;; mret reply
  else
    insist (claimed_ok worker_id task_id reply) "worker_claim_invalid" ;;
    of_res (need_r (claimed_state reply) "worker_claim_invalid") ;;
    let expires := member "lease_expires_at" (member "lease" reply) in
    insist (str_that (fun s => (20 <=? len s)%nat && (len s <=? 48)%nat) expires) "worker_claim_invalid" ;;
    deadline ← of_res (deadline_of (str_value expires));
    now ← call utc_now;
    insist (now <? deadline) "worker_claim_invalid" ;;
    (if fenced then insist (fenced_claim_ok reply) "worker_fenced_claim_invalid" else mret tt) ;;
    checked_task (member "task" reply) task_id ;;
    mret reply.

(** ** Checkpoints *)

Definition latest_path (task_id : string) : string := String.append (task_path task_id) "/checkpoints/latest".
Definition latest_ok (task_id : string) (reply : json) : bool :=
  is_none (member "checkpoint" reply) || text_is "task_id" task_id (member "checkpoint" reply).
Definition get_latest_checkpoint (task_id : string) : P json :=
  check_id task_id ;;
  reply ← get_json (latest_path task_id);
  insist (has_exactly ["checkpoint"] reply && (is_none (member "checkpoint" reply) || is_dict (member "checkpoint" reply)))
    "worker_checkpoint_readback_invalid" ;;
  insist (latest_ok task_id reply) "worker_checkpoint_readback_invalid" ;;
  mret (member "checkpoint" reply).

Definition token_size (s : string) : bool := (16 <=? len s)%nat && (len s <=? 128)%nat.
Definition some_that (p : string → bool) (o : option string) : bool := match o with Some s => p s | None => false end.
Definition no_value (o : option string) : bool := match o with Some _ => false | None => true end.
Definition mark_lease_ok (m : Mark.t) : bool :=
  token_size (Mark.lease_token m) && (1 <=? Mark.lease_generation m) && fullmatch SAFE_ID (Mark.attempt_id m) &&
  fullmatch SAFE_ID (Mark.checkpoint_id m) && (1 <=? Mark.sequence m) && fullmatch SAFE_ID (Mark.stage m) &&
  (1 <=? len (Mark.next_action m))%nat && (len (Mark.next_action m) <=? 2048)%nat.
Definition mark_artifact_ok (m : Mark.t) : bool :=
  (no_value (Mark.artifact_kind m) && no_value (Mark.artifact_ref m) && no_value (Mark.artifact_sha256 m)) ||
  (some_that (fullmatch SAFE_ID) (Mark.artifact_kind m) &&
   some_that (fun r => (1 <=? len r)%nat && (len r <=? 2048)%nat && has_none_of [LF; CR] r) (Mark.artifact_ref m) &&
   some_that (fullmatch SHA256_HEX) (Mark.artifact_sha256 m)).
Definition mark_effect_ok (m : Mark.t) : bool :=
  let state := Mark.effect_state m in
  bool_decide (state ∈ ["none"; "pending"; "unknown"; "confirmed"; "not_applied"]) &&
  ((String.eqb state "none" && no_value (Mark.effect_id m) && no_value (Mark.effect_result_ref m)) ||
   (negb (String.eqb state "none") && some_that (fullmatch SAFE_ID) (Mark.effect_id m) &&
    ((bool_decide (state ∈ ["pending"; "unknown"]) && no_value (Mark.effect_result_ref m)) ||
     (bool_decide (state ∈ ["confirmed"; "not_applied"]) &&
      some_that (fun r => (1 <=? len r)%nat && (len r <=? 2048)%nat) (Mark.effect_result_ref m))))).
(** [expected]: the body without the two members of the lease. *)
Definition mark_expected (m : Mark.t) : list (string * json) :=
  [("lease_generation", JInt (Mark.lease_generation m)); ("attempt_id", JStr (Mark.attempt_id m));
   ("checkpoint_id", JStr (Mark.checkpoint_id m)); ("sequence", JInt (Mark.sequence m)); ("stage", JStr (Mark.stage m));
   ("artifact_kind", opt_str (Mark.artifact_kind m)); ("artifact_ref", opt_str (Mark.artifact_ref m));
   ("artifact_sha256", opt_str (Mark.artifact_sha256 m)); ("next_action", JStr (Mark.next_action m));
   ("effect_id", opt_str (Mark.effect_id m)); ("effect_state", JStr (Mark.effect_state m));
   ("effect_result_ref", opt_str (Mark.effect_result_ref m)); ("correlation_id", JStr (Mark.correlation_id m))].
Definition mark_body (m : Mark.t) : json :=
  JObj ([("worker_id", JStr (Mark.worker_id m)); ("lease_token", JStr (Mark.lease_token m))] ++ mark_expected m)%list.
(** [_checkpoint_matches] *)
Definition checkpoint_matches (checkpoint : json) (expected : list (string * json)) : bool :=
  is_dict checkpoint && forallb (fun m => py_eqb (member m.1 checkpoint) m.2) expected.
Definition checkpoints_path (task_id : string) : string := String.append (task_path task_id) "/checkpoints".
Definition unverified (e : exn) : bool := bool_decide (e = Manifest.blocked "worker_transport_unverified").

Definition record_checkpoint (m : Mark.t) : P json :=
  check_worker (Mark.worker_id m) (Mark.correlation_id m) ;;
  check_id (Mark.task_id m) ;;
  insist (mark_lease_ok m) "worker_checkpoint_invalid" ;;
  insist (mark_artifact_ok m) "worker_checkpoint_invalid" ;;
  insist (mark_effect_ok m) "worker_checkpoint_invalid" ;;
  sent ← attempt (post_json (checkpoints_path (Mark.task_id m)) (mark_body m) [200; 201]);
  match sent with
  | Raise e =>
      if unverified e then
        checkpoint ← get_latest_checkpoint (Mark.task_id m);
        insist (checkpoint_matches checkpoint (mark_expected m)) "worker_checkpoint_ambiguous" ;;
        mret checkpoint
      else throw e
  | Ok reply =>
      insist (has_exactly ["created"; "checkpoint"] reply && is_bool (member "created" reply) &&
              checkpoint_matches (member "checkpoint" reply) (mark_expected m)) "worker_checkpoint_response_invalid" ;;
      independent ← get_latest_checkpoint (Mark.task_id m);
      insist (checkpoint_matches independent (mark_expected m)) "worker_checkpoint_readback_mismatch" ;;
      mret independent
  end.

(** ** Mutations *)

Definition operation (x : Mutation) : string :=
  match x with start => "start" | submit_validation _ => "validation" | complete => "complete" | fail _ => "fail"
             | block _ => "block" end.
Definition REASON : re := Rep 3 (Some 64%nat) (Chr (either is_lower (one_of "_"))).
Definition fence_ok (h : Hold.t) : bool :=
  match Hold.lease_generation h, Hold.attempt_id h with
  | None, None => true
  | Some g, Some a => (1 <=? g) && fullmatch SAFE_ID a
  | _, _ => false
  end.
Definition hold_body (h : Hold.t) (x : Mutation) : json :=
  JObj ([("worker_id", JStr (Hold.worker_id h)); ("lease_token", JStr (Hold.lease_token h));
         ("correlation_id", JStr (Hold.correlation_id h))] ++
        match Hold.lease_generation h, Hold.attempt_id h with
        | Some g, Some a => [("lease_generation", JInt g); ("attempt_id", JStr a)]
        | _, _ => []
        end ++
        match x with
        | submit_validation sha => [("produced_sha", JStr sha)]
        | fail reason | block reason => [("reason", JStr reason)]
        | _ => []
        end)%list.
Definition expected_states (x : Mutation) : list string :=
  match x with
  | start => ["running"] | submit_validation _ => ["validating"] | complete => ["completed"]
  | fail _ => ["queued"; "blocked"; "failed"] | block _ => ["blocked"]
  end.
Definition mutation_path (h : Hold.t) (x : Mutation) : string :=
  concat_text ["/v1/tasks/"; Hold.task_id h; "/"; operation x].
Definition mutation_args (h : Hold.t) (x : Mutation) : P unit :=
  insist (token_size (Hold.lease_token h)) "worker_lease_invalid" ;;
  match x with
  | submit_validation sha => insist (fullmatch SHA40 sha) "worker_validation_sha_invalid"
  | fail reason | block reason => insist (fullmatch REASON reason) "worker_failure_reason_invalid"
  | _ => mret tt
  end ;;
  insist (fence_ok h) "worker_lease_fence_invalid".
Definition same_task (after independent : json) : bool :=
  py_eqb (member "state" independent) (member "state" after) &&
  py_eqb (member "produced_sha" independent) (member "produced_sha" after).
(** [_mutate] *)
Definition mutate (h : Hold.t) (x : Mutation) : P unit :=
  check_worker (Hold.worker_id h) (Hold.correlation_id h) ;;
  check_id (Hold.task_id h) ;;
  mutation_args h x ;;
  reply ← post_json (mutation_path h x) (hold_body h x) [200];
  after ← checked_task reply (Hold.task_id h);
  insist (str_that (fun s => bool_decide (s ∈ expected_states x)) (member "state" after)) "worker_mutation_unverified" ;;
  independent ← get_task (Hold.task_id h);
  insist (same_task after independent) "worker_mutation_readback_mismatch".
End Client.
