(* ===== verification/PoolClientSpec.v ===== *)
(** The protocol of the pool's client: a monitor of its requests, and the
    lemmas that follow [PoolClient]'s programs whatever they are answered. *)
From Stdlib Require Import Ascii String QArith.
From stdpp Require Import strings list.
From S2P Require Import Prelude Prog PyStr Sha256 Clock Json PyVal PyText PyAst IsoDate Names Structured IssueDraft Manifest.
From S2P Require Import PoolClient.

Local Open Scope string_scope.
Local Open Scope Z_scope.

(** The calls that change the pool. *)
Inductive Call : Type :=
  | c_checkpoint (m : Mark.t)
  | c_mutate (h : Hold.t) (x : Mutation)
  | c_claim (fenced : bool) (worker_id task_id correlation_id : string)
  | c_enqueue (payload : json).
Definition run_call (client : Client.t) (c : Call) : P json :=
  match c with
  | c_checkpoint m => record_checkpoint client m
  | c_mutate h x => mutate client h x ;; mret JNull
  | c_claim fenced w t cid => claim_exact client fenced w t cid
  | c_enqueue payload => enqueue_fenced_issue client payload
  end.
(** The one request that may change something, and the statuses of success. *)
Definition post_path (c : Call) : string :=
  match c with
  | c_checkpoint m => checkpoints_path (Mark.task_id m)
  | c_mutate h x => mutation_path h x
  | c_claim fenced _ _ _ => claim_path fenced
  | c_enqueue _ => "/v1/tasks"
  end.
Definition post_body (c : Call) : json :=
  match c with
  | c_checkpoint m => mark_body m
  | c_mutate h x => hold_body h x
  | c_claim _ w t cid => claim_body w t cid
  | c_enqueue payload => payload
  end.
Definition post_statuses (c : Call) : list Z :=
  match c with c_checkpoint _ | c_enqueue _ => [200; 201] | _ => [200] end.

(** What was read of the token, how the request was answered, and the last
    value read back. *)
Record Watch := mkWatch {
  token : option string; posted : bool; answered : option json; readback : option (string * json); clock_read : Z }.
#[export] Instance Watch_eta : Eta Watch := fun g =>
  mkWatch (token g) (posted g) (answered g) (readback g) (clock_read g).
Definition nothing : Watch := mkWatch None false None None 0.

Section Protocol.
Context (client : Client.t) (c : Call).
Let target (path : string) : string := String.append (Client.base_url client) path.

(** A request carries the token just read, and the one [POST] is the call's. *)
Definition allowed (g : Watch) (o : op) : bool :=
  match o with
  | send method url tok payload =>
      bool_decide (token g = Some tok) &&
      if String.eqb method "POST"
      then negb (posted g) && String.eqb url (target (post_path c)) && bool_decide (payload = Some (post_body c))
      else String.eqb method "GET" && bool_decide (payload = None)
  | _ => true
  end.
Definition next (g : Watch) (o : op) : res (answer o) → Watch :=
  match o with
  | read_token => fun r => g <| token := raw ← ok_value r; ok_value (token_of raw) |>
  | utc_now => fun r => g <| clock_read := match r with Ok n => n | Raise _ => clock_read g end |>
  | send method url _ _ => fun r =>
      if String.eqb method "POST" then
        g <| posted := true |> <| readback := None |>
          <| answered := reply ← ok_value r; ok_value (accept_reply url (post_statuses c) false reply) |>
      else
        g <| readback := reply ← ok_value r; v ← ok_value (accept_reply url [200] false reply); Some (url, v) |>
  end.
Abbreviation safe := (Prog.safe allowed next).

Lemma safe_send (o : op) g (Q : res (answer o) → Watch → Prop) :
  allowed g o = true → (∀ r, Q r (next g o r)) → safe (call o) g Q.
Proof. apply (Prog.safe_call (answer:=answer)). Qed.
Lemma safe_insist b reason g (Q : res unit → Watch → Prop) :
  (b = true → Q (Ok tt) g) → (b = false → Q (Raise (Manifest.blocked reason)) g) → safe (insist b reason) g Q.
Proof. intros H1 H2. apply safe_of_res. destruct b; [by apply H1|by apply H2]. Qed.

(** Reading the token leaves everything but the token. *)
Lemma safe_token g (Q : res string → Watch → Prop) :
  (∀ tok t, t = Some tok → Q (Ok tok) (g <| token := t |>)) → (∀ e t, Q (Raise e) (g <| token := t |>)) →
  safe client_token g Q.
Proof.
  intros H1 H2. unfold client_token. apply safe_bind, safe_catch. apply (safe_send read_token); [done|].
  intros [raw|e]; cbn [next ok_value mbind option_bind]; [|by apply safe_throw, H2].
  apply safe_of_res. destruct (token_of raw); [by apply H1|apply H2].
Qed.

(** One request, whichever method. *)
Lemma safe_request method path payload statuses expect_list g (Q : res json → Watch → Prop) :
  (∀ tok t, t = Some tok → allowed (g <| token := t |>) (send method (target path) tok
     (if String.eqb method "POST" then payload else None)) = true) →
  (∀ e g', Q (Raise e) g') →
  (∀ v t tok pl reply, accept_reply (target path) statuses expect_list reply = Ok v →
     Q (Ok v) (next (g <| token := t |>) (send method (target path) tok pl) (Ok reply))) →
  safe (request client method path payload statuses expect_list) g Q.
Proof.
  intros Ha HE HQ. unfold request. apply safe_bind, safe_insist; intros _; [|apply HE].
  apply safe_bind, safe_catch, safe_bind, safe_token.
  - intros tok t ->. apply safe_send; [by apply Ha|]. intros [reply|e].
    + apply safe_of_res. destruct (accept_reply _ _ _ reply) eqn:E; [by eapply HQ|apply HE].
    + destruct (transport_failure e); apply safe_throw, HE.
  - intros e t. destruct (transport_failure e); apply safe_throw, HE.
Qed.

(** The call's request. *)
Lemma safe_post g (Q : res json → Watch → Prop) :
  posted g = false → (∀ e g', Q (Raise e) g') →
  (∀ v g', posted g' = true → answered g' = Some v → Q (Ok v) g') →
  safe (post_json client (post_path c) (post_body c) (post_statuses c)) g Q.
Proof.
  intros Hp HE HQ. apply safe_request; [|done|].
  - intros tok t ->. cbn. by rewrite Hp, String.eqb_refl, !bool_decide_eq_true_2.
  - intros v t tok pl reply Hr. apply HQ; [done|]. cbn. by rewrite Hr.
Qed.

(** A read: it changes nothing else. *)
Lemma safe_get path g (Q : res json → Watch → Prop) :
  (∀ e g', Q (Raise e) g') →
  (∀ v g', posted g' = posted g → answered g' = answered g → readback g' = Some (target path, v) → Q (Ok v) g') →
  safe (get_json client path) g Q.
Proof.
  intros HE HQ. apply safe_request; [|done|].
  - intros tok t ->. cbn. by rewrite !bool_decide_eq_true_2.
  - intros v t tok pl reply Hr. apply HQ; [done..|]. cbn. by rewrite Hr.
Qed.

Lemma safe_check_worker w cid g (Q : res unit → Watch → Prop) :
  Q (Ok tt) g → (∀ e g', Q (Raise e) g') → safe (check_worker w cid) g Q.
Proof. intros H1 H2. apply safe_bind, safe_insist; intros _; [apply safe_insist; intros _; [done|apply H2]|apply H2]. Qed.
Lemma safe_checked_task v tid g (Q : res json → Watch → Prop) :
  (task_shape tid v = true → Q (Ok v) g) → (∀ e g', Q (Raise e) g') → safe (checked_task v tid) g Q.
Proof. intros H1 H2. apply safe_bind, safe_insist; [intros H; by apply safe_ret, H1|intros _; apply H2]. Qed.

Lemma safe_get_task tid g (Q : res json → Watch → Prop) :
  (∀ e g', Q (Raise e) g') →
  (∀ v g', posted g' = posted g → answered g' = answered g → readback g' = Some (target (task_path tid), v) →
     task_shape tid v = true → Q (Ok v) g') →
  safe (get_task client tid) g Q.
Proof.
  intros HE HQ. apply safe_bind, safe_insist; intros _; [|apply HE].
  apply safe_bind, safe_get; [by intros|]. intros v g' H1 H2 H3. apply safe_checked_task; [|done]. intros H4. by apply HQ.
Qed.
Lemma safe_latest tid g (Q : res json → Watch → Prop) :
  (∀ e g', Q (Raise e) g') →
  (∀ reply g', posted g' = posted g → answered g' = answered g → readback g' = Some (target (latest_path tid), reply) →
     latest_ok tid reply = true → Q (Ok (member "checkpoint" reply)) g') →
  safe (get_latest_checkpoint client tid) g Q.
Proof.
  intros HE HQ. apply safe_bind, safe_insist; intros _; [|apply HE].
  apply safe_bind, safe_get; [by intros|]. intros v g' H1 H2 H3.
  apply safe_bind, safe_insist; intros _; [|apply HE]. apply safe_bind, safe_insist; intros H4; [|apply HE].
  apply safe_ret. by eapply HQ.
Qed.

(** What was read when a call returns [v]. *)
Definition confirmed (g : Watch) (v : json) : Prop :=
  match c with
  | c_checkpoint m => ∃ reply, readback g = Some (target (latest_path (Mark.task_id m)), reply) ∧
      v = member "checkpoint" reply ∧ latest_ok (Mark.task_id m) reply = true ∧ checkpoint_matches v (mark_expected m) = true
  | c_mutate h x => ∃ after independent,
      answered g = Some after ∧ readback g = Some (target (task_path (Hold.task_id h)), independent) ∧
      task_shape (Hold.task_id h) after = true ∧ task_shape (Hold.task_id h) independent = true ∧
      str_that (fun s => bool_decide (s ∈ expected_states x)) (member "state" after) = true ∧ same_task after independent = true
  | c_claim fenced w t _ => answered g = Some v ∧
      ((member "claimed" v = JBool false ∧ not_claimed fenced v = true) ∨
       (member "claimed" v = JBool true ∧ claimed_ok w t v = true ∧ claimed_state v = Ok true ∧
        (∃ d, deadline_of (str_value (member "lease_expires_at" (member "lease" v))) = Ok d ∧ clock_read g < d) ∧
        (fenced = true → fenced_claim_ok v = true) ∧ task_shape t (member "task" v) = true))
  | c_enqueue payload => ∃ reply tid after,
      answered g = Some reply ∧ member "task_id" (member "task" reply) = JStr tid ∧
      readback g = Some (target (task_path tid), after) ∧ task_shape tid after = true ∧
      issue_payload_ok payload = true ∧ issue_readback_ok payload after = true ∧
      v = JObj [("task_id", JStr tid); ("created", member "created" reply); ("task", after)]
  end.
End Protocol.

(** ** The calls *)

Section Calls.
Context (client : Client.t).
Abbreviation safe c := (Prog.safe (allowed client c) (next c)).

Lemma safe_record m g : posted g = false →
  safe (c_checkpoint m) (record_checkpoint client m) g (fun r g' => ∀ v, r = Ok v → confirmed client (c_checkpoint m) g' v).
Proof.
  intros Hp. unfold record_checkpoint. apply safe_bind, safe_check_worker; [|done].
  do 4 (apply safe_bind, safe_insist; intros _; [|done]).
  apply safe_bind, safe_attempt, (safe_post client (c_checkpoint m)); [done| |].
  - intros e g'. destruct (unverified e); [|done]. apply safe_bind, safe_latest; [done|].
    intros reply g'' _ _ Hr Hl. apply safe_bind, safe_insist; intros Hm; [|done]. intros v [= <-]. by exists reply.
  - intros v g' _ _. apply safe_bind, safe_insist; intros _; [|done]. apply safe_bind, safe_latest; [done|].
    intros reply g'' _ _ Hr Hl. apply safe_bind, safe_insist; intros Hm; [|done]. intros v' [= <-]. by exists reply.
Qed.

Lemma safe_mutate h x g : posted g = false →
  safe (c_mutate h x) (mutate client h x) g (fun r g' => r = Ok tt → confirmed client (c_mutate h x) g' JNull).
Proof.
  intros Hp. unfold mutate. apply safe_bind, safe_check_worker; [|done].
  apply safe_bind, safe_insist; intros _; [|done].
  apply safe_bind. eapply safe_mono with (P := fun r g' => g' = g).
  { unfold mutation_args. apply safe_bind, safe_insist; [intros _|done]. apply safe_bind.
    destruct x; [apply safe_ret|apply safe_insist; [intros _|done]|apply safe_ret|apply safe_insist; [intros _|done]..];
      by apply safe_insist. }
  intros [[]|e] ? ->; [|done].
  apply safe_bind, (safe_post client (c_mutate h x)); [done|done|]. intros v g' _ Hv.
  apply safe_bind, safe_checked_task; [|done]. intros Hs.
  apply safe_bind, safe_insist; intros He; [|done].
  apply safe_bind, safe_get_task; [done|]. intros i g'' _ Ha Hr Hi. apply safe_insist; intros Hsame; [|done].
  intros _. exists v, i. split_and!; try done. congruence.
Qed.

Lemma safe_claim_exact fenced w t cid g : posted g = false →
  safe (c_claim fenced w t cid) (claim_exact client fenced w t cid) g
    (fun r g' => ∀ v, r = Ok v → confirmed client (c_claim fenced w t cid) g' v).
Proof.
  intros Hp. unfold claim_exact. apply safe_bind, safe_check_worker; [|done].
  apply safe_bind, safe_insist; intros _; [|done].
  apply safe_bind, (safe_post client (c_claim fenced w t cid)); [done|done|]. intros v g' _ Hv.
  apply safe_bind, safe_insist; intros Hb; [|done].
  destruct (member "claimed" v) as [|[|]| | | |] eqn:Ec; try done; cbn [is_true negb].
  - apply safe_bind, safe_insist; intros H1; [|done].
    apply safe_bind, safe_of_res. destruct (claimed_state v) as [[|]|] eqn:H2; [|done..]. cbn [need_r mbind res_bind Manifest.need].
    apply safe_bind, safe_insist; intros _; [|done].
    apply safe_bind, safe_of_res. destruct (deadline_of _) as [d|] eqn:Hd; [|done].
    apply safe_bind, (safe_send client _ utc_now); [done|]. intros [n|e]; [|done]. cbn [next].
    apply safe_bind, safe_insist; [intros Hn%Z.ltb_lt|done].
    apply safe_bind. eapply safe_mono with (P := fun r g'' => g'' = g' <| clock_read := n |> ∧
      (r = Ok tt → fenced = true → fenced_claim_ok v = true)).
    { destruct fenced; [apply safe_insist; intros H3; [done|done]|by apply safe_ret]. }
    intros [[]|e] ? [-> H3]; [|done]. apply safe_bind, safe_checked_task; [|done]. intros H4.
    apply safe_ret. intros ? [= <-]. split; [done|]. right. split_and!; try done; [by exists d|by apply H3].
  - apply safe_bind, safe_insist; intros H1; [|done]. apply safe_ret. intros ? [= <-]. split; [done|]. by left.
Qed.

Lemma safe_enqueue payload g : posted g = false →
  safe (c_enqueue payload) (enqueue_fenced_issue client payload) g
    (fun r g' => ∀ v, r = Ok v → confirmed client (c_enqueue payload) g' v).
Proof.
  intros Hp. unfold enqueue_fenced_issue. apply safe_bind, safe_insist; intros Hok; [|done].
  apply safe_bind, (safe_post client (c_enqueue payload)); [done|done|]. intros v g' _ Hv.
  apply safe_bind, safe_insist; intros H1; [|done].
  apply safe_bind, safe_get_task; [done|]. intros after g'' _ Ha Hr Hs.
  apply safe_bind, safe_insist; intros Hrb; [|done]. apply safe_ret. intros ? [= <-].
  apply andb_prop in H1 as [_ H1]. destruct (member "task_id" (member "task" v)) as [| | |tid| |] eqn:Et; try done.
  cbn [str_value] in *. exists v, tid, after. rewrite <- Ha in Hv. by split_and!.
Qed.

Lemma safe_calls c g : posted g = false →
  safe c (run_call client c) g (fun r g' => ∀ v, r = Ok v → confirmed client c g' v).
Proof.
  intros Hp. destruct c; [by apply safe_record| |by apply safe_claim_exact|by apply safe_enqueue].
  apply safe_bind. eapply safe_mono; [by apply safe_mutate|]. intros [[]|e] g' H; [|done].
  apply safe_ret. intros v [= <-]. by apply H.
Qed.
End Calls.
