(* ===== verification/PoolService.v ===== *)
(** The pool's client and the pool's service together: the routes of
    [app/main.py] that [app/native_pool_http.py] calls, the JSON of their
    payloads and answers, and the service as the surroundings of the client.

    The decoding of a payload into its model is the framework's: the class
    [Framework] states that an object with the declared members decodes to
    them.  [strict] is a decoder with that behaviour. *)
From Stdlib Require Import Ascii String QArith.
From stdpp Require Import strings list.
From S2P Require Import Prelude Prog PyStr Clock Json PyVal PyText Names Schema Store Claim LeaseOps Effects.
From S2P Require Import Work WorkPool Controller Diagnostics Snapshot Api Structured IssueDraft Manifest PoolClient.

Local Open Scope string_scope.
Local Open Scope Z_scope.

(** ** Payloads *)

Definition given {A} (k : string) (f : A → json) (o : option A) : list (string * json) :=
  match o with Some x => [(k, f x)] | None => [] end.
(** The members of [LeaseMutation] that are set. *)
Definition lease_members (p : LeaseMutation.t) : list (string * json) :=
  ([("worker_id", JStr (LeaseMutation.worker_id p)); ("lease_token", JStr (LeaseMutation.lease_token p));
    ("correlation_id", JStr (LeaseMutation.correlation_id p))] ++
   given "lease_generation" JInt (LeaseMutation.lease_generation p) ++
   given "attempt_id" JStr (LeaseMutation.attempt_id p))%list.
(** Those of [TaskCreate] that are set. *)
Definition task_members (p : TaskCreate.t) : list (string * json) :=
  ([("repository", JStr (TaskCreate.repository p)); ("issue_number", JInt (TaskCreate.issue_number p));
    ("request_id", JStr (TaskCreate.request_id p)); ("correlation_id", JStr (TaskCreate.correlation_id p));
    ("priority", JInt (TaskCreate.priority p)); ("base_sha", JStr (TaskCreate.base_sha p))] ++
   given "target_branch" JStr (TaskCreate.target_branch p) ++ given "max_attempts" JInt (TaskCreate.max_attempts p) ++
   (if TaskCreate.fencing_required p then [("fencing_required", JBool true)] else []))%list.

(** The models, and what is documented of them: members by name, of the
    declared types; an optional member may be missing. *)
Class Framework := {
  lease_model : json → option LeaseMutation.t;
  handoff_model : json → option (LeaseMutation.t * string);
  failure_model : json → option (LeaseMutation.t * string);
  task_model : json → option TaskCreate.t;
  claim_model : json → option (ClaimRequest.t * string);
  checkpoint_model : json → option CheckpointRecord.t }.
Class FrameworkLaws {F : Framework} := {
  lease_law p : lease_model (JObj (lease_members p)) = Some p;
  handoff_law p sha : handoff_model (JObj (lease_members p ++ [("produced_sha", JStr sha)])) = Some (p, sha);
  failure_law p reason : failure_model (JObj (lease_members p ++ [("reason", JStr reason)])) = Some (p, reason);
  task_law p : task_model (JObj (task_members p)) = Some p }.

(** ** Routes *)

(** [path.split("/")] *)
Fixpoint split_slash (l : list ascii) : list (list ascii) :=
  match l with
  | [] => [[]]
  | c :: l' =>
      if Ascii.eqb c "/" then [] :: split_slash l'
      else match split_slash l' with [] => [[c]] | w :: ws => (c :: w) :: ws end
  end.
Definition segments (path : string) : list string := map str (split_slash (chars path)).

Section Routes.
Context {F : Framework}.

(** [POST /v1/tasks/{task_id}/...] *)
Definition task_operation (tid name : string) (body : option json) : option (option Request) :=
  if String.eqb name "start" then Some (rq_start tid <$> (body ≫= lease_model))
  else if String.eqb name "validation" then
    Some ((fun p => rq_validation tid p.1 p.2) <$> (body ≫= handoff_model))
  else if String.eqb name "complete" then Some (rq_complete tid <$> (body ≫= lease_model))
  else if String.eqb name "fail" then Some ((fun p => rq_fail tid p.1 p.2) <$> (body ≫= failure_model))
  else if String.eqb name "block" then Some ((fun p => rq_block tid p.1 p.2) <$> (body ≫= failure_model))
  else if String.eqb name "checkpoints" then Some (rq_checkpoint tid <$> (body ≫= checkpoint_model))
  else None.
(** The request of a path and a body: [None] if there is no such route,
    [Some None] if the body does not decode.  A path parameter is one segment
    that is not empty; the paths of the client have nothing to unquote. *)
Definition route (method path : string) (body : option json) : option (option Request) :=
  match segments path with
  | empty :: version :: rest =>
      if negb (String.eqb empty "" && String.eqb version "v1") then None
      else if String.eqb method "GET" then
        match rest with
        | [r] => if String.eqb r "repositories" then Some (Some rq_repositories) else None
        | [r; tid] => if String.eqb r "tasks" && nonempty tid then Some (Some (rq_get_task tid)) else None
        | [r; tid; c; l] =>
            if String.eqb r "tasks" && nonempty tid && String.eqb c "checkpoints" && String.eqb l "latest"
            then Some (Some (rq_latest_checkpoint tid)) else None
        | _ => None
        end
      else
        match rest with
        | [r] => if String.eqb r "tasks" then Some (rq_enqueue <$> (body ≫= task_model)) else None
        | [r; e] =>
            if String.eqb r "claims" && String.eqb e "exact" then
              Some ((fun p => rq_claim_exact p.2 p.1) <$> (body ≫= claim_model)) else None
        | [r; a; b] =>
            if String.eqb r "claims" && String.eqb a "fenced" && String.eqb b "exact" then
              Some ((fun p => rq_claim_fenced_exact p.2 p.1) <$> (body ≫= claim_model))
            else if String.eqb r "tasks" && nonempty a then task_operation a b body else None
        | _ => None
        end
  | _ => None
  end.
End Routes.

(** ** Answers *)

Definition lease_json (l : Lease.t) : json :=
  JObj [("task_id", JStr (Lease.task_id l)); ("lease_token", JStr (Lease.lease_token l));
        ("worker_id", JStr (Lease.worker_id l)); ("role", JStr (role_text (Lease.role l)));
        ("lease_expires_at", JStr (Lease.lease_expires_at l)); ("lease_generation", JInt (Lease.lease_generation l));
        ("attempt_id", JStr (Lease.attempt_id l))].
(** [dict(row)] of a row of [task_checkpoints]. *)
Definition checkpoint_dict (c : Checkpoint.t) : list (string * json) :=
  [("task_id", JStr (Checkpoint.task_id c)); ("checkpoint_id", JStr (Checkpoint.checkpoint_id c));
   ("lease_generation", JInt (Checkpoint.lease_generation c)); ("attempt_id", JStr (Checkpoint.attempt_id c));
   ("sequence", JInt (Checkpoint.sequence c)); ("stage", JStr (Checkpoint.stage c));
   ("artifact_kind", opt_str (Checkpoint.artifact_kind c)); ("artifact_ref", opt_str (Checkpoint.artifact_ref c));
   ("artifact_sha256", opt_str (Checkpoint.artifact_sha256 c)); ("next_action", JStr (Checkpoint.next_action c));
   ("effect_id", opt_str (Checkpoint.effect_id c)); ("effect_state", JStr (effect_text (Checkpoint.effect_state c)));
   ("effect_result_ref", opt_str (Checkpoint.effect_result_ref c));
   ("content_digest", JStr (Checkpoint.content_digest c)); ("correlation_id", JStr (Checkpoint.correlation_id c));
   ("created_at", JStr (Checkpoint.created_at c))].
(** The same with the joined columns of the reconciliation. *)
Definition checkpoint_view_json (v : CheckpointView.t) : json :=
  JObj (checkpoint_dict (CheckpointView.checkpoint v) ++
    [("reconciliation_outcome", opt_str (CheckpointView.reconciliation_outcome v));
     ("reconciliation_readback_ref", opt_str (CheckpointView.reconciliation_readback_ref v));
     ("reconciled_at", opt_str (CheckpointView.reconciled_at v))])%list.
Definition opt_json {A} (f : A → json) (o : option A) : json := match o with Some x => f x | None => JNull end.
Definition recovery_json (r : option CheckpointView.t * list CheckpointView.t) : json :=
  JObj [("latest_checkpoint", opt_json checkpoint_view_json r.1); ("effects", JList (map checkpoint_view_json r.2))].
Definition lane_json (l : LaneItem.t) : json :=
  let r := LaneItem.lane l in
  JObj [("repository", JStr (Lane.repository r)); ("enabled", JBool (Lane.enabled r));
        ("max_in_flight", JInt (Lane.max_in_flight r)); ("updated_at", JStr (Lane.updated_at r));
        ("queued", JInt (LaneItem.queued l)); ("active", JInt (LaneItem.active l))].
(** The JSON of the answers to these routes, and of the errors; [None] for
    the answers of the other endpoints. *)
Definition body_json (b : Body) : option json :=
  match b with
  | b_task row => Some (JObj row)
  | b_created_task created row => Some (JObj [("created", JBool created); ("task", JObj row)])
  | b_claim granted recovery =>
      Some (JObj ([("claimed", JBool (match granted with Some _ => true | None => false end));
                   ("task", opt_json (fun g => JObj g.1) granted); ("lease", opt_json (fun g => lease_json g.2) granted)] ++
                  given "recovery_context" (opt_json recovery_json) recovery)%list)
  | b_checkpoint created c => Some (JObj [("created", JBool created); ("checkpoint", JObj (checkpoint_dict c))])
  | b_latest c => Some (JObj [("checkpoint", opt_json checkpoint_view_json c)])
  | b_repositories l => Some (JList (map lane_json l))
  | b_detail detail => Some (JObj [("detail", JStr detail)])
  | _ => None
  end.
(** The bytes of an answer: its compact JSON in UTF-8. *)
Definition encoded_size (v : json) : Z := Z.of_nat (length (flat_map utf8_char (dumps v))).
Definition body_size (b : Body) : Z := match body_json b with Some v => encoded_size v | None => 0 end.
Definition reply_of (url : string) (r : Response) : Reply :=
  mkReply url false (status_code r) (body_size (body r)) "application/json" (body_json (body r)).

(** ** The service as the client's surroundings *)

Section Service.
Context {self : Store} {F : Framework}.
Context (TOKEN_FILE RECONCILIATION_TOKEN_FILE : string) (read_text : string → option string).
(** The client's address, and the content of its token file. *)
Context (client : Client.t) (token_raw : string).

Definition bearer (token : string) : option string := Some (String.append "Bearer " token).
(** Authorisation comes before the body. *)
Definition respond (method path token : string) (payload : option json) (s : Service) : Response * Service :=
  match route method path payload with
  | None => (mkResponse 404 (b_detail "Not Found"), s)
  | Some None =>
      (match require_auth TOKEN_FILE read_text (bearer token) with
       | Raise e => error_response e
       | Ok _ => mkResponse 422 (b_detail "request_validation_error")
       end, s)
  | Some (Some rq) => serve TOKEN_FILE RECONCILIATION_TOKEN_FILE read_text rq (bearer token) s
  end.
Definition pool_answers (o : PoolClient.op) (s : Service) : res (PoolClient.answer o) * Service :=
  match o with
  | PoolClient.read_token => (Ok token_raw, s)
  | send method url token payload =>
      let '(r, s') := respond method (remove_prefix (Client.base_url client) url) token payload s in
      (Ok (reply_of url r), s')
  | utc_now => let '(r, w) := now (world s) in (r, s <| world := w |>)
  end.

(** The request that the service is meant to see for a mutation. *)
Definition hold_lease (h : Hold.t) : LeaseMutation.t :=
  LeaseMutation.mk (Hold.worker_id h) (Hold.lease_token h) (Hold.correlation_id h) (Hold.lease_generation h)
    (Hold.attempt_id h).
Definition mutation_request (h : Hold.t) (x : Mutation) : Request :=
  let tid := Hold.task_id h in
  match x with
  | start => rq_start tid (hold_lease h)
  | submit_validation sha => rq_validation tid (hold_lease h) sha
  | complete => rq_complete tid (hold_lease h)
  | fail reason => rq_fail tid (hold_lease h) reason
  | block reason => rq_block tid (hold_lease h) reason
  end.
End Service.

(** A framework that decodes the declared members and nothing else. *)
Definition text_at (k : string) (v : json) : option string :=
  match member k v with JStr s => Some s | _ => None end.
Definition int_at (k : string) (v : json) : option Z := match member k v with JInt n => Some n | _ => None end.
Definition bool_at (k : string) (v : json) : option bool := match member k v with JBool b => Some b | _ => None end.
Definition strict_lease (v : json) : option LeaseMutation.t :=
  w ← text_at "worker_id" v; t ← text_at "lease_token" v; c ← text_at "correlation_id" v;
  Some (LeaseMutation.mk w t c (int_at "lease_generation" v) (text_at "attempt_id" v)).
#[export] Instance strict : Framework := {|
  lease_model := strict_lease;
  handoff_model v := p ← strict_lease v; s ← text_at "produced_sha" v; Some (p, s);
  failure_model v := p ← strict_lease v; s ← text_at "reason" v; Some (p, s);
  task_model v :=
    r ← text_at "repository" v; n ← int_at "issue_number" v; q ← text_at "request_id" v; c ← text_at "correlation_id" v;
    b ← text_at "base_sha" v;
    Some (TaskCreate.mk r n q c (default 100 (int_at "priority" v)) b (text_at "target_branch" v) (int_at "max_attempts" v)
      (default false (bool_at "fencing_required" v)));
  claim_model v :=
    w ← text_at "worker_id" v; c ← text_at "correlation_id" v; t ← text_at "task_id" v;
    Some (ClaimRequest.mk w c (int_at "lease_seconds" v), t);
  checkpoint_model v :=
    p ← strict_lease v; g ← int_at "lease_generation" v; a ← text_at "attempt_id" v; i ← text_at "checkpoint_id" v;
    n ← int_at "sequence" v; s ← text_at "stage" v; x ← text_at "next_action" v;
    e ← (t ← text_at "effect_state" v; effect_of_text t);
    Some (CheckpointRecord.mk (LeaseMutation.worker_id p) (LeaseMutation.lease_token p) (LeaseMutation.correlation_id p)
      g a i n s (text_at "artifact_kind" v) (text_at "artifact_ref" v) (text_at "artifact_sha256" v) x
      (text_at "effect_id" v) e (text_at "effect_result_ref" v)) |}.
#[export] Instance strict_laws : FrameworkLaws.
Proof.
  split.
  - by intros [? ? ? [] []].
  - by intros [? ? ? [] []] ?.
  - by intros [? ? ? [] []] ?.
  - by intros [? ? ? ? ? ? [] [] []].
Qed.
