(* ===== verification/PoolServiceProps.v ===== *)
(** The client against the service: the routes of the client reach the handlers
    they are meant for, its bearer token is accepted and its arguments satisfy
    the constraints of the payloads; a mutation that the service carries out is
    confirmed to the caller, and nothing else happens to the pool. *)
From Stdlib Require Import Ascii String QArith.
From stdpp Require Import strings list sets.
From S2P Require Import Prelude Prog PyStr Clock Json PyVal PyText Structured StructuredProps IssueDraft Manifest PoolClient PoolClientSpec.
From S2P Require Import Names Schema Store Claim LeaseOps Effects StoreRefine Scenario Work Controller Api ApiProps.
From S2P Require Import PoolService.

Local Open Scope string_scope.
Local Open Scope Z_scope.

(** ** Text *)

Lemma append_cons c s t : String c s ++ t = String c (s ++ t).
Proof. done. Qed.
Lemma append_nil t : "" ++ t = t.
Proof. done. Qed.
Lemma append_nil_r s : s ++ "" = s.
Proof. induction s as [|c s IH]; [done|]. by rewrite append_cons, IH. Qed.
Lemma remove_prefix_app p s : remove_prefix p (p ++ s) = s.
Proof.
  unfold remove_prefix. rewrite starts_with_app, chars_app, len_chars, drop_app_length. apply str_chars.
Qed.

(** Characters that a text does not have do not start an occurrence in it. *)
Definition lacks (c : ascii) (s : string) : bool := forallb (fun d => negb (Ascii.eqb c d)) (chars s).
Lemma contains_skip c p s t : lacks c s = true → contains (String c p) (s ++ t) = contains (String c p) t.
Proof.
  unfold lacks. induction s as [|d s IH]; cbn -[contains starts_with]; [done|].
  intros [Hd Hs]%andb_prop. apply negb_true_iff in Hd. rewrite <- IH, append_cons by done. cbn. by rewrite Hd.
Qed.

Lemma split_slash_nonempty l : split_slash l ≠ [].
Proof. destruct l as [|c l]; cbn; [done|]. destruct (Ascii.eqb c "/"); [done|]. by destruct (split_slash l). Qed.
Lemma split_slash_app l k :
  forallb (fun c => negb (Ascii.eqb "/" c)) l = true → split_slash (l ++ "/"%char :: k)%list = l :: split_slash k.
Proof.
  induction l as [|c l IH]; cbn [forallb split_slash app]; [done|]. intros [Hc Hl]%andb_prop.
  apply negb_true_iff in Hc. rewrite Ascii.eqb_sym in Hc. by rewrite Hc, IH.
Qed.
Lemma split_slash_one l : forallb (fun c => negb (Ascii.eqb "/" c)) l = true → split_slash l = [l].
Proof.
  induction l as [|c l IH]; cbn [forallb split_slash app]; [done|]. intros [Hc Hl]%andb_prop.
  apply negb_true_iff in Hc. rewrite Ascii.eqb_sym in Hc. by rewrite Hc, IH.
Qed.
Lemma segments_app s t : lacks "/" s = true → segments (s ++ String "/" t) = s :: segments t.
Proof.
  intros Hs. unfold segments. rewrite chars_app. change (chars (String "/" t)) with ("/"%char :: chars t).
  rewrite split_slash_app by done. cbn. by rewrite str_chars.
Qed.
Lemma segments_one s : lacks "/" s = true → segments s = [s].
Proof. intros Hs. unfold segments. rewrite split_slash_one by done. cbn. by rewrite str_chars. Qed.

(** ** Identifiers *)

Lemma head_tail_length p lo hi q s :
  fullmatch (Cat (Chr p) (Rep lo (Some hi) (Chr q))) s = true → (S lo ≤ len s ≤ S hi)%nat.
Proof.
  unfold fullmatch. rewrite fullmatch_list_correct, len_chars. inversion 1 as [| |r1 r2 s1 s2 H1 H2| | | |]; subst.
  inversion H1; subst. apply matches_class in H2 as (? & ? & _). cbn. lia.
Qed.
Lemma class_length lo hi q s : fullmatch (Rep lo (Some hi) (Chr q)) s = true → (lo ≤ len s ≤ hi)%nat.
Proof. unfold fullmatch. rewrite fullmatch_list_correct, matches_class, len_chars. lia. Qed.

Lemma length_in_of lo hi s : (lo ≤ len s ≤ hi)%nat → length_in lo hi s = true.
Proof. intros. unfold length_in. apply andb_true_intro. split; apply Nat.leb_le; lia. Qed.
Lemma name_id s : fullmatch NAME s = true → id_text s = true.
Proof. intros H%head_tail_length. apply length_in_of. lia. Qed.
Lemma correlation_id_text s : fullmatch CORRELATION s = true → id_text s = true.
Proof. intros H%head_tail_length. apply length_in_of. lia. Qed.
Lemma safe_id_text s : fullmatch SAFE_ID s = true → id_text s = true.
Proof. intros H%head_tail_length. apply length_in_of. lia. Qed.
Lemma sha_length s : fullmatch SHA40 s = true → length_in 40 40 s = true.
Proof. intros [H _]%fullmatch_times. apply length_in_of. lia. Qed.
Lemma reason_length s : fullmatch REASON s = true → valid_reason s = true.
Proof. intros H%class_length. apply length_in_of. lia. Qed.

(** A task id is a literal and a text without the characters of a path. *)
Lemma hex_lacks c l : hex_lower c = false → forallb hex_lower l = true → lacks c (str l) = true.
Proof.
  intros Hc Hl. unfold lacks. rewrite chars_str. rewrite forallb_forall in *. intros d Hd.
  destruct (Ascii.eqb_spec c d) as [->|]; [|done]. by rewrite (Hl _ Hd) in Hc.
Qed.
Lemma task_id_text tid :
  fullmatch Names.TASK_ID tid = true → ∃ h, tid = "cwp-" ++ h ∧ ∀ c, hex_lower c = false → lacks c h = true.
Proof.
  unfold fullmatch, Names.TASK_ID. rewrite fullmatch_list_correct. intros H.
  inversion H as [| |r1 r2 s1 s2 H1 H2 E1 E2| | | |]; subst. exists (str s2).
  apply matches_class in H2 as (_ & _ & Hh). split; [|intros c Hc; by apply hex_lacks].
  apply chars_inj. rewrite chars_app, chars_str, <- E2. f_equal.
  cbn in H1. repeat match goal with
    | H : matches (Cat _ _) _ |- _ => inversion H; clear H; subst
    | H : matches (Chr _) _ |- _ => inversion H; clear H; subst
    | H : matches Eps _ |- _ => inversion H; clear H; subst
    | H : Ascii.eqb _ _ = true |- _ => apply Ascii.eqb_eq in H; subst
    end. done.
Qed.

(** ** Paths *)

Lemma task_route tid suffix :
  fullmatch Names.TASK_ID tid = true →
  contains "//" suffix = false → contains "?" suffix = false → contains "#" suffix = false →
  (∀ m, bool_decide (m ∈ ["GET"; "POST"]) = true → route_ok m (task_path (tid ++ suffix)) = true) ∧
  lacks "/" tid = true ∧ nonempty tid = true.
Proof.
  intros (h & -> & Hh)%task_id_text H1 H2 H3.
  assert (∀ c p, hex_lower c = false → contains (String c p) suffix = false →
          contains (String c p) (h ++ suffix) = false) as Hc by (intros; by rewrite contains_skip by auto).
  split_and!; [|cbn; apply (Hh "/"%char eq_refl)|done].
  intros m Hm. unfold route_ok, task_path. rewrite Hm, !append_cons, !append_nil.
  cbn. rewrite !Hc by done. done.
Qed.

Lemma get_route_ok tid : fullmatch Names.TASK_ID tid = true → route_ok "GET" (task_path tid) = true.
Proof.
  intros H. destruct (task_route tid "" H) as [H' _]; [done..|]. specialize (H' "GET" eq_refl).
  by rewrite append_nil_r in H'.
Qed.

Section Routes.
Context {F : Framework} {HF : FrameworkLaws}.

Lemma segments_task tid rest :
  lacks "/" tid = true → segments (task_path (tid ++ String "/" rest)) = "" :: "v1" :: "tasks" :: tid :: segments rest.
Proof.
  intros H. unfold task_path. change ("/v1/tasks/" ++ ?x) with ("" ++ String "/" ("v1" ++ String "/" ("tasks" ++ String "/" x))).
  by rewrite !segments_app.
Qed.
Lemma route_get_task tid :
  fullmatch Names.TASK_ID tid = true → route "GET" (task_path tid) None = Some (Some (rq_get_task tid)).
Proof.
  intros H. destruct (task_route tid "" H) as (_ & Hl & Hn); [done..|].
  unfold route, task_path. change ("/v1/tasks/" ++ tid) with ("" ++ String "/" ("v1" ++ String "/" ("tasks" ++ String "/" tid))).
  rewrite !segments_app, segments_one by done. cbn. by rewrite Hn.
Qed.

(** The members that the client sends are those of the model. *)
Lemma hold_body_members h : fence_ok h = true →
  JObj ([("worker_id", JStr (Hold.worker_id h)); ("lease_token", JStr (Hold.lease_token h));
         ("correlation_id", JStr (Hold.correlation_id h))] ++
        match Hold.lease_generation h, Hold.attempt_id h with
        | Some g, Some a => [("lease_generation", JInt g); ("attempt_id", JStr a)]
        | _, _ => []
        end) = JObj (lease_members (hold_lease h)).
Proof. unfold fence_ok. by destruct h as [t w k c [g|] [a|]]. Qed.

Lemma segments_operation x : segments (operation x ++ "") = [operation x].
Proof. by destruct x. Qed.
Lemma route_mutation h x :
  fullmatch Names.TASK_ID (Hold.task_id h) = true → fence_ok h = true →
  route "POST" (mutation_path h x) (Some (hold_body h x)) = Some (Some (mutation_request h x)).
Proof.
  intros H Hf. destruct (task_route _ "" H) as (_ & Hl & Hn); [done..|].
  unfold mutation_path. rewrite !concat_text_cons. cbn [concat_text map flat_map].
  change ("/v1/tasks/" ++ ?y) with (task_path y). change ("/" ++ ?y) with (String "/" y).
  unfold route. rewrite segments_task by done.
  assert (hold_body h x = JObj (lease_members (hold_lease h) ++
    match x with submit_validation sha => [("produced_sha", JStr sha)] | fail r | block r => [("reason", JStr r)] | _ => [] end))
    as -> by (unfold hold_body; rewrite app_assoc; pose proof (hold_body_members h Hf) as [= ->]; done).
  change (concat_text []) with "". rewrite segments_operation.
  destruct x; cbn -[lease_members hold_lease]; rewrite Hn; cbn -[lease_members hold_lease];
    rewrite ?app_nil_r, ?lease_law, ?handoff_law, ?failure_law; done.
Qed.
Lemma mutation_route_ok h x :
  fullmatch Names.TASK_ID (Hold.task_id h) = true → route_ok "POST" (mutation_path h x) = true.
Proof.
  intros H. unfold mutation_path. rewrite !concat_text_cons.
  change ("/v1/tasks/" ++ ?y) with (task_path y).
  by destruct x; refine (proj1 (task_route _ _ H _ _ _) _ _).
Qed.
End Routes.

(** ** The token *)

Section Token.
Context {self : Store} (TOKEN_FILE : string) (read_text : string → option string).

Lemma token_of_ok raw tok :
  token_of raw = Ok tok → tok = strip raw ∧ (16 ≤ len tok)%nat ∧ forallb TOKEN_CHAR (chars tok) = true.
Proof.
  unfold token_of. destruct (_ && _); [|done]. cbn -[strip fullmatch forallb].
  destruct (forallb _ _); [|done]. cbn -[strip fullmatch forallb].
  destruct (fullmatch TOKEN_RE (strip raw)) eqn:E; [|done]. intros [= <-]. split; [done|].
  apply fullmatch_list_correct, matches_class in E as (H & _ & H'). by rewrite len_chars.
Qed.
Lemma token_ascii tok : forallb TOKEN_CHAR (chars tok) = true → is_ascii tok = true.
Proof.
  unfold is_ascii. rewrite !forallb_forall. intros H c Hc. specialize (H c Hc).
  unfold TOKEN_CHAR, in_range in H. apply andb_prop in H as [_ H%N.leb_le]. apply N.ltb_lt. lia.
Qed.

Lemma bearer_accepted raw tok :
  token_of raw = Ok tok → read_api_token TOKEN_FILE read_text = tok →
  require_auth TOKEN_FILE read_text (bearer tok) = Ok tt.
Proof.
  intros (Es & Hl & Hc)%token_of_ok E. unfold require_auth. rewrite E.
  assert (nonempty tok = true) as -> by (destruct tok; [cbn in Hl; lia|done]). cbn [negb].
  unfold check_bearer, bearer. rewrite remove_prefix_app, starts_with_app. cbn [nonempty String.eqb append negb andb].
  assert (strip tok = tok) as -> by (subst tok; apply strip_idem).
  unfold compare_digest. rewrite token_ascii by done. cbn. by rewrite bool_decide_eq_true_2.
Qed.
End Token.

(** ** Constraints *)

(** The checks that [mutate] makes of its arguments. *)
Definition mutation_ok (h : Hold.t) (x : Mutation) : bool :=
  fullmatch NAME (Hold.worker_id h) && fullmatch CORRELATION (Hold.correlation_id h) &&
  fullmatch Names.TASK_ID (Hold.task_id h) && token_size (Hold.lease_token h) &&
  match x with
  | submit_validation sha => fullmatch SHA40 sha
  | fail reason | block reason => fullmatch REASON reason
  | _ => true
  end && fence_ok h.
Lemma mutation_valid h x : mutation_ok h x = true → valid (mutation_request h x) = true.
Proof.
  unfold mutation_ok. intros [[[[[Hw%name_id Hc%correlation_id_text]%andb_prop _]%andb_prop Ht]%andb_prop Hx]%andb_prop Hf]%andb_prop.
  assert (valid_lease (hold_lease h) = true) as Hv.
  { unfold valid_lease, hold_lease. cbn -[id_text fullmatch length_in].
    change (length_in 16 128 (Hold.lease_token h)) with (token_size (Hold.lease_token h)). rewrite Hw, Hc, Ht.
    unfold fence_ok in Hf. destruct (Hold.lease_generation h) as [g|], (Hold.attempt_id h) as [a|]; try done.
    apply andb_prop in Hf as [-> Ha]. by rewrite Ha, safe_id_text. }
  destruct x; cbn [mutation_request valid]; rewrite Hv; cbn; rewrite ?sha_length, ?reason_length; done.
Qed.

(** ** Operations of the store *)

Section Rows.
Context {self : Store}.

Lemma set_task_found tid f w u w' row :
  (∀ t, Task.task_id (f t) = Task.task_id t) → find_task (db w) tid = Some row →
  set_task tid f w = (Ok u, w') → find_task (db w') tid = Some (f row).
Proof.
  intros Hid Hf H. unfold set_task in H. minv H. apply exec_count_ok in Hr as (d & Hu & ->). cbn.
  assert (∀ l, first (λ t, task_is tid t && true) l = first (task_is tid) l) as Eq.
  { intros l. unfold first. induction l as [|t l IH]; cbn; [done|]. by rewrite andb_true_r, IH. }
  unfold update_task in Hu. rewrite Eq in Hu. unfold find_task in Hf. rewrite Hf in Hu.
  destruct (fenced_claim_refused _ _); [done|]. destruct (index_check _ _); [|done]. injection Hu as <- <-.
  unfold find_task. cbn. rewrite <- (Eq (update_where _ _ _)), first_update, Eq, Hf; [done|].
  intros t. unfold task_is. by rewrite Hid.
Qed.

(** A row and the answer that shows it. *)
Lemma get_task_run tid w row : find_task (db w) tid = Some row → get_task tid w = (Ok row, w).
Proof. intros H. unfold get_task. rewrite bind_query, H. done. Qed.
Lemma get_task_ok tid w row w' : get_task tid w = (Ok row, w') → find_task (db w) tid = Some row ∧ w' = w.
Proof. unfold get_task. rewrite bind_query. by destruct (find_task _ _); [intros [= -> <-]|]. Qed.

(** The row after each operation. *)
Definition left_in (tid : string) (states : list TaskState) (m : M World Task.t) : Prop :=
  ∀ w row w', m w = (Ok row, w') → find_task (db w') tid = Some row ∧ Task.state row ∈ states.

Lemma left_in_read {A} tid states (m : M World A) :
  (∀ w a w', m w = (Ok a, w') → ∃ row, find_task (db w') tid = Some row ∧ Task.state row ∈ states) →
  left_in tid states (m ;; get_task tid).
Proof.
  intros Hm w row w' H. apply bind_ok in H as (a & w1 & H1 & H2). apply get_task_ok in H2 as [H2 ->].
  destruct (Hm _ _ _ H1) as (row' & Hf & Hs). by simplify_eq.
Qed.
Lemma guard_ok {A} c e (m : M World A) w a w' : (raise_if c e ;; m) w = (Ok a, w') → c = false ∧ m w = (Ok a, w').
Proof. intros H. apply bind_ok in H as (u & w1 & H1 & H2). apply raise_if_ok in H1 as [-> ->]. done. Qed.
End Rows.

(** The row that [check_lease] read, and the one that [set_task] leaves. *)
Ltac leaves :=
  match goal with Hs : set_task ?tid ?f ?w1 = (Ok _, _), Hl : lease_ok _ _ _ _ _ _ _ _ ?row |- _ =>
    eexists; split; [eapply (set_task_found tid f w1 _ _ row); [|exact (lo_row _ _ _ _ _ _ _ _ _ Hl)|exact Hs]; done|]
  end.
Ltac left_tac :=
  unfold left_in; apply left_in_read;
  let H := fresh in intros ? ? ? H; apply tx_ok in H; sinv H;
  repeat match goal with
  | H : check_lease _ _ _ _ _ _ _ = (Ok _, _) |- _ => apply check_lease_ok in H as [H ->]
  | H : require_resolved_effects _ _ = (Ok _, _) |- _ => apply resolved_ok in H as [_ ->]
  | H : end_attempt _ _ _ _ = (Ok _, _) |- _ => apply end_attempt_ok in H as ->
  end.

Section Operations.
Context {self : Store}.

Lemma start_left tid wid tok cid g a : left_in tid [running] (start_task tid wid tok cid g a).
Proof. left_tac. leaves. by left. Qed.
Lemma submit_left tid wid tok sha cid g a :
  left_in tid [validating] (submit_for_validation tid wid tok sha cid g a).
Proof.
  unfold submit_for_validation. cbv zeta. intros w row w' [_ H]%guard_ok. revert w row w' H.
  left_tac. leaves. by left.
Qed.
Lemma complete_left tid wid tok cid g a : left_in tid [completed] (complete_task tid wid tok cid g a).
Proof. left_tac. leaves. by left. Qed.
Lemma block_left tid wid tok cid reason g a : left_in tid [blocked] (block_task tid wid tok cid reason g a).
Proof.
  unfold block_task. cbv zeta. intros w row w' [_ H]%guard_ok. revert w row w' H. left_tac. leaves. by left.
Qed.
Lemma fail_left tid wid tok cid reason g a :
  left_in tid [queued; validating; failed] (fail_task tid wid tok cid reason g a).
Proof.
  unfold fail_task. cbv zeta. intros w row w' H. apply bind_ok in H as (stamp & w1 & _ & H). revert w1 row w' H.
  left_tac. match goal with H : (if ?c then _ else _) _ = _ |- _ => destruct c;
    [rewrite (bind_run _ _ _ _ _ (quarantine_row_run _ _ _ _)) in H|]; sinv H end; leaves; cbn.
  - apply list_elem_of_In. cbn. auto.
  - apply list_elem_of_In. unfold resume_state. destruct (truthy _); cbn; auto.
Qed.
End Operations.

(** ** The row that an answer shows *)

Lemma public_member k ms :
  k ≠ "lease_token" → k ≠ "fencing_required" → member k (JObj (public_task ms)) = member k (JObj ms).
Proof.
  intros H1 H2. unfold member, value_of, public_task, lookup_key. induction ms as [|[k' v] ms IH]; [done|].
  cbn -[String.eqb]. case_bool_decide as E1; cbn -[String.eqb].
  - subst k'. rewrite (proj2 (String.eqb_neq _ _)) by done. apply IH.
  - case_bool_decide as E2; cbn -[String.eqb].
    + subst k'. rewrite (proj2 (String.eqb_neq "fencing_required" k)) by done. apply IH.
    + destruct (String.eqb k' k); [done|apply IH].
Qed.
Lemma public_task_id row : member "task_id" (JObj (public row)) = JStr (Task.task_id row).
Proof. by apply public_member. Qed.
Lemma public_state row : member "state" (JObj (public row)) = JStr (state_text (Task.state row)).
Proof. by apply public_member. Qed.
Lemma public_produced row : member "produced_sha" (JObj (public row)) = opt_str (Task.produced_sha row).
Proof. by apply public_member. Qed.
Lemma known_state st : bool_decide (state_text st ∈ HTTP_TASK_STATES) = true.
Proof. by destruct st. Qed.
Lemma shape_of tid st ms :
  member "task_id" (JObj ms) = JStr tid → member "state" (JObj ms) = JStr (state_text st) → no_token ms →
  task_shape tid (JObj ms) = true.
Proof.
  intros H1 H2 H3. unfold task_shape, text_is. rewrite H1, H2. cbn [str_that absent_key].
  rewrite known_state, (proj2 (is_text_true _ _)) by done. by apply negb_true_iff, bool_decide_eq_false.
Qed.
Lemma public_shape row : task_shape (Task.task_id row) (JObj (public row)) = true.
Proof. eapply shape_of; [apply public_task_id|apply public_state|apply public_hides]. Qed.
Lemma public_same row : same_task (JObj (public row)) (JObj (public row)) = true.
Proof.
  unfold same_task. rewrite public_state, public_produced. cbn. rewrite String.eqb_refl.
  destruct (Task.produced_sha row); cbn; [apply String.eqb_refl|done].
Qed.

(** ** One request of the client *)

Section Exchange.
Context {self : Store} {F : Framework} {HF : FrameworkLaws}.
Context (TOKEN_FILE RECONCILIATION_TOKEN_FILE : string) (read_text : string → option string).
Context (client : Client.t) (token_raw tok : string).
Hypothesis token_read : token_of token_raw = Ok tok.
Hypothesis token_shared : read_api_token TOKEN_FILE read_text = tok.
Abbreviation serve := (serve TOKEN_FILE RECONCILIATION_TOKEN_FILE read_text).
Abbreviation respond := (respond TOKEN_FILE RECONCILIATION_TOKEN_FILE read_text).
Abbreviation outcome := (outcome (pool_answers TOKEN_FILE RECONCILIATION_TOKEN_FILE read_text client token_raw)).

Lemma outcome_insist b reason s : outcome (insist b reason) s = (need b reason, s).
Proof. apply outcome_of_res. Qed.
Lemma outcome_checked v tid s :
  outcome (checked_task v tid) s =
  (if task_shape tid v then Ok v else Raise (Manifest.blocked "worker_task_readback_invalid"), s).
Proof. unfold checked_task. rewrite outcome_bind, outcome_insist. by destruct (task_shape tid v). Qed.
Lemma outcome_token s : outcome client_token s = (Ok tok, s).
Proof. unfold client_token. rewrite outcome_bind, outcome_catch, outcome_call. cbn [pool_answers]. by rewrite outcome_of_res, token_read. Qed.
Lemma outcome_send method path token payload s :
  Prog.outcome (A:=Reply) (pool_answers TOKEN_FILE RECONCILIATION_TOKEN_FILE read_text client token_raw)
    (Prog.call (send method (Client.base_url client ++ path) token payload)) s =
  let '(r, s') := respond method path token payload s in (Ok (reply_of (Client.base_url client ++ path) r), s').
Proof.
  refine (eq_trans (outcome_call _ (send _ _ _ _) s) _). cbn [pool_answers]. by rewrite remove_prefix_app.
Qed.
Lemma outcome_request method path payload statuses s :
  route_ok method path = true →
  outcome (request client method path payload statuses false) s =
  let '(r, s') := respond method path tok (if String.eqb method "POST" then payload else None) s in
  let url := Client.base_url client ++ path in (accept_reply url statuses false (reply_of url r), s').
Proof.
  intros H. unfold request. rewrite outcome_bind, outcome_insist, H. cbn [need]. cbv zeta.
  rewrite outcome_bind, outcome_catch, outcome_bind, outcome_token. cbn beta iota.
  rewrite outcome_send. destruct (respond _ _ _ _ _) as [r s']. apply outcome_of_res.
Qed.

Lemma accept_reply_cases url statuses l r :
  (∃ code, accept_reply url statuses l r = Raise (Manifest.blocked code)) ∨
  ∃ v, content r = Some v ∧ accept_reply url statuses l r = Ok v.
Proof.
  unfold accept_reply.
  do 4 match goal with |- context [need ?c _] => destruct c; [cbn [need mbind res_bind]|left; eexists; reflexivity] end.
  destruct (content r) as [v|]; [|left; eexists; reflexivity].
  match goal with |- context [need ?c _] => destruct c; [right; by exists v|left; eexists; reflexivity] end.
Qed.
(** An answer that is read in full, and one that is refused. *)
Lemma accept_row url statuses row :
  200 ∈ statuses → body_size (b_task row) <= MAX_RESPONSE_BYTES →
  accept_reply url statuses false (reply_of url (mkResponse 200 (b_task row))) = Ok (JObj row).
Proof.
  intros H1 H2. unfold accept_reply, reply_of. cbn -[body_size String.eqb Z.leb bool_decide elem_of].
  rewrite !String.eqb_refl, bool_decide_eq_true_2 by done. cbn -[body_size Z.leb].
  apply Z.leb_le in H2. by rewrite H2.
Qed.

Lemma served rq s :
  authorize TOKEN_FILE RECONCILIATION_TOKEN_FILE read_text rq (bearer tok) = Ok tt → valid rq = true →
  serve rq (bearer tok) s =
  match handle TOKEN_FILE RECONCILIATION_TOKEN_FILE read_text rq s with
  | (Ok r, s') => (r, s') | (Raise e, s') => (error_response e, s') end.
Proof. intros H1 H2. unfold Api.serve. by rewrite H1, H2. Qed.

Lemma served_get_task tid s row :
  find_task (db (world s)) tid = Some row →
  serve (rq_get_task tid) (bearer tok) s = (mkResponse 200 (b_task (public row)), s).
Proof.
  intros H. rewrite served; [|by eapply bearer_accepted|done]. cbn [handle]. unfold get_task_request, mbind, M_bind, on_store.
  rewrite (get_task_run _ _ _ H). by destruct s.
Qed.
Lemma outcome_get_task tid s row :
  fullmatch Names.TASK_ID tid = true → find_task (db (world s)) tid = Some row →
  body_size (b_task (public row)) <= MAX_RESPONSE_BYTES →
  outcome (PoolClient.get_task client tid) s = (Ok (JObj (public row)), s).
Proof.
  intros H1 H2 H3. unfold PoolClient.get_task, check_id. rewrite outcome_bind, outcome_insist, H1. cbn [need].
  unfold get_json. rewrite outcome_bind, outcome_request by by apply get_route_ok.
  cbn [String.eqb]. unfold PoolService.respond. cbn -[route accept_reply reply_of].
  rewrite route_get_task, (served_get_task tid s row) by done. rewrite accept_row by (done || set_solver).
  unfold checked_task. rewrite outcome_bind, outcome_insist.
  apply find_task_in in H2 as [_ <-]. by rewrite public_shape.
Qed.

(** The states a mutation leaves its task in. *)
Definition lands (x : Mutation) : list TaskState :=
  match x with
  | PoolClient.start => [running] | submit_validation _ => [validating] | PoolClient.complete => [completed]
  | PoolClient.fail _ => [queued; validating; failed] | PoolClient.block _ => [blocked]
  end.

Lemma lease_call_left tid p ev op extra states s r s' :
  (∀ w k c g a, left_in tid states (op tid w k c g a)) →
  lease_call tid p ev op extra s = (Ok r, s') →
  ∃ row, r = mkResponse 200 (b_task (public row)) ∧ find_task (db (world s')) tid = Some row ∧ Task.state row ∈ states.
Proof.
  intros Hop H. unfold lease_call in H. apply bind_ok in H as (row & s1 & H1 & H).
  apply bind_ok in H as (u & s2 & H2 & H). injection H as <- <-. injection H2 as _ <-.
  unfold on_store in H1. destruct (op _ _ _ _ _ _ (world s)) as [x w] eqn:E. injection H1 as -> <-.
  exists row. cbn. by apply Hop in E.
Qed.
Lemma handled_mutation h x s r s' :
  handle TOKEN_FILE RECONCILIATION_TOKEN_FILE read_text (mutation_request h x) s = (Ok r, s') →
  ∃ row, r = mkResponse 200 (b_task (public row)) ∧
    find_task (db (world s')) (Hold.task_id h) = Some row ∧ Task.state row ∈ lands x.
Proof.
  destruct x; cbn [mutation_request handle lands]; apply lease_call_left; intros.
  - apply start_left.
  - apply submit_left.
  - apply complete_left.
  - apply fail_left.
  - apply block_left.
Qed.
Lemma authorized_mutation h x :
  authorize TOKEN_FILE RECONCILIATION_TOKEN_FILE read_text (mutation_request h x) (bearer tok) = Ok tt.
Proof. destruct x; by eapply bearer_accepted. Qed.

(** The client gets past its own checks. *)
Lemma outcome_mutation h x s : mutation_ok h x = true →
  outcome (mutate client h x) s =
  outcome (reply ← post_json client (mutation_path h x) (hold_body h x) [200];
           after ← checked_task reply (Hold.task_id h);
           insist (str_that (fun s => bool_decide (s ∈ expected_states x)) (member "state" after)) "worker_mutation_unverified" ;;
           independent ← PoolClient.get_task client (Hold.task_id h);
           insist (same_task after independent) "worker_mutation_readback_mismatch") s.
Proof.
  unfold mutation_ok. intros [[[[[Hw Hc]%andb_prop Hid]%andb_prop Ht]%andb_prop Hx]%andb_prop Hf]%andb_prop.
  unfold mutate, check_worker, check_id, mutation_args. rewrite Hw, Hc, Hid, Ht, Hf. by destruct x; rewrite ?Hx.
Qed.

Lemma detail_is_no_task tid m : task_shape tid (JObj [("detail", JStr m)]) = false.
Proof. done. Qed.
Lemma error_detail e : ∃ m, body (error_response e) = b_detail m.
Proof. destruct e; cbn; eauto. Qed.

(** C25: A mutation that the client reports as done was done, and one that it
    refuses changed nothing it was not asked to change: with the service's own
    token and arguments that pass its checks, the client ends with the pool as
    the one request leaves it; it returns only if the service answered with
    the row of the task, now in a state of the operation; and it raises if the
    service answered with an error or, in one case more, if a failure sent the
    task back to validation. *)
Theorem mutation_is_confirmed (h : Hold.t) (x : Mutation) (s s' : Service) (resp : Response) :
  mutation_ok h x = true →
  serve (mutation_request h x) (bearer tok) s = (resp, s') →
  body_size (body resp) <= MAX_RESPONSE_BYTES →
  ∃ r, outcome (mutate client h x) s = (r, s') ∧
  match r with
  | Ok _ => ∃ row, resp = mkResponse 200 (b_task (public row)) ∧
      find_task (db (world s')) (Hold.task_id h) = Some row ∧ state_text (Task.state row) ∈ expected_states x
  | Raise e => (∃ code, e = Manifest.blocked code) ∧
      ((∃ m, body resp = b_detail m) ∨
       ∃ reason row, x = PoolClient.fail reason ∧ resp = mkResponse 200 (b_task (public row)) ∧
         find_task (db (world s')) (Hold.task_id h) = Some row ∧ Task.state row = validating)
  end.
Proof.
  intros Hok Hs Hsize. rewrite outcome_mutation by done.
  assert (fullmatch Names.TASK_ID (Hold.task_id h) = true ∧ fence_ok h = true) as [Hid Hf].
  { unfold mutation_ok in Hok. apply andb_prop in Hok as [Hok Hf]. repeat apply andb_prop in Hok as [Hok ?]. done. }
  unfold post_json. rewrite outcome_bind, outcome_request by by apply mutation_route_ok.
  change (String.eqb "POST" "POST") with true. cbv iota.
  unfold PoolService.respond. rewrite route_mutation, Hs by done. cbv zeta.
  rewrite served in Hs by (apply authorized_mutation || by apply mutation_valid).
  destruct (handle _ _ _ _ _) as [[r|e] s1] eqn:Eh; injection Hs as <- <-.
  - apply handled_mutation in Eh as (row & -> & Hrow & Hst). cbn [body] in Hsize.
    rewrite accept_row by (done || by left). apply find_task_in in Hrow as Htid. destruct Htid as [_ Htid].
    rewrite outcome_bind, outcome_checked, <- Htid, public_shape. cbn beta iota.
    rewrite outcome_bind, outcome_insist, public_state. cbn [str_that].
    destruct (bool_decide (state_text (Task.state row) ∈ expected_states x)) eqn:Ex; cbn [Manifest.need].
    + rewrite outcome_bind, (outcome_get_task _ _ row) by congruence. cbn beta iota.
      rewrite outcome_insist, public_same. eexists. split; [reflexivity|]. cbn [Manifest.need].
      exists row. rewrite Htid. apply bool_decide_eq_true in Ex. done.
    + eexists. split; [reflexivity|]. cbn beta iota. split; [by eexists|]. right. rewrite Htid.
      assert (∃ reason, x = PoolClient.fail reason ∧ Task.state row = validating) as (reason & -> & Hv).
      { apply list_elem_of_In in Hst. destruct x; cbn in Hst; destruct_or! Hst; try done; rewrite <- Hst in Ex |- *;
          try discriminate Ex; by eexists. }
      by exists reason, row.
  - destruct (error_detail e) as [m Hm].
    assert (∃ code, ∀ k, match accept_reply (Client.base_url client ++ mutation_path h x) [200] false
        (reply_of (Client.base_url client ++ mutation_path h x) (error_response e)) with
      | Ok v => outcome (after ← checked_task v (Hold.task_id h); k after) s1 | Raise y => (Raise y, s1)
      end = (Raise (A:=unit) (Manifest.blocked code), s1)) as [code Hc].
    { destruct (accept_reply_cases (Client.base_url client ++ mutation_path h x) [200] false
        (reply_of (Client.base_url client ++ mutation_path h x) (error_response e))) as [[code ->]|(v & Hv & ->)]; [by exists code|].
      unfold reply_of in Hv. rewrite Hm in Hv. injection Hv as <-.
      eexists. intros k. rewrite outcome_bind, outcome_checked. done. }
    eexists. split; [apply Hc|]. cbn beta iota. split; [by eexists|]. left. by exists m.
Qed.
End Exchange.

(** ** A task on its way through the service *)

Definition pool_files (path : string) : option string :=
  if String.eqb path "api" then Some ("api-token-0123456789" ++ str [LF])
  else if String.eqb path "rec" then Some "rec-token-0123456789" else None.
Definition api_secret : string := "api-token-0123456789".
Definition pool_client : Client.t := Client.mk 8 "http://127.0.0.1:8080".
Definition pool_requests : list (Request * option string) :=
  map (fun rq => (rq, bearer api_secret)) [
    rq_register (WorkerRegistration.mk "builder-1" "host" builder NORMAL 50 None None true true None "corr-0001");
    rq_register (WorkerRegistration.mk "validator-1" "host" validator NORMAL 50 None None true true None "corr-0001");
    rq_configure (RepositoryLaneConfig.mk "acme/repo" true 1 "corr-0001");
    rq_enqueue (TaskCreate.mk "acme/repo" 12 "r1" "corr-0001" 100 demo_base None None false);
    rq_claim_exact demo_tid (ClaimRequest.mk "builder-1" "corr-0001" None);
    rq_start demo_tid (LeaseMutation.mk "builder-1" (@uuid4 http_store 0) "corr-0001" None None)].
Definition pool_running : Service := @serve_all http_store "api" "rec" pool_files pool_requests http_service.
Definition builder_hold : Hold.t := Hold.mk demo_tid "builder-1" (@uuid4 http_store 0) "corr-0001" None None.
Definition pool_call (h : Hold.t) (x : Mutation) (s : Service) : res unit * Service :=
  Prog.outcome (@pool_answers http_store _ "api" "rec" pool_files pool_client (default "" (pool_files "api")))
    (mutate pool_client h x) s.


Lemma mutation_is_confirmed_witness : ∃ r s',
  pool_call builder_hold (submit_validation demo_sha) pool_running = (r, s') ∧ r = Ok tt ∧
  ∃ row, find_task (db (world s')) demo_tid = Some row ∧ state_text (Task.state row) ∈ ["validating"].
Proof.
  destruct (@Api.serve http_store "api" "rec" pool_files
    (mutation_request builder_hold (submit_validation demo_sha)) (bearer api_secret) pool_running) as [resp s'] eqn:E.
  destruct (@mutation_is_confirmed http_store _ _ "api" "rec" pool_files pool_client (default "" (pool_files "api"))
    api_secret ltac:(vm_compute; reflexivity) ltac:(vm_compute; reflexivity) builder_hold (submit_validation demo_sha)
    pool_running s' resp ltac:(vm_compute; reflexivity) E) as (r & Hr & H).
  { apply Z.leb_le. transitivity (body_size (body (@Api.serve http_store "api" "rec" pool_files
      (mutation_request builder_hold (submit_validation demo_sha)) (bearer api_secret) pool_running).1) <=? MAX_RESPONSE_BYTES);
      [rewrite E; reflexivity|vm_compute; reflexivity]. }
  assert (r = Ok tt) as ->.
  { transitivity (pool_call builder_hold (submit_validation demo_sha) pool_running).1;
      [unfold pool_call; rewrite Hr; reflexivity|vm_compute; reflexivity]. }
  exists (Ok tt), s'. split; [unfold pool_call; exact Hr|]. split; [done|].
  destruct H as (row & _ & Hrow & Hst). exists row. split; [exact Hrow|exact Hst].
Defined.

(** A validator that fails a task with attempts left: the service sends the
    task back to validation and answers with its row, and the client reports
    the failure as unverified. *)
Definition pool_validated : Service :=
  @serve_all http_store "api" "rec" pool_files
    (map (fun rq => (rq, bearer api_secret)) [
       rq_validation demo_tid (hold_lease builder_hold) demo_sha;
       rq_claim_exact demo_tid (ClaimRequest.mk "validator-1" "corr-0001" None)]) pool_running.
Definition validator_hold : Hold.t := Hold.mk demo_tid "validator-1" (@uuid4 http_store 2) "corr-0001" None None.
Theorem validator_failure_is_unverified :
  let '(r, s') := pool_call validator_hold (PoolClient.fail "tests_failed") pool_validated in
  r = Raise (Manifest.blocked "worker_mutation_unverified") ∧
  (Task.state <$> find_task (db (world s')) demo_tid) = Some validating ∧
  (Task.leased_by <$> find_task (db (world s')) demo_tid) = Some None ∧
  (Task.last_error <$> find_task (db (world s')) demo_tid) = Some (Some "tests_failed").
Proof. vm_compute. repeat split. Qed.

(** ** Any server *)

(** Whatever answers the client gets, a call makes at most one [POST], the
    one of the call, and never repeats it; every request carries the token
    just read from its file; and a call that returns has read back, after its
    [POST], what it returns: the task in a state of the operation, the
    checkpoint with every member that was sent, the lease with an instant of
    expiry ahead of the clock, the admitted issue. *)
Theorem client_posts_once (client : Client.t) (c : Call) (t : list (Prog.event (answer:=PoolClient.answer)))
    (x : res json) :
  runs (run_call client c) t x →
  accepts (allowed client c) (next c) nothing t = true ∧
  ∀ v, x = Ok v → confirmed client c (reached (next c) nothing t) v.
Proof. exact (safe_runs (allowed client c) (next c) _ _ _ t x (safe_calls client c nothing eq_refl)). Qed.

Definition submit_call : Call := c_mutate builder_hold (submit_validation demo_sha).
Definition submit_run : list (Prog.event (answer:=PoolClient.answer)) * (res json * Service) :=
  execute (@pool_answers http_store _ "api" "rec" pool_files pool_client (default "" (pool_files "api")))
    (run_call pool_client submit_call) pool_running.
Lemma client_posts_once_witness :
  length submit_run.1 = 4%nat ∧ accepts (allowed pool_client submit_call) (next submit_call) nothing submit_run.1 = true ∧
  confirmed pool_client submit_call (reached (next submit_call) nothing submit_run.1) JNull.
Proof.
  split; [vm_compute; reflexivity|].
  destruct (client_posts_once pool_client submit_call submit_run.1 submit_run.2.1) as [Ha Hc].
  { unfold submit_run. apply execute_runs. }
  split; [exact Ha|]. apply Hc. vm_compute. reflexivity.
Defined.
