(* ===== verification/PyUrl.v ===== *)
(** URLs and the other texts of the language's library that the bridge reads:
    [quote], [urlparse] with the fields of its result, [str] and [repr] of a
    JSON value, and [uuid.UUID]. *)
From S2P Require Import Prelude PyStr Json PyText.
From Stdlib Require Import Ascii String.
From stdpp Require Import strings.

Local Open Scope Z_scope.

(** ** [urllib.parse.quote] *)

Definition hex_upper_digit (n : N) : ascii := chr (if (n <? 10)%N then 48 + n else 55 + n)%N.
Definition always_safe : ascii → bool := either alnum (one_of "_.-~").
Definition quote_byte (safe : ascii → bool) (c : ascii) : list ascii :=
  if always_safe c || safe c then [c] else ["%"%char; hex_upper_digit (code c / 16)%N; hex_upper_digit (code c mod 16)%N].
(** [quote(s, safe)] and [quote(s)] *)
Definition quote_with (safe : string) (s : string) : string :=
  str (flat_map (quote_byte (fun c => (code c <? 128)%N && one_of safe c)) (chars (utf8_encode s))).
Definition quote_path : string → string := quote_with "/".

(** ** [urllib.parse.urlparse] *)

Module Url.
Record t := mk { scheme : string; netloc : string; path : string; params : string; query : string; fragment : string }.
End Url.

Definition c0_or_space (c : ascii) : bool := (code c <=? 32)%N.
Definition scheme_char : ascii → bool := either alnum (one_of "+-.").
Definition is_alpha : ascii → bool := either is_lower is_upper.
(** The text before the first character of a class, and from it on. *)
Definition cut (p : ascii → bool) (l : list ascii) : list ascii * list ascii :=
  (fix go (l : list ascii) : list ascii * list ascii :=
     match l with
     | [] => ([], [])
     | c :: l' => if p c then ([], l) else let '(a, b) := go l' in (c :: a, b)
     end) l.
(** [s.partition(c)]: before, whether it occurs, after. *)
Definition partition (c : ascii) (l : list ascii) : list ascii * bool * list ascii :=
  let '(a, b) := cut (Ascii.eqb c) l in (a, match b with [] => false | _ => true end, tail b).
(** [s.rpartition(c)] *)
Definition rpartition (c : ascii) (l : list ascii) : list ascii * bool * list ascii :=
  let '(a, b) := cut (Ascii.eqb c) (rev l) in
  match b with [] => ([], false, l) | _ => (rev (tail b), true, rev a) end.

Definition split_scheme (l : list ascii) : string * list ascii :=
  let '(s, found, rest) := partition ":" l in
  match s with
  | c :: _ => if found && is_alpha c && forallb scheme_char s then (lower (str s), rest) else (""%string, l)
  | [] => (""%string, l)
  end.
Definition uses_params : list string :=
  [""; "ftp"; "hdl"; "prospero"; "http"; "https"; "shttp"; "rtsp"; "rtsps"; "sip"; "sips"; "mms"; "sftp"; "tel"]%string.
(** [_splitparams] *)
Definition split_params (l : list ascii) : list ascii * list ascii :=
  let '(dir, found, last) := rpartition "/" l in
  let '(a, semi, b) := partition ";" last in
  if semi then ((if found then dir ++ "/"%char :: a else a), b) else (l, []).

Section Urls.
(** [_check_bracketed_host]: an address of version 6, or of the future. *)
Context (bracketed_host : string → bool).

Definition check_netloc (n : list ascii) : res unit :=
  let opens := one_of (str n) "[" in let closes := one_of (str n) "]" in
  if xorb opens closes then Raise (ValueError "Invalid IPv6 URL")
  else if opens && negb (bracketed_host (str (let '(_, _, b) := partition "[" n in let '(h, _, _) := partition "]" b in h)))
  then Raise (ValueError "Invalid IPv6 URL") else Ok tt.
(** [urlsplit], whose path keeps the parameters, and [urlparse]. *)
Definition urlsplit (text : string) : res Url.t :=
  let l := List.filter (fun c => negb (one_of (str [chr 9; chr 13; chr 10]) c)) (drop_while c0_or_space (chars text)) in
  let '(scheme, l) := split_scheme l in
  let '(netloc, l) := match l with
                      | "/"%char :: "/"%char :: rest => cut (one_of "/?#") rest
                      | _ => ([], l)
                      end in
  check_netloc netloc ;;
  let '(l, _, fragment) := partition "#" l in
  let '(path, _, query) := partition "?" l in
  Ok (Url.mk scheme (str netloc) (str path) "" (str query) (str fragment)).
Definition urlparse (text : string) : res Url.t :=
  u ← urlsplit text;
  let l := chars (Url.path u) in
  let '(path, params) := if bool_decide (Url.scheme u ∈ uses_params) then split_params l else (l, []) in
  Ok (Url.mk (Url.scheme u) (Url.netloc u) (str path) (str params) (Url.query u) (Url.fragment u)).
End Urls.

(** [username], [password], [hostname] and [port] *)
Definition userinfo (u : Url.t) : option string :=
  let '(user, found, _) := rpartition "@" (chars (Url.netloc u)) in if (found : bool) then Some (str user) else None.
Definition username (u : Url.t) : option string :=
  i ← userinfo u; let '(a, _, _) := partition ":" (chars i) in Some (str a).
Definition password (u : Url.t) : option string :=
  i ← userinfo u; let '(_, found, b) := partition ":" (chars i) in if (found : bool) then Some (str b) else None.
Definition hostinfo (u : Url.t) : list ascii * list ascii :=
  let '(_, _, h) := rpartition "@" (chars (Url.netloc u)) in
  let '(_, opens, inside) := partition "[" h in
  if (opens : bool) then
    let '(host, _, rest) := partition "]" inside in let '(_, _, port) := partition ":" rest in (host, port)
  else let '(host, _, port) := partition ":" h in (host, port).
Definition hostname (u : Url.t) : option string :=
  match (hostinfo u).1 with
  | [] => None
  | h => let '(name, found, zone) := partition "%" h in
         Some (str (map lower_char name ++ (if (found : bool) then ["%"%char] else []) ++ zone))
  end.
Definition decimal (l : list ascii) : Z := fold_left (fun n c => 10 * n + Z.of_N (code c - 48)) l 0.
Definition port (u : Url.t) : res (option Z) :=
  match (hostinfo u).2 with
  | [] => Ok None
  | p => if negb (forallb is_digit p) then Raise (ValueError "Port could not be cast to integer value")
         else if decimal p <=? 65535 then Ok (Some (decimal p)) else Raise (ValueError "Port out of range 0-65535")
  end.

(** ** [str] and [repr] *)

Definition printable (c : ascii) : bool :=
  let n := code c in negb ((n <? 32)%N || ((127 <=? n) && (n <=? 160))%N || (n =? 173)%N).
Definition repr_char (delimiter : ascii) (c : ascii) : list ascii :=
  if Ascii.eqb c delimiter || Ascii.eqb c backslash then [backslash; c]
  else if Ascii.eqb c (chr 9) then [backslash; "t"%char]
  else if Ascii.eqb c (chr 10) then [backslash; "n"%char]
  else if Ascii.eqb c (chr 13) then [backslash; "r"%char]
  else if printable c then [c]
  else [backslash; "x"%char; hex_lower_digit (code c / 16)%N; hex_lower_digit (code c mod 16)%N].
Definition repr_str (s : string) : list ascii :=
  let d := if one_of s (chr 39) && negb (one_of s quote) then quote else chr 39 in
  d :: flat_map (repr_char d) (chars s) ++ [d].
Fixpoint repr_list (v : json) : list ascii :=
  match v with
  | JNull => chars "None"
  | JBool b => chars (if b then "True" else "False")
  | JInt n => chars (int_text n)
  | JStr s => repr_str s
  | JList l =>
      "["%char ::
      (fix go (l : list json) : list ascii :=
         match l with
         | [] => ["]"%char]
         | [x] => repr_list x ++ ["]"%char]
         | x :: l' => repr_list x ++ chars ", " ++ go l'
         end) l
  | JObj ms =>
      "{"%char ::
      (fix go (ms : list (string * json)) : list ascii :=
         match ms with
         | [] => ["}"%char]
         | [(k, x)] => repr_str k ++ chars ": " ++ repr_list x ++ ["}"%char]
         | (k, x) :: ms' => repr_str k ++ chars ": " ++ repr_list x ++ chars ", " ++ go ms'
         end) ms
  end.
(** [str(v)] *)
Definition str_of (v : json) : string := match v with JStr s => s | _ => str (repr_list v) end.

(** ** [uuid.UUID] *)

(** [s.replace(p, "")] for a text [p] that is not empty. *)
Fixpoint remove_all (fuel : nat) (p : list ascii) (l : list ascii) : list ascii :=
  match fuel, l with
  | S fuel', c :: l' =>
      if starts_with (str p) (str l) then remove_all fuel' p (drop (length p) l) else c :: remove_all fuel' p l'
  | _, _ => l
  end.
Definition text_without (p : string) (l : list ascii) : list ascii := remove_all (length l) (chars p) l.
Definition strip_class (p : ascii → bool) (l : list ascii) : list ascii := rev (drop_while p (rev (drop_while p l))).
(** The blanks of [int(s, 16)]. *)
Definition int_space (c : ascii) : bool :=
  let n := code c in ((9 <=? n) && (n <=? 13))%N || (n =? 32)%N || (n =? 133)%N || (n =? 160)%N.
Definition hex_value (c : ascii) : option Z :=
  let n := Z.of_N (code c) in
  if (48 <=? n) && (n <=? 57) then Some (n - 48)
  else if (97 <=? n) && (n <=? 102) then Some (n - 87)
  else if (65 <=? n) && (n <=? 70) then Some (n - 55) else None.
(** Digits, with single underscores between them. *)
Fixpoint hex_digits (acc : Z) (l : list ascii) : option Z :=
  match l with
  | [] => Some acc
  | c :: l' =>
      match hex_value c with
      | Some d => hex_digits (16 * acc + d) l'
      | None =>
          if Ascii.eqb c "_" then
            match l' with
            | c' :: l'' => d ← hex_value c'; hex_digits (16 * acc + d) l''
            | [] => None
            end
          else None
      end
  end.
(** [int(s, 16)] *)
Definition int16 (l : list ascii) : option Z :=
  let l := strip_class int_space l in
  let '(negative, l) := match l with
                        | "-"%char :: l' => (true, l') | "+"%char :: l' => (false, l') | _ => (false, l)
                        end in
  let l := match l with
           | "0"%char :: x :: l' => if one_of "xX" x then match l' with "_"%char :: l'' => l'' | _ => l' end else l
           | _ => l
           end in
  match l with
  | c :: l' => d ← hex_value c; n ← hex_digits d l'; Some (if negative then - n else n)
  | [] => None
  end.
Fixpoint hex_text (w : nat) (n : Z) : list ascii :=
  match w with
  | O => []
  | S w' => hex_lower_digit (Z.to_N (n / 16 ^ Z.of_nat w')) :: hex_text w' (n mod 16 ^ Z.of_nat w')
  end.
(** [str(uuid.UUID(s))] *)
Definition uuid_of (s : string) : res string :=
  let l := text_without "-" (strip_class (one_of "{}") (text_without "uuid:" (text_without "urn:" (chars s)))) in
  if negb (length l =? 32)%nat then Raise (ValueError "badly formed hexadecimal UUID string") else
  match int16 l with
  | None => Raise (ValueError "invalid literal for int() with base 16")
  | Some n =>
      if n <? 0 then Raise (ValueError "int is out of range (need a 128-bit value)") else
      let h := hex_text 32 n in
      let part i k := str (take k (drop i h)) in
      Ok (concat_text [part 0 8; "-"; part 8 4; "-"; part 12 4; "-"; part 16 4; "-"; part 20 12])%nat%string
  end.

Example urlparse_examples :
  map (fun t => u ← urlparse (fun _ => true) t; p ← port u; Ok (Url.scheme u, hostname u, p, Url.path u, Url.params u, username u))
    ["http://127.0.0.1:8080/"; "HTTP://user:pw@LocalHost:80/a;x?q#f"; "http://localhost:99999"; "http://[::1"]%string
  = [Ok ("http", Some "127.0.0.1", Some 8080, "/", "", None); Ok ("http", Some "localhost", Some 80, "/a", "x", Some "user");
     Raise (ValueError "Port out of range 0-65535"); Raise (ValueError "Invalid IPv6 URL")]%string.
Proof. vm_compute. reflexivity. Qed.
Example uuid_examples :
  map uuid_of ["{3F34C12B-ae7c-8155-9d28-f4d51040deda}"; "urn:uuid:663a8805d9a648dc92a0308d7a9e87ac"; "663a"]%string
  = [Ok "3f34c12b-ae7c-8155-9d28-f4d51040deda"; Ok "663a8805-d9a6-48dc-92a0-308d7a9e87ac";
     Raise (ValueError "badly formed hexadecimal UUID string")]%string.
Proof. vm_compute. reflexivity. Qed.
