(* ===== verification/Portfolio.v ===== *)
(** The bridge from a portfolio to the pool: the admission of an entry,
    [app/portfolio_todo.py], and the run over one page of Notion, its issue on
    GitHub and the lane of the pool, [app/portfolio_bridge.py].

    A run is a program over the requests of its transport, whose answers are
    arbitrary, the files of its tokens and the clock. *)
From Stdlib Require Import Ascii String.
From stdpp Require Import strings list.
From S2P Require Import Prelude Prog PyStr Sha256 Clock Json PyVal PyText PyAst PyUrl IsoDate Names Structured IssueDraft Manifest.

Local Open Scope string_scope.
Local Open Scope Z_scope.

(** ** Admission of an entry *)

Definition TODO_SHA : re := times 40 hex_any.
Definition TODO_REPO : re :=
  Cat (Rep 1 None (Chr repo_char)) (Cat (lit "/") (Rep 1 None (Chr repo_char))).
Definition PRIORITY : list (string * Z) := [("P0", 0); ("P1", 10); ("P2", 20); ("P3", 30)].
Definition TYPES : list string := [u8 "Implementação"; u8 "Correção"; u8 "Validação"; u8 "Automação"].
(** [AdmissionRejected(reason)] and [_require] *)
Definition not_admitted (reason : string) : exn := Error "AdmissionRejected" reason.
Definition admit_if (ok : bool) (reason : string) : res unit := if ok then Ok tt else Raise (not_admitted reason).
(** [_string] *)
Definition string_at (k : string) (data : json) : string :=
  match member k data with JStr s => strip s | _ => "" end.
Definition observed_at (value : string) : res datetime :=
  parsed ← match fromisoformat (zulu value) with
           | Raise e => Raise (if value_failure e then not_admitted "github_observation_invalid" else e)
           | r => r
           end;
  admit_if (aware parsed) "github_observation_timezone_missing" ;;
  astimezone_utc parsed.
Definition web_repository (repository : string) : string := String.append "https://github.com/" repository.
Definition web_issue (repository : string) (number : Z) : string :=
  concat_text [web_repository repository; "/issues/"; int_text number].
Definition external_id (repository : string) (number : Z) : string :=
  concat_text ["github:"; repository; "#"; int_text number].

Definition prepare_portfolio_task (todo github_issue : json) (now : DateTime) : res json :=
  admit_if (aware now) "now_timezone_missing" ;;
  now_utc ← astimezone_utc now;
  admit_if (String.eqb (string_at "Fonte" todo) "GitHub") "source_not_github" ;;
  admit_if (String.eqb (string_at "Status" todo) "PENDENTE") "todo_not_pending" ;;
  admit_if (bool_decide (string_at "Tipo" todo ∈ TYPES)) "todo_type_not_executable" ;;
  match lookup_key (string_at "Prioridade" todo) PRIORITY with
  | None => Raise (not_admitted "todo_priority_invalid")
  | Some priority =>
      let repository := string_at "repository" github_issue in
      admit_if (fullmatch TODO_REPO repository) "github_repository_invalid" ;;
      admit_if (positive (member "issue_number" github_issue)) "github_issue_number_invalid" ;;
      let issue_number := int_value (member "issue_number" github_issue) in
      admit_if (String.eqb (string_at "state" github_issue) "open") "github_issue_not_open" ;;
      admit_if (bool_decide (member "is_pull_request" github_issue = JBool false)) "github_pull_request_not_issue" ;;
      admit_if (String.eqb (string_at "issue_url" github_issue) (web_issue repository issue_number)) "github_issue_url_mismatch" ;;
      admit_if (bool_decide (string_at "Origem URL" todo ∈ [web_repository repository; web_issue repository issue_number]))
        "todo_origin_repository_mismatch" ;;
      admit_if (String.eqb (string_at "Identificador externo" todo) (external_id repository issue_number))
        "todo_external_issue_id_mismatch" ;;
      let branch := string_at "default_branch" github_issue in
      admit_if (nonempty branch && String.eqb (string_at "verified_ref" github_issue) branch)
        "github_default_branch_not_verified" ;;
      let main_sha := string_at "verified_head_sha" github_issue in
      let base_sha := string_at "base_sha" github_issue in
      admit_if (fullmatch TODO_SHA base_sha && fullmatch TODO_SHA main_sha) "github_sha_invalid" ;;
      admit_if (String.eqb (lower base_sha) (lower main_sha)) "github_head_mismatch" ;;
      observed ← observed_at (string_at "observed_at" github_issue);
      let elapsed := now_utc - observed in
      admit_if ((0 <=? elapsed) && (elapsed <=? FIVE_MINUTES)) "github_observation_stale_or_future" ;;
      let correlation_id := string_at "Correlation ID" todo in
      let logical_key := string_at (u8 "Chave de idempotência") todo in
      admit_if ((0 <? len correlation_id)%nat && (len correlation_id <=? 128)%nat) "todo_correlation_invalid" ;;
      admit_if ((0 <? len logical_key)%nat && (len logical_key <=? 512)%nat) "todo_idempotency_key_invalid" ;;
      Ok (JObj [("repository", JStr repository); ("issue_number", JInt issue_number);
                ("request_id", JStr (String.append "todo-" (sha256_of logical_key)));
                ("correlation_id", JStr correlation_id); ("priority", JInt priority);
                ("base_sha", JStr (lower base_sha))])
  end.

(** ** The transport *)

Definition NOTION_VERSION : string := "2025-09-03".
Definition GITHUB_API : string := "https://api.github.com".
Definition NOTION_API : string := "https://api.notion.com".
Definition BRIDGE_RESPONSE_BYTES : Z := 262144.
(** [BridgeRejected(reason)] and [_require] *)
Definition bridge_rejected (reason : string) : exn := Error "BridgeRejected" reason.

(** What an opened URL gives: the status, the size read and the JSON value,
    if it is one. *)
Record Opened := mkOpened { page_status : Z; page_size : Z; page_json : option json }.
Inductive op : Type :=
  | open_url (url method : string) (headers : list (string * string)) (data : option json)
  | utc_now
  | read_file (path : string).
Definition answer (o : op) : Type :=
  match o with open_url _ _ _ _ => Opened | utc_now => Z | read_file _ => string end.
Abbreviation P := (prog answer).
Definition bridge (ok : bool) (reason : string) : P unit := if ok then mret tt else throw (bridge_rejected reason).

(** [except HTTPError], [except (URLError, OSError, ValueError)] *)
Definition http_code (e : exn) : option string :=
  match e with Error cls code => if String.eqb cls "HTTPError" then Some code else None | _ => None end.
Definition unavailable (e : exn) : bool :=
  is_a "URLError" e || is_a "OSError" e || value_failure e || is_a "BridgeRejected" e || is_a "AdmissionRejected" e.

(** The arguments of [run_page]; [now] is the instant of an aware UTC one. *)
Module Page.
Record t := mk {
  page_id : string; data_source_id : string; notion_token : string; github_token : string; worker_token : string;
  worker_url : string; execute : bool; environment : string; now : option datetime }.
End Page.

Section Bridge.
Context (bracketed_host : string → bool).

Definition text_eqb (o : option string) (l : list string) : bool :=
  match o with Some s => bool_decide (s ∈ l) | None => false end.
Definition LOOPBACK : list string := ["127.0.0.1"; "localhost"].
(** The origin that a service may be asked at; the port of another one is not
    looked at. *)
Definition allowed_origin (service : string) (u : Url.t) : res bool :=
  if String.eqb service "notion" && String.eqb (Url.scheme u) "https" && String.eqb (Url.netloc u) "api.notion.com" then Ok true
  else if String.eqb service "github" && String.eqb (Url.scheme u) "https" && String.eqb (Url.netloc u) "api.github.com" then Ok true
  else if String.eqb service "worker" && String.eqb (Url.scheme u) "http" && text_eqb (hostname u) LOOPBACK then
    p ← port u; Ok (match p with Some _ => true | None => false end)
  else Ok false.
Definition headers_for (service token : string) (has_data : bool) : list (string * string) :=
  ([("Authorization", String.append "Bearer " token);
    ("Accept", if String.eqb service "github" then "application/vnd.github+json" else "application/json")] ++
   (if String.eqb service "notion" then [("Notion-Version", NOTION_VERSION)] else []) ++
   (if String.eqb service "github" then [("X-GitHub-Api-Version", "2022-11-28")] else []) ++
   (if has_data then [("Content-Type", "application/json")] else []))%list.
(** [JsonTransport.request] *)
Definition ask (service method url token : string) (data : option json) : P (Z * json) :=
  parsed ← of_res (urlparse bracketed_host url);
  origin ← of_res (allowed_origin service parsed);
  bridge origin "endpoint_not_allowed" ;;
  bridge (bool_decide (method ∈ ["GET"; "POST"])) "method_not_allowed" ;;
  catch (page ← call (open_url url method (headers_for service token (match data with Some _ => true | None => false end)) data);
         bridge (page_size page <=? BRIDGE_RESPONSE_BYTES) "oversized_response" ;;
         match page_json page with
         | Some v => mret (page_status page, v)
         | None => throw (ValueError "Expecting value")
         end)
    (fun e => match http_code e with
              | Some code => throw (bridge_rejected (concat_text [service; "_http_"; code]))
              | None => if unavailable e then throw (bridge_rejected (String.append service "_unavailable_or_invalid_json"))
                        else throw e
              end).

(** ** The page *)

(** [for v in x] *)
Definition iterate (x : json) : res (list json) :=
  match x with
  | JList l => Ok l
  | JStr s => Ok (map (fun c => JStr (str [c])) (chars s))
  | JObj ms => Ok (map JStr (keys ms))
  | _ => Raise (TypeError "object is not iterable")
  end.
(** [(v.get(k) or {}).get(k')] of an object [v] *)
Definition get_in (k k' : string) (v : json) : res json := get k' (or_else (member k v) (JObj [])).
Definition fragment_text (v : json) : res string :=
  x ← (let p := member "plain_text" v in if truth p then Ok p else c ← get_in "text" "content" v; Ok (or_else c (JStr "")));
  Ok (str_of x).
Fixpoint fragments (l : list json) : res (list string) :=
  match l with
  | [] => Ok []
  | v :: l' => if is_dict v then t ← fragment_text v; ts ← fragments l'; Ok (t :: ts) else fragments l'
  end.
(** [_property] *)
Definition property_of (properties : list (string * json)) (name : string) : res string :=
  let data := or_else (member name (JObj properties)) (JObj []) in
  if negb (is_dict data) then Ok ""
  else if text_is "type" "select" data then
    n ← get_in "select" "name" data; Ok (strip (str_of (or_else n (JStr ""))))
  else if text_is "type" "url" data then Ok (strip (str_of (or_else (member "url" data) (JStr ""))))
  else if text_is "type" "rich_text" data then
    items ← iterate (match value_of "rich_text" data with Some v => v | None => JList [] end);
    ts ← fragments items; Ok (strip (concat_text ts))
  else Ok "".

Definition FIELDS : list string :=
  ["Fonte"; "Status"; "Tipo"; "Prioridade"; "Origem URL"; "Identificador externo"; u8 "Chave de idempotência"; "Correlation ID"].
Fixpoint read_fields (properties : list (string * json)) (fields : list string) : res (list (string * json)) :=
  match fields with
  | [] => Ok []
  | k :: fields' => s ← property_of properties k; rest ← read_fields properties fields'; Ok ((k, JStr s) :: rest)
  end.
Definition without_dashes (s : string) : string := lower (str (text_without "-" (chars s))).
Definition bridge_if (ok : bool) (reason : string) : res unit := if ok then Ok tt else Raise (bridge_rejected reason).
(** [_validated_notion_page] *)
Definition validated_page (page : json) (data_source_id : string) : res json :=
  bridge_if (is_dict page && text_is "object" "page" page) "notion_page_invalid" ;;
  let parent := or_else (member "parent" page) (JObj []) in
  bridge_if (is_dict parent && text_is "type" "data_source_id" parent &&
             str_that (fun s => String.eqb (without_dashes s) (without_dashes data_source_id)) (member "data_source_id" parent))
    "notion_source_mismatch" ;;
  match member "properties" page with
  | JObj properties => fields ← read_fields properties FIELDS; Ok (JObj fields)
  | _ => Raise (bridge_rejected "notion_properties_invalid")
  end.
(** The checks of [_read_notion] on the page it got. *)
Definition accepted_page (page_id data_source_id : string) (page : json) : res json :=
  bridge_if (is_dict page) "notion_page_invalid" ;;
  returned_id ← match (match value_of "id" page with Some v => v | None => JStr "" end) with
                | JStr s => match uuid_of s with Ok i => Ok i | Raise _ => Raise (bridge_rejected "notion_page_id_invalid") end
                | _ => Raise (bridge_rejected "notion_page_id_invalid")
                end;
  bridge_if (String.eqb returned_id page_id) "notion_page_id_mismatch" ;;
  bridge_if (bool_decide (member "archived" page = JBool false) && bool_decide (member "in_trash" page = JBool false))
    "notion_page_not_active" ;;
  validated_page page data_source_id.

(** [_get] *)
Definition get_from (service url token : string) : P json :=
  '(status, data) ← ask service "GET" url token None;
  bridge (status =? 200) (String.append service "_get_failed") ;;
  mret data.
Definition page_url (page_id : string) : string := concat_text [NOTION_API; "/v1/pages/"; page_id].
Definition read_notion (page_id data_source_id token : string) : P json :=
  page ← get_from "notion" (page_url page_id) token;
  of_res (accepted_page page_id data_source_id page).

(** ** The issue *)

Definition EXTERNAL_ID : re :=
  Cat (lit "github:") (Cat (Cat (Rep 1 None (Chr repo_char)) (Cat (lit "/") (Rep 1 None (Chr repo_char))))
    (Cat (lit "#") (Cat (Chr (in_range 49 57)) (Rep 0 None (Chr is_digit))))).
(** The groups of a match: the repository and the digits of the number. *)
Definition external_groups (s : string) : string * string :=
  let '(repo, _, number) := partition "#" (drop (len "github:") (chars s)) in (str repo, str number).
(** [int(digits)], which refuses more than 4300 of them. *)
Definition int_of_digits (digits : string) : res Z :=
  if (4300 <? len digits)%nat then Raise (ValueError "Exceeds the limit (4300 digits) for integer string conversion")
  else Ok (decimal (chars digits)).
Definition api_root (repo : string) : string :=
  let '(owner, _, name) := partition "/" (chars repo) in
  concat_text [GITHUB_API; "/repos/"; quote_path (str owner); "/"; quote_path (str name)].
Definition ref_path (root branch : string) : string := concat_text [root; "/git/ref/heads/"; quote_path branch].
Definition issue_open (repo : string) (number : Z) (issue : json) : bool :=
  is_dict issue && int_that (Z.eqb number) (member "number" issue) && text_is "state" "open" issue &&
  match value_of "pull_request" issue with Some _ => false | None => true end &&
  text_is "html_url" (web_issue repo number) issue.
(** The head that a ref names. *)
Definition ref_head (branch : string) (ref : json) : res string :=
  bridge_if (is_dict ref && text_is "ref" (String.append "refs/heads/" branch) ref) "github_ref_identity_mismatch" ;;
  let object := member "object" ref in
  bridge_if (is_dict object) "github_ref_missing" ;;
  bridge_if (str_that (fullmatch SHA40) (member "sha" object)) "github_ref_missing" ;;
  bridge_if (text_is "type" "commit" object) "github_ref_not_commit" ;;
  Ok (match member "sha" object with JStr s => s | _ => "" end).
Definition snapshot_json (repo branch sha : string) (number : Z) (at_ : datetime) (ref_url : string) : json :=
  JObj [("repository", JStr repo); ("issue_number", JInt number); ("issue_url", JStr (web_issue repo number));
        ("state", JStr "open"); ("is_pull_request", JBool false); ("default_branch", JStr branch);
        ("verified_ref", JStr branch); ("verified_head_sha", JStr sha); ("base_sha", JStr sha);
        ("observed_at", JStr (isoformat_utc at_)); ("_ref_url", JStr ref_url)].
Definition github_snapshot (external_id token : string) (observed_at : datetime) : P json :=
  bridge (fullmatch EXTERNAL_ID external_id) "github_external_id_invalid" ;;
  let '(repo, number_text) := external_groups external_id in
  let root := api_root repo in
  metadata ← get_from "github" root token;
  bridge (is_dict metadata && text_is "full_name" repo metadata) "github_repo_mismatch" ;;
  let branch := strip (str_of (or_else (member "default_branch" metadata) (JStr ""))) in
  bridge (nonempty branch && (len branch <=? 200)%nat) "github_default_branch_missing" ;;
  number ← of_res (int_of_digits number_text);
  issue ← get_from "github" (concat_text [root; "/issues/"; int_text number]) token;
  bridge (issue_open repo number issue) "github_issue_not_open_or_mismatch" ;;
  ref ← get_from "github" (ref_path root branch) token;
  sha ← of_res (ref_head branch ref);
  mret (snapshot_json repo branch sha number observed_at (ref_path root branch)).

(** ** The run *)

Definition rstrip_slash (s : string) : string := str (rev (drop_while (Ascii.eqb "/") (rev (chars s)))).
Definition allowed_worker_url (base_url : string) : res string :=
  u ← urlparse bracketed_host (rstrip_slash base_url);
  ok ← (if String.eqb (Url.scheme u) "http" && text_eqb (hostname u) LOOPBACK then
          p ← port u;
          Ok (match p with Some _ => true | None => false end &&
              negb (truthy (username u) || truthy (password u) || nonempty (Url.query u) || nonempty (Url.fragment u)) &&
              bool_decide (Url.path u ∈ [""; "/"]))
        else Ok false);
  bridge_if ok "worker_must_be_loopback" ;;
  Ok (rstrip_slash base_url).
Definition lane_admitted (repository : json) (lanes : list json) : bool :=
  match List.find (fun x => is_dict x && py_eqb (member "repository" x) repository) lanes with
  | Some lane => is_true (member "enabled" lane) && py_eqb (member "max_in_flight" lane) (JInt 1)
  | None => false
  end.
Definition READBACK : list string := ["repository"; "issue_number"; "base_sha"; "request_id"; "correlation_id"].
Fixpoint reads_back (keys : list string) (readback payload : json) : P unit :=
  match keys with
  | [] => mret tt
  | k :: keys' =>
      v ← of_res (get k readback);
      bridge (py_eqb v (member k payload)) "worker_readback_mismatch" ;;
      reads_back keys' readback payload
  end.
Definition ready_state (payload : json) : list (string * json) :=
  [("state", JStr "ready_for_dispatch"); ("repository", member "repository" payload);
   ("issue_number", member "issue_number" payload); ("base_sha", member "base_sha" payload);
   ("request_id", member "request_id" payload); ("dispatched", JBool false)].
Definition canonical_id (s : string) : P string :=
  match uuid_of s with Ok i => mret i | Raise _ => throw (bridge_rejected "notion_id_invalid") end.

(** From the payload to the confirmed task. *)
Definition dispatch (x : Page.t) (page_id data_source_id : string) (clock : datetime) (todo snapshot payload : json) : P json :=
  bridge (String.eqb (Page.environment x) "dev") "execute_dev_only" ;;
  bridge (nonempty (Page.worker_token x) && nonempty (Page.worker_url x)) "worker_credentials_missing" ;;
  url ← of_res (allowed_worker_url (Page.worker_url x));
  lanes ← get_from "worker" (String.append url "/v1/repositories") (Page.worker_token x);
  lanes ← match lanes with JList l => mret l | _ => throw (bridge_rejected "worker_lanes_invalid") end;
  bridge (lane_admitted (member "repository" payload) lanes) "worker_lane_not_admitted" ;;
  reread ← read_notion page_id data_source_id (Page.notion_token x);
  bridge (bool_decide (reread = todo)) "todo_changed_before_dispatch" ;;
  latest ← github_snapshot (str_value (member "Identificador externo" todo)) (Page.github_token x) clock;
  bridge (bool_decide (member "default_branch" latest = member "default_branch" snapshot))
    "github_default_branch_changed_before_dispatch" ;;
  bridge (bool_decide (member "base_sha" latest = member "base_sha" payload)) "github_head_changed_before_dispatch" ;;
  '(status, response) ← ask "worker" "POST" (String.append url "/v1/tasks") (Page.worker_token x) (Some payload);
  bridge (bool_decide (status ∈ [200; 201]) && is_dict response) "worker_enqueue_not_confirmed" ;;
  task_id ← of_res (get_in "task" "task_id" response);
  task_id ← match task_id with
            | JStr s => bridge ((0 <? len s)%nat && (len s <? 256)%nat) "worker_task_id_missing" ;; mret s
            | _ => throw (bridge_rejected "worker_task_id_missing")
            end;
  bridge (Bool.eqb (status =? 201) (is_true (member "created" response))) "worker_created_state_invalid" ;;
  readback ← get_from "worker" (concat_text [url; "/v1/tasks/"; quote_path task_id]) (Page.worker_token x);
  reads_back READBACK readback payload ;;
  bridge (text_is "task_id" task_id readback && match value_of "lease_token" readback with Some _ => false | None => true end)
    "worker_readback_invalid" ;;
  created ← of_res (item "created" response);
  mret (JObj (set_key "created" created (set_key "task_id" (JStr task_id)
    (set_key "dispatched" (JBool true) (set_key "state" (JStr "enqueued_verified") (ready_state payload)))))).

Definition run_page (x : Page.t) : P json :=
  page_id ← canonical_id (Page.page_id x);
  data_source_id ← canonical_id (Page.data_source_id x);
  bridge (nonempty (Page.notion_token x) && nonempty (Page.github_token x)) "source_tokens_missing" ;;
  clock ← match Page.now x with Some d => mret d | None => call utc_now end;
  todo ← read_notion page_id data_source_id (Page.notion_token x);
  bridge (text_is "Status" "PENDENTE" todo) "todo_not_pending" ;;
  bridge (text_is "Fonte" "GitHub" todo) "todo_source_invalid" ;;
  snapshot ← github_snapshot (str_value (member "Identificador externo" todo)) (Page.github_token x) clock;
  payload ← of_res (prepare_portfolio_task todo snapshot (mkDateTime clock (Some 0)));
  if negb (Page.execute x) then mret (JObj (ready_state payload))
  else dispatch x page_id data_source_id clock todo snapshot payload.

(** ** The command *)

Definition token_from_file (path : string) : P string :=
  bridge (nonempty path) "token_file_path_missing" ;;
  raw ← catch (call (read_file path))
          (fun e => if is_a "OSError" e then throw (bridge_rejected "token_file_unavailable") else throw e);
  let token := strip raw in
  bridge ((1 <=? len token)%nat && (len token <=? 4096)%nat) "token_file_invalid" ;;
  mret token.
(** The exit code and the object printed; [env] is the environment. *)
Definition bridge_main (page_id data_source_id : string) (execute : bool) (env : string → string) : P (Z * json) :=
  catch
    (notion ← token_from_file (env "PORTFOLIO_NOTION_TOKEN_FILE");
     github ← token_from_file (env "PORTFOLIO_GITHUB_TOKEN_FILE");
     worker ← (if execute then token_from_file (env "PORTFOLIO_WORKER_TOKEN_FILE") else mret "");
     result ← run_page (Page.mk page_id data_source_id notion github worker (env "PORTFOLIO_WORKER_URL") execute
                          (env "PORTFOLIO_ENV") None);
     mret (0, result))
    (fun e => match e with
              | Error cls reason =>
                  if String.eqb cls "AdmissionRejected" || String.eqb cls "BridgeRejected"
                  then mret (2, JObj [("state", JStr "blocked"); ("reason", JStr reason)]) else throw e
              | _ => throw e
              end).
End Bridge.
