(* ===== verification/PortfolioProps.v ===== *)
(** Properties of the bridge: what it admits is a task that the service
    accepts, a run writes at most that task, after reading everything twice, and
    a run against the service itself.  [PortfolioSpec] is what a run may ask,
    whatever it is answered: a monitor of its requests, and the lemmas that
    follow the run. *)
From Stdlib Require Import Ascii String.
From stdpp Require Import strings list.
From S2P Require Import Prelude Prog PyStr Sha256 Clock Json PyVal PyText PyAst PyUrl IsoDate Names Structured IssueDraft Manifest.
From S2P Require Import Portfolio.

Local Open Scope string_scope.
Local Open Scope Z_scope.

Module PortfolioSpec.
(** The values read so far, the last one first; the answer to the one [POST]
    and what was read after it. *)
Record Watch := mkWatch {
  pages : list json; hub : list json; lanes : option json; posted : bool; answered : option (Z * json);
  readback : option json; clock_read : Z }.
#[export] Instance Watch_eta : Eta Watch := fun g =>
  mkWatch (pages g) (hub g) (lanes g) (posted g) (answered g) (readback g) (clock_read g).
Definition nothing_read : Watch := mkWatch [] [] None false None None 0.

Section Monitor.
Context (bracketed_host : string → bool) (x : Page.t) (page_id data_source_id : string).

Definition clock_of (g : Watch) : datetime := match Page.now x with Some d => d | None => clock_read g end.
(** The entry that a page of Notion gives, and the snapshot that the three
    answers of GitHub give for an entry. *)
Definition entry_of (page : json) : res json := accepted_page page_id data_source_id page.
Definition snapshot_of (clock : datetime) (todo metadata issue ref : json) : res json :=
  let id := str_value (member "Identificador externo" todo) in
  let '(repo, number_text) := external_groups id in
  let branch := strip (str_of (or_else (member "default_branch" metadata) (JStr ""))) in
  bridge_if (fullmatch EXTERNAL_ID id && text_is "full_name" repo metadata && nonempty branch && (len branch <=? 200)%nat)
    "github_repo_mismatch" ;;
  number ← int_of_digits number_text;
  bridge_if (issue_open repo number issue) "github_issue_not_open_or_mismatch" ;;
  sha ← ref_head branch ref;
  Ok (snapshot_json repo branch sha number clock (ref_path (api_root repo) branch)).
Definition value_eqb (a b : res json) : bool :=
  match a, b with Ok v, Ok w => bool_decide (v = w) | _, _ => false end.
(** The payload that the first readings give. *)
Definition payload_of (clock : datetime) (page metadata issue ref : json) : res json :=
  todo ← entry_of page; snapshot ← snapshot_of clock todo metadata issue ref;
  prepare_portfolio_task todo snapshot (mkDateTime clock (Some 0)).
(** Everything was read twice, the same both times, on an admitted lane. *)
Definition dispatchable (g : Watch) (payload : json) : bool :=
  let clock := clock_of g in
  match pages g, hub g, lanes g with
  | [page2; page1], [ref2; issue2; metadata2; ref1; issue1; metadata1], Some (JList lanes) =>
      value_eqb (payload_of clock page1 metadata1 issue1 ref1) (Ok payload) && value_eqb (entry_of page1) (entry_of page2) &&
      value_eqb (todo ← entry_of page1; snapshot_of clock todo metadata1 issue1 ref1)
                (todo ← entry_of page2; snapshot_of clock todo metadata2 issue2 ref2) &&
      lane_admitted (member "repository" payload) lanes
  | _, _, _ => false
  end.

(** The service that a request is for, with its token and its origin. *)
Definition token_for (service : string) : string :=
  if String.eqb service "notion" then Page.notion_token x
  else if String.eqb service "github" then Page.github_token x else Page.worker_token x.
Definition at_origin (service url : string) : bool :=
  match urlparse bracketed_host url with
  | Ok u => match allowed_origin service u with Ok b => b | Raise _ => false end
  | Raise _ => false
  end.
Definition addressed (url : string) (headers : list (string * string)) (data : option json) : bool :=
  existsb (fun service =>
    at_origin service url &&
    bool_decide (headers = headers_for service (token_for service) (match data with Some _ => true | None => false end)))
    ["notion"; "github"; "worker"].

Definition allowed (g : Watch) (o : op) : bool :=
  match o with
  | open_url url method headers data =>
      addressed url headers data &&
      if String.eqb method "POST" then
        negb (posted g) && Page.execute x && String.eqb (Page.environment x) "dev" &&
        match allowed_worker_url bracketed_host (Page.worker_url x) with
        | Ok base => String.eqb url (String.append base "/v1/tasks")
        | Raise _ => false
        end &&
        match data with Some payload => dispatchable g payload | None => false end
      else String.eqb method "GET" && bool_decide (data = None)
  | _ => true
  end.
Definition next (g : Watch) (o : op) : res (answer o) → Watch :=
  match o with
  | open_url url method _ _ => fun r =>
      match r with
      | Ok page =>
          match page_json page with
          | Some v =>
              if String.eqb method "POST" then g <| posted := true |> <| answered := Some (page_status page, v) |>
              else if at_origin "notion" url then g <| pages := v :: pages g |>
              else if at_origin "github" url then g <| hub := v :: hub g |>
              else if posted g then g <| readback := Some v |> else g <| lanes := Some v |>
          | None => if String.eqb method "POST" then g <| posted := true |> else g
          end
      | Raise _ => if String.eqb method "POST" then g <| posted := true |> else g
      end
  | utc_now => fun r => g <| clock_read := match r with Ok n => n | Raise _ => clock_read g end |>
  | read_file _ => fun _ => g
  end.
Abbreviation safe := (Prog.safe allowed next).

Lemma safe_bridge b reason g (Q : res unit → Watch → Prop) :
  (b = true → Q (Ok tt) g) → (∀ e g', Q (Raise e) g') → safe (bridge b reason) g Q.
Proof. intros H1 H2. unfold bridge. destruct b; [by apply safe_ret, H1|by apply safe_throw]. Qed.

Lemma safe_ask service method url token data g (Q : res (Z * json) → Watch → Prop) :
  (at_origin service url = true →
   allowed g (open_url url method (headers_for service token (match data with Some _ => true | None => false end)) data) = true) →
  (∀ e g', Q (Raise e) g') →
  (∀ page v h, at_origin service url = true → page_json page = Some v →
     Q (Ok (page_status page, v)) (next g (open_url url method h data) (Ok page))) →
  safe (ask bracketed_host service method url token data) g Q.
Proof.
  intros Ha HE HQ. unfold ask. apply safe_bind, safe_of_res. destruct (urlparse _ url) as [u|] eqn:Eu; [|apply HE].
  apply safe_bind, safe_of_res. destruct (allowed_origin service u) as [ok|] eqn:Eo; [|apply HE].
  assert (ok = true → at_origin service url = true) as Hat by (intros ->; unfold at_origin; by rewrite Eu, Eo).
  apply safe_bind, safe_bridge; [intros Hok|done]. apply safe_bind, safe_bridge; [intros _|done].
  apply safe_catch, safe_bind. eapply (Prog.safe_call (answer:=answer)); [by apply Ha, Hat|].
  intros [page|e]; [|destruct (http_code e); [|destruct (unavailable e)]; apply safe_throw, HE].
  apply safe_bind. unfold bridge. destruct (page_size page <=? _).
  - apply safe_ret. destruct (page_json page) as [v|] eqn:Ev; [apply safe_ret, HQ; auto|exact (HE _ _)].
  - exact (HE _ _).
Qed.

(** The origins exclude each other. *)
Lemma origins_differ url :
  at_origin "notion" url && at_origin "github" url = false ∧ at_origin "notion" url && at_origin "worker" url = false ∧
  at_origin "github" url && at_origin "worker" url = false.
Proof.
  unfold at_origin. destruct (urlparse _ url) as [u|]; [|done]. unfold allowed_origin.
  cbn [String.eqb Ascii.eqb Bool.eqb andb].
  destruct (String.eqb_spec (Url.scheme u) "https") as [->|]; [|done].
  destruct (String.eqb_spec (Url.netloc u) "api.notion.com") as [->|]; cbn; [done|]. by destruct (String.eqb _ _).
Qed.

Lemma addressed_at service url data :
  service ∈ ["notion"; "github"; "worker"] → at_origin service url = true →
  addressed url (headers_for service (token_for service) (match data with Some _ => true | None => false end)) data = true.
Proof.
  intros Hs Ha. unfold addressed. apply existsb_exists. exists service. split; [by apply list_elem_of_In|].
  by rewrite Ha, bool_decide_eq_true_2.
Qed.
Lemma safe_get_from service url token g (Q : res json → Watch → Prop) :
  service ∈ ["notion"; "github"; "worker"] → token = token_for service →
  (∀ e g', Q (Raise e) g') →
  (∀ v, at_origin service url = true → Q (Ok v)
     (if at_origin "notion" url then g <| pages := v :: pages g |>
      else if at_origin "github" url then g <| hub := v :: hub g |>
      else if posted g then g <| readback := Some v |> else g <| lanes := Some v |>)) →
  safe (get_from bracketed_host service url token) g Q.
Proof.
  intros Hs -> HE HQ. unfold get_from. apply safe_bind, safe_ask; [|done|].
  - intros Ha. cbn -[addressed]. rewrite andb_true_r. by apply (addressed_at service url None).
  - intros page v h Ha Hv. apply safe_bind, safe_bridge; [intros _|done]. apply safe_ret. cbn. rewrite Hv. by apply HQ.
Qed.
Lemma safe_get_notion url g (Q : res json → Watch → Prop) :
  (∀ e g', Q (Raise e) g') → (∀ v, Q (Ok v) (g <| pages := v :: pages g |>)) →
  safe (get_from bracketed_host "notion" url (Page.notion_token x)) g Q.
Proof. intros HE HQ. apply safe_get_from; [by left|done..|]. intros v Ha. by rewrite Ha. Qed.
Lemma safe_get_github url g (Q : res json → Watch → Prop) :
  (∀ e g', Q (Raise e) g') → (∀ v, Q (Ok v) (g <| hub := v :: hub g |>)) →
  safe (get_from bracketed_host "github" url (Page.github_token x)) g Q.
Proof.
  intros HE HQ. apply safe_get_from; [by right; left|done..|]. intros v Ha. destruct (origins_differ url) as (H & _ & _).
  rewrite Ha, andb_true_r in H. by rewrite Ha, H.
Qed.
Lemma safe_get_worker url g (Q : res json → Watch → Prop) :
  (∀ e g', Q (Raise e) g') →
  (∀ v, Q (Ok v) (if posted g then g <| readback := Some v |> else g <| lanes := Some v |>)) →
  safe (get_from bracketed_host "worker" url (Page.worker_token x)) g Q.
Proof.
  intros HE HQ. apply safe_get_from; [by right; right; left|done..|]. intros v Ha. destruct (origins_differ url) as (_ & H1 & H2).
  rewrite Ha, andb_true_r in H1, H2. by rewrite H1, H2.
Qed.

Lemma safe_read_notion g (Q : res json → Watch → Prop) :
  (∀ e g', Q (Raise e) g') → (∀ page todo, entry_of page = Ok todo → Q (Ok todo) (g <| pages := page :: pages g |>)) →
  safe (read_notion bracketed_host page_id data_source_id (Page.notion_token x)) g Q.
Proof.
  intros HE HQ. apply safe_bind, safe_get_notion; [done|]. intros page. apply safe_of_res.
  destruct (accepted_page _ _ page) as [todo|] eqn:E; [by apply HQ|apply HE].
Qed.
Lemma safe_snapshot clock todo g (Q : res json → Watch → Prop) :
  (∀ e g', Q (Raise e) g') →
  (∀ m i r s, snapshot_of clock todo m i r = Ok s → Q (Ok s) (g <| hub := r :: i :: m :: hub g |>)) →
  safe (github_snapshot bracketed_host (str_value (member "Identificador externo" todo)) (Page.github_token x) clock) g Q.
Proof.
  intros HE HQ. unfold github_snapshot. apply safe_bind, safe_bridge; [intros H1|done].
  destruct (external_groups _) as [repo number_text] eqn:Eg. cbv zeta.
  apply safe_bind, safe_get_github; [done|]. intros m. apply safe_bind, safe_bridge; [intros [Hd H2]%andb_prop|done].
  apply safe_bind, safe_bridge; [intros [H3 H4]%andb_prop|done].
  apply safe_bind, safe_of_res. destruct (int_of_digits number_text) as [number|] eqn:En; [|apply HE].
  apply safe_bind, safe_get_github; [done|]. intros i. apply safe_bind, safe_bridge; [intros H5|done].
  apply safe_bind, safe_get_github; [done|]. intros r.
  apply safe_bind, safe_of_res. destruct (ref_head _ r) as [sha|] eqn:Er; [|apply HE]. apply safe_ret.
  refine (HQ m i r _ _). unfold snapshot_of. rewrite Eg, H1, H2, H3, H4. cbn [andb bridge_if mbind res_bind]. rewrite En. cbn [mbind res_bind].
  by rewrite H5; cbn [bridge_if mbind res_bind]; rewrite Er.
Qed.
End Monitor.
End PortfolioSpec.

From Stdlib Require Import QArith.
From stdpp Require Import strings list.
From S2P Require Import StructuredProps Schema Store StoreRefine Scenario Work Controller Api ApiProps PoolService PoolServiceProps.
From S2P Require Import Portfolio.
Import PortfolioSpec.

Local Open Scope string_scope.
Local Open Scope Z_scope.

(** ** The admitted payload *)

Lemma lower_hex_char c : hex_lower c = true → lower_char c = c ∧ is_space c = false.
Proof. destruct c as [[] [] [] [] [] [] [] []]; vm_compute; done. Qed.
Lemma any_hex_char c : hex_any c = true → hex_lower (lower_char c) = true.
Proof. destruct c as [[] [] [] [] [] [] [] []]; vm_compute; done. Qed.
Lemma sha_lower s : fullmatch SHA40 s = true → lower s = s ∧ strip s = s.
Proof.
  intros [_ H]%fullmatch_times. rewrite forallb_forall in H. split.
  - apply chars_inj. unfold lower. rewrite chars_str. transitivity (map id (chars s)); [apply map_ext_in|apply map_id].
    intros c Hc. exact (proj1 (lower_hex_char c (H c Hc))).
  - apply chars_inj. unfold strip. rewrite chars_str.
    assert (∀ l : list ascii, (∀ c, In c l → is_space c = false) → drop_while is_space l = l) as Hd.
    { intros [|c l] Hl; [done|]. cbn. by rewrite (Hl c) by by left. }
    rewrite (Hd (chars s)) by (intros c Hc; exact (proj2 (lower_hex_char c (H c Hc)))). rewrite Hd, rev_involutive; [done|].
    intros c Hc%in_rev. exact (proj2 (lower_hex_char c (H c Hc))).
Qed.
Lemma lower_sha s : fullmatch TODO_SHA s = true → fullmatch SHA40 (lower s) = true.
Proof.
  intros [Hl H]%fullmatch_times. apply fullmatch_times. unfold lower. rewrite chars_str, len_chars, chars_str, length_map.
  rewrite len_chars in Hl. split; [done|]. rewrite forallb_forall in *. intros c (d & <- & Hd)%in_map_iff. by apply any_hex_char, H.
Qed.

Lemma admit_ok c reason u : admit_if c reason = Ok u → c = true.
Proof. by destruct c. Qed.
(** Every check of an admission that returned. *)
Ltac admitted H :=
  repeat lazymatch type of H with
  | mbind _ (admit_if _ _) = Ok _ =>
      let u := fresh in let E := fresh "Hc" in apply res_bind_ok in H as (u & E & H); apply admit_ok in E
  | mbind _ _ = Ok _ => let a := fresh "a" in let E := fresh "Ha" in apply res_bind_ok in H as (a & E & H)
  end.

Lemma prepared todo issue now payload :
  prepare_portfolio_task todo issue now = Ok payload →
  ∃ repository number key correlation priority,
    payload = JObj [("repository", JStr repository); ("issue_number", JInt number);
                    ("request_id", JStr (String.append "todo-" (sha256_of key))); ("correlation_id", JStr correlation);
                    ("priority", JInt priority); ("base_sha", JStr (lower (string_at "base_sha" issue)))] ∧
    fullmatch TODO_REPO repository = true ∧ 0 < number ∧ 0 <= priority <= 30 ∧ (0 < len correlation ≤ 128)%nat ∧
    fullmatch TODO_SHA (string_at "base_sha" issue) = true ∧
    string_at "Identificador externo" todo = external_id repository number ∧ string_at "state" issue = "open".
Proof.
  unfold prepare_portfolio_task. intros H. admitted H.
  destruct (lookup_key _ PRIORITY) as [priority|] eqn:Ep; [|done]. cbv zeta in H. admitted H. injection H as <-.
  exists (string_at "repository" issue), (int_value (member "issue_number" issue)), (string_at (u8 "Chave de idempotência") todo),
    (string_at "Correlation ID" todo), priority.
  split; [done|]. split; [done|]. split.
  { destruct (member "issue_number" issue); try done. by apply Z.ltb_lt. }
  split.
  { unfold lookup_key in Ep. destruct (List.find _ PRIORITY) as [[k p]|] eqn:E; [|done]. injection Ep as <-.
    apply find_some in E as [E _]. cbn in E. destruct_or! E; by injection E as _ <-. }
  repeat match goal with H : _ && _ = true |- _ => apply andb_prop in H as [? ?] end.
  repeat match goal with
  | H : String.eqb _ _ = true |- _ => apply String.eqb_eq in H
  | H : (_ <? _)%nat = true |- _ => apply Nat.ltb_lt in H
  | H : (_ <=? _)%nat = true |- _ => apply Nat.leb_le in H
  end. done.
Qed.

Section Run.
Context (bracketed_host : string → bool) (x : Page.t) (page_id data_source_id : string).
Abbreviation safe := (Prog.safe (allowed bracketed_host x page_id data_source_id) (next bracketed_host)).
Abbreviation payload_of := (payload_of page_id data_source_id).

(** What was read when a run returns [v]. *)
Definition previewed (g : Watch) (v : json) : Prop :=
  posted g = false ∧ ∃ page metadata issue ref payload, pages g = [page] ∧ hub g = [ref; issue; metadata] ∧
    payload_of (clock_of x g) page metadata issue ref = Ok payload ∧ v = JObj (ready_state payload).
Definition dispatched (g : Watch) (v : json) : Prop :=
  posted g = true ∧ ∃ payload status response task_id after,
    dispatchable x page_id data_source_id g payload = true ∧
    answered g = Some (status, response) ∧ status ∈ [200; 201] ∧ get_in "task" "task_id" response = Ok (JStr task_id) ∧
    readback g = Some after ∧ forallb (fun k => py_eqb (member k after) (member k payload)) READBACK = true ∧
    text_is "task_id" task_id after = true ∧ value_of "lease_token" after = None ∧
    member "state" v = JStr "enqueued_verified" ∧ member "task_id" v = JStr task_id.
Definition ended (g : Watch) (v : json) : Prop := if Page.execute x then dispatched g v else previewed g v.

Lemma safe_reads_back ks after payload g :
  safe (reads_back ks after payload) g (fun r g' => g' = g ∧
    (r = Ok tt → forallb (fun k => py_eqb (member k after) (member k payload)) ks = true)).
Proof.
  induction ks as [|k ks IH]; cbn [reads_back forallb]; [by apply safe_ret|].
  apply safe_bind, safe_of_res. destruct after; try done.
  change (get k (JObj members)) with (Ok (member k (JObj members))). cbv beta iota.
  apply safe_bind. unfold bridge. destruct (py_eqb _ _); [|by apply safe_throw].
  apply safe_ret, IH.
Qed.

Lemma payload_parts clock page m i r payload :
  payload_of clock page m i r = Ok payload → ∃ todo s, entry_of page_id data_source_id page = Ok todo ∧
    snapshot_of clock todo m i r = Ok s ∧ prepare_portfolio_task todo s (mkDateTime clock (Some 0)) = Ok payload.
Proof.
  unfold PortfolioSpec.payload_of. intros H. apply res_bind_ok in H as (todo & H1 & H).
  apply res_bind_ok in H as (s & H2 & H). by exists todo, s.
Qed.
Lemma value_eqb_ok v : value_eqb (Ok v) (Ok v) = true.
Proof. by apply bool_decide_eq_true_2. Qed.

(** Two snapshots of one entry that agree on the branch and the head are equal. *)
Lemma snapshots_agree clock todo m1 i1 r1 s1 m2 i2 r2 s2 :
  snapshot_of clock todo m1 i1 r1 = Ok s1 → snapshot_of clock todo m2 i2 r2 = Ok s2 →
  member "default_branch" s2 = member "default_branch" s1 → member "base_sha" s2 = member "base_sha" s1 → s2 = s1.
Proof.
  unfold snapshot_of. destruct (external_groups _) as [repo n].
  destruct (bridge_if _ _) as [[]|]; [|done]. destruct (bridge_if (_ && _) _) as [[]|]; [|done].
  cbn [mbind res_bind]. destruct (int_of_digits n) as [num|]; [|done]. cbn [mbind res_bind].
  destruct (bridge_if _ _) as [[]|]; [|done]. destruct (bridge_if (issue_open _ _ i2) _) as [[]|]; [|done]. cbn [mbind res_bind].
  destruct (ref_head _ r1) as [h1|]; [|done]. destruct (ref_head _ r2) as [h2|]; [|done]. cbn [mbind res_bind].
  intros [= <-] [= <-]. cbn. intros [= ->] [= ->]. done.
Qed.

Lemma snapshot_sha clock todo m i r s :
  snapshot_of clock todo m i r = Ok s → ∃ sha, member "base_sha" s = JStr sha ∧ fullmatch SHA40 sha = true.
Proof.
  unfold snapshot_of. destruct (external_groups _) as [repo n]. intros H.
  apply res_bind_ok in H as (? & _ & H). apply res_bind_ok in H as (num & _ & H). apply res_bind_ok in H as (? & _ & H).
  apply res_bind_ok in H as (sha & Hr & H). injection H as <-. exists sha. split; [done|].
  unfold ref_head in Hr. apply res_bind_ok in Hr as (? & _ & Hr). apply res_bind_ok in Hr as (? & _ & Hr).
  apply res_bind_ok in Hr as (? & Hs & Hr). apply res_bind_ok in Hr as (? & _ & Hr).
  destruct (member "sha" (member "object" r)); try done. injection Hr as <-. cbn [str_that bridge_if] in Hs.
  by destruct (fullmatch SHA40 s).
Qed.

Lemma safe_dispatch g page m i r todo s payload :
  Page.execute x = true → posted g = false → lanes g = None → pages g = [page] → hub g = [r; i; m] →
  entry_of page_id data_source_id page = Ok todo → snapshot_of (clock_of x g) todo m i r = Ok s →
  prepare_portfolio_task todo s (mkDateTime (clock_of x g) (Some 0)) = Ok payload →
  safe (dispatch bracketed_host x page_id data_source_id (clock_of x g) todo s payload) g
    (fun r g' => ∀ v, r = Ok v → dispatched g' v).
Proof.
  intros Hx Hp Hl Hpages Hhub He Hs Hprep. unfold dispatch.
  apply safe_bind, safe_bridge; [intros Henv|done]. apply safe_bind, safe_bridge; [intros _|done].
  apply safe_bind, safe_of_res. destruct (allowed_worker_url _ _) as [url|] eqn:Eu; [|done].
  apply safe_bind, safe_get_worker; [done|]. intros raw. rewrite Hp.
  apply safe_bind. destruct raw as [| | | |l|]; try by apply safe_throw. apply safe_ret.
  apply safe_bind, safe_bridge; [intros Hlane|done].
  apply safe_bind, safe_read_notion; [done|]. intros page2 todo2 He2.
  apply safe_bind, safe_bridge; [intros ->%bool_decide_eq_true|done].
  apply safe_bind, safe_snapshot; [done|]. intros m2 i2 r2 s2 Hs2.
  apply safe_bind, safe_bridge; [intros Hb%bool_decide_eq_true|done].
  apply safe_bind, safe_bridge; [intros Hsha%bool_decide_eq_true|done].
  assert (s2 = s) as ->.
  { eapply snapshots_agree; [exact Hs|exact Hs2|exact Hb|].
    destruct (snapshot_sha _ _ _ _ _ _ Hs) as (sha & E & Hh). rewrite Hsha, E.
    destruct (prepared _ _ _ _ Hprep) as (? & ? & ? & ? & ? & -> & _). unfold string_at. rewrite E.
    destruct (sha_lower sha Hh) as [H1 H2]. cbn. by rewrite H2, H1. }
  set (g1 := g <| lanes := Some (JList l) |> <| pages := _ |> <| hub := _ |>).
  assert (dispatchable x page_id data_source_id g1 payload = true) as Hd.
  { unfold dispatchable, g1. cbn. rewrite Hpages, Hhub. change (clock_of x _) with (clock_of x g).
    unfold PortfolioSpec.payload_of. rewrite He. cbn [mbind res_bind]. rewrite Hs. cbn [mbind res_bind].
    rewrite Hprep, He2. cbn [mbind res_bind]. rewrite Hs2, !value_eqb_ok. exact Hlane. }
  apply safe_bind, safe_ask; [|done|].
  { intros Ha. unfold allowed. rewrite (addressed_at _ x "worker" _ (Some payload)) by (done || by right; right; left).
    change (String.eqb "POST" "POST") with true. cbv iota.
    change (posted g1) with (posted g). by rewrite Hp, Hx, Henv, Eu, String.eqb_refl, Hd. }
  intros p v h Ha Hv. set (g2 := next _ _ _ _).
  assert (g2 = g1 <| posted := true |> <| answered := Some (page_status p, v) |>) as E by (unfold g2; cbn; by rewrite Hv).
  clearbody g2. subst g2.
  apply safe_bind, safe_bridge; [intros [Hst%bool_decide_eq_true Hdict]%andb_prop|done].
  apply safe_bind, safe_of_res. destruct (get_in "task" "task_id" v) as [[]|] eqn:Et; try done.
  apply safe_bind, safe_bind, safe_bridge; [intros _|done]. apply safe_ret.
  apply safe_bind, safe_bridge; [intros _|done].
  apply safe_bind, safe_get_worker; [done|]. intros after. cbn [posted setter].
  apply safe_bind. eapply safe_mono; [apply safe_reads_back|]. intros [[]|e] g' [-> Hr]; [|done]. specialize (Hr eq_refl).
  apply safe_bind, safe_bridge; [intros [Hid Htok]%andb_prop|done].
  apply safe_bind, safe_of_res. destruct (item "created" v) as [created|]; [|done]. apply safe_ret.
  intros ? [= <-]. split; [done|]. exists payload, (page_status p), v, s0, after.
  destruct (prepared _ _ _ _ Hprep) as (? & ? & ? & ? & ? & -> & _).
  split_and!; try done. by destruct (value_of "lease_token" after).
Qed.
End Run.

Section Protocol.
Context (bracketed_host : string → bool) (x : Page.t).

(** The identifiers of the page and of its source, in canonical form. *)
Lemma safe_run_page page_id data_source_id :
  uuid_of (Page.page_id x) = Ok page_id → uuid_of (Page.data_source_id x) = Ok data_source_id →
  Prog.safe (allowed bracketed_host x page_id data_source_id) (next bracketed_host) (run_page bracketed_host x) nothing_read
    (fun r g => ∀ v, r = Ok v → ended x page_id data_source_id g v).
Proof.
  intros Ep Es. unfold run_page, canonical_id. rewrite Ep, Es.
  apply safe_bind, safe_ret, safe_bind, safe_ret, safe_bind, safe_bridge; [intros _|done].
  apply safe_bind. eapply safe_mono with (P := fun r g => ∃ n, g = nothing_read <| clock_read := n |> ∧
    (∀ d, r = Ok d → d = clock_of x g)).
  { unfold clock_of. destruct (Page.now x) as [d|]; [apply safe_ret; exists 0; split; [done|by intros ? [= <-]]|].
    apply (Prog.safe_call (answer:=answer)); [done|]. intros [n|e]; [exists n; split; [done|by intros ? [= <-]]|by exists 0]. }
  intros [clock|e] g (n & -> & Hc); [|done]. rewrite (Hc clock) by done. clear Hc clock.
  set (g := nothing_read <| clock_read := n |>).
  apply safe_bind, safe_read_notion; [done|]. intros page todo He.
  apply safe_bind, safe_bridge; [intros _|done]. apply safe_bind, safe_bridge; [intros _|done].
  apply safe_bind, safe_snapshot; [done|]. intros m i r s Hs.
  apply safe_bind, safe_of_res. destruct (prepare_portfolio_task _ _ _) as [payload|] eqn:Hprep; [|done].
  unfold ended. destruct (Page.execute x) eqn:Hx; cbn [negb].
  - exact (safe_dispatch bracketed_host x page_id data_source_id (g <| pages := [page] |> <| hub := [r; i; m] |>)
      page m i r todo s payload Hx eq_refl eq_refl eq_refl eq_refl He Hs Hprep).
  - apply safe_ret. intros ? [= <-]. split; [done|]. exists page, m, i, r, payload. split_and!; try done.
    unfold payload_of. rewrite He. cbn [mbind res_bind]. change (clock_of x _) with (clock_of x g). by rewrite Hs.
Qed.
End Protocol.

Lemma repo_chars_length r : fullmatch TODO_REPO r = true → (3 ≤ len r)%nat.
Proof.
  unfold fullmatch, TODO_REPO. rewrite fullmatch_list_correct, len_chars. intros H.
  inversion H as [| |r1 r2 s1 s2 H1 H2 E1 E2| | | |]; subst. inversion H2 as [| |r3 r4 s3 s4 H3 H4 E3 E4| | | |]; subst.
  apply matches_class in H1 as (? & _), H4 as (? & _). rewrite !length_app.
  assert (1 ≤ length s3)%nat by (inversion H3; subst; match goal with H : matches (Chr _) _ |- _ => inversion H end; cbn; lia).
  lia.
Qed.

(** C26: What the bridge admits is a task: whenever the admission of an entry
    returns, its value has exactly the members of the payload of
    [POST /v1/tasks], each of its type, and it satisfies every constraint of
    the service as soon as the name of the repository fits in 256
    characters. *)
Theorem admitted_entry_is_a_task (todo issue payload : json) (now : DateTime) :
  prepare_portfolio_task todo issue now = Ok payload →
  ∃ p, payload = JObj (task_members p) ∧
    valid_task p = (len (TaskCreate.repository p) <=? 256)%nat ∧
    fullmatch SHA40 (TaskCreate.base_sha p) = true ∧
    external_id (TaskCreate.repository p) (TaskCreate.issue_number p) = string_at "Identificador externo" todo.
Proof.
  intros (r & n & key & c & prio & -> & Hr & Hn & Hp & Hc & Hsha & He & _)%prepared.
  apply lower_sha in Hsha. pose proof Hsha as [Hl _]%fullmatch_times.
  exists (TaskCreate.mk r n (String.append "todo-" (sha256_of key)) c prio (lower (string_at "base_sha" issue)) None None false).
  split; [done|]. split; [|done]. cbn [TaskCreate.repository].
  unfold valid_task, id_text, length_in, between. cbn -[len Nat.leb Z.leb sha256_of lower string_at].
  pose proof (repo_chars_length _ Hr) as H3. pose proof (sha256_of_hex key) as [Hk _]%fullmatch_times.
  assert (len (String.append "todo-" (sha256_of key)) = 69%nat) as ->.
  { rewrite len_chars, chars_app, length_app. rewrite len_chars in Hk. by rewrite Hk. }
  rewrite Hl. rewrite (proj2 (Nat.leb_le 3 _)), (proj2 (Z.leb_le 1 n)), (proj2 (Nat.leb_le 1 (len c))) by lia.
  rewrite (proj2 (Nat.leb_le (len c) 128)), (proj2 (Z.leb_le 0 prio)), (proj2 (Z.leb_le prio 10000)) by lia.
  cbn. by rewrite !andb_true_r.
Qed.

(** C27: Whatever Notion, GitHub and the pool answer, a run of the bridge sends
    each token to its own origin only; it writes at most once, only when it is
    asked to execute in the environment [dev], only to the tasks of the
    loopback address, and only the payload that its first readings admit,
    after reading the page, the issue and the head of the branch a second
    time with the same result on an enabled lane of one task at a time; and it
    reports a task as enqueued only after reading it back. *)
Theorem bridge_writes_what_it_read_twice (bracketed_host : string → bool) (x : Page.t) (page_id data_source_id : string)
    (t : list (Prog.event (answer:=Portfolio.answer))) (out : res json) :
  uuid_of (Page.page_id x) = Ok page_id → uuid_of (Page.data_source_id x) = Ok data_source_id →
  runs (run_page bracketed_host x) t out →
  let g := reached (next bracketed_host) nothing_read t in
  accepts (allowed bracketed_host x page_id data_source_id) (next bracketed_host) nothing_read t = true ∧
  ∀ v, out = Ok v → ended x page_id data_source_id g v.
Proof.
  intros Hp Hs. exact (safe_runs _ _ _ _ _ t out (safe_run_page bracketed_host x page_id data_source_id Hp Hs)).
Qed.

(** ** An entry on its way to the pool *)

Definition select_value (s : string) : json := JObj [("type", JStr "select"); ("select", JObj [("name", JStr s)])].
Definition rich_value (s : string) : json :=
  JObj [("type", JStr "rich_text"); ("rich_text", JList [JObj [("plain_text", JStr s)]])].
Definition entry_id : string := "3f34c12b-ae7c-8155-9d28-f4d51040deda".
Definition source_id : string := "663a8805-d9a6-48dc-92a0-308d7a9e87ac".
Definition entry_page : json :=
  JObj [("object", JStr "page"); ("id", JStr entry_id); ("archived", JBool false); ("in_trash", JBool false);
        ("parent", JObj [("type", JStr "data_source_id"); ("data_source_id", JStr source_id)]);
        ("properties", JObj [("Fonte", select_value "GitHub"); ("Status", select_value "PENDENTE");
           ("Tipo", select_value (u8 "Validação")); ("Prioridade", select_value "P1");
           ("Origem URL", JObj [("type", JStr "url"); ("url", JStr "https://github.com/acme/repo/issues/13")]);
           ("Identificador externo", rich_value "github:acme/repo#13");
           (u8 "Chave de idempotência", rich_value "portfolio-acme-repo-13"); ("Correlation ID", rich_value "corr-0013")])].
Definition hub_answers (path : string) : option json :=
  lookup_key path
    [("/repos/acme/repo", JObj [("full_name", JStr "acme/repo"); ("default_branch", JStr "main")]);
     ("/repos/acme/repo/issues/13", JObj [("number", JInt 13); ("state", JStr "open");
        ("html_url", JStr "https://github.com/acme/repo/issues/13")]);
     ("/repos/acme/repo/git/ref/heads/main", JObj [("ref", JStr "refs/heads/main");
        ("object", JObj [("type", JStr "commit"); ("sha", JStr demo_base)])])].
Definition pool_base : string := "http://127.0.0.1:8080".
Definition entry_run : Page.t :=
  Page.mk entry_id source_id "notion-token" "github-token" api_secret (String.append pool_base "/") true "dev" None.
Definition found (o : option json) : Opened :=
  match o with Some v => mkOpened 200 (encoded_size v) (Some v) | None => mkOpened 404 0 None end.
(** Notion and GitHub as above; the pool is the service itself. *)
Definition world_answers (o : Portfolio.op) (s : Service) : res (Portfolio.answer o) * Service :=
  match o with
  | open_url url method headers data =>
      if starts_with NOTION_API url then (Ok (found (Some entry_page)), s)
      else if starts_with GITHUB_API url then (Ok (found (hub_answers (remove_prefix GITHUB_API url))), s)
      else
        let token := match lookup_key "Authorization" headers with Some h => remove_prefix "Bearer " h | None => "" end in
        let '(r, s') := @respond http_store strict "api" "rec" pool_files method (remove_prefix pool_base url) token data s in
        (Ok (mkOpened (status_code r) (body_size (body r)) (body_json (body r))), s')
  | utc_now => (Ok 63844934400000000, s)
  | read_file _ => (Raise (Error "OSError" ""), s)
  end.
Definition entry_trace : list (Prog.event (answer:=Portfolio.answer)) * (res json * Service) :=
  execute world_answers (run_page (fun _ => false) entry_run) pool_running.

Lemma bridge_writes_what_it_read_twice_witness :
  length entry_trace.1 = 12%nat ∧
  accepts (allowed (fun _ => false) entry_run entry_id source_id) (next (fun _ => false)) nothing_read entry_trace.1 = true ∧
  ∃ v, entry_trace.2.1 = Ok v ∧
    dispatched entry_run entry_id source_id (reached (next (fun _ => false)) nothing_read entry_trace.1) v.
Proof.
  split; [vm_compute; reflexivity|].
  destruct (bridge_writes_what_it_read_twice (fun _ => false) entry_run entry_id source_id entry_trace.1 entry_trace.2.1)
    as [Ha Hv]; [vm_compute; reflexivity|vm_compute; reflexivity|unfold entry_trace; apply execute_runs|].
  split; [exact Ha|]. destruct entry_trace.2.1 as [v|e] eqn:E; [exists v; split; [reflexivity|]; by apply Hv|].
  exfalso. assert (match entry_trace.2.1 with Ok _ => true | Raise _ => false end = true) as H by (vm_compute; reflexivity).
  rewrite E in H. discriminate H.
Defined.
Example entry_is_queued :
  map (fun t => (Task.issue_number t, Task.state t, Task.correlation_id t)) (tasks (db (world entry_trace.2.2)))
  = [(12, running, "corr-0001"); (13, queued, "corr-0013")].
Proof. vm_compute. reflexivity. Qed.

Definition entry_todo : json := match accepted_page entry_id source_id entry_page with Ok todo => todo | Raise _ => JNull end.
Definition entry_snapshot : json := snapshot_json "acme/repo" "main" demo_base 13 63844934400000000 "".
Lemma admitted_entry_is_a_task_witness :
  ∃ p, prepare_portfolio_task entry_todo entry_snapshot (mkDateTime 63844934400000000 (Some 0)) = Ok (JObj (task_members p)) ∧
    valid_task p = true.
Proof.
  destruct (prepare_portfolio_task entry_todo entry_snapshot (mkDateTime 63844934400000000 (Some 0))) as [payload|e] eqn:E;
    [|vm_compute in E; discriminate E].
  destruct (admitted_entry_is_a_task _ _ _ _ E) as (p & -> & Hv & _ & He). exists p. split; [done|].
  rewrite Hv. vm_compute in E. injection E as Er _ _ _ _ _. unfold task_members in Er.
  assert (TaskCreate.repository p = "acme/repo") as ->; [|reflexivity]. done.
Defined.

(** The reason given for a response over the limit never reaches the caller:
    the rejection is a [ValueError] and the clause for invalid JSON catches
    it. *)
Theorem oversized_response_is_masked (bracketed_host : string → bool) (service url token : string) (page : Opened) :
  at_origin bracketed_host service url = true → BRIDGE_RESPONSE_BYTES < page_size page →
  runs (ask bracketed_host service "GET" url token None)
    [ev (answer:=Portfolio.answer) (open_url url "GET" (headers_for service token false) None) (Ok page)]
    (Raise (bridge_rejected (String.append service "_unavailable_or_invalid_json"))).
Proof.
  intros Ha Hs. unfold ask, at_origin in *. destruct (urlparse _ url) as [u|]; [|done]. cbn [of_res mbind prog_bind].
  destruct (allowed_origin service u) as [[|]|]; try done. cbn -[Z.leb headers_for]. constructor.
  cbn -[Z.leb]. rewrite (proj2 (Z.leb_gt _ _)) by done. cbn. constructor.
Qed.
