(* ===== verification/PyJson.v ===== *)
(** [json.loads] with its hooks, as an executable parser, and the round trip
    with [json.dumps] of [Json].

    Numbers are integers and texts have code points below 256, as everywhere
    in this development: a number with a fraction or an exponent, and an
    escape of a larger code point, end in [Beyond], an error that no clause of
    the program catches.  The depth that the interpreter allows is not
    bounded. *)
From S2P Require Import Prelude PyStr Json PyVal Names.
From Stdlib Require Import Ascii String Sorted.
From stdpp Require Import strings pretty.

Local Open Scope Z_scope.

Definition decode_error : exn := ValueError "JSONDecodeError".
Definition beyond : exn := Error "Beyond" "json".

Definition json_space (c : ascii) : bool := one_of (str [chr 32; chr 9; chr 10; chr 13]) c.
Definition skip (l : list ascii) : list ascii := drop_while json_space l.

(** ** Texts *)

Definition hex_digit_value (c : ascii) : option N :=
  if is_digit c then Some (code c - 48)%N
  else if in_range 97 102 c then Some (code c - 87)%N
  else if in_range 65 70 c then Some (code c - 55)%N else None.
Definition hex4 (a b c d : ascii) : option N :=
  x ← hex_digit_value a; y ← hex_digit_value b; z ← hex_digit_value c; w ← hex_digit_value d;
  Some (4096 * x + 256 * y + 16 * z + w)%N.
Definition short_escape (c : ascii) : option ascii :=
  let n := code c in
  if ((n =? 34) || (n =? 92) || (n =? 47))%N then Some c
  else if (n =? 98)%N then Some (chr 8) else if (n =? 102)%N then Some (chr 12)
  else if (n =? 110)%N then Some (chr 10) else if (n =? 114)%N then Some (chr 13)
  else if (n =? 116)%N then Some (chr 9) else None.
(** After the opening quote. *)
Fixpoint scan_string (l : list ascii) : res (list ascii * list ascii) :=
  match l with
  | [] => Raise decode_error
  | c :: l' =>
      if Ascii.eqb c quote then Ok ([], l')
      else if Ascii.eqb c backslash then
        match l' with
        | [] => Raise decode_error
        | e :: l'' =>
            if Ascii.eqb e "u" then
              match l'' with
              | h1 :: h2 :: h3 :: h4 :: k =>
                  match hex4 h1 h2 h3 h4 with
                  | None => Raise decode_error
                  | Some n => if (n <? 256)%N then r ← scan_string k; Ok (chr n :: r.1, r.2) else Raise beyond
                  end
              | _ => Raise decode_error
              end
            else match short_escape e with
                 | None => Raise decode_error
                 | Some x => r ← scan_string l''; Ok (x :: r.1, r.2)
                 end
        end
      else if (code c <? 32)%N then Raise decode_error
      else r ← scan_string l'; Ok (c :: r.1, r.2)
  end.

(** ** Numbers *)

(** The limit of [int] on the digits of a text. *)
Definition INT_DIGITS : nat := 4300.
Definition digits_value (l : list ascii) : N := fold_left (fun n c => 10 * n + (code c - 48))%N l 0%N.
Definition fraction_follows (l : list ascii) : bool :=
  match l with
  | "."%char :: d :: _ => is_digit d
  | e :: l' =>
      one_of "eE" e && match l' with
                       | s :: d :: _ => is_digit s || (one_of "+-" s && is_digit d)
                       | [s] => is_digit s
                       | [] => false
                       end
  | [] => false
  end.
Definition scan_number (negative : bool) (l : list ascii) : res (json * list ascii) :=
  match l with
  | [] => Raise decode_error
  | c :: l' =>
      if negb (is_digit c) then Raise decode_error else
      let '(ds, rest) := if Ascii.eqb c "0" then ([c], l') else span is_digit l in
      if fraction_follows rest then Raise beyond
      else if (INT_DIGITS <? length ds)%nat then Raise (ValueError "Exceeds the limit for integer string conversion")
      else let n := Z.of_N (digits_value ds) in Ok (JInt (if negative then - n else n), rest)
  end.

(** ** Values *)

Definition after (w : string) (l : list ascii) : option (list ascii) :=
  if starts_with w (str l) then Some (drop (len w) l) else None.
Definition sequel (c : ascii) (l : list ascii) : option (list ascii) :=
  match l with x :: l' => if Ascii.eqb x c then Some l' else None | [] => None end.

Section Loads.
(** [object_pairs_hook] on the members of an object, and what
    [parse_constant] raises. *)
Context (pairs : list (string * json) → res (list (string * json))) (constant : exn).

(** One value; the values of an array and the members of an object up to their
    closing bracket.  Each step costs one unit of fuel. *)
Fixpoint scan (fuel : nat) (l : list ascii) : res (json * list ascii) :=
  match fuel with
  | O => Raise (Error "Fuel" "")
  | S fuel' =>
      match l with
      | [] => Raise decode_error
      | c :: l' =>
          if Ascii.eqb c quote then r ← scan_string l'; Ok (JStr (str r.1), r.2)
          else if Ascii.eqb c "{" then
            match sequel "}" (skip l') with
            | Some k => ms ← pairs []; Ok (JObj ms, k)
            | None => r ← scan_members fuel' (skip l'); ms ← pairs r.1; Ok (JObj ms, r.2)
            end
          else if Ascii.eqb c "[" then
            match sequel "]" (skip l') with
            | Some k => Ok (JList [], k)
            | None => r ← scan_items fuel' (skip l'); Ok (JList r.1, r.2)
            end
          else match after "null" l, after "true" l, after "false" l with
               | Some k, _, _ => Ok (JNull, k)
               | _, Some k, _ => Ok (JBool true, k)
               | _, _, Some k => Ok (JBool false, k)
               | _, _, _ =>
                   match after "NaN" l, after "Infinity" l, after "-Infinity" l with
                   | None, None, None => if Ascii.eqb c "-" then scan_number true l' else scan_number false l
                   | _, _, _ => Raise constant
                   end
               end
      end
  end
with scan_items (fuel : nat) (l : list ascii) : res (list json * list ascii) :=
  match fuel with
  | O => Raise (Error "Fuel" "")
  | S fuel' =>
      v ← scan fuel' l;
      let k := skip v.2 in
      match sequel "]" k with
      | Some k' => Ok ([v.1], k')
      | None => match sequel "," k with
                | Some k' => r ← scan_items fuel' (skip k'); Ok (v.1 :: r.1, r.2)
                | None => Raise decode_error
                end
      end
  end
with scan_members (fuel : nat) (l : list ascii) : res (list (string * json) * list ascii) :=
  match fuel with
  | O => Raise (Error "Fuel" "")
  | S fuel' =>
      match sequel quote l with
      | None => Raise decode_error
      | Some l' =>
          name ← scan_string l';
          match sequel ":" (skip name.2) with
          | None => Raise decode_error
          | Some k =>
              v ← scan fuel' (skip k);
              let m := (str name.1, v.1) in
              let k := skip v.2 in
              match sequel "}" k with
              | Some k' => Ok ([m], k')
              | None => match sequel "," k with
                        | Some k' => r ← scan_members fuel' (skip k'); Ok (m :: r.1, r.2)
                        | None => Raise decode_error
                        end
              end
          end
      end
  end.

Definition loads (s : string) : res json :=
  let l := skip (chars s) in
  r ← scan (2 * length l + 1) l;
  match skip r.2 with [] => Ok r.1 | _ => Raise decode_error end.
End Loads.

(** A hook that refuses a repeated name, with the error it raises. *)
Fixpoint unique_names (e : exn) (seen : list string) (ms : list (string * json)) : res unit :=
  match ms with
  | [] => Ok tt
  | m :: ms' => if bool_decide (m.1 ∈ seen) then Raise e else unique_names e (m.1 :: seen) ms'
  end.
Definition unique_pairs (e : exn) (ms : list (string * json)) : res (list (string * json)) :=
  unique_names e [] ms ;; Ok ms.

(** [b.decode("ascii")] *)
Definition ascii_decode (b : string) : res string :=
  if forallb (fun c => (code c <? 128)%N) (chars b) then Ok b else Raise (ValueError "UnicodeDecodeError").

Definition loads_test : string → res json := loads (unique_pairs (ValueError "dup")) (ValueError "constant").
Example loads_examples :
  map loads_test
    [str (chars "{ " ++ quote :: chars "a\u00e9\n" ++ quote :: chars " : [1, -20,true , null,[] ,{}]}");
     "[1,]"; "01"; "-"; " -0 "; "NaN"; "nul"; "1.5"; "1.x"; "[1"; "";
     str (chars "{" ++ quote :: quote :: chars ":1," ++ quote :: quote :: chars ":2}")]%string
  = [Ok (JObj [(str ("a"%char :: chr 233 :: [chr 10]), JList [JInt 1; JInt (-20); JBool true; JNull; JList []; JObj []])]);
     Raise decode_error; Raise decode_error; Raise decode_error; Ok (JInt 0); Raise (ValueError "constant");
     Raise decode_error; Raise beyond; Raise decode_error; Raise decode_error; Raise decode_error;
     Raise (ValueError "dup")].
Proof. vm_compute. reflexivity. Qed.

(** ** The round trip with [json.dumps] *)

(** The values that a decoder can return: no repeated name, integers within
    the limit. *)
Fixpoint loadable (v : json) : bool :=
  match v with
  | JInt n => (length (chars (int_text (Z.abs n))) <=? INT_DIGITS)%nat
  | JList l => forallb loadable l
  | JObj ms => bool_decide (NoDup (keys ms)) && forallb (fun m => loadable m.2) ms
  | _ => true
  end.

Section Induction.
Context (P : json → Prop) (HN : P JNull) (HB : ∀ b, P (JBool b)) (HI : ∀ n, P (JInt n)) (HS : ∀ s, P (JStr s))
  (HL : ∀ l, Forall P l → P (JList l)) (HO : ∀ ms, Forall (fun m : string * json => P m.2) ms → P (JObj ms)).
Fixpoint json_nested_ind (v : json) : P v :=
  match v with
  | JNull => HN
  | JBool b => HB b
  | JInt n => HI n
  | JStr s => HS s
  | JList l => HL l ((fix go l := match l return Forall P l with
                                  | [] => Forall_nil_2 P
                                  | x :: l' => Forall_cons_2 P x l' (json_nested_ind x) (go l')
                                  end) l)
  | JObj ms => HO ms ((fix go ms := match ms return Forall (fun m : string * json => P m.2) ms with
                                    | [] => Forall_nil_2 _
                                    | m :: ms' => Forall_cons_2 _ m ms' (json_nested_ind m.2) (go ms')
                                    end) ms)
  end.
End Induction.

(** *** Texts *)

Lemma scan_escape c l : scan_string (escape_ascii c ++ l) = (r ← scan_string l; Ok (c :: r.1, r.2)).
Proof. destruct c as [[] [] [] [] [] [] [] []]; reflexivity. Qed.
Lemma scan_written s l : scan_string (flat_map escape_ascii (chars s) ++ quote :: l) = Ok (chars s, l).
Proof.
  induction (chars s) as [|c k IH]; [done|]. cbn [flat_map]. rewrite <- app_assoc, scan_escape, IH. done.
Qed.
Lemma json_string_app s l : json_string_with escape_ascii s ++ l = quote :: flat_map escape_ascii (chars s) ++ quote :: l.
Proof. unfold json_string_with. cbn. by rewrite <- app_assoc. Qed.

(** *** Numbers *)

Lemma digits_value_snoc l c : digits_value (l ++ [c]) = (10 * digits_value l + (code c - 48))%N.
Proof. unfold digits_value. by rewrite fold_left_app. Qed.
Lemma pretty_char n : (n < 10)%N → is_digit (pretty_N_char n) = true ∧ (code (pretty_N_char n) - 48)%N = n ∧
  (n ≠ 0%N → Ascii.eqb (pretty_N_char n) "0" = false).
Proof.
  intros H. assert (n = 0 ∨ n = 1 ∨ n = 2 ∨ n = 3 ∨ n = 4 ∨ n = 5 ∨ n = 6 ∨ n = 7 ∨ n = 8 ∨ n = 9)%N as Hn by lia.
  repeat destruct Hn as [->|Hn]; try subst n; (split; [done|split; [done|]]); done.
Qed.
Lemma pretty_go (x : N) : (0 < x)%N → ∀ s, ∃ c l, pretty_N_go x s = (str (c :: l) ++ s)%string ∧
  forallb is_digit (c :: l) = true ∧ digits_value (c :: l) = x ∧ Ascii.eqb c "0" = false.
Proof.
  induction (N.lt_wf_0 x) as [x _ IH]. intros Hx s. rewrite pretty_N_go_step by done.
  pose proof (N.mod_lt x 10 ltac:(lia)) as Hm. destruct (pretty_char (x `mod` 10) Hm) as (H1 & H2 & H3).
  destruct (decide (x < 10)%N) as [Hs|Hs].
  - rewrite (N.div_small x 10) by done. rewrite (N.mod_small x 10) in * by done.
    exists (pretty_N_char x), []. split; [|split; [|split]].
    + change (pretty_N_go 0 ?a) with a. done.
    + cbn. by rewrite H1.
    + unfold digits_value. cbn [fold_left]. rewrite H2. lia.
    + apply H3. lia.
  - destruct (IH (x / 10)%N ltac:(apply N.div_lt; lia) ltac:(apply N.div_str_pos; lia) (String (pretty_N_char (x `mod` 10)) s))
      as (c & l & E & Hd & Hv & Hc).
    exists c, (l ++ [pretty_N_char (x `mod` 10)]). split; [|split; [|split; [|done]]].
    + rewrite E. apply chars_inj. rewrite !chars_app, !chars_str. change (c :: l ++ ?k) with ((c :: l) ++ k).
      by rewrite <- app_assoc.
    + change (c :: l ++ ?k) with ((c :: l) ++ k). rewrite forallb_app, Hd. cbn. by rewrite H1.
    + change (c :: l ++ ?k) with ((c :: l) ++ k). rewrite digits_value_snoc, Hv, H2.
      pose proof (N.div_mod x 10 ltac:(lia)). lia.
Qed.

(** What may follow a number. *)
Definition stops (l : list ascii) : bool :=
  match l with c :: _ => negb (is_digit c) && negb (Ascii.eqb c ".") && negb (one_of "eE" c) | [] => true end.
Lemma stops_fraction l : stops l = true → fraction_follows l = false.
Proof.
  destruct l as [|c l]; [done|]. unfold stops, fraction_follows. intros [[_ H2]%andb_prop H3]%andb_prop.
  destruct (one_of "eE" c); [done|].
  destruct c as [[] [] [] [] [] [] [] []]; try done; by destruct l.
Qed.
Lemma span_digits l k : forallb is_digit l = true → stops k = true → span is_digit (l ++ k) = (l, k).
Proof.
  intros Hl Hk. induction l as [|c l IH]; cbn [app span].
  - destruct k as [|c k]; [done|]. cbn in Hk. cbn [span]. destruct (is_digit c); [done|done].
  - cbn in Hl. apply andb_prop in Hl as [-> Hl]. by rewrite IH.
Qed.
Lemma scan_pretty neg (x : N) l :
  (length (chars (pretty x)) <= INT_DIGITS)%nat → stops l = true →
  scan_number neg (chars (pretty x) ++ l) = Ok (JInt (if neg then - Z.of_N x else Z.of_N x), l).
Proof.
  intros Hlen Hl. destruct (decide (x = 0%N)) as [->|Hx].
  - change (chars (pretty 0%N)) with ["0"%char]. unfold scan_number. cbn -[fraction_follows INT_DIGITS].
    rewrite (stops_fraction l Hl). by destruct neg.
  - assert (pretty x = pretty_N_go x "") as E by by apply decide_False.
    destruct (pretty_go x ltac:(lia) "") as (c & k & E' & Hd & Hv & Hc). rewrite E, E' in *.
    rewrite chars_app, chars_str, app_nil_r in *. unfold scan_number. cbn [app].
    pose proof Hd as Hd'. cbn in Hd'. apply andb_prop in Hd' as [Hdc _]. rewrite Hdc, Hc. cbn [negb].
    change (c :: k ++ l) with ((c :: k) ++ l). rewrite span_digits by done.
    rewrite (stops_fraction l Hl), (proj2 (Nat.ltb_ge _ _) Hlen), Hv. by destruct neg.
Qed.

(** *** Values *)

Fixpoint items_text (l : list json) : list ascii :=
  match l with
  | [] => ["]"%char]
  | [x] => dumps_ascii x ++ ["]"%char]
  | x :: l' => dumps_ascii x ++ ","%char :: items_text l'
  end.
Definition member_text (m : string * json) : list ascii := json_string_with escape_ascii m.1 ++ ":"%char :: dumps_ascii m.2.
Fixpoint members_text (l : list (string * json)) : list ascii :=
  match l with
  | [] => ["}"%char]
  | [m] => member_text m ++ ["}"%char]
  | m :: l' => member_text m ++ ","%char :: members_text l'
  end.
Lemma dumps_items l : dumps_ascii (JList l) = "["%char :: items_text l.
Proof. reflexivity. Qed.
Lemma dumps_members ms : dumps_ascii (JObj ms) = "{"%char :: members_text ms.
Proof.
  unfold dumps_ascii. cbn [dumps_with]. f_equal. induction ms as [|[k x] ms IH]; [done|].
  unfold members_text, member_text, dumps_ascii; fold members_text. cbn [fst snd].
  destruct ms as [|m ms]; [by rewrite <- app_assoc|]. rewrite IH, <- app_assoc. done.
Qed.

(** The first character of a value. *)
Definition starter (c : ascii) : bool :=
  negb (json_space c) && negb (Ascii.eqb c "]") && negb (Ascii.eqb c "}").
Lemma int_text_N x : int_text (Z.of_N x) = pretty x.
Proof. by destruct x. Qed.
Lemma pretty_shape (x : N) : ∃ c l, chars (pretty x) = c :: l ∧ is_digit c = true.
Proof.
  destruct (decide (x = 0%N)) as [->|Hx]; [by exists "0"%char, []|].
  assert (pretty x = pretty_N_go x "") as -> by by apply decide_False.
  destruct (pretty_go x ltac:(lia) "") as (c & k & E' & Hd & _). exists c, k. rewrite E', chars_app, chars_str, app_nil_r.
  split; [done|]. cbn in Hd. by apply andb_prop in Hd as [-> _].
Qed.
Lemma int_text_shape n : ∃ c l, chars (int_text n) = c :: l ∧
  (if (n <? 0)%Z then c = "-"%char ∧ l = chars (pretty (Z.to_N (- n))) else is_digit c = true ∧ c :: l = chars (pretty (Z.to_N n))).
Proof.
  destruct n as [|p|p]; [by exists "0"%char, []|..].
  - destruct (pretty_shape (Npos p)) as (c & l & E & Hc). exists c, l. by split; [|split].
  - by exists "-"%char, (chars (pretty (Npos p))).
Qed.
Lemma digit_starter c : is_digit c = true → starter c = true.
Proof. by destruct c as [[] [] [] [] [] [] [] []]. Qed.
Lemma dumps_start v : ∃ c l, dumps_ascii v = c :: l ∧ starter c = true.
Proof.
  destruct v as [|[|]|n|s|l|ms]; try (by eexists _, _).
  - destruct (int_text_shape n) as (c & l & E & H). exists c, l. split; [exact E|].
    destruct (n <? 0)%Z; [by destruct H as [-> _]|by apply digit_starter, H].
Qed.
Lemma skip_start c l : starter c = true → skip (c :: l) = c :: l.
Proof. unfold starter, skip. cbn [drop_while]. by destruct (json_space c). Qed.
Lemma sequel_start c l x : starter c = true → bool_decide (x ∈ ["]"; "}"]%char) = true → sequel x (c :: l) = None.
Proof.
  unfold starter. intros [[_ H1]%andb_prop H2]%andb_prop Hx%bool_decide_eq_true. cbn.
  apply list_elem_of_In in Hx. cbn in Hx.
  destruct Hx as [<-|[<-|[]]]; [by destruct (Ascii.eqb c "]")|by destruct (Ascii.eqb c "}")].
Qed.

Section RoundTrip.
Context (e constant : exn).
Let hook := unique_pairs e.

Lemma unique_pairs_ok ms : NoDup (keys ms) → hook ms = Ok ms.
Proof.
  unfold hook, unique_pairs. assert (∀ seen, NoDup (keys ms ++ seen) → unique_names e seen ms = Ok tt) as H.
  { induction ms as [|m ms IH]; [done|]. intros seen H. cbn in *. inversion_clear H as [|? ? Hn Hd].
    rewrite bool_decide_eq_false_2 by (intros Hs; apply Hn, elem_of_app; by right).
    apply IH. rewrite (Permutation_app_comm (keys ms)). cbn. rewrite (Permutation_app_comm seen). by constructor. }
  intros Hd. rewrite H; [done|]. by rewrite app_nil_r.
Qed.

Lemma scan_int n l fuel : loadable (JInt n) = true → stops l = true →
  scan hook constant (S fuel) (dumps_ascii (JInt n) ++ l) = Ok (JInt n, l).
Proof.
  intros Hn%Nat.leb_le Hl. change (dumps_ascii (JInt n)) with (chars (int_text n)).
  destruct (int_text_shape n) as (c & k & E & H). rewrite E. cbn [app].
  assert (Z.abs n = Z.of_N (Z.to_N (Z.abs n))) as Ha by lia. rewrite Ha, int_text_N in Hn.
  destruct (Z.ltb_spec n 0) as [Hneg|Hpos].
  - destruct H as [-> ->]. rewrite (Z.abs_neq n) in Hn by lia.
    destruct (pretty_shape (Z.to_N (- n))) as (d & k' & E' & Hd).
    transitivity (scan_number true (chars (pretty (Z.to_N (- n))) ++ l)).
    { rewrite E'. cbn [app]. by destruct d as [[] [] [] [] [] [] [] []]. }
    rewrite scan_pretty by done. do 2 f_equal. f_equal. lia.
  - destruct H as [Hd Hk]. rewrite (Z.abs_eq n) in Hn by lia.
    transitivity (scan_number false ((c :: k) ++ l)); [by destruct c as [[] [] [] [] [] [] [] []]|].
    rewrite Hk, scan_pretty by done. do 2 f_equal. f_equal. lia.
Qed.
Lemma after_app w l : after w (chars w ++ l) = Some l.
Proof.
  unfold after. assert (starts_with w (str (chars w ++ l)) = true) as ->.
  { induction w as [|c w IH]; [done|]. cbn. by rewrite Ascii.eqb_refl. }
  by rewrite len_chars, drop_app_length.
Qed.

Lemma scan_text s l fuel : scan hook constant (S fuel) (json_string_with escape_ascii s ++ l) = Ok (JStr s, l).
Proof. rewrite json_string_app. cbn [scan]. rewrite Ascii.eqb_refl, scan_written. cbn. by rewrite str_chars. Qed.

(** A value is read back whole, whatever follows it that is not part of a
    number. *)
Definition reads_back (v : json) : Prop := ∀ l fuel,
  loadable v = true → stops l = true → (2 * length (dumps_ascii v) + 1 <= fuel)%nat →
  scan hook constant fuel (dumps_ascii v ++ l) = Ok (v, l).

Lemma scan_items_text vs : vs ≠ [] → Forall reads_back vs → ∀ l fuel,
  forallb loadable vs = true → (2 * length (items_text vs) + 2 <= fuel)%nat →
  scan_items hook constant fuel (items_text vs ++ l) = Ok (vs, l).
Proof.
  induction vs as [|v vs IH]; intros Hne HF l fuel Hok Hfuel; [done|].
  inversion_clear HF as [|? ? Hv HF']. cbn in Hok. apply andb_prop in Hok as [Hokv Hoks].
  destruct fuel as [|fuel]; [lia|]. cbn [scan_items].
  destruct vs as [|w vs].
  - cbn [items_text] in *. rewrite length_app in Hfuel. rewrite <- app_assoc, Hv by (done || cbn in Hfuel; lia). done.
  - change (items_text (v :: w :: vs)) with (dumps_ascii v ++ ","%char :: items_text (w :: vs)) in *.
    rewrite length_app in Hfuel. cbn [length] in Hfuel. rewrite <- app_assoc, Hv by (done || lia).
    cbn [mbind res_bind app snd fst]. change (skip (","%char :: ?x)) with (","%char :: x).
    change (sequel "]" (","%char :: ?x)) with (@None (list ascii)). change (sequel "," (","%char :: ?x)) with (Some x).
    cbn beta iota. destruct (dumps_start w) as (c & k & E & Hc).
    assert (∃ k', items_text (w :: vs) = c :: k') as [k' Ek].
    { destruct vs; cbn [items_text]; rewrite E; by eexists. }
    rewrite Ek. cbn [app]. rewrite skip_start by done. change (c :: k' ++ l) with ((c :: k') ++ l). rewrite <- Ek.
    rewrite IH by (done || lia). done.
Qed.

Lemma member_text_app m l : member_text m ++ l = quote :: flat_map escape_ascii (chars m.1) ++ quote :: ":"%char :: dumps_ascii m.2 ++ l.
Proof. unfold member_text. by rewrite <- app_assoc, json_string_app. Qed.
Lemma scan_members_text ms : ms ≠ [] → Forall (fun m => reads_back m.2) ms → ∀ l fuel,
  forallb (fun m => loadable m.2) ms = true → (2 * length (members_text ms) + 2 <= fuel)%nat →
  scan_members hook constant fuel (members_text ms ++ l) = Ok (ms, l).
Proof.
  induction ms as [|m ms IH]; intros Hne HF l fuel Hok Hfuel; [done|].
  inversion_clear HF as [|? ? Hv HF']. cbn [forallb] in Hok. apply andb_prop in Hok as [Hokv Hoks].
  destruct fuel as [|fuel]; [lia|].
  assert (∃ t, members_text (m :: ms) ++ l = member_text m ++ t ∧ stops t = true ∧
    (2 * length (dumps_ascii m.2) + 1 <= fuel)%nat ∧
    match ms with [] => t = "}"%char :: l | _ => t = ","%char :: members_text ms ++ l ∧ (2 * length (members_text ms) + 2 <= fuel)%nat end)
    as (t & Et & Hstop & Hf & Ht).
  { assert (length (member_text m) = length (json_string_with escape_ascii m.1) + S (length (dumps_ascii m.2)))%nat as Hlm
      by by unfold member_text; rewrite length_app.
    destruct ms as [|m' ms].
    - cbn [members_text] in *. rewrite length_app in Hfuel. cbn [length] in Hfuel. eexists. rewrite <- app_assoc.
      split; [done|]. split; [done|]. split; [lia|done].
    - change (members_text (m :: m' :: ms)) with (member_text m ++ ","%char :: members_text (m' :: ms)) in *.
      rewrite length_app in Hfuel. cbn [length] in Hfuel. eexists. rewrite <- app_assoc.
      split; [done|]. split; [done|]. split; [lia|]. split; [done|lia]. }
  rewrite Et, member_text_app. cbn [scan_members]. change (sequel quote (quote :: ?x)) with (Some x). cbn beta iota.
  rewrite scan_written. cbn [mbind res_bind app snd fst]. change (skip (":"%char :: ?x)) with (":"%char :: x).
  change (sequel ":" (":"%char :: ?x)) with (Some x). cbn beta iota.
  assert (skip (dumps_ascii m.2 ++ t) = dumps_ascii m.2 ++ t) as ->.
  { destruct (dumps_start m.2) as (c & k & -> & Hc). cbn [app]. by apply skip_start. }
  rewrite Hv by done. cbn [mbind res_bind snd fst]. rewrite str_chars.
  destruct ms as [|m' ms]; [subst t; by destruct m|]. destruct Ht as [-> Hf'].
  change (skip (","%char :: ?x)) with (","%char :: x).
  change (sequel "}" (","%char :: ?x)) with (@None (list ascii)). change (sequel "," (","%char :: ?x)) with (Some x).
  cbn beta iota. assert (skip (members_text (m' :: ms) ++ l) = members_text (m' :: ms) ++ l) as ->.
  { destruct ms; cbn [members_text]; rewrite <- app_assoc, member_text_app; done. }
  rewrite IH by (done || lia). by destruct m.
Qed.

Lemma value_reads_back v : reads_back v.
Proof.
  induction v as [|b|n|s|vs IH|ms IH] using json_nested_ind; intros l fuel Hok Hl Hfuel;
    (destruct fuel as [|fuel]; [lia|]).
  - by destruct l.
  - by destruct b.
  - by apply scan_int.
  - apply scan_text.
  - rewrite dumps_items in *. cbn [app length] in *. destruct vs as [|v vs]; [done|].
    assert (∃ c k, items_text (v :: vs) = c :: k ∧ starter c = true) as (c & k & Ek & Hc).
    { destruct (dumps_start v) as (c & k & E & Hc). destruct vs; cbn [items_text]; rewrite E; by eexists _, _. }
    cbn [scan]. change (Ascii.eqb "[" quote) with false. change (Ascii.eqb "[" "{") with false.
    change (Ascii.eqb "[" "[") with true. cbn beta iota. rewrite Ek. cbn [app].
    rewrite skip_start, sequel_start by done. change (c :: k ++ l) with ((c :: k) ++ l). rewrite <- Ek.
    rewrite scan_items_text by (done || lia). done.
  - rewrite dumps_members in *. cbn [app length loadable] in *. apply andb_prop in Hok as [Hnd%bool_decide_eq_true Hok].
    destruct ms as [|m ms]; [done|].
    cbn [scan]. change (Ascii.eqb "{" quote) with false. change (Ascii.eqb "{" "{") with true. cbn beta iota.
    assert (∃ k, members_text (m :: ms) = quote :: k) as [k Ek].
    { destruct ms; cbn [members_text]; rewrite member_text_app; by eexists. }
    rewrite Ek. cbn [app]. change (skip (quote :: ?x)) with (quote :: x).
    change (sequel "}" (quote :: ?x)) with (@None (list ascii)). cbn beta iota.
    change (quote :: k ++ l) with ((quote :: k) ++ l). rewrite <- Ek.
    rewrite scan_members_text by (done || lia). cbn [mbind res_bind snd fst]. by rewrite unique_pairs_ok.
Qed.

(** Reading what was written. *)
Lemma loads_dumps v : loadable v = true → loads hook constant (str (dumps_ascii v)) = Ok v.
Proof.
  intros Hok. unfold loads. rewrite chars_str. destruct (dumps_start v) as (c & k & E & Hc).
  assert (skip (dumps_ascii v) = dumps_ascii v) as -> by by rewrite E; apply skip_start.
  pose proof (value_reads_back v [] (2 * length (dumps_ascii v) + 1)%nat Hok eq_refl ltac:(lia)) as H.
  rewrite app_nil_r in H. by rewrite H.
Qed.
End RoundTrip.

(** What is written is within ASCII. *)
Lemma escape_ascii_class c : forallb (fun c => (code c <? 128)%N) (escape_ascii c) = true.
Proof. by destruct c as [[] [] [] [] [] [] [] []]. Qed.
Lemma string_ascii s : forallb (fun c => (code c <? 128)%N) (json_string_with escape_ascii s) = true.
Proof.
  unfold json_string_with. cbn [forallb]. rewrite forallb_app. cbn [forallb].
  assert (forallb (fun c => (code c <? 128)%N) (flat_map escape_ascii (chars s)) = true) as ->; [|done].
  induction (chars s) as [|c l IH]; [done|]. cbn [flat_map]. by rewrite forallb_app, escape_ascii_class, IH.
Qed.
Lemma digits_ascii l : forallb is_digit l = true → forallb (fun c => (code c <? 128)%N) l = true.
Proof.
  rewrite !forallb_elem. intros H c Hc. specialize (H c Hc). by destruct c as [[] [] [] [] [] [] [] []].
Qed.
Lemma pretty_ascii (x : N) : forallb (fun c => (code c <? 128)%N) (chars (pretty x)) = true.
Proof.
  destruct (decide (x = 0%N)) as [->|Hx]; [done|].
  assert (pretty x = pretty_N_go x "") as -> by by apply decide_False.
  destruct (pretty_go x ltac:(lia) "") as (c & k & -> & Hd & _). rewrite chars_app, chars_str, app_nil_r.
  by apply digits_ascii.
Qed.
Lemma dumps_is_ascii v : forallb (fun c => (code c <? 128)%N) (dumps_ascii v) = true.
Proof.
  induction v as [|b|n|s|vs IH|ms IH] using json_nested_ind; [done|by destruct b|..].
  - change (dumps_ascii (JInt n)) with (chars (int_text n)). destruct n as [|p|p]; [done|apply (pretty_ascii (Npos p))|].
    apply (pretty_ascii (Npos p)).
  - apply string_ascii.
  - rewrite dumps_items. enough (forallb (fun c => (code c <? 128)%N) (items_text vs) = true) as E; [exact E|].
    induction IH as [|v vs Hv _ IH]; [done|]. destruct vs; cbn [items_text]; rewrite forallb_app, Hv; [done|exact IH].
  - rewrite dumps_members. enough (forallb (fun c => (code c <? 128)%N) (members_text ms) = true) as E; [exact E|].
    induction IH as [|m ms Hv _ IH]; [done|].
    assert (forallb (fun c => (code c <? 128)%N) (member_text m) = true) as Hm.
    { unfold member_text. rewrite forallb_app, string_ascii. exact Hv. }
    destruct ms; cbn [members_text]; rewrite forallb_app, Hm; [done|exact IH].
Qed.
Lemma ascii_decode_dumps v : ascii_decode (str (dumps_ascii v)) = Ok (str (dumps_ascii v)).
Proof. unfold ascii_decode. by rewrite chars_str, dumps_is_ascii. Qed.

(** *** The order of the members *)

Definition ordered : list (string * json) → Prop := StronglySorted (fun m n => text_leb m.1 n.1 = true).
Lemma insert_key_perm m ms : insert_key m ms ≡ₚ m :: ms.
Proof.
  induction ms as [|n ms IH]; [done|]. cbn. destruct (text_leb _ _); [done|]. rewrite IH. apply Permutation_swap.
Qed.
Lemma sort_keys_perm ms : sort_keys ms ≡ₚ ms.
Proof.
  induction ms as [|m ms IH]; [done|]. change (sort_keys (m :: ms)) with (insert_key m (sort_keys ms)).
  by rewrite insert_key_perm, IH.
Qed.
Lemma insert_key_ordered m ms : ordered ms → ordered (insert_key m ms).
Proof.
  induction 1 as [|n ms Hs IH Hn]; cbn; [by repeat constructor|].
  destruct (text_leb m.1 n.1) eqn:E.
  - constructor; [by constructor|]. constructor; [done|]. eapply Forall_impl; [exact Hn|]. intros k Hk. cbn in Hk.
    by eapply text_leb_trans.
  - constructor; [exact IH|]. rewrite Forall_forall. intros k. rewrite insert_key_perm. intros [->|Hk]%elem_of_cons.
    + by destruct (text_leb_total m.1 n.1) as [H|H]; [rewrite H in E|].
    + rewrite Forall_forall in Hn. by apply Hn.
Qed.
Lemma sort_keys_ordered ms : ordered (sort_keys ms).
Proof.
  induction ms as [|m ms IH]; [constructor|]. change (sort_keys (m :: ms)) with (insert_key m (sort_keys ms)).
  by apply insert_key_ordered.
Qed.
Lemma sort_ordered ms : ordered ms → sort_keys ms = ms.
Proof.
  induction 1 as [|m ms Hs IH Hm]; [done|]. change (sort_keys (m :: ms)) with (insert_key m (sort_keys ms)). rewrite IH.
  destruct ms as [|n ms]; [done|]. cbn. inversion_clear Hm as [|? ? H _]. by rewrite H.
Qed.
Lemma ordered_map_values f ms : ordered ms → ordered (map (fun m => (m.1, f m.2 : json)) ms).
Proof.
  induction 1 as [|m ms Hs IH Hm]; [constructor|]. cbn. constructor; [exact IH|].
  rewrite Forall_forall in *. intros k Hk. apply list_elem_of_In, in_map_iff in Hk as (n & <- & Hn). cbn.
  apply Hm. by apply list_elem_of_In.
Qed.

Lemma sort_all_idem v : sort_all (sort_all v) = sort_all v.
Proof.
  induction v as [|b|n|s|vs IH|ms IH] using json_nested_ind; [done..| |].
  - cbn. f_equal. rewrite map_map. induction IH as [|v vs Hv _ IH]; cbn; [done|]. by rewrite Hv, IH.
  - cbn [sort_all]. f_equal. set (ns := map (fun m => (m.1, sort_all m.2)) ms).
    assert (map (fun m => (m.1, sort_all m.2)) (sort_keys ns) = sort_keys ns) as ->.
    { assert (Forall (fun m => sort_all m.2 = m.2) (sort_keys ns)) as H.
      { rewrite sort_keys_perm. unfold ns. induction IH as [|m ms Hm _ IH]; cbn; [constructor|]. by constructor. }
      induction H as [|m l Hm _ IHl]; [done|]. cbn. rewrite IHl, Hm. by destruct m. }
    apply sort_ordered, sort_keys_ordered.
Qed.
Lemma loadable_sort_all v : loadable (sort_all v) = loadable v.
Proof.
  induction v as [|b|n|s|vs IH|ms IH] using json_nested_ind; [done..| |].
  - cbn. induction IH as [|v vs Hv _ IH]; cbn; [done|]. by rewrite Hv, IH.
  - cbn [sort_all loadable]. set (ns := map (fun m => (m.1, sort_all m.2)) ms).
    assert (keys (sort_keys ns) ≡ₚ keys ms) as Hk by by rewrite keys_sort_keys; unfold ns; rewrite keys_map_values.
    rewrite (bool_decide_ext _ (NoDup (keys ms))) by by rewrite Hk. f_equal.
    transitivity (forallb (fun m : string * json => loadable m.2) ns).
    { apply eq_iff_eq_true. rewrite !forallb_elem. by setoid_rewrite sort_keys_perm. }
    clear Hk. unfold ns. induction IH as [|m ms Hm _ IH]; cbn; [done|]. by rewrite Hm, IH.
Qed.

(** *** Integers that fit, and equality up to the order of members *)

Lemma pretty_go_length k : ∀ x s, (x < 10 ^ N.of_nat k)%N → (String.length (pretty_N_go x s) ≤ k + String.length s)%nat.
Proof.
  induction k as [|k IH]; intros x s Hx.
  - assert (x = 0%N) as -> by (cbn in Hx; lia). change (pretty_N_go 0 s) with s. lia.
  - destruct (decide (x = 0%N)) as [->|Hn]; [change (pretty_N_go 0 s) with s; lia|].
    rewrite pretty_N_go_step by lia. etrans; [apply IH|cbn; lia].
    rewrite Nat2N.inj_succ, N.pow_succ_r' in Hx. apply N.Div0.div_lt_upper_bound; lia.
Qed.
Lemma int_loadable n : Z.abs n < 2 ^ 64 → loadable (JInt n) = true.
Proof.
  intros Hn. apply Nat.leb_le. replace (Z.abs n) with (Z.of_N (Z.to_N (Z.abs n))) by lia. rewrite int_text_N.
  destruct (decide (Z.to_N (Z.abs n) = 0%N)) as [->|H0]; [by vm_compute; lia|].
  assert (pretty (Z.to_N (Z.abs n)) = pretty_N_go (Z.to_N (Z.abs n)) "") as -> by by apply decide_False.
  rewrite <- len_chars. etrans; [apply (pretty_go_length 20)|unfold INT_DIGITS; cbn; lia].
  change (10 ^ N.of_nat 20)%N with 100000000000000000000%N. change (2 ^ 64) with 18446744073709551616 in Hn. lia.
Qed.
Lemma lookup_key_elem {A} k (v : A) ms : NoDup (keys ms) → (k, v) ∈ ms → lookup_key k ms = Some v.
Proof.
  unfold lookup_key. induction ms as [|m ms IH]; cbn; [by intros _ H%elem_of_nil|].
  inversion_clear 1 as [|? ? Hn Hd]. intros [<-|H]%elem_of_cons; cbn; [by rewrite String.eqb_refl|].
  destruct m as [j x]; cbn in *; destruct (String.eqb_spec j k) as [->|]; [|by apply IH].
  exfalso. apply Hn. apply list_elem_of_In, in_map_iff. exists (k, v). by rewrite <- list_elem_of_In.
Qed.
Lemma py_eqb_sort_all v : loadable v = true → py_eqb (sort_all v) v = true.
Proof.
  induction v as [|b|n|s|vs IH|ms IH] using json_nested_ind; intros Hv;
    [done|by destruct b|by apply Z.eqb_refl|by apply String.eqb_refl|..].
  - cbn in *. induction IH as [|v vs Hx _ IH]; cbn in *; [done|]. apply andb_prop in Hv as [Hv1 Hv2]. by rewrite Hx, IH.
  - cbn [sort_all loadable] in *. apply andb_prop in Hv as [Hnd%bool_decide_eq_true Hv].
    set (ns := map (fun m => (m.1, sort_all m.2)) ms). cbn [py_eqb].
    assert (length (sort_keys ns) = length ms) as -> by by rewrite sort_keys_perm; unfold ns; rewrite length_map.
    rewrite Nat.eqb_refl. cbn [andb].
    assert (Forall (fun m => ∃ y, lookup_key m.1 ms = Some y ∧ py_eqb m.2 y = true) (sort_keys ns)) as HF.
    { rewrite sort_keys_perm, Forall_forall. intros m Hm. unfold ns in Hm.
      apply list_elem_of_In, in_map_iff in Hm as (n & <- & Hn). cbn. exists n.2. split.
      - apply lookup_key_elem; [done|]. destruct n. by apply list_elem_of_In.
      - rewrite Forall_forall in IH. apply IH; [by apply list_elem_of_In|]. rewrite forallb_forall in Hv. by apply Hv. }
    induction HF as [|m l (y & E & Hy) _ IHl]; [done|]. destruct m as [k x]. cbn in E, Hy. by rewrite E, Hy, IHl.
Qed.
