(* ===== verification/PyBytes.v ===== *)
(** Bytes as the library codes them: SHA-1 and the identity of a Git blob,
    base64 as [binascii] reads and writes it, and [struct]'s big-endian
    32-bit integers.  Bytes are texts of code points below 256. *)
From S2P Require Import Prelude PyStr Json PyText Sha256.
From Stdlib Require Import Ascii String.
From stdpp Require Import strings.

Local Open Scope Z_scope.

(** ** [hashlib.sha1(b).hexdigest()] *)

Definition rotl (x n : Z) : Z := rotr x (32 - n).
Record sha1_state := H5 { a5 : Z; b5 : Z; c5 : Z; d5 : Z; e5 : Z }.
Definition sha1_initial : sha1_state := H5 0x67452301 0xefcdab89 0x98badcfe 0x10325476 0xc3d2e1f0.
(** The words of the schedule, the last sixteen in the window. *)
Fixpoint sha1_schedule (n : nat) (window : list Z) : list Z :=
  match n, window with
  | S n', w0 :: rest =>
      let x := Z.lxor (Z.lxor (nth 12 rest 0) (nth 7 rest 0)) (Z.lxor (nth 1 rest 0) w0) in
      w0 :: sha1_schedule n' (rest ++ [rotl x 1])
  | _, _ => []
  end.
Definition sha1_round (s : sha1_state) (tw : nat * Z) : sha1_state :=
  let '(t, w) := tw in
  let b := b5 s in let c := c5 s in let d := d5 s in
  let parity := Z.lxor (Z.lxor b c) d in
  let '(f, k) :=
    if (t <? 20)%nat then (Z.lor (Z.land b c) (Z.land (not32 b) d), 0x5a827999)
    else if (t <? 40)%nat then (parity, 0x6ed9eba1)
    else if (t <? 60)%nat then (Z.lor (Z.lor (Z.land b c) (Z.land b d)) (Z.land c d), 0x8f1bbcdc)
    else (parity, 0xca62c1d6) in
  H5 (add32 (add32 (add32 (add32 (rotl (a5 s) 5) f) (e5 s)) k) w) (a5 s) (rotl b 30) c d.
Definition sha1_compress (s : sha1_state) (block : list Z) : sha1_state :=
  let r := fold_left sha1_round (combine (seq 0 80) (sha1_schedule 80 block)) s in
  H5 (add32 (a5 s) (a5 r)) (add32 (b5 s) (b5 r)) (add32 (c5 s) (c5 r)) (add32 (d5 s) (d5 r)) (add32 (e5 s) (e5 r)).
Definition byte_value (c : ascii) : Z := Z.of_N (code c).
Definition sha1_hex (data : string) : string :=
  let ws := words (pad (map byte_value (chars data))) in
  let h := fold_left sha1_compress (blocks (S (length ws)) ws) sha1_initial in
  str (hex32 (a5 h) ++ hex32 (b5 h) ++ hex32 (c5 h) ++ hex32 (d5 h) ++ hex32 (e5 h)).

(** The name that Git gives to the contents of a file. *)
Definition blob_sha1 (raw : string) : string :=
  sha1_hex (concat_text ["blob "; int_text (length_of raw); str [chr 0]; raw]).

Example sha1_examples :
  (sha1_hex "abc", sha1_hex "", blob_sha1 (str (chars "hello" ++ [LF])))
  = ("a9993e364706816aba3e25717850c26c9cd0d89d", "da39a3ee5e6b4b0d3255bfef95601890afd80709",
     "ce013625030ba8dba906f756967f9e9ca394464a")%string.
Proof. vm_compute. reflexivity. Qed.

(** ** Base64 *)

Definition base64_digit (n : Z) : ascii :=
  chr (Z.to_N (if n <? 26 then 65 + n else if n <? 52 then 71 + n else if n <? 62 then n - 4 else if n =? 62 then 43 else 47)).
Definition base64_value (c : ascii) : option Z :=
  let n := byte_value c in
  if (65 <=? n) && (n <=? 90) then Some (n - 65)
  else if (97 <=? n) && (n <=? 122) then Some (n - 71)
  else if (48 <=? n) && (n <=? 57) then Some (n + 4)
  else if n =? 43 then Some 62 else if n =? 47 then Some 63 else None.

Fixpoint base64_encode (l : list ascii) : list ascii :=
  match l with
  | a :: b :: c :: l' =>
      let x := byte_value a in let y := byte_value b in let z := byte_value c in
      base64_digit (x / 4) :: base64_digit (x mod 4 * 16 + y / 16) :: base64_digit (y mod 16 * 4 + z / 64)
        :: base64_digit (z mod 64) :: base64_encode l'
  | [a; b] =>
      let x := byte_value a in let y := byte_value b in
      [base64_digit (x / 4); base64_digit (x mod 4 * 16 + y / 16); base64_digit (y mod 16 * 4); "="%char]
  | [a] => let x := byte_value a in [base64_digit (x / 4); base64_digit (x mod 4 * 16); "="%char; "="%char]
  | [] => []
  end.
(** [base64.b64encode(b).decode("ascii")] *)
Definition b64encode (raw : string) : string := str (base64_encode (chars raw)).

Definition base64_error : exn := ValueError "binascii.Error".
Definition byte (n : Z) : ascii := chr (Z.to_N (n mod 256)).
(** The position in the group of four, the bits that are left over, the pads
    since the last digit and whether there was one before it. *)
Fixpoint base64_decode (strict : bool) (quad left pads : Z) (started : bool) (l : list ascii) : res (list ascii) :=
  match l with
  | [] => if quad =? 0 then Ok [] else Raise base64_error
  | c :: l' =>
      if Ascii.eqb c "=" then
        if 2 <=? quad then
          if 4 <=? quad + (pads + 1) then
            if strict && match l' with [] => false | _ => true end then Raise base64_error else Ok []
          else base64_decode strict quad left (pads + 1) true l'
        else base64_decode strict quad left pads true l'
      else match base64_value c with
           | None => if strict then Raise base64_error else base64_decode strict quad left pads started l'
           | Some v =>
               if strict && started then Raise base64_error
               else if quad =? 0 then base64_decode strict 1 v 0 started l'
               else if quad =? 1 then
                 r ← base64_decode strict 2 (v mod 16) 0 started l'; Ok (byte (left * 4 + v / 16) :: r)
               else if quad =? 2 then
                 r ← base64_decode strict 3 (v mod 4) 0 started l'; Ok (byte (left * 16 + v / 4) :: r)
               else r ← base64_decode strict 0 0 0 started l'; Ok (byte (left * 64 + v) :: r)
           end
  end.
(** [base64.b64decode(s, validate=strict)] of a text. *)
Definition b64decode (strict : bool) (s : string) : res string :=
  if negb (forallb (fun c => (code c <? 128)%N) (chars s)) then Raise (ValueError "string argument should contain only ASCII characters")
  else if strict && starts_with "=" s then Raise base64_error
  else r ← base64_decode strict 0 0 0 false (chars s); Ok (str r).

Example base64_examples :
  (map b64encode [""; "f"; "fo"; "foo"; "foobar"], map (b64decode true) ["Zg=="; "Zm8="; "Zm9v"; "Zm9v="; "Zg="; "Z"; "Zg==x"; "Z g=="],
   map (b64decode false) ["Z g=="; "Zg==x"; "Zm9v=Zg=="; "Zg=Z"])%string
  = ([""; "Zg=="; "Zm8="; "Zm9v"; "Zm9vYmFy"],
     [Ok "f"; Ok "fo"; Ok "foo"; Ok "foo"; Raise base64_error; Raise base64_error; Raise base64_error; Raise base64_error],
     [Ok "f"; Ok "f"; Ok "foof"; Raise base64_error])%string.
Proof. vm_compute. reflexivity. Qed.

(** ["".join(s.split())] *)
Definition without_space (s : string) : string := str (List.filter (fun c => negb (is_space c)) (chars s)).

(** ** [struct.pack(">I", n)] and [struct.unpack(">I", b)] *)

Definition pack32 (n : Z) : list ascii := map (fun i => byte (Z.shiftr n (8 * i))) [3; 2; 1; 0].
Definition unpack32 (l : list ascii) : Z := fold_left (fun n c => 256 * n + byte_value c) l 0.

Lemma byte_value_bound c : 0 <= byte_value c < 256.
Proof. unfold byte_value, code. pose proof (N_ascii_bounded c). lia. Qed.
Lemma byte_value_byte n : byte_value (byte n) = n mod 256.
Proof.
  unfold byte_value, byte. pose proof (Z.mod_pos_bound n 256 ltac:(lia)). rewrite code_chr by lia. lia.
Qed.
Lemma byte_of_value c : byte (byte_value c) = c.
Proof.
  unfold byte. rewrite Z.mod_small by apply byte_value_bound. unfold byte_value. rewrite N2Z.id. apply ascii_N_embedding.
Qed.
Lemma unpack_pack n : 0 <= n < 2 ^ 32 → unpack32 (pack32 n) = n.
Proof.
  intros H. unfold pack32, unpack32. cbn [map fold_left]. rewrite !byte_value_byte, !Z.shiftr_div_pow2 by lia.
  change (2 ^ (8 * 3)) with 16777216. change (2 ^ (8 * 2)) with 65536. change (2 ^ (8 * 1)) with 256. change (2 ^ (8 * 0)) with 1.
  change (2 ^ 32) with 4294967296 in H. Z.div_mod_to_equations. lia.
Qed.

(** *** Reading what was encoded *)

Lemma base64_digit_cases n : 0 <= n < 64 → base64_value (base64_digit n) = Some n ∧ Ascii.eqb (base64_digit n) "=" = false ∧
  is_space (base64_digit n) = false ∧ (code (base64_digit n) <? 128)%N = true.
Proof.
  intros H. assert (Forall (fun i => base64_value (base64_digit i) = Some i ∧ Ascii.eqb (base64_digit i) "=" = false ∧
    is_space (base64_digit i) = false ∧ (code (base64_digit i) <? 128)%N = true) (map Z.of_nat (seq 0 64))) as HF.
  { cbn [seq map]. repeat (constructor; [by vm_compute|]). constructor. }
  rewrite Forall_forall in HF. apply HF. apply list_elem_of_In, in_map_iff. exists (Z.to_nat n). split; [lia|].
  apply in_seq. lia.
Qed.
Lemma decode_digit strict quad left n started l : 0 <= n < 64 → started = false →
  base64_decode strict quad left 0 started (base64_digit n :: l) =
  (if quad =? 0 then base64_decode strict 1 n 0 started l
   else if quad =? 1 then r ← base64_decode strict 2 (n mod 16) 0 started l; Ok (byte (left * 4 + n / 16) :: r)
   else if quad =? 2 then r ← base64_decode strict 3 (n mod 4) 0 started l; Ok (byte (left * 16 + n / 4) :: r)
   else r ← base64_decode strict 0 0 0 started l; Ok (byte (left * 64 + n) :: r)).
Proof. intros Hn ->. destruct (base64_digit_cases n Hn) as (E & Hp & _). cbn [base64_decode]. by rewrite Hp, E, andb_false_r. Qed.

Lemma list_ind3 {A} (P : list A → Prop) :
  P [] → (∀ a, P [a]) → (∀ a b, P [a; b]) → (∀ a b c l, P l → P (a :: b :: c :: l)) → ∀ l, P l.
Proof.
  intros H0 H1 H2 H3. fix go 1. intros [|a [|b [|c l]]]; [exact H0|exact (H1 a)|exact (H2 a b)|exact (H3 a b c l (go l))].
Qed.
Lemma sextets x y z : 0 <= x < 256 → 0 <= y < 256 → 0 <= z < 256 →
  0 <= x / 4 < 64 ∧ 0 <= x mod 4 * 16 + y / 16 < 64 ∧ 0 <= y mod 16 * 4 + z / 64 < 64 ∧ 0 <= z mod 64 < 64 ∧
  x / 4 * 4 + (x mod 4 * 16 + y / 16) / 16 = x ∧
  (x mod 4 * 16 + y / 16) mod 16 * 16 + (y mod 16 * 4 + z / 64) / 4 = y ∧ (y mod 16 * 4 + z / 64) mod 4 * 64 + z mod 64 = z.
Proof. intros. Z.div_mod_to_equations. lia. Qed.
Lemma base64_decode_encode strict l : base64_decode strict 0 0 0 false (base64_encode l) = Ok l.
Proof.
  induction l as [|a|a b|a b c l IH] using list_ind3; [done|..].
  - destruct (sextets (byte_value a) 0 0 (byte_value_bound a)) as (H1 & H2 & _ & _ & E1 & _); [lia..|].
    rewrite Z.add_0_r in H2, E1. cbn [base64_encode]. rewrite !decode_digit by done. cbn -[Z.mul Z.div Z.modulo byte_value byte].
    by rewrite E1, byte_of_value, andb_false_r.
  - destruct (sextets (byte_value a) (byte_value b) 0 (byte_value_bound a) (byte_value_bound b)) as (H1 & H2 & H3 & _ & E1 & E2 & _); [lia|].
    rewrite Z.add_0_r in H3, E2. cbn [base64_encode]. rewrite !decode_digit by done. cbn -[Z.mul Z.div Z.modulo byte_value byte].
    by rewrite E1, E2, !byte_of_value, andb_false_r.
  - destruct (sextets (byte_value a) (byte_value b) (byte_value c) (byte_value_bound a) (byte_value_bound b) (byte_value_bound c))
      as (H1 & H2 & H3 & H4 & E1 & E2 & E3).
    cbn [base64_encode]. rewrite !decode_digit by done. cbn -[Z.mul Z.div Z.modulo byte_value byte base64_decode].
    by rewrite IH, E1, E2, E3, !byte_of_value.
Qed.

(** The encoding is made of digits and pads. *)
Definition base64_char (c : ascii) : bool := negb (is_space c) && (code c <? 128)%N.
Lemma base64_digit_char n : 0 <= n < 64 → base64_char (base64_digit n) = true.
Proof. intros H. destruct (base64_digit_cases n H) as (_ & _ & H1 & H2). unfold base64_char. by rewrite H1, H2. Qed.
Lemma base64_encode_chars l : forallb base64_char (base64_encode l) = true.
Proof.
  induction l as [|a|a b|a b c l IH] using list_ind3; [done|..].
  - destruct (sextets (byte_value a) 0 0 (byte_value_bound a)) as (H1 & H2 & _); [lia..|]. rewrite Z.add_0_r in H2.
    cbn [base64_encode forallb]. by rewrite !base64_digit_char.
  - destruct (sextets (byte_value a) (byte_value b) 0 (byte_value_bound a) (byte_value_bound b)) as (H1 & H2 & H3 & _); [lia|].
    rewrite Z.add_0_r in H3. cbn [base64_encode forallb]. by rewrite !base64_digit_char.
  - destruct (sextets (byte_value a) (byte_value b) (byte_value c) (byte_value_bound a) (byte_value_bound b) (byte_value_bound c))
      as (H1 & H2 & H3 & H4 & _).
    cbn [base64_encode forallb]. by rewrite !base64_digit_char, IH.
Qed.
Lemma base64_encode_ascii s : forallb (fun c => (code c <? 128)%N) (chars (b64encode s)) = true.
Proof.
  unfold b64encode. rewrite chars_str. pose proof (base64_encode_chars (chars s)) as H. rewrite forallb_elem in *.
  intros c Hc. specialize (H c Hc). by apply andb_prop in H as [_ H].
Qed.
Lemma base64_encode_compact s : without_space (b64encode s) = b64encode s.
Proof.
  unfold without_space, b64encode. rewrite chars_str. f_equal. pose proof (base64_encode_chars (chars s)) as H.
  induction (base64_encode (chars s)) as [|c l IH]; [done|]. cbn in *. apply andb_prop in H as [Hc H].
  unfold base64_char in Hc. apply andb_prop in Hc as [-> _]. by rewrite IH.
Qed.
Lemma base64_encode_head s : starts_with "=" (b64encode s) = false.
Proof.
  unfold b64encode. assert (∀ n, 0 <= n < 64 → Ascii.eqb "=" (base64_digit n) = false) as H.
  { intros n Hn. rewrite Ascii.eqb_sym. apply base64_digit_cases, Hn. }
  pose proof byte_value_bound as Hb.
  destruct (chars s) as [|a [|b [|c l]]]; [done|..]; cbn -[Z.mul Z.div Z.modulo byte_value base64_digit Ascii.eqb];
    (rewrite H; [done|]; specialize (Hb a); Z.div_mod_to_equations; lia).
Qed.
Lemma b64decode_encode strict s : b64decode strict (b64encode s) = Ok s.
Proof.
  unfold b64decode. rewrite base64_encode_ascii, base64_encode_head, andb_false_r. cbn [negb].
  unfold b64encode. rewrite chars_str, base64_decode_encode. cbn. by rewrite str_chars.
Qed.

Lemma sha1_hex_len s : len (sha1_hex s) = 40%nat.
Proof. unfold sha1_hex. by rewrite len_chars, chars_str. Qed.
Lemma sha1_hex_class s : forallb hex_lower (chars (sha1_hex s)) = true.
Proof. unfold sha1_hex. by rewrite chars_str, !forallb_app, !hex32_class. Qed.
