(* ===== verification/Bundle.v ===== *)
(** The durable artifact of [app/s3_git_bundle_artifact.py] as bytes: the
    configuration of the store, the keys, the header with its canonical
    encoding, the framing of header and Git bundle, its decoder, and the
    validation of the bundle's own header. *)
From Stdlib Require Import Ascii String.
From stdpp Require Import strings.
From S2P Require Import Prelude PyStr Sha256 Json PyVal PyText Names PyJson PyBytes PyUrl Manifest.

Local Open Scope string_scope.
Local Open Scope Z_scope.

Definition ARTIFACT_KIND : string := "git_bundle_v1".
Definition ARTIFACT_REF_PREFIX : string := "cas+git-bundle://sha256/".
Definition MAGIC : string := String.append "CWP-GIT-BUNDLE-V1" newline.
Definition PREFLIGHT_VALUE : string := String.append "CWP-S3-PREFLIGHT-V1" newline.
Definition HEADER_LIMIT : Z := 65536.
Definition BUNDLE_HEADER_LIMIT : Z := 65536.
Definition lower_digit : ascii → bool := either is_lower is_digit.
Definition SAFE_PREFIX : re := Cat (Chr lower_digit) (Rep 0 (Some 255%nat) (Chr (either lower_digit (one_of "._/-")))).
Definition SAFE_REGION : re := Cat (Chr lower_digit) (Rep 1 (Some 62%nat) (Chr (either lower_digit (one_of "-")))).
Definition SAFE_BUCKET : re :=
  Cat (Chr lower_digit) (Cat (Rep 1 (Some 61%nat) (Chr (either lower_digit (one_of ".-")))) (Chr lower_digit)).

(** ** Configuration *)

Module S3ArtifactConfig.
Record t := mk {
  bucket : string; region : string; key_prefix : string; endpoint_url : option string; max_artifact_bytes : Z }.
End S3ArtifactConfig.
Definition invalid_config : exn := blocked "artifact_store_config_invalid".
Section Config.
(** [_check_bracketed_host] of an IPv6 address. *)
Context (bracketed_host : string → bool).
Definition endpoint_ok (text : string) : res unit :=
  need ((1 <=? length_of text) && (length_of text <=? 2048) && forallb (fun c => (code c <? 128)%N) (chars text) &&
        forallb (fun c => negb (is_space c)) (chars text)) "artifact_store_config_invalid" ;;
  match urlsplit bracketed_host text with
  | Raise e => Raise (match e with ValueError _ => invalid_config | _ => e end)
  | Ok u =>
      need (String.eqb (Url.scheme u) "https" && truthy (hostname u) &&
            match username u with None => true | _ => false end && match password u with None => true | _ => false end &&
            String.eqb (Url.query u) "" && String.eqb (Url.fragment u) "" &&
            bool_decide (Url.path u ∈ [""; "/"])) "artifact_store_config_invalid"
  end.
(** [__post_init__] *)
Definition valid_config (c : S3ArtifactConfig.t) : res unit :=
  need (fullmatch SAFE_BUCKET (S3ArtifactConfig.bucket c) && negb (contains ".." (S3ArtifactConfig.bucket c)) &&
        negb (contains ".-" (S3ArtifactConfig.bucket c)) && negb (contains "-." (S3ArtifactConfig.bucket c)))
    "artifact_store_config_invalid" ;;
  need (fullmatch SAFE_REGION (S3ArtifactConfig.region c)) "artifact_store_config_invalid" ;;
  need (fullmatch SAFE_PREFIX (S3ArtifactConfig.key_prefix c) && negb (ends_with "/" (S3ArtifactConfig.key_prefix c)) &&
        forallb (fun part => negb (bool_decide (part ∈ [""; "."; ".."])))
          (map str (split_on "/" (chars (S3ArtifactConfig.key_prefix c))))) "artifact_store_config_invalid" ;;
  need ((1024 <=? S3ArtifactConfig.max_artifact_bytes c) && (S3ArtifactConfig.max_artifact_bytes c <=? 1073741824))
    "artifact_store_config_invalid" ;;
  match S3ArtifactConfig.endpoint_url c with Some text => endpoint_ok text | None => Ok tt end.

(** [int(s)]: digits with single underscores between them, within blanks. *)
Fixpoint int_digits (acc : Z) (count : nat) (l : list ascii) : option (Z * nat) :=
  match l with
  | [] => Some (acc, count)
  | c :: l' =>
      if is_digit c then int_digits (10 * acc + (byte_value c - 48)) (S count) l'
      else match l' with
           | d :: l'' => if Ascii.eqb c "_" && is_digit d then int_digits (10 * acc + (byte_value d - 48)) (S count) l'' else None
           | [] => None
           end
  end.
Definition int_of (s : string) : res Z :=
  let l := strip_class int_space (chars s) in
  let '(negative, l) := match l with
                        | "-"%char :: l' => (true, l') | "+"%char :: l' => (false, l') | _ => (false, l)
                        end in
  match l with
  | c :: l' =>
      match (if is_digit c then int_digits (byte_value c - 48) 1 l' else None) with
      | Some (n, count) =>
          if (INT_DIGITS <? count)%nat then Raise (ValueError "Exceeds the limit for integer string conversion")
          else Ok (if negative then - n else n)
      | None => Raise (ValueError "invalid literal for int() with base 10")
      end
  | [] => Raise (ValueError "invalid literal for int() with base 10")
  end.
(** [a or b or ""] of names of the environment. *)
Definition first_set (l : list (option string)) : option string := default None (List.find truthy l).
(** [from_environment], up to the client of the SDK. *)
Definition config_of_environment (environ : string → option string) : res S3ArtifactConfig.t :=
  let get name := environ name in
  maximum ← match int_of (default (int_text (64 * 1024 * 1024)) (get "CODEX_ARTIFACT_S3_MAX_BYTES")) with
            | Raise e => Raise (match e with ValueError _ => invalid_config | _ => e end)
            | r => r
            end;
  let c := S3ArtifactConfig.mk (default "" (get "CODEX_ARTIFACT_S3_BUCKET"))
    (default "" (first_set [get "CODEX_ARTIFACT_S3_REGION"; get "AWS_REGION"; get "AWS_DEFAULT_REGION"]))
    (default "codex-artifacts" (get "CODEX_ARTIFACT_S3_PREFIX"))
    (first_set [get "CODEX_ARTIFACT_S3_ENDPOINT"; get "AWS_ENDPOINT_URL_S3"]) maximum in
  valid_config c ;; Ok c.
End Config.

Example config_examples :
  (map int_of [" +1_000 "; "-5"; "1__0"; "_1"; ""; "x"],
   map (fun e => match valid_config (fun _ => true) (S3ArtifactConfig.mk "bucket-1" "eu-1" "a/b" e 1024) with Ok _ => true | _ => false end)
     [None; Some "https://s3.example.org/"; Some "http://s3.example.org"; Some "https://u@s3"; Some "https://s3/;"; Some "https:///"])
  = ([Ok 1000; Ok (-5); Raise (ValueError "invalid literal for int() with base 10");
      Raise (ValueError "invalid literal for int() with base 10"); Raise (ValueError "invalid literal for int() with base 10");
      Raise (ValueError "invalid literal for int() with base 10")],
     [true; true; false; false; false; false]).
Proof. vm_compute. reflexivity. Qed.

(** ** Keys and descriptors *)

Definition cas_key (prefix kind digest suffix : string) : string :=
  concat_text [prefix; "/"; kind; "/sha256/"; take_str 2 digest; "/"; digest; suffix].
Definition preflight_key (c : S3ArtifactConfig.t) : string :=
  cas_key (S3ArtifactConfig.key_prefix c) "preflight-v1" (sha256_hex PREFLIGHT_VALUE) ".probe".
(** [_key] *)
Definition bundle_key (c : S3ArtifactConfig.t) (digest : string) : res string :=
  need (fullmatch SHA256_HEX digest) "durable_artifact_invalid" ;;
  Ok (cas_key (S3ArtifactConfig.key_prefix c) "git-bundle-v1" digest ".artifact").
Definition descriptor (digest : string) : DurableArtifact.t :=
  DurableArtifact.mk ARTIFACT_KIND (String.append ARTIFACT_REF_PREFIX digest) digest.
(** [_descriptor_digest] *)
Definition descriptor_digest (a : DurableArtifact.t) : res string :=
  let digest := DurableArtifact.artifact_sha256 a in
  need (String.eqb (DurableArtifact.artifact_kind a) ARTIFACT_KIND && fullmatch SHA256_HEX digest &&
        String.eqb (DurableArtifact.artifact_ref a) (String.append ARTIFACT_REF_PREFIX digest)) "durable_artifact_invalid" ;;
  Ok digest.

(** ** The header *)

(** [_safe_relative_path] *)
Definition safe_relative_path (value : json) : res string :=
  need (str_that (fun s => (1 <=? len s)%nat && (len s <=? 240)%nat) value) "artifact_manifest_invalid" ;;
  let s := match value with JStr s => s | _ => "" end in
  let parts := path_parts s in
  need (negb (starts_with "/" s) && negb (contains "\" s) && negb (existsb (String.eqb "..") parts) &&
        forallb (fun part => negb (bool_decide (part ∈ [""; "."])) && negb (starts_with "." part)) parts)
    "artifact_manifest_invalid" ;;
  Ok (as_posix parts).
Definition sorted_hashes (l : list (string * string)) : json := JObj (sort_keys (map (fun m => (m.1, JStr m.2)) l)).
Definition task_manifest_value (m : TaskManifest.t) : json :=
  JObj [("schema_version", TaskManifest.schema_version m); ("task_id", JStr (TaskManifest.task_id m));
        ("repository", JStr (TaskManifest.repository m)); ("base_sha", JStr (TaskManifest.base_sha m));
        ("workspace_sha", JStr (TaskManifest.workspace_sha m)); ("adapter_id", JStr (TaskManifest.adapter_id m));
        ("adapter_contract_sha256", JStr (TaskManifest.adapter_contract_sha256 m));
        ("before_sha256", sorted_hashes (TaskManifest.before_sha256 m))].

(** [AdapterResult] of values whose types are not known yet. *)
Module RawResult.
Record t := mk { produced_sha : json; changed_paths : list json; invoked_commands : list json; evidence_sha256 : json }.
End RawResult.
Definition raw_of (r : AdapterResult.t) : RawResult.t :=
  RawResult.mk (JStr (AdapterResult.produced_sha r)) (map JStr (AdapterResult.changed_paths r))
    (map JStr (AdapterResult.invoked_commands r)) (JStr (AdapterResult.evidence_sha256 r)).
Definition strings (l : list json) : list string := map (fun v => match v with JStr s => s | _ => "" end) l.
(** [_result_value] *)
Definition result_value (r : RawResult.t) : res json :=
  need (str_that (fullmatch SHA40) (RawResult.produced_sha r) && str_that (fullmatch SHA256_HEX) (RawResult.evidence_sha256 r))
    "artifact_result_invalid" ;;
  paths ← map_res safe_relative_path (RawResult.changed_paths r);
  need (negb (bool_decide (paths = [])) && bool_decide (paths = sorted_set paths)) "artifact_result_invalid" ;;
  let commands := RawResult.invoked_commands r in
  need_r (Ok ((1 <=? length commands)%nat && (length commands <=? 64)%nat) &&&
          (if forallb hashable commands
           then Ok (forallb is_str commands && bool_decide (NoDup (strings commands)) &&
                    forallb (str_that (fullmatch NAME)) commands)
           else unhashable))%py "artifact_result_invalid" ;;
  Ok (JObj [("produced_sha", RawResult.produced_sha r); ("changed_paths", JList (map JStr paths));
            ("invoked_commands", JList commands); ("evidence_sha256", RawResult.evidence_sha256 r)]).

(** [_header] *)
Definition header_of (m : TaskManifest.t) (lease_generation : Z) (attempt_id effect_id : string) (r : AdapterResult.t)
    (bundle : string) : res json :=
  need ((1 <=? lease_generation) && fullmatch FENCE_ID attempt_id && fullmatch FENCE_ID effect_id) "artifact_fence_invalid" ;;
  value ← result_value (raw_of r);
  Ok (JObj [("schema_version", JInt 1); ("artifact_kind", JStr ARTIFACT_KIND); ("task_manifest", task_manifest_value m);
            ("lease_generation", JInt lease_generation); ("attempt_id", JStr attempt_id); ("effect_id", JStr effect_id);
            ("result", value);
            ("bundle", JObj [("sha256", JStr (sha256_hex bundle)); ("size", JInt (length_of bundle))])]).

(** ** The framing *)

(** [_encode] *)
Definition framed (header_bytes bundle : string) : string :=
  concat_text [MAGIC; str (pack32 (length_of header_bytes)); header_bytes; bundle].
Definition encode (header : json) (bundle : string) (maximum : Z) : res string :=
  let header_bytes := canonical header in
  need ((0 <? length_of header_bytes) && (length_of header_bytes <=? HEADER_LIMIT)) "artifact_manifest_invalid" ;;
  let value := framed header_bytes bundle in
  need (length_of value <=? maximum) "artifact_too_large" ;;
  Ok value.

(** The header and the bundle of a value, by its length field. *)
Definition unframed (value : string) : res (string * string) :=
  let l := chars value in
  let offset := len MAGIC in
  need (starts_with MAGIC value && (offset + 4 <=? len value)%nat) "artifact_integrity_invalid" ;;
  let header_length := unpack32 (take 4 (drop offset l)) in
  let rest := drop (offset + 4) l in
  need ((0 <? header_length) && (header_length <=? HEADER_LIMIT) && (header_length <? Z.of_nat (length rest)))
    "artifact_integrity_invalid" ;;
  let n := Z.to_nat header_length in
  Ok (str (take n rest), str (drop n rest)).
Definition HEADER_FIELDS : list string :=
  ["schema_version"; "artifact_kind"; "task_manifest"; "lease_generation"; "attempt_id"; "effect_id"; "result"; "bundle"].
Definition has_members (fields : list string) (v : json) : bool :=
  match v with JObj ms => same_set (keys ms) fields | _ => false end.
(** [v[k]] of a member that was checked to be there. *)
Definition at_key (k : string) (v : json) : json := match v with JObj ms => default JNull (lookup_key k ms) | _ => JNull end.
(** [_pairs_without_duplicates], [_reject_constant] *)
Definition artifact_loads : string → res json := loads (unique_pairs (ValueError "duplicate key")) (ValueError "non-finite number").
Definition value_or_type_error (e : exn) : bool := match e with ValueError _ | TypeError _ => true | _ => false end.
Definition read_header (header_bytes : string) : res json :=
  match text ← ascii_decode header_bytes; artifact_loads text with
  | Raise e => Raise (if value_or_type_error e then blocked "artifact_manifest_invalid" else e)
  | Ok header =>
      need (is_dict header && String.eqb (canonical header) header_bytes && has_members HEADER_FIELDS header &&
            py_eqb (at_key "schema_version" header) (JInt 1) && is_text (at_key "artifact_kind" header) ARTIFACT_KIND &&
            int_that (fun g => 1 <=? g) (at_key "lease_generation" header) &&
            str_that (fullmatch FENCE_ID) (at_key "attempt_id" header) &&
            str_that (fullmatch FENCE_ID) (at_key "effect_id" header)) "artifact_manifest_invalid" ;;
      Ok header
  end.
Definition bundle_matches (b : json) (bundle : string) : bool :=
  has_members ["sha256"; "size"] b && int_that (fun n => (n =? length_of bundle) && (0 <? length_of bundle)) (at_key "size" b) &&
  str_that (fun s => fullmatch SHA256_HEX s && String.eqb (sha256_hex bundle) s) (at_key "sha256" b).
Definition list_or_empty (v : json) : list json := match v with JList l => l | _ => [] end.
Definition raw_result (v : json) : RawResult.t :=
  RawResult.mk (at_key "produced_sha" v) (list_or_empty (at_key "changed_paths" v))
    (list_or_empty (at_key "invoked_commands" v)) (at_key "evidence_sha256" v).
Definition text_of (v : json) : string := match v with JStr s => s | _ => "" end.
Definition result_of (r : RawResult.t) : AdapterResult.t :=
  AdapterResult.mk (text_of (RawResult.produced_sha r)) (strings (RawResult.changed_paths r))
    (strings (RawResult.invoked_commands r)) (text_of (RawResult.evidence_sha256 r)).
(** The manifest of the publication, seen from the checkout that it produced. *)
Definition republished (m : TaskManifest.t) (written : json) (produced : string) : res unit :=
  need (String.eqb (TaskManifest.workspace_sha m) produced) "artifact_manifest_invalid" ;;
  publication ← match parse_manifest written with
                | Raise e => Raise (if is_a "NativeExecutorBlocked" e then blocked "artifact_manifest_invalid" else e)
                | r => r
                end;
  let value := task_manifest_value publication in
  need (py_eqb value written &&
        same_set (keys (TaskManifest.before_sha256 m)) (keys (TaskManifest.before_sha256 publication)) &&
        py_eqb (match task_manifest_value m with
                | JObj ms => JObj (set_key "before_sha256" (at_key "before_sha256" value)
                                    (set_key "workspace_sha" (JStr (TaskManifest.workspace_sha publication)) ms))
                | v => v
                end) value) "artifact_manifest_invalid".
(** [_decode] *)
Definition decode (value digest : string) (m : TaskManifest.t) (produced_sha : option string) (allow_result_workspace : bool)
    : res (json * string * AdapterResult.t) :=
  need (String.eqb (sha256_hex value) digest) "artifact_integrity_invalid" ;;
  parts ← unframed value;
  let bundle := parts.2 in
  header ← read_header parts.1;
  need (bundle_matches (at_key "bundle" header) bundle) "artifact_integrity_invalid" ;;
  let raw := at_key "result" header in
  need (has_members ["produced_sha"; "changed_paths"; "invoked_commands"; "evidence_sha256"] raw) "artifact_manifest_invalid" ;;
  let result := raw_result raw in
  result_value result ;;
  need (match produced_sha with None => true | Some sha => is_text (RawResult.produced_sha result) sha end)
    "artifact_result_invalid" ;;
  let written := at_key "task_manifest" header in
  (if py_eqb written (task_manifest_value m) then Ok tt
   else need (allow_result_workspace && match produced_sha with Some _ => true | None => false end) "artifact_manifest_invalid" ;;
        republished m written (text_of (RawResult.produced_sha result))) ;;
  Ok (header, bundle, result_of result).

(** ** The bundle's own header *)

Definition PACK : string := "PACK".
(** [b.find(b"\n\n")] *)
Fixpoint blank_line (n : nat) (l : list ascii) : option nat :=
  match l with
  | a :: ((b :: _) as l') => if Ascii.eqb a LF && Ascii.eqb b LF then Some n else blank_line (S n) l'
  | _ => None
  end.
Definition prerequisite_ok (line : list ascii) : bool :=
  (42 <=? length line)%nat && bool_decide (take 1 (drop 41 line) = [" "%char]) &&
  negb (existsb (Ascii.eqb (chr 0)) line) && negb (existsb (Ascii.eqb CR) line) &&
  fullmatch SHA40 (str (take 40 (drop 1 line))).
(** The name before the first blank and the rest of the line. *)
Definition reference (line : list ascii) : option string :=
  let '(sha, found, name) := partition " " line in
  if found && String.eqb (str name) "HEAD" && fullmatch SHA40 (str sha) then Some (str sha) else None.
Fixpoint bundle_lines (reference_seen : bool) (lines : list (list ascii)) : res (list string * list string) :=
  match lines with
  | [] => Ok ([], [])
  | line :: lines' =>
      if starts_with "-" (str line) && negb reference_seen then
        need (prerequisite_ok line) "artifact_bundle_invalid" ;;
        r ← bundle_lines false lines'; Ok (str (take 40 (drop 1 line)) :: r.1, r.2)
      else match reference line with
           | None => Raise (blocked "artifact_bundle_invalid")
           | Some sha => r ← bundle_lines true lines'; Ok (r.1, sha :: r.2)
           end
  end.
(** [_validate_bundle_header] *)
Definition validate_bundle_header (bundle workspace_sha produced_sha : string) : res unit :=
  need (fullmatch SHA40 workspace_sha && fullmatch SHA40 produced_sha) "artifact_bundle_invalid" ;;
  let l := chars bundle in
  match blank_line 0 l with
  | None => Raise (blocked "artifact_bundle_invalid")
  | Some boundary =>
      need ((0 <? Z.of_nat boundary) && (Z.of_nat boundary <=? BUNDLE_HEADER_LIMIT) &&
            String.eqb (str (take 4 (drop (boundary + 2) l))) PACK) "artifact_bundle_invalid" ;;
      match split_on LF (take boundary l) with
      | first :: lines =>
          need (String.eqb (str first) "# v2 git bundle") "artifact_bundle_invalid" ;;
          r ← bundle_lines false lines;
          need (bool_decide (r.1 = [workspace_sha]) && bool_decide (r.2 = [produced_sha])) "artifact_bundle_invalid"
      | [] => Raise (blocked "artifact_bundle_invalid")
      end
  end.
