(* ===== verification/BundleProps.v ===== *)
(** Properties of the durable artifact: what is encoded is decoded again, and
    nothing else is. *)
From Stdlib Require Import Ascii String.
From S2P Require Import Prelude PyStr Sha256 Json PyVal PyText Names PyJson PyBytes PyUrl Manifest Bundle.
From stdpp Require Import strings list.

Local Open Scope string_scope.
Local Open Scope Z_scope.
Local Open Scope list_scope.

Lemma need_true c code u : need c code = Ok u ↔ c = true.
Proof. destruct c, u; cbn; naive_solver. Qed.

(** ** The framing *)

Lemma starts_with_chars p l : starts_with p (str (chars p ++ l)) = true.
Proof. induction p as [|c p IH]; [done|]. cbn. by rewrite Ascii.eqb_refl. Qed.
Lemma starts_with_split p s : starts_with p s = true → ∃ t, chars s = chars p ++ t.
Proof.
  revert s. induction p as [|c p IH]; intros s H; [by exists (chars s)|]. destruct s as [|d s]; [done|].
  cbn in H. apply andb_prop in H as [E%Ascii.eqb_eq H]. destruct (IH s H) as [t Ht]. exists t. cbn. by rewrite E, Ht.
Qed.
Lemma chars_framed h b : chars (framed h b) = (chars MAGIC ++ pack32 (length_of h) ++ chars h ++ chars b)%list.
Proof. unfold framed, concat_text. cbn [flat_map]. by rewrite !chars_str, app_nil_r. Qed.
Lemma length_pack32 n : length (pack32 n) = 4%nat.
Proof. done. Qed.
Lemma unframed_framed h b : 0 < length_of h ≤ HEADER_LIMIT → 0 < length_of b → unframed (framed h b) = Ok (h, b).
Proof.
  intros Hh Hb. set (l := pack32 (length_of h) ++ chars h ++ chars b).
  assert (chars (framed h b) = chars MAGIC ++ l) as Hc by apply chars_framed.
  assert (starts_with MAGIC (framed h b) = true) as Hm.
  { rewrite <- (str_chars (framed h b)), Hc. apply starts_with_chars. }
  assert (length l = 4 + (len h + len b))%nat as Hl by by unfold l; rewrite !length_app, length_pack32, !len_chars.
  assert ((len MAGIC + 4 <=? len (framed h b))%nat = true) as Hn.
  { apply Nat.leb_le. rewrite len_chars, (len_chars (framed h b)), Hc, length_app. lia. }
  assert (unpack32 (take 4 l) = Z.of_nat (len h)) as Hu.
  { unfold l. rewrite (take_app_length' _ _ 4) by done. apply unpack_pack. unfold length_of, HEADER_LIMIT in *. lia. }
  assert (drop 4 l = chars h ++ chars b) as Hd by done.
  unfold unframed. rewrite Hm, Hn, Hc. cbn [andb need mbind res_bind].
  rewrite len_chars, <- !drop_drop, drop_app_length, !Hu, !Hd, length_app, <- !len_chars. unfold length_of in *.
  rewrite (proj2 (Z.ltb_lt 0 (Z.of_nat (len h)))), (proj2 (Z.leb_le _ _)), (proj2 (Z.ltb_lt _ _)) by lia.
  cbn [andb need mbind res_bind]. rewrite Nat2Z.id, len_chars, take_app_length, drop_app_length. by rewrite !str_chars.
Qed.
Lemma pack_unpack l : length l = 4%nat → pack32 (unpack32 l) = l.
Proof.
  destruct l as [|a [|b [|c [|d [|]]]]]; intros H; try discriminate. unfold unpack32, pack32. cbn [fold_left map].
  pose proof (byte_value_bound a). pose proof (byte_value_bound b). pose proof (byte_value_bound c). pose proof (byte_value_bound d).
  rewrite !Z.shiftr_div_pow2 by lia.
  change (2 ^ (8 * 3)) with 16777216. change (2 ^ (8 * 2)) with 65536. change (2 ^ (8 * 1)) with 256. change (2 ^ (8 * 0)) with 1.
  assert (∀ x y, x mod 256 = byte_value y → byte x = y) as Hb.
  { intros x y E. rewrite <- (byte_of_value y), <- E. unfold byte. by rewrite Z.mod_mod. }
  f_equal; [|f_equal; [|f_equal; [|f_equal]]]; apply Hb; Z.div_mod_to_equations; lia.
Qed.
(** What is taken apart was put together in this way. *)
Lemma framed_unframed value h b : unframed value = Ok (h, b) →
  value = framed h b ∧ 0 < length_of h ≤ HEADER_LIMIT ∧ 0 < length_of b.
Proof.
  unfold unframed. intros H. apply res_bind_ok in H as ([] & H1%need_true & H). apply res_bind_ok in H as ([] & H2%need_true & H).
  apply andb_prop in H1 as [Hm H1%Nat.leb_le]. destruct (starts_with_split _ _ Hm) as [t Ht].
  assert (drop (len MAGIC) (chars value) = t) as Hd by by rewrite len_chars, Ht, drop_app_length.
  rewrite <- drop_drop, Hd in *. set (n := unpack32 (take 4 t)) in *.
  apply andb_prop in H2 as [[H2%Z.ltb_lt H3%Z.leb_le]%andb_prop H4%Z.ltb_lt]. rewrite length_drop in H4.
  injection H as <- <-. unfold length_of. rewrite !len_chars, !chars_str, length_take, !length_drop. split; [|lia].
  apply chars_inj. rewrite chars_framed, Ht. f_equal. unfold length_of. rewrite len_chars, !chars_str, length_take, length_drop.
  replace (Z.of_nat (Z.to_nat n `min` (length t - 4))) with n by lia.
  rewrite take_drop. unfold n. rewrite pack_unpack, take_drop; [done|]. rewrite length_take. lia.
Qed.

(** ** Manifests *)

(** A manifest as the parser leaves it. *)
Definition proper_manifest (m : TaskManifest.t) : Prop :=
  loadable (TaskManifest.schema_version m) = true ∧ NoDup (keys (TaskManifest.before_sha256 m)).
Lemma NoDup_set_key {A} k (v : A) ms : NoDup (keys ms) → NoDup (keys (set_key k v ms)).
Proof.
  unfold set_key. intros H. destruct (existsb _ ms) eqn:E.
  - assert (keys (map (fun m => if String.eqb m.1 k then (m.1, v) else m) ms) = keys ms) as ->; [|done].
    unfold keys. rewrite map_map. apply map_ext. intros m. by destruct (String.eqb m.1 k).
  - unfold keys. rewrite map_app. apply NoDup_app. split; [done|]. split; [|apply NoDup_singleton].
    intros x Hx Hk. apply list_elem_of_singleton in Hk; cbn in Hk; subst x. apply list_elem_of_In, in_map_iff in Hx as (m & <- & Hm).
    rewrite existsb_false in E. apply list_elem_of_In in Hm. specialize (E m Hm). cbn in E. apply String.eqb_neq in E. done.
Qed.
Lemma normalize_nodup items : ∀ acc l, NoDup (keys acc) → normalize_hashes acc items = Ok l → NoDup (keys l).
Proof.
  induction items as [|[path d] items IH]; intros acc l Hacc H; cbn in H; [by injection H as <-|].
  apply res_bind_ok in H as (safe & _ & H). destruct d; try discriminate.
  apply res_bind_ok in H as ([] & _ & H). eapply IH; [|exact H]. by apply NoDup_set_key.
Qed.
Lemma parsed_manifest raw m : parse_manifest raw = Ok m → proper_manifest m.
Proof.
  unfold parse_manifest. intros H. apply res_bind_ok in H as (? & _ & H). apply res_bind_ok in H as ([] & _ & H).
  apply res_bind_ok in H as (before & _ & H). apply res_bind_ok in H as (normal & Hn & H).
  apply res_bind_ok in H as (version & _ & H). do 6 (apply res_bind_ok in H as (? & _ & H)).
  apply res_bind_ok in H as ([] & Hv%need_true & H). do 6 (apply res_bind_ok in H as (? & _ & H)). injection H as <-.
  split; cbn.
  - destruct version as [| |n| | |]; try done. cbn in Hv. apply Z.eqb_eq in Hv as ->. by apply int_loadable.
  - destruct before as [| | | | |items]; try discriminate. apply res_bind_ok in Hn as ([] & _ & Hn).
    eapply normalize_nodup; [|exact Hn]. constructor.
Qed.

Lemma loadable_strs l : loadable (JList (map JStr l)) = true.
Proof. cbn. by induction l. Qed.
Lemma keys_sorted_hashes l : keys (map (fun m : string * string => (m.1, JStr m.2)) l) = keys l.
Proof. unfold keys. by rewrite map_map. Qed.
Lemma loadable_hashes l : NoDup (keys l) → loadable (sorted_hashes l) = true.
Proof.
  intros H. unfold sorted_hashes. cbn [loadable].
  rewrite bool_decide_eq_true_2 by by rewrite keys_sort_keys, keys_sorted_hashes. cbn [andb].
  rewrite forallb_elem. setoid_rewrite sort_keys_perm. intros m Hm. apply list_elem_of_In, in_map_iff in Hm as (n & <- & _). done.
Qed.
Lemma loadable_manifest m : proper_manifest m → loadable (task_manifest_value m) = true.
Proof.
  intros [Hs Hb]. unfold task_manifest_value. pose proof (loadable_hashes _ Hb) as Hh. cbn [loadable forallb snd].
  rewrite Hs, Hh. by vm_compute.
Qed.

(** ** The header *)

Definition result_json (r : AdapterResult.t) : json :=
  JObj [("produced_sha", JStr (AdapterResult.produced_sha r)); ("changed_paths", JList (map JStr (AdapterResult.changed_paths r)));
        ("invoked_commands", JList (map JStr (AdapterResult.invoked_commands r)));
        ("evidence_sha256", JStr (AdapterResult.evidence_sha256 r))].
Definition header_json (m : TaskManifest.t) (g : Z) (attempt_id effect_id : string) (r : AdapterResult.t) (bundle : string) : json :=
  JObj [("schema_version", JInt 1); ("artifact_kind", JStr ARTIFACT_KIND); ("task_manifest", task_manifest_value m);
        ("lease_generation", JInt g); ("attempt_id", JStr attempt_id); ("effect_id", JStr effect_id);
        ("result", result_json r); ("bundle", JObj [("sha256", JStr (sha256_hex bundle)); ("size", JInt (length_of bundle))])].
(** The paths of a result are spelled as the transport spells them. *)
Definition normal_paths (r : AdapterResult.t) : Prop :=
  map_res safe_relative_path (map JStr (AdapterResult.changed_paths r)) = Ok (AdapterResult.changed_paths r).
Lemma header_shape m g attempt_id effect_id r bundle h : normal_paths r →
  header_of m g attempt_id effect_id r bundle = Ok h →
  h = header_json m g attempt_id effect_id r bundle ∧ result_value (raw_of r) = Ok (result_json r) ∧
  1 ≤ g ∧ fullmatch FENCE_ID attempt_id = true ∧ fullmatch FENCE_ID effect_id = true.
Proof.
  intros Hp H. unfold header_of in H. apply res_bind_ok in H as ([] & Hf%need_true & H).
  apply res_bind_ok in H as (v & Hv & H). injection H as <-. apply andb_prop in Hf as [[Hg%Z.leb_le Ha]%andb_prop He].
  assert (v = result_json r) as ->; [|done].
  unfold result_value in Hv. apply res_bind_ok in Hv as ([] & _ & Hv). apply res_bind_ok in Hv as (paths & Hpaths & Hv).
  unfold raw_of in Hpaths. cbn in Hpaths. rewrite Hp in Hpaths. injection Hpaths as <-.
  do 2 (apply res_bind_ok in Hv as ([] & _ & Hv)). by injection Hv as <-.
Qed.
Lemma loadable_header m g attempt_id effect_id r bundle :
  proper_manifest m → 1 ≤ g < 2 ^ 63 → length_of bundle < 2 ^ 63 →
  loadable (header_json m g attempt_id effect_id r bundle) = true.
Proof.
  intros Hm Hg Hb. pose proof (loadable_manifest m Hm) as H1. pose proof (int_loadable g ltac:(lia)) as H2.
  pose proof (int_loadable (length_of bundle) ltac:(unfold length_of in *; lia)) as H3.
  pose proof (loadable_strs (AdapterResult.changed_paths r)) as H4. pose proof (loadable_strs (AdapterResult.invoked_commands r)) as H5.
  unfold header_json, result_json. cbn [loadable forallb snd] in *. rewrite H1, H2, H3, H4, H5. by vm_compute.
Qed.

(** Members of a value written with its members in order. *)
Lemma at_key_sorted k ms : NoDup (keys ms) → at_key k (sort_all (JObj ms)) = sort_all (at_key k (JObj ms)).
Proof.
  intros H. unfold at_key. cbn [sort_all]. rewrite lookup_sort_keys by by rewrite keys_map_values.
  rewrite lookup_map_values. by destruct (lookup_key k ms).
Qed.
Lemma has_members_sorted fields ms : has_members fields (sort_all (JObj ms)) = has_members fields (JObj ms).
Proof. unfold has_members. cbn [sort_all]. by rewrite keys_sort_keys, keys_map_values. Qed.
Lemma canonical_sorted v : canonical (sort_all v) = canonical v.
Proof. unfold canonical. by rewrite sort_all_idem. Qed.
Ltac distinct := by repeat (constructor; [apply (bool_decide_unpack _); vm_compute; exact I|]); constructor.

(** A header that the transport wrote is read back, its members in order. *)
Lemma read_written m g attempt_id effect_id r bundle :
  proper_manifest m → 1 ≤ g < 2 ^ 63 → length_of bundle < 2 ^ 63 →
  fullmatch FENCE_ID attempt_id = true → fullmatch FENCE_ID effect_id = true →
  let h := header_json m g attempt_id effect_id r bundle in
  read_header (canonical h) = Ok (sort_all h).
Proof.
  intros Hm Hg Hb Ha He h. assert (ascii_decode (canonical h) = Ok (canonical h)) as Hd by apply ascii_decode_dumps.
  assert (artifact_loads (canonical h) = Ok (sort_all h)) as Hl.
  { apply loads_dumps. rewrite loadable_sort_all. by apply loadable_header. }
  unfold read_header. rewrite Hd. cbn [mbind res_bind]. rewrite Hl.
  rewrite canonical_sorted, String.eqb_refl. unfold h, header_json. rewrite has_members_sorted.
  rewrite !at_key_sorted by distinct.
  change (at_key "schema_version" _) with (JInt 1). change (at_key "artifact_kind" _) with (JStr ARTIFACT_KIND).
  change (at_key "lease_generation" _) with (JInt g). change (at_key "attempt_id" _) with (JStr attempt_id).
  change (at_key "effect_id" _) with (JStr effect_id).
  cbn [sort_all int_that str_that]. rewrite Ha, He, (proj2 (Z.leb_le _ _)) by lia.
  done.
Qed.

Lemma raw_result_written r : raw_result (sort_all (result_json r)) = raw_of r.
Proof.
  unfold raw_result, result_json. rewrite !at_key_sorted by distinct.
  change (at_key "produced_sha" _) with (JStr (AdapterResult.produced_sha r)).
  change (at_key "changed_paths" _) with (JList (map JStr (AdapterResult.changed_paths r))).
  change (at_key "invoked_commands" _) with (JList (map JStr (AdapterResult.invoked_commands r))).
  change (at_key "evidence_sha256" _) with (JStr (AdapterResult.evidence_sha256 r)).
  by rewrite !sort_all_strs.
Qed.
Lemma strings_strs l : strings (map JStr l) = l.
Proof. unfold strings. rewrite map_map. apply map_id. Qed.
Lemma result_of_raw r : result_of (raw_of r) = r.
Proof. unfold result_of, raw_of. cbn. rewrite !strings_strs. by destruct r. Qed.
Lemma sha256_hex_digest s : fullmatch SHA256_HEX (sha256_hex s) = true.
Proof. apply fullmatch_times. split; [apply sha256_hex_len|apply sha256_hex_class]. Qed.

Lemma at_header k m g a e r b : at_key k (sort_all (header_json m g a e r b)) = sort_all (at_key k (header_json m g a e r b)).
Proof. apply at_key_sorted. distinct. Qed.
Lemma decode_encode m g attempt_id effect_id r bundle h maximum value expected allow :
  proper_manifest m → normal_paths r → g < 2 ^ 63 → 0 < length_of bundle → maximum < 2 ^ 63 →
  header_of m g attempt_id effect_id r bundle = Ok h → encode h bundle maximum = Ok value →
  (∀ sha, expected = Some sha → sha = AdapterResult.produced_sha r) →
  decode value (sha256_hex value) m expected allow = Ok (sort_all h, bundle, r).
Proof.
  intros Hm Hp Hg Hb Hmax Hh Hv Hx. destruct (header_shape _ _ _ _ _ _ _ Hp Hh) as (-> & Hr & Hg1 & Ha & He).
  unfold encode in Hv. apply res_bind_ok in Hv as ([] & Hl%need_true & Hv). apply res_bind_ok in Hv as ([] & Hs%need_true & Hv).
  injection Hv as <-. apply andb_prop in Hl as [Hl1%Z.ltb_lt Hl2%Z.leb_le]. apply Z.leb_le in Hs.
  assert (length_of bundle < 2 ^ 63) as Hb'.
  { unfold length_of in *. rewrite len_chars, chars_framed, !length_app, <- !len_chars in Hs. lia. }
  unfold decode. rewrite String.eqb_refl, unframed_framed by done. cbn [need mbind res_bind fst snd].
  rewrite read_written by done. cbn [mbind res_bind]. rewrite !at_header.
  change (at_key "bundle" (header_json _ _ _ _ _ _)) with (JObj [("sha256", JStr (sha256_hex bundle)); ("size", JInt (length_of bundle))]).
  change (at_key "result" (header_json _ _ _ _ _ _)) with (result_json r).
  change (at_key "task_manifest" (header_json _ _ _ _ _ _)) with (task_manifest_value m).
  assert (bundle_matches (sort_all (JObj [("sha256", JStr (sha256_hex bundle)); ("size", JInt (length_of bundle))])) bundle = true) as ->.
  { unfold bundle_matches. rewrite has_members_sorted, !at_key_sorted by distinct.
    change (at_key "sha256" _) with (JStr (sha256_hex bundle)). change (at_key "size" _) with (JInt (length_of bundle)).
    cbn [sort_all int_that str_that]. by rewrite Z.eqb_refl, (proj2 (Z.ltb_lt _ _)), sha256_hex_digest, String.eqb_refl. }
  assert (has_members ["produced_sha"; "changed_paths"; "invoked_commands"; "evidence_sha256"] (sort_all (result_json r)) = true) as ->.
  { unfold result_json. by rewrite has_members_sorted. }
  cbn [need mbind res_bind]. rewrite raw_result_written, Hr, result_of_raw. cbn [mbind res_bind].
  assert (match expected with Some sha => is_text (RawResult.produced_sha (raw_of r)) sha | None => true end = true) as ->.
  { destruct expected as [sha|]; [|done]. rewrite (Hx sha) by done. apply String.eqb_refl. }
  cbn [need mbind res_bind]. by rewrite py_eqb_sort_all by by apply loadable_manifest.
Qed.

(** And conversely: what is decoded is framed in the one way that the encoder
    has, under the digest that was asked for. *)
Lemma decoded_is_framed value digest m expected allow h bundle r :
  decode value digest m expected allow = Ok (h, bundle, r) →
  digest = sha256_hex value ∧ value = framed (canonical h) bundle ∧ 0 < length_of bundle ∧
  bundle_matches (at_key "bundle" h) bundle = true.
Proof.
  unfold decode. intros H. apply res_bind_ok in H as ([] & Hd%need_true & H). apply String.eqb_eq in Hd as <-.
  apply res_bind_ok in H as ([hb b] & Hu & H). apply res_bind_ok in H as (h' & Hh & H). cbn [snd fst] in *.
  apply res_bind_ok in H as ([] & Hm%need_true & H). apply res_bind_ok in H as ([] & _ & H).
  apply res_bind_ok in H as (? & _ & H). do 2 (apply res_bind_ok in H as ([] & _ & H)). injection H as <- <- <-.
  apply framed_unframed in Hu as (-> & _ & Hb). unfold read_header in Hh.
  destruct (text ← ascii_decode hb; artifact_loads text) as [h''|e]; [|discriminate].
  apply res_bind_ok in Hh as ([] & Hc%need_true & Hh). injection Hh as ->.
  do 6 (apply andb_prop in Hc as [Hc _]). apply andb_prop in Hc as [_ Hc].
  apply String.eqb_eq in Hc as ->. done.
Qed.
