(* ===== verification/Artifact.v ===== *)
(** The transport of durable artifacts, [app/s3_git_bundle_artifact.py]: the
    class [S3GitBundleArtifactTransport] as a program over the object store,
    git, the temporary files and the workspace of [OneShot], whose answers are
    arbitrary.

    The body of a stored object is what its successive reads return; after
    them it is at its end.  git runs without configuration, hooks, prompts and
    remote protocols: the arguments below and the fixed environment of the
    source. *)
From Stdlib Require Import Ascii String.
From stdpp Require Import strings list.
From S2P Require Import Prelude Prog PyStr Sha256 Json PyVal PyText Names PyJson PyBytes PyUrl Manifest OneShot Bundle.

Local Open Scope string_scope.
Local Open Scope Z_scope.
Local Open Scope list_scope.

(** ** Calls *)

(** The arguments of [put_object]. *)
Module Put.
Record t := mk {
  bucket : string; key : string; body : string; content_length : Z; content_type : string;
  metadata : list (string * string); if_none_match : string }.
End Put.
(** What one [read] returns. *)
Inductive Chunk : Type := bytes_read (s : string) | no_value | other_chunk.
Record Stored := mkStored {
  content_length : json; readable : bool; reads : list (res Chunk); closing : res unit }.
Record GitOut := mkGit { returncode : Z; stdout : string; stderr_size : Z }.
Module PathState.
Record t := mk { present : bool; is_file : bool; is_symlink : bool; size : Z }.
End PathState.

Inductive op : Type :=
  (* S3Client *)
  | put_object (p : Put.t)
  | get_object (bucket key : string)
  (* temporary files *)
  | temporary_directory (prefix : string)
  | leave_directory (path : string)
  | mkdir (path : string)
  | mkstemp (prefix suffix directory : string)
  | chmod (path : string)
  | stat_size (path : string)
  | read_file (path : string)
  | write_file (path content : string)
  | unlink (path : string)
  (* git and the paths it names *)
  | git (args : list string)
  | root_resolved
  | resolved (path : string)
  | path_state (path : string)
  (* LocalWorkspace *)
  | workspace (o : OneShot.op).
Definition answer (o : op) : Type :=
  match o with
  | get_object _ _ => Stored
  | temporary_directory _ | mkstemp _ _ _ | read_file _ | root_resolved | resolved _ => string
  | stat_size _ => Z
  | git _ => GitOut
  | path_state _ => PathState.t
  | workspace o => OneShot.answer o
  | _ => unit
  end.
Abbreviation P := (prog answer).
(** [_require] *)
Definition ensure (c : bool) (code : string) : P unit := of_res (need c code).
(** A program of the executor's workspace among these calls. *)
Fixpoint on_workspace {A} (m : prog OneShot.answer A) : P A :=
  match m with
  | Ret a => Ret a
  | Throw e => Throw e
  | Do o k => Do (workspace o) (fun r : res (OneShot.answer o) => on_workspace (k r))
  end.
Definition own_failure (e : exn) : bool := is_a "NativeExecutorBlocked" e.

Section Transport.
Context (config : S3ArtifactConfig.t).
(** The attribute [response] of an exception of the client, [None] without. *)
Context (response_of : exn → json).
Let maximum := S3ArtifactConfig.max_artifact_bytes config.

(** [_is_precondition_failed] *)
Definition is_precondition_failed (e : exn) : res bool :=
  let response := response_of e in
  let part k := match response with JObj ms => default JNull (lookup_key k ms) | _ => JNull end in
  let code := at_key "Code" (part "Error") in
  let status := at_key "HTTPStatusCode" (part "ResponseMetadata") in
  if is_dict response then (member_of ["PreconditionFailed"; "412"] code ||| Ok (py_eqb status (JInt 412)))%py else Ok false.

(** ** The object store *)

Definition READ_SIZE : Z := 1048576.
(** The loop of reads: the chunks, and what is left to be read. *)
Fixpoint read_all (remaining : Z) (reads : list (res Chunk)) : res (string * list (res Chunk)) :=
  if remaining <=? 0 then Ok ("", reads) else
  match reads with
  | [] => Ok ("", [])
  | r :: reads' =>
      c ← r;
      match c with
      | bytes_read s =>
          need (length_of s <=? Z.min READ_SIZE remaining) "artifact_store_read_invalid" ;;
          if nonempty s then v ← read_all (remaining - length_of s) reads'; Ok (String.append s v.1, v.2) else Ok ("", reads')
      | _ => Raise (blocked "artifact_store_read_invalid")
      end
  end.
(** [body.read(1)], and whether it finds the end. *)
Definition at_end (reads : list (res Chunk)) : res bool :=
  match reads with
  | [] => Ok true
  | r :: _ => c ← r; Ok (match c with bytes_read s => negb (nonempty s) | no_value => true | other_chunk => false end)
  end.
(** The checks on an object, with the [finally] that closes its body. *)
Definition object_bytes (o : Stored) : res string :=
  need (int_that (fun n => (0 <? n) && (n <=? maximum)) (content_length o) && readable o) "artifact_store_read_invalid" ;;
  let read := v ← read_all (maximum + 1) (reads o); finished ← at_end v.2; Ok (v.1, finished) in
  closing o ;;
  v ← read;
  need (py_eqb (JInt (length_of v.1)) (content_length o) && (length_of v.1 <=? maximum) && v.2) "artifact_store_read_invalid" ;;
  Ok v.1.
(** [_download] *)
Definition download (key : string) : P string :=
  catch (o ← call (get_object (S3ArtifactConfig.bucket config) key); of_res (object_bytes o))
    (fun e => throw (if own_failure e then e else blocked "artifact_store_read_failed")).
(** What a failed download becomes. *)
Definition download_or (code key : string) : P string :=
  catch (download key) (fun e => throw (if own_failure e then blocked code else e)).

Definition put_of (key value digest content_type kind : string) : Put.t :=
  Put.mk (S3ArtifactConfig.bucket config) key value (length_of value) content_type
    [("sha256", digest); ("artifact-kind", kind)] "*".
Definition preflight_put : Put.t :=
  put_of (preflight_key config) PREFLIGHT_VALUE (sha256_hex PREFLIGHT_VALUE)
    "application/vnd.reqsys.artifact-preflight-v1" "preflight_v1".
Definition preflight : P unit :=
  catch (call (put_object preflight_put))
    (fun e => failed ← of_res (is_precondition_failed e); ensure failed "artifact_store_unavailable") ;;
  observed ← download_or "artifact_store_unavailable" (preflight_key config);
  ensure (String.eqb observed PREFLIGHT_VALUE) "artifact_store_unavailable".

Definition bundle_put (key value digest : string) : Put.t :=
  put_of key value digest "application/vnd.reqsys.git-bundle-v1" ARTIFACT_KIND.
(** [_put_cas] *)
Definition put_cas (key value digest : string) : P unit :=
  sent ← attempt (call (put_object (bundle_put key value digest)));
  let put_failed := match sent with Raise _ => true | Ok _ => false end in
  observed ← download_or "artifact_publish_ambiguous" key;
  ensure (String.eqb observed value) (if put_failed then "artifact_cas_conflict" else "artifact_publish_ambiguous").

(** ** git *)

Definition GIT_OPTIONS : list string :=
  ["-c"; "core.fsmonitor=false"; "-c"; "submodule.recurse=false"; "-c"; "core.attributesFile=/dev/null";
   "-c"; "protocol.allow=never"; "-c"; "protocol.ext.allow=never"; "-c"; "protocol.file.allow=always"].
Definition git_command (hooks : string) (args : list string) : list string :=
  ["git"; "-c"; String.append "core.hooksPath=" hooks] ++ GIT_OPTIONS ++ args.
(** [_git] *)
Definition run_git (hooks : string) (args : list string) (allowed_codes : list Z) : P GitOut :=
  out ← catch (call (git (git_command hooks args))) (fun e =>
    throw (if is_a "OSError" e || is_a "TimeoutExpired" e then blocked "artifact_git_failed" else e));
  ensure (bool_decide (returncode out ∈ allowed_codes) && (length_of (stdout out) <=? 1048576) && (stderr_size out <=? 1048576))
    "artifact_git_failed" ;;
  mret out.
Definition git_ok (hooks : string) (args : list string) : P string := out ← run_git hooks args [0]; mret (stdout out).

(** [_require_repository_root] *)
Definition require_repository_root (hooks : string) : P unit :=
  out ← git_ok hooks ["rev-parse"; "--show-toplevel"];
  let top := strip out in
  ensure (nonempty top) "artifact_workspace_invalid" ;;
  path ← call (resolved top); root ← call root_resolved;
  ensure (String.eqb path root) "artifact_workspace_invalid".
Definition require_no_remote (hooks : string) : P unit :=
  out ← git_ok hooks ["remote"]; ensure (negb (nonempty (strip out))) "artifact_workspace_invalid".
Fixpoint require_ancestors (hooks : string) (ancestors : list string) (produced_sha : string) : P unit :=
  match ancestors with
  | [] => mret tt
  | a :: ancestors' =>
      out ← run_git hooks ["merge-base"; "--is-ancestor"; a; produced_sha] [0; 1];
      ensure (returncode out =? 0) "artifact_base_not_ancestor" ;;
      require_ancestors hooks ancestors' produced_sha
  end.
Definition require_root : P unit :=
  root ← call (workspace root_stat);
  ensure (RootStat.is_dir root && negb (RootStat.is_symlink root)) "artifact_workspace_invalid".
Definition require_clean_at (sha : string) : P unit :=
  dirty ← on_workspace status;
  ensure (negb (nonempty dirty)) "artifact_workspace_invalid" ;;
  h ← on_workspace head;
  ensure (String.eqb h sha) "artifact_workspace_invalid".
Definition require_paths (base_sha produced_sha : string) (paths : list string) (code : string) : P unit :=
  found ← on_workspace (changed_paths base_sha produced_sha);
  ensure (bool_decide (found = paths)) code.
(** [_validate_workspace_for_publish] *)
Definition validate_workspace_for_publish (m : TaskManifest.t) (r : AdapterResult.t) (hooks : string) : P unit :=
  require_root ;;
  require_clean_at (AdapterResult.produced_sha r) ;;
  require_repository_root hooks ;;
  require_no_remote hooks ;;
  require_ancestors hooks [TaskManifest.base_sha m; TaskManifest.workspace_sha m] (AdapterResult.produced_sha r) ;;
  require_paths (TaskManifest.base_sha m) (AdapterResult.produced_sha r) (AdapterResult.changed_paths r) "artifact_result_paths".

(** The lines of [bundle list-heads]. *)
Fixpoint listed_heads (lines : list string) : res (list (string * string)) :=
  match lines with
  | [] => Ok []
  | line :: lines' =>
      let '(sha, found, name) := partition " " (chars (strip line)) in
      need (found && fullmatch SHA40 (str sha)) "artifact_bundle_invalid" ;;
      l ← listed_heads lines'; Ok ((str sha, str name) :: l)
  end.
(** [_verify_bundle] *)
Definition verify_bundle (bundle produced_sha hooks : string) : P unit :=
  git_ok hooks ["bundle"; "verify"; bundle] ;;
  out ← git_ok hooks ["bundle"; "list-heads"; bundle];
  heads ← of_res (listed_heads (splitlines out));
  ensure (bool_decide (heads = [(produced_sha, "HEAD")])) "artifact_bundle_invalid".

(** A temporary directory with a directory for hooks. *)
Definition in_directory {A} (prefix : string) (body : string → string → P A) : P A :=
  directory ← call (temporary_directory prefix);
  let hooks := String.append directory "/hooks" in
  finally (call (mkdir hooks) ;; body directory hooks) (call (leave_directory directory)).
(** [_bundle_bytes] *)
Definition bundle_bytes (m : TaskManifest.t) (r : AdapterResult.t) (maximum : Z) : P string :=
  in_directory "cwp-artifact-" (fun directory hooks =>
    validate_workspace_for_publish m r hooks ;;
    bundle ← call (mkstemp "bundle-" ".gitbundle" directory);
    call (chmod bundle) ;;
    git_ok hooks ["bundle"; "create"; "--version=2"; bundle; "HEAD"; String.append "^" (TaskManifest.workspace_sha m)] ;;
    size ← call (stat_size bundle);
    ensure ((0 <? size) && (size <=? maximum)) "artifact_too_large" ;;
    value ← call (read_file bundle);
    ensure (length_of value =? size) "artifact_git_failed" ;;
    of_res (validate_bundle_header value (TaskManifest.workspace_sha m) (AdapterResult.produced_sha r)) ;;
    verify_bundle bundle (AdapterResult.produced_sha r) hooks ;;
    mret value).
(** [_write_bundle] *)
Definition write_bundle (directory bundle : string) : P string :=
  path ← call (mkstemp "received-" ".gitbundle" directory);
  catch (call (write_file path bundle) ;; call (chmod path)) (fun e => call (unlink path) ;; throw e) ;;
  mret path.
(** [_reject_external_filters] *)
Definition FILTER_PATTERN : string := "(^|[[:space:]])filter([[:space:]]|=|$)".
Definition reject_external_filters (hooks produced_sha : string) : P unit :=
  out ← run_git hooks ["grep"; "-n"; "-I"; "-E"; FILTER_PATTERN; produced_sha; "--"; ".gitattributes"; ":(glob)**/.gitattributes"] [0; 1];
  ensure (returncode out =? 1) "artifact_checkout_filter_forbidden" ;;
  text ← git_ok hooks ["rev-parse"; "--git-path"; "info/attributes"];
  let local_attributes := strip text in
  ensure (nonempty local_attributes) "artifact_workspace_invalid" ;;
  root ← call root_resolved;
  let path := if starts_with "/" local_attributes then local_attributes else concat_text [root; "/"; local_attributes] in
  state ← call (path_state path);
  ensure (negb (PathState.present state) ||
          (PathState.is_file state && negb (PathState.is_symlink state) && (PathState.size state =? 0)))
    "artifact_checkout_attributes_forbidden".
(** [_require_checkout_pristine] *)
Definition require_checkout_pristine (hooks : string) : P unit :=
  out ← git_ok hooks ["status"; "--porcelain=v1"; "--untracked-files=all"; "--ignored=matching"];
  ensure (negb (nonempty (strip out))) "artifact_workspace_ignored_files".

(** ** The operations of the transport *)

(** [publish], whose [task_id] is compared with the manifest's. *)
Definition publish_artifact (task_id : string) (lease_generation : Z) (attempt_id effect_id : string) (m : TaskManifest.t)
    (r : AdapterResult.t) : P DurableArtifact.t :=
  ensure (String.eqb task_id (TaskManifest.task_id m)) "artifact_task_mismatch" ;;
  bundle ← bundle_bytes m r (maximum - length_of MAGIC - 4 - HEADER_LIMIT);
  header ← of_res (header_of m lease_generation attempt_id effect_id r bundle);
  value ← of_res (encode header bundle maximum);
  let digest := sha256_hex value in
  key ← of_res (bundle_key config digest);
  put_cas key value digest ;;
  mret (descriptor digest).

(** The files of the manifest in the checkout. *)
Fixpoint require_files (files : list (string * string)) : P unit :=
  match files with
  | [] => mret tt
  | (relative, expected) :: files' =>
      path ← of_res (safe_relative_path (JStr relative));
      actual ← catch (st ← call (workspace (file_stat path));
                      ensure (FileStat.is_file st && negb (FileStat.is_symlink st) && (FileStat.st_nlink st =? 1) &&
                              FileStat.inside_root st) "artifact_workspace_invalid" ;;
                      bytes ← call (workspace (read_bytes path)); mret (sha256_hex bytes : string))
                 (fun e => throw (if is_a "OSError" e then blocked "artifact_workspace_invalid" else e));
      ensure (String.eqb actual expected) "artifact_workspace_invalid" ;;
      require_files files'
  end.
Definition verify_artifact (task_id : string) (m : TaskManifest.t) (produced_sha : string) (a : DurableArtifact.t) : P unit :=
  ensure (String.eqb task_id (TaskManifest.task_id m)) "artifact_task_mismatch" ;;
  digest ← of_res (descriptor_digest a);
  key ← of_res (bundle_key config digest);
  value ← download key;
  d ← of_res (decode value digest m (Some produced_sha) true);
  let '(header, bundle, result) := d in
  let publication := at_key "task_manifest" header in
  let workspace_sha := text_of (at_key "workspace_sha" publication) in
  of_res (validate_bundle_header bundle workspace_sha produced_sha) ;;
  require_clean_at produced_sha ;;
  (if py_eqb publication (task_manifest_value m) then mret tt else require_files (TaskManifest.before_sha256 m)) ;;
  in_directory "cwp-verify-" (fun directory hooks =>
    path ← write_bundle directory bundle;
    require_repository_root hooks ;;
    verify_bundle path produced_sha hooks ;;
    require_no_remote hooks ;;
    require_ancestors hooks [TaskManifest.base_sha m; workspace_sha] produced_sha) ;;
  require_paths (TaskManifest.base_sha m) produced_sha (AdapterResult.changed_paths result) "artifact_result_paths".

Definition materialize_artifact (task_id : string) (m : TaskManifest.t) (a : DurableArtifact.t) : P AdapterResult.t :=
  ensure (String.eqb task_id (TaskManifest.task_id m)) "artifact_task_mismatch" ;;
  digest ← of_res (descriptor_digest a);
  key ← of_res (bundle_key config digest);
  value ← download key;
  d ← of_res (decode value digest m None false);
  let '(_, bundle, result) := d in
  let produced := AdapterResult.produced_sha result in
  of_res (validate_bundle_header bundle (TaskManifest.workspace_sha m) produced) ;;
  require_root ;;
  require_clean_at (TaskManifest.workspace_sha m) ;;
  in_directory "cwp-materialize-" (fun directory hooks =>
    require_repository_root hooks ;;
    require_checkout_pristine hooks ;;
    require_no_remote hooks ;;
    path ← write_bundle directory bundle;
    verify_bundle path produced hooks ;;
    git_ok hooks ["fetch"; "--no-tags"; "--no-write-fetch-head"; path; "HEAD"] ;;
    require_ancestors hooks [TaskManifest.base_sha m; TaskManifest.workspace_sha m] produced ;;
    reject_external_filters hooks produced ;;
    git_ok hooks ["checkout"; "--detach"; "--force"; produced] ;;
    require_no_remote hooks ;;
    require_checkout_pristine hooks) ;;
  dirty ← on_workspace status;
  ensure (negb (nonempty dirty)) "artifact_materialization_invalid" ;;
  h ← on_workspace head;
  ensure (String.eqb h produced) "artifact_materialization_invalid" ;;
  require_paths (TaskManifest.base_sha m) produced (AdapterResult.changed_paths result) "artifact_materialization_invalid" ;;
  mret result.
End Transport.
