(* ===== verification/ArtifactSpec.v ===== *)
(** What the transport of artifacts may do, whatever the store, git and the
    workspace answer: a monitor of its calls, with the lemmas that follow
    [publish_artifact] and [materialize_artifact]. *)
From Stdlib Require Import Ascii String.
From S2P Require Import Prelude Prog PyStr Sha256 Json PyVal PyText Names PyJson PyBytes PyUrl Manifest OneShot Bundle BundleProps.
From S2P Require Import Artifact.
From stdpp Require Import strings list.

Local Open Scope string_scope.
Local Open Scope Z_scope.
Local Open Scope list_scope.

(** The command of a git call. *)
Inductive GitCall : Type :=
  | g_verify (bundle : string)
  | g_heads (bundle : string)
  | g_fetch (bundle : string)
  | g_ancestor (ancestor descendant : string)
  | g_filters (sha : string)
  | g_checkout (sha : string)
  | g_create (bundle excluded : string)
  | g_look (args : list string)
  | g_unknown.
Definition words_are (l k : list string) : bool := bool_decide (l = k).
Definition LOOKS : list (list string) :=
  [["remote"]; ["rev-parse"; "--show-toplevel"]; ["rev-parse"; "--git-path"; "info/attributes"];
   ["status"; "--porcelain=v1"; "--untracked-files=all"; "--ignored=matching"]].
(** The number of words before the subcommand. *)
Definition OPTION_WORDS : nat := 15.
Definition recognise (args : list string) : GitCall :=
  let sub := drop OPTION_WORDS args in
  if existsb (words_are sub) LOOKS then g_look sub else
  match sub with
  | [a; b; x] => if words_are [a; b] ["bundle"; "verify"] then g_verify x
                 else if words_are [a; b] ["bundle"; "list-heads"] then g_heads x else g_unknown
  | [a; b; x; y] => if words_are [a; b] ["merge-base"; "--is-ancestor"] then g_ancestor x y
                    else if words_are [a; b; x] ["checkout"; "--detach"; "--force"] then g_checkout y else g_unknown
  | [a; b; c; x; e] => if words_are [a; b; c; e] ["fetch"; "--no-tags"; "--no-write-fetch-head"; "HEAD"] then g_fetch x else g_unknown
  | [a; b; c; x; e; y] => if words_are [a; b; c; e] ["bundle"; "create"; "--version=2"; "HEAD"] then g_create x y else g_unknown
  | [a; b; c; d; e; x; f; h; i] =>
      if words_are [a; b; c; d; e; f; h; i] ["grep"; "-n"; "-I"; "-E"; FILTER_PATTERN; "--"; ".gitattributes"; ":(glob)**/.gitattributes"]
      then g_filters x else g_unknown
  | _ => g_unknown
  end.
(** Every git of the transport runs with the options of [git_command]. *)
Definition governed (args : list string) : bool :=
  match args with
  | [] | [_] | [_; _] => false
  | g :: c :: h :: rest => words_are [g; c] ["git"; "-c"] && starts_with "core.hooksPath=" h && words_are (take 12 rest) GIT_OPTIONS
  end.

(** What was observed: the bytes of the last object that was downloaded, the
    last file written or read, what git confirmed, and the workspace since
    the checkout. *)
Record Watch := mkWatch {
  object : option string; file : option (string * string); verified : option string; heads : option (string * string);
  fetched : option string; ancestors : list (string * string); unfiltered : option string; attributes : bool;
  root_ok : bool; worktree : option string; at_head : option string; paths : option (string * string * list string);
  pristine : bool; no_remote : bool; puts : list Put.t; checked_out : option string; tried : bool }.
#[export] Instance Watch_eta : Eta Watch := fun g =>
  mkWatch (object g) (file g) (verified g) (heads g) (fetched g) (ancestors g) (unfiltered g) (attributes g) (root_ok g)
    (worktree g) (at_head g) (paths g) (pristine g) (no_remote g) (puts g) (checked_out g) (tried g).
Definition unseen : Watch :=
  mkWatch None None None None None [] None false false None None None false false [] None false.

Definition one_head (out sha : string) : bool :=
  match listed_heads (splitlines out) with Ok l => bool_decide (l = [(sha, "HEAD")]) | Raise _ => false end.
(** git verified the bundle in the last file, and its one head. *)
Definition bundle_verified (g : Watch) (bundle sha : string) : bool :=
  match file g with
  | Some (path, content) =>
      String.eqb content bundle && bool_decide (verified g = Some path) &&
      match heads g with Some (p, out) => String.eqb p path && one_head out sha | None => false end
  | None => false
  end.

Definition next_git (g : Watch) (c : GitCall) (out : GitOut) : Watch :=
  let ok := returncode out =? 0 in
  match c with
  | g_verify p => if ok then g <| verified := Some p |> else g
  | g_heads p => if ok then g <| heads := Some (p, stdout out) |> else g
  | g_fetch p => if ok then g <| fetched := Some p |> else g
  | g_ancestor a d => if ok then g <| ancestors := (a, d) :: ancestors g |> else g
  | g_filters sha => if returncode out =? 1 then g <| unfiltered := Some sha |> else g
  | g_checkout sha => if ok then g <| checked_out := Some sha |> else g
  | g_look sub =>
      if words_are sub ["remote"] then g <| no_remote := ok && negb (nonempty (strip (stdout out))) |>
      else if words_are (take 1 sub) ["status"] then g <| pristine := ok && negb (nonempty (strip (stdout out))) |> else g
  | _ => g
  end.
(** A checkout makes what was seen of the workspace void. *)
Definition forget (g : Watch) : Watch :=
  g <| tried := true |> <| worktree := None |> <| at_head := None |> <| paths := None |> <| pristine := false |> <| no_remote := false |>.
Definition git_value (out : Z * string) : option string := if out.1 =? 0 then Some (strip out.2) else None.
Definition next_local (g : Watch) (args : list string) (out : Z * string) : Watch :=
  match args with
  | [a; b] => if words_are [a; b] ["rev-parse"; "HEAD"] then g <| at_head := lower <$> git_value out |> else g
  | [a; b; c] => if words_are [a; b; c] ["status"; "--porcelain"; "--untracked-files=all"] then g <| worktree := git_value out |> else g
  | [a; b; c; x; y] =>
      if words_are [a; b; c] ["diff"; "--name-only"; "--no-renames"]
      then g <| paths := s ← git_value out; Some (x, y, sort_by text_leb (lines_of [] (chars s))) |> else g
  | _ => g
  end.

Section Protocol.
Context (config : S3ArtifactConfig.t) (m : TaskManifest.t).

Definition next (g : Watch) (o : op) : res (answer o) → Watch :=
  match o with
  | put_object p => fun _ => g <| puts := p :: puts g |>
  | get_object _ _ => fun r =>
      g <| object := match r with Ok s => match object_bytes config s with Ok v => Some v | Raise _ => None end | Raise _ => None end |>
  | write_file path content => fun _ => g <| file := Some (path, content) |> <| verified := None |> <| heads := None |> <| fetched := None |>
  | read_file path => fun r =>
      match r with
      | Ok content => g <| file := Some (path, content) |> <| verified := None |> <| heads := None |> <| fetched := None |>
      | Raise _ => g
      end
  | git args => fun r =>
      let c := recognise args in
      let g := match c with g_checkout _ => forget g | _ => g end in
      match r with Ok out => next_git g c out | Raise _ => g end
  | path_state _ => fun r =>
      match r with
      | Ok s => g <| attributes := negb (PathState.present s) ||
                      (PathState.is_file s && negb (PathState.is_symlink s) && (PathState.size s =? 0)) |>
      | Raise _ => g
      end
  | workspace (OneShot.git args) => fun r => match r with Ok out => next_local g args out | Raise _ => g end
  | workspace root_stat => fun r =>
      match r with Ok s => g <| root_ok := RootStat.is_dir s && negb (RootStat.is_symlink s) |> | Raise _ => g end
  | _ => fun _ => g
  end.

(** The workspace is read and never written by its own git. *)
Definition local_read (o : OneShot.op) : bool :=
  match o with
  | OneShot.git args => existsb (words_are (take 1 args)) [["rev-parse"]; ["status"]; ["diff"]]
  | root_stat | file_stat _ | read_bytes _ => true
  | _ => false
  end.

(** *** Materialisation *)

Context (a : DurableArtifact.t).

(** What the downloaded bytes decode to, for this artifact and manifest. *)
Definition received (g : Watch) : option (string * AdapterResult.t) :=
  v ← object g;
  match decode v (DurableArtifact.artifact_sha256 a) m None false with
  | Ok (_, bundle, r) => Some (bundle, r)
  | Raise _ => None
  end.
Definition checkout_ready (g : Watch) (sha : string) : bool :=
  match received g with
  | Some (bundle, r) =>
      String.eqb sha (AdapterResult.produced_sha r) &&
      match validate_bundle_header bundle (TaskManifest.workspace_sha m) sha with Ok _ => true | Raise _ => false end &&
      bundle_verified g bundle sha && bool_decide (fetched g = fst <$> file g) &&
      forallb (fun x => bool_decide ((x, sha) ∈ ancestors g)) [TaskManifest.base_sha m; TaskManifest.workspace_sha m] &&
      bool_decide (unfiltered g = Some sha) && attributes g && root_ok g && pristine g && no_remote g &&
      bool_decide (worktree g = Some "") && bool_decide (at_head g = Some (TaskManifest.workspace_sha m)) && negb (tried g)
  | None => false
  end.
Definition may_materialize (g : Watch) (o : op) : bool :=
  match o with
  | put_object _ | read_file _ => false
  | get_object b k => String.eqb b (S3ArtifactConfig.bucket config) &&
      String.eqb k (cas_key (S3ArtifactConfig.key_prefix config) "git-bundle-v1" (DurableArtifact.artifact_sha256 a) ".artifact")
  | write_file _ content => bool_decide (fst <$> received g = Some content)
  | git args =>
      governed args &&
      match recognise args with
      | g_fetch p => match received g with
                     | Some (bundle, r) => bundle_verified g bundle (AdapterResult.produced_sha r) && bool_decide (Some p = fst <$> file g)
                     | None => false
                     end
      | g_checkout sha => checkout_ready g sha
      | g_create _ _ | g_unknown => false
      | _ => true
      end
  | workspace o => local_read o
  | _ => true
  end.
(** The checkout after materialisation. *)
Definition materialized_at (g : Watch) (r : AdapterResult.t) : Prop :=
  (∃ bundle, received g = Some (bundle, r)) ∧ checked_out g = Some (AdapterResult.produced_sha r) ∧
  worktree g = Some "" ∧ at_head g = Some (AdapterResult.produced_sha r) ∧ no_remote g = true ∧ pristine g = true ∧
  paths g = Some (TaskManifest.base_sha m, AdapterResult.produced_sha r, AdapterResult.changed_paths r).
End Protocol.

(** ** Following the programs *)

Lemma governed_command hooks sub : governed (git_command hooks sub) = true.
Proof.
  unfold governed, git_command. cbn [app]. assert (starts_with "core.hooksPath=" (String.append "core.hooksPath=" hooks) = true) as ->.
  { rewrite <- (str_chars (String.append _ hooks)), chars_app. apply starts_with_chars. }
  by destruct sub.
Qed.
(** The commands of the transport are recognised, whatever their variable
    words. *)
Lemma recognise_looks hooks sub : existsb (words_are sub) LOOKS = true → recognise (git_command hooks sub) = g_look sub.
Proof. intros H. unfold recognise. change (drop OPTION_WORDS (git_command hooks sub)) with sub. by rewrite H. Qed.
Lemma recognise_verify hooks p : recognise (git_command hooks ["bundle"; "verify"; p]) = g_verify p.
Proof. reflexivity. Qed.
Lemma recognise_heads hooks p : recognise (git_command hooks ["bundle"; "list-heads"; p]) = g_heads p.
Proof. reflexivity. Qed.
Lemma recognise_ancestor hooks a d : recognise (git_command hooks ["merge-base"; "--is-ancestor"; a; d]) = g_ancestor a d.
Proof. reflexivity. Qed.
Lemma recognise_fetch hooks p :
  recognise (git_command hooks ["fetch"; "--no-tags"; "--no-write-fetch-head"; p; "HEAD"]) = g_fetch p.
Proof. reflexivity. Qed.
Lemma recognise_checkout hooks sha : recognise (git_command hooks ["checkout"; "--detach"; "--force"; sha]) = g_checkout sha.
Proof. reflexivity. Qed.
Lemma recognise_create hooks p x :
  recognise (git_command hooks ["bundle"; "create"; "--version=2"; p; "HEAD"; x]) = g_create p x.
Proof. reflexivity. Qed.
Lemma recognise_filters hooks sha :
  recognise (git_command hooks ["grep"; "-n"; "-I"; "-E"; FILTER_PATTERN; sha; "--"; ".gitattributes"; ":(glob)**/.gitattributes"])
  = g_filters sha.
Proof. reflexivity. Qed.
Definition benign (c : GitCall) : bool :=
  match c with g_verify _ | g_heads _ | g_ancestor _ _ | g_filters _ | g_look _ => true | _ => false end.
Definition simple (o : op) : bool :=
  match o with
  | temporary_directory _ | leave_directory _ | mkdir _ | mkstemp _ _ _ | chmod _ | stat_size _ | unlink _
  | root_resolved | resolved _ | path_state _ => true
  | _ => false
  end.

Section Follow.
Context (config : S3ArtifactConfig.t) (allowed : Watch → op → bool).
Context (Hlocal : ∀ g o, local_read o = true → allowed g (workspace o) = true).
Context (Hsimple : ∀ g o, simple o = true → allowed g o = true).
Context (Hbenign : ∀ g args, governed args = true → benign (recognise args) = true → allowed g (git args) = true).
Abbreviation safe := (Prog.safe allowed (next config)).

Lemma ok_do (o : op) g (Φ : answer o → Watch → Prop) :
  allowed g o = true → (∀ v, Φ v (next config g o (Ok v))) → safe (call o) g (on_ok Φ).
Proof. apply (Prog.ok_call (answer:=answer)). Qed.
Lemma ok_ensure c code g (Φ : unit → Watch → Prop) : (c = true → Φ tt g) → safe (ensure c code) g (on_ok Φ).
Proof. intros H. apply ok_of_res. intros [] Hc%need_true. by apply H. Qed.

Lemma safe_on_workspace {A} (m : prog OneShot.answer A) g (Q : res A → Watch → Prop) :
  Prog.safe (fun g o => allowed g (workspace o)) (fun g o r => next config g (workspace o) r) m g Q → safe (on_workspace m) g Q.
Proof.
  revert g. induction m as [a|e|o k IH]; intros g; cbn; [done..|]. intros [Ha Hk]. split; [done|]. intros r. apply IH, Hk.
Qed.
Lemma ok_workspace_bind {A B} (m : prog OneShot.answer A) (f : A → prog OneShot.answer B) g (Φ : B → Watch → Prop) :
  safe (on_workspace m) g (on_ok (fun a g' => safe (on_workspace (f a)) g' (on_ok Φ))) →
  safe (on_workspace (x ← m; f x)) g (on_ok Φ).
Proof.
  revert g. induction m as [a|e|o k IH]; intros g; cbn; [done..|]. intros [Ha Hk]. split; [done|]. intros r. apply IH, Hk.
Qed.
Lemma ok_local args g (Φ : string → Watch → Prop) :
  local_read (OneShot.git args) = true → (∀ out, Φ (strip out) (next_local g args (0, out))) →
  safe (on_workspace (git_text args)) g (on_ok Φ).
Proof.
  intros Hl H. apply safe_on_workspace. unfold git_text. apply ok_bind. apply safe_catch.
  apply (Prog.safe_call (answer:=OneShot.answer)); [by apply Hlocal|]. intros [[code out]|e]; cbn; last by destruct (_ || _).
  apply ok_bind, ok_of_res. intros [] Hc%need_true. apply andb_prop in Hc as [Hc%Z.eqb_eq _]. cbn in Hc. subst code. apply H.
Qed.
Lemma ok_status g (Φ : string → Watch → Prop) :
  (∀ s, Φ s (g <| worktree := Some s |>)) → safe (on_workspace status) g (on_ok Φ).
Proof. intros H. apply ok_local; [done|]. intros out. apply (H (strip out)). Qed.
Lemma ok_head g (Φ : string → Watch → Prop) :
  (∀ s, Φ s (g <| at_head := Some s |>)) → safe (on_workspace OneShot.head) g (on_ok Φ).
Proof.
  intros H. apply ok_workspace_bind, ok_local; [done|]. intros out. apply H.
Qed.
Lemma ok_run_git hooks args codes g (Φ : GitOut → Watch → Prop) :
  allowed g (git (git_command hooks args)) = true →
  (∀ out, returncode out ∈ codes → Φ out (next config g (git (git_command hooks args)) (Ok out))) →
  safe (run_git hooks args codes) g (on_ok Φ).
Proof.
  intros Ha H. unfold run_git. apply ok_bind, ok_catch, ok_do; [done|]. intros out.
  apply ok_bind, ok_ensure. intros Hc. apply ok_ret, H. do 2 (apply andb_prop in Hc as [Hc _]).
  by apply bool_decide_eq_true in Hc.
Qed.
Lemma ok_git_ok hooks args g (Φ : string → Watch → Prop) :
  allowed g (git (git_command hooks args)) = true →
  (∀ out, returncode out = 0 → Φ (stdout out) (next config g (git (git_command hooks args)) (Ok out))) →
  safe (git_ok hooks args) g (on_ok Φ).
Proof.
  intros Ha H. apply ok_bind, ok_run_git; [done|]. intros out Hc%list_elem_of_singleton. by apply ok_ret, H.
Qed.
Lemma ok_clean sha g (Φ : unit → Watch → Prop) :
  Φ tt (g <| worktree := Some "" |> <| at_head := Some sha |>) → safe (require_clean_at sha) g (on_ok Φ).
Proof.
  intros H. unfold require_clean_at. apply ok_bind, ok_status. intros s. apply ok_bind, ok_ensure. intros Hs.
  unfold nonempty in Hs. rewrite negb_involutive in Hs. apply String.eqb_eq in Hs as ->.
  apply ok_bind, ok_head. intros h. apply ok_ensure. by intros ->%String.eqb_eq.
Qed.
Lemma ok_root g (Φ : unit → Watch → Prop) : Φ tt (g <| root_ok := true |>) → safe require_root g (on_ok Φ).
Proof. intros H. apply ok_bind, ok_do; [by apply Hlocal|]. intros s. apply ok_ensure. cbn. by intros ->. Qed.
Lemma ok_paths b p l code g (Φ : unit → Watch → Prop) :
  Φ tt (g <| paths := Some (b, p, l) |>) → safe (require_paths b p l code) g (on_ok Φ).
Proof.
  intros H. apply ok_bind. apply ok_workspace_bind, ok_local; [done|]. intros out. cbn. apply ok_ensure.
  intros <-%bool_decide_eq_true. exact H.
Qed.

Lemma ok_simple (o : op) g (Φ : answer o → Watch → Prop) :
  simple o = true → (∀ v, Φ v (next config g o (Ok v))) → safe (call o) g (on_ok Φ).
Proof. intros Ho. by apply ok_do, Hsimple. Qed.
Lemma may_look g hooks args : benign (recognise (git_command hooks args)) = true → allowed g (git (git_command hooks args)) = true.
Proof. apply Hbenign, governed_command. Qed.
Ltac look := apply may_look; reflexivity.

Lemma next_command {hooks args c} (E : recognise (git_command hooks args) = c) g out :
  next config g (git (git_command hooks args)) (Ok out) = next_git match c with g_checkout _ => forget g | _ => g end c out.
Proof. by rewrite <- E. Qed.

Lemma ok_repository_root hooks g (Φ : unit → Watch → Prop) : Φ tt g → safe (require_repository_root hooks) g (on_ok Φ).
Proof.
  intros H. apply ok_bind, ok_git_ok; [look|]. intros out _. apply ok_bind, ok_ensure. intros _.
  apply ok_bind, ok_simple; [done|]. intros path. apply ok_bind, ok_simple; [done|]. intros root. apply ok_ensure. by intros _.
Qed.
Lemma ok_no_remote hooks g (Φ : unit → Watch → Prop) : Φ tt (g <| no_remote := true |>) → safe (require_no_remote hooks) g (on_ok Φ).
Proof.
  intros H. apply ok_bind, ok_git_ok; [look|]. intros out E. apply ok_ensure. intros Hs.
  rewrite (next_command (recognise_looks hooks ["remote"] eq_refl)). unfold next_git. by rewrite E, Hs.
Qed.
Lemma ok_pristine hooks g (Φ : unit → Watch → Prop) : Φ tt (g <| pristine := true |>) → safe (require_checkout_pristine hooks) g (on_ok Φ).
Proof.
  intros H. apply ok_bind, ok_git_ok; [look|]. intros out E. apply ok_ensure. intros Hs.
  rewrite (next_command (recognise_looks hooks ["status"; "--porcelain=v1"; "--untracked-files=all"; "--ignored=matching"] eq_refl)).
  unfold next_git. by rewrite E, Hs.
Qed.
Lemma ok_ancestors hooks sha l g (Φ : unit → Watch → Prop) :
  Φ tt (g <| ancestors := rev (map (fun a => (a, sha)) l) ++ ancestors g |>) → safe (require_ancestors hooks l sha) g (on_ok Φ).
Proof.
  revert g. induction l as [|a l IH]; intros g H; [by destruct g|]. apply ok_bind, ok_run_git; [look|]. intros out _.
  apply ok_bind, ok_ensure. intros E. rewrite (next_command (recognise_ancestor hooks a sha)).
  unfold next_git. rewrite E. apply IH. cbn in *. by rewrite <- app_assoc in H.
Qed.
Lemma ok_verify_bundle path sha hooks g (Φ : unit → Watch → Prop) :
  (∀ out, one_head out sha = true → Φ tt (g <| verified := Some path |> <| heads := Some (path, out) |>)) →
  safe (verify_bundle path sha hooks) g (on_ok Φ).
Proof.
  intros H. apply ok_bind, ok_git_ok; [look|]. intros out E. apply ok_bind, ok_git_ok; [look|]. intros out' E'.
  rewrite (next_command (recognise_heads hooks path)), (next_command (recognise_verify hooks path)).
  unfold next_git. rewrite E, E'. apply ok_bind, ok_of_res. intros l Hl. apply ok_ensure. intros Hd. apply (H (stdout out')).
  unfold one_head. by rewrite Hl.
Qed.
Lemma ok_filters hooks sha g (Φ : unit → Watch → Prop) :
  Φ tt (g <| unfiltered := Some sha |> <| attributes := true |>) → safe (reject_external_filters hooks sha) g (on_ok Φ).
Proof.
  intros H. apply ok_bind, ok_run_git; [look|]. intros out _. apply ok_bind, ok_ensure. intros E.
  rewrite (next_command (recognise_filters hooks sha)). unfold next_git. rewrite E.
  apply ok_bind, ok_git_ok; [look|]. intros text _.
  rewrite (next_command (recognise_looks hooks ["rev-parse"; "--git-path"; "info/attributes"] eq_refl)). apply ok_bind, ok_ensure. intros _.
  apply ok_bind, ok_simple; [done|]. intros root. apply ok_bind, ok_simple; [done|]. intros state. apply ok_ensure.
  intros Hs. cbn. rewrite Hs. exact H.
Qed.
Lemma ok_in_directory {A} prefix (body : string → string → P A) g (Φ : A → Watch → Prop) :
  (∀ directory hooks, safe (body directory hooks) g (on_ok Φ)) → safe (in_directory prefix body) g (on_ok Φ).
Proof.
  intros H. apply ok_bind, ok_simple; [done|]. intros directory. apply safe_finally.
  eapply safe_mono; [apply ok_bind, ok_simple; [done|]; intros v; apply H|].
  intros r g' Hr. apply (Prog.safe_call (answer:=answer)); [by apply Hsimple|]. intros [u|e]; [exact Hr|done].
Qed.
Lemma ok_write_bundle directory content g (Φ : string → Watch → Prop) :
  (∀ path, allowed g (write_file path content) = true) →
  (∀ path, Φ path (g <| file := Some (path, content) |> <| verified := None |> <| heads := None |> <| fetched := None |>)) →
  safe (write_bundle directory content) g (on_ok Φ).
Proof.
  intros Ha H. apply ok_bind, ok_simple; [done|]. intros path. apply ok_bind, safe_catch. apply safe_bind.
  apply (Prog.safe_call (answer:=answer)); [apply Ha|]. intros [u|e].
  - apply (Prog.safe_call (answer:=answer)); [by apply Hsimple|]. intros [v|e]; [apply H|].
    apply safe_bind. apply (Prog.safe_call (answer:=answer)); [by apply Hsimple|]. by intros [w|e'].
  - apply safe_bind. apply (Prog.safe_call (answer:=answer)); [by apply Hsimple|]. by intros [w|e'].
Qed.
Lemma ok_download key g (Φ : string → Watch → Prop) :
  allowed g (get_object (S3ArtifactConfig.bucket config) key) = true →
  (∀ v, Φ v (g <| object := Some v |>)) → safe (download config key) g (on_ok Φ).
Proof.
  intros Ha H. apply ok_catch, ok_bind, ok_do; [done|]. intros s. apply ok_of_res. intros v E. cbn. rewrite E. apply H.
Qed.
End Follow.

Section Materialize.
Context (config : S3ArtifactConfig.t) (m : TaskManifest.t) (a : DurableArtifact.t).
Abbreviation safe := (Prog.safe (may_materialize config m a) (next config)).

Lemma materialize_local g o : local_read o = true → may_materialize config m a g (workspace o) = true.
Proof. done. Qed.
Lemma materialize_simple g o : simple o = true → may_materialize config m a g o = true.
Proof. by destruct o. Qed.
Lemma materialize_benign g args : governed args = true → benign (recognise args) = true → may_materialize config m a g (git args) = true.
Proof. intros H. cbn. rewrite H. by destruct (recognise args). Qed.

Lemma safe_materialize_artifact task_id :
  safe (materialize_artifact config task_id m a) unseen (on_ok (fun r g => materialized_at m a g r)).
Proof.
  pose proof materialize_local as Hl. pose proof materialize_simple as Hs. pose proof materialize_benign as Hb.
  unfold materialize_artifact. apply ok_bind, ok_ensure. intros _. apply ok_bind, ok_of_res. intros digest Hd.
  unfold descriptor_digest in Hd. apply res_bind_ok in Hd as ([] & _ & [= <-]).
  apply ok_bind, ok_of_res. intros key Hk. unfold bundle_key in Hk. apply res_bind_ok in Hk as ([] & _ & [= <-]).
  apply ok_bind, ok_download; [cbn; by rewrite !String.eqb_refl|]. intros v.
  apply ok_bind, ok_of_res. intros [[header bundle] r] Hdec.
  apply ok_bind, ok_of_res. intros [] Hval. apply ok_bind, ok_root; [done|]. apply ok_bind, ok_clean; [done|].
  assert (∀ g, object g = Some v → received m a g = Some (bundle, r)) as Hrec.
  { intros g Hg. unfold received. rewrite Hg. cbn. by rewrite Hdec. }
  apply ok_bind, ok_in_directory; [done|]. intros directory hooks.
  apply ok_bind, ok_repository_root; [done..|]. apply ok_bind, ok_pristine; [done|]. apply ok_bind, ok_no_remote; [done|].
  apply ok_bind, ok_write_bundle; [done| |].
  { intros path. cbn [may_materialize]. rewrite Hrec by done. by apply bool_decide_eq_true_2. }
  intros path. apply ok_bind, ok_verify_bundle; [done|]. intros out Hout.
  apply ok_bind, ok_git_ok.
  { cbn [may_materialize]. rewrite governed_command, recognise_fetch, Hrec by done. unfold bundle_verified. cbn.
    rewrite !String.eqb_refl, Hout, !bool_decide_eq_true_2 by done. done. }
  intros out' E. rewrite (next_command config (recognise_fetch hooks path)). unfold next_git at 1. rewrite E.
  apply ok_bind, ok_ancestors; [done|]. apply ok_bind, ok_filters; [done..|].
  apply ok_bind, ok_git_ok.
  { cbn [may_materialize]. rewrite governed_command, recognise_checkout. unfold checkout_ready. rewrite Hrec by done.
    rewrite Hval, String.eqb_refl. unfold bundle_verified. cbn -[bool_decide]. rewrite !String.eqb_refl, Hout.
    rewrite !bool_decide_eq_true_2; [done|first [done|apply list_elem_of_In; cbn; tauto]..]. }
  intros out'' E''. rewrite (next_command config (recognise_checkout hooks _)). unfold next_git at 1. rewrite E''.
  apply ok_bind, ok_no_remote; [done|]. apply ok_pristine; [done|].
  apply ok_bind, ok_status; [done|]. intros s. apply ok_bind, ok_ensure. intros Hs'.
  apply ok_bind, ok_head; [done|]. intros h. apply ok_bind, ok_ensure. intros ->%String.eqb_eq.
  apply ok_bind, ok_paths; [done|]. apply ok_ret. unfold materialized_at.
  split; [exists bundle; by apply Hrec|]. split; [done|]. split; [|done].
  cbn. f_equal. unfold nonempty in Hs'. rewrite negb_involutive in Hs'. by apply String.eqb_eq.
Qed.
End Materialize.

(** *** Publication *)

Section Publish.
Context (config : S3ArtifactConfig.t) (m : TaskManifest.t) (r : AdapterResult.t) (g0 : Z) (attempt_id effect_id : string).

(** The bytes of the artifact for a bundle. *)
Definition artifact_value (bundle : string) : res string :=
  header ← header_of m g0 attempt_id effect_id r bundle;
  encode header bundle (S3ArtifactConfig.max_artifact_bytes config).
Definition artifact_put (value : string) : Put.t :=
  let digest := sha256_hex value in
  bundle_put config (cas_key (S3ArtifactConfig.key_prefix config) "git-bundle-v1" digest ".artifact") value digest.
#[export] Instance Put_eq_dec : EqDecision Put.t.
Proof. solve_decision. Defined.
Definition publishable (g : Watch) (p : Put.t) : bool :=
  let produced := AdapterResult.produced_sha r in
  match file g with
  | Some (_, bundle) =>
      match artifact_value bundle with Ok value => bool_decide (p = artifact_put value) | Raise _ => false end &&
      (0 <? length_of bundle) &&
      match validate_bundle_header bundle (TaskManifest.workspace_sha m) produced with Ok _ => true | Raise _ => false end &&
      bundle_verified g bundle produced && root_ok g && no_remote g && bool_decide (worktree g = Some "") &&
      bool_decide (at_head g = Some produced) &&
      forallb (fun x => bool_decide ((x, produced) ∈ ancestors g)) [TaskManifest.base_sha m; TaskManifest.workspace_sha m] &&
      bool_decide (paths g = Some (TaskManifest.base_sha m, produced, AdapterResult.changed_paths r))
  | None => false
  end.
Definition may_publish (g : Watch) (o : op) : bool :=
  match o with
  | put_object p => publishable g p && match puts g with [] => true | _ => false end
  | get_object b _ => String.eqb b (S3ArtifactConfig.bucket config)
  | write_file _ _ => false
  | git args =>
      governed args &&
      match recognise args with
      | g_create _ excluded => String.eqb excluded (String.append "^" (TaskManifest.workspace_sha m))
      | c => benign c
      end
  | workspace o => local_read o
  | _ => true
  end.
(** The one object was read back whole. *)
Definition published_at (g : Watch) (d : DurableArtifact.t) : Prop :=
  ∃ bundle value, artifact_value bundle = Ok value ∧ 0 < length_of bundle ∧
    puts g = [artifact_put value] ∧ object g = Some value ∧ d = descriptor (sha256_hex value).

Abbreviation safe := (Prog.safe may_publish (next config)).
Lemma publish_local g o : local_read o = true → may_publish g (workspace o) = true.
Proof. done. Qed.
Lemma publish_simple g o : simple o = true → may_publish g o = true.
Proof. by destruct o. Qed.
Lemma publish_benign g args : governed args = true → benign (recognise args) = true → may_publish g (git args) = true.
Proof. intros H. cbn. rewrite H. by destruct (recognise args). Qed.

(** The bundle that was read, checked in a workspace that was checked. *)
Definition bundle_ready (g : Watch) (bundle : string) : Prop :=
  puts g = [] ∧ ∀ value, artifact_value bundle = Ok value → 0 < length_of bundle ∧ publishable g (artifact_put value) = true.
Lemma safe_bundle_bytes maximum :
  safe (bundle_bytes m r maximum) unseen (on_ok (fun b g => bundle_ready g b)).
Proof.
  pose proof publish_local as Hl. pose proof publish_simple as Hs. pose proof publish_benign as Hb.
  apply ok_in_directory; [done|]. intros directory hooks.
  apply ok_bind. unfold validate_workspace_for_publish. apply ok_bind, ok_root; [done|]. apply ok_bind, ok_clean; [done|].
  apply ok_bind, ok_repository_root; [done..|]. apply ok_bind, ok_no_remote; [done|]. apply ok_bind, ok_ancestors; [done|].
  apply ok_paths; [done|]. apply ok_bind, ok_simple; [done..|]. intros path. apply ok_bind, ok_simple; [done..|]. intros u.
  apply ok_bind, ok_git_ok.
  { cbn [may_publish]. rewrite governed_command, recognise_create. apply String.eqb_refl. }
  intros out _. rewrite (next_command config (recognise_create hooks path _)).
  apply ok_bind, ok_simple; [done..|]. intros size. apply ok_bind, ok_ensure. intros Hsize.
  apply ok_bind, ok_do; [done|]. intros value. apply ok_bind, ok_ensure. intros Hlen%Z.eqb_eq.
  apply ok_bind, ok_of_res. intros [] Hval. apply ok_bind, ok_verify_bundle; [done|]. intros out' Hout. apply ok_ret.
  apply andb_prop in Hsize as [Hsize%Z.ltb_lt _]. split; [done|]. intros v Hv. split; [lia|].
  unfold publishable, bundle_verified. cbn -[artifact_put bool_decide artifact_value]. rewrite Hv, Hval, Hout, !String.eqb_refl.
  rewrite (proj2 (Z.ltb_lt _ _)) by lia.
  rewrite !bool_decide_eq_true_2; [done|..]; first [done|apply list_elem_of_In; cbn; tauto].
Qed.
Lemma safe_publish_artifact task_id :
  safe (publish_artifact config task_id g0 attempt_id effect_id m r) unseen (on_ok (fun d g => published_at g d)).
Proof.
  unfold publish_artifact. apply ok_bind, ok_ensure. intros _. apply ok_bind. eapply ok_mono; [apply safe_bundle_bytes|].
  intros bundle g [Hputs Hready]. apply ok_bind, ok_of_res. intros header Hh. apply ok_bind, ok_of_res. intros value Hv.
  assert (artifact_value bundle = Ok value) as Hav by (unfold artifact_value; rewrite Hh; exact Hv).
  destruct (Hready value Hav) as [Hlen Hp]. apply ok_bind, ok_of_res. intros key Hk.
  unfold bundle_key in Hk. apply res_bind_ok in Hk as ([] & _ & [= <-]). apply ok_bind. unfold put_cas.
  apply ok_bind, safe_attempt, (Prog.safe_call (answer:=answer)); [cbn [may_publish]; rewrite Hputs; unfold artifact_put in Hp; by rewrite Hp|].
  intros sent. apply ok_bind. apply ok_catch, ok_download; [cbn; apply String.eqb_refl|]. intros observed.
  apply ok_ensure. intros ->%String.eqb_eq. apply ok_ret. exists bundle, value. cbn [puts next object]. rewrite <- Hputs. done.
Qed.
End Publish.
