(* ===== verification/ArtifactProps.v ===== *)
(** Properties of the durable artifacts: a publication is one conditional
    write that was read back, a recovery checks out only what was verified,
    and what was published is what is recovered. *)
From Stdlib Require Import Ascii String.
From S2P Require Import Prelude Prog PyStr Sha256 Json PyVal PyText Names PyJson PyBytes PyUrl Manifest OneShot Bundle BundleProps.
From S2P Require Import Artifact ArtifactSpec.
From stdpp Require Import strings list.

Local Open Scope string_scope.
Local Open Scope Z_scope.
Local Open Scope list_scope.

(** ** A store and a checkout *)

(** The objects by key, the files by name, the head of the checkout. *)
Record Host := mkHost { stored : list (string * string); files : list (string * string); host_head : string }.
Definition base_commit : string := "1111111111111111111111111111111111111111".
Definition fixed_commit : string := "2222222222222222222222222222222222222222".
Definition lines (l : list string) : string := concat_text (map (fun s => String.append s newline) l).
Definition git_bundle : string :=
  concat_text [lines ["# v2 git bundle"; String.append "-" (String.append base_commit " base"); String.append fixed_commit " HEAD"; ""];
               "PACK"; str [chr 0; chr 200]].
Definition hex64 (c : string) : string := concat_text (repeat c 64).
Definition fixed_result : AdapterResult.t :=
  AdapterResult.mk fixed_commit ["app/x.py"] ["issue.repair"] (hex64 "a").
Definition raw_manifest : json := JObj [
  ("schema_version", JInt 1); ("task_id", JStr "cwp-0123456789abcdef01234567"); ("repository", JStr "owner/repo");
  ("base_sha", JStr base_commit); ("workspace_sha", JStr base_commit); ("adapter_id", JStr "bridge.property.v1");
  ("adapter_contract_sha256", JStr (hex64 "c")); ("before_sha256", JObj [("app/x.py", JStr (hex64 "d"))])].
Definition fixed_manifest : TaskManifest.t :=
  TaskManifest.mk (JInt 1) "cwp-0123456789abcdef01234567" "owner/repo" base_commit base_commit "bridge.property.v1"
    (hex64 "c") [("app/x.py", hex64 "d")].
Definition store_config : S3ArtifactConfig.t := S3ArtifactConfig.mk "bucket-1" "eu-1" "codex-artifacts" None 1048576.
Definition no_response : exn → json := fun _ => JNull.

Definition git_answer (args : list string) (h : Host) : res GitOut * Host :=
  match recognise args with
  | g_create p _ => (Ok (mkGit 0 "" 0), mkHost (stored h) ((p, git_bundle) :: files h) (host_head h))
  | g_heads _ => (Ok (mkGit 0 (lines [String.append fixed_commit " HEAD"]) 0), h)
  | g_filters _ => (Ok (mkGit 1 "" 0), h)
  | g_checkout sha => (Ok (mkGit 0 "" 0), mkHost (stored h) (files h) sha)
  | g_look sub => (Ok (mkGit 0 (if words_are sub ["rev-parse"; "--show-toplevel"] then "/work"
                                else if words_are sub ["rev-parse"; "--git-path"; "info/attributes"] then ".git/info/attributes" else "") 0), h)
  | _ => (Ok (mkGit 0 "" 0), h)
  end.
Definition local_answer (o : OneShot.op) (h : Host) : res (OneShot.answer o) * Host :=
  match o return res (OneShot.answer o) * Host with
  | root_stat => (Ok (RootStat.mk true false), h)
  | OneShot.git args =>
      (Ok (0, if words_are args ["rev-parse"; "HEAD"] then host_head h
              else if words_are (take 1 args) ["diff"] then lines ["app/x.py"] else ""), h)
  | _ => (Raise (RuntimeError ""), h)
  end.
Definition host_world (o : op) (h : Host) : res (answer o) * Host :=
  match o return res (answer o) * Host with
  | put_object p => (Ok tt, mkHost ((Put.key p, Put.body p) :: stored h) (files h) (host_head h))
  | get_object _ k =>
      (match lookup_key k (stored h) with
       | Some v => Ok (mkStored (JInt (length_of v)) true [Ok (bytes_read v)] (Ok tt))
       | None => Raise (Error "ClientError" "NoSuchKey")
       end, h)
  | temporary_directory p => (Ok (String.append "/tmp/" p), h)
  | mkstemp p x d => (Ok (concat_text [d; "/"; p; x]), h)
  | stat_size p => (Ok (match lookup_key p (files h) with Some v => length_of v | None => 0 end), h)
  | read_file p => (match lookup_key p (files h) with Some v => Ok v | None => Raise (Error "OSError" p) end, h)
  | write_file p v => (Ok tt, mkHost (stored h) ((p, v) :: files h) (host_head h))
  | git args => git_answer args h
  | root_resolved => (Ok "/work", h)
  | resolved p => (Ok p, h)
  | path_state _ => (Ok (PathState.mk false false false 0), h)
  | workspace o => local_answer o h
  | leave_directory _ | mkdir _ | chmod _ | unlink _ => (Ok tt, h)
  end.
Definition artifact_task : string := TaskManifest.task_id fixed_manifest.
Definition publish_run := execute host_world
  (publish_artifact store_config artifact_task 1 "attempt-1" "effect-1" fixed_manifest fixed_result) (mkHost [] [] fixed_commit).
Definition published_descriptor : DurableArtifact.t :=
  match publish_run.2.1 with Ok d => d | Raise _ => DurableArtifact.mk "" "" "" end.
Definition recover_run := execute host_world
  (materialize_artifact store_config artifact_task fixed_manifest published_descriptor)
  (mkHost (stored publish_run.2.2) [] base_commit).

Example publish_and_recover :
  (publish_run.2.1, DurableArtifact.artifact_kind published_descriptor, recover_run.2.1, host_head recover_run.2.2)
  = (Ok published_descriptor, "git_bundle_v1", Ok fixed_result, fixed_commit).
Proof. vm_compute. reflexivity. Qed.
Example fixed_manifest_parsed : parse_manifest raw_manifest = Ok fixed_manifest.
Proof. vm_compute. reflexivity. Qed.

(** ** Publication *)

(** C28: whatever the object store, git and the workspace answer, a publication
    writes at most one object: the framed header and bundle under the key of
    its own SHA-256, on condition that the key is absent, after the checkout
    was clean at the produced commit, without a remote and with exactly the
    paths of the result changed, both commits of the manifest were ancestors,
    and git and the transport verified that the bundle has the one
    prerequisite and the one head.  It returns the descriptor of these bytes
    only when the whole object was read back with exactly these bytes. *)
Theorem publication_is_verified (config : S3ArtifactConfig.t) (m : TaskManifest.t) (r : AdapterResult.t) (g : Z)
    (attempt_id effect_id task_id : string) (t : list (event (answer:=answer))) (x : res DurableArtifact.t)
    (Hruns : runs (publish_artifact config task_id g attempt_id effect_id m r) t x) :
  accepts (may_publish config m r g attempt_id effect_id) (next config) unseen t = true ∧
  ∀ d, x = Ok d → published_at config m r g attempt_id effect_id (reached (next config) unseen t) d.
Proof.
  destruct (safe_runs _ _ _ _ _ _ _ (safe_publish_artifact config m r g attempt_id effect_id task_id) Hruns) as [Ha Hx].
  split; [exact Ha|]. by intros d ->.
Qed.
Lemma publication_is_verified_witness :
  (length publish_run.1 = 22%nat ∧ publish_run.2.1 = Ok published_descriptor) ∧
  accepts (may_publish store_config fixed_manifest fixed_result 1 "attempt-1" "effect-1") (next store_config) unseen publish_run.1 = true ∧
  ∀ d, publish_run.2.1 = Ok d → published_at store_config fixed_manifest fixed_result 1 "attempt-1" "effect-1"
    (reached (next store_config) unseen publish_run.1) d.
Proof.
  split; [vm_compute; split; reflexivity|].
  apply (publication_is_verified store_config fixed_manifest fixed_result 1 "attempt-1" "effect-1" artifact_task).
  exact (execute_runs host_world _ (mkHost [] [] fixed_commit)).
Defined.

(** ** Recovery *)

(** Whatever the object store, git and the workspace answer, a recovery
    reads the one key of its descriptor, writes no object, and makes at most
    one checkout: of the commit that the downloaded bytes name, after these
    bytes had the SHA-256 of the descriptor and decoded to this manifest, the
    bundle in the written file had the one prerequisite and the one head, git
    verified and fetched that file, both commits of the manifest were
    ancestors, no external filter and no attributes were configured, and the
    checkout was clean, pristine, without a remote, at the commit of the
    manifest.  It returns only the decoded result, when the checkout is again
    clean and pristine, without a remote, at that commit, with exactly the
    paths of the result changed. *)
Theorem recovery_is_verified (config : S3ArtifactConfig.t) (m : TaskManifest.t) (d : DurableArtifact.t) (task_id : string)
    (t : list (event (answer:=answer))) (x : res AdapterResult.t)
    (Hruns : runs (materialize_artifact config task_id m d) t x) :
  accepts (may_materialize config m d) (next config) unseen t = true ∧
  ∀ r, x = Ok r → materialized_at m d (reached (next config) unseen t) r.
Proof.
  destruct (safe_runs _ _ _ _ _ _ _ (safe_materialize_artifact config m d task_id) Hruns) as [Ha Hx].
  split; [exact Ha|]. by intros r ->.
Qed.
Lemma recovery_is_verified_witness :
  (length recover_run.1 = 30%nat ∧ recover_run.2.1 = Ok fixed_result) ∧
  accepts (may_materialize store_config fixed_manifest published_descriptor) (next store_config) unseen recover_run.1 = true ∧
  ∀ r, recover_run.2.1 = Ok r → materialized_at fixed_manifest published_descriptor (reached (next store_config) unseen recover_run.1) r.
Proof.
  split; [vm_compute; split; reflexivity|].
  apply (recovery_is_verified store_config fixed_manifest published_descriptor artifact_task).
  exact (execute_runs host_world _ (mkHost (stored publish_run.2.2) [] base_commit)).
Defined.

(** ** What was published is recovered *)

(** C29: a host that publishes the result of a parsed manifest leaves an object
    whose bytes, and only these under the descriptor's digest and length, mean
    that result: they decode to the published bundle and result, canonically
    framed; and on any other host, whatever its git and its checkout answer, a
    recovery of the descriptor for the same manifest that was given these
    bytes ends in an error or with that very result. *)
Theorem published_artifact_is_recovered (bracketed_host : string → bool) (config : S3ArtifactConfig.t) (raw : json)
    (m : TaskManifest.t) (r : AdapterResult.t) (g : Z) (attempt_id effect_id task_id : string)
    (t : list (event (answer:=answer))) (d : DurableArtifact.t)
    (Hconfig : valid_config bracketed_host config = Ok tt) (Hm : parse_manifest raw = Ok m)
    (Hpaths : map_res safe_relative_path (map JStr (AdapterResult.changed_paths r)) = Ok (AdapterResult.changed_paths r))
    (Hg : g < 2 ^ 63) (Hruns : runs (publish_artifact config task_id g attempt_id effect_id m r) t (Ok d)) :
  ∃ value header bundle,
    object (reached (next config) unseen t) = Some value ∧ map Put.body (puts (reached (next config) unseen t)) = [value] ∧
    d = descriptor (sha256_hex value) ∧ value = framed (canonical header) bundle ∧
    decode value (DurableArtifact.artifact_sha256 d) m None false = Ok (header, bundle, r) ∧
    ∀ t' x, runs (materialize_artifact config task_id m d) t' x → object (reached (next config) unseen t') = Some value →
      ∀ r', x = Ok r' → r' = r.
Proof.
  destruct (safe_runs _ _ _ _ _ _ _ (safe_publish_artifact config m r g attempt_id effect_id task_id) Hruns) as [_ Hx].
  destruct Hx as (bundle & value & Hv & Hlen & Hputs & Hobj & ->).
  assert (S3ArtifactConfig.max_artifact_bytes config < 2 ^ 63) as Hmax.
  { unfold valid_config in Hconfig. do 3 (apply res_bind_ok in Hconfig as ([] & _ & Hconfig)).
    apply res_bind_ok in Hconfig as ([] & Hb%need_true & _). apply andb_prop in Hb as [_ Hb%Z.leb_le]. lia. }
  unfold artifact_value in Hv. apply res_bind_ok in Hv as (header & Hh & Hv).
  pose proof (decode_encode m g attempt_id effect_id r bundle header _ value None false (parsed_manifest _ _ Hm) Hpaths
    Hg Hlen Hmax Hh Hv ltac:(by intros ? [=])) as Hdec.
  exists value, (sort_all header), bundle. split; [exact Hobj|]. split; [by rewrite Hputs|]. split; [done|].
  destruct (decoded_is_framed _ _ _ _ _ _ _ _ Hdec) as (_ & Hf & _). split; [exact Hf|]. split; [exact Hdec|].
  intros t' x Hr Ho r' ->.
  destruct (safe_runs _ _ _ _ _ _ _ (safe_materialize_artifact config m _ task_id) Hr) as [_ ([b Hrec] & _)].
  unfold received in Hrec. rewrite Ho in Hrec. cbn [mbind option_bind] in Hrec.
  unfold descriptor in Hrec. cbn [DurableArtifact.artifact_sha256] in Hrec. rewrite Hdec in Hrec. by injection Hrec.
Qed.
Lemma published_artifact_is_recovered_witness :
  publish_run.2.1 = Ok published_descriptor ∧
  ∃ value header bundle,
    object (reached (next store_config) unseen publish_run.1) = Some value ∧
    map Put.body (puts (reached (next store_config) unseen publish_run.1)) = [value] ∧
    published_descriptor = descriptor (sha256_hex value) ∧ value = framed (canonical header) bundle ∧
    decode value (DurableArtifact.artifact_sha256 published_descriptor) fixed_manifest None false = Ok (header, bundle, fixed_result) ∧
    ∀ t' x, runs (materialize_artifact store_config artifact_task fixed_manifest published_descriptor) t' x →
      object (reached (next store_config) unseen t') = Some value → ∀ r', x = Ok r' → r' = fixed_result.
Proof.
  assert (publish_run.2.1 = Ok published_descriptor) as E by (vm_compute; reflexivity).
  split; [exact E|].
  apply (published_artifact_is_recovered (fun _ => true) store_config raw_manifest fixed_manifest fixed_result 1 "attempt-1" "effect-1"
    artifact_task publish_run.1 published_descriptor).
  - vm_compute. reflexivity.
  - exact fixed_manifest_parsed.
  - vm_compute. reflexivity.
  - reflexivity.
  - rewrite <- E. exact (execute_runs host_world _ (mkHost [] [] fixed_commit)).
Defined.

(** A header whose commands hold a list passes no check and escapes the
    transport's own error: [set] raises first. *)
Lemma unhashable_command_escapes : ∀ r paths,
  RawResult.invoked_commands r = [JList []] → str_that (fullmatch SHA40) (RawResult.produced_sha r) = true →
  str_that (fullmatch SHA256_HEX) (RawResult.evidence_sha256 r) = true →
  map_res safe_relative_path (RawResult.changed_paths r) = Ok paths → paths ≠ [] → paths = sorted_set paths →
  result_value r = Raise (TypeError "unhashable type").
Proof.
  intros r paths Hc Hp He Hpaths Hne Hs. unfold result_value. rewrite Hp, He, Hpaths, Hc. cbn [need andb mbind res_bind].
  rewrite (bool_decide_eq_false_2 (paths = []) Hne), (bool_decide_eq_true_2 _ Hs). reflexivity.
Qed.
