(* ===== verification/GitHub.v ===== *)
(** The GitHub port of the issue pipeline, [app/github_draft_port.py]: the
    class [OfficialGitHubDraftPort] as programs over the token's file and one
    HTTPS request at a time, and the port as the surroundings of the programs
    of [IssueDraft] and [IssuePool].

    A response is what the code reads of it: the scheme, host and path of the
    URL it came from, whether there were redirections, its status, size,
    content type and JSON value, if it has one.  [HTTPError] stands for the
    errors of the HTTP library. *)
From Stdlib Require Import Ascii String.
From stdpp Require Import strings list.
From S2P Require Import Prelude Prog PyStr Sha256 Clock Json PyVal PyText PyAst PyBytes PyUrl IsoDate Names Structured Repair IssueDraft.
From S2P Require Manifest PoolClient.

Local Open Scope string_scope.
Local Open Scope Z_scope.
Local Open Scope list_scope.

Definition API : string := "https://api.github.com".
Definition PREFIX : string := String.append "/repos/" REPO.
Definition DECIMAL : re := Cat (Chr (in_range 49 57)) (Rep 0 None (Chr is_digit)).
Definition AGENT : re := Cat (lit "agent/qwen7b-issue-") (Cat DECIMAL (Cat (lit "-") (times 12 hex_lower))).
Definition MAX_JSON : Z := 262144.
Definition MAX_SOURCE : Z := 262144.

(** ** Calls *)

Record Request := mkRequest {
  method : string; url : string; query : option (list (string * string)); payload : option json; token : string }.
Record Reply := mkReply {
  url_scheme : string; url_host : string; url_path : string; history : bool; status : Z; size : Z;
  content_type : string; content : option json }.
Inductive op : Type :=
  | read_token
  | send (q : Request).
Definition answer (o : op) : Type := match o with read_token => string | send _ => Reply end.
Abbreviation P := (prog answer).
Definition demand (c : bool) (reason : string) : P unit := of_res (require c reason).

(** ** One request *)

Definition token_of (raw : string) : res string :=
  require ((16 <=? len raw)%nat && (len raw <=? 4096)%nat) "github_token_invalid" ;;
  require (forallb (fun c => (code c <? 128)%N) (chars raw)) "github_token_invalid" ;;
  let value := strip raw in
  require (fullmatch PoolClient.TOKEN_RE value) "github_token_invalid" ;;
  Ok value.
(** [_token] *)
Definition port_token : P string :=
  raw ← catch (call read_token) (fun e =>
    throw (if Manifest.is_a "SecureFileError" e || Manifest.is_a "OSError" e then handoff "github_token_file_unavailable" else e));
  of_res (token_of raw).
(** [_ref] *)
Definition checked_ref (allow_sha : bool) (ref : string) : res string :=
  require (String.eqb ref "main" || fullmatch AGENT ref || (allow_sha && fullmatch SHA40 ref)) "github_branch_ref_invalid" ;;
  Ok ref.

Definition route_ok (method tail : string) : bool :=
  bool_decide (method ∈ ["GET"; "POST"; "PUT"]) && starts_with "/" tail && negb (contains "//" tail) &&
  has_none_of [backslash; "?"%char; "#"%char; LF; CR] tail.
Definition HEADERS : list (string * string) :=
  [("Accept", "application/vnd.github+json"); ("X-GitHub-Api-Version", "2022-11-28")].
Definition url_of (tail : string) : string := concat_text [API; PREFIX; tail].
Definition encode_ascii (s : string) : res string :=
  if forallb (fun c => (code c <? 128)%N) (chars s) then Ok s else Raise (ValueError "UnicodeEncodeError").
(** The value of a response that passes the checks, [None] when it is missing
    and may be. *)
Definition accept_reply (tail : string) (statuses : list Z) (missing_ok : bool) (r : Reply) : res json :=
  (if String.eqb (url_scheme r) "https" && String.eqb (url_host r) "api.github.com" then
     path ← encode_ascii (String.append PREFIX tail);
     require (String.eqb (url_path r) path && negb (history r)) "github_response_origin_invalid"
   else Raise (handoff "github_response_origin_invalid")) ;;
  if missing_ok && (status r =? 404) then Ok JNull else
  require (bool_decide (status r ∈ statuses)) "github_status_unverified" ;;
  require ((size r <=? MAX_JSON) && String.eqb (PoolClient.media_type (content_type r)) "application/json") "github_json_invalid" ;;
  match content r with
  | None => Raise (handoff "github_json_invalid")
  | Some data =>
      require (match data with JObj _ | JList _ => true | _ => false end) "github_json_invalid" ;; Ok data
  end.
(** [_request] *)
Definition request (method tail : string) (query : option (list (string * string))) (payload : option json)
    (statuses : list Z) (missing_ok : bool) : P json :=
  demand (route_ok method tail) "github_route_invalid" ;;
  result ← catch (token ← port_token; call (send (mkRequest method (url_of tail) query payload token)) : P Reply)
             (fun e => throw (if PoolClient.transport_failure e then handoff "github_result_uncertain" else e));
  of_res (accept_reply tail statuses missing_ok result).

(** ** Reading *)

Definition issue_tail (number : Z) : string := String.append "/issues/" (int_text number).
Definition comment_tail (comment_id : Z) : string := String.append "/issues/comments/" (int_text comment_id).
Definition branch_tail (ref : string) : string := String.append "/branches/" (quote_with "" ref).
Definition contents_tail (path : string) : string := String.append "/contents/" path.
Definition compare_tail (base_sha head_sha : string) : string := concat_text ["/compare/"; base_sha; "..."; head_sha].

Definition port_issue (number : Z) : P json :=
  demand (0 <? number) "github_issue_id_invalid" ;;
  result ← request "GET" (issue_tail number) None None [200] false;
  demand (is_dict result) "github_issue_shape_invalid" ;; mret result.
Definition port_comment (comment_id : Z) : P json :=
  demand (0 <? comment_id) "github_comment_id_invalid" ;;
  result ← request "GET" (comment_tail comment_id) None None [200] false;
  demand (is_dict result) "github_comment_shape_invalid" ;; mret result.
Definition sha_member (k : string) (v : json) : bool := str_that (fullmatch SHA40) (member k v).
Definition branch_shape (name : string) (result : json) : bool :=
  is_dict result && text_is "name" name result && is_dict (member "commit" result) && sha_member "sha" (member "commit" result).
Definition port_branch (branch : string) : P json :=
  ref ← of_res (checked_ref false branch);
  result ← request "GET" (branch_tail ref) None None [200] true;
  if is_none result then mret JNull else demand (branch_shape ref result) "github_branch_shape_invalid" ;; mret result.

(** The contents of a file in the form of the API. *)
Definition file_shape (path : string) (maximum : Z) (result : json) : bool :=
  is_dict result && text_is "type" "file" result && text_is "path" path result && text_is "encoding" "base64" result &&
  is_str (member "content" result) && is_str (member "sha" result) &&
  int_that (fun n => (0 <? n) && (n <=? maximum)) (member "size" result).
Definition source_shape (result : json) : bool := file_shape PATH MAX_SOURCE result && sha_member "sha" result.
(** [except (ValueError, TypeError, binascii.Error)] *)
Definition base64_failure (e : exn) : bool := match e with ValueError _ | TypeError _ => true | _ => false end.
Definition source_of (result : json) : res (string * json) :=
  require (source_shape result) "github_source_invalid" ;;
  let content := str_value (member "content" result) in
  raw ← match b64decode false content with
        | Raise e => Raise (if base64_failure e then handoff "github_source_base64_invalid" else e)
        | Ok raw => require (String.eqb (b64encode raw) (without_space content)) "github_source_base64_invalid" ;; Ok raw
        end;
  require ((length_of raw =? int_value (member "size" result)) && (length_of raw <=? MAX_SOURCE) &&
           text_is "sha" (blob_sha1 raw) result) "github_source_blob_unverified" ;;
  Ok (raw, member "sha" result).
Definition port_source (ref : string) : P (string * json) :=
  of_res (checked_ref true ref) ;;
  result ← request "GET" (contents_tail PATH) (Some [("ref", ref)]) None [200] false;
  of_res (source_of result).

Definition compare_shape (result : json) : bool :=
  is_dict result && text_is "status" "ahead" result && py_eqb (member "ahead_by" result) (JInt 1) &&
  py_eqb (member "behind_by" result) (JInt 0) && py_eqb (member "total_commits" result) (JInt 1) &&
  match member "files" result with JList [f] => is_dict f && text_is "status" "modified" f | _ => false end.
(** The paths as texts; a name that is none differs from every path. *)
Definition port_changed_paths (base_sha head_sha : string) : P (list string) :=
  demand (fullmatch SHA40 base_sha && fullmatch SHA40 head_sha) "github_compare_sha_invalid" ;;
  result ← request "GET" (compare_tail base_sha head_sha) None None [200] false;
  demand (compare_shape result) "github_compare_unverified" ;;
  mret (match member "files" result with JList [f] => [str_value (member "filename" f)] | _ => [] end).

Definition pulls_query (head : string) : list (string * string) :=
  [("state", "all"); ("head", concat_text [OWNER; ":"; head]); ("base", "main"); ("per_page", "100")].
(** [v.get("repo", {}).get("full_name") == REPO] *)
Definition in_repo (v : json) : res bool :=
  repo ← get_or "repo" (JObj []) v; name ← get "full_name" repo; Ok (is_text name REPO).
Definition pr_identity (head : string) (pr : json) : res bool :=
  (Ok (is_dict pr && is_int (member "number" pr) && is_dict (member "head" pr) && text_is "ref" head (member "head" pr)) &&&
   in_repo (member "head" pr) &&& Ok (is_dict (member "base" pr) && text_is "ref" "main" (member "base" pr)) &&&
   in_repo (member "base" pr))%py.
Definition pr_summary (pr : json) : json :=
  JObj [("number", member "number" pr); ("state", member "state" pr); ("draft", member "draft" pr);
        ("head_sha", member "sha" (member "head" pr)); ("base_ref", member "ref" (member "base" pr)); ("body", member "body" pr)].
Definition port_find_pr (head : string) : P json :=
  demand (fullmatch AGENT head) "github_pr_head_invalid" ;;
  result ← request "GET" "/pulls" (Some (pulls_query head)) None [200] false;
  match result with
  | JList [] => mret JNull
  | JList [pr] =>
      ok ← of_res (pr_identity head pr); demand ok "github_pr_identity_invalid" ;; mret (pr_summary pr)
  | _ => throw (handoff "github_pr_lookup_ambiguous")
  end.

(** ** Writing *)

Definition full_ref (name : string) : string := String.append "refs/heads/" name.
Definition ref_payload (name sha : string) : json := JObj [("ref", JStr (full_ref name)); ("sha", JStr sha)].
Definition ref_created (name sha : string) (result : json) : bool :=
  is_dict result && text_is "ref" (full_ref name) result && is_dict (member "object" result) &&
  text_is "sha" sha (member "object" result).
Definition port_create_branch (name sha : string) : P unit :=
  demand (fullmatch AGENT name && fullmatch SHA40 sha) "github_branch_create_invalid" ;;
  result ← request "POST" "/git/refs" None (Some (ref_payload name sha)) [201] false;
  demand (ref_created name sha result) "github_branch_create_unverified".
Definition source_payload (name content blob_sha : string) : json :=
  JObj [("message", JStr "fix: local Qwen7B validated issue-bound change"); ("branch", JStr name); ("sha", JStr blob_sha);
        ("content", JStr (b64encode content))].
Definition file_written (path blob : string) (result : json) : bool :=
  is_dict result && is_dict (member "content" result) && text_is "path" path (member "content" result) &&
  text_is "sha" blob (member "content" result) && is_dict (member "commit" result) && sha_member "sha" (member "commit" result).
Definition port_replace_source (name content blob_sha : string) : P unit :=
  demand (fullmatch AGENT name && (0 <? length_of content) && (length_of content <=? MAX_SOURCE) && fullmatch SHA40 blob_sha)
    "github_write_invalid" ;;
  result ← request "PUT" (contents_tail PATH) None (Some (source_payload name content blob_sha)) [200] false;
  demand (file_written PATH (blob_sha1 content) result) "github_write_readback_required".
Definition pr_payload (head title body : string) : json :=
  JObj [("title", JStr title); ("head", JStr head); ("base", JStr "main"); ("body", JStr body); ("draft", JBool true);
        ("maintainer_can_modify", JBool false)].
Definition port_create_pr (head title body : string) : P unit :=
  demand (fullmatch AGENT head && starts_with "fix: issue #" title && (length_of body <? 4096)) "github_create_pr_invalid" ;;
  result ← request "POST" "/pulls" None (Some (pr_payload head title body)) [201] false;
  demand (is_dict result && text_is "state" "open" result && is_true (member "draft" result)) "github_pr_create_unverified".

(** ** The port as the surroundings of the issue pipeline *)

Inductive hub_op : Type :=
  | http (o : op)
  | beside (o : IssueDraft.op).
Definition hub_answer (o : hub_op) : Type := match o with http o => answer o | beside o => IssueDraft.answer o end.
(** A program of the port among these calls. *)
Fixpoint over_http {A} (m : P A) : prog hub_answer A :=
  match m with
  | Ret a => Ret a
  | Throw e => Throw e
  | Do o k => Do (http o) (fun r : res (answer o) => over_http (k r))
  end.
(** The method of the port for a call, or the call itself. *)
Definition by_port (o : IssueDraft.op) : prog hub_answer (IssueDraft.answer o) :=
  match o return prog hub_answer (IssueDraft.answer o) with
  | get_branch name => over_http (port_branch name)
  | get_source ref => over_http (port_source ref)
  | changed_paths base_sha head_sha => over_http (port_changed_paths base_sha head_sha)
  | create_branch name sha => over_http (port_create_branch name sha)
  | replace_source name content blob_sha => over_http (port_replace_source name content blob_sha)
  | find_pr head => over_http (port_find_pr head)
  | create_pr head title body => over_http (port_create_pr head title body)
  | get_issue number => over_http (port_issue number)
  | get_comment comment_id => over_http (port_comment comment_id)
  | o => Do (beside o) (fun r : res (IssueDraft.answer o) => of_res r)
  end.
