(* ===== verification/GitHubProps.v ===== *)
(** Properties of the GitHub port: it sends one request at most for a call,
    for the one repository, with the token just read; what a publication over
    it writes, and the identity of the source that it reads. *)
From Stdlib Require Import Ascii String.
From S2P Require Import Prelude Prog PyStr Sha256 Clock Json PyVal PyText PyAst PyBytes PyUrl IsoDate Names Structured Repair IssueDraft.
From S2P Require Import IssuePool IssueSpec IssueScenario GitHub.
From S2P Require PoolClient Manifest BundleProps PoolServiceProps.
From stdpp Require Import strings list.

Local Open Scope string_scope.
Local Open Scope Z_scope.
Local Open Scope list_scope.

(** ** Every request *)

Definition REPOSITORY_URL : string := url_of "/".
Definition governed_request (q : Request) : bool :=
  starts_with REPOSITORY_URL (url q) && has_none_of [backslash; "?"%char; "#"%char; LF; CR] (url q) &&
  bool_decide (method q ∈ ["GET"; "POST"; "PUT"]).
(** Each request bears the token of the file as it was read for it. *)
Definition port_allowed (fresh : option string) (o : hub_op) : bool :=
  match o with http (send q) => bool_decide (fresh = Some (token q)) && governed_request q | _ => true end.
Definition port_next (fresh : option string) (o : hub_op) : res (hub_answer o) → option string :=
  match o with
  | http read_token => fun r => match r with Ok raw => match token_of raw with Ok s => Some s | Raise _ => None end | Raise _ => None end
  | http (send _) => fun _ => None
  | _ => fun _ => fresh
  end.

Lemma has_none_app cs s u : has_none_of cs (s ++ u)%string = has_none_of cs s && has_none_of cs u.
Proof.
  unfold has_none_of. rewrite chars_app. induction cs as [|c cs IH]; cbn; [done|]. rewrite IH, existsb_app, negb_orb.
  destruct (existsb _ (chars s)), (existsb _ (chars u)), (forallb _ cs); cbn; try done; by rewrite andb_false_r.
Qed.
Lemma url_of_governed method tail query payload token :
  route_ok method tail = true → governed_request (mkRequest method (url_of tail) query payload token) = true.
Proof.
  unfold route_ok, governed_request. cbn [url GitHub.method]. intros [[[Hm Hs]%andb_prop _]%andb_prop Hn]%andb_prop.
  assert (url_of tail = (API ++ (PREFIX ++ tail))%string) as Eu.
  { apply chars_inj. unfold url_of, concat_text. rewrite chars_str. cbn [flat_map]. by rewrite !chars_app, app_nil_r. }
  rewrite Hm, Eu, !has_none_app, Hn. rewrite andb_true_r. apply andb_true_intro. split; [|done].
  destruct tail as [|c tail]; [done|]. change (starts_with "/" (String c tail)) with (Ascii.eqb "/" c && true) in Hs.
  rewrite andb_true_r in Hs. apply Ascii.eqb_eq in Hs as <-.
  change (API ++ (PREFIX ++ String "/" tail))%string with (REPOSITORY_URL ++ tail)%string. apply PyText.starts_with_app.
Qed.

Lemma safe_over_http {S} (allowed : S → hub_op → bool) (next : S → ∀ o, res (hub_answer o) → S) {A} (m : P A) s
    (Q : res A → S → Prop) :
  safe (fun s o => allowed s (http o)) (fun s o r => next s (http o) r) m s Q → safe allowed next (over_http m) s Q.
Proof.
  revert s. induction m as [a|e|o k IH]; intros s; cbn; [done..|]. intros [Ha Hk]. split; [done|]. intros r. apply IH, Hk.
Qed.

(** ** One request for each call *)

(** The request of a call, but for its token. *)
Definition request_of (o : IssueDraft.op) : option Request :=
  match o with
  | get_branch name => Some (mkRequest "GET" (url_of (branch_tail name)) None None "")
  | get_source ref => Some (mkRequest "GET" (url_of (contents_tail PATH)) (Some [("ref", ref)]) None "")
  | changed_paths b h => Some (mkRequest "GET" (url_of (compare_tail b h)) None None "")
  | create_branch name sha => Some (mkRequest "POST" (url_of "/git/refs") None (Some (ref_payload name sha)) "")
  | replace_source name content blob_sha =>
      Some (mkRequest "PUT" (url_of (contents_tail PATH)) None (Some (source_payload name content blob_sha)) "")
  | find_pr head => Some (mkRequest "GET" (url_of "/pulls") (Some (pulls_query head)) None "")
  | create_pr head title body => Some (mkRequest "POST" (url_of "/pulls") None (Some (pr_payload head title body)) "")
  | get_issue number => Some (mkRequest "GET" (url_of (issue_tail number)) None None "")
  | get_comment comment_id => Some (mkRequest "GET" (url_of (comment_tail comment_id)) None None "")
  | _ => None
  end.


Section OneRequest.
Context {S : Type} (allowed : S → op → bool) (next : S → ∀ o, res (answer o) → S).
Context (before after : S → Prop).
(** The one request that may be sent, but for its token. *)
Context (fits : Request → Prop).
Let shape method tail query payload := mkRequest method (url_of tail) query payload "".
Context (Htoken : ∀ s, before s → allowed s read_token = true).
Context (Hraised : ∀ s e, before s → before (next s read_token (Raise e))).
Context (Hinvalid : ∀ s raw e, before s → token_of raw = Raise e → before (next s read_token (Ok raw))).
Context (Hsend : ∀ s raw token method tail query payload r, before s → token_of raw = Ok token → route_ok method tail = true →
  fits (shape method tail query payload) →
  let s' := next s read_token (Ok raw) in let q := mkRequest method (url_of tail) query payload token in
  allowed s' (send q) = true ∧ after (next s' (send q) r)).
Let ends {A} : res A → S → Prop := fun _ s => before s ∨ after s.

Lemma quiet_res {A B} (r : res A) (f : A → P B) s :
  (before s ∨ after s) → (∀ a, r = Ok a → safe allowed next (f a) s ends) → safe allowed next (x ← of_res r; f x) s ends.
Proof. intros Hs H. apply safe_bind, safe_of_res. destruct r; [by apply H|done]. Qed.
Lemma one_request {A} method tail query payload statuses missing_ok (f : json → P A) s :
  before s → fits (shape method tail query payload) → (∀ v s', after s' → safe allowed next (f v) s' ends) →
  safe allowed next (v ← request method tail query payload statuses missing_ok; f v) s ends.
Proof.
  intros Hs Hq Hf. apply safe_bind. unfold request. apply safe_bind, safe_of_res.
  destruct (route_ok method tail) eqn:Hr; cbn [require]; [|by left].
  apply safe_bind, safe_catch, safe_bind. unfold port_token. apply safe_bind, safe_catch.
  apply (Prog.safe_call (answer:=answer)); [by apply Htoken|]. intros [raw|e].
  - apply safe_of_res. destruct (token_of raw) as [token|e] eqn:Et.
    + pose proof (fun r => Hsend s raw token method tail query payload r Hs Et Hr Hq) as H. cbn zeta in H.
      apply (Prog.safe_call (answer:=answer)); [apply (H (Raise (RuntimeError "")))|]. intros r. destruct (H r) as [_ Ha].
      destruct r as [reply|e]; [|by apply safe_throw; right].
      apply safe_of_res. destruct (accept_reply _ _ _ reply); [by apply Hf|by right].
    + apply safe_throw. left. by eapply Hinvalid.
  - apply safe_throw, safe_throw. left. by apply Hraised.
Qed.
Lemma quiet_ret {A} (a : A) s : before s ∨ after s → safe allowed next (mret a : P A) s ends.
Proof. done. Qed.
Lemma quiet_of_res {A} (r : res A) s : before s ∨ after s → safe allowed next (of_res r : P A) s ends.
Proof. intros H. by apply safe_of_res. Qed.

Ltac quiet := repeat (apply quiet_res; [by auto|intros]; cbn beta);
  try (apply quiet_ret; by auto); try (apply quiet_of_res; by auto).
(** Every method of the port. *)
Lemma port_source_once ref s : before s → (∀ q, request_of (get_source ref) = Some q → fits q) → safe allowed next (port_source ref) s ends.
Proof. intros Hs Hq. unfold port_source. quiet. apply one_request; [done|by apply Hq|intros v s' Hs']. quiet. Qed.
Lemma port_branch_once name s : before s → (∀ q, request_of (get_branch name) = Some q → fits q) → safe allowed next (port_branch name) s ends.
Proof.
  intros Hs Hq. unfold port_branch. apply quiet_res; [by left|]. intros ref Href.
  unfold checked_ref in Href. apply res_bind_ok in Href as ([] & _ & [= <-]).
  apply one_request; [done|by apply Hq|intros v s' Hs']. destruct (is_none v); quiet.
Qed.
Lemma port_find_once head s : before s → (∀ q, request_of (find_pr head) = Some q → fits q) → safe allowed next (port_find_pr head) s ends.
Proof.
  intros Hs Hq. unfold port_find_pr. quiet. apply one_request; [done|by apply Hq|intros v s' Hs'].
  destruct v as [| | | |[|pr [|pr' l]]|]; try (apply safe_throw; by right); quiet.
Qed.
Lemma port_read_once (o : IssueDraft.op) s : before s → (∀ q, request_of o = Some q → fits q) →
  match o with
  | get_issue n => safe allowed next (port_issue n) s ends
  | get_comment n => safe allowed next (port_comment n) s ends
  | changed_paths b h => safe allowed next (port_changed_paths b h) s ends
  | create_branch n sha => safe allowed next (port_create_branch n sha) s ends
  | replace_source n c b => safe allowed next (port_replace_source n c b) s ends
  | create_pr h t b => safe allowed next (port_create_pr h t b) s ends
  | _ => True
  end.
Proof.
  intros Hs Hq. destruct o; try done;
    unfold port_issue, port_comment, port_changed_paths, port_create_branch, port_replace_source, port_create_pr;
    quiet; (apply one_request; [done|by apply Hq|intros v s' Hs']; quiet).
Qed.
End OneRequest.

Section Port.
Context {S : Type} (allowed : S → hub_op → bool) (next : S → ∀ o, res (hub_answer o) → S).
Context (before after : S → Prop) (fits : Request → Prop).
Context (Htoken : ∀ s, before s → allowed s (http read_token) = true).
Context (Hraised : ∀ s e, before s → before (next s (http read_token) (Raise e))).
Context (Hinvalid : ∀ s raw e, before s → token_of raw = Raise e → before (next s (http read_token) (Ok raw))).
Context (Hsend : ∀ s raw token method tail query payload r, before s → token_of raw = Ok token → route_ok method tail = true →
  fits (mkRequest method (url_of tail) query payload "") →
  let s' := next s (http read_token) (Ok raw) in let q := mkRequest method (url_of tail) query payload token in
  allowed s' (http (send q)) = true ∧ after (next s' (http (send q)) r)).
Context (Hbeside : ∀ s o r, before s → allowed s (beside o) = true ∧ before (next s (beside o) r)).

Lemma by_port_once o s : before s → (∀ q, request_of o = Some q → fits q) →
  safe allowed next (by_port o) s (fun _ s' => before s' ∨ after s').
Proof.
  intros Hs Hq.
  pose proof (port_source_once (fun s o => allowed s (http o)) (fun s o r => next s (http o) r) before after fits Htoken Hraised Hinvalid Hsend) as H1.
  pose proof (port_branch_once (fun s o => allowed s (http o)) (fun s o r => next s (http o) r) before after fits Htoken Hraised Hinvalid Hsend) as H2.
  pose proof (port_find_once (fun s o => allowed s (http o)) (fun s o r => next s (http o) r) before after fits Htoken Hraised Hinvalid Hsend) as H3.
  pose proof (port_read_once (fun s o => allowed s (http o)) (fun s o r => next s (http o) r) before after fits Htoken Hraised Hinvalid Hsend o s Hs Hq) as H4.
  destruct o; cbn [by_port];
    first [by apply safe_over_http, H1 | by apply safe_over_http, H2 | by apply safe_over_http, H3 | by apply safe_over_http
          | (split; [apply (Hbeside s _ (Raise (RuntimeError ""))), Hs|]; intros r; apply safe_of_res; left; by apply Hbeside)].
Qed.
End Port.

(** Whatever program runs over the port. *)
Lemma port_governed {A} (m : prog IssueDraft.answer A) s :
  safe port_allowed port_next (interpret by_port m) s (fun _ _ => True).
Proof.
  apply safe_interpret. clear s. intros o s.
  eapply safe_mono; [apply (by_port_once port_allowed port_next (fun _ => True) (fun _ => True) (fun _ => True))|done]; try done.
  intros s' raw token method tail query payload r _ Ht Hr _. cbn [port_allowed port_next]. rewrite Ht, bool_decide_eq_true_2 by done.
  by rewrite url_of_governed.
Qed.

(** ** The requests of a run *)

Definition unsigned (q : Request) : Request := mkRequest (method q) (url q) (query q) (payload q) "".
Fixpoint requests (t : list (event (answer:=hub_answer))) : list Request :=
  match t with
  | [] => []
  | existT (http (send q)) _ :: t' => unsigned q :: requests t'
  | _ :: t' => requests t'
  end.
Lemma requests_app t u : requests (t ++ u) = requests t ++ requests u.
Proof. induction t as [|[[[|q]|o] r] t IH]; cbn; [done|exact IH|by rewrite IH|exact IH]. Qed.

(** A call is one request at most. *)
Lemma by_port_requests o t r : runs (by_port o) t r →
  requests t = [] ∨ ∃ q, request_of o = Some q ∧ requests t = [q].
Proof.
  intros Hr.
  set (nx := fun (s : list Request) (o : hub_op) (_ : res (hub_answer o)) =>
    match o with http (send q) => s ++ [unsigned q] | _ => s end).
  assert (∀ t s, reached nx s t = s ++ requests t) as Hreach.
  { clear. induction t as [|[[[|q]|o] r] t IH]; intros s; cbn; [by rewrite app_nil_r|apply IH|rewrite IH, <- app_assoc; done|apply IH]. }
  pose proof (by_port_once (fun _ _ => true) nx (fun s => s = []) (fun s => ∃ q, request_of o = Some q ∧ s = [q])
    (fun q => request_of o = Some q)) as H.
  assert (safe (fun _ _ => true) nx (by_port o) [] (fun _ s => s = [] ∨ ∃ q, request_of o = Some q ∧ s = [q])) as Hs.
  { apply H; [done..| | |done|done].
    - intros s raw tok mt tl qu pl r' -> _ _ Hq. split; [done|]. eexists. by split; [exact Hq|].
    - by intros s o' r' ->. }
  destruct (safe_runs _ _ _ _ _ _ _ Hs Hr) as [_ Hx]. clear Hs. rename Hx into Hs.
  rewrite Hreach in Hs. destruct Hs as [Hs|(q & Hq & Hs)]; [by left|right; by exists q].
Qed.

(** The requests of a run are, in order, among those of the program's calls. *)
Lemma run_requests {A} (m : prog IssueDraft.answer A) t x : runs (interpret by_port m) t x →
  ∃ t1, runs m t1 x ∧ requests t `sublist_of` omap (fun e => request_of (projT1 e)) t1.
Proof.
  intros Hr. destruct (runs_interpret by_port m t x Hr) as (t1 & parts & H1 & -> & H2). exists t1. split; [exact H1|]. clear H1 Hr.
  induction H2 as [|e p t1 parts He H2 IH]; [done|]. cbn [concat]. rewrite requests_app.
  destruct (by_port_requests _ _ _ He) as [->|(q & Hq & ->)].
  - cbn. destruct (request_of (projT1 e)); [by apply sublist_cons|exact IH].
  - cbn. rewrite Hq. by apply sublist_skip.
Qed.

(** ** The source *)

(** Blanks between the digits change nothing. *)
Lemma blank_is_no_digit c : is_space c = true → base64_value c = None ∧ Ascii.eqb c "=" = false.
Proof. by destruct c as [[] [] [] [] [] [] [] []]. Qed.
Lemma base64_blanks l : ∀ quad left pads started,
  base64_decode false quad left pads started (List.filter (fun c => negb (is_space c)) l) = base64_decode false quad left pads started l.
Proof.
  induction l as [|c l IH]; intros quad left pads started; [done|]. cbn [List.filter]. destruct (is_space c) eqn:Ec; cbn [negb].
  - destruct (blank_is_no_digit c Ec) as [Hv Hp]. rewrite IH. cbn [base64_decode]. by rewrite Hp, Hv.
  - cbn [base64_decode]. destruct (Ascii.eqb c "=").
    + rewrite !IH. destruct (2 <=? quad), (4 <=? quad + (pads + 1)); done.
    + destruct (base64_value c); rewrite !IH; done.
Qed.

(** The form in which GitHub returns the file. *)
Definition contents_json (path content sha : string) (size : Z) : json :=
  JObj [("type", JStr "file"); ("path", JStr path); ("encoding", JStr "base64"); ("content", JStr content); ("sha", JStr sha);
        ("size", JInt size)].
Lemma blob_digest raw : fullmatch SHA40 (blob_sha1 raw) = true.
Proof. apply fullmatch_times. split; [apply sha1_hex_len|apply sha1_hex_class]. Qed.
Lemma spaced_decode content raw : forallb (fun c => (code c <? 128)%N) (chars content) = true →
  without_space content = b64encode raw → b64decode false content = Ok raw.
Proof.
  intros Ha Hw. unfold b64decode. rewrite Ha. cbn [negb andb]. rewrite <- base64_blanks.
  unfold without_space in Hw. apply (f_equal chars) in Hw. rewrite chars_str in Hw. rewrite Hw.
  unfold b64encode. rewrite chars_str, base64_decode_encode. cbn. by rewrite str_chars.
Qed.

(** The port reads a source exactly when GitHub answered with the base64
    of its bytes, broken into lines or not, with their number and with their
    Git blob SHA-1; then it returns these bytes with that name, and whatever it
    returns has the name it returns. *)
Theorem source_is_its_blob (result : json) (raw : string) (content : string)
    (Hsize : 0 < length_of raw ≤ MAX_SOURCE) (Hascii : forallb (fun c => (code c <? 128)%N) (chars content) = true)
    (Hcontent : without_space content = b64encode raw) :
  source_of (contents_json PATH content (blob_sha1 raw) (length_of raw)) = Ok (raw, JStr (blob_sha1 raw)) ∧
  ∀ bytes sha, source_of result = Ok (bytes, sha) →
    sha = JStr (blob_sha1 bytes) ∧ 0 < length_of bytes ≤ MAX_SOURCE ∧ member "size" result = JInt (length_of bytes) ∧
    str_that (fun c => String.eqb (without_space c) (b64encode bytes)) (member "content" result) = true.
Proof.
  split.
  - unfold source_of, contents_json. 
    assert (source_shape (contents_json PATH content (blob_sha1 raw) (length_of raw)) = true) as Hs.
    { unfold source_shape, file_shape, sha_member, contents_json. cbn -[blob_sha1 fullmatch MAX_SOURCE length_of].
      rewrite blob_digest. by rewrite (proj2 (Z.ltb_lt _ _)), (proj2 (Z.leb_le _ _)) by lia. }
    unfold contents_json in Hs. rewrite Hs. cbn [require mbind res_bind].
    change (str_value (member "content" _)) with content. change (int_value (member "size" _)) with (length_of raw).
    rewrite (spaced_decode content raw Hascii Hcontent), Hcontent, String.eqb_refl. cbn [require mbind res_bind].
    rewrite Z.eqb_refl, (proj2 (Z.leb_le _ _)) by lia. unfold text_is.
    change (member "sha" _) with (JStr (blob_sha1 raw)). unfold is_text. cbn [py_eqb]. by rewrite String.eqb_refl.
  - intros bytes sha H. unfold source_of in H. apply res_bind_ok in H as ([] & Hs%require_ok & H).
    apply res_bind_ok in H as (b & Hb & H). apply res_bind_ok in H as ([] & Hc%require_ok & H). injection H as -> <-.
    apply andb_prop in Hc as [[Hn%Z.eqb_eq Hmax%Z.leb_le]%andb_prop Ht]. apply is_text_true in Ht.
    unfold source_shape, file_shape in Hs. apply andb_prop in Hs as [Hs _]. apply andb_prop in Hs as [Hs Hz].
    apply andb_prop in Hs as [Hs _]. apply andb_prop in Hs as [_ Hstr].
    destruct (member "size" result) as [| |n| | |]; try done. cbn [int_that int_value] in Hz, Hn. apply andb_prop in Hz as [Hz%Z.ltb_lt _].
    split; [done|]. split; [lia|]. split; [by rewrite Hn|].
    destruct (member "content" result) as [| | |c| |]; try done.
    change (str_value (JStr c)) with c in Hb. cbn [str_that].
    destruct (b64decode false c) as [b'|e]; [|discriminate]. apply res_bind_ok in Hb as ([] & He%require_ok & Hb).
    injection Hb as <-. rewrite String.eqb_sym. exact He.
Qed.
Lemma source_is_its_blob_witness :
  (0 < length_of (p_source 1) ≤ MAX_SOURCE) ∧
  source_of (contents_json PATH (b64encode (p_source 1) ++ newline)%string (blob_sha1 (p_source 1)) (length_of (p_source 1)))
  = Ok (p_source 1, JStr (blob_sha1 (p_source 1))) ∧
  ∀ bytes sha, source_of (contents_json PATH "aGVsbG8=" "b6fc4c620b67d95f953a5c1c1230aaab5db5a1b0" 5) = Ok (bytes, sha) →
    sha = JStr (blob_sha1 bytes) ∧ 0 < length_of bytes ≤ MAX_SOURCE ∧
    member "size" (contents_json PATH "aGVsbG8=" "b6fc4c620b67d95f953a5c1c1230aaab5db5a1b0" 5) = JInt (length_of bytes) ∧
    str_that (fun c => String.eqb (without_space c) (b64encode bytes))
      (member "content" (contents_json PATH "aGVsbG8=" "b6fc4c620b67d95f953a5c1c1230aaab5db5a1b0" 5)) = true.
Proof.
  split; [vm_compute; split; [reflexivity|discriminate]|].
  apply (source_is_its_blob (contents_json PATH "aGVsbG8=" "b6fc4c620b67d95f953a5c1c1230aaab5db5a1b0" 5) (p_source 1)
    (b64encode (p_source 1) ++ newline)%string).
  - vm_compute. split; [reflexivity|discriminate].
  - vm_compute. reflexivity.
  - vm_compute. reflexivity.
Defined.

(** ** A publication over the port *)

Definition writes (q : Request) : bool := negb (String.eqb (method q) "GET").
Definition write_of (o : IssueDraft.op) : option Request :=
  match o with create_branch _ _ | replace_source _ _ _ | create_pr _ _ _ => request_of o | _ => None end.
(** The three writes that a publication can make. *)
Definition branch_write (binding : IssueBinding.t) : Request :=
  mkRequest "POST" (url_of "/git/refs") None
    (Some (ref_payload (IssueBinding.branch binding) (IssueBinding.base_sha binding))) "".
Definition source_write (binding : IssueBinding.t) (content blob_sha : string) : Request :=
  mkRequest "PUT" (url_of (contents_tail PATH)) None (Some (source_payload (IssueBinding.branch binding) content blob_sha)) "".
Definition pr_write (binding : IssueBinding.t) (audit : json) : Request :=
  mkRequest "POST" (url_of "/pulls") None
    (Some (pr_payload (IssueBinding.branch binding) (title_of binding) (body_of binding audit))) "".

Section Writes.
Context {py : Language} (binding : IssueBinding.t) (audit : json) (now : datetime) (observed_at task_id : string) (fenced : bool).
Let allowed := allowed binding audit now observed_at fenced.
Let next := next binding task_id.
Let made (g : Pub) (c b : string) : list Request :=
  (if made_branch g then [branch_write binding] else []) ++ (if made_source g then [source_write binding c b] else []) ++
  (if made_pr g then [pr_write binding audit] else []).

Lemma read_keeps_writes g o r c b : write_of o = None → made (next g o r) c b = made g c b.
Proof.
  intros H. assert (made_branch (next g o r) = made_branch g ∧ made_source (next g o r) = made_source g ∧
    made_pr (next g o r) = made_pr g) as (E1 & E2 & E3).
  { unfold next. destruct o as [n|ref| | | | | | | | |w| | | | | |]; try discriminate; try done; cbn [IssueSpec.next].
    - by destruct (String.eqb n "main"); [|destruct (String.eqb n _)].
    - by destruct (String.eqb ref _); [|destruct (String.eqb ref _)].
    - destruct w; try done. by destruct (mbind _ _). }
  unfold made. by rewrite E1, E2, E3.
Qed.
Lemma accepted_writes t g : accepts allowed next (start_with g) t = true →
  ∃ c b, omap (fun e => write_of (projT1 e)) t ⊆+ [branch_write binding; source_write binding c b; pr_write binding audit].
Proof.
  intros Ha. assert (∃ c b, omap (fun e => write_of (projT1 e)) t ⊆+ made (reached next (start_with g) t) c b) as (c & b & H).
  { apply (accepts_ind allowed next (fun t g => ∃ c b, omap (fun e => write_of (projT1 e)) t ⊆+ made g c b)); [|clear t Ha|exact Ha].
    { by exists "", "". }
    intros t o r (c & b & IH) Ho. set (g' := reached next (start_with g) t) in *. rewrite omap_app. cbn [omap list_omap projT1 ev].
    destruct (write_of o) as [q|] eqn:Eq; last first.
    { exists c, b. by rewrite app_nil_r, read_keeps_writes. }
    destruct o; try discriminate; cbn in Eq; injection Eq as <-; unfold allowed in Ho; cbn [IssueSpec.allowed] in Ho;
      rewrite !andb_true_iff in Ho; destruct_and! Ho; repeat match goal with
      | H : String.eqb _ _ = true |- _ => apply String.eqb_eq in H; subst
      | H : negb _ = true |- _ => apply negb_true_iff in H
      end.
    - exists c, b. etrans; [apply submseteq_app; [exact IH|reflexivity]|].
      unfold made. cbn. destruct (made_branch g'); [done|]. destruct (made_source g'), (made_pr g'); cbn; solve_submseteq.
    - exists content, blob_sha. etrans; [apply submseteq_app; [exact IH|reflexivity]|].
      unfold made. cbn. destruct (made_source g'); [done|]. destruct (made_branch g'), (made_pr g'); cbn; solve_submseteq.
    - exists c, b. etrans; [apply submseteq_app; [exact IH|reflexivity]|].
      unfold made. cbn. destruct (made_pr g'); [done|]. destruct (made_branch g'), (made_source g'); cbn; solve_submseteq. }
  exists c, b. etrans; [exact H|]. unfold made. destruct (made_branch _), (made_source _), (made_pr _); cbn; solve_submseteq.
Qed.
End Writes.

(** A sublist keeps what a test keeps. *)
Lemma sublist_filter {A} (p : A → bool) (l k : list A) : l `sublist_of` k → List.filter p l `sublist_of` List.filter p k.
Proof. induction 1 as [|x l k H IH|x l k H IH]; cbn; [done|destruct (p x); [by apply sublist_skip|done]|destruct (p x); [by apply sublist_cons|done]]. Qed.
Lemma filter_requests (t : list (event (answer:=IssueDraft.answer))) :
  List.filter writes (omap (fun e => request_of (projT1 e)) t) = omap (fun e => write_of (projT1 e)) t.
Proof. induction t as [|[o r] t IH]; [done|]. destruct o; cbn; rewrite ?IH; done. Qed.

(** *** GitHub over HTTP *)

Definition issue_name : string := IssueBinding.branch issue_binding.
Definition http_reply (tail : string) (code : Z) (v : json) : Reply :=
  mkReply "https" "api.github.com" (String.append PREFIX tail) false code 1000 "application/json; charset=utf-8" (Some v).
Definition ask_hub (o : IssueDraft.op) (tail : string) (code : Z) (view : IssueDraft.answer o → json) (h : Hub) : res Reply * Hub :=
  let '(r, h') := hub_world o h in
  (match r with Ok v => Ok (http_reply tail code (view v)) | Raise e => Raise e end, h').
Definition branch_view (v : json) : json := v.
Definition source_view (s : string * json) : json :=
  contents_json PATH (b64encode s.1 ++ newline)%string (blob_sha1 s.1) (length_of s.1).
Definition compare_view (l : list string) : json :=
  JObj [("status", JStr "ahead"); ("ahead_by", JInt 1); ("behind_by", JInt 0); ("total_commits", JInt 1);
        ("files", JList (map (fun p => JObj [("status", JStr "modified"); ("filename", JStr p)]) l))].
Definition side (ref sha : json) : json := JObj [("ref", ref); ("sha", sha); ("repo", JObj [("full_name", JStr REPO)])].
Definition pulls_view (v : json) : json :=
  if is_none v then JList [] else
  JList [JObj [("number", member "number" v); ("state", member "state" v); ("draft", member "draft" v);
               ("head", side (JStr issue_name) (member "head_sha" v)); ("base", side (member "base_ref" v) JNull);
               ("body", member "body" v)]].
Definition payload_member (k : string) (q : Request) : string := str_value (member k (default JNull (payload q))).
Definition serve (q : Request) (h : Hub) : res Reply * Hub :=
  let at_tail tail := String.eqb (url q) (url_of tail) in
  let sha := payload_member "sha" q in
  if String.eqb (method q) "GET" then
    if at_tail (branch_tail "main") then ask_hub (get_branch "main") (branch_tail "main") 200 branch_view h
    else if at_tail (branch_tail issue_name) then
      let code := match hub_branch h with Some _ => 200 | None => 404 end in
      ask_hub (get_branch issue_name) (branch_tail issue_name) code branch_view h
    else if at_tail (issue_tail 7) then ask_hub (get_issue 7) (issue_tail 7) 200 (fun v => v) h
    else if at_tail (comment_tail 99) then ask_hub (get_comment 99) (comment_tail 99) 200 (fun v => v) h
    else if at_tail (contents_tail PATH) then
      ask_hub (get_source (match query q with Some [(_, ref)] => ref | _ => "" end)) (contents_tail PATH) 200 source_view h
    else if at_tail (compare_tail issue_base issue_head) then
      ask_hub (changed_paths issue_base issue_head) (compare_tail issue_base issue_head) 200 compare_view h
    else if at_tail "/pulls" then ask_hub (find_pr issue_name) "/pulls" 200 pulls_view h
    else (Raise (Error "HTTPError" ""), h)
  else if at_tail "/git/refs" then
    ask_hub (create_branch issue_name sha) "/git/refs" 201
      (fun _ => JObj [("ref", JStr (full_ref issue_name)); ("object", JObj [("sha", JStr sha)])]) h
  else if at_tail (contents_tail PATH) then
    let raw := match b64decode true (payload_member "content" q) with Ok s => s | Raise _ => "" end in
    ask_hub (replace_source issue_name raw sha) (contents_tail PATH) 200
      (fun _ => JObj [("content", JObj [("path", JStr PATH); ("sha", JStr (blob_sha1 raw))]); ("commit", JObj [("sha", JStr issue_head)])]) h
  else if at_tail "/pulls" then
    ask_hub (create_pr issue_name (payload_member "title" q) (payload_member "body" q)) "/pulls" 201
      (fun _ => JObj [("state", JStr "open"); ("draft", JBool true)]) h
  else (Raise (Error "HTTPError" ""), h).
Definition http_world (o : hub_op) (h : Hub) : res (hub_answer o) * Hub :=
  match o return res (hub_answer o) * Hub with
  | http read_token => (Ok (String.append "ghp_0123456789abcdef" newline), h)
  | http (send q) => serve q h
  | beside o => hub_world o h
  end.
Definition http_run := Prog.execute http_world
  (interpret by_port (publish_completed_fenced_issue issue_binding issue_task issue_audit issue_now)) (mkHub None None).
Example http_run_publishes :
  map (outcome http_run.2.1) ["result"; "pr_number"; "replayed"] = [JStr "DRAFT_PR_VERIFIED"; JInt 12; JBool false].
Proof. vm_compute. reflexivity. Qed.

(** C30: whatever GitHub's API, the pool, the callbacks and the artifact store
    answer, the publication of a completed issue over the port sends every
    request to the one repository at api.github.com, with the token of the
    file as it was read for that request; its requests other than reads are at
    most one each of the creation of the binding's branch at the authorised
    base, the replacement of the one source on that branch, and a draft pull
    request from it to main that maintainers cannot modify; and they are, in
    order, among those of a run of the abstract publication that its protocol
    accepts, with the same outcome. *)
Theorem publication_over_http {py : Language} (binding : IssueBinding.t) (task_id : string) (audit : json) (now : datetime)
    (t : list (event (answer:=hub_answer))) (x : res json)
    (Hruns : runs (interpret by_port (publish_completed_fenced_issue binding task_id audit now)) t x) :
  accepts port_allowed port_next None t = true ∧
  (∃ content blob_sha, List.filter writes (requests t) ⊆+ [branch_write binding; source_write binding content blob_sha; pr_write binding audit]) ∧
  ∃ t1, runs (publish_completed_fenced_issue binding task_id audit now) t1 x ∧
    accepts (allowed binding audit now (isoformat_utc now) true) (next binding task_id) (start_with None) t1 = true ∧
    requests t `sublist_of` omap (fun e => request_of (projT1 e)) t1.
Proof.
  destruct (safe_runs _ _ _ _ _ _ _ (port_governed _ None) Hruns) as [Hp _]. split; [exact Hp|].
  destruct (run_requests _ t x Hruns) as (t1 & H1 & Hsub).
  assert (accepts (allowed binding audit now (isoformat_utc now) true) (next binding task_id) (start_with None) t1 = true) as Ha.
  { assert (Prog.safe (allowed binding audit now (isoformat_utc now) true) (next binding task_id)
      (publish_completed_fenced_issue binding task_id audit now) (start_with None) (fun _ _ => True)) as Hs.
    { apply (safe_publish_completed (py:=py)); done. }
    apply (safe_runs _ _ _ _ _ _ _ Hs H1). }
  split; [|by exists t1].
  destruct (accepted_writes binding audit now (isoformat_utc now) task_id true t1 None Ha) as (c & b & Hw).
  exists c, b. etrans; [|exact Hw]. rewrite <- filter_requests. by apply sublist_submseteq, sublist_filter.
Qed.
Lemma publication_over_http_witness :
  map method (List.filter writes (requests http_run.1)) = ["POST"; "PUT"; "POST"] ∧
  accepts port_allowed port_next None http_run.1 = true ∧
  (∃ content blob_sha, List.filter writes (requests http_run.1) ⊆+
     [branch_write issue_binding; source_write issue_binding content blob_sha; pr_write issue_binding issue_audit]) ∧
  ∃ t1, runs (publish_completed_fenced_issue issue_binding issue_task issue_audit issue_now) t1 http_run.2.1 ∧
    accepts (allowed issue_binding issue_audit issue_now (isoformat_utc issue_now) true) (next issue_binding issue_task)
      (start_with None) t1 = true ∧
    requests http_run.1 `sublist_of` omap (fun e => request_of (projT1 e)) t1.
Proof.
  split; [vm_compute; reflexivity|].
  apply (publication_over_http issue_binding issue_task issue_audit issue_now http_run.1 http_run.2.1).
  exact (execute_runs http_world _ (mkHub None None)).
Defined.

(** A pull request whose head repository is gone has a null [repo], which the
    identity check does not expect: it escapes the port's own error. *)
Lemma deleted_fork_escapes head pr :
  is_dict pr = true → is_int (member "number" pr) = true → text_is "ref" head (member "head" pr) = true →
  member "head" pr = JObj [("ref", JStr head); ("repo", JNull)] →
  pr_identity head pr = Raise (Error "AttributeError" "get").
Proof. intros Hd Hn Hr Hh. unfold pr_identity. rewrite Hd, Hn, Hr, Hh. reflexivity. Qed.
