(* ===== verification/GitHubCas.v ===== *)
(** The content-addressed store on an issue's public branch,
    [app/github_cas_transport.py]: the class [GitHubObjectCAS] as programs over
    the GitHub port, the transport of artifacts bound to one issue, and the
    store as the surroundings of [Artifact].

    A [BytesIO] of at most 96 KiB is returned whole by the one read of a
    megabyte or less that the transport makes first. *)
From Stdlib Require Import Ascii String.
From stdpp Require Import strings list.
From S2P Require Import Prelude Prog PyStr Sha256 Clock Json PyVal PyText PyAst PyBytes PyUrl IsoDate Names Structured Repair IssueDraft.
From S2P Require Import Manifest Bundle Artifact.
From S2P Require Import GitHub.
From S2P Require OneShot.

Local Open Scope string_scope.
Local Open Scope Z_scope.
Local Open Scope list_scope.

Definition CAS_BUCKET : string := "github-public-cas".
Definition CAS_PREFIX : string := "qwen7b-cas-v1".
Definition CAS_MAX_BYTES : Z := 96 * 1024.
Definition either_of (l : list string) : re := foldr (fun s r => Alt (lit s) r) Emp l.
Definition KEY : re :=
  Cat (lit "qwen7b-cas-v1/") (Cat (either_of ["preflight-v1"; "git-bundle-v1"; "issue-rag-v1"])
    (Cat (lit "/sha256/") (Cat (times 2 hex_lower) (Cat (lit "/") (Cat (times 64 hex_lower)
      (Cat (lit ".") (either_of ["probe"; "artifact"; "context"]))))))).
(** [AlreadyExists()] and its attribute [response]. *)
Definition already_exists : exn := Error "AlreadyExists" "cas_key_exists".
Definition cas_response (e : exn) : json :=
  if is_a "AlreadyExists" e then
    JObj [("Error", JObj [("Code", JStr "PreconditionFailed")]); ("ResponseMetadata", JObj [("HTTPStatusCode", JInt 412)])]
  else JNull.

(** ** Calls *)

Inductive op : Type :=
  | hub (o : GitHub.op)
  | utc_now.
Definition answer (o : op) : Type := match o with hub o => GitHub.answer o | utc_now => Z end.
Abbreviation P := (prog answer).
Definition demand (c : bool) (reason : string) : P unit := of_res (require c reason).
Fixpoint on_hub {A} (m : prog GitHub.answer A) : P A :=
  match m with
  | Ret a => Ret a
  | Throw e => Throw e
  | Do o k => Do (hub o) (fun r : res (GitHub.answer o) => on_hub (k r))
  end.

(** ** Keys *)

(** The two groups of a match. *)
Definition key_groups (key : string) : string * string :=
  let parts := map str (split_on "/" (chars key)) in (nth 3 parts "", take_str 64 (nth 4 parts "")).
Definition key_kind_ok (key : string) : bool :=
  (contains "/preflight-v1/" key && ends_with ".probe" key) || (contains "/git-bundle-v1/" key && ends_with ".artifact" key) ||
  (contains "/issue-rag-v1/" key && ends_with ".context" key).
(** [_checked_key] *)
Definition checked_key (bucket key : string) : res (string * string) :=
  require (String.eqb bucket CAS_BUCKET) "cas_destination_invalid" ;;
  let '(g1, g2) := key_groups key in
  require (fullmatch KEY key && String.eqb g1 (take_str 2 g2) && key_kind_ok key) "cas_key_invalid" ;;
  Ok (String.append "evidence/cas/" key, g2).
(** [_valid_branch_object] *)
Definition valid_branch_object (file : json) : bool :=
  is_dict file && text_is "status" "added" file &&
  str_that (fun name => starts_with "evidence/cas/" name &&
    match checked_key CAS_BUCKET (remove_prefix "evidence/cas/" name) with Ok _ => true | Raise _ => false end)
    (member "filename" file).

(** ** The store of one binding *)

Definition cas_branch_of (b : IssueBinding.t) : string :=
  concat_text ["agent/cas-qwen7b-issue-"; int_text (IssueBinding.number b); "-"; take_str 12 (IssueBinding.base_sha b)].
(** [__init__] *)
Definition valid_binding (b : IssueBinding.t) : res unit :=
  require ((0 <? IssueBinding.number b) && fullmatch SHA40 (IssueBinding.base_sha b) &&
           String.eqb (IssueBinding.branch b)
             (concat_text ["agent/qwen7b-issue-"; int_text (IssueBinding.number b); "-"; take_str 12 (IssueBinding.base_sha b)]))
    "cas_binding_invalid".

Section Store.
Context (binding : IssueBinding.t).
Let branch := cas_branch_of binding.
Let base := IssueBinding.base_sha binding.

(** [_authorized] *)
Definition authorized : P unit :=
  now ← call utc_now;
  main ← on_hub (port_branch "main");
  demand (negb (is_none main)) "cas_main_unavailable" ;;
  issue ← on_hub (port_issue (IssueBinding.number binding));
  comment ← on_hub (port_comment (IssueBinding.comment_id binding));
  current ← of_res (admit_issue issue comment main base (isoformat_utc now) now);
  demand (bool_decide (current = binding)) "cas_issue_binding_changed".
(** [_branch] *)
Definition cas_branch : P json :=
  result ← on_hub (request "GET" (branch_tail branch) None None [200] true);
  if is_none result then mret JNull else demand (branch_shape branch result) "cas_branch_unverified" ;; mret result.
Definition head_sha (b : json) : string := str_value (member "sha" (member "commit" b)).

(** [len({f.get("filename") for f in files if type(f) is dict})] *)
Definition distinct (l : list json) : nat :=
  length (foldr (fun v acc => if existsb (py_eqb v) acc then acc else v :: acc) [] l).
Definition file_names (files : list json) : res (list json) :=
  let names := map (member "filename") (List.filter is_dict files) in
  if forallb hashable names then Ok names else unhashable.
Definition scope_ok (compare : json) : res bool :=
  let ahead := int_value (member "ahead_by" compare) in
  let files := match member "files" compare with JList l => l | _ => [] end in
  (Ok (is_dict compare && text_is "status" "ahead" compare && py_eqb (member "behind_by" compare) (JInt 0) &&
       int_that (fun n => (1 <=? n) && (n <=? 3)) (member "ahead_by" compare) &&
       int_that (Z.eqb ahead) (member "total_commits" compare) &&
       match member "files" compare with JList l => Z.of_nat (length l) =? ahead | _ => false end) &&&
   (names ← file_names files; Ok (Z.of_nat (distinct names) =? ahead)) &&& Ok (forallb valid_branch_object files))%py.
(** [_ensure_branch] *)
Definition ensure_cas_branch : P Z :=
  found ← cas_branch;
  b ← (if is_none found then
         result ← on_hub (request "POST" "/git/refs" None (Some (ref_payload branch base)) [201] false);
         demand (ref_created branch base result) "cas_branch_create_unverified" ;; cas_branch
       else mret found);
  demand (negb (is_none b)) "cas_branch_unavailable" ;;
  let sha := head_sha b in
  if String.eqb sha base then mret 0
  else
    compare ← on_hub (request "GET" (compare_tail base sha) None None [200] false);
    ok ← of_res (scope_ok compare);
    demand ok "cas_branch_scope_invalid" ;;
    mret (int_value (member "ahead_by" compare)).

(** The bytes of a stored object. *)
Definition object_of (path : string) (result : json) : res string :=
  require (file_shape path CAS_MAX_BYTES result) "cas_object_invalid" ;;
  raw ← match b64decode true (without_space (str_value (member "content" result))) with
        | Raise e => Raise (if value_failure e then handoff "cas_object_encoding_invalid" else e)
        | r => r
        end;
  require ((length_of raw =? int_value (member "size" result)) && text_is "sha" (blob_sha1 raw) result) "cas_blob_mismatch" ;;
  Ok raw.
(** [_get] *)
Definition cas_get (path : string) : P (option string) :=
  result ← on_hub (request "GET" (contents_tail path) (Some [("ref", branch)]) None [200] true);
  if is_none result then mret None else raw ← of_res (object_of path result); mret (Some raw).

Definition write_ok (digest : string) (p : Put.t) : bool :=
  (0 <? length_of (Put.body p)) && (length_of (Put.body p) <=? CAS_MAX_BYTES) &&
  (Put.content_length p =? length_of (Put.body p)) && String.eqb (Put.if_none_match p) "*" &&
  String.eqb (sha256_hex (Put.body p)) digest && bool_decide (lookup_key "sha256" (Put.metadata p) = Some digest).
Definition object_payload (body : string) : json :=
  JObj [("message", JStr "evidence: append immutable Qwen7B Git CAS object"); ("branch", JStr branch);
        ("content", JStr (b64encode body))].
(** [put_object], whose entity tag the callers do not use. *)
Definition cas_put_object (p : Put.t) : P unit :=
  k ← of_res (checked_key (Put.bucket p) (Put.key p));
  let '(path, digest) := k in
  demand (write_ok digest p) "cas_write_invalid" ;;
  authorized ;;
  existing_count ← ensure_cas_branch;
  present ← cas_get path;
  match present with
  | Some _ => throw already_exists
  | None =>
      demand (existing_count <? 3) "cas_branch_scope_invalid" ;;
      result ← on_hub (request "PUT" (contents_tail path) None (Some (object_payload (Put.body p))) [201] false);
      demand (file_written path (blob_sha1 (Put.body p)) result) "cas_write_readback_required" ;;
      observed ← cas_branch;
      demand (negb (is_none observed) && String.eqb (head_sha observed) (str_value (member "sha" (member "commit" result))))
        "cas_branch_changed_after_write" ;;
      ensure_cas_branch ;;
      mret tt
  end.
(** [get_object] *)
Definition stored_bytes (body : string) : Stored := mkStored (JInt (length_of body)) true [Ok (bytes_read body)] (Ok tt).
Definition cas_get_object (bucket key : string) : P Stored :=
  k ← of_res (checked_key bucket key);
  let '(path, digest) := k in
  b ← cas_branch;
  demand (negb (is_none b)) "cas_branch_unavailable" ;;
  body ← cas_get path;
  match body with
  | Some raw => demand (String.eqb (sha256_hex raw) digest) "cas_object_missing_or_modified" ;; mret (stored_bytes raw)
  | None => throw (handoff "cas_object_missing_or_modified")
  end.

(** ** The store as the surroundings of the transport *)

Inductive site_op : Type :=
  | store (o : op)
  | site (o : Artifact.op).
Definition site_answer (o : site_op) : Type := match o with store o => answer o | site o => Artifact.answer o end.
Fixpoint on_store {A} (m : P A) : prog site_answer A :=
  match m with
  | Ret a => Ret a
  | Throw e => Throw e
  | Do o k => Do (store o) (fun r : res (answer o) => on_store (k r))
  end.
Definition by_cas (o : Artifact.op) : prog site_answer (Artifact.answer o) :=
  match o return prog site_answer (Artifact.answer o) with
  | put_object p => on_store (cas_put_object p)
  | get_object bucket key => on_store (cas_get_object bucket key)
  | o => Do (site o) (fun r : res (Artifact.answer o) => of_res r)
  end.

(** ** The transport bound to the issue *)

(** [governed_bundle_transport] *)
Definition cas_config : S3ArtifactConfig.t := S3ArtifactConfig.mk CAS_BUCKET "github" CAS_PREFIX None CAS_MAX_BYTES.
(** [_bound] *)
Definition bound (m : TaskManifest.t) (validator : bool) : res unit :=
  require (String.eqb (TaskManifest.repository m) REPO && String.eqb (TaskManifest.base_sha m) base &&
           (validator || String.eqb (TaskManifest.workspace_sha m) base) &&
           same_set (keys (TaskManifest.before_sha256 m)) [PATH] &&
           match lookup_key PATH (TaskManifest.before_sha256 m) with Some d => (len d =? 64)%nat | None => false end)
    "cas_manifest_binding_invalid".
Definition bound_publish (task_id : string) (g : Z) (attempt_id effect_id : string) (m : TaskManifest.t) (r : AdapterResult.t)
    : prog Artifact.answer DurableArtifact.t :=
  of_res (bound m false) ;;
  of_res (require (negb (String.eqb (AdapterResult.produced_sha r) base) && bool_decide (AdapterResult.changed_paths r = [PATH]))
            "cas_patch_scope_invalid") ;;
  publish_artifact cas_config task_id g attempt_id effect_id m r.
Definition bound_verify (task_id : string) (m : TaskManifest.t) (produced_sha : string) (a : DurableArtifact.t)
    : prog Artifact.answer unit :=
  of_res (bound m true) ;;
  of_res (require (negb (String.eqb produced_sha base)) "cas_patch_scope_invalid") ;;
  verify_artifact cas_config task_id m produced_sha a.
Definition bound_materialize (task_id : string) (m : TaskManifest.t) (a : DurableArtifact.t)
    : prog Artifact.answer AdapterResult.t :=
  of_res (bound m false) ;;
  result ← materialize_artifact cas_config task_id m a;
  of_res (require (negb (String.eqb (AdapterResult.produced_sha result) base) && bool_decide (AdapterResult.changed_paths result = [PATH]))
            "cas_materialized_scope_invalid") ;;
  h ← on_workspace OneShot.head;
  of_res (require (String.eqb h (AdapterResult.produced_sha result)) "cas_materialized_scope_invalid") ;;
  mret result.
End Store.

Example cas_key_examples :
  map (checked_key CAS_BUCKET)
    [cas_key CAS_PREFIX "git-bundle-v1" (sha256_hex "x") ".artifact"; cas_key CAS_PREFIX "git-bundle-v1" (sha256_hex "x") ".probe"]
  = [Ok (String.append "evidence/cas/" (cas_key CAS_PREFIX "git-bundle-v1" (sha256_hex "x") ".artifact"), sha256_hex "x");
     Raise (handoff "cas_key_invalid")].
Proof. vm_compute. reflexivity. Qed.
