(* ===== verification/GitHubCasProps.v ===== *)
(** Properties of the store on an issue's branch.  A monitor of its requests
    with what GitHub answered and the lemmas that follow [cas_put_object] and
    [cas_get_object]; then what a write sends and what a read returns, with a
    model of GitHub that keeps such a branch. *)
From Stdlib Require Import Ascii String.
From S2P Require Import Prelude Prog PyStr Sha256 Clock Json PyVal PyText PyAst PyBytes PyUrl IsoDate Names Structured Repair IssueDraft.
From S2P Require Import Manifest Bundle Artifact.
From S2P Require Import IssueScenario GitHub GitHubCas.
From S2P Require PoolClient IssueSpec PyJson GitHubProps.
From stdpp Require Import strings list.

Local Open Scope string_scope.
Local Open Scope Z_scope.
Local Open Scope list_scope.

(** What a request asks for, by its path. *)
Inductive Kind : Type := k_main | k_branch | k_comment | k_issue | k_compare | k_contents | k_refs | k_other.
Definition kind_of (url : string) : Kind :=
  let at_path p := starts_with (url_of p) url in
  if String.eqb url (url_of (branch_tail "main")) then k_main
  else if at_path "/branches/" then k_branch else if at_path "/issues/comments/" then k_comment
  else if at_path "/issues/" then k_issue else if at_path "/compare/" then k_compare
  else if at_path "/contents/" then k_contents else if at_path "/git/refs" then k_refs else k_other.

Lemma kind_main : kind_of (url_of (branch_tail "main")) = k_main.
Proof. reflexivity. Qed.
Lemma kind_branch b : kind_of (url_of (branch_tail (cas_branch_of b))) = k_branch.
Proof. reflexivity. Qed.
Lemma kind_issue n : kind_of (url_of (issue_tail n)) = k_issue.
Proof.
  assert (starts_with (url_of "/issues/comments/") (url_of (issue_tail n)) = false) as Hc.
  { assert (∃ c s, int_text n = String c s ∧ (c = "-"%char ∨ is_digit c = true)) as (c & s & E & Hc).
    { destruct (PyJson.int_text_shape n) as (c & l & E & H). exists c, (str l). split.
      - by rewrite <- (str_chars (int_text n)), E.
      - destruct (n <? 0); [by left; destruct H|by right; destruct H]. }
    unfold issue_tail. rewrite E. destruct Hc as [->|Hc]; [reflexivity|]. by destruct c as [[] [] [] [] [] [] [] []]. }
  unfold kind_of. rewrite Hc. reflexivity.
Qed.
Lemma kind_comment n : kind_of (url_of (comment_tail n)) = k_comment.
Proof. reflexivity. Qed.
Lemma kind_compare b h : kind_of (url_of (compare_tail b h)) = k_compare.
Proof. reflexivity. Qed.
Lemma kind_contents path : kind_of (url_of (contents_tail path)) = k_contents.
Proof. reflexivity. Qed.

(** The last answers, as the port accepts them. *)
Record Watch := mkWatch {
  clock : option Z; main : option json; issue : option json; comment : option json;
  branch : option json; compare : option (string * json); present : option json;
  made_branch : nat; made_object : bool; written : option json }.
#[export] Instance Watch_eta : Eta Watch := fun g =>
  mkWatch (clock g) (main g) (issue g) (comment g) (branch g) (compare g) (present g) (made_branch g) (made_object g) (written g).
Definition nothing_known : Watch := mkWatch None None None None None None None 0 false None.

Section Protocol.
Context (binding : IssueBinding.t) (path digest : string) (p : Put.t).
Let name := cas_branch_of binding.
Let base := IssueBinding.base_sha binding.
Let body := Put.body p.

(** The owner's authorisation of this binding, read with the clock. *)
Definition is_authorized (g : Watch) : bool :=
  match clock g, main g, issue g, comment g with
  | Some now, Some m, Some i, Some c =>
      match admit_issue i c m base (isoformat_utc now) now with Ok b => bool_decide (b = binding) | Raise _ => false end
  | _, _, _, _ => false
  end.
(** The objects on the branch as it was read: none at the base, or those of a
    comparison in scope. *)
Definition objects (g : Watch) : option Z :=
  match branch g with
  | Some b =>
      if is_none b then None
      else if String.eqb (head_sha b) base then Some 0
      else match compare g with
           | Some (url, v) =>
               if String.eqb url (url_of (compare_tail base (head_sha b))) && match scope_ok v with Ok b => b | Raise _ => false end
               then Some (int_value (member "ahead_by" v)) else None
           | None => None
           end
  | None => None
  end.
Definition reads_of : list string :=
  map url_of [branch_tail "main"; branch_tail name; issue_tail (IssueBinding.number binding);
              comment_tail (IssueBinding.comment_id binding); contents_tail path].
Definition allowed (g : Watch) (o : op) : bool :=
  match o with
  | hub (send q) =>
      if String.eqb (method q) "GET" then
        bool_decide (payload q = None) &&
        (bool_decide (url q ∈ reads_of) || starts_with (url_of (String.append "/compare/" base)) (url q))
      else if String.eqb (method q) "POST" then
        String.eqb (url q) (url_of "/git/refs") && bool_decide (payload q = Some (ref_payload name base)) &&
        is_authorized g && bool_decide (branch g = Some JNull) &&
        (made_branch g <? if made_object g then 2 else 1)%nat
      else
        String.eqb (method q) "PUT" && String.eqb (url q) (url_of (contents_tail path)) &&
        bool_decide (payload q = Some (object_payload binding body)) && write_ok digest p && is_authorized g &&
        bool_decide (present g = Some JNull) && match objects g with Some n => n <? 3 | None => false end && negb (made_object g)
  | _ => true
  end.
(** The value of a reply to a request at a path. *)
Definition reply_value (url : string) (statuses : list Z) (missing_ok : bool) (r : res Reply) : option json :=
  reply ← ok_value r;
  ok_value (accept_reply (str (drop (len (url_of "")) (chars url))) statuses missing_ok reply).
Definition next (g : Watch) (o : op) : res (answer o) → Watch :=
  match o with
  | utc_now => fun r => g <| clock := ok_value r |>
  | hub read_token => fun _ => g
  | hub (send q) => fun r =>
      let v statuses missing_ok := reply_value (url q) statuses missing_ok r in
      if String.eqb (method q) "PUT" then g <| made_object := true |> <| written := v [201] false |>
      else if String.eqb (method q) "POST" then g <| made_branch := S (made_branch g) |>
      else match kind_of (url q) with
           | k_main => g <| main := v [200] true |>
           | k_branch => g <| branch := v [200] true |>
           | k_issue => g <| issue := v [200] false |>
           | k_comment => g <| comment := v [200] false |>
           | k_compare => g <| compare := (fun w => (url q, w)) <$> v [200] false |>
           | k_contents => g <| present := v [200] true |>
           | _ => g
           end
  end.
Abbreviation safe := (Prog.safe allowed next).

(** ** Following the programs *)

Lemma ok_demand c reason g (Φ : unit → Watch → Prop) : (c = true → Φ tt g) → safe (demand c reason) g (on_ok Φ).
Proof. intros H. apply ok_of_res. intros [] Hc. apply H. by destruct c. Qed.
Lemma ok_hub_demand c reason g (Φ : unit → Watch → Prop) :
  (c = true → Φ tt g) → safe (on_hub (GitHub.demand c reason)) g (on_ok Φ).
Proof. intros H. destruct c; [by apply H|done]. Qed.
Lemma ok_hub_res {A} (r : res A) g (Φ : A → Watch → Prop) : (∀ v, r = Ok v → Φ v g) → safe (on_hub (of_res r)) g (on_ok Φ).
Proof. intros H. destruct r; [by apply H|done]. Qed.
Lemma ok_hub_bind {A B} (m : prog GitHub.answer A) (f : A → prog GitHub.answer B) g (Φ : B → Watch → Prop) :
  safe (on_hub m) g (on_ok (fun a g' => safe (on_hub (f a)) g' (on_ok Φ))) → safe (on_hub (x ← m; f x)) g (on_ok Φ).
Proof.
  revert g. induction m as [a|e|o k IH]; intros g; cbn; [done..|]. intros [Ha Hk]. split; [done|]. intros r. apply IH, Hk.
Qed.
Lemma ok_hub_ret {A} (a : A) g (Φ : A → Watch → Prop) : Φ a g → safe (on_hub (mret a)) g (on_ok Φ).
Proof. done. Qed.

Lemma tail_of_url tail : str (drop (len (url_of "")) (chars (url_of tail))) = tail.
Proof.
  assert (chars (url_of tail) = chars (url_of "") ++ chars tail) as ->.
  { unfold url_of, concat_text. rewrite !chars_str. cbn [flat_map]. by rewrite !app_nil_r, <- app_assoc. }
  by rewrite len_chars, drop_app_length, str_chars.
Qed.
Lemma reply_value_ok tail statuses missing_ok reply v :
  accept_reply tail statuses missing_ok reply = Ok v → reply_value (url_of tail) statuses missing_ok (Ok reply) = Some v.
Proof. intros H. unfold reply_value. cbn [ok_value mbind option_bind]. by rewrite tail_of_url, H. Qed.

Lemma ok_request method tail query payload statuses missing_ok g (Φ : json → Watch → Prop) :
  (∀ token, allowed g (hub (send (mkRequest method (url_of tail) query payload token))) = true) →
  (∀ token reply v, accept_reply tail statuses missing_ok reply = Ok v →
     Φ v (next g (hub (send (mkRequest method (url_of tail) query payload token))) (Ok reply))) →
  safe (on_hub (request method tail query payload statuses missing_ok)) g (on_ok Φ).
Proof.
  intros Ha H. unfold request. apply ok_hub_bind, ok_hub_demand. intros _. apply ok_hub_bind.
  enough (Prog.safe (fun g o => allowed g (hub o)) (fun g o r => next g (hub o) r)
    (catch (token ← port_token; call (send (mkRequest method (url_of tail) query payload token)) : GitHub.P Reply)
       (fun e => throw (if PoolClient.transport_failure e then handoff "github_result_uncertain" else e))) g
    (on_ok (fun reply g' => ∀ v, accept_reply tail statuses missing_ok reply = Ok v → Φ v g'))) as Hs.
  { assert (∀ {A} (m : prog GitHub.answer A) g (Q : res A → Watch → Prop),
      Prog.safe (fun g o => allowed g (hub o)) (fun g o r => next g (hub o) r) m g Q → safe (on_hub m) g Q) as Hhub.
    { clear. intros A m. induction m as [a|e|o k IH]; intros g Q; cbn; [done..|]. intros [Ha Hk]. split; [done|]. intros r. apply IH, Hk. }
    eapply ok_mono; [apply Hhub, Hs|]. intros reply g' Hr. apply ok_hub_res. exact Hr. }
  apply ok_catch, ok_bind. unfold port_token. apply ok_bind, ok_catch.
  apply (Prog.ok_call (answer:=GitHub.answer)); [done|]. intros raw. apply ok_of_res. intros token _.
  apply (Prog.ok_call (answer:=GitHub.answer)); [apply Ha|]. intros reply v Hv. by apply H.
Qed.

(** One read at a path, with the state that it leads to. *)
Lemma ok_read tail query statuses missing_ok g (Φ : json → Watch → Prop) :
  bool_decide (url_of tail ∈ reads_of) || starts_with (url_of (String.append "/compare/" base)) (url_of tail) = true →
  (∀ v, (missing_ok = true ∧ v = JNull) ∨ is_none v = false → 
     ∀ q r, method q = "GET" → url q = url_of tail → reply_value (url_of tail) statuses missing_ok r = Some v →
     Φ v (next g (hub (send q)) r)) →
  safe (on_hub (request "GET" tail query None statuses missing_ok)) g (on_ok Φ).
Proof.
  intros Ha H. apply ok_request.
  - intros token. cbn -[reads_of url_of bool_decide starts_with]. by rewrite Ha.
  - intros token reply v Hv. eapply H; [|done|done|by apply reply_value_ok].
    unfold accept_reply in Hv. apply res_bind_ok in Hv as (? & _ & Hv). destruct missing_ok; cbn [andb] in Hv.
    + destruct (status reply =? 404); [injection Hv as <-; by left|]. right.
      do 2 (apply res_bind_ok in Hv as (? & _ & Hv)). destruct (content reply) as [d|]; [|discriminate].
      apply res_bind_ok in Hv as ([] & Hd & [= <-]). by destruct d.
    + right. do 2 (apply res_bind_ok in Hv as (? & _ & Hv)). destruct (content reply) as [d|]; [|discriminate].
      apply res_bind_ok in Hv as ([] & Hd & [= <-]). by destruct d.
Qed.
Lemma next_get g q r k : method q = "GET" → kind_of (url q) = k →
  next g (hub (send q)) r =
  let v statuses missing_ok := reply_value (url q) statuses missing_ok r in
  match k with
  | k_main => g <| main := v [200] true |> | k_branch => g <| branch := v [200] true |>
  | k_issue => g <| issue := v [200] false |> | k_comment => g <| comment := v [200] false |>
  | k_compare => g <| compare := (fun w => (url q, w)) <$> v [200] false |> | k_contents => g <| present := v [200] true |>
  | _ => g
  end.
Proof. intros E <-. cbn [next]. rewrite E. done. Qed.
Ltac listed := apply orb_true_iff; left; apply bool_decide_eq_true_2; unfold reads_of; cbn [map]; rewrite ?elem_of_cons; tauto.

Lemma ok_authorized g (Φ : unit → Watch → Prop) :
  (∀ now m i c, let g' := g <| clock := Some now |> <| main := Some m |> <| issue := Some i |> <| comment := Some c |> in
     is_authorized g' = true → Φ tt g') →
  safe (authorized binding) g (on_ok Φ).
Proof.
  intros H. unfold authorized. apply ok_bind, (Prog.ok_call (answer:=answer)); [done|]. intros now.
  apply ok_bind. unfold port_branch. apply ok_hub_bind, ok_hub_res. intros ref Href.
  assert (ref = "main") as -> by (unfold checked_ref in Href; cbn in Href; congruence).
  apply ok_hub_bind, ok_read; [listed|]. intros m Hm q r Eq Eu Er.
  rewrite (next_get _ _ _ k_main) by (rewrite ?Eu; done || apply kind_main). rewrite Eu. cbn beta zeta iota. rewrite Er.
  destruct Hm as [[_ ->]|Hm]; [cbn [is_none]; apply ok_hub_ret, ok_bind, ok_demand; discriminate|]. rewrite Hm.
  apply ok_hub_bind, ok_hub_demand. intros _. apply ok_hub_ret, ok_bind, ok_demand. intros _.
  apply ok_bind. unfold port_issue. apply ok_hub_bind, ok_hub_demand. intros _. apply ok_hub_bind, ok_read; [listed|].
  intros i _ q' r' Eq' Eu' Er'. rewrite (next_get _ _ _ k_issue) by (rewrite ?Eu'; done || apply kind_issue). rewrite Eu'. cbn beta zeta iota. rewrite Er'.
  apply ok_hub_bind, ok_hub_demand. intros _. apply ok_hub_ret.
  apply ok_bind. unfold port_comment. apply ok_hub_bind, ok_hub_demand. intros _. apply ok_hub_bind, ok_read; [listed|].
  intros c _ q'' r'' Eq'' Eu'' Er''. rewrite (next_get _ _ _ k_comment) by (rewrite ?Eu''; done || apply kind_comment). rewrite Eu''. cbn beta zeta iota. rewrite Er''.
  apply ok_hub_bind, ok_hub_demand. intros _. apply ok_hub_ret.
  apply ok_bind, ok_of_res. intros current Hc. apply ok_demand. intros Hb. apply H. unfold is_authorized. cbn. fold base in Hc. rewrite Hc. exact Hb.
Qed.
Lemma ok_cas_branch g (Φ : json → Watch → Prop) :
  (∀ b, Φ b (g <| branch := Some b |>)) → safe (cas_branch binding) g (on_ok Φ).
Proof.
  intros H. unfold cas_branch. apply ok_bind, ok_read; [listed|]. intros b Hb q r Eq Eu Er.
  rewrite (next_get _ _ _ k_branch) by (rewrite ?Eu; done || apply kind_branch). rewrite Eu. cbn beta zeta iota. rewrite Er.
  destruct Hb as [[_ ->]|Hb]; [by apply ok_ret|]. rewrite Hb. apply ok_bind, ok_demand. intros _. apply ok_ret, H.
Qed.

Lemma compare_listed h : starts_with (url_of (String.append "/compare/" base)) (url_of (compare_tail base h)) = true.
Proof.
  assert (url_of (compare_tail base h) = (url_of (String.append "/compare/" base) ++ String.append "..." h)%string) as ->.
  { apply chars_inj. unfold url_of, compare_tail, concat_text.
    rewrite !chars_app, !chars_str. cbn [flat_map]. rewrite !chars_app, !chars_str. cbn [flat_map]. rewrite !app_nil_r.
    by rewrite <- !app_assoc. }
  apply PyText.starts_with_app.
Qed.
Lemma ok_ensure_branch g (Φ : Z → Watch → Prop) :
  is_authorized g = true → (made_branch g < if made_object g then 2 else 1)%nat →
  (∀ n b c k, let g' := g <| branch := Some b |> <| compare := c |> <| made_branch := k |> in
     objects g' = Some n → (k ≤ S (made_branch g))%nat → Φ n g') →
  safe (ensure_cas_branch binding) g (on_ok Φ).
Proof.
  intros Hauth Hk H. unfold ensure_cas_branch. apply ok_bind, ok_cas_branch. intros found.
  assert (∀ b k, (k ≤ S (made_branch g))%nat → safe
    (demand (negb (is_none b)) "cas_branch_unavailable" ;;
     let sha := head_sha b in
     if String.eqb sha (IssueBinding.base_sha binding) then mret 0
     else compare ← on_hub (request "GET" (compare_tail (IssueBinding.base_sha binding) sha) None None [200] false);
          ok ← of_res (scope_ok compare); demand ok "cas_branch_scope_invalid" ;; mret (int_value (member "ahead_by" compare)))
    (g <| made_branch := k |> <| branch := Some b |>) (on_ok Φ)) as Hrest.
  { intros b k Hk'. apply ok_bind, ok_demand. intros Hb%negb_true_iff. cbn zeta. fold base.
    destruct (String.eqb (head_sha b) base) eqn:Eh.
    - apply ok_ret. apply (H 0 b (compare g) k); [|done]. unfold objects. cbn. by rewrite Hb, Eh.
    - apply ok_bind, ok_read; [by rewrite compare_listed, orb_true_r|]. intros v _ q r Eq Eu Er.
      rewrite (next_get _ _ _ k_compare) by (rewrite ?Eu; done || apply kind_compare). rewrite Eu. cbn beta zeta iota. rewrite Er.
      apply ok_bind, ok_of_res. intros ok Hok. apply ok_bind, ok_demand. intros ->. apply ok_ret.
      apply (H _ b (Some (url_of (compare_tail base (head_sha b)), v)) k); [|done].
      unfold objects. cbn. by rewrite Hb, Eh, String.eqb_refl, Hok. }
  destruct (is_none found) eqn:Ef.
  - destruct found; try discriminate. apply ok_bind, ok_bind, ok_request.
    { intros token. cbn -[url_of ref_payload bool_decide is_authorized Nat.ltb]. rewrite String.eqb_refl, !bool_decide_eq_true_2 by done.
      assert (is_authorized (g <| branch := Some JNull |>) = true) as -> by done. cbn [andb]. by apply Nat.ltb_lt. }
    intros token reply v Hv. apply ok_bind, ok_demand. intros _. apply ok_cas_branch. intros b.
    apply (Hrest b (S (made_branch g))). lia.
  - apply ok_bind, ok_ret. assert (g <| branch := Some found |> = g <| made_branch := made_branch g |> <| branch := Some found |>) as -> by by destruct g.
    apply Hrest. lia.
Qed.
Lemma ok_cas_get g (Φ : option string → Watch → Prop) :
  (Φ None (g <| present := Some JNull |>)) → (∀ v raw, object_of path v = Ok raw → Φ (Some raw) (g <| present := Some v |>)) →
  safe (cas_get binding path) g (on_ok Φ).
Proof.
  intros H1 H2. unfold cas_get. apply ok_bind, ok_read; [listed|]. intros v Hv q r Eq Eu Er.
  rewrite (next_get _ _ _ k_contents) by (rewrite ?Eu; done || apply kind_contents). rewrite Eu. cbn beta zeta iota. rewrite Er.
  destruct Hv as [[_ ->]|Hv]; [by apply ok_ret|]. rewrite Hv. apply ok_bind, ok_of_res. intros raw Hr. apply ok_ret. by apply H2.
Qed.

(** The object is on the branch, written here, and the branch is in scope. *)
Definition stored_at (g : Watch) : Prop :=
  ∃ v b n, written g = Some v ∧ file_written path (blob_sha1 body) v = true ∧ made_object g = true ∧
    branch g = Some b ∧ is_none b = false ∧ objects g = Some n ∧ 0 ≤ n ≤ 3.
Lemma objects_bound g n : objects g = Some n → 0 ≤ n ≤ 3.
Proof.
  unfold objects. destruct (branch g) as [b|]; [|done]. destruct (is_none b); [done|]. destruct (String.eqb _ base); [intros [= <-]; lia|].
  destruct (compare g) as [[u v]|]; [|done]. destruct (String.eqb u _); [|done]. cbn [andb].
  destruct (scope_ok v) as [[|]|e] eqn:Es; try done. intros [= <-]. unfold scope_ok in Es.
  apply andr_true in Es as [Es _]. apply andr_true in Es as [Es _]. injection Es as Es.
  do 2 (apply andb_prop in Es as [Es _]). apply andb_prop in Es as [_ Es].
  destruct (member "ahead_by" v); try done. cbn in *. apply andb_prop in Es as [E1%Z.leb_le E2%Z.leb_le]. lia.
Qed.

Lemma ok_cas_put (Hkey : checked_key (Put.bucket p) (Put.key p) = Ok (path, digest)) :
  safe (cas_put_object binding p) nothing_known (on_ok (fun _ g => is_authorized g = true ∧ stored_at g)).
Proof.
  unfold cas_put_object. rewrite Hkey. apply ok_bind, ok_of_res. intros k [= <-]. cbn beta iota.
  apply ok_bind, ok_demand. intros Hw. apply ok_bind, ok_authorized. intros now m i c g1 Hauth.
  assert (made_branch g1 = 0%nat ∧ made_object g1 = false) as [E1 E2] by done. clearbody g1.
  apply ok_bind, ok_ensure_branch; [done|rewrite E1, E2; lia|]. intros n b cmp k' g2 Hn Hk.
  assert (is_authorized g2 = true) as Hauth2 by exact Hauth.
  assert ((made_branch g2 <= 1)%nat ∧ made_object g2 = false) as [E3 E4] by (cbn; rewrite E1 in Hk; split; [lia|done]).
  clearbody g2. clear - Hauth2 E3 E4 Hn Hw.
  apply ok_bind, ok_cas_get; [|done]. apply ok_bind, ok_demand. intros Hroom.
  apply ok_bind, ok_request.
  { intros token. unfold allowed. cbn [method url payload].
    replace (String.eqb "PUT" "GET") with false by done. replace (String.eqb "PUT" "POST") with false by done. cbn iota.
    rewrite !String.eqb_refl, bool_decide_eq_true_2 by done. fold body. rewrite Hw. cbn [andb].
    change (is_authorized (g2 <| present := Some JNull |>)) with (is_authorized g2).
    change (objects (g2 <| present := Some JNull |>)) with (objects g2).
    rewrite Hauth2, Hn, Hroom. cbn. by rewrite E4. }
  intros token reply v Hv. apply ok_bind, ok_demand. intros Hwritten.
  unfold next. cbn [method url]. replace (String.eqb "PUT" "GET") with false by done.
  replace (String.eqb "PUT" "PUT") with true by done. cbn beta zeta iota. rewrite (reply_value_ok _ _ _ _ _ Hv).
  apply ok_bind, ok_cas_branch. intros observed. apply ok_bind, ok_demand. intros _.
  apply ok_bind, ok_ensure_branch; [exact Hauth2|cbn; lia|]. intros n' b' c' k'' g3 Hn' _. apply ok_ret.
  split; [exact Hauth2|]. exists v, b', n'. repeat split; [done| |exact Hn'|by eapply objects_bound..].
  revert Hn'. unfold objects. cbn. by destruct (is_none b').
Qed.
End Protocol.

(** ** A branch of objects *)

(** The paths and bytes on the store's branch, the last one first; none before
    the branch exists. *)
Definition CasHub : Type := option (list (string * string)).
Definition tip (l : list (string * string)) : string := match l with (_, body) :: _ => blob_sha1 body | [] => issue_base end.
Definition cas_name : string := cas_branch_of issue_binding.
Definition object_view (path body : string) : json :=
  GitHubProps.contents_json path (b64encode body ++ newline)%string (blob_sha1 body) (length_of body).
Definition compare_objects (l : list (string * string)) : json :=
  let n := JInt (Z.of_nat (length l)) in
  JObj [("status", JStr "ahead"); ("ahead_by", n); ("behind_by", JInt 0); ("total_commits", n);
        ("files", JList (map (fun f => JObj [("status", JStr "added"); ("filename", JStr f.1)]) l))].
Definition path_in (url : string) : string :=
  str (drop (len (url_of "/contents/")) (chars url)).
Definition written_view (path body : string) : json :=
  JObj [("content", JObj [("path", JStr path); ("sha", JStr (blob_sha1 body))]); ("commit", JObj [("sha", JStr (blob_sha1 body))])].
Definition serve_cas (q : Request) (h : CasHub) : res Reply * CasHub :=
  let tail := str (drop (len (url_of "")) (chars (url q))) in
  let reply code v := (Ok (GitHubProps.http_reply tail code v), h) in
  if String.eqb (method q) "GET" then
    match kind_of (url q) with
    | k_main => reply 200 (commit_json "main" issue_base)
    | k_branch => match h with Some l => reply 200 (commit_json cas_name (tip l)) | None => reply 404 JNull end
    | k_issue => (fst (GitHubProps.ask_hub (get_issue 7) tail 200 (fun v => v) (mkHub None None)), h)
    | k_comment => (fst (GitHubProps.ask_hub (get_comment 99) tail 200 (fun v => v) (mkHub None None)), h)
    | k_compare => reply 200 (compare_objects (default [] h))
    | k_contents =>
        match lookup_key (path_in (url q)) (default [] h) with
        | Some body => reply 200 (object_view (path_in (url q)) body)
        | None => reply 404 JNull
        end
    | _ => (Raise (Error "HTTPError" ""), h)
    end
  else if String.eqb (method q) "POST" then
    (Ok (GitHubProps.http_reply tail 201
       (JObj [("ref", JStr (full_ref cas_name)); ("object", JObj [("sha", JStr issue_base)])])), Some [])
  else
    let body := match b64decode true (GitHubProps.payload_member "content" q) with Ok s => s | Raise _ => "" end in
    (Ok (GitHubProps.http_reply tail 201 (written_view (path_in (url q)) body)), Some ((path_in (url q), body) :: default [] h)).
Definition cas_world (o : GitHubCas.op) (h : CasHub) : res (GitHubCas.answer o) * CasHub :=
  match o return res (GitHubCas.answer o) * CasHub with
  | hub read_token => (Ok (String.append "ghp_0123456789abcdef" newline), h)
  | hub (send q) => serve_cas q h
  | utc_now => (Ok issue_now, h)
  end.
Definition a_put (body : string) : Put.t :=
  Put.mk CAS_BUCKET (cas_key CAS_PREFIX "git-bundle-v1" (sha256_hex body) ".artifact") body (length_of body) "" 
    [("sha256", sha256_hex body)] "*".
Definition putting (body : string) (h : CasHub) := Prog.execute cas_world (cas_put_object issue_binding (a_put body)) h.
Definition getting (body : string) (h : CasHub) :=
  (Prog.execute cas_world (cas_get_object issue_binding CAS_BUCKET (Put.key (a_put body))) h).2.1.
Definition after (bodies : list string) : CasHub := foldl (fun h body => (putting body h).2.2) None bodies.
Definition put_results (bodies : list string) : list (res unit) :=
  (foldl (fun '(h, l) body => let out := (putting body h).2 in (out.2, l ++ [out.1])) (None, []) bodies).2.
(** Three objects are stored, a present one is refused, and so is a fourth. *)
Example three_objects :
  put_results ["a"; "b"; "a"; "c"; "d"] = [Ok tt; Ok tt; Raise already_exists; Ok tt; Raise (handoff "cas_branch_scope_invalid")] ∧
  getting "b" (after ["a"; "b"]) = Ok (stored_bytes "b") ∧
  getting "b" (after ["a"]) = Raise (handoff "cas_object_missing_or_modified").
Proof. vm_compute. repeat split; reflexivity. Qed.

(** ** Writing *)

Abbreviation guarded binding path digest p := (accepts (allowed binding path digest p) next nothing_known).
Abbreviation known := (reached next nothing_known).

(** C31: whatever GitHub answers, a write of an object sends only reads of main,
    of the issue and its comment, of the store's branch, its comparison with
    the base and the object's own path; a creation of that branch at the
    authorised base, sent while the branch was read to be absent, and once
    unless it vanished after the write; and one PUT of exactly the object's
    bytes, sent when the owner's authorisation of this very binding has been
    read, the bytes are those of the key's digest, the path was read to be
    absent and the branch to hold fewer than three objects, each added under
    the store's directory.  A write that returns has been answered with the
    object's blob at its path, and the branch was in scope when read after it. *)
Theorem cas_write_is_guarded (binding : IssueBinding.t) (p : Put.t) (path digest : string)
    (t : list (event (answer:=GitHubCas.answer))) (x : res unit)
    (Hkey : checked_key (Put.bucket p) (Put.key p) = Ok (path, digest)) (Hruns : runs (cas_put_object binding p) t x) :
  guarded binding path digest p t = true ∧
  (x = Ok tt → is_authorized binding (known t) = true ∧ stored_at binding path p (known t)).
Proof.
  destruct (safe_runs _ _ _ _ _ _ _ (ok_cas_put binding path digest p Hkey) Hruns) as [Ha Hx].
  split; [exact Ha|]. intros ->. exact Hx.
Qed.
Lemma cas_write_is_guarded_witness :
  let run := putting "a bundle" None in
  run.2.1 = Ok tt ∧
  guarded issue_binding (String.append "evidence/cas/" (Put.key (a_put "a bundle"))) (sha256_hex "a bundle") (a_put "a bundle") run.1 = true ∧
  (run.2.1 = Ok tt → is_authorized issue_binding (known run.1) = true ∧
     stored_at issue_binding (String.append "evidence/cas/" (Put.key (a_put "a bundle"))) (a_put "a bundle") (known run.1)).
Proof.
  split; [vm_compute; reflexivity|].
  apply (cas_write_is_guarded issue_binding (a_put "a bundle") _ _ _ _); [vm_compute; reflexivity|].
  exact (execute_runs cas_world _ None).
Defined.

(** ** Reading *)

Lemma object_of_bound path v raw : object_of path v = Ok raw → 0 < length_of raw ≤ CAS_MAX_BYTES.
Proof.
  unfold object_of. intros H. apply res_bind_ok in H as (? & Hs%require_true & H).
  apply res_bind_ok in H as (raw' & _ & H). apply res_bind_ok in H as (? & Hl%require_true & [= <-]).
  apply andb_prop in Hl as [Hl%Z.eqb_eq _]. rewrite Hl. unfold file_shape in Hs. apply andb_prop in Hs as [_ Hs].
  destruct (member "size" v); try done. cbn [int_that int_value] in *. apply andb_prop in Hs as [H1%Z.ltb_lt H2%Z.leb_le]. lia.
Qed.
Lemma stored_bytes_whole raw : 0 < length_of raw → length_of raw ≤ CAS_MAX_BYTES →
  object_bytes cas_config (stored_bytes raw) = Ok raw.
Proof.
  intros H1 H2. assert ((0 <? length_of raw) && (length_of raw <=? CAS_MAX_BYTES) = true) as Hb.
  { apply andb_true_iff. split; [by apply Z.ltb_lt|by apply Z.leb_le]. }
  assert ((length_of raw <=? CAS_MAX_BYTES) = true) as Hm by by apply Z.leb_le.
  assert (nonempty raw = true) as Hn by by destruct raw.
  assert (read_all (CAS_MAX_BYTES + 1) [Ok (bytes_read raw)] = Ok (raw, [])) as Hr.
  { cbn [read_all]. replace (Z.leb (CAS_MAX_BYTES + 1) 0) with false by done.
    assert ((length_of raw <=? Z.min READ_SIZE (CAS_MAX_BYTES + 1)) = true) as Hb' by (apply Z.leb_le; unfold READ_SIZE, CAS_MAX_BYTES in *; lia).
    cbn [mbind res_bind]. rewrite Hb', Hn. cbn [need mbind res_bind].
    replace (Z.leb (CAS_MAX_BYTES + 1 - length_of raw) 0) with false by (symmetry; apply Z.leb_gt; lia).
    cbn [mbind res_bind fst snd]. do 2 f_equal. apply chars_inj. rewrite chars_app. apply app_nil_r. }
  unfold object_bytes, stored_bytes. cbn [Artifact.content_length readable Artifact.reads closing S3ArtifactConfig.max_artifact_bytes cas_config int_that].
  rewrite Hb, Hr. cbn [andb need mbind res_bind at_end fst snd]. rewrite Hm.
  change (py_eqb (JInt (length_of raw)) (JInt (length_of raw))) with (Z.eqb (length_of raw) (length_of raw)). by rewrite Z.eqb_refl.
Qed.
Lemma cas_get_bound binding path t raw : runs (cas_get binding path) t (Ok (Some raw)) → 0 < length_of raw ≤ CAS_MAX_BYTES.
Proof.
  intros (v & ? & t2 & _ & H & _)%runs_ok_bind. destruct (is_none v).
  - apply runs_inv in H as [_ [=]].
  - apply runs_ok_bind in H as (raw' & ? & ? & [_ Hr]%runs_ok_res & H & _). apply runs_inv in H as [_ [= ->]]. by eapply object_of_bound.
Qed.

(** Whatever GitHub answers, a read of the store that returns gives bytes
    of at most 96 KiB whose SHA-256 is the digest in the key asked for, in the
    one bucket; the transport reads them whole. *)
Theorem cas_object_is_its_key (binding : IssueBinding.t) (bucket key : string) (t : list (event (answer:=GitHubCas.answer))) (o : Stored)
    (Hruns : runs (cas_get_object binding bucket key) t (Ok o)) :
  ∃ path raw, checked_key bucket key = Ok (path, sha256_hex raw) ∧ 0 < length_of raw ≤ CAS_MAX_BYTES ∧ o = stored_bytes raw ∧
    object_bytes cas_config o = Ok raw.
Proof.
  apply runs_ok_bind in Hruns as ([path digest] & ? & ? & [_ Hk]%runs_ok_res & H & _).
  apply runs_ok_bind in H as (b & ? & ? & _ & H & _). apply runs_ok_bind in H as (? & ? & ? & _ & H & _).
  apply runs_ok_bind in H as ([raw|] & t1 & ? & Hg & H & _); [|by apply runs_inv in H as [_ [=]]].
  apply runs_ok_bind in H as (? & ? & ? & [_ Hd%require_true%String.eqb_eq]%runs_ok_res & H & _). apply runs_inv in H as [_ [= ->]].
  apply cas_get_bound in Hg as [H1 H2].
  exists path, raw. split; [by rewrite Hd|]. split; [done|]. split; [done|]. by apply stored_bytes_whole.
Qed.
Lemma cas_object_is_its_key_witness :
  getting "b" (after ["a"; "b"]) = Ok (stored_bytes "b") ∧
  ∃ path raw, checked_key CAS_BUCKET (Put.key (a_put "b")) = Ok (path, sha256_hex raw) ∧ 0 < length_of raw ≤ CAS_MAX_BYTES ∧
    stored_bytes "b" = stored_bytes raw ∧ object_bytes cas_config (stored_bytes "b") = Ok raw.
Proof.
  split; [vm_compute; reflexivity|].
  eapply (cas_object_is_its_key issue_binding CAS_BUCKET (Put.key (a_put "b"))
    (Prog.execute cas_world (cas_get_object issue_binding CAS_BUCKET (Put.key (a_put "b"))) (after ["a"; "b"])).1).
  pose proof (execute_runs cas_world (cas_get_object issue_binding CAS_BUCKET (Put.key (a_put "b"))) (after ["a"; "b"])) as H.
  revert H. change (Prog.execute cas_world _ _).2.1 with (getting "b" (after ["a"; "b"])).
  replace (getting "b" (after ["a"; "b"])) with (Ok (stored_bytes "b")) by (vm_compute; reflexivity). done.
Defined.
