(* ===== verification/RagHandoff.v ===== *)
(** The binding of a research receipt to an issue, [app/issue_rag_handoff.py]:
    the checks on the receipt, the one independent read of the cited source,
    and the citation that results.

    A reader answers with bytes, or with something that is not bytes.  The
    prompt's note is not modelled: its text has a character beyond the code
    points of this development. *)
From Stdlib Require Import Ascii String.
From stdpp Require Import strings list.
From S2P Require Import Prelude Prog PyStr Sha256 Clock Json PyVal PyText PyAst PyBytes PyUrl IsoDate Names Structured Repair IssueDraft.

Local Open Scope string_scope.
Local Open Scope Z_scope.
Local Open Scope list_scope.

Definition QUESTION : string :=
  u8 "Quantos casos após o reparo o código atual exige para o perfil bridge.property.v1?".
Definition ALLOWED_SOURCES : list string := ["README.md"; "AGENTS.md"; "docs/ISSUE_QWEN7B_DRAFT_HANDOFF.md"].
Definition MAX_BYTES : Z := 65536.
Definition MAX_LINE : Z := 220.
Definition MAX_SOURCES : Z := 2.
Definition MAX_MODEL_CALLS : Z := 4.
(** [canonical], without [ensure_ascii] *)
Definition canonical_text (v : json) : string := utf8_encode (str (dumps (sort_all v))).

Module BoundIssueRAG.
Record t := mk {
  issue : Z; base_sha : string; request_id : string; correlation_id : string; source_path : string;
  source_sha256 : string; source_blob_sha : string; line : Z; excerpt : string; url : string;
  model_digest : string; model_calls : Z; receipt_sha256 : string }.
End BoundIssueRAG.
#[export] Instance BoundIssueRAG_eq_dec : EqDecision BoundIssueRAG.t.
Proof. solve_decision. Defined.

(** ** The receipt *)

Definition CORRELATION : re :=
  Cat (lit "qwen7b-issue-") (Cat (Chr (in_range 49 57)) (Cat (Rep 0 None (Chr is_digit)) (Cat (lit "-") (times 12 hex_lower)))).
Definition REQUEST : re := Cat (lit "issue-") HEX64.
Definition binding_ok (b : IssueBinding.t) : bool :=
  (0 <? IssueBinding.number b) && fullmatch SHA40 (IssueBinding.base_sha b) && fullmatch REQUEST (IssueBinding.request_id b) &&
  fullmatch CORRELATION (IssueBinding.correlation_id b).
Definition RECEIPT_FIELDS : list string :=
  ["schema_version"; "repository"; "issue_number"; "request_id"; "correlation_id"; "head_sha"; "base_sha"; "question_sha256";
   "search_query_sha256"; "sources"; "selected_reference"; "state"; "model_calls"; "model_digest"; "model_process_verified";
   "issue_head_readback_stable"; "execution_authorized"; "state_changed"; "receipt_sha256"].
Definition is_the_false (v : json) : bool := match v with JBool false => true | _ => false end.
Definition has_fields (fields : list string) (v : json) : bool :=
  match v with JObj ms => same_set (keys ms) fields | _ => false end.
Definition bound_to (b : IssueBinding.t) (receipt : json) : bool :=
  has_fields RECEIPT_FIELDS receipt && text_is "schema_version" "worker.rag.issue-context-v1" receipt &&
  text_is "repository" REPO receipt && int_that (Z.eqb (IssueBinding.number b)) (member "issue_number" receipt) &&
  text_is "request_id" (IssueBinding.request_id b) receipt && text_is "head_sha" (IssueBinding.base_sha b) receipt &&
  text_is "base_sha" (IssueBinding.base_sha b) receipt && text_is "correlation_id" (IssueBinding.correlation_id b) receipt &&
  text_is "question_sha256" (sha256_of QUESTION) receipt && text_is "state" "supported" receipt &&
  is_true (member "model_process_verified" receipt) && is_true (member "issue_head_readback_stable" receipt) &&
  is_the_false (member "execution_authorized" receipt) && is_the_false (member "state_changed" receipt).
Definition list_within (maximum : Z) (p : json → bool) (v : json) : bool :=
  match v with JList l => (1 <=? Z.of_nat (length l)) && (Z.of_nat (length l) <=? maximum) && forallb p l | _ => false end.
Definition model_attested (receipt : json) : bool :=
  int_that (fun n => (2 <=? n) && (n <=? MAX_MODEL_CALLS)) (member "model_calls" receipt) &&
  str_that (fun s => fullmatch HEX64 s && starts_with MODEL_DIGEST_PREFIX s) (member "model_digest" receipt).
(** [dict(receipt)] without its hash, and the hash. *)
Definition without (k : string) (v : json) : json :=
  match v with JObj ms => JObj (List.filter (fun m => negb (String.eqb m.1 k)) ms) | v => v end.
Definition receipt_digest (receipt : json) : string := sha256_hex (canonical_text (without "receipt_sha256" receipt)).
Definition hash_ok (receipt : json) : bool :=
  str_that (fullmatch HEX64) (member "receipt_sha256" receipt) &&
  text_is "receipt_sha256" (receipt_digest receipt) receipt.
Definition citation_shape (selected : json) : bool :=
  str_that (fun p => bool_decide (p ∈ ALLOWED_SOURCES)) (member "path" selected) &&
  int_that (fun n => (1 <=? n) && (n <=? 4096)) (member "line" selected) &&
  str_that (fun s => (1 <=? length_of s) && (length_of s <=? MAX_LINE)) (member "excerpt" selected) &&
  int_that (fun n => (1 <=? n) && (n <=? 24)) (member "score" selected) && is_true (member "untrusted_source_text" selected).
Fixpoint all_allowed (b : IssueBinding.t) (sources : list json) : res bool :=
  match sources with
  | [] => Ok true
  | s :: sources' =>
      (member_of ALLOWED_SOURCES (member "path" s) &&& Ok (text_is "ref_sha" (IssueBinding.base_sha b) s) &&&
       all_allowed b sources')%py
  end.
Definition cites (b : IssueBinding.t) (selected s : json) : bool :=
  py_eqb (member "path" s) (member "path" selected) && text_is "ref_sha" (IssueBinding.base_sha b) s.
Definition source_digests (selected source : json) : bool :=
  str_that (fullmatch HEX64) (member "sha256" source) && str_that (fullmatch SHA40) (member "blob_sha" source) &&
  py_eqb (member "source_sha256" selected) (member "sha256" source) &&
  int_that (fun n => (0 <? n) && (n <=? MAX_BYTES)) (member "bytes" source).
Definition citation_url (b : IssueBinding.t) (path : string) (line : Z) : string :=
  concat_text ["https://github.com/"; REPO; "/blob/"; IssueBinding.base_sha b; "/"; quote_path path; "#L"; int_text line].
Definition items (v : json) : list json := match v with JList l => l | _ => [] end.

(** What precedes the read: the citation and the length of its source. *)
Definition checked_receipt (b : IssueBinding.t) (receipt : json) : res (BoundIssueRAG.t * Z) :=
  require (binding_ok b) "rag_issue_binding_invalid" ;;
  require (is_dict receipt) "rag_attestation_input_invalid" ;;
  require (bound_to b receipt) "rag_issue_or_source_sha_unbound" ;;
  require (list_within MAX_SOURCES (str_that (fullmatch HEX64)) (member "search_query_sha256" receipt)) "rag_query_evidence_invalid" ;;
  require (model_attested receipt) "rag_model_attestation_invalid" ;;
  require (hash_ok receipt) "rag_receipt_integrity_invalid" ;;
  let selected := member "selected_reference" receipt in
  let sources := items (member "sources" receipt) in
  require (list_within MAX_SOURCES is_dict (member "sources" receipt) && is_dict selected) "rag_sources_unverified" ;;
  require (citation_shape selected) "rag_citation_shape_invalid" ;;
  match List.filter (cites b selected) sources with
  | [source] =>
      allowed ← all_allowed b sources;
      require allowed "rag_source_not_allowlisted" ;;
      require (source_digests selected source) "rag_source_digest_invalid" ;;
      let path := str_value (member "path" selected) in
      let line := int_value (member "line" selected) in
      let url := citation_url b path line in
      require (text_is "url" url selected) "rag_citation_url_invalid" ;;
      Ok (BoundIssueRAG.mk (IssueBinding.number b) (IssueBinding.base_sha b) (IssueBinding.request_id b)
            (IssueBinding.correlation_id b) path (str_value (member "sha256" source)) (str_value (member "blob_sha" source))
            line (str_value (member "excerpt" selected)) url (str_value (member "model_digest" receipt))
            (int_value (member "model_calls" receipt)) (str_value (member "receipt_sha256" receipt)),
          int_value (member "bytes" source))
  | _ => Raise (handoff "rag_source_not_allowlisted")
  end.

(** ** The source *)

Section Source.
Context {py : Language}.

(** [lines[n - 1].strip()[:MAX_LINE]], for [n >= 1] *)
Definition excerpt_at (lines : list string) (n : Z) : option string :=
  take_str (Z.to_nat MAX_LINE) ∘ strip <$> lines !! Z.to_nat (n - 1).
Definition checked_source (c : BoundIssueRAG.t) (size : Z) (raw : option string) : res unit :=
  match raw with
  | Some raw =>
      require ((0 <? length_of raw) && (length_of raw <=? MAX_BYTES)) "rag_independent_source_invalid" ;;
      require (String.eqb (sha256_hex raw) (BoundIssueRAG.source_sha256 c) &&
               String.eqb (blob_sha1 raw) (BoundIssueRAG.source_blob_sha c) && (length_of raw =? size))
        "rag_independent_digest_mismatch" ;;
      text ← unicode_or "rag_independent_encoding_invalid" (utf8_decode raw);
      require (bool_decide (excerpt_at (splitlines text) (BoundIssueRAG.line c) = Some (BoundIssueRAG.excerpt c)))
        "rag_independent_excerpt_mismatch"
  | None => Raise (handoff "rag_independent_source_invalid")
  end.

(** [independent_read(path, sha)] *)
Inductive op : Type := independent_read (path sha : string).
Definition answer (o : op) : Type := option string.
Definition bind_issue_rag (b : IssueBinding.t) (receipt : json) : prog answer BoundIssueRAG.t :=
  checked ← of_res (checked_receipt b receipt);
  let '(c, size) := checked in
  raw ← catch (call (independent_read (BoundIssueRAG.source_path c) (IssueBinding.base_sha b)))
          (fun _ => throw (handoff "rag_independent_read_unavailable"));
  of_res (checked_source c size raw) ;;
  mret c.
End Source.
