(* ===== verification/RagHandoffProps.v ===== *)
(** Properties of the binding of a receipt: what a citation is evidence of,
    and that the order of the receipt's members does not matter; after the
    concrete receipt, source and reader that the witnesses use. *)
From Stdlib Require Import Ascii String.
From S2P Require Import Prelude Prog PyStr Sha256 Clock Json PyVal PyText PyAst PyBytes IsoDate Names Structured Repair IssueDraft.
From S2P Require Import RagHandoff IssueScenario.
From S2P Require PyJson BundleProps Manifest Bundle.
From stdpp Require Import strings list.

Local Open Scope string_scope.
Local Open Scope Z_scope.
Local Open Scope list_scope.

Definition rag_path : string := "docs/ISSUE_QWEN7B_DRAFT_HANDOFF.md".
Definition rag_excerpt : string := "The code requires 42 cases after the repair.".
Definition rag_source : string := concat_text ["# Handoff"; newline; "  "; rag_excerpt; newline].
Definition rag_citation : json :=
  JObj [("path", JStr rag_path); ("line", JInt 2); ("excerpt", JStr rag_excerpt); ("score", JInt 12);
        ("untrusted_source_text", JBool true); ("source_sha256", JStr (sha256_hex rag_source));
        ("url", JStr (citation_url issue_binding rag_path 2))].
Definition unsigned_receipt : list (string * json) :=
  [("schema_version", JStr "worker.rag.issue-context-v1"); ("repository", JStr REPO); ("issue_number", JInt 7);
   ("request_id", JStr (IssueBinding.request_id issue_binding)); ("correlation_id", JStr (IssueBinding.correlation_id issue_binding));
   ("head_sha", JStr issue_base); ("base_sha", JStr issue_base); ("question_sha256", JStr (sha256_of QUESTION));
   ("search_query_sha256", JList [JStr (sha256_of "cases")]);
   ("sources", JList [JObj [("path", JStr rag_path); ("ref_sha", JStr issue_base); ("blob_sha", JStr (blob_sha1 rag_source));
                            ("sha256", JStr (sha256_hex rag_source)); ("bytes", JInt (length_of rag_source))]]);
   ("selected_reference", rag_citation); ("state", JStr "supported"); ("model_calls", JInt 2); ("model_digest", JStr issue_digest);
   ("model_process_verified", JBool true); ("issue_head_readback_stable", JBool true); ("execution_authorized", JBool false);
   ("state_changed", JBool false)].
Definition rag_receipt : json :=
  Eval vm_compute in JObj (unsigned_receipt ++ [("receipt_sha256", JStr (sha256_hex (canonical_text (JObj unsigned_receipt))))]).
Definition rag_reader (o : RagHandoff.op) (u : unit) : res (RagHandoff.answer o) * unit :=
  match o return res (RagHandoff.answer o) * unit with
  | independent_read path sha =>
      (if String.eqb path rag_path && String.eqb sha issue_base then Ok (Some rag_source) else Raise (Error "KeyError" path), u)
  end.
Definition rag_run := Prog.execute rag_reader (bind_issue_rag issue_binding rag_receipt) tt.
Definition bound_citation : BoundIssueRAG.t :=
  Eval vm_compute in match rag_run.2.1 with Ok c => c | Raise _ => BoundIssueRAG.mk 0 "" "" "" "" "" "" 0 "" "" "" 0 "" end.
Example rag_run_binds : rag_run.2.1 = Ok bound_citation ∧ BoundIssueRAG.line bound_citation = 2.
Proof. vm_compute. split; reflexivity. Qed.
(** A source with a list as its path is not a closed error. *)
Example unhashable_source :
  all_allowed issue_binding [JObj [("path", JList []); ("ref_sha", JStr issue_base)]] = unhashable.
Proof. reflexivity. Qed.

(** ** The order of members *)

Lemma member_at_key k v : member k v = Bundle.at_key k v.
Proof. unfold member, Bundle.at_key, value_of. by destruct v. Qed.
Lemma member_sorted k v : PyJson.loadable v = true → member k (sort_all v) = sort_all (member k v).
Proof.
  intros Hv. rewrite !member_at_key. destruct v as [| | | | |ms]; try done. apply BundleProps.at_key_sorted.
  cbn in Hv. by apply andb_prop in Hv as [H%bool_decide_eq_true _].
Qed.
Lemma loadable_member k v : PyJson.loadable v = true → PyJson.loadable (member k v) = true.
Proof.
  rewrite member_at_key. destruct v as [| | | | |ms]; try done. cbn. intros [_ H]%andb_prop.
  induction ms as [|m ms IH]; [done|]. cbn in H. apply andb_prop in H as [H1 H2]. unfold lookup_key. cbn.
  destruct (String.eqb m.1 k); [exact H1|by apply IH].
Qed.
Lemma loadable_items v : PyJson.loadable v = true → Forall (fun x => PyJson.loadable x = true) (items v).
Proof. destruct v; try done. cbn. by rewrite forallb_forall, Forall_forall; setoid_rewrite list_elem_of_In. Qed.
Lemma is_text_sorted v s : is_text (sort_all v) s = is_text v s.
Proof. by destruct v. Qed.
Lemma int_that_sorted p v : int_that p (sort_all v) = int_that p v.
Proof. by destruct v. Qed.
Lemma str_that_sorted p v : str_that p (sort_all v) = str_that p v.
Proof. by destruct v. Qed.
Lemma is_true_sorted v : is_true (sort_all v) = is_true v.
Proof. by destruct v. Qed.
Lemma is_the_false_sorted v : is_the_false (sort_all v) = is_the_false v.
Proof. by destruct v. Qed.
Lemma is_dict_sorted v : is_dict (sort_all v) = is_dict v.
Proof. by destruct v. Qed.
Lemma hashable_sorted v : hashable (sort_all v) = hashable v.
Proof. by destruct v. Qed.
Lemma str_value_sorted v : str_value (sort_all v) = str_value v.
Proof. by destruct v. Qed.
Lemma int_value_sorted v : int_value (sort_all v) = int_value v.
Proof. by destruct v. Qed.
Lemma items_sorted v : items (sort_all v) = map sort_all (items v).
Proof. by destruct v. Qed.
Lemma list_within_sorted n p v : (∀ x, p (sort_all x) = p x) → list_within n p (sort_all v) = list_within n p v.
Proof.
  intros Hp. destruct v as [| | | |l|]; try done. cbn. rewrite length_map. f_equal.
  induction l as [|x l IH]; [done|]. cbn. by rewrite Hp, IH.
Qed.
Lemma has_fields_sorted fields v : has_fields fields (sort_all v) = has_fields fields v.
Proof. destruct v as [| | | | |ms]; try done. apply BundleProps.has_members_sorted. Qed.

(** A member left out before sorting or after. *)
Lemma filter_insert (p : string * json → bool) m ms : PyJson.ordered ms →
  List.filter p (insert_key m ms) = if p m then insert_key m (List.filter p ms) else List.filter p ms.
Proof.
  induction 1 as [|n ms Hs IH Hn]; cbn; [by destruct (p m)|]. destruct (text_leb m.1 n.1) eqn:E; cbn.
  - destruct (p m) eqn:Em, (p n) eqn:En; cbn; rewrite ?En, ?E; try done.
    assert (insert_key m (List.filter p ms) = m :: List.filter p ms) as ->; [|done].
    destruct (List.filter p ms) as [|k l] eqn:El; [done|]. cbn.
    assert (text_leb n.1 k.1 = true) as Hk.
    { rewrite Forall_forall in Hn. apply Hn. assert (k ∈ List.filter p ms) as Hk by by rewrite El; left.
      apply list_elem_of_In, filter_In in Hk as [Hk _]. by apply list_elem_of_In. }
    by rewrite (text_leb_trans _ _ _ E Hk).
  - rewrite IH. destruct (p m) eqn:Em, (p n) eqn:En; cbn; rewrite ?E; done.
Qed.
Lemma filter_sort (p : string * json → bool) ms : List.filter p (sort_keys ms) = sort_keys (List.filter p ms).
Proof.
  induction ms as [|m ms IH]; [done|]. change (sort_keys (m :: ms)) with (insert_key m (sort_keys ms)).
  rewrite filter_insert by apply PyJson.sort_keys_ordered. cbn. rewrite IH. by destruct (p m).
Qed.
Lemma without_sorted k v : sort_all (without k (sort_all v)) = sort_all (without k v).
Proof.
  destruct v as [| | | |l|ms]; [done..|exact (PyJson.sort_all_idem (JList l))|].
  transitivity (sort_all (sort_all (without k (JObj ms)))); [|by rewrite PyJson.sort_all_idem]. f_equal.
  cbn [sort_all without]. rewrite filter_sort. do 2 f_equal.
  induction ms as [|m ms IH]; [done|]. cbn. rewrite IH. by destruct (negb (String.eqb m.1 k)).
Qed.
Lemma receipt_digest_sorted r : receipt_digest (sort_all r) = receipt_digest r.
Proof. unfold receipt_digest, canonical_text. by rewrite without_sorted. Qed.

Lemma text_is_sorted k s v : PyJson.loadable v = true → text_is k s (sort_all v) = text_is k s v.
Proof. intros Hv. unfold text_is. by rewrite member_sorted, is_text_sorted. Qed.
Lemma bound_to_sorted b r : PyJson.loadable r = true → bound_to b (sort_all r) = bound_to b r.
Proof.
  intros Hr. unfold bound_to. rewrite has_fields_sorted, !text_is_sorted, !member_sorted by done.
  by rewrite int_that_sorted, !is_true_sorted, !is_the_false_sorted.
Qed.
Lemma model_attested_sorted r : PyJson.loadable r = true → model_attested (sort_all r) = model_attested r.
Proof. intros Hr. unfold model_attested. by rewrite !member_sorted, int_that_sorted, str_that_sorted by done. Qed.
Lemma hash_ok_sorted r : PyJson.loadable r = true → hash_ok (sort_all r) = hash_ok r.
Proof. intros Hr. unfold hash_ok. by rewrite receipt_digest_sorted, text_is_sorted, member_sorted, str_that_sorted. Qed.
Lemma citation_shape_sorted s : PyJson.loadable s = true → citation_shape (sort_all s) = citation_shape s.
Proof. intros Hs. unfold citation_shape. rewrite !member_sorted by done. by rewrite !str_that_sorted, !int_that_sorted, is_true_sorted. Qed.
Lemma py_eqb_text_sorted v w : py_eqb (sort_all v) (sort_all (JStr w)) = py_eqb v (JStr w).
Proof. apply is_text_sorted. Qed.
Lemma cites_sorted b sel s : PyJson.loadable sel = true → PyJson.loadable s = true → citation_shape sel = true →
  cites b (sort_all sel) (sort_all s) = cites b sel s.
Proof.
  intros Hsel Hs Hc. unfold cites. rewrite text_is_sorted, !member_sorted by done. f_equal.
  unfold citation_shape in Hc. do 4 (apply andb_prop in Hc as [Hc _]). destruct (member "path" sel); try discriminate Hc.
  apply is_text_sorted.
Qed.
Lemma source_digests_sorted sel s : PyJson.loadable sel = true → PyJson.loadable s = true →
  source_digests (sort_all sel) (sort_all s) = source_digests sel s.
Proof.
  intros Hsel Hs. unfold source_digests. rewrite !member_sorted by done. rewrite !str_that_sorted, int_that_sorted.
  destruct (member "sha256" s) as [| | |d| |]; try done. by rewrite py_eqb_text_sorted.
Qed.
Lemma all_allowed_sorted b l : Forall (fun s => PyJson.loadable s = true) l → all_allowed b (map sort_all l) = all_allowed b l.
Proof.
  induction 1 as [|s l Hs _ IH]; [done|]. cbn [map all_allowed]. rewrite IH, text_is_sorted, member_sorted by done.
  unfold member_of. rewrite hashable_sorted.
  assert (existsb (is_text (sort_all (member "path" s))) ALLOWED_SOURCES = existsb (is_text (member "path" s)) ALLOWED_SOURCES) as ->; [|done].
  induction ALLOWED_SOURCES as [|p ps IHp]; [done|]. cbn. by rewrite is_text_sorted, IHp.
Qed.
Lemma filter_cites_sorted b sel l : PyJson.loadable sel = true → citation_shape sel = true → Forall (fun s => PyJson.loadable s = true) l →
  List.filter (cites b (sort_all sel)) (map sort_all l) = map sort_all (List.filter (cites b sel) l).
Proof.
  intros Hsel Hc. induction 1 as [|s l Hs _ IH]; [done|]. cbn. rewrite IH, cites_sorted by done. by destruct (cites b sel s).
Qed.
Lemma bind_ext {A B} (m : res A) (f g : A → res B) : (∀ a, m = Ok a → f a = g a) → mbind f m = mbind g m.
Proof. intros H. destruct m; [by apply H|done]. Qed.
(** A receipt is checked alike however its members are ordered. *)
Lemma checked_receipt_sorted b r : PyJson.loadable r = true → checked_receipt b (sort_all r) = checked_receipt b r.
Proof.
  intros Hr. unfold checked_receipt. rewrite is_dict_sorted, bound_to_sorted, (member_sorted "search_query_sha256"), (member_sorted "sources"), (member_sorted "selected_reference"), model_attested_sorted, hash_ok_sorted by done.
  rewrite !list_within_sorted by (intros; apply str_that_sorted || apply is_dict_sorted). rewrite is_dict_sorted, items_sorted.
  pose proof (loadable_member "selected_reference" r Hr) as Hsel. pose proof (loadable_items _ (loadable_member "sources" r Hr)) as Hl.
  set (sel := member "selected_reference" r) in *. set (sources := items (member "sources" r)) in *.
  rewrite citation_shape_sorted by done.
  do 7 (apply bind_ext; intros _ _). apply bind_ext. intros _ Hc%require_true.
  rewrite filter_cites_sorted, all_allowed_sorted by done.
  destruct (List.filter (cites b sel) sources) as [|s [|]] eqn:Ef; [done| |done]. cbn [map].
  assert (PyJson.loadable s = true) as Hs.
  { rewrite Forall_forall in Hl. apply Hl. assert (s ∈ List.filter (cites b sel) sources) as H by (rewrite Ef; left).
    apply list_elem_of_In, filter_In in H as [H _]. by apply list_elem_of_In. }
  rewrite source_digests_sorted, text_is_sorted, !member_sorted by done.
  by rewrite !str_value_sorted, !int_value_sorted.
Qed.

(** ** What a citation is evidence of *)

Lemma andb_all (a c : bool) (P Q : Prop) : (a = true → P) → (c = true → Q) → a && c = true → P ∧ Q.
Proof. intros HP HQ [Ha Hc]%andb_prop. auto. Qed.
(** The checks that precede the read. *)
Record attested (b : IssueBinding.t) (receipt : json) (c : BoundIssueRAG.t) : Prop := {
  at_issue : BoundIssueRAG.issue c = IssueBinding.number b ∧ BoundIssueRAG.base_sha c = IssueBinding.base_sha b ∧
    BoundIssueRAG.request_id c = IssueBinding.request_id b ∧ BoundIssueRAG.correlation_id c = IssueBinding.correlation_id b;
  at_receipt : bound_to b receipt = true;
  at_hash : BoundIssueRAG.receipt_sha256 c = receipt_digest receipt;
  at_source : BoundIssueRAG.source_path c ∈ ALLOWED_SOURCES;
  at_line : 1 ≤ BoundIssueRAG.line c ≤ 4096;
  at_excerpt : 1 ≤ length_of (BoundIssueRAG.excerpt c) ≤ MAX_LINE;
  at_url : BoundIssueRAG.url c = citation_url b (BoundIssueRAG.source_path c) (BoundIssueRAG.line c);
  at_model : starts_with MODEL_DIGEST_PREFIX (BoundIssueRAG.model_digest c) = true;
  at_calls : 2 ≤ BoundIssueRAG.model_calls c ≤ MAX_MODEL_CALLS }.
Lemma checked_receipt_attests b receipt c size : checked_receipt b receipt = Ok (c, size) → attested b receipt c.
Proof.
  unfold checked_receipt. intros H.
  apply res_bind_ok in H as (? & _ & H). apply res_bind_ok in H as (? & _ & H).
  apply res_bind_ok in H as (? & Hb%require_true & H). apply res_bind_ok in H as (? & _ & H).
  apply res_bind_ok in H as (? & Hm%require_true & H). apply res_bind_ok in H as (? & Hh%require_true & H).
  apply res_bind_ok in H as (? & _ & H). apply res_bind_ok in H as (? & Hc%require_true & H).
  destruct (List.filter _ _) as [|s [|]]; [done| |done].
  apply res_bind_ok in H as (ok & _ & H). apply res_bind_ok in H as (? & _ & H). apply res_bind_ok in H as (? & _ & H).
  apply res_bind_ok in H as (? & _ & [= <- _]).
  unfold model_attested in Hm. unfold hash_ok in Hh. unfold citation_shape in Hc. set (sel := member "selected_reference" receipt) in *.
  rewrite !andb_true_iff in Hm. rewrite !andb_true_iff in Hh. rewrite !andb_true_iff in Hc. destruct Hm as [Hcalls Hdigest], Hh as [_ Hhash], Hc as [[[[Hp Hl] He] _] _].
  unfold text_is in Hhash.
  destruct (member "model_calls" receipt) as [| |n| | |]; try discriminate Hcalls.
  destruct (member "model_digest" receipt) as [| | |d| |]; try discriminate Hdigest.
  destruct (member "receipt_sha256" receipt) as [| | |h| |]; try discriminate Hhash.
  destruct (member "path" sel) as [| | |path| |]; try discriminate Hp.
  destruct (member "line" sel) as [| |l| | |]; try discriminate Hl.
  destruct (member "excerpt" sel) as [| | |e| |]; try discriminate He.
  cbn [int_that str_that] in *. apply andb_prop in Hcalls as [C1%Z.leb_le C2%Z.leb_le]. apply andb_prop in Hdigest as [_ Hd].
  apply String.eqb_eq in Hhash. apply bool_decide_eq_true in Hp. apply andb_prop in Hl as [L1%Z.leb_le L2%Z.leb_le].
  apply andb_prop in He as [E1%Z.leb_le E2%Z.leb_le].
  split; cbn [BoundIssueRAG.issue BoundIssueRAG.base_sha BoundIssueRAG.request_id BoundIssueRAG.correlation_id
    BoundIssueRAG.receipt_sha256 BoundIssueRAG.source_path BoundIssueRAG.line BoundIssueRAG.excerpt BoundIssueRAG.url
    BoundIssueRAG.model_digest BoundIssueRAG.model_calls str_value int_value]; done.
Qed.

Section Evidence.
Context {py : Language}.
(** The bytes are the cited source and hold the excerpt at its line. *)
Definition is_cited (c : BoundIssueRAG.t) (raw : string) : Prop :=
  0 < length_of raw ≤ MAX_BYTES ∧ sha256_hex raw = BoundIssueRAG.source_sha256 c ∧ blob_sha1 raw = BoundIssueRAG.source_blob_sha c ∧
  ∃ text, utf8_decode raw = Ok text ∧ excerpt_at (splitlines text) (BoundIssueRAG.line c) = Some (BoundIssueRAG.excerpt c).
Lemma checked_source_cited c size raw u : checked_source c size raw = Ok u → ∃ bytes, raw = Some bytes ∧ is_cited c bytes.
Proof.
  destruct raw as [raw|]; [|done]. cbn [checked_source]. intros H. exists raw. split; [done|].
  apply res_bind_ok in H as (? & Hl%require_true & H). apply res_bind_ok in H as (? & Hd%require_true & H).
  apply res_bind_ok in H as (text & Ht & He%require_true). rewrite !andb_true_iff in Hl. rewrite !andb_true_iff in Hd.
  destruct Hl as [L1%Z.ltb_lt L2%Z.leb_le], Hd as [[D1%String.eqb_eq D2%String.eqb_eq] _].
  apply bool_decide_eq_true in He. split; [done|]. split; [done|]. split; [done|]. exists text. split; [|done].
  unfold unicode_or in Ht. by destruct (utf8_decode raw).
Qed.

(** C32: whatever the reader answers, binding a receipt to an issue reads a
    source at most once, after the receipt has passed, at the issue's base and
    at the cited path; and a citation that is returned is that of a receipt of
    this very issue whose hash is its canonical text's, from an allowed
    document, by the pinned model, and the bytes that were read are those of
    its SHA-256 and its Git blob and hold its excerpt at its line. *)
Theorem citation_is_verified (b : IssueBinding.t) (receipt : json) (t : list (event (answer:=answer))) (x : res BoundIssueRAG.t)
    (Hruns : runs (bind_issue_rag b receipt) t x) :
  (t = [] ∧ ∃ e, x = Raise e) ∨
  ∃ c read, attested b receipt c ∧ t = [ev (independent_read (BoundIssueRAG.source_path c) (IssueBinding.base_sha b)) read] ∧
    ∀ c', x = Ok c' → c' = c ∧ ∃ raw, read = Ok (Some raw) ∧ is_cited c raw.
Proof.
  apply runs_bind in Hruns as [(e & H & ->)|([c size] & t1 & t2 & H1 & H2 & ->)].
  { apply runs_of_res in H as [-> _]. left. eauto. }
  apply runs_of_res in H1 as [-> Hc]. symmetry in Hc. right. apply checked_receipt_attests in Hc as Ha.
  apply runs_inv in H2 as (read & t3 & -> & H3). exists c, read. split; [exact Ha|].
  destruct read as [raw|e]; cbn in H3.
  - apply runs_bind in H3 as [(e & H & ->)|(u & ? & ? & H & Hr & ->)].
    + apply runs_of_res in H as [-> _]. by split.
    + apply runs_of_res in H as [-> Hs]. apply runs_inv in Hr as [-> ->]. split; [done|]. intros c' [= <-]. split; [done|].
      symmetry in Hs. apply checked_source_cited in Hs as (bytes & -> & Hs). by exists bytes.
  - apply runs_inv in H3 as [-> ->]. by split.
Qed.
End Evidence.
Lemma citation_is_verified_witness :
  rag_run.2.1 = Ok bound_citation ∧
  ((rag_run.1 = [] ∧ ∃ e, rag_run.2.1 = Raise e) ∨
   ∃ c read, attested issue_binding rag_receipt c ∧
     rag_run.1 = [ev (independent_read (BoundIssueRAG.source_path c) (IssueBinding.base_sha issue_binding)) read] ∧
     ∀ c', rag_run.2.1 = Ok c' → c' = c ∧ ∃ raw, read = Ok (Some raw) ∧ is_cited c raw).
Proof.
  split; [vm_compute; reflexivity|].
  apply (citation_is_verified issue_binding rag_receipt rag_run.1 rag_run.2.1).
  exact (execute_runs rag_reader (bind_issue_rag issue_binding rag_receipt) tt).
Defined.

(** The receipt's sources are tested for membership in a set of paths before
    their types are: a source whose path is a list escapes the closed errors. *)
Lemma unhashable_path_escapes b s l path :
  member "path" s = JList path → all_allowed b (s :: l) = Raise (TypeError "unhashable type").
Proof. intros H. cbn [all_allowed]. by rewrite H. Qed.
