(* ===== verification/IssueAdapter.v ===== *)
(** The adapter of one approved issue profile, [app/issue_native_adapter.py]:
    its fixed commands, as programs over the code worker, the reader of cited
    sources, the attributes of the model and the regression runner; and its
    Builder and Validator, as scripts of [OneShot].

    The local actions of a script answer with JSON: the state of the file with
    three booleans, and bytes as a text. *)
From Stdlib Require Import Ascii String.
From stdpp Require Import strings list.
From S2P Require Import Prelude Prog PyStr Sha256 Clock Json PyVal PyText PyAst IsoDate Names Structured Repair IssueDraft RagHandoff.
From S2P Require Manifest OneShot.

Local Open Scope string_scope.
Local Open Scope Z_scope.
Local Open Scope list_scope.

Definition DESCRIPTOR : Manifest.AdapterDescriptor.t :=
  Manifest.AdapterDescriptor.mk PROFILE [PATH] ["issue.repair"] ["issue.validate"] ["builder"; "validator"].
Definition CONTRACT : string := match Manifest.contract_sha256 DESCRIPTOR with Ok s => s | Raise _ => "" end.
Example descriptor_is_normal : match Manifest.contract_sha256 DESCRIPTOR with Ok s => fullmatch HEX64 s | Raise _ => false end = true.
Proof. vm_compute. reflexivity. Qed.

(** ** The adapter *)

Module IssueAdapter.
Record t := mk {
  binding : IssueBinding.t; task_id : string; before : string; require_native_model : bool; rag_receipt : option json }.
End IssueAdapter.
(** [__init__]: whether the proposer is the native model, and the opt-in. *)
Definition make_adapter (a : IssueAdapter.t) (native_model : bool) : res IssueAdapter.t :=
  require (starts_with "cwp-" (IssueAdapter.task_id a) && (len (IssueAdapter.task_id a) =? 28)%nat &&
           (0 <? length_of (IssueAdapter.before a)) && (length_of (IssueAdapter.before a) <=? 262144))
    "issue_native_identity_invalid" ;;
  require (negb (IssueAdapter.require_native_model a) || native_model) "issue_native_model_required" ;;
  require (match IssueAdapter.rag_receipt a with
           | None => true
           | Some r => is_dict r && IssueAdapter.require_native_model a
           end) "issue_rag_opt_in_invalid" ;;
  Ok a.

(** ** The commands *)

Inductive op : Type :=
  | worker (o : Repair.op)
  | source_reader (o : RagHandoff.op)
  (* the attributes of the model *)
  | context_is_none
  | set_context (c : option BoundIssueRAG.t)
  | process_verified
  | model_digest
  | regression_runner.
Definition answer (o : op) : Type :=
  match o with
  | worker o => Repair.answer o
  | source_reader o => RagHandoff.answer o
  | context_is_none => bool
  | process_verified | model_digest | regression_runner => json
  | set_context _ => unit
  end.
Abbreviation P := (prog answer).
Definition demand (c : bool) (reason : string) : P unit := of_res (require c reason).
Fixpoint on_worker {A} (m : prog Repair.answer A) : P A :=
  match m with
  | Ret a => Ret a
  | Throw e => Throw e
  | Do o k => Do (worker o) (fun r : res (Repair.answer o) => on_worker (k r))
  end.
Fixpoint on_reader {A} (m : prog RagHandoff.answer A) : P A :=
  match m with
  | Ret a => Ret a
  | Throw e => Throw e
  | Do o k => Do (source_reader o) (fun r : res (RagHandoff.answer o) => on_reader (k r))
  end.

Section Commands.
Context {py : Language} (a : IssueAdapter.t).
Let binding := IssueAdapter.binding a.
Let base := IssueBinding.base_sha binding.

(** [result.get("validation", {}).get(k) == n] *)
Definition validation_is (k : string) (n : Z) (result : json) : res bool :=
  v ← get_or "validation" (JObj []) result; x ← get k v; Ok (py_eqb x (JInt n)).
Definition repair_proved (result : json) : res bool :=
  (Ok (text_is "result" "STRUCTURED_CODE_REPAIRED" result && text_is "base_sha" base result &&
       negb (text_is "produced_sha" base result) && text_is "path" PATH result && text_is "function" FUNCTION result) &&&
   validation_is "passed" 42 result &&& validation_is "errors" 0 result &&&
   Ok (int_that (fun n => (n =? 1) || (n =? 2)) (member "model_calls" result)))%py.
(** The context of the model for the repair, when the adapter has a receipt. *)
Definition enter_context : P (option BoundIssueRAG.t) :=
  match IssueAdapter.rag_receipt a with
  | None => mret None
  | Some receipt =>
      c ← on_reader (bind_issue_rag binding receipt);
      none ← call context_is_none;
      demand none "issue_rag_context_leak" ;;
      call (set_context (Some c)) ;;
      mret (Some c)
  end.
Definition leave_context (c : option BoundIssueRAG.t) : P unit :=
  match c with Some _ => call (set_context None) | None => mret tt end.
Definition repair_exactly_one : P json :=
  task ← of_res (trusted_task binding (IssueAdapter.before a));
  bytes ← call (worker (read_bytes PATH));
  demand (String.eqb bytes (IssueAdapter.before a)) "issue_native_base_content_drift" ;;
  text ← of_res (utf8_decode (IssueAdapter.before a));
  original ← on_worker (validate text task);
  demand ((Report.total original =? 42) && (Report.passed original <? 42)) "issue_native_no_failing_baseline" ;;
  context ← enter_context;
  result ← finally (on_worker (repair task)) (leave_context context);
  proved ← of_res (repair_proved result);
  demand proved "issue_native_repair_not_proved" ;;
  (if IssueAdapter.require_native_model a then
     verified ← call process_verified;
     demand (is_true verified) "issue_native_model_not_attested" ;;
     digest ← call model_digest;
     demand (str_that (starts_with MODEL_DIGEST_PREFIX) digest) "issue_native_model_not_attested" ;;
     match context with
     | Some c => demand (is_text digest (BoundIssueRAG.model_digest c)) "issue_rag_model_digest_drift"
     | None => mret tt
     end
   else mret tt) ;;
  mret result.

Definition regressions_proved (regressions : json) : bool :=
  is_dict regressions && py_eqb (member "exit_code" regressions) (JInt 0) && text_is "category" "passed" regressions &&
  is_true (member "output_within_limit" regressions) && int_that (fun n => 52 <=? n) (member "passed_count" regressions) &&
  py_eqb (member "failed_count" regressions) (JInt 0) && py_eqb (member "error_count" regressions) (JInt 0).
Definition independently_validate : P json :=
  source ← call (worker (read_bytes PATH));
  task ← of_res (trusted_task binding (IssueAdapter.before a));
  text ← of_res (utf8_decode source);
  function ← of_res (extracted text trusted_function);
  original ← of_res (utf8_decode (IssueAdapter.before a));
  reconstructed ← of_res (render original task (JStr (json_dumps_text (JObj [("function", JStr function)]))));
  demand (String.eqb (utf8_encode reconstructed) source) "issue_native_scope_changed" ;;
  report ← on_worker (validate text task);
  demand (py_eqb (Report.raw report) full_report) "issue_native_validation_failed" ;;
  regressions ← call regression_runner;
  demand (regressions_proved regressions) "issue_native_regressions_unproved" ;;
  mret (JObj [("source_sha256", JStr (sha256_hex source)); ("case_total", JInt 42);
              ("regressions_passed", member "passed_count" regressions)]).
Definition commands : list (string * P json) := [("issue.repair", repair_exactly_one); ("issue.validate", independently_validate)].

(** ** Builder and Validator *)


Import OneShot.
Definition guard (c : bool) (reason : string) (k : Script) : Script := if c then k else s_raise (handoff reason).
Definition on_answer (r : res json) (k : json → Script) : Script := match r with Ok v => k v | Raise e => s_raise e end.
(** [_manifest] *)
Definition manifest_trusted (m : Manifest.TaskManifest.t) : bool :=
  String.eqb (Manifest.TaskManifest.repository m) REPO && String.eqb (Manifest.TaskManifest.task_id m) (IssueAdapter.task_id a) &&
  String.eqb (Manifest.TaskManifest.base_sha m) base && String.eqb (Manifest.TaskManifest.adapter_id m) PROFILE &&
  String.eqb (Manifest.TaskManifest.adapter_contract_sha256 m) CONTRACT &&
  same_set (keys (Manifest.TaskManifest.before_sha256 m)) [PATH].
Definition before_is (m : Manifest.TaskManifest.t) (digest : string) : bool :=
  bool_decide (lookup_key PATH (Manifest.TaskManifest.before_sha256 m) = Some digest).
(** [_workspace_file] *)
Definition workspace_file (k : string → Script) : Script :=
  s_local "workspace_file_state" (fun r => on_answer r (fun v =>
    guard (match v with JList [JBool is_file; JBool is_symlink; JBool inside] => is_file && negb is_symlink && inside | _ => false end)
      "issue_native_file_invalid"
      (s_local "workspace_file_bytes" (fun r => on_answer r (fun v =>
         guard (str_that (fun s => (0 <? length_of s) && (length_of s <=? 262144)) v) "issue_native_file_invalid"
           (k (str_value v))))))).
(** The reader of sources as a local action. *)
Definition read_action (o : RagHandoff.op) : string :=
  let 'independent_read path sha := o in concat_text ["independent_read "; path; " "; sha].
Definition bytes_of (r : res json) : res (option string) :=
  match r with Ok (JStr s) => Ok (Some s) | Ok _ => Ok None | Raise e => Raise e end.
Fixpoint by_action {A} (m : prog RagHandoff.answer A) (k : A → Script) : Script :=
  match m with
  | Ret x => k x
  | Throw e => s_raise e
  | Do o f => s_local (read_action o) (fun r => by_action (f (bytes_of r)) k)
  end.

Definition adapter_build (m : Manifest.TaskManifest.t) : Script :=
  guard (manifest_trusted m) "issue_native_manifest_untrusted"
    (guard (String.eqb (Manifest.TaskManifest.workspace_sha m) base && before_is m (sha256_hex (IssueAdapter.before a)))
       "issue_native_builder_base_drift"
       (workspace_file (fun bytes => guard (String.eqb bytes (IssueAdapter.before a)) "issue_native_builder_base_drift"
         (s_invoke "issue.repair" (fun r => on_answer r (fun evidence =>
            guard (is_dict evidence && is_str (member "produced_sha" evidence) &&
                   str_that (fun s => (len s =? 64)%nat) (member "patch_sha256" evidence)) "issue_native_builder_receipt_invalid"
              (s_return (adapter_result (Manifest.AdapterResult.mk (str_value (member "produced_sha" evidence)) [PATH]
                ["issue.repair"] (str_value (member "patch_sha256" evidence))))))))))).
Definition adapter_validate (m : Manifest.TaskManifest.t) (produced_sha : string) : Script :=
  guard (manifest_trusted m) "issue_native_manifest_untrusted"
    (guard (String.eqb (Manifest.TaskManifest.workspace_sha m) produced_sha && negb (String.eqb produced_sha base))
       "issue_native_validator_source_drift"
       (workspace_file (fun bytes => guard (before_is m (sha256_hex bytes)) "issue_native_validator_source_drift"
         (let rest := s_invoke "issue.validate" (fun r => on_answer r (fun observed =>
            guard (is_dict observed && py_eqb (member "case_total" observed) (JInt 42) && is_str (member "source_sha256" observed))
              "issue_native_validator_receipt_invalid"
              (s_return (adapter_result (Manifest.AdapterResult.mk produced_sha [PATH] ["issue.validate"]
                (Manifest.digest (JObj [("produced_sha", JStr produced_sha); ("validation", observed)]))))))) in
          match IssueAdapter.rag_receipt a with
          | Some receipt => by_action (bind_issue_rag binding receipt) (fun _ => rest)
          | None => rest
          end)))).
Definition issue_adapter : Adapter := mkAdapter DESCRIPTOR adapter_build adapter_validate.
End Commands.
