(* ===== verification/IssueAdapterProps.v ===== *)
(** Properties of the issue adapter's commands: the model's context during a
    repair, and the acceptance that the Validator repeats. *)
From Stdlib Require Import Ascii String.
From S2P Require Import Prelude Prog PyStr Sha256 Clock Json PyVal PyText PyAst IsoDate Names Structured Repair RepairProps IssueDraft.
From S2P Require Import IssueScenario RagHandoff IssueAdapter RagHandoffProps.
From S2P Require IssueSpec.
From stdpp Require Import strings list.

Local Open Scope string_scope.
Local Open Scope Z_scope.
Local Open Scope list_scope.


Definition says_true (r : res bool) : bool := match r with Ok b => b | Raise _ => false end.

Section Lifting.
Context {S : Type} (allowed : S → op → bool) (next : S → ∀ o, res (answer o) → S).

Lemma safe_on_worker {A} (m : prog Repair.answer A) g (Q : res A → S → Prop) :
  Prog.safe (fun g o => allowed g (worker o)) (fun g o r => next g (worker o) r) m g Q → Prog.safe allowed next (on_worker m) g Q.
Proof. revert g. induction m as [a|e|o k IH]; intros g; cbn; [done..|]. intros [Ha Hk]. split; [done|]. intros r. apply IH, Hk. Qed.
Lemma safe_on_reader {A} (m : prog RagHandoff.answer A) g (Q : res A → S → Prop) :
  Prog.safe (fun g o => allowed g (source_reader o)) (fun g o r => next g (source_reader o) r) m g Q →
  Prog.safe allowed next (on_reader m) g Q.
Proof. revert g. induction m as [a|e|o k IH]; intros g; cbn; [done..|]. intros [Ha Hk]. split; [done|]. intros r. apply IH, Hk. Qed.
(** Whatever the code worker does where it may do anything. *)
Lemma safe_any_worker {A} (m : prog Repair.answer A) g (Q : res A → S → Prop) :
  (∀ o, allowed g (worker o) = true ∧ ∀ r, next g (worker o) r = g) → (∀ x, Q x g) → Prog.safe allowed next (on_worker m) g Q.
Proof.
  intros Ha HQ. apply safe_on_worker. induction m as [a|e|o k IH]; cbn; [apply HQ..|]. destruct (Ha o) as [Ho Hn].
  split; [exact Ho|]. intros r. rewrite Hn. apply IH.
Qed.
Lemma safe_required c reason g (Q : res unit → S → Prop) :
  (c = true → Q (Ok tt) g) → (∀ e, Q (Raise e) g) → Prog.safe allowed next (demand c reason) g Q.
Proof. intros H1 H2. apply safe_of_res. destruct c; [by apply H1|apply H2]. Qed.
Lemma safe_result {A} (r : res A) g (Q : res A → S → Prop) :
  (∀ v, r = Ok v → Q (Ok v) g) → (∀ e, Q (Raise e) g) → Prog.safe allowed next (of_res r) g Q.
Proof. intros H1 H2. apply safe_of_res. destruct r; [by apply H1|apply H2]. Qed.
(** A validation that leaves the monitor where it is. *)
Lemma safe_baseline {py : Language} source task g (Q : res Report.t → S → Prop) :
  (∀ p, allowed g (worker (run_child p)) = true ∧ ∀ r, next g (worker (run_child p)) r = g) → (∀ x, Q x g) →
  Prog.safe allowed next (on_worker (validate source task)) g Q.
Proof.
  intros Ha HQ. apply safe_on_worker. destruct (task_spec task) as [t|e] eqn:Et; last first.
  { unfold validate. rewrite Et. apply safe_bind, safe_of_res, HQ. }
  apply (validate_spec task t _ _ source g Q Et); [intros p; apply Ha| |].
  - intros e g' [->|(p & r & ->)]; [apply HQ|]. destruct (Ha p) as [_ ->]. apply HQ.
  - intros r p out _ _. destruct (Ha p) as [_ ->]. apply HQ.
Qed.
End Lifting.

(** ** The context of the model *)

Record Held := mkHeld {
  checked : option BoundIssueRAG.t;      (** the citation that the last read confirmed *)
  free : bool;                           (** the model had no context *)
  held : option BoundIssueRAG.t;         (** the context given here *)
  stuck : bool;                          (** taking it back failed *)
  verified : option json; digest : option json }.
#[export] Instance Held_eta : Eta Held := fun g => mkHeld (checked g) (free g) (held g) (stuck g) (verified g) (digest g).
Definition untouched : Held := mkHeld None false None false None None.

Section Context_.
Context {py : Language} (a : IssueAdapter.t).
Let binding := IssueAdapter.binding a.

(** What a read of the receipt's source confirms. *)
Definition confirmed (path sha : string) (r : res (option string)) : option BoundIssueRAG.t :=
  receipt ← IssueAdapter.rag_receipt a; c ← ok_value (checked_receipt binding receipt); raw ← ok_value r;
  _ ← ok_value (checked_source c.1 c.2 raw);
  if String.eqb path (BoundIssueRAG.source_path c.1) && String.eqb sha (IssueBinding.base_sha binding) then Some c.1 else None.
Definition may_act (g : Held) : bool :=
  match IssueAdapter.rag_receipt a, held g with None, _ | _, Some _ => true | _, _ => false end.
Definition allowed (g : Held) (o : op) : bool :=
  match o with
  | worker (run_child _) | worker (read_bytes _) => true
  | worker _ => may_act g
  | source_reader _ => bool_decide (held g = None)
  | context_is_none => bool_decide (checked g ≠ None)
  | set_context (Some c) => bool_decide (checked g = Some c) && free g && bool_decide (held g = None)
  | set_context None => bool_decide (held g ≠ None)
  | process_verified | model_digest => bool_decide (held g = None)
  | regression_runner => false
  end.
Definition next (g : Held) (o : op) : res (answer o) → Held :=
  match o with
  | source_reader (independent_read path sha) => fun r => g <| checked := confirmed path sha r |>
  | context_is_none => fun r => g <| free := says_true r |>
  | set_context (Some c) => fun r => match r with Ok _ => g <| held := Some c |> | Raise _ => g end
  | set_context None => fun r => match r with Ok _ => g <| held := None |> | Raise _ => g <| stuck := true |> end
  | process_verified => fun r => g <| verified := ok_value r |>
  | model_digest => fun r => g <| digest := ok_value r |>
  | _ => fun _ => g
  end.
Abbreviation safe := (Prog.safe allowed next).
(** The model of a proved repair. *)
Definition model_identified (g : Held) : Prop :=
  IssueAdapter.require_native_model a = true →
  verified g = Some (JBool true) ∧ ∃ s, digest g = Some (JStr s) ∧ starts_with MODEL_DIGEST_PREFIX s = true ∧
    (IssueAdapter.rag_receipt a ≠ None → ∃ c, checked g = Some c ∧ s = BoundIssueRAG.model_digest c).
Definition ended (x : res json) (g : Held) : Prop :=
  (held g = None ∨ stuck g = true) ∧ ∀ v, x = Ok v → held g = None ∧ repair_proved a v = Ok true ∧ model_identified g.
Lemma ended_raise e g : held g = None ∨ stuck g = true → ended (Raise e) g.
Proof. by split. Qed.

Lemma safe_enter g (Q : res (option BoundIssueRAG.t) → Held → Prop) :
  held g = None → (∀ e g', held g' = None → Q (Raise e) g') →
  (IssueAdapter.rag_receipt a = None → Q (Ok None) g) →
  (∀ c g', IssueAdapter.rag_receipt a ≠ None → checked g' = Some c → held g' = Some c → Q (Ok (Some c)) g') →
  safe (enter_context a) g Q.
Proof.
  intros Hg HE HN HQ. unfold enter_context. destruct (IssueAdapter.rag_receipt a) as [receipt|] eqn:Er; [|by apply HN].
  apply safe_bind, safe_on_reader, safe_bind, safe_of_res. fold binding.
  destruct (checked_receipt binding receipt) as [[c size]|e] eqn:Ec; [|by apply HE].
  apply safe_bind, safe_catch. apply (Prog.safe_call (answer:=RagHandoff.answer)); [by apply bool_decide_eq_true|].
  intros [raw|e]; [|by apply HE]. apply safe_bind, safe_of_res. destruct (checked_source c size raw) as [[]|e] eqn:Es; [|by apply HE].
  assert (confirmed (BoundIssueRAG.source_path c) (IssueBinding.base_sha binding) (Ok raw) = Some c) as Hc.
  { unfold confirmed. rewrite Er. cbn [mbind option_bind]. rewrite Ec. cbn [mbind option_bind ok_value fst snd]. rewrite Es.
    cbn [mbind option_bind ok_value]. by rewrite !String.eqb_refl. }
  apply safe_ret. cbn [next]. rewrite Hc. apply safe_bind, (Prog.safe_call (answer:=answer)); [done|].
  intros [none|e]; cbn [next]; [|by apply HE]. apply safe_bind, safe_required; [|intros; by apply HE].
  intros ->. apply safe_bind, (Prog.safe_call (answer:=answer)).
  { cbn. rewrite Hg, !bool_decide_eq_true_2 by done. done. }
  intros [[]|e]; cbn [next]; [|by apply HE]. by apply safe_ret, HQ.
Qed.
(** The end of a proved repair: the model's identity. *)
Lemma safe_identity result context g :
  held g = None → repair_proved a result = Ok true →
  match context with Some c => checked g = Some c | None => IssueAdapter.rag_receipt a = None end →
  safe ((if IssueAdapter.require_native_model a then
           verified ← call process_verified;
           demand (is_true verified) "issue_native_model_not_attested" ;;
           digest ← call model_digest;
           demand (str_that (starts_with MODEL_DIGEST_PREFIX) digest) "issue_native_model_not_attested" ;;
           match context with
           | Some c => demand (is_text digest (BoundIssueRAG.model_digest c)) "issue_rag_model_digest_drift"
           | None => mret tt
           end
         else mret tt) ;; mret result) g ended.
Proof.
  intros Hg Hp Hc. assert (∀ e g', held g' = None → ended (Raise e) g') as HE by (intros; apply ended_raise; by left).
  destruct (IssueAdapter.require_native_model a) eqn:En; last first.
  { apply safe_bind, safe_ret, safe_ret. split; [by left|]. intros v [= <-]. split; [done|]. split; [done|].
    unfold model_identified. by rewrite En. }
  do 2 apply safe_bind. apply (Prog.safe_call (answer:=answer)); [by apply bool_decide_eq_true|].
  intros [v|e]; cbn [next]; [|by apply HE]. apply safe_bind, safe_required; [intros Hv|intros; by apply HE].
  apply safe_bind, (Prog.safe_call (answer:=answer)); [by apply bool_decide_eq_true|].
  intros [d|e]; cbn [next]; [|by apply HE]. apply safe_bind, safe_required; [intros Hd|intros; by apply HE].
  assert (∃ s, d = JStr s ∧ starts_with MODEL_DIGEST_PREFIX s = true) as (s & -> & Hs) by (destruct d; try done; by eexists).
  assert (v = JBool true) as -> by (by destruct v as [|[]| | | |]).
  destruct context as [c|]; [apply safe_required; [intros Hm%String.eqb_eq|intros; by apply HE]|apply safe_ret];
    apply safe_ret; (split; [by left|]); intros w [= <-]; (split; [done|]); (split; [done|]); intros _; (split; [done|]); exists s;
    (split; [done|]); (split; [done|]); intros H; [by exists c|by rewrite Hc in H].
Qed.
Lemma safe_repair_command : safe (repair_exactly_one a) untouched ended.
Proof.
  unfold repair_exactly_one. assert (∀ e g, held g = None → ended (Raise e) g) as HE by (intros; apply ended_raise; by left).
  apply safe_bind, safe_result; [|intros; by apply HE]. intros task _.
  apply safe_bind, (Prog.safe_call (answer:=answer)); [done|]. intros [bytes|e]; cbn [next]; [|by apply HE].
  apply safe_bind, safe_required; [intros _|intros; by apply HE]. apply safe_bind, safe_result; [|intros; by apply HE]. intros text _.
  apply safe_bind, safe_baseline; [done|]. intros [original|e]; [|by apply HE].
  apply safe_bind, safe_required; [intros _|intros; by apply HE].
  assert (∀ context g, held g = None →
    match context with Some c => checked g = Some c | None => IssueAdapter.rag_receipt a = None end →
    ∀ result, safe (proved ← of_res (repair_proved a result); demand proved "issue_native_repair_not_proved" ;;
      (if IssueAdapter.require_native_model a then
         verified ← call process_verified;
         demand (is_true verified) "issue_native_model_not_attested" ;;
         digest ← call model_digest;
         demand (str_that (starts_with MODEL_DIGEST_PREFIX) digest) "issue_native_model_not_attested" ;;
         match context with
         | Some c => demand (is_text digest (BoundIssueRAG.model_digest c)) "issue_rag_model_digest_drift"
         | None => mret tt
         end
       else mret tt) ;; mret result) g ended) as Hrest.
  { intros context g Hg Hc result. apply safe_bind, safe_result; [|intros; by apply HE]. intros proved Hp.
    apply safe_bind, safe_required; [|intros; by apply HE]. intros ->. by apply safe_identity. }
  apply safe_bind, safe_enter; [done|intros; by apply HE|..].
  - intros Er. apply safe_bind, safe_finally, safe_any_worker.
    { intros []; cbn; unfold may_act; rewrite ?Er; done. }
    intros x. apply safe_ret. destruct x as [result|e]; [|by apply HE]. by apply (Hrest None).
  - intros c g Hr Hc Hg. apply safe_bind, safe_finally, safe_any_worker.
    { intros []; cbn; unfold may_act; rewrite ?Hg; by destruct (IssueAdapter.rag_receipt a). }
    intros x. apply (Prog.safe_call (answer:=answer)); [cbn; by rewrite Hg|].
    intros [[]|e]; cbn [next]; [|apply ended_raise; by right].
    destruct x as [result|e]; [|by apply HE]. by apply (Hrest (Some c)).
Qed.
End Context_.

(** ** The Validator's acceptance *)

Record Val := mkVal { read : option string; child : option (string * Report.t); regressions : option json }.
#[export] Instance Val_eta : Eta Val := fun g => mkVal (read g) (child g) (regressions g).
Definition nothing_read : Val := mkVal None None None.

Section Validator.
Context {py : Language} (a : IssueAdapter.t).
Let before := IssueAdapter.before a.
Let parsed := IssueSpec.parsed_task (IssueAdapter.binding a) before.

Definition val_allowed (g : Val) (o : op) : bool :=
  match o with
  | worker (read_bytes p) => String.eqb p PATH
  | worker (run_child _) => bool_decide (read g ≠ None)
  | regression_runner => match child g with Some (_, r) => py_eqb (Report.raw r) full_report | None => false end
  | _ => false
  end.
Definition val_next (g : Val) (o : op) : res (answer o) → Val :=
  match o with
  | worker (read_bytes _) => fun r => g <| read := ok_value r |>
  | worker (run_child p) => fun r => g <| child := t ← snd <$> parsed; out ← ok_value r; pair p <$> reported t out |>
  | regression_runner => fun r => g <| regressions := ok_value r |>
  | _ => fun _ => g
  end.
Abbreviation safe := (Prog.safe val_allowed val_next).

(** The source on disk is the original with the one function replaced, its
    cases pass in a child process, and so do the regressions. *)
Definition accepted (g : Val) (v : json) : Prop :=
  ∃ source text original function candidate task t p report observed,
    read g = Some source ∧ utf8_decode source = Ok text ∧ utf8_decode before = Ok original ∧ parsed = Some (task, t) ∧
    extracted text trusted_function = Ok function ∧
    render original task (JStr (json_dumps_text (JObj [("function", JStr function)]))) = Ok candidate ∧
    utf8_encode candidate = source ∧ child g = Some (p, report) ∧ payload_of task t text = Some p ∧
    py_eqb (Report.raw report) full_report = true ∧ regressions g = Some observed ∧ regressions_proved observed = true ∧
    v = JObj [("source_sha256", JStr (sha256_hex source)); ("case_total", JInt 42);
              ("regressions_passed", member "passed_count" observed)].
Lemma safe_validate_command : safe (independently_validate a) nothing_read (on_ok (fun v g => accepted g v)).
Proof.
  unfold independently_validate. apply ok_bind, (Prog.ok_call (answer:=answer)); [done|]. intros source.
  apply ok_bind, ok_of_res. intros task Htask. apply ok_bind, ok_of_res. intros text Htext.
  apply ok_bind, ok_of_res. intros function Hf. apply ok_bind, ok_of_res. intros original Ho.
  apply ok_bind, ok_of_res. intros candidate Hc. apply ok_bind, ok_of_res. intros [] He.
  assert (utf8_encode candidate = source) as He' by (destruct (String.eqb_spec (utf8_encode candidate) source); done).
  assert (∃ t, task_spec task = Ok t) as [t Et].
  { unfold render in Hc. destruct (task_spec task) as [t|e]; [by exists t|done]. }
  assert (parsed = Some (task, t)) as Hp by (unfold parsed, IssueSpec.parsed_task, before; by rewrite Htask, Et).
  apply ok_bind, safe_on_worker, (validate_spec task t _ _ text _ _ Et); [done|done|].
  intros report p out Hpay Hrep. cbn [on_ok].
  assert (child (val_next (val_next nothing_read (worker (read_bytes PATH)) (Ok source)) (worker (run_child p)) (Ok out)) = Some (p, report)) as Hchild.
  { cbn [val_next]. rewrite Hp. cbn. by rewrite Hrep. }
  set (g := val_next _ (worker (run_child p)) (Ok out)) in *.
  assert (read g = Some source) as Hread by done. clearbody g.
  apply ok_bind, ok_of_res. intros [] Hr. assert (py_eqb (Report.raw report) full_report = true) as Hfull by by destruct (py_eqb _ _).
  apply ok_bind, (Prog.ok_call (answer:=answer)); [cbn; by rewrite Hchild|]. intros observed.
  apply ok_bind, ok_of_res. intros [] Hreg. assert (regressions_proved observed = true) as Hreg' by by destruct (regressions_proved observed).
  cbn [on_ok]. exists source, text, original, function, candidate, task, t, p, report, observed. by repeat split.
Qed.
End Validator.

(** ** A run on a copy *)

Definition issue_copy : Type := string * bool * option BoundIssueRAG.t.
Definition issue_git (args : list string) (committed : bool) : string :=
  match args with
  | "rev-parse" :: _ => if committed then issue_produced else issue_base
  | "branch" :: _ => "worker/issue-7"
  | "diff" :: "--check" :: _ | "diff" :: "--" :: _ => ""
  | "diff" :: _ => PATH
  | _ => ""
  end.
Definition issue_worker (o : Repair.op) (e : string * bool) : res (Repair.answer o) * (string * bool) :=
  match o return res (Repair.answer o) * (string * bool) with
  | run_child payload => (Ok (0, json_dumps (if contains "return 2" payload then full_report else failing_42)), e)
  | propose _ _ => (Ok (JStr (json_dumps_text p_reply)), e)
  | git args => (Ok (0, issue_git args e.2), match args with "-c" :: _ => (e.1, true) | _ => e end)
  | resolve_roots => (Ok (Roots.mk false false "/copy" "/state"), e)
  | config_stat => (Ok (GitConfig.mk true false true false 64), e)
  | read_config => (Ok [("core", [("bare", "false")])], e)
  | hooks_stat => (Ok (GitHooks.mk false false [] false), e)
  | target_stat _ => (Ok (TargetStat.mk true false true false true false 1 true), e)
  | read_bytes _ | read_text _ => (Ok e.1, e)
  | write_text _ text => (Ok tt, (text, e.2))
  | receipt_exists _ => (Ok false, e)
  | read_receipt _ => (Ok JNull, e)
  | read_patch => (Ok "", e)
  | make_state | lock _ | unlock _ | replace_receipt _ _ | write_patch _ => (Ok tt, e)
  end.
Definition passing_run : json :=
  JObj [("exit_code", JInt 0); ("category", JStr "passed"); ("output_within_limit", JBool true); ("passed_count", JInt 60);
        ("failed_count", JInt 0); ("error_count", JInt 0)].
Definition issue_world (o : op) (e : issue_copy) : res (answer o) * issue_copy :=
  match o return res (answer o) * issue_copy with
  | worker o => let '(r, f) := issue_worker o e.1 in (r, (f, e.2))
  | source_reader o => (fst (rag_reader o tt), e)
  | context_is_none => (Ok (match e.2 with None => true | Some _ => false end), e)
  | set_context c => (Ok tt, (e.1, c))
  | process_verified => (Ok (JBool true), e)
  | model_digest => (Ok (JStr issue_digest), e)
  | regression_runner => (Ok passing_run, e)
  end.
Definition issue_agent : IssueAdapter.t := IssueAdapter.mk issue_binding issue_task (p_source 1) true (Some rag_receipt).
Definition repair_run := Prog.execute issue_world (repair_exactly_one issue_agent) (p_source 1, false, None).
Definition validate_run := Prog.execute issue_world (independently_validate issue_agent) (p_source 2, true, None).
Example repair_run_result :
  match repair_run.2.1 with Ok v => member "produced_sha" v | Raise _ => JNull end = JStr issue_produced ∧
  repair_run.2.2 = (p_source 2, true, None).
Proof. vm_compute. split; reflexivity. Qed.
Definition validated_value : json :=
  JObj [("source_sha256", JStr (sha256_hex (p_source 2))); ("case_total", JInt 42); ("regressions_passed", JInt 60)].
Example validate_run_result : validate_run.2.1 = Ok validated_value.
Proof. vm_compute. reflexivity. Qed.

(** ** The commands' guarantees *)

(** C34: whatever the readers, the model, git and the files answer, the
    Builder's command gives the model a context only while it has none, and
    only the citation that the one read of the receipt's source has just
    confirmed; with a receipt it asks the model, and changes the copy, only
    while the model holds it; and however the command ends, the context has
    been taken back, unless taking it back itself failed.  A result is that of
    a proved repair, 42 cases of 42, and, when the native model is required,
    of a verified process with the pinned digest, which is the citation's. *)
Theorem context_never_leaks {py : Language} (a : IssueAdapter.t) (t : list (event (answer:=answer))) (x : res json)
    (Hruns : runs (repair_exactly_one a) t x) :
  let g := reached (next a) untouched t in
  accepts (allowed a) (next a) untouched t = true ∧ (held g = None ∨ stuck g = true) ∧
  ∀ v, x = Ok v → held g = None ∧ repair_proved a v = Ok true ∧ model_identified a g.
Proof. destruct (safe_runs _ _ _ _ _ _ _ (safe_repair_command a) Hruns) as [Ha Hx]. split; [exact Ha|exact Hx]. Qed.
Lemma context_never_leaks_witness :
  (∃ v, repair_run.2.1 = Ok v ∧ member "produced_sha" v = JStr issue_produced) ∧
  let g := reached (next issue_agent) untouched repair_run.1 in
  accepts (allowed issue_agent) (next issue_agent) untouched repair_run.1 = true ∧ (held g = None ∨ stuck g = true) ∧
  ∀ v, repair_run.2.1 = Ok v → held g = None ∧ repair_proved issue_agent v = Ok true ∧ model_identified issue_agent g.
Proof.
  split.
  - pose proof (proj1 repair_run_result) as H. destruct repair_run.2.1 as [v|e]; [by exists v|discriminate].
  - apply (context_never_leaks issue_agent repair_run.1 repair_run.2.1). exact (execute_runs issue_world _ _).
Defined.

(** Whatever the files, the child process and the regression runner
    answer, the Validator's command only reads the one file, runs the cases
    and then, if all 42 pass, the regressions; and a result means that the
    bytes read are the original source with its one function replaced by the
    function that they hold, that a child process passed every case of that
    function, and that at least 52 regressions passed and none failed. *)
Theorem validator_repeats_acceptance {py : Language} (a : IssueAdapter.t) (t : list (event (answer:=answer))) (x : res json)
    (Hruns : runs (independently_validate a) t x) :
  accepts val_allowed (val_next a) nothing_read t = true ∧
  ∀ v, x = Ok v → accepted a (reached (val_next a) nothing_read t) v.
Proof.
  destruct (safe_runs _ _ _ _ _ _ _ (safe_validate_command a) Hruns) as [Ha Hx]. split; [exact Ha|]. intros v ->. exact Hx.
Qed.
Lemma validator_repeats_acceptance_witness :
  validate_run.2.1 = Ok validated_value ∧
  accepts val_allowed (val_next issue_agent) nothing_read validate_run.1 = true ∧
  ∀ v, validate_run.2.1 = Ok v → accepted issue_agent (reached (val_next issue_agent) nothing_read validate_run.1) v.
Proof.
  split; [exact validate_run_result|].
  apply (validator_repeats_acceptance issue_agent validate_run.1 validate_run.2.1). exact (execute_runs issue_world _ _).
Defined.
