(* ===== verification/RagReceipt.v ===== *)
(** Research receipts in the content-addressed store, [app/issue_rag_receipt_cas.py]:
    the envelope with its task binding, its publication through one client and
    its reading through another, as programs over both clients and the reader
    of cited sources; and the adapter made from a stored receipt,
    [app/issue_rag_durable_adapter.py].

    That the clients and their ports are distinct objects is not modelled:
    their calls are answered independently. *)
From Stdlib Require Import Ascii String.
From stdpp Require Import strings list.
From S2P Require Import Prelude Prog PyStr Sha256 Clock Json PyVal PyText PyAst PyBytes IsoDate Names Structured Repair IssueDraft.
From S2P Require Import Manifest PyJson Bundle Artifact.
From S2P Require Import GitHub GitHubCas.
From S2P Require Import RagHandoff IssueAdapter.

Local Open Scope string_scope.
Local Open Scope Z_scope.
Local Open Scope list_scope.

Definition KIND : string := "issue_rag_context_v1".
Definition REF_PREFIX : string := "cas+issue-rag://sha256/".
Definition MAX_RECEIPT_BYTES : Z := 32 * 1024.
Definition KEY_SUBDIR : string := "issue-rag-v1".
Definition fence_text : string → bool := fullmatch FENCE_ID.

(** ** The envelope *)

(** [_task_binding] *)
Definition manifest_bound (b : IssueBinding.t) (m : TaskManifest.t) : bool :=
  String.eqb (TaskManifest.repository m) REPO && String.eqb (TaskManifest.adapter_id m) PROFILE &&
  String.eqb (TaskManifest.adapter_contract_sha256 m) CONTRACT &&
  String.eqb (TaskManifest.base_sha m) (IssueBinding.base_sha b) &&
  String.eqb (TaskManifest.workspace_sha m) (IssueBinding.base_sha b) &&
  same_set (keys (TaskManifest.before_sha256 m)) [PATH] &&
  match lookup_key PATH (TaskManifest.before_sha256 m) with Some d => fullmatch HEX64 d | None => false end.
Definition task_binding (b : IssueBinding.t) (m : TaskManifest.t) (generation : Z) (attempt_id effect_id : string) : res json :=
  require (manifest_bound b m) "rag_cas_manifest_mismatch" ;;
  require ((1 <=? generation) && fence_text attempt_id && fence_text effect_id) "rag_cas_fence_invalid" ;;
  Ok (JObj [("task_id", JStr (TaskManifest.task_id m)); ("repository", JStr REPO);
            ("issue_number", JInt (IssueBinding.number b)); ("request_id", JStr (IssueBinding.request_id b));
            ("correlation_id", JStr (IssueBinding.correlation_id b)); ("base_sha", JStr (IssueBinding.base_sha b));
            ("adapter_id", JStr PROFILE); ("adapter_contract_sha256", JStr (TaskManifest.adapter_contract_sha256 m));
            ("before_sha256", sorted_hashes (TaskManifest.before_sha256 m)); ("lease_generation", JInt generation);
            ("attempt_id", JStr attempt_id); ("effect_id", JStr effect_id)]).
Definition source_value (c : BoundIssueRAG.t) : json :=
  JObj [("path", JStr (BoundIssueRAG.source_path c)); ("sha256", JStr (BoundIssueRAG.source_sha256 c));
        ("blob_sha", JStr (BoundIssueRAG.source_blob_sha c)); ("line", JInt (BoundIssueRAG.line c));
        ("url", JStr (BoundIssueRAG.url c))].
Definition envelope (task : json) (c : BoundIssueRAG.t) (receipt : json) : json :=
  JObj [("schema_version", JStr KIND); ("task", task); ("source", source_value c); ("rag_receipt", receipt)].
(** [_key], [_descriptor] *)
Definition context_key (digest : string) : res string :=
  require (fullmatch HEX64 digest) "rag_cas_digest_invalid" ;;
  Ok (concat_text [CAS_PREFIX; "/"; KEY_SUBDIR; "/sha256/"; take_str 2 digest; "/"; digest; ".context"]).
Definition context_descriptor (digest : string) : DurableArtifact.t :=
  DurableArtifact.mk KIND (String.append REF_PREFIX digest) digest.
Definition descriptor_ok (a : DurableArtifact.t) : bool :=
  String.eqb (DurableArtifact.artifact_kind a) KIND && fullmatch HEX64 (DurableArtifact.artifact_sha256 a) &&
  String.eqb (DurableArtifact.artifact_ref a) (String.append REF_PREFIX (DurableArtifact.artifact_sha256 a)).
(** [json.loads] with [_unique_pairs] and [_reject_nonfinite] *)
Definition receipt_loads : string → res json := loads (unique_pairs (handoff "rag_cas_duplicate_key")) (handoff "rag_cas_json_invalid").
Definition is_handoff (e : exn) : bool := is_a "HandoffBlocked" e.
Definition ENVELOPE_FIELDS : list string := ["schema_version"; "task"; "source"; "rag_receipt"].
(** What [materialize] checks before the receipt is bound again. *)
Definition opened (task : json) (digest raw : string) : res json :=
  require (String.eqb (sha256_hex raw) digest) "rag_cas_artifact_tampered" ;;
  v ← match text ← ascii_decode raw; receipt_loads text with
      | Raise e => Raise (if value_or_type_error e then handoff "rag_cas_json_invalid" else e)
      | r => r
      end;
  require (is_dict v && RagHandoff.has_fields ENVELOPE_FIELDS v && text_is "schema_version" KIND v && py_eqb (member "task" v) task &&
           String.eqb (canonical v) raw) "rag_cas_envelope_identity_invalid" ;;
  require (is_dict (member "rag_receipt" v)) "rag_cas_receipt_invalid" ;;
  Ok v.

(** ** Calls *)

Inductive op : Type :=
  | writer (o : GitHubCas.op)
  | independent (o : GitHubCas.op)
  | source_reader (o : RagHandoff.op).
Definition answer (o : op) : Type :=
  match o with
  | writer o | independent o => GitHubCas.answer o
  | source_reader o => RagHandoff.answer o
  end.
Abbreviation P := (prog answer).
Definition demand (c : bool) (reason : string) : P unit := of_res (require c reason).
Fixpoint by_writer {A} (m : prog GitHubCas.answer A) : P A :=
  match m with
  | Ret a => Ret a
  | Throw e => Throw e
  | Do o k => Do (writer o) (fun r : res (GitHubCas.answer o) => by_writer (k r))
  end.
Fixpoint by_independent {A} (m : prog GitHubCas.answer A) : P A :=
  match m with
  | Ret a => Ret a
  | Throw e => Throw e
  | Do o k => Do (independent o) (fun r : res (GitHubCas.answer o) => by_independent (k r))
  end.
Fixpoint on_source {A} (m : prog RagHandoff.answer A) : P A :=
  match m with
  | Ret a => Ret a
  | Throw e => Throw e
  | Do o k => Do (source_reader o) (fun r : res (RagHandoff.answer o) => on_source (k r))
  end.
(** The transport of [preflight] over the writer: it makes no other call. *)
Definition over_writer (b : IssueBinding.t) (o : Artifact.op) : P (Artifact.answer o) :=
  match o return P (Artifact.answer o) with
  | put_object p => by_writer (cas_put_object b p)
  | get_object bucket key => by_writer (cas_get_object b bucket key)
  | _ => throw (Error "RuntimeError" "not reached")
  end.

Section Receipts.
Context {py : Language} (b : IssueBinding.t).

(** The two reads of an object's body. *)
Definition context_bytes (o : Stored) : res string :=
  require (int_that (fun n => (0 <? n) && (n <=? MAX_RECEIPT_BYTES)) (content_length o) && readable o) "rag_cas_read_invalid" ;;
  let read := match reads o with
              | [] => Ok (Some "", true)
              | r :: rest => c ← r; finished ← at_end rest;
                             Ok (match c with bytes_read s => Some s | _ => None end, finished)
              end in
  closing o ;;
  v ← read;
  match v with
  | (Some raw, finished) =>
      require (py_eqb (JInt (length_of raw)) (content_length o) && finished) "rag_cas_read_invalid" ;; Ok raw
  | (None, _) => Raise (handoff "rag_cas_read_invalid")
  end.
(** [_read] *)
Definition read_context (key : string) : P string :=
  catch (by_independent (authorized b) ;;
         o ← by_independent (cas_get_object b CAS_BUCKET key);
         of_res (context_bytes o))
    (fun e => throw (if is_handoff e then e else handoff "rag_cas_independent_read_unavailable")).

(** [preflight], whose return sets [_preflight_ok] *)
Definition rag_preflight : P unit :=
  by_writer (authorized b) ;;
  by_independent (authorized b) ;;
  interpret (over_writer b) (Artifact.preflight cas_config cas_response) ;;
  value ← read_context (preflight_key cas_config);
  demand (String.eqb value PREFLIGHT_VALUE) "rag_cas_preflight_readback_invalid".

Definition context_put (key raw digest : string) : Put.t :=
  Put.mk CAS_BUCKET key raw (length_of raw) "application/vnd.reqsys.issue-rag-context-v1"
    [("sha256", digest); ("artifact-kind", KIND)] "*".
(** The write, and whether it failed in a way that a read can settle. *)
Definition put_context (p : Put.t) : P bool :=
  sent ← attempt (by_writer (cas_put_object b p));
  match sent with
  | Ok _ => mret false
  | Raise e => if is_handoff e && negb (bool_decide (e = handoff "cas_write_readback_required")) then throw e else mret true
  end.
Definition publish_receipt (preflight_ok : bool) (m : TaskManifest.t) (g : Z) (attempt_id effect_id : string) (receipt : json)
    : P DurableArtifact.t :=
  demand preflight_ok "rag_cas_preflight_required" ;;
  task ← of_res (task_binding b m g attempt_id effect_id);
  by_writer (authorized b) ;;
  by_independent (authorized b) ;;
  verified ← on_source (bind_issue_rag b receipt);
  let raw := canonical (envelope task verified receipt) in
  demand ((0 <? length_of raw) && (length_of raw <=? MAX_RECEIPT_BYTES)) "rag_cas_envelope_oversized" ;;
  let digest := sha256_hex raw in
  key ← of_res (context_key digest);
  write_error ← put_context (context_put key raw digest);
  observed ← catch (read_context key) (fun e => throw (if is_handoff e then handoff "rag_cas_publication_ambiguous" else e));
  demand (String.eqb observed raw) (if (write_error : bool) then "rag_cas_conflict" else "rag_cas_readback_mismatch") ;;
  mret (context_descriptor digest).
Definition materialize_receipt (a : DurableArtifact.t) (m : TaskManifest.t) (g : Z) (attempt_id effect_id : string)
    : P (json * BoundIssueRAG.t) :=
  task ← of_res (task_binding b m g attempt_id effect_id);
  demand (descriptor_ok a) "rag_cas_artifact_invalid" ;;
  key ← of_res (context_key (DurableArtifact.artifact_sha256 a));
  raw ← read_context key;
  v ← of_res (opened task (DurableArtifact.artifact_sha256 a) raw);
  let receipt := member "rag_receipt" v in
  verified ← on_source (bind_issue_rag b receipt);
  demand (py_eqb (member "source" v) (source_value verified)) "rag_cas_citation_changed" ;;
  mret (receipt, verified).

(** [adapter_from_durable_issue_rag], with the native model *)
Definition durable_base_ok (m : TaskManifest.t) (original_source : string) : bool :=
  String.eqb (TaskManifest.repository m) REPO && String.eqb (TaskManifest.adapter_id m) PROFILE &&
  String.eqb (TaskManifest.adapter_contract_sha256 m) CONTRACT &&
  String.eqb (TaskManifest.base_sha m) (IssueBinding.base_sha b) &&
  String.eqb (TaskManifest.workspace_sha m) (IssueBinding.base_sha b) &&
  same_set (keys (TaskManifest.before_sha256 m)) [PATH] &&
  (0 <? length_of original_source) && (length_of original_source <=? 262144) &&
  bool_decide (lookup_key PATH (TaskManifest.before_sha256 m) = Some (sha256_hex original_source)).
Definition adapter_from_durable (cas_binding : IssueBinding.t) (a : DurableArtifact.t) (m : TaskManifest.t) (g : Z)
    (attempt_id effect_id original_source : string) : P IssueAdapter.t :=
  demand (bool_decide (cas_binding = b) && String.eqb (DurableArtifact.artifact_kind a) KIND) "rag_durable_adapter_identity_invalid" ;;
  demand (durable_base_ok m original_source) "rag_durable_adapter_base_drift" ;;
  r ← materialize_receipt a m g attempt_id effect_id;
  let '(receipt, c) := r in
  demand ((BoundIssueRAG.issue c =? IssueBinding.number b) && String.eqb (BoundIssueRAG.base_sha c) (IssueBinding.base_sha b) &&
          String.eqb (BoundIssueRAG.request_id c) (IssueBinding.request_id b) &&
          String.eqb (BoundIssueRAG.correlation_id c) (IssueBinding.correlation_id b)) "rag_durable_adapter_context_drift" ;;
  of_res (make_adapter (IssueAdapter.mk b (TaskManifest.task_id m) original_source true (Some receipt)) true).
End Receipts.
