(* ===== verification/RagReceiptProps.v ===== *)
(** Properties of stored receipts: the envelope and its reading, and that a
    published receipt is recovered for its own task only. *)
From Stdlib Require Import Ascii String.
From S2P Require Import Prelude Prog PyStr Sha256 Clock Json PyVal PyText PyAst PyBytes IsoDate Names Structured Repair IssueDraft.
From S2P Require Import Manifest PyJson Bundle Artifact BundleProps.
From S2P Require Import GitHub GitHubCas.
From S2P Require Import IssueScenario GitHubCasProps RagHandoff IssueAdapter RagReceipt RagHandoffProps.
From stdpp Require Import strings list.

Local Open Scope string_scope.
Local Open Scope Z_scope.
Local Open Scope list_scope.

(** ** The envelope *)

Lemma receipt_loads_canonical v : loadable v = true → receipt_loads (canonical v) = Ok (sort_all v).
Proof. intros Hv. unfold receipt_loads, canonical. apply loads_dumps. by rewrite loadable_sort_all. Qed.
Definition task_json (b : IssueBinding.t) (m : TaskManifest.t) (g : Z) (attempt_id effect_id : string) : json :=
  JObj [("task_id", JStr (TaskManifest.task_id m)); ("repository", JStr REPO);
        ("issue_number", JInt (IssueBinding.number b)); ("request_id", JStr (IssueBinding.request_id b));
        ("correlation_id", JStr (IssueBinding.correlation_id b)); ("base_sha", JStr (IssueBinding.base_sha b));
        ("adapter_id", JStr PROFILE); ("adapter_contract_sha256", JStr (TaskManifest.adapter_contract_sha256 m));
        ("before_sha256", sorted_hashes (TaskManifest.before_sha256 m)); ("lease_generation", JInt g);
        ("attempt_id", JStr attempt_id); ("effect_id", JStr effect_id)].
Lemma task_binding_ok b m g attempt_id effect_id task : task_binding b m g attempt_id effect_id = Ok task →
  1 ≤ g ∧ task = task_json b m g attempt_id effect_id.
Proof.
  intros H. apply res_bind_ok in H as (? & _ & H). apply res_bind_ok in H as (? & Hf%require_true & [= <-]).
  do 2 (apply andb_prop in Hf as [Hf _]). split; [by apply Z.leb_le|done].
Qed.
Lemma loadable_task b m g attempt_id effect_id : loadable (JInt (IssueBinding.number b)) = true → 1 ≤ g < 2 ^ 63 →
  NoDup (keys (TaskManifest.before_sha256 m)) → loadable (task_json b m g attempt_id effect_id) = true.
Proof.
  intros Hn Hg Hb. pose proof (loadable_hashes _ Hb) as Hh. pose proof (int_loadable g ltac:(lia)) as Hgl.
  unfold task_json. cbn [loadable forallb snd] in *. rewrite Hn, Hh, Hgl. by vm_compute.
Qed.
Lemma loadable_envelope task c receipt : loadable task = true → loadable receipt = true → loadable (JInt (BoundIssueRAG.line c)) = true →
  loadable (envelope task c receipt) = true.
Proof.
  intros Ht Hr Hl. unfold envelope, source_value. cbn [loadable forallb snd] in *. rewrite Ht, Hr, Hl. by vm_compute.
Qed.

(** What was written opens to itself, its members in order, and for its task. *)
Lemma opened_canonical task' digest w v : loadable w = true → opened task' digest (canonical w) = Ok v →
  v = sort_all w ∧ py_eqb (sort_all (member "task" w)) task' = true.
Proof.
  intros He H. unfold opened in H. apply res_bind_ok in H as (? & _ & H). apply res_bind_ok in H as (u & Hw & H).
  assert (ascii_decode (canonical w) = Ok (canonical w)) as Ha by apply ascii_decode_dumps.
  rewrite Ha in Hw. cbn [mbind res_bind] in Hw. rewrite receipt_loads_canonical in Hw by done. apply ok_inj in Hw as <-.
  apply res_bind_ok in H as (? & Hc%require_true & H). apply res_bind_ok in H as (? & _ & H). apply ok_inj in H as <-.
  split; [done|]. rewrite !andb_true_iff in Hc. destruct Hc as [[_ Ht] _].
  rewrite member_sorted in Ht by done. exact Ht.
Qed.
Lemma opened_written task task' c receipt digest v : loadable (envelope task c receipt) = true →
  opened task' digest (canonical (envelope task c receipt)) = Ok v →
  v = sort_all (envelope task c receipt) ∧ py_eqb (sort_all task) task' = true.
Proof. apply opened_canonical. Qed.

Lemma py_eqb_member ms ns k x : py_eqb (JObj ms) (JObj ns) = true → (k, x) ∈ ms → ∃ y, lookup_key k ns = Some y ∧ py_eqb x y = true.
Proof.
  cbn [py_eqb]. intros [_ H]%andb_prop. revert H. induction ms as [|[j z] ms IH]; [by intros _ ?%elem_of_nil|].
  cbn. destruct (lookup_key j ns) as [y|] eqn:E; [|done]. intros [Hz H]%andb_prop [[= -> ->]|Hin]%elem_of_cons; [by exists y|].
  by apply IH.
Qed.
Lemma sorted_member ms ns k x : py_eqb (sort_all (JObj ms)) (JObj ns) = true → (k, x) ∈ ms →
  ∃ y, lookup_key k ns = Some y ∧ py_eqb (sort_all x) y = true.
Proof.
  cbn [sort_all]. intros H Hin. eapply py_eqb_member; [exact H|]. rewrite sort_keys_perm.
  apply list_elem_of_In, in_map_iff. exists (k, x). split; [done|]. by apply list_elem_of_In.
Qed.
Ltac listed := solve [repeat first [apply list_elem_of_here | apply list_elem_of_further]].
(** Two bindings of one task. *)
Record same_task (b b' : IssueBinding.t) (m m' : TaskManifest.t) : Prop := {
  same_id : TaskManifest.task_id m' = TaskManifest.task_id m;
  same_issue : IssueBinding.number b' = IssueBinding.number b;
  same_request : IssueBinding.request_id b' = IssueBinding.request_id b;
  same_correlation : IssueBinding.correlation_id b' = IssueBinding.correlation_id b;
  same_base : IssueBinding.base_sha b' = IssueBinding.base_sha b }.
Lemma same_task_json b m g a e b' m' g' a' e' :
  py_eqb (sort_all (task_json b m g a e)) (task_json b' m' g' a' e') = true →
  same_task b b' m m' ∧ g' = g ∧ a' = a ∧ e' = e.
Proof.
  unfold task_json. set (ms := [_; _; _; _; _; _; _; _; _; _; _; _]). set (ns := [_; _; _; _; _; _; _; _; _; _; _; _]). intros H.
  assert (∀ k s y, (k, JStr s) ∈ ms → lookup_key k ns = Some (JStr y) → y = s) as Hs.
  { intros k s y Hin Hl. destruct (sorted_member _ _ k (JStr s) H Hin) as (z & Hz & Hp). rewrite Hz in Hl. injection Hl as ->.
    apply String.eqb_eq in Hp. by symmetry. }
  assert (∀ k s y, (k, JInt s) ∈ ms → lookup_key k ns = Some (JInt y) → y = s) as Hi.
  { intros k s y Hin Hl. destruct (sorted_member _ _ k (JInt s) H Hin) as (z & Hz & Hp). rewrite Hz in Hl. injection Hl as ->.
    apply Z.eqb_eq in Hp. by symmetry. }
  split; [split|repeat split].
  - apply (Hs "task_id"); [unfold ms; listed|reflexivity].
  - apply (Hi "issue_number"); [unfold ms; listed|reflexivity].
  - apply (Hs "request_id"); [unfold ms; listed|reflexivity].
  - apply (Hs "correlation_id"); [unfold ms; listed|reflexivity].
  - apply (Hs "base_sha"); [unfold ms; listed|reflexivity].
  - apply (Hi "lease_generation"); [unfold ms; listed|reflexivity].
  - apply (Hs "attempt_id"); [unfold ms; listed|reflexivity].
  - apply (Hs "effect_id"); [unfold ms; listed|reflexivity].
Qed.

(** ** A published receipt *)

(** The number of an issue is one that JSON holds. *)
Lemma number_loadable b receipt : loadable receipt = true → bound_to b receipt = true → loadable (JInt (IssueBinding.number b)) = true.
Proof.
  intros Hr Hb. pose proof (loadable_member "issue_number" receipt Hr) as H. unfold bound_to in Hb. rewrite !andb_true_iff in Hb.
  assert (int_that (Z.eqb (IssueBinding.number b)) (member "issue_number" receipt) = true) as Hn by tauto.
  destruct (member "issue_number" receipt); try discriminate Hn. apply Z.eqb_eq in Hn as ->. exact H.
Qed.
Lemma all_allowed_base b b' l : IssueBinding.base_sha b' = IssueBinding.base_sha b → all_allowed b' l = all_allowed b l.
Proof. intros H. induction l as [|s l IH]; [done|]. cbn [all_allowed]. by rewrite H, IH. Qed.
(** The citation depends on the issue and its base alone. *)
Lemma checked_receipt_same b b' m m' r : same_task b b' m m' → checked_receipt b' r = checked_receipt b r.
Proof.
  intros [_ H1 H2 H3 H4]. unfold checked_receipt. rewrite (all_allowed_base b b') by done.
  destruct b as [n s c q o br], b' as [n' s' c' q' o' br']. cbn in H1, H2, H3, H4. by subst.
Qed.

Section Runs.
Context {py : Language}.

Lemma on_source_runs {A} (m : prog RagHandoff.answer A) t x : runs (on_source m) t x → ∃ t', runs m t' x.
Proof.
  revert t. induction m as [a|e|o k IH]; intros t Hr; apply runs_inv in Hr.
  - destruct Hr as [_ ->]. exists []. constructor.
  - destruct Hr as [_ ->]. exists []. constructor.
  - destruct Hr as (r & t' & _ & Hr). destruct (IH r t' Hr) as [t'' H]. exists (ev o r :: t''). by constructor.
Qed.
(** The citation of a run that returns one. *)
Lemma bound_citation_checked b receipt t c : runs (bind_issue_rag b receipt) t (Ok c) → ∃ size, checked_receipt b receipt = Ok (c, size).
Proof.
  intros ([c0 size] & ? & ? & [-> H]%runs_ok_res & Hr & _)%runs_ok_bind. exists size.
  apply runs_ok_bind in Hr as (raw & ? & ? & _ & Hr & _). apply runs_ok_bind in Hr as (? & ? & ? & _ & Hr & _).
  apply runs_inv in Hr as [_ [= ->]]. exact H.
Qed.
(** What a publication wrote and read back. *)
Lemma published_envelope b m g attempt_id effect_id receipt ready t d :
  runs (publish_receipt b ready m g attempt_id effect_id receipt) t (Ok d) →
  ∃ c size key t1, checked_receipt b receipt = Ok (c, size) ∧ 1 ≤ g ∧
    let raw := canonical (envelope (task_json b m g attempt_id effect_id) c receipt) in
    length_of raw ≤ MAX_RECEIPT_BYTES ∧ d = context_descriptor (sha256_hex raw) ∧ context_key (sha256_hex raw) = Ok key ∧
    t1 `suffix_of` t ∧ runs (read_context b key) t1 (Ok raw).
Proof.
  intros H. apply runs_ok_bind in H as (? & ? & ? & _ & H & ->).
  apply runs_ok_bind in H as (task & ? & ? & [-> Htask]%runs_ok_res & H & ->).
  apply task_binding_ok in Htask as [Hg ->].
  apply runs_ok_bind in H as (? & ? & ? & _ & H & ->). apply runs_ok_bind in H as (? & ? & ? & _ & H & ->).
  apply runs_ok_bind in H as (c & ? & ? & Hc & H & ->). apply on_source_runs in Hc as [? Hc].
  apply bound_citation_checked in Hc as [size Hc].
  apply runs_ok_bind in H as (? & ? & ? & [-> Hlen%require_true]%runs_ok_res & H & ->).
  apply runs_ok_bind in H as (key & ? & ? & [-> Hkey]%runs_ok_res & H & ->).
  apply runs_ok_bind in H as (? & ? & ? & _ & H & ->). apply runs_ok_bind in H as (observed & t1 & ? & Hread & H & ->).
  apply runs_catch_ok in Hread. apply runs_ok_bind in H as (? & ? & ? & [-> Ho%require_true]%runs_ok_res & H & ->).
  apply runs_inv in H as [-> H]. apply ok_inj in H as ->. apply String.eqb_eq in Ho as ->.
  apply andb_prop in Hlen as [_ Hlen%Z.leb_le].
  exists c, size, key, t1. cbn [app]. rewrite app_nil_r. repeat split; try done.
  eexists. by rewrite !app_assoc.
Qed.
(** What a recovery read. *)
Lemma recovered_envelope b a m g attempt_id effect_id t receipt c :
  runs (materialize_receipt b a m g attempt_id effect_id) t (Ok (receipt, c)) →
  ∃ raw key v t1 t2 size, 1 ≤ g ∧ context_key (DurableArtifact.artifact_sha256 a) = Ok key ∧ t = t1 ++ t2 ∧
    runs (read_context b key) t1 (Ok raw) ∧ opened (task_json b m g attempt_id effect_id) (DurableArtifact.artifact_sha256 a) raw = Ok v ∧
    receipt = member "rag_receipt" v ∧ checked_receipt b receipt = Ok (c, size).
Proof.
  intros H. apply runs_ok_bind in H as (task & ? & ? & [-> Htask]%runs_ok_res & H & ->).
  apply task_binding_ok in Htask as [Hg ->]. apply runs_ok_bind in H as (? & ? & ? & [-> _]%runs_ok_res & H & ->).
  apply runs_ok_bind in H as (key & ? & ? & [-> Hkey]%runs_ok_res & H & ->).
  apply runs_ok_bind in H as (raw & t1 & t2 & Hread & H & ->).
  apply runs_ok_bind in H as (v & ? & ? & [-> Hv]%runs_ok_res & H & ->).
  apply runs_ok_bind in H as (verified & ? & ? & Hc & H & ->). apply on_source_runs in Hc as [? Hc].
  apply bound_citation_checked in Hc as [size Hc]. apply runs_ok_bind in H as (? & ? & ? & _ & H & ->).
  apply runs_inv in H as [_ H]. apply ok_inj in H. injection H as -> ->.
  exists raw, key, v, t1. eexists _, size. by repeat split.
Qed.
Lemma opened_digest task digest raw v : opened task digest raw = Ok v → sha256_hex raw = digest.
Proof. intros H. apply res_bind_ok in H as (? & H%require_true & _). by apply String.eqb_eq. Qed.
End Runs.

(** C33: the receipt that a host published, of a parsed manifest under a fence,
    was read back whole through the independent client before its descriptor
    was returned; and whoever recovers that descriptor, for whatever issue,
    manifest and fence, and whatever GitHub and the readers answer, ends in an
    error or has read bytes of the same SHA-256: if they are the published
    ones, the issue, the task, the base and the whole fence are those of the
    publication, and the receipt and its citation are the very same. *)
Theorem published_receipt_is_recovered {py : Language} (b : IssueBinding.t) (raw_manifest : json) (m : TaskManifest.t) (g : Z)
    (attempt_id effect_id : string) (receipt : json) (ready : bool) (t : list (event (answer:=answer))) (d : DurableArtifact.t)
    (Hm : parse_manifest raw_manifest = Ok m) (Hload : loadable receipt = true) (Hg : g < 2 ^ 63)
    (Hruns : runs (publish_receipt b ready m g attempt_id effect_id receipt) t (Ok d)) :
  ∃ c key t1, attested b receipt c ∧
    let raw := canonical (envelope (task_json b m g attempt_id effect_id) c receipt) in
    length_of raw ≤ MAX_RECEIPT_BYTES ∧ d = context_descriptor (sha256_hex raw) ∧ context_key (sha256_hex raw) = Ok key ∧
    t1 `suffix_of` t ∧ runs (read_context b key) t1 (Ok raw) ∧
    ∀ b' m' g' attempt_id' effect_id' t' receipt' c',
      runs (materialize_receipt b' d m' g' attempt_id' effect_id') t' (Ok (receipt', c')) →
      ∃ raw' t2, t2 `prefix_of` t' ∧ runs (read_context b' key) t2 (Ok raw') ∧ sha256_hex raw' = sha256_hex raw ∧
        (raw' = raw →
         same_task b b' m m' ∧ g' = g ∧ attempt_id' = attempt_id ∧ effect_id' = effect_id ∧ receipt' = sort_all receipt ∧ c' = c).
Proof.
  destruct (published_envelope _ _ _ _ _ _ _ _ _ Hruns) as (c & size & key & t1 & Hc & Hg1 & Hlen & -> & Hkey & Ht & Hread).
  pose proof (checked_receipt_attests _ _ _ _ Hc) as Ha. exists c, key, t1. split; [exact Ha|].
  assert (loadable (envelope (task_json b m g attempt_id effect_id) c receipt) = true) as He.
  { apply loadable_envelope; [apply loadable_task|done|apply int_loadable]; [eapply number_loadable; [done|apply Ha]|lia| |].
    - by destruct (parsed_manifest _ _ Hm).
    - pose proof (at_line _ _ _ Ha). lia. }
  cbn zeta. set (env := envelope _ c receipt) in *. set (raw := canonical env) in *.
  do 5 (split; [done|]). intros b' m' g' a' e' t' receipt' c' H.
  destruct (recovered_envelope _ _ _ _ _ _ _ _ _ H) as (raw' & key' & v & t2 & t3 & size' & _ & Hkey' & -> & Hr & Hv & -> & Hc').
  cbn [context_descriptor DurableArtifact.artifact_sha256] in *. rewrite Hkey in Hkey'. apply ok_inj in Hkey' as <-.
  exists raw', t2. split; [by exists t3|]. split; [done|]. split; [by apply opened_digest in Hv|]. intros ->.
  destruct (opened_canonical _ _ _ _ He Hv) as [-> Heq]. destruct (same_task_json _ _ _ _ _ _ _ _ _ _ Heq) as (Hs & -> & -> & ->).
  rewrite member_sorted in Hc' |- * by done. change (member "rag_receipt" env) with receipt in *.
  rewrite checked_receipt_sorted, (checked_receipt_same _ _ _ _ _ Hs), Hc in Hc' by done. injection Hc' as -> _. split; [exact Hs|]. repeat split.
Qed.

(** ** A publication and a recovery *)

Definition rag_manifest_json : json :=
  JObj [("schema_version", JInt 1); ("task_id", JStr issue_task); ("repository", JStr REPO); ("base_sha", JStr issue_base);
        ("workspace_sha", JStr issue_base); ("adapter_id", JStr PROFILE); ("adapter_contract_sha256", JStr CONTRACT);
        ("before_sha256", JObj [(PATH, JStr (sha256_hex "source"))])].
Definition rag_manifest : TaskManifest.t :=
  Eval vm_compute in match parse_manifest rag_manifest_json with Ok m => m | Raise _ => TaskManifest.mk JNull "" "" "" "" "" "" [] end.
(** Both clients reach the same branch; the reader has the source. *)
Definition rag_world (o : RagReceipt.op) (h : CasHub) : res (RagReceipt.answer o) * CasHub :=
  match o return res (RagReceipt.answer o) * CasHub with
  | writer o | independent o => cas_world o h
  | RagReceipt.source_reader o => (fst (rag_reader o tt), h)
  end.
Definition rag_publish (h : CasHub) := Prog.execute rag_world
  (publish_receipt issue_binding true rag_manifest 3 "attempt-1" "effect-1" rag_receipt) h.
(** What a publication on the empty branch leaves: its descriptor and the branch. *)
Definition rag_raw : string :=
  canonical (envelope (task_json issue_binding rag_manifest 3 "attempt-1" "effect-1") bound_citation rag_receipt).
Definition rag_descriptor : DurableArtifact.t := Eval vm_compute in context_descriptor (sha256_hex rag_raw).
Definition rag_stored : CasHub :=
  Some [(match context_key (DurableArtifact.artifact_sha256 rag_descriptor) with
         | Ok key => String.append "evidence/cas/" key | Raise _ => "" end, rag_raw)].
Example rag_publishes : (rag_publish None).2.1 = Ok rag_descriptor.
Proof. vm_compute. reflexivity. Qed.
Definition rag_recovered (g : Z) : res (json * BoundIssueRAG.t) :=
  (Prog.execute rag_world (materialize_receipt issue_binding rag_descriptor rag_manifest g "attempt-1" "effect-1") rag_stored).2.1.
(** The same fence recovers the receipt; another one does not. *)
Example rag_recovered_for_its_fence : rag_recovered 3 = Ok (sort_all rag_receipt, bound_citation).
Proof. vm_compute. reflexivity. Qed.
Example rag_recovered_for_no_other_fence : rag_recovered 4 = Raise (handoff "rag_cas_envelope_identity_invalid").
Proof. vm_compute. reflexivity. Qed.

(** A write whose answer is lost reaches the branch and is not settled by the
    read that follows other failures: the port's own error comes first. *)
Definition lossy_world (o : RagReceipt.op) (h : CasHub) : res (RagReceipt.answer o) * CasHub :=
  match o return res (RagReceipt.answer o) * CasHub with
  | writer (hub (send q)) =>
      let out := cas_world (hub (send q)) h in
      if String.eqb (method q) "PUT" then (Raise (Error "HTTPError" "ReadTimeout"), out.2) else out
  | o => rag_world o h
  end.
Example uncertain_write_is_not_settled :
  let run := Prog.execute lossy_world (publish_receipt issue_binding true rag_manifest 3 "attempt-1" "effect-1" rag_receipt) None in
  run.2.1 = Raise (handoff "github_result_uncertain") ∧ match run.2.2 with Some l => length l = 1%nat | None => False end.
Proof. vm_compute. split; reflexivity. Qed.

Lemma published_receipt_is_recovered_witness :
  loadable rag_receipt = true ∧
  ∃ c key t1, attested issue_binding rag_receipt c ∧
    let raw := canonical (envelope (task_json issue_binding rag_manifest 3 "attempt-1" "effect-1") c rag_receipt) in
    length_of raw ≤ MAX_RECEIPT_BYTES ∧ rag_descriptor = context_descriptor (sha256_hex raw) ∧
    context_key (sha256_hex raw) = Ok key ∧
    t1 `suffix_of` (rag_publish None).1 ∧ runs (read_context issue_binding key) t1 (Ok raw) ∧
    ∀ b' m' g' attempt_id' effect_id' t' receipt' c',
      runs (materialize_receipt b' rag_descriptor m' g' attempt_id' effect_id') t' (Ok (receipt', c')) →
      ∃ raw' t2, t2 `prefix_of` t' ∧ runs (read_context b' key) t2 (Ok raw') ∧ sha256_hex raw' = sha256_hex raw ∧
        (raw' = raw →
         same_task issue_binding b' rag_manifest m' ∧ g' = 3 ∧ attempt_id' = "attempt-1" ∧ effect_id' = "effect-1" ∧
         receipt' = sort_all rag_receipt ∧ c' = c).
Proof.
  split; [vm_compute; reflexivity|].
  apply (published_receipt_is_recovered issue_binding rag_manifest_json rag_manifest 3 "attempt-1" "effect-1" rag_receipt true
    (rag_publish None).1 rag_descriptor); [vm_compute; reflexivity..|].
  rewrite <- rag_publishes. exact (execute_runs rag_world _ None).
Defined.
