(* ===== verification/Research.v ===== *)
(** The research of an issue, [app/issue_rag_research.py], with the checks of a
    plan and of a selection of [app/agent_rag_consumer.py]: from the owner's
    authorisation, read from GitHub, to a receipt that cites one line.

    Research is a program over two readers of GitHub, the model's planner, the
    clock and the caller's list of diagnostics.  The package [agent_core] is
    not part of the repository: the words of a text and the decoding of a file
    that GitHub returned are those of a class. *)
From Stdlib Require Import Ascii String.
From stdpp Require Import strings list gmap.
From S2P Require Import Prelude Prog PyStr Sha256 Clock Json PyVal PyText PyAst PyBytes PyUrl IsoDate Names Structured Repair IssueDraft RagHandoff.

Local Open Scope string_scope.
Local Open Scope Z_scope.
Local Open Scope list_scope.

Definition MAX_SOURCE_BYTES : Z := 65536.
Definition MAX_LINES : nat := 5.
Definition ISSUE_SEARCH_ALIASES : list (string * list string) :=
  [("test", ["teste"; "testes"; "casos"]); ("tests", ["teste"; "testes"; "casos"]); ("cases", ["casos"]);
   ("regression", [u8 "regressão"; u8 "regressões"]); ("regressions", [u8 "regressão"; u8 "regressões"]);
   ("evidence", [u8 "evidência"; u8 "evidências"; "provas"]); ("required", ["exige"; "exigidos"; u8 "obrigatório"]);
   ("verification", [u8 "verificação"; "verificado"]); ("validation", [u8 "validação"; "validador"])].

(** ** The plan and the selection of the model *)

(** [ResearchBlocked(code)] and [_need] *)
Definition research_blocked (code : string) : exn := Error "ResearchBlocked" code.
Definition need_that (ok : bool) (code : string) : res unit := if ok then Ok tt else Raise (research_blocked code).

Definition term_char : ascii → bool := either is_word (one_of "-").
(** [_RESEARCH_TERM.findall(s)]; [cur] is the current run, reversed. *)
Fixpoint find_terms (cur : list ascii) (l : list ascii) : list string :=
  let found := if (2 <=? length cur)%nat then [str (rev cur)] else [] in
  match l with
  | [] => found
  | c :: l' => if term_char c then find_terms (c :: cur) l' else found ++ find_terms [] l'
  end.
Definition terms (s : string) : list string := map lower (find_terms [] (chars s)).
Definition QUERY : re := Rep 4 (Some 120%nat) (Chr (either is_word (one_of " .,:-"))).
Definition intersects (l k : list string) : bool := existsb (fun x => bool_decide (x ∈ k)) l.

(** [AgentCoreResearchBridge._validate_plan] *)
Definition validate_plan (plan : json) (question : string) (sources : list string) : res (string * string) :=
  need_that (RagHandoff.has_fields ["source_path"; "search_query"] plan) "rag_plan_schema_invalid" ;;
  need_that (str_that (fun p => bool_decide (p ∈ sources)) (member "source_path" plan)) "rag_model_source_not_allowlisted" ;;
  need_that (str_that (fullmatch QUERY) (member "search_query" plan)) "rag_model_query_invalid" ;;
  let query := str_value (member "search_query" plan) in
  need_that (intersects (terms question) (terms query)) "rag_plan_topic_drift" ;;
  Ok (str_value (member "source_path" plan), query).

(** A line of a source that the model may cite. *)
Module Snippet.
Record t := mk { path : string; line : Z; score : Z; excerpt : string; url : string }.
Definition members (s : t) : list (string * json) :=
  [("path", JStr (path s)); ("line", JInt (line s)); ("score", JInt (score s)); ("excerpt", JStr (excerpt s));
   ("url", JStr (url s)); ("untrusted_source_text", JBool true)].
Definition to_json (s : t) : json := JObj (members s).
End Snippet.

(** [AgentCoreResearchBridge._check_selection] *)
Definition check_selection (selection : json) (snippets : list Snippet.t) : res (option Snippet.t) :=
  need_that (RagHandoff.has_fields ["decision"; "citation_index"] selection) "rag_selection_schema_invalid" ;;
  let decision := member "decision" selection in
  let index := member "citation_index" selection in
  need_that (str_that (fun s => bool_decide (s ∈ ["supported"; "insufficient"])) decision && is_int index)
    "rag_selection_schema_invalid" ;;
  if is_text decision "insufficient" then
    need_that (int_value index =? -1) "rag_selection_index_invalid" ;; Ok None
  else
    need_that ((0 <=? int_value index) && (int_value index <? Z.of_nat (length snippets))) "rag_selection_index_invalid" ;;
    match snippets !! Z.to_nat (int_value index) with
    | Some citation =>
        need_that (is_true (member "untrusted_source_text" (Snippet.to_json citation))) "rag_evidence_untrusted_marker_missing" ;;
        Ok (Some citation)
    | None => Raise (Error "IndexError" "list index out of range")
    end.

(** ** What leaves the research *)

Inductive reader : Type := first_reader | independent_reader.
Inductive op : Type :=
  | utcnow
  | get_issue (who : reader) (number : Z)
  | get_comment (who : reader) (comment_id : Z)
  | get_branch (who : reader) (name : string)
  | get_text_file (who : reader) (repository path sha : string)
  (* the planner: its two questions to the model, and its attributes *)
  | plan (question : string) (sources : list string)
  | select (question : string) (excerpts : list json)
  | planner_calls
  | planner_model_digest
  | planner_process_verified
  (* the caller's list *)
  | append_diagnostic (entry : json).
Definition answer (o : op) : Type :=
  match o with utcnow => datetime | append_diagnostic _ => unit | _ => json end.
Abbreviation P := (prog answer).
Definition demand (c : bool) (reason : string) : P unit := of_res (require c reason).

(** [agent_core.pr_context]: [_words(text)], and [_file_data(value, path)] with
    the text, the blob's SHA-1, the SHA-256 and the number of bytes. *)
Class AgentCore := {
  words : string → gset string;
  file_data : json → string → res (string * string * string * Z) }.

(** What the rounds found. *)
Module Found.
(** The sources read, the digests of the queries, the citation. *)
Record t := mk { receipts : list json; searches : list json; citation : json }.
End Found.

Section Research.
Context {py : Language} {core : AgentCore}.

(** [_ranking_words] *)
Definition aliases (term : string) : list string :=
  match lookup_key term ISSUE_SEARCH_ALIASES with Some l => l | None => [] end.
Definition ranking_words (query : string) : gset string * gset string :=
  let direct := words query in
  let fixed_topic := words QUESTION in
  (direct, list_to_set (flat_map aliases (elements (direct ∪ fixed_topic)))).

(** [IssueRAGResearch.__init__]: the approved paths and the length of the list
    of diagnostics, if there is one. *)
Definition new_research (approved : list string) (sink : option nat) : res unit :=
  require ((1 <=? length approved)%nat && (Z.of_nat (length approved) <=? MAX_SOURCES) && bool_decide (NoDup approved) &&
           forallb (fun p => bool_decide (p ∈ ALLOWED_SOURCES)) approved) "rag_source_allowlist_invalid" ;;
  require (match sink with Some n => (n =? 0)%nat | None => true end) "rag_diagnostic_sink_invalid".

(** [_record_candidates]: the length of the list afterwards. *)
Definition diagnostic (path : string) (lines : list Z) (decision : string) : json :=
  JObj [("path", JStr path); ("candidate_lines", JList (map JInt lines)); ("decision", JStr decision)].
Definition record_candidates (approved : list string) (path : string) (lines : list Z) (decision : string) (sink : option nat)
    : P (option nat) :=
  match sink with
  | None => mret None
  | Some n =>
      demand (bool_decide (path ∈ approved) && (length lines <=? MAX_LINES)%nat &&
              forallb (fun line => (1 <=? line) && (line <=? 4096)) lines && bool_decide (NoDup lines) &&
              bool_decide (decision ∈ ["no_candidates"; "insufficient"; "supported"]) &&
              Bool.eqb (match lines with [] => true | _ => false end) (String.eqb decision "no_candidates") &&
              (Z.of_nat n <? MAX_SOURCES)) "rag_diagnostic_metadata_invalid" ;;
      call (append_diagnostic (diagnostic path lines decision)) ;;
      mret (Some (S n))
  end.

(** [_read_authorized] and [_source] *)
Definition read_authorized (who : reader) (b : IssueBinding.t) : P unit :=
  observed_at ← call utcnow;
  issue ← call (get_issue who (IssueBinding.number b));
  comment ← call (get_comment who (IssueBinding.comment_id b));
  main ← call (get_branch who "main");
  checked ← of_res (admit_issue issue comment main (IssueBinding.base_sha b) (isoformat_utc observed_at) observed_at);
  demand (bool_decide (checked = b)) "rag_owner_or_issue_drift".
Definition read_source (who : reader) (path base_sha : string) : P (string * string * string * Z) :=
  value ← call (get_text_file who REPO path base_sha);
  of_res (file_data value path).

(** ** The lines of a source *)

Definition snippet_of (b : IssueBinding.t) (path : string) (ranking : gset string * gset string) (line : Z) (value : string)
    : list Snippet.t :=
  let excerpt := take_str (Z.to_nat MAX_LINE) (strip value) in
  let source_words := words value in
  let score := Z.min 24 (Z.of_nat (size (ranking.1 ∩ source_words)) + 4 * Z.of_nat (size (ranking.2 ∩ source_words))) in
  if nonempty excerpt && negb (score =? 0)
  then [Snippet.mk path line score excerpt
          (concat_text ["https://github.com/"; REPO; "/blob/"; IssueBinding.base_sha b; "/"; path; "#L"; int_text line])]
  else [].
Fixpoint snippets_from (b : IssueBinding.t) (path : string) (ranking : gset string * gset string) (line : Z) (lines : list string)
    : list Snippet.t :=
  match lines with
  | [] => []
  | value :: lines' => snippet_of b path ranking line value ++ snippets_from b path ranking (line + 1) lines'
  end.
(** [key=lambda x: (-x["score"], x["line"])] *)
Definition ranks_before (s u : Snippet.t) : bool :=
  (Snippet.score u <? Snippet.score s) ||
  ((Snippet.score s =? Snippet.score u) && (Snippet.line s <=? Snippet.line u)).
Definition best_snippets (b : IssueBinding.t) (path query text : string) : list Snippet.t :=
  take MAX_LINES (sort_by ranks_before (snippets_from b path (ranking_words query) 1 (splitlines text))).
Fixpoint excerpts_from (index : Z) (l : list Snippet.t) : list json :=
  match l with
  | [] => []
  | s :: l' =>
      JObj [("citation_index", JInt index); ("path", JStr (Snippet.path s)); ("line", JInt (Snippet.line s));
            ("excerpt", JStr (Snippet.excerpt s))] :: excerpts_from (index + 1) l'
  end.

(** ** The rounds *)

Fixpoint remove_first (x : string) (l : list string) : list string :=
  match l with [] => [] | y :: l' => if String.eqb y x then l' else y :: remove_first x l' end.
Definition source_json (path base_sha blob_sha sha256 : string) (nbytes : Z) : json :=
  JObj [("path", JStr path); ("ref_sha", JStr base_sha); ("blob_sha", JStr blob_sha); ("sha256", JStr sha256);
        ("bytes", JInt nbytes)].
Fixpoint rounds (n : nat) (approved : list string) (b : IssueBinding.t) (remaining : list string) (receipts searches : list json)
    (sink : option nat) : P Found.t :=
  match n with
  | O => mret (Found.mk receipts searches JNull)
  | S n' =>
      planned ← call (plan QUESTION remaining);
      p ← of_res (validate_plan planned QUESTION remaining);
      let '(chosen, query) := p in
      let remaining := remove_first chosen remaining in
      let searches := searches ++ [JStr (sha256_of query)] in
      data ← read_source first_reader chosen (IssueBinding.base_sha b);
      let '(text, blob_sha, sha256, nbytes) := data in
      demand (nbytes <=? MAX_SOURCE_BYTES) "rag_source_oversized" ;;
      let receipts := receipts ++ [source_json chosen (IssueBinding.base_sha b) blob_sha sha256 nbytes] in
      let snippets := best_snippets b chosen query text in
      match snippets with
      | [] =>
          sink ← record_candidates approved chosen [] "no_candidates" sink;
          rounds n' approved b remaining receipts searches sink
      | _ =>
          selected ← call (select QUESTION (excerpts_from 0 snippets));
          candidate ← of_res (check_selection selected snippets);
          sink ← record_candidates approved chosen (map Snippet.line snippets)
            (match candidate with Some _ => "supported" | None => "insufficient" end) sink;
          match candidate with
          | None => rounds n' approved b remaining receipts searches sink
          | Some c =>
              mret (Found.mk receipts searches
                      (JObj (set_key "source_sha256" (JStr sha256) (Snippet.members c))))
          end
      end
  end.

(** ** The receipt *)

Definition observed_members (b : IssueBinding.t) (found : Found.t) (model_calls : Z) (model_digest : string) : list (string * json) :=
  [("schema_version", JStr "worker.rag.issue-context-v1"); ("repository", JStr REPO);
   ("issue_number", JInt (IssueBinding.number b)); ("request_id", JStr (IssueBinding.request_id b));
   ("correlation_id", JStr (IssueBinding.correlation_id b)); ("head_sha", JStr (IssueBinding.base_sha b));
   ("base_sha", JStr (IssueBinding.base_sha b)); ("question_sha256", JStr (sha256_of QUESTION));
   ("search_query_sha256", JList (Found.searches found)); ("sources", JList (Found.receipts found));
   ("selected_reference", Found.citation found);
   ("state", JStr (if truth (Found.citation found) then "supported" else "insufficient_evidence"));
   ("model_calls", JInt model_calls); ("model_digest", JStr model_digest); ("model_process_verified", JBool true);
   ("issue_head_readback_stable", JBool true); ("execution_authorized", JBool false); ("state_changed", JBool false)].
Definition signed (ms : list (string * json)) : json :=
  JObj (ms ++ [("receipt_sha256", JStr (sha256_hex (canonical_text (JObj ms))))]).

(** [fetch_source(path, sha)] of the receipt's binding. *)
Definition fetch_source (o : RagHandoff.op) : P (RagHandoff.answer o) :=
  match o return P (RagHandoff.answer o) with
  | independent_read path sha =>
      data ← read_source independent_reader path sha; mret (Some (utf8_encode data.1.1.1))
  end.

(** The model's attestation: the number of calls and the digest. *)
Definition model_attestation (starting : Z) : P (Z * string) :=
  completed ← call planner_calls;
  digest ← call planner_model_digest;
  let calls := int_value completed - starting in
  let named := is_int completed && (1 <=? calls) && (calls <=? MAX_MODEL_CALLS) &&
    str_that (fun s => (length_of s =? 64) && starts_with MODEL_DIGEST_PREFIX s) digest in
  (if named then verified ← call planner_process_verified; demand (is_true verified) "rag_model_attestation_invalid"
   else demand false "rag_model_attestation_invalid") ;;
  mret (calls, str_value digest).

(** [IssueRAGResearch.research] *)
Definition research (approved : list string) (sink : option nat) (b : IssueBinding.t) : P json :=
  read_authorized first_reader b ;;
  starting ← call planner_calls;
  demand (int_that (fun n => 0 <=? n) starting) "rag_model_counter_invalid" ;;
  found ← rounds (min (Z.to_nat MAX_SOURCES) (length approved)) approved b approved [] [] sink;
  read_authorized first_reader b ;;
  attested ← model_attestation (int_value starting);
  let observed := signed (observed_members b found attested.1 attested.2) in
  (if is_none (Found.citation found) then mret tt
   else interpret fetch_source (bind_issue_rag b observed) ;; read_authorized independent_reader b) ;;
  mret observed.
(** The object is made, then asked. *)
Definition research_with (approved : list string) (sink : option nat) (b : IssueBinding.t) : P json :=
  of_res (new_research approved sink) ;; research approved sink b.
End Research.
