(* ===== verification/ResearchProps.v ===== *)
(** Properties of the research of an issue: what it reads before it asks the
    model and before it answers, what its receipt is evidence of, and which
    lines the model may cite. *)
From Stdlib Require Import Ascii String Sorted.
From S2P Require Import Prelude Prog PyStr Sha256 Clock Json PyVal PyText PyAst PyBytes IsoDate Names Structured Repair IssueDraft.
From S2P Require Import IssueScenario RagHandoff RagHandoffProps Research.
From stdpp Require Import strings list gmap sorting.

Local Open Scope string_scope.
Local Open Scope Z_scope.
Local Open Scope list_scope.

(** ** A concrete research *)

#[export] Instance scenario_core : AgentCore := {|
  words s := list_to_set (terms s);
  file_data v path :=
    match member "content" v with
    | JStr s => Ok (s, blob_sha1 s, sha256_hex s, length_of s)
    | _ => Raise (ValueError "not a file")
    end |}.
Definition research_world (o : op) (calls : Z) : res (answer o) * Z :=
  match o return res (answer o) * Z with
  | utcnow => (Ok issue_now, calls)
  | get_issue _ n => ((hub_world (IssueDraft.get_issue n) (mkHub None None)).1, calls)
  | get_comment _ c => ((hub_world (IssueDraft.get_comment c) (mkHub None None)).1, calls)
  | get_branch _ name => ((hub_world (IssueDraft.get_branch name) (mkHub None None)).1, calls)
  | get_text_file _ _ _ _ => (Ok (JObj [("content", JStr rag_source)]), calls)
  | plan _ _ => (Ok (JObj [("source_path", JStr rag_path); ("search_query", JStr "casos 42 code")]), calls + 1)
  | select _ _ => (Ok (JObj [("decision", JStr "supported"); ("citation_index", JInt 0)]), calls + 1)
  | planner_calls => (Ok (JInt calls), calls)
  | planner_model_digest => (Ok (JStr issue_digest), calls)
  | planner_process_verified => (Ok (JBool true), calls)
  | append_diagnostic _ => (Ok tt, calls)
  end.
Definition research_run := Prog.execute research_world (research_with [rag_path] (Some 0%nat) issue_binding) 3.
Example research_run_supports :
  match research_run.2.1 with
  | Ok v => (text_is "state" "supported" v, member "line" (member "selected_reference" v), member "model_calls" v)
  | Raise _ => (false, JNull, JNull)
  end = (true, JInt 2, JInt 2).
Proof. vm_compute. reflexivity. Qed.

(** ** The protocol *)

(** The last answers of one reader. *)
Record Seen := mkSeen { issue : option json; comment : option json; main : option json }.
#[export] Instance Seen_eta : Eta Seen := fun g => mkSeen (issue g) (comment g) (main g).
Definition unseen : Seen := mkSeen None None None.
(** What is known, and the questions put to the model.  A question to the
    model makes what the first reader answered old. *)
Record Watch := mkWatch {
  clock : option datetime; first_seen : Seen; second_seen : Seen; opened : bool; plans : nat; selects : nat;
  reread : option json }.
#[export] Instance Watch_eta : Eta Watch := fun g =>
  mkWatch (clock g) (first_seen g) (second_seen g) (opened g) (plans g) (selects g) (reread g).
Definition at_first : Watch := mkWatch None unseen unseen false 0 0 None.

Section Protocol.
Context {py : Language} {core : AgentCore} (approved : list string) (b : IssueBinding.t).
Let base := IssueBinding.base_sha b.

(** The owner's authorisation of this binding. *)
Definition authorized (now : option datetime) (seen : Seen) : bool :=
  match now, issue seen, comment seen, main seen with
  | Some now, Some i, Some c, Some m =>
      match admit_issue i c m base (isoformat_utc now) now with Ok b' => bool_decide (b' = b) | Raise _ => false end
  | _, _, _, _ => false
  end.
Definition is_metadata (entry : json) : bool :=
  match entry with
  | JObj [("path", JStr p); ("candidate_lines", JList l); ("decision", JStr d)] =>
      bool_decide (p ∈ approved) && (length l <=? MAX_LINES)%nat && forallb (int_that (fun n => (1 <=? n) && (n <=? 4096))) l &&
      bool_decide (d ∈ ["no_candidates"; "insufficient"; "supported"])
  | _ => false
  end.
Definition allowed (g : Watch) (o : op) : bool :=
  match o with
  | get_issue _ n => n =? IssueBinding.number b
  | get_comment _ c => c =? IssueBinding.comment_id b
  | get_branch _ name => String.eqb name "main"
  | get_text_file first_reader repo path sha =>
      String.eqb repo REPO && String.eqb sha base && bool_decide (path ∈ approved) && opened g && (selects g <? plans g)%nat
  | get_text_file independent_reader repo path sha =>
      String.eqb repo REPO && String.eqb sha base && bool_decide (path ∈ ALLOWED_SOURCES) && authorized (clock g) (first_seen g)
  | plan q sources =>
      String.eqb q QUESTION && subset sources approved && (opened g || authorized (clock g) (first_seen g)) &&
      (Z.of_nat (plans g) <? MAX_SOURCES)
  | select q excerpts => String.eqb q QUESTION && (length excerpts <=? MAX_LINES)%nat && (selects g <? plans g)%nat
  | append_diagnostic entry => is_metadata entry
  | _ => true
  end.
Definition see (who : reader) (f : Seen → Seen) (g : Watch) : Watch :=
  match who with
  | first_reader => g <| first_seen := f (first_seen g) |>
  | independent_reader => g <| second_seen := f (second_seen g) |>
  end.
Definition next (g : Watch) (o : op) : res (answer o) → Watch :=
  match o with
  | utcnow => fun r => g <| clock := ok_value r |>
  | get_issue who _ => fun r => see who (fun s => s <| issue := ok_value r |>) g
  | get_comment who _ => fun r => see who (fun s => s <| comment := ok_value r |>) g
  | get_branch who _ => fun r => see who (fun s => s <| main := ok_value r |>) g
  | get_text_file independent_reader _ _ _ => fun r => g <| reread := ok_value r |>
  | plan _ _ => fun _ => g <| opened := true |> <| first_seen := unseen |> <| plans := S (plans g) |>
  | select _ _ => fun _ => g <| first_seen := unseen |> <| selects := S (selects g) |>
  | _ => fun _ => g
  end.
Abbreviation safe := (Prog.safe allowed next).

Lemma ok_demanded c reason g (Φ : unit → Watch → Prop) : (c = true → Φ tt g) → safe (demand c reason) g (on_ok Φ).
Proof. intros H. apply ok_of_res. intros [] Hc. apply H. by destruct c. Qed.

Lemma ok_asked (o : op) g (Φ : answer o → Watch → Prop) :
  allowed g o = true → (∀ v, Φ v (next g o (Ok v))) → safe (call o) g (on_ok Φ).
Proof. apply ok_call. Qed.

(** The binding is authorised, read anew, and nothing else has changed. *)
Lemma ok_read_authorized who g (Φ : unit → Watch → Prop) :
  (∀ g', authorized (clock g') (match who with first_reader => first_seen g' | independent_reader => second_seen g' end) = true →
     opened g' = opened g → plans g' = plans g → selects g' = selects g → reread g' = reread g → Φ tt g') →
  safe (read_authorized who b) g (on_ok Φ).
Proof.
  intros HΦ. unfold read_authorized. apply ok_bind, (ok_asked utcnow); [done|]. intros now.
  apply ok_bind, (ok_asked (get_issue _ _)); [apply Z.eqb_refl|]. intros i.
  apply ok_bind, (ok_asked (get_comment _ _)); [apply Z.eqb_refl|]. intros c.
  apply ok_bind, (ok_asked (get_branch _ _)); [done|]. intros m. apply ok_bind, ok_of_res. intros b' Hb. apply ok_demanded. intros Hd.
  destruct who; apply HΦ; try done; unfold authorized; cbn; unfold base; by rewrite Hb.
Qed.
(** [research] makes at most two rounds; each asks for a plan, reads one
    approved source and asks for at most one selection. *)
Lemma remove_first_subset x l : subset l approved = true → subset (remove_first x l) approved = true.
Proof.
  rewrite !subset_spec. intros H y Hy. apply H. clear H. induction l as [|z l IH]; [done|]. cbn in Hy.
  destruct (String.eqb z x); [by right|]. apply elem_of_cons in Hy as [->|Hy]; [by left|right; by apply IH].
Qed.
Lemma length_excerpts i l : length (excerpts_from i l) = length l.
Proof. revert i. induction l as [|s l IH]; intros i; cbn; [done|]. by rewrite IH. Qed.
Lemma length_best path query text : (length (best_snippets b path query text) <= MAX_LINES)%nat.
Proof. unfold best_snippets. rewrite length_take. lia. Qed.

Lemma ok_record path lines decision sink g (Φ : option nat → Watch → Prop) :
  (∀ n, Φ n g) → safe (record_candidates approved path lines decision sink) g (on_ok Φ).
Proof.
  intros HΦ. destruct sink as [n|]; [|by apply ok_ret]. cbn [record_candidates].
  apply ok_bind, ok_demanded. intros H. apply ok_bind, (ok_asked (append_diagnostic _)); [|intros []; apply ok_ret, HΦ].
  rewrite !andb_true_iff in H. destruct H as [[[[[[Hp Hl] Hr] _] Hd] _] _]. cbn [allowed is_metadata diagnostic].
  rewrite Hp, Hd, length_map, Hl. cbn [andb]. rewrite andb_true_r.
  clear -Hr. induction lines as [|n l IH]; [done|]. cbn in *. apply andb_prop in Hr as [-> Hr]. by apply IH.
Qed.
Lemma need_that_true c code u : need_that c code = Ok u → c = true.
Proof. by destruct c. Qed.
Lemma validated_plan planned sources chosen query :
  validate_plan planned QUESTION sources = Ok (chosen, query) → chosen ∈ sources.
Proof.
  unfold validate_plan. intros H. apply res_bind_ok in H as (? & _ & H). apply res_bind_ok in H as (? & Hs%need_that_true & H).
  apply res_bind_ok in H as (? & _ & H). apply res_bind_ok in H as (? & _ & [= <- _]).
  destruct (member "source_path" planned) as [| | |p| |]; try done. exact (bool_decide_eq_true_1 _ Hs).
Qed.

Definition round_ready (n : nat) (g : Watch) : Prop :=
  (opened g || authorized (clock g) (first_seen g)) = true ∧ (Z.of_nat (plans g + n) ≤ MAX_SOURCES) ∧ (selects g <= plans g)%nat.
Lemma ok_rounds n remaining receipts searches sink g (Φ : Found.t → Watch → Prop) :
  round_ready n g → subset remaining approved = true → (∀ found g', (plans g' <= 2)%nat → (selects g' <= plans g')%nat → Φ found g') →
  safe (rounds n approved b remaining receipts searches sink) g (on_ok Φ).
Proof.
  revert remaining receipts searches sink g. induction n as [|n IH]; intros remaining receipts searches sink g (Ho & Hn & Hs) Hr HΦ.
  { apply ok_ret, HΦ; unfold MAX_SOURCES in Hn; lia. }
  cbn [rounds]. apply ok_bind, (ok_asked (plan _ _)).
  { cbn [allowed]. rewrite String.eqb_refl, Hr, Ho. cbn. apply Z.ltb_lt. lia. }
  intros planned. apply ok_bind, ok_of_res. intros [chosen query] Hplan%validated_plan.
  assert (chosen ∈ approved) as Hc by (rewrite subset_spec in Hr; by apply Hr).
  unfold read_source. apply ok_bind, ok_bind, (ok_asked (get_text_file _ _ _ _)).
  { cbn [allowed next]. unfold base. rewrite !String.eqb_refl, bool_decide_eq_true_2 by done. cbn. by apply Nat.leb_le. }
  intros value. apply ok_of_res. intros [[[text blob] sha] nbytes] _. apply ok_bind, ok_demanded. intros _.
  set (g1 := next _ _ _). pose proof (length_best chosen query text) as Hlen.
  assert (round_ready n g1 ∧ (selects g1 < plans g1)%nat) as [Hr1 Hs1].
  { unfold round_ready, g1. cbn. split; [|lia]. split; [done|]. split; lia. }
  destruct (best_snippets b chosen query text) as [|s l].
  - apply ok_bind, ok_record. intros sink'. apply IH; [done|by apply remove_first_subset|done].
  - apply ok_bind, (ok_asked (select _ _)).
    { cbn [allowed]. rewrite String.eqb_refl, length_excerpts. cbn [andb]. apply andb_true_intro. split; [by apply Nat.leb_le|by apply Nat.ltb_lt]. }
    intros selected. apply ok_bind, ok_of_res. intros candidate _. apply ok_bind, ok_record. intros sink'.
    assert (round_ready n (next g1 (select QUESTION (excerpts_from 0 (s :: l))) (Ok selected))) as Hr2.
    { destruct Hr1 as (H1 & H2 & H3). unfold round_ready, g1. cbn. split; [done|]. cbn in H2, Hs1. split; [lia|]. unfold g1 in Hs1. cbn in Hs1. lia. }
    destruct candidate as [c|]; [|apply IH; [done|by apply remove_first_subset|done]].
    destruct Hr2 as (_ & H2 & H3). apply ok_ret, HΦ; [unfold MAX_SOURCES in H2; lia|done].
Qed.

(** The citation's binding reads one source, from the independent reader. *)
Lemma ok_bound observed g (Φ : BoundIssueRAG.t → Watch → Prop) :
  authorized (clock g) (first_seen g) = true →
  (∀ c value text blob sha n, attested b observed c → file_data value (BoundIssueRAG.source_path c) = Ok (text, blob, sha, n) →
     is_cited c (utf8_encode text) → Φ c (g <| reread := Some value |>)) →
  safe (interpret fetch_source (bind_issue_rag b observed)) g (on_ok Φ).
Proof.
  intros Ha HΦ. unfold bind_issue_rag. destruct (checked_receipt b observed) as [[c size]|e] eqn:Ec; [|by apply (safe_throw allowed next)].
  apply checked_receipt_attests in Ec as Hc. cbn. split.
  { unfold base. rewrite String.eqb_refl, Ha, bool_decide_eq_true_2 by exact (at_source _ _ _ Hc). done. }
  intros [value|e]; [|done]. cbn.
  destruct (file_data value _) as [[[[text blob] sha] n]|e] eqn:Ef; [|done].
  cbn -[checked_source utf8_encode].
  destruct (checked_source c size (Some (utf8_encode text))) as [u|e] eqn:Es; [|done].
  apply checked_source_cited in Es as (raw & [= <-] & Hr). cbn. by eapply HΦ.
Qed.

(** What a receipt that is returned is evidence of. *)
Definition answered (observed : json) (g : Watch) : Prop :=
  ∃ found calls digest,
    observed = signed (observed_members b found calls digest) ∧ 1 ≤ calls ≤ MAX_MODEL_CALLS ∧
    starts_with MODEL_DIGEST_PREFIX digest = true ∧ (plans g <= 2)%nat ∧ (selects g <= plans g)%nat ∧
    ((Found.citation found = JNull ∧ authorized (clock g) (first_seen g) = true) ∨
     ∃ c value text blob sha n, attested b observed c ∧ reread g = Some value ∧
       file_data value (BoundIssueRAG.source_path c) = Ok (text, blob, sha, n) ∧ is_cited c (utf8_encode text) ∧
       authorized (clock g) (second_seen g) = true).

Lemma ok_attestation starting g (Φ : Z * string → Watch → Prop) :
  (∀ calls digest, 1 ≤ calls ≤ MAX_MODEL_CALLS → starts_with MODEL_DIGEST_PREFIX digest = true → Φ (calls, digest) g) →
  safe (model_attestation starting) g (on_ok Φ).
Proof.
  intros HΦ. unfold model_attestation. apply ok_bind, (ok_asked planner_calls); [done|]. intros completed.
  apply ok_bind, (ok_asked planner_model_digest); [done|]. intros digest. cbn [next].
  destruct (is_int completed && _ && _ && _) eqn:E; [|by apply (safe_throw allowed next)].
  apply ok_bind, ok_bind, (ok_asked planner_process_verified); [done|]. intros v. apply ok_demanded. intros _. apply ok_ret.
  apply andb_prop in E as [E Hd]. apply andb_prop in E as [E H2%Z.leb_le]. apply andb_prop in E as [_ H1%Z.leb_le].
  destruct digest as [| | |d| |]; try discriminate Hd. apply andb_prop in Hd as [_ Hd]. by apply HΦ.
Qed.

Lemma ok_research sink : safe (research_with approved sink b) at_first (on_ok answered).
Proof.
  unfold research_with, new_research, research. apply ok_bind, ok_of_res. intros u H.
  apply res_bind_ok in H as (? & H%require_true & _). rewrite !andb_true_iff in H. destruct H as [[[_ Hn%Z.leb_le] _] _].
  apply ok_bind, ok_read_authorized. cbn [opened plans selects reread at_first]. intros g Ha Ho Hp Hs _.
  apply ok_bind, (ok_asked planner_calls); [done|]. intros starting. cbn [next]. apply ok_bind, ok_demanded. intros _.
  apply ok_bind, ok_rounds.
  { split; [by rewrite Ha, orb_true_r|]. rewrite Hp, Hs. split; [|done]. unfold MAX_SOURCES in *. cbn. lia. }
  { apply subset_spec. done. }
  intros found g1 Hp1 Hs1. apply ok_bind, ok_read_authorized. intros g2 Ha2 _ Hp2 Hs2 _.
  apply ok_bind, ok_attestation. intros calls digest Hcalls Hd. cbn [fst snd].
  set (observed := signed _). rewrite <- Hp2 in Hp1. rewrite <- Hs2, <- Hp2 in Hs1.
  destruct (is_none (Found.citation found)) eqn:En.
  { apply is_none_spec in En. apply ok_bind, ok_ret, ok_ret. exists found, calls, digest. repeat (split; [done|]). by left. }
  apply ok_bind, ok_bind, ok_bound; [done|]. intros c value text blob sha n Hat Hf Hc.
  apply ok_read_authorized. intros g3 Ha3 _ Hp3 Hs3 Hr3. apply ok_ret. cbn in Hp3, Hs3, Hr3.
  exists found, calls, digest. rewrite Hp3, Hs3. repeat (split; [done|]). right.
  exists c, value, text, blob, sha, n. by rewrite Hr3.
Qed.

(** C39: whatever GitHub, the planner and the clock answer, research asks the
    model for at most two plans and one selection for each, only after the
    first reader returned the owner's current authorisation of this binding;
    it reads only approved documents of the repository at the authorised
    base, and what it appends to the caller's list is metadata.  A receipt
    that it returns is the signed one of this binding, with the calls and the
    digest of the pinned model, after the authorisation was read again since
    the model's last answer; one with a citation passed every check, the
    bytes that the independent reader returned are those cited and hold the
    excerpt at its line, and the independent reader returned the owner's
    authorisation after that. *)
Theorem research_is_bracketed (sink : option nat) (t : list (event (answer:=answer))) (x : res json)
    (Hruns : runs (research_with approved sink b) t x) :
  accepts allowed next at_first t = true ∧ ∀ observed, x = Ok observed → answered observed (reached next at_first t).
Proof.
  destruct (safe_runs _ _ _ _ _ _ _ (ok_research sink) Hruns) as [Ha HQ]. split; [done|]. intros observed ->. exact HQ.
Qed.
End Protocol.
Lemma research_is_bracketed_witness :
  length research_run.1 = 21%nat ∧
  accepts (allowed [rag_path] issue_binding) next at_first research_run.1 = true ∧
  ∀ observed, research_run.2.1 = Ok observed → answered issue_binding observed (reached next at_first research_run.1).
Proof.
  split; [vm_compute; reflexivity|].
  apply (research_is_bracketed [rag_path] issue_binding (Some 0%nat) research_run.1 research_run.2.1).
  exact (execute_runs research_world (research_with [rag_path] (Some 0%nat) issue_binding) 3).
Defined.

(** ** The lines that the model may cite *)

Section Lines.
Context {core : AgentCore} (b : IssueBinding.t) (path query text : string).
Abbreviation candidates := (snippets_from b path (ranking_words query) 1 (splitlines text)).

Lemma ranks_before_total s u : ranks_before s u = true ∨ ranks_before u s = true.
Proof.
  unfold ranks_before. rewrite !orb_true_iff, !andb_true_iff, !Z.ltb_lt, !Z.eqb_eq, !Z.leb_le. lia.
Qed.
Lemma ranks_before_trans s u v : ranks_before s u = true → ranks_before u v = true → ranks_before s v = true.
Proof.
  unfold ranks_before. rewrite !orb_true_iff, !andb_true_iff, !Z.ltb_lt, !Z.eqb_eq, !Z.leb_le. lia.
Qed.
Lemma sorted_ranks l : StronglySorted (λ s u, ranks_before s u = true) (sort_by ranks_before l).
Proof.
  assert (∀ x k, StronglySorted (λ s u, ranks_before s u = true) k →
    StronglySorted (λ s u, ranks_before s u = true) (insert_by ranks_before x k)) as Hins.
  { intros x k. induction 1 as [|y k Hk IH Hy]; cbn; [by repeat constructor|]. destruct (ranks_before x y) eqn:E.
    - constructor; [by constructor|]. constructor; [done|]. eapply Forall_impl; [exact Hy|]. intros z. by apply ranks_before_trans.
    - constructor; [exact IH|]. rewrite Forall_forall in Hy |- *. intros z [->|Hz]%elem_of_insert_by; [|by apply Hy].
      by destruct (ranks_before_total x y) as [H|H]; [rewrite H in E|]. }
  induction l as [|x l IH]; [constructor|]. by apply Hins.
Qed.

(** A candidate is a line of the text, with its excerpt and a positive score. *)
Definition is_candidate (s : Snippet.t) (first : Z) (lines : list string) : Prop :=
  ∃ value, first ≤ Snippet.line s ∧ lines !! Z.to_nat (Snippet.line s - first) = Some value ∧
    Snippet.excerpt s = take_str (Z.to_nat MAX_LINE) (strip value) ∧ nonempty (Snippet.excerpt s) = true ∧
    1 ≤ Snippet.score s ≤ 24 ∧ Snippet.path s = path.
Lemma candidates_are_lines ranking first lines s :
  s ∈ snippets_from b path ranking first lines → is_candidate s first lines.
Proof.
  revert first. induction lines as [|value lines IH]; intros first; cbn [snippets_from]; [by intros ?%elem_of_nil|].
  intros [H|H]%elem_of_app.
  - unfold snippet_of in H. destruct (nonempty _ && _) eqn:E; [|by apply elem_of_nil in H].
    apply list_elem_of_singleton in H as ->. apply andb_prop in E as [E1 E2]. apply negb_true_iff, Z.eqb_neq in E2.
    exists value. cbn [Snippet.line Snippet.excerpt Snippet.score Snippet.path]. rewrite Z.sub_diag. repeat split; try done; lia.
  - destruct (IH _ H) as (v & H1 & H2 & H3). exists v. split; [lia|]. split; [|done].
    replace (Z.to_nat (Snippet.line s - first)) with (S (Z.to_nat (Snippet.line s - (first + 1)))) by lia. exact H2.
Qed.

(** The lines shown to the model are at most five, each a line of the
    source with the query's or the topic's words in it, the best first; and a
    line that is left out does not rank before any that is shown, and is left
    out only when five are shown. *)
Theorem best_lines_are_shown :
  let shown := best_snippets b path query text in
  (length shown <= MAX_LINES)%nat ∧ StronglySorted (λ s u, ranks_before s u = true) shown ∧
  (∀ s, s ∈ shown → is_candidate s 1 (splitlines text)) ∧
  ∀ u, u ∈ candidates → u ∉ shown → length shown = MAX_LINES ∧ ∀ s, s ∈ shown → ranks_before s u = true.
Proof.
  cbn zeta. unfold best_snippets. pose proof (sorted_ranks candidates) as Hs.
  set (l := sort_by ranks_before candidates) in *.
  assert (∀ s, s ∈ l ↔ s ∈ candidates) as Hl by (intros s; apply elem_of_sort_by).
  clearbody l. rewrite <- (take_drop MAX_LINES l) in Hs. apply StronglySorted_app in Hs as (Hb & Hs & _).
  split; [rewrite length_take; lia|]. split; [done|]. split.
  { intros s H. apply (candidates_are_lines (ranking_words query)), Hl. eapply elem_of_submseteq; [exact H|].
    apply sublist_submseteq, sublist_take. }
  intros u Hu Hn. apply Hl in Hu. rewrite <- (take_drop MAX_LINES l), elem_of_app in Hu. destruct Hu as [Hu|Hu]; [done|].
  split; [|intros s H; by apply Hb]. rewrite length_take. assert (drop MAX_LINES l ≠ []) as Hd by (by intros E; rewrite E in Hu; apply elem_of_nil in Hu).
  destruct (le_lt_dec (length l) MAX_LINES) as [H|H]; [by rewrite drop_ge in Hd|lia].
Qed.
End Lines.
