(* ===== verification/LocalWorker.v ===== *)
(** The local worker for one numeric function, [app/local_code_worker.py]: the
    trusted task, the expressions that a candidate may be, their evaluation on
    the acceptance cases, the repair in an isolated branch, the validator's
    command line and the client of the model.

    A number is an integer: the evaluation of a float is an error of its own.
    The repair is a program over git and the other processes, the files of the
    copy and of the state directory, and the callback that proposes. *)
From Stdlib Require Import Ascii String.
From S2P Require Import Prelude Prog PyStr Sha256 Clock Json PyVal PyText PyAst IsoDate Names Structured Repair IssueDraft.
From S2P Require Import ModelClient.
From stdpp Require Import strings list.

Local Open Scope string_scope.
Local Open Scope Z_scope.
Local Open Scope list_scope.

Definition LOCAL_MODEL : string := "qwen2.5-coder:1.5b".
Definition LOCAL_NODES : list string :=
  ["Expression"; "BinOp"; "UnaryOp"; "BoolOp"; "Compare"; "IfExp"; "Call"; "Name"; "Load"; "Constant"; "Add"; "Sub"; "Mult";
   "UAdd"; "USub"; "Not"; "And"; "Or"; "Eq"; "NotEq"; "Lt"; "LtE"; "Gt"; "GtE"].
Definition MIN_MAX : list string := ["min"; "max"].

(** ** The task *)

(** [numeric(value)] *)
Definition MILLION : Z := 1000000.
Definition numeric : json → bool := int_that (fun n => Z.abs n <=? MILLION).
Module NumericCase.
Record t := mk { args : list Z; expected : Z; raw : json }.
End NumericCase.
Module NumericTask.
Record t := mk {
  task_id : string; path : string; function : string; parameters : list string; instruction : string;
  base_sha : string; before_sha256 : string; cases : list NumericCase.t; raw : json }.
End NumericTask.
Abbreviation NTask := NumericTask.t.

Definition NUM_PATH : re := Cat (lit "src/") (Cat (Chr is_lower) (Cat (Rep 0 (Some 60%nat) (Chr word_char)) (lit ".py"))).
Definition NUM_IDENT : re := Cat (Chr is_lower) (Rep 0 (Some 40%nat) (Chr word_char)).
Definition task_text (r : re) (field : string) (task : json) : res string :=
  match value_of field task with
  | Some (JStr s) => require_ok (fullmatch r s) (String.append "task_" field) ;; Ok s
  | _ => Raise (worker_blocked (String.append "task_" field))
  end.
Definition numeric_case (arity : nat) (case : json) : res NumericCase.t :=
  require_ok (has_exactly ["args"; "expected"] case) "task_case" ;;
  match value_of "args" case, value_of "expected" case with
  | Some (JList args), Some expected =>
      require_ok ((length args =? arity)%nat && forallb numeric args && numeric expected) "task_case" ;;
      Ok (NumericCase.mk (map int_value args) (int_value expected) case)
  | _, _ => Raise (worker_blocked "task_case")
  end.
Fixpoint numeric_cases (arity : nat) (l : list json) : res (list NumericCase.t) :=
  match l with
  | [] => Ok []
  | x :: l' => c ← numeric_case arity x; cs ← numeric_cases arity l'; Ok (c :: cs)
  end.
(** [task_spec] *)
Definition numeric_task (task : json) : res NTask :=
  require_ok (has_exactly TASK_FIELDS task) "task_schema" ;;
  task_id ← task_text TASK_ID "task_id" task;
  base_sha ← task_text SHA40 "base_sha" task;
  before_sha256 ← task_text HEX64 "before_sha256" task;
  path ← task_text NUM_PATH "path" task;
  function ← task_text NUM_IDENT "function" task;
  require_ok (negb (bool_decide (function ∈ MIN_MAX))) "reserved_function" ;;
  parameters ← match value_of "parameters" task with
               | Some (JList l) => match strs l with Some ps => Ok ps | None => Raise (worker_blocked "task_parameters") end
               | _ => Raise (worker_blocked "task_parameters")
               end;
  require_ok ((1 <=? length parameters)%nat && (length parameters <=? 4)%nat && forallb (fullmatch NUM_IDENT) parameters &&
              bool_decide (NoDup parameters) && Structured.disjoint parameters MIN_MAX) "task_parameters" ;;
  instruction ← match value_of "instruction" task with Some (JStr s) => Ok s | _ => Raise (worker_blocked "task_instruction") end;
  require_ok ((1 <=? length_of instruction) && (length_of instruction <=? 2000)) "task_instruction" ;;
  raw_cases ← match value_of "cases" task with Some (JList l) => Ok l | _ => Raise (worker_blocked "task_cases") end;
  require_ok ((2 <=? length raw_cases)%nat && (length raw_cases <=? 200)%nat) "task_cases" ;;
  cases ← numeric_cases (length parameters) raw_cases;
  Ok (NumericTask.mk task_id path function parameters instruction base_sha before_sha256 cases task).

(** ** Expressions *)

Section Expressions.
Context {py : Language}.

Definition numeric_const (c : PyAst.const) : bool :=
  match c with c_json v => numeric v | c_float bounded => bounded | c_other => false end.
(** The check of a call: [min] or [max] of two arguments. *)
Definition min_max_call (n : node) : bool :=
  sub_that "func" (fun f => is_node "Name" f && bool_decide (text_atom "id" f ∈ MIN_MAX)) n &&
  (length (entries "args" n) =? 2)%nat && absent "keywords" n.
(** The stack of the loop, a node before its children from the last; a name is
    a parameter, or what a call names. *)
Fixpoint visit_expression (parameters : list string) (depth : Z) (called : bool) (n : node) : res unit :=
  require_ok (depth <=? 16) "candidate_depth" ;;
  require_ok (negb (is_node "Name" n) || bool_decide (text_atom "id" n ∈ parameters) || called) "candidate_name" ;;
  require_ok (negb (is_node "Constant" n) || numeric_const (const_of n)) "candidate_constant" ;;
  match n with
  | Node cls _ _ fields =>
      foldr (fun f later =>
        later ;;
        foldr (fun o later =>
          later ;;
          match o with
          | Some m => visit_expression parameters (depth + 1) (String.eqb cls "Call" && String.eqb f.1 "func") m
          | None => Ok tt
          end) (Ok tt) f.2) (Ok tt) fields
  end.
Definition syntax_or (code : string) (r : res node) : res node :=
  match r with Raise e => Raise (if syntax_failure e then worker_blocked code else e) | r => r end.
(** [expression_tree]: the body of the [Expression], which is one more node and
    one more level. *)
Definition expression_tree (expression : json) (parameters : list string) : res node :=
  match expression with
  | JStr s =>
      require_ok ((1 <=? byte_length s) && (byte_length s <=? 1024)) "candidate_size" ;;
      tree ← syntax_or "candidate_syntax" (ast_parse_eval (strip s));
      let nodes := walk tree in
      require_ok ((S (length nodes) <=? 96)%nat && forallb (fun n => bool_decide (cls_of n ∈ LOCAL_NODES)) nodes) "candidate_grammar" ;;
      require_ok (forallb (fun n => negb (is_node "Call" n) || min_max_call n) nodes) "candidate_call" ;;
      visit_expression parameters 1 false tree ;;
      Ok tree
  | _ => Raise (worker_blocked "candidate_size")
  end.

(** *** Evaluation *)

Inductive value : Type := v_int (n : Z) | v_bool (b : bool).
Definition num (v : value) : Z := match v with v_int n => n | v_bool b => Z.b2z b end.
Definition truthful (v : value) : bool := negb (num v =? 0).
Definition beyond_numbers : exn := Error "beyond" "a float".
Definition stuck {A} : res A := Raise (TypeError "not an expression of the grammar").
Definition compare_with (cls : string) (a b : Z) : option bool :=
  if String.eqb cls "Eq" then Some (a =? b) else if String.eqb cls "NotEq" then Some (negb (a =? b))
  else if String.eqb cls "Lt" then Some (a <? b) else if String.eqb cls "LtE" then Some (a <=? b)
  else if String.eqb cls "Gt" then Some (b <? a) else if String.eqb cls "GtE" then Some (b <=? a) else None.
Definition arithmetic (cls : string) (a b : Z) : option Z :=
  if String.eqb cls "Add" then Some (a + b) else if String.eqb cls "Sub" then Some (a - b)
  else if String.eqb cls "Mult" then Some (a * b) else None.
Definition unary (cls : string) (a : value) : option value :=
  if String.eqb cls "UAdd" then Some (v_int (num a)) else if String.eqb cls "USub" then Some (v_int (- num a))
  else if String.eqb cls "Not" then Some (v_bool (negb (truthful a))) else None.
Definition or_stuck {A} (o : option A) : res A := match o with Some a => Ok a | None => stuck end.
Definition sub_class (k : string) (n : node) : string := match subnode k n with Some m => cls_of m | None => "" end.

Section Evaluate.
Context (eval : node → res value).
Definition eval_sub (k : string) (n : node) : res value :=
  match subnode k n with Some m => eval m | None => stuck end.
(** [and] and [or] return the operand that decides. *)
Fixpoint eval_bool (conjunction : bool) (l : list node) : res value :=
  match l with
  | [] => stuck
  | [n] => eval n
  | n :: l' => v ← eval n; if Bool.eqb (truthful v) conjunction then eval_bool conjunction l' else Ok v
  end.
(** A chain of comparisons. *)
Fixpoint eval_chain (a : value) (ops comparators : list node) : res value :=
  match ops, comparators with
  | o :: ops', c :: comparators' =>
      b ← eval c;
      r ← or_stuck (compare_with (cls_of o) (num a) (num b));
      match ops' with
      | [] => Ok (v_bool r)
      | _ => if (r : bool) then eval_chain b ops' comparators' else Ok (v_bool false)
      end
  | _, _ => stuck
  end.
End Evaluate.
(** The value of an expression; [fuel] bounds its depth. *)
Fixpoint evaluate (fuel : nat) (env : list (string * Z)) (n : node) : res value :=
  match fuel with
  | O => Raise (Error "RecursionError" "depth")
  | S fuel' =>
      let eval := evaluate fuel' env in
      if is_node "Constant" n then
        match const_of n with
        | c_json (JInt z) => Ok (v_int z)
        | c_json (JBool b) => Ok (v_bool b)
        | c_float _ => Raise beyond_numbers
        | _ => stuck
        end
      else if is_node "Name" n then
        match lookup_key (text_atom "id" n) env with Some z => Ok (v_int z) | None => Raise (Error "NameError" (text_atom "id" n)) end
      else if is_node "BinOp" n then
        a ← eval_sub eval "left" n; b ← eval_sub eval "right" n;
        z ← or_stuck (arithmetic (sub_class "op" n) (num a) (num b)); Ok (v_int z)
      else if is_node "UnaryOp" n then
        a ← eval_sub eval "operand" n; or_stuck (unary (sub_class "op" n) a)
      else if is_node "BoolOp" n then
        (if String.eqb (sub_class "op" n) "And" then eval_bool eval true (nodes "values" n)
         else if String.eqb (sub_class "op" n) "Or" then eval_bool eval false (nodes "values" n) else stuck)
      else if is_node "Compare" n then
        a ← eval_sub eval "left" n; eval_chain eval a (nodes "ops" n) (nodes "comparators" n)
      else if is_node "IfExp" n then
        t ← eval_sub eval "test" n; eval_sub eval (if truthful t then "body" else "orelse") n
      else if is_node "Call" n then
        match subnode "func" n, nodes "args" n with
        | Some f, [x; y] =>
            a ← eval x; b ← eval y;
            if String.eqb (text_atom "id" f) "min" then Ok (if num b <? num a then b else a)
            else if String.eqb (text_atom "id" f) "max" then Ok (if num a <? num b then b else a) else stuck
        | _, _ => stuck
        end
      else stuck
  end.
Definition DEPTH : nat := 17.

(** [type(value) in (int, float) and math.isfinite(value)]: an integer that is
    no double raises. *)
Definition FLOAT_LIMIT : Z := 2 ^ 1024 - 2 ^ 970.
Definition finite_int (v : value) : res Z :=
  match v with
  | v_int n => if Z.abs n <? FLOAT_LIMIT then Ok n else Raise (OverflowError "int too large to convert to float")
  | v_bool _ => Raise (worker_blocked "non_numeric_result")
  end.
Fixpoint count_passed (parameters : list string) (body : node) (cases : list NumericCase.t) : res Z :=
  match cases with
  | [] => Ok 0
  | c :: cases' =>
      v ← evaluate DEPTH (zip parameters (NumericCase.args c)) body;
      n ← finite_int v;
      rest ← count_passed parameters body cases';
      Ok (Z.b2z (n =? NumericCase.expected c) + rest)
  end.

(** ** Candidates *)

(** [source_for] *)
Definition source_for (t : NTask) (reply : json) : res string :=
  match reply with
  | JStr s =>
      require_ok (byte_length s <=? 4096) "provider_reply_size" ;;
      candidate ← match json_loads s with
                  | Raise e => Raise (match e with ValueError _ | TypeError _ => worker_blocked "provider_reply_json" | e => e end)
                  | r => r
                  end;
      require_ok (has_exactly ["expression"] candidate) "candidate_schema" ;;
      tree ← expression_tree (member "expression" candidate) (NumericTask.parameters t);
      Ok (concat_text ["def "; NumericTask.function t; "("; join_with ", " (NumericTask.parameters t); "):"; newline;
                       "    return "; ast_unparse tree; newline])
  | _ => Raise (worker_blocked "provider_reply_size")
  end.

(** [check_source] *)
Definition numeric_signature (t : NTask) (f : node) : bool :=
  String.eqb (text_atom "name" f) (NumericTask.function t) && absent "decorator_list" f && absent "returns" f &&
  plain_signature (NumericTask.parameters t) f && absent "kw_defaults" (arguments_of f) &&
  forallb (absent "annotation") (nodes "args" (arguments_of f)) &&
  match entries "body" f with [Some r] => is_node "Return" r && negb (absent "value" r) | _ => false end.
Definition returned_expression (f : node) : option node :=
  match entries "body" f with [Some r] => subnode "value" r | _ => None end.
Definition execution_failure (e : exn) : bool :=
  match e with
  | ValueError _ | TypeError _ | OverflowError _ => true
  | Error c _ => bool_decide (c ∈ ["SyntaxError"; "RecursionError"; "ZeroDivisionError"; "ArithmeticError"])
  | _ => false
  end.
Definition as_execution {A} (r : res A) : res A :=
  match r with Raise e => Raise (if execution_failure e then worker_blocked "candidate_execution" else e) | r => r end.
Definition check_source (source : string) (t : NTask) : res Z :=
  require_ok (byte_length source <=? 2048) "source_size" ;;
  as_execution
    (tree ← ast_parse source;
     match entries "body" tree with
     | [Some f] =>
         require_ok (is_node "FunctionDef" f) "source_function" ;;
         require_ok (numeric_signature t f) "source_signature" ;;
         match returned_expression f with
         | Some body =>
             expression_tree (JStr (ast_unparse body)) (NumericTask.parameters t) ;;
             count_passed (NumericTask.parameters t) body (NumericTask.cases t)
         | None => Raise (worker_blocked "source_signature")
         end
     | _ => Raise (worker_blocked "source_function")
     end).
End Expressions.

(** ** The repair *)

Module HooksStat.
Record t := mk { is_symlink : bool; exists_ : bool; items : list (bool * string) }.
End HooksStat.
Module FileStat.
Record t := mk {
  root_is_dir : bool; root_is_symlink : bool; src_is_dir : bool; src_is_symlink : bool;
  is_file : bool; is_symlink : bool; st_nlink : Z; parent_is_src : bool }.
End FileStat.
Inductive lop : Type :=
  | client (o : ModelClient.op)                 (** processes *)
  | propose (task : json) (source : string)
  | resolve_roots
  | make_state
  | lock (name : string)
  | unlock (name : string)
  | target_stat (path : string)
  | hooks_stat (folder : string)
  | read_bytes (path : string)
  | read_text (path : string)
  | write_text (path text : string)
  | receipt_exists (name : string)
  | read_receipt (name : string)
  | replace_json (name : string) (value : json)  (** [atomic_json] in the state directory *)
  | write_patch (text : string)
  (* the command line of the validator *)
  | arguments
  | read_argument (name : string)
  | print (line : string).
Definition lanswer (o : lop) : Type :=
  match o with
  | client o => ModelClient.answer o
  | propose _ _ => json
  | resolve_roots => Repair.Roots.t
  | target_stat _ => FileStat.t
  | hooks_stat _ => HooksStat.t
  | read_bytes _ | read_text _ | read_receipt _ | read_argument _ => string
  | receipt_exists _ => bool
  | arguments => list string
  | _ => unit
  end.
Abbreviation L := (prog lanswer).
Definition insists (c : bool) (code : string) : L unit := of_res (require_ok c code).
Fixpoint by_client {A} (m : prog ModelClient.answer A) : L A :=
  match m with
  | Ret a => Ret a
  | Throw e => Throw e
  | Do o k => Do (client o : lop) (fun r : res (ModelClient.answer o) => by_client (k r))
  end.

Definition git (args : list string) : L string := by_client (process ("git" :: args)).
Definition safe_target (t : NTask) : L string :=
  s ← call (target_stat (NumericTask.path t));
  insists (FileStat.root_is_dir s && negb (FileStat.root_is_symlink s) && FileStat.src_is_dir s && negb (FileStat.src_is_symlink s) &&
           FileStat.is_file s && negb (FileStat.is_symlink s) && (FileStat.st_nlink s =? 1) && FileStat.parent_is_src s)
    "target_not_regular" ;;
  mret (NumericTask.path t).
Definition git_head : L string := git ["rev-parse"; "HEAD"].
Definition git_status : L string := git ["status"; "--porcelain"; "--untracked-files=all"].

Section LocalRepair.
Context {py : Language}.

(** [validate_independently]: the validator is this module's command line, run
    by the interpreter at [executable]. *)
Context (executable module : string).
Definition validated_json (n : Z) : json := JObj [("passed", JInt n); ("result", JStr "VALIDATED")].
Definition case_count (t : NTask) : Z := Z.of_nat (length (NumericTask.cases t)).
Definition validate_independently (t : NTask) : L Z :=
  call (replace_json "validation-task.json" (NumericTask.raw t)) ;;
  path ← safe_target t;
  result ← by_client (process [executable; module; "validate"; path; "validation-task.json"]);
  evidence ← match json_loads result with
             | Raise e => throw (if value_failure e then worker_blocked "validator_json" else e)
             | Ok v => mret v
             end;
  insists (py_eqb evidence (validated_json (case_count t))) "validator_rejected" ;;
  mret (int_value (member "passed" evidence)).

(** The hooks' folder, and that it has no active hook. *)
Definition no_active_hooks : L unit :=
  folder ← git ["rev-parse"; "--git-path"; "hooks"];
  s ← call (hooks_stat folder);
  insists (negb (HooksStat.is_symlink s) &&
           (negb (HooksStat.exists_ s) || negb (existsb (fun i => i.1 && negb (ends_with ".sample" i.2)) (HooksStat.items s))))
    "active_git_hooks".
Definition unchanged_copy (t : NTask) : L unit :=
  head ← git_head;
  (if String.eqb head (NumericTask.base_sha t) then status ← git_status; insists (String.eqb status "") "concurrent_repo_change"
   else insists false "concurrent_repo_change").

Definition numeric_hash (t : NTask) : string := sha256_of (json_dumps (sort_all (NumericTask.raw t))).
(** A receipt of an earlier repair. *)
Definition replay_numeric (name : string) (t : NTask) (path : string) : L json :=
  text ← call (read_receipt name);
  previous ← of_res (json_loads text);
  hash ← of_res (get "task_hash" previous);
  insists (is_text hash (numeric_hash t)) "replay_task_mismatch" ;;
  produced ← of_res (get "produced_sha" previous);
  head ← git_head;
  (if is_text produced head then
     after ← of_res (get "after_sha256" previous);
     bytes ← call (read_bytes path);
     insists (is_text after (sha256_hex bytes)) "replay_changed"
   else insists false "replay_changed") ;;
  validate_independently t ;;
  mret (match previous with
        | JObj ms => JObj (set_key "model_calls" (JInt 0) (set_key "replayed" (JBool true) ms))
        | v => v
        end).

(** The cases of a candidate that it fails, then those that it passes. *)
Fixpoint split_cases (after : string) (t : NTask) (cases : list NumericCase.t) : res (list NumericCase.t * list NumericCase.t) :=
  match cases with
  | [] => Ok ([], [])
  | c :: cases' =>
      n ← check_source after (NumericTask.mk (NumericTask.task_id t) (NumericTask.path t) (NumericTask.function t)
            (NumericTask.parameters t) (NumericTask.instruction t) (NumericTask.base_sha t) (NumericTask.before_sha256 t) [c; c]
            (NumericTask.raw t));
      rest ← split_cases after t cases';
      Ok (if n =? 2 then (rest.1, c :: rest.2) else (c :: rest.1, rest.2))
  end.
Definition with_cases (task : json) (cases : list NumericCase.t) : json :=
  match task with JObj ms => JObj (set_key "cases" (JList (map NumericCase.raw cases)) ms) | v => v end.
(** One attempt: a proposal, checked. *)
Definition attempt_once (t : NTask) (before : string) (task : json) (source : string) : L (string * Z) :=
  unchanged_copy t ;;
  reply ← call (propose task source);
  after ← of_res (source_for t reply);
  insists (negb (String.eqb after before)) "no_code_change" ;;
  passed ← of_res (check_source after t);
  mret (after, passed).
Definition attempt_record (n : Z) (t : NTask) (after : string) (passed : Z) : json :=
  JObj [("attempt", JInt n); ("candidate_sha256", JStr (sha256_of after)); ("passed", JInt passed); ("total", JInt (case_count t))].
Definition attempts (t : NTask) (before : string) : L (string * list json) :=
  first ← attempt_once t before (NumericTask.raw t) before;
  let record1 := attempt_record 1 t first.1 first.2 in
  if first.2 =? case_count t then mret (first.1, [record1])
  else
    split ← of_res (split_cases first.1 t (NumericTask.cases t));
    insists (negb (match split.1 with [] => true | _ => false end)) "failure_feedback_missing" ;;
    second ← attempt_once t before (with_cases (NumericTask.raw t) (split.1 ++ split.2)) first.1;
    let record2 := attempt_record 2 t second.1 second.2 in
    if second.2 =? case_count t then mret (second.1, [record1; record2])
    else throw (worker_blocked "candidate_tests_failed").

(** The change is written; the validator and git say that it is the only one,
    or it is taken back. *)
Definition is_worker_blocked (e : exn) : bool := match e with Error c _ => String.eqb c "WorkerBlocked" | _ => false end.
Definition write_validated (t : NTask) (path before after : string) : L Z :=
  call (write_text path after) ;;
  r ← attempt (passed ← validate_independently t;
               names ← git ["diff"; "--name-only"];
               insists (String.eqb names (NumericTask.path t)) "change_scope" ;;
               mret passed);
  match r with
  | Ok passed => mret passed
  | Raise e =>
      if is_worker_blocked e then
        now ← call (read_text path);
        (if String.eqb now after then call (write_text path before) else mret tt) ;;
        throw e
      else throw e
  end.
Definition commit_local (t : NTask) (path : string) : L (string * string) :=
  diff ← git ["diff"; "--"; NumericTask.path t];
  git ["add"; "--"; NumericTask.path t] ;;
  git ["-c"; "user.name=Local Code Worker"; "-c"; "user.email=worker@localhost"; "commit"; "-m"; "fix: bounded local model repair"] ;;
  produced ← git_head;
  insists (fullmatch SHA40 produced && negb (String.eqb produced (NumericTask.base_sha t))) "produced_commit_missing" ;;
  names ← git ["diff"; "--name-only"; NumericTask.base_sha t; produced];
  (if String.eqb names (NumericTask.path t) then status ← git_status; insists (String.eqb status "") "commit_scope"
   else insists false "commit_scope") ;;
  validate_independently t ;;
  mret (produced, String.append diff newline).
Definition local_result (t : NTask) (produced patch after_hash : string) (baseline passed : Z) (tries : list json) : json :=
  JObj [("result", JStr "LOCAL_CODE_REPAIRED"); ("task_id", JStr (NumericTask.task_id t)); ("task_hash", JStr (numeric_hash t));
        ("base_sha", JStr (NumericTask.base_sha t)); ("produced_sha", JStr produced);
        ("before_sha256", JStr (NumericTask.before_sha256 t)); ("after_sha256", JStr after_hash);
        ("baseline_passed", JInt baseline); ("passed", JInt passed); ("path", JStr (NumericTask.path t));
        ("patch_sha256", JStr (sha256_of patch)); ("replayed", JBool false);
        ("model_calls", JInt (Z.of_nat (length tries))); ("attempts", JList tries)].
(** A repair of a clean copy that has no receipt. *)
Definition fresh_repair (t : NTask) (name path : string) : L json :=
  head ← git_head;
  insists (String.eqb head (NumericTask.base_sha t)) "base_sha_changed" ;;
  before ← call (read_text path);
  bytes ← call (read_bytes path);
  insists (String.eqb (sha256_hex bytes) (NumericTask.before_sha256 t)) "source_changed" ;;
  baseline ← of_res (check_source before t);
  insists (baseline <? case_count t) "no_failing_baseline" ;;
  found ← attempts t before;
  let '(after, tries) := found in
  unchanged_copy t ;;
  bytes ← call (read_bytes path);
  insists (String.eqb (sha256_hex bytes) (NumericTask.before_sha256 t)) "concurrent_source_change" ;;
  passed ← write_validated t path before after;
  done ← commit_local t path;
  bytes ← call (read_bytes path);
  let result := local_result t done.1 done.2 (sha256_hex bytes) baseline passed tries in
  call (write_patch done.2) ;;
  call (replace_json name result) ;;
  mret result.
Definition repair_locked (name : string) (t : NTask) : L json :=
  path ← safe_target t;
  remote ← git ["remote"];
  insists (String.eqb remote "") "remote_repository_blocked" ;;
  no_active_hooks ;;
  branch ← git ["branch"; "--show-current"];
  insists (starts_with "worker/" branch) "worker_branch_required" ;;
  status ← git_status;
  insists (String.eqb status "") "dirty_worktree" ;;
  known ← call (receipt_exists name);
  if (known : bool) then replay_numeric name t path else fresh_repair t name path.
(** [repair] *)
Definition local_repair (task : json) : L json :=
  t ← of_res (numeric_task task);
  r ← call resolve_roots;
  insists (negb (Repair.Roots.root_symlink r) && negb (Repair.Roots.state_symlink r)) "symlink_root" ;;
  insists (negb (String.eqb (Repair.Roots.root r) (Repair.Roots.state r)) &&
           negb (is_parent (Repair.Roots.root r) (Repair.Roots.state r))) "state_must_be_outside_repo" ;;
  call make_state ;;
  let identity := sha256_of (Repair.Roots.root r) in
  catch (call (lock (String.append identity ".lock")))
    (fun e => throw (match e with Error c _ => if String.eqb c "FileExistsError" then worker_blocked "worker_busy" else e | _ => e end)) ;;
  finally (repair_locked (String.append identity ".json") t) (call (unlock (String.append identity ".lock"))).

(** ** The client of the model, [LocalOllama] *)

Context {bytes : JsonBytes}.
Definition local_system : string := concat_text
  ["Fix the code to satisfy the input/output tests. ";
   "Output only the requested JSON; do not explain or reproduce the known defect."].
Definition local_prompt (t : NTask) (before : string) : string := concat_text
  ["Repair this function; the current implementation fails its tests."; newline;
   NumericTask.instruction t; newline; "Current DEFECTIVE code:"; newline; before;
   newline; "Trusted input/output acceptance examples:"; newline;
   str (dumps_ascii (JList (map NumericCase.raw (take 8 (NumericTask.cases t)))));
   newline; "Return JSON with only the key expression. Its value must be a CORRECTED Python ";
   "expression, not a copy of the defective return value. ";
   "Use function parameters, numeric literals, comparisons, +, -, *, ";
   "conditional expressions (x if condition else y), and optionally min or max ";
   "with exactly two numeric arguments. No other calls, imports, attributes, ";
   "function definitions, return statements or Markdown."].
Definition expression_format : json :=
  JObj [("type", JStr "object"); ("properties", JObj [("expression", JObj [("type", JStr "string")])]);
        ("required", JList [JStr "expression"]); ("additionalProperties", JBool false)].
(** [(show.get("details") or {}).get("format") == "gguf"] *)
Definition gguf_details (show : json) : res bool :=
  let details := member "details" show in
  if truth details then f ← get "format" details; Ok (is_text f "gguf") else Ok false.
(** [LocalOllama.__call__] *)
Definition local_ollama (task : json) (before : string) : P json :=
  t ← of_res (numeric_task task);
  container_no_cloud ;;
  tags ← request "GET" "/api/tags" None;
  item ← match member "models" tags with
         | JList [JObj ms] => mret (JObj ms)
         | _ => throw (worker_blocked "model_inventory")
         end;
  insist (text_is "name" LOCAL_MODEL item && not_remote item) "remote_model_blocked" ;;
  let digest := member "digest" item in
  insist (str_that (fullmatch DIGEST) digest) "model_digest" ;;
  show ← request "POST" "/api/show" (Some (JObj [("model", JStr LOCAL_MODEL)]));
  weights ← (if not_remote show then of_res (gguf_details show) else mret false);
  insist weights "weights_unproved" ;;
  response ← request "POST" "/api/chat"
    (Some (chat_body LOCAL_MODEL [message "system" local_system; message "user" (local_prompt t before)] expression_format
             (JObj [("temperature", JInt 0); ("seed", JInt 7); ("num_predict", JInt 192); ("num_ctx", JInt 2048)])));
  insist (inference_proved LOCAL_MODEL response) "inference_unproved" ;;
  running ← request "GET" "/api/ps" None;
  insist (running_locally LOCAL_MODEL digest (member "models" running)) "local_process_unproved" ;;
  container_no_cloud ;;
  call (assign "model_digest" digest) ;;
  call (assign "process_verified" (JBool true)) ;;
  match member "message" response with
  | JObj ms => match member "content" (JObj ms) with JStr s => mret (JStr s) | _ => throw (worker_blocked "provider_content") end
  | _ => throw (worker_blocked "provider_content")
  end.

(** ** The validator's command line, [main] *)

Definition blocks (e : exn) : bool :=
  match e with Error c _ => String.eqb c "WorkerBlocked" || String.eqb c "OSError" | e => value_failure e end.
Definition main : L Z :=
  catch
    (argv ← call arguments;
     match argv with
     | [_; "validate"; source; spec] =>
         text ← call (read_argument spec);
         task ← of_res (v ← json_loads text; numeric_task v);
         source ← call (read_argument source);
         passed ← of_res (check_source source task);
         insists (passed =? case_count task) "validator_tests_failed" ;;
         call (print (json_dumps (validated_json passed))) ;;
         mret 0
     | _ => throw (worker_blocked "validator_arguments")
     end)
    (fun e => if blocks e
              then call (print (str (dumps (JObj [("result", JStr "VALIDATION_BLOCKED")])))) ;; mret 2
              else throw e).
End LocalRepair.
