(* ===== verification/LocalWorkerProps.v ===== *)
(** What the local worker promises: an accepted expression has a value, within
    the depth of the evaluator and far from the largest double, and a repair
    writes and commits only what its cases and its validator passed. *)
From Stdlib Require Import Ascii String.
From S2P Require Import Prelude Prog PyStr Sha256 Clock Json PyVal PyText PyAst IsoDate Names Structured StructuredProps Repair IssueDraft.
From S2P Require Import ModelClient LocalWorker.
From S2P Require RepairProps.
From stdpp Require Import strings list numbers.

Local Open Scope string_scope.
Local Open Scope Z_scope.
Local Open Scope list_scope.

(** ** The shape of the language's trees *)

Definition EXPRESSIONS : list string :=
  ["BoolOp"; "NamedExpr"; "BinOp"; "UnaryOp"; "Lambda"; "IfExp"; "Dict"; "Set"; "ListComp"; "SetComp"; "DictComp";
   "GeneratorExp"; "Await"; "Yield"; "YieldFrom"; "Compare"; "Call"; "FormattedValue"; "JoinedStr"; "Constant"; "Attribute";
   "Subscript"; "Starred"; "Name"; "List"; "Tuple"; "Slice"].
Definition OPERATORS : list string :=
  ["Add"; "Sub"; "Mult"; "MatMult"; "Div"; "Mod"; "Pow"; "LShift"; "RShift"; "BitOr"; "BitXor"; "BitAnd"; "FloorDiv"].
Definition UNARY_OPERATORS : list string := ["Invert"; "Not"; "UAdd"; "USub"].
Definition BOOLEAN_OPERATORS : list string := ["And"; "Or"].
Definition COMPARISONS : list string := ["Eq"; "NotEq"; "Lt"; "LtE"; "Gt"; "GtE"; "Is"; "IsNot"; "In"; "NotIn"].
(** A field that holds one node, and one that holds a list of nodes. *)
Definition of_class (classes : list string) (o : option node) : bool :=
  match o with Some m => bool_decide (cls_of m ∈ classes) | None => false end.
Definition one_of (classes : list string) (k : string) (n : node) : bool :=
  match entries k n with [o] => of_class classes o | _ => false end.
Definition all_of (classes : list string) (k : string) (n : node) : bool := forallb (of_class classes) (entries k n).
(** The abstract grammar of the language, for the nodes that a worker allows. *)
Definition grammatical (n : node) : bool :=
  if is_node "BinOp" n then one_of EXPRESSIONS "left" n && one_of OPERATORS "op" n && one_of EXPRESSIONS "right" n
  else if is_node "UnaryOp" n then one_of UNARY_OPERATORS "op" n && one_of EXPRESSIONS "operand" n
  else if is_node "BoolOp" n then
    one_of BOOLEAN_OPERATORS "op" n && negb (absent "values" n) && all_of EXPRESSIONS "values" n
  else if is_node "Compare" n then
    one_of EXPRESSIONS "left" n && negb (absent "ops" n) && all_of COMPARISONS "ops" n && all_of EXPRESSIONS "comparators" n &&
    (length (entries "ops" n) =? length (entries "comparators" n))%nat
  else if is_node "IfExp" n then one_of EXPRESSIONS "test" n && one_of EXPRESSIONS "body" n && one_of EXPRESSIONS "orelse" n
  else if is_node "Call" n then one_of EXPRESSIONS "func" n && all_of EXPRESSIONS "args" n
  else true.
(** [ast.parse(s, mode="eval")] returns an expression of the grammar. *)
Definition an_expression (n : node) : bool := bool_decide (cls_of n ∈ EXPRESSIONS) && forallb grammatical (walk n).
Definition no_float (n : node) : bool :=
  negb (is_node "Constant" n) || match const_of n with c_float _ => false | _ => true end.

(** ** Sizes *)

Definition size (n : node) : Z := Z.of_nat (length (walk n)).
Fixpoint sizes (l : list (option node)) : Z :=
  match l with [] => 0 | Some m :: l' => size m + sizes l' | None :: l' => sizes l' end.

Lemma sizes_app l k : sizes (l ++ k) = sizes l + sizes k.
Proof. induction l as [|[m|] l IH]; cbn; lia. Qed.
Lemma sizes_nonneg l : 0 <= sizes l.
Proof. induction l as [|[m|] l IH]; cbn; unfold size; lia. Qed.
Lemma length_concat_join {A} (a b : list (list A)) :
  length (concat (join_levels a b)) = (length (concat a) + length (concat b))%nat.
Proof.
  revert b. induction a as [|l a IH]; intros [|k b]; cbn; rewrite ?app_nil_r; try lia.
  rewrite !length_app, IH. lia.
Qed.
Lemma size_fields n : size n = 1 + sizes (flat_map snd (fields_of n)).
Proof.
  unfold size, walk. rewrite levels_unfold. cbn [concat app length]. rewrite Nat2Z.inj_succ, <-Z.add_1_l. f_equal.
  generalize (fields_of n) as fs. induction fs as [|[k l] fs IH]; cbn [flat_map foldr snd]; [done|].
  rewrite sizes_app. induction l as [|[m|] l IHl]; cbn; [exact IH| |exact IHl].
  rewrite length_concat_join, Nat2Z.inj_add, IHl. unfold size, walk. lia.
Qed.
Lemma size_pos n : 1 <= size n.
Proof. rewrite size_fields. pose proof (sizes_nonneg (flat_map snd (fields_of n))). lia. Qed.

(** Fields of different names hold different nodes. *)
Definition field (k : string) (fs : list (string * list (option node))) : list (option node) := default [] (lookup_key k fs).
Fixpoint sizes_of (fs : list (string * list (option node))) (ks : list string) : Z :=
  match ks with [] => 0 | k :: ks' => sizes (field k fs) + sizes_of fs ks' end.
Lemma field_cons k j l fs : field k ((j, l) :: fs) = if String.eqb j k then l else field k fs.
Proof. unfold field, lookup_key. cbn. by destruct (String.eqb j k). Qed.
Lemma sizes_of_cons k l fs ks : NoDup ks → sizes_of ((k, l) :: fs) ks <= sizes l + sizes_of fs ks.
Proof.
  intros Hn. pose proof (sizes_nonneg l) as Hl.
  assert (∀ ks, k ∉ ks → sizes_of ((k, l) :: fs) ks = sizes_of fs ks) as Hout.
  { clear. induction ks as [|j ks IH]; cbn [sizes_of]; [done|]. intros [Hj Hk]%not_elem_of_cons. rewrite IH, field_cons by done.
    by destruct (String.eqb_spec k j). }
  induction ks as [|j ks IH]; cbn [sizes_of]; [lia|]. apply list.NoDup_cons in Hn as [Hj Hn]. rewrite field_cons.
  destruct (String.eqb_spec k j) as [->|]; [|specialize (IH Hn); lia].
  rewrite Hout by done. pose proof (sizes_nonneg (field j fs)). lia.
Qed.
Lemma sizes_of_fields ks fs : NoDup ks → sizes_of fs ks <= sizes (flat_map snd fs).
Proof.
  intros Hn. induction fs as [|[k l] fs IH]; cbn [flat_map snd].
  { clear Hn. induction ks as [|k ks IH]; cbn in *; lia. }
  rewrite sizes_app. pose proof (sizes_of_cons k l fs ks Hn). lia.
Qed.
Lemma size_entries ks n : NoDup ks → 1 + sizes_of (fields_of n) ks <= size n.
Proof. intros Hn. rewrite size_fields. pose proof (sizes_of_fields ks (fields_of n) Hn). lia. Qed.
Lemma sizes_elem m l : Some m ∈ l → size m <= sizes l.
Proof.
  induction l as [|o l IH]; cbn [sizes]; [by intros ?%elem_of_nil|]. pose proof (sizes_nonneg l).
  intros [<-|Hm]%elem_of_cons; [lia|]. specialize (IH Hm). destruct o as [o|]; [pose proof (size_pos o)|]; lia.
Qed.
Lemma entries_field k n : entries k n = field k (fields_of n).
Proof. unfold entries, field. by destruct (lookup_key k (fields_of n)). Qed.
Lemma size_entry k n m : Some m ∈ entries k n → size m < size n.
Proof.
  intros Hm%sizes_elem. pose proof (size_entries [k] n ltac:(apply NoDup_singleton)) as H. cbn in H.
  rewrite entries_field in Hm. lia.
Qed.
Lemma entry_child k n m : Some m ∈ entries k n → m ∈ children n.
Proof.
  unfold entries, lookup_key. destruct (List.find _ (fields_of n)) as [[j l]|] eqn:E; cbn; [|by intros ?%elem_of_nil].
  intros Hm. apply List.find_some in E as [E _]. unfold children. apply list_elem_of_omap. exists (Some m). split; [|done].
  apply list_elem_of_In, in_flat_map. exists (j, l). split; [done|]. by apply list_elem_of_In.
Qed.

(** ** What the checks establish *)

Lemma require_ok_true c code u : require_ok c code = Ok u → c = true.
Proof. by destruct c. Qed.
Lemma is_node_true cls n : is_node cls n = true ↔ cls_of n = cls.
Proof. apply String.eqb_eq. Qed.

Section Accepted.
Context {py : Language} (parameters : list string).
Abbreviation visit := (visit_expression parameters).

(** A visit of a node visits the nodes of its fields. *)
Lemma visit_fields_ok (g : string → node → res unit) (fs : list (string * list (option node))) k l m :
  foldr (fun f later => later ;; foldr (fun o later => later ;; match o with Some m => g f.1 m | None => Ok tt end) (Ok tt) f.2)
    (Ok tt) fs = Ok tt →
  (k, l) ∈ fs → Some m ∈ l → g k m = Ok tt.
Proof.
  induction fs as [|[j l'] fs IH]; cbn [foldr fst snd]; [by intros _ ?%elem_of_nil|].
  intros H. apply bind_res_ok in H as ([] & Hfs & H).
  intros [[= -> ->]|Hin]%elem_of_cons; [|by apply IH]. clear IH Hfs. revert H.
  induction l' as [|o l' IH]; cbn; [by intros _ ?%elem_of_nil|].
  intros H. apply bind_res_ok in H as ([] & Hl & Ho). intros [<-|Hm]%elem_of_cons; [done|by apply IH].
Qed.
Lemma visited d called n :
  visit d called n = Ok tt →
  d <= 16 ∧ (is_node "Name" n = true → called = false → text_atom "id" n ∈ parameters) ∧
  (is_node "Constant" n = true → numeric_const (const_of n) = true) ∧
  ∀ k m, Some m ∈ entries k n → visit (d + 1) (String.eqb (cls_of n) "Call" && String.eqb k "func") m = Ok tt.
Proof.
  destruct n as [cls pos atoms fields]. cbn [visit_expression]. set (n := Node cls pos atoms fields).
  intros H. apply bind_res_ok in H as ([] & Hd%require_ok_true%Z.leb_le & H).
  apply bind_res_ok in H as ([] & Hn%require_ok_true & H). apply bind_res_ok in H as ([] & Hc%require_ok_true & H).
  split; [done|]. split; [|split].
  - intros E ->. rewrite E, orb_false_r in Hn. cbn in Hn. by apply bool_decide_eq_true in Hn.
  - intros E. by rewrite E in Hc.
  - intros k m. unfold entries, lookup_key. cbn [fields_of n cls_of].
    destruct (List.find _ fields) as [[j l]|] eqn:E; cbn; [|by intros ?%elem_of_nil].
    apply List.find_some in E as [E Ek%String.eqb_eq]. cbn in Ek. subst j.
    apply (visit_fields_ok (fun k m => visit (d + 1) (String.eqb cls "Call" && String.eqb k "func") m) fields k l m); [exact H|].
    by apply list_elem_of_In.
Qed.

(** ** Values of bounded size *)

(** A product of [e] numbers of the task. *)
Definition bounded (v : value) (s : Z) : Prop := ∃ e, 1 <= e ∧ 3 * e <= s + 2 ∧ Z.abs (num v) <= MILLION ^ e.
Lemma bounded_mono v s s' : s <= s' → bounded v s → bounded v s'.
Proof. intros Hs (e & H1 & H2 & H3). exists e. lia. Qed.
Lemma bounded_int z s : 1 <= s → Z.abs z <= MILLION → bounded (v_int z) s.
Proof. intros Hs Hz. exists 1. rewrite Z.pow_1_r. cbn. lia. Qed.
Lemma bounded_bool b s : 1 <= s → bounded (v_bool b) s.
Proof. intros Hs. exists 1. rewrite Z.pow_1_r. unfold MILLION. destruct b; cbn; lia. Qed.
Lemma million_pow e e' : 1 <= e → 1 <= e' →
  MILLION ^ e + MILLION ^ e' <= MILLION ^ (e + e') ∧ 1 <= MILLION ^ e.
Proof.
  intros H H'. assert (∀ i, 1 <= i → 2 <= MILLION ^ i) as Hp.
  { intros i Hi. pose proof (Z.pow_le_mono_r MILLION 1 i ltac:(done) Hi) as Hp. rewrite Z.pow_1_r in Hp. unfold MILLION in *. lia. }
  rewrite Z.pow_add_r by lia. pose proof (Hp e H). pose proof (Hp e' H'). nia.
Qed.
Lemma bounded_arithmetic cls a b s s' z :
  bounded a s → bounded b s' → arithmetic cls (num a) (num b) = Some z → bounded (v_int z) (s + s' + 2).
Proof.
  intros (e & H1 & H2 & H3) (e' & H1' & H2' & H3') Hz. exists (e + e'). destruct (million_pow e e' H1 H1') as [Hsum Hp].
  destruct (million_pow e' e H1' H1) as [_ Hp']. split; [lia|]. split; [lia|]. cbn [num]. unfold arithmetic in Hz.
  rewrite Z.pow_add_r in * by lia. repeat case_match; simplify_eq; try lia. rewrite Z.abs_mul. by apply Z.mul_le_mono_nonneg; try lia.
Qed.

(** ** Evaluation *)

Context (args : list Z) (Hlen : length parameters = length args) (Hargs : Forall (fun z => Z.abs z <= MILLION) args).
Abbreviation env := (zip parameters args).

Definition evals (fuel : nat) (n : node) : Prop := ∃ v, evaluate fuel env n = Ok v ∧ bounded v (size n).

Lemma env_lookup x : x ∈ parameters → ∃ z, lookup_key x env = Some z ∧ Z.abs z <= MILLION.
Proof.
  revert args Hlen Hargs. induction parameters as [|p ps IH]; [by intros ? ? ? ?%elem_of_nil|].
  intros [|a as'] Hl Ha; [done|]. apply list.Forall_cons in Ha as [Ha Has]. intros Hx. unfold lookup_key. cbn.
  destruct (String.eqb_spec p x) as [->|]; [by exists a|]. apply (IH as'); [by injection Hl|done|].
  apply elem_of_cons in Hx as [->|]; done.
Qed.

(** *** One node of each kind *)

Lemma one_of_entries classes k n :
  one_of classes k n = true → ∃ m, entries k n = [Some m] ∧ subnode k n = Some m ∧ cls_of m ∈ classes.
Proof.
  unfold one_of, subnode, nodes. destruct (entries k n) as [|[m|] []]; try done. cbn. intros H%bool_decide_eq_true. by exists m.
Qed.
Lemma all_of_entries classes k n :
  all_of classes k n = true → entries k n = map Some (nodes k n) ∧ ∀ m, m ∈ nodes k n → cls_of m ∈ classes.
Proof.
  unfold all_of, nodes. induction (entries k n) as [|[m|] l IH]; cbn; [by split; [|intros m ?%elem_of_nil]| |done].
  intros [H%bool_decide_eq_true Hl]%andb_prop. destruct (IH Hl) as [<- IH']. split; [done|].
  intros m' [->|Hm]%elem_of_cons; [done|by apply IH'].
Qed.
Lemma entry_of_nodes classes k n m : all_of classes k n = true → m ∈ nodes k n → Some m ∈ entries k n.
Proof. intros [-> _]%all_of_entries Hm. by apply list_elem_of_fmap_2. Qed.

(** The operands of a node are evaluated within the fuel left. *)
Context (fuel : nat) (n : node) (Heval : ∀ k m, Some m ∈ entries k n → k ≠ "func" → cls_of m ∈ EXPRESSIONS → evals fuel m).
Context (Hallowed : ∀ k m, Some m ∈ entries k n → cls_of m ∈ LOCAL_NODES).
Abbreviation eval := (evaluate fuel env).

Lemma operand k : k ≠ "func" → one_of EXPRESSIONS k n = true →
  ∃ m v, entries k n = [Some m] ∧ subnode k n = Some m ∧ eval m = Ok v ∧ bounded v (size m) ∧ size m < size n.
Proof.
  intros Hk (m & E & Hm & Hcls)%one_of_entries. destruct (Heval k m) as (v & Hv & Hb); [rewrite E; left|done..|].
  exists m, v. repeat split; try done. apply (size_entry k). rewrite E. left.
Qed.
Lemma operator classes k : one_of classes k n = true → sub_class k n ∈ classes ∧ sub_class k n ∈ LOCAL_NODES.
Proof.
  intros (m & E & Hm & Hcls)%one_of_entries. unfold sub_class. rewrite Hm. split; [done|]. apply (Hallowed k). rewrite E. left.
Qed.
(** What is both in the grammar and allowed. *)
Lemma allowed_class classes (known : list string) x :
  forallb (fun x => negb (bool_decide (x ∈ LOCAL_NODES)) || bool_decide (x ∈ known)) classes = true →
  x ∈ classes → x ∈ LOCAL_NODES → x ∈ known.
Proof.
  intros Hf Hx Hl. rewrite forallb_elem in Hf. specialize (Hf x Hx). rewrite bool_decide_eq_true_2 in Hf by done.
  by apply bool_decide_eq_true in Hf.
Qed.
Ltac in_cases H := repeat (apply elem_of_cons in H as [->|H]); [..|by apply elem_of_nil in H].
Lemma arithmetic_allowed a b : one_of OPERATORS "op" n = true → is_Some (arithmetic (sub_class "op" n) a b).
Proof.
  intros [H1 H2]%operator. apply (allowed_class _ ["Add"; "Sub"; "Mult"]) in H1; [|reflexivity|done].
  in_cases H1; by eexists.
Qed.
Lemma unary_allowed v : one_of UNARY_OPERATORS "op" n = true → is_Some (unary (sub_class "op" n) v).
Proof.
  intros [H1 H2]%operator. apply (allowed_class _ ["Not"; "UAdd"; "USub"]) in H1; [|reflexivity|done].
  in_cases H1; by eexists.
Qed.
Lemma unary_bounded cls v w s : unary cls v = Some w → 1 <= s → bounded v s → bounded w s.
Proof.
  unfold unary. intros Hw Hs (e & H1 & H2 & H3). repeat case_match; simplify_eq; [exists e|exists e|by apply bounded_bool]; cbn; lia.
Qed.
Lemma comparison_allowed x a b : x ∈ COMPARISONS → x ∈ LOCAL_NODES → is_Some (compare_with x a b).
Proof.
  intros H1 H2. apply (allowed_class _ ["Eq"; "NotEq"; "Lt"; "LtE"; "Gt"; "GtE"]) in H1; [|reflexivity|done].
  in_cases H1; by eexists.
Qed.
Lemma eval_bool_bounded conjunction l s :
  l ≠ [] → (∀ m, m ∈ l → ∃ v, eval m = Ok v ∧ bounded v s) → ∃ v, eval_bool eval conjunction l = Ok v ∧ bounded v s.
Proof.
  induction l as [|m l IH]; [done|]. intros _ Hl. destruct (Hl m ltac:(left)) as (v & Hv & Hb).
  destruct l as [|m' l]; [by exists v|]. cbn [eval_bool]. rewrite Hv. cbn [mbind res_bind].
  destruct (Bool.eqb _ _); [|by exists v]. apply IH; [done|]. intros k Hk. apply Hl. by right.
Qed.
Lemma eval_chain_bool a ops comparators :
  ops ≠ [] → length ops = length comparators → (∀ o, o ∈ ops → cls_of o ∈ COMPARISONS ∧ cls_of o ∈ LOCAL_NODES) →
  (∀ m, m ∈ comparators → ∃ v, eval m = Ok v) → ∃ b, eval_chain eval a ops comparators = Ok (v_bool b).
Proof.
  revert a comparators. induction ops as [|o ops IH]; intros a [|c comparators]; try done. intros _ Hl Ho Hc.
  destruct (Hc c ltac:(left)) as (v & Hv). cbn [eval_chain]. rewrite Hv. cbn [mbind res_bind].
  destruct (Ho o ltac:(left)) as [H1 H2]. destruct (comparison_allowed _ (num a) (num v) H1 H2) as (r & ->). cbn [or_stuck mbind res_bind].
  destruct ops as [|o' ops]; [by exists r|]. destruct r; [|by exists false].
  apply IH; [done|by injection Hl| |]; intros m Hm; [apply Ho|apply Hc]; by right.
Qed.
Lemma all_bounded k : k ≠ "func" → all_of EXPRESSIONS k n = true →
  ∀ m, m ∈ nodes k n → ∃ v, eval m = Ok v ∧ bounded v (size n).
Proof.
  intros Hk Ha m Hm. pose proof (entry_of_nodes _ _ _ _ Ha Hm) as He. apply all_of_entries in Ha as [_ Hcls].
  destruct (Heval k m He Hk (Hcls m Hm)) as (v & Hv & Hb). exists v. split; [done|].
  eapply bounded_mono; [|done]. apply size_entry in He. lia.
Qed.

Context (Hgram : grammatical n = true).
Ltac at_class Ec :=
  unfold evals, grammatical, is_node in *; cbn [evaluate]; unfold is_node in *; rewrite !Ec in *; cbn [String.eqb Ascii.eqb Bool.eqb] in *.

Lemma eval_binop : cls_of n = "BinOp" → evals (S fuel) n.
Proof.
  intros Ec. at_class Ec. apply andb_prop in Hgram as [[H1 H2]%andb_prop H3].
  destruct (operand "left" ltac:(done) H1) as (a & va & Ea & Sa & Va & Ba & _).
  destruct (operand "right" ltac:(done) H3) as (b & vb & Eb & Sb & Vb & Bb & _).
  destruct (arithmetic_allowed (num va) (num vb) H2) as (z & Hz). apply one_of_entries in H2 as (o & Eo & _).
  unfold eval_sub. rewrite Sa, Sb, Va, Vb. cbn [mbind res_bind]. rewrite Hz. cbn [mbind res_bind or_stuck].
  exists (v_int z). split; [done|]. apply (bounded_mono _ (size a + size b + 2)); [|by apply (bounded_arithmetic (sub_class "op" n) va vb)].
  pose proof (size_entries ["left"; "op"; "right"] n ltac:(apply (bool_decide_unpack _); done)) as Hs. cbn [sizes_of] in Hs.
  rewrite <-!entries_field, Ea, Eb, Eo in Hs. cbn [sizes] in Hs. pose proof (size_pos o). lia.
Qed.
Lemma eval_unary : cls_of n = "UnaryOp" → evals (S fuel) n.
Proof.
  intros Ec. at_class Ec. apply andb_prop in Hgram as [H1 H2].
  destruct (operand "operand" ltac:(done) H2) as (a & va & Ea & Sa & Va & Ba & Hs).
  destruct (unary_allowed va H1) as (w & Hw). unfold eval_sub. rewrite Sa, Va. cbn [mbind res_bind]. rewrite Hw.
  exists w. split; [done|]. eapply unary_bounded; [done|apply size_pos|]. eapply bounded_mono; [|done]. lia.
Qed.
Lemma eval_boolop : cls_of n = "BoolOp" → evals (S fuel) n.
Proof.
  intros Ec. at_class Ec. apply andb_prop in Hgram as [[H1 H2]%andb_prop H3]. apply operator in H1 as [H1 _].
  assert (nodes "values" n ≠ []) as Hne.
  { intros E. apply all_of_entries in H3 as [H3 _]. rewrite E in H3. unfold absent in H2. by rewrite H3 in H2. }
  pose proof (fun c => eval_bool_bounded c _ (size n) Hne (all_bounded "values" ltac:(done) H3)) as He.
  unfold BOOLEAN_OPERATORS in H1. in_cases H1; apply He.
Qed.
Lemma eval_compare : cls_of n = "Compare" → evals (S fuel) n.
Proof.
  intros Ec. at_class Ec.
  apply andb_prop in Hgram as [[[[H1 H2]%andb_prop H3]%andb_prop H4]%andb_prop H5%Nat.eqb_eq].
  destruct (operand "left" ltac:(done) H1) as (a & va & Ea & Sa & Va & Ba & _). unfold eval_sub. rewrite Sa, Va. cbn [mbind res_bind].
  pose proof (all_of_entries _ _ _ H3) as [Eo Ho]. pose proof (all_of_entries _ _ _ H4) as [Ecs _].
  destruct (eval_chain_bool va (nodes "ops" n) (nodes "comparators" n)) as (b & ->).
  - intros E. unfold absent in H2. by rewrite Eo, E in H2.
  - rewrite Eo, Ecs, !length_map in H5. done.
  - intros o Hm. split; [by apply Ho|]. apply (Hallowed "ops"). by apply (entry_of_nodes COMPARISONS).
  - intros m Hm. destruct (all_bounded "comparators" ltac:(done) H4 m Hm) as (v & Hv & _). by exists v.
  - exists (v_bool b). split; [done|]. apply bounded_bool, size_pos.
Qed.
Lemma eval_ifexp : cls_of n = "IfExp" → evals (S fuel) n.
Proof.
  intros Ec. at_class Ec. apply andb_prop in Hgram as [[H1 H2]%andb_prop H3].
  destruct (operand "test" ltac:(done) H1) as (a & va & _ & Sa & Va & _). unfold eval_sub. rewrite Sa, Va. cbn [mbind res_bind].
  destruct (operand "body" ltac:(done) H2) as (b & vb & _ & Sb & Vb & Bb & Hb).
  destruct (operand "orelse" ltac:(done) H3) as (c & vc & _ & Sc & Vc & Bc & Hc).
  destruct (truthful va); [rewrite Sb; exists vb|rewrite Sc; exists vc]; (split; [done|]); (eapply bounded_mono; [|done]); lia.
Qed.
Lemma eval_call : min_max_call n = true → cls_of n = "Call" → evals (S fuel) n.
Proof.
  intros Hcall Ec. at_class Ec. apply andb_prop in Hgram as [_ H2]. unfold min_max_call, sub_that in Hcall.
  destruct (subnode "func" n) as [f|]; [|done].
  apply andb_prop in Hcall as [[[_ Hid%bool_decide_eq_true]%andb_prop Hl%Nat.eqb_eq]%andb_prop _].
  pose proof (all_bounded "args" ltac:(done) H2) as Hargs'. apply all_of_entries in H2 as [E _]. rewrite E, length_map in Hl.
  destruct (nodes "args" n) as [|x [|y []]]; try done.
  destruct (Hargs' x ltac:(left)) as (vx & Vx & Bx), (Hargs' y ltac:(right; left)) as (vy & Vy & By).
  rewrite Vx, Vy. cbn [mbind res_bind]. unfold MIN_MAX in Hid. in_cases Hid; cbn; case_match; eauto.
Qed.
Lemma eval_constant : numeric_const (const_of n) = true → no_float n = true → cls_of n = "Constant" → evals (S fuel) n.
Proof.
  intros Hn Hf Ec. unfold no_float in Hf. at_class Ec. destruct (const_of n) as [[]| |]; try done.
  cbn in Hn. apply Z.leb_le in Hn. eexists. split; [done|]. apply bounded_int; [apply size_pos|done].
Qed.
Lemma eval_name : text_atom "id" n ∈ parameters → cls_of n = "Name" → evals (S fuel) n.
Proof.
  intros Hn Ec. at_class Ec. destruct (env_lookup _ Hn) as (z & -> & Hz). exists (v_int z). split; [done|].
  apply bounded_int; [apply size_pos|done].
Qed.
End Accepted.

(** *** Every expression *)

Record sound_node (n : node) : Prop := {
  sn_grammar : grammatical n = true;
  sn_allowed : cls_of n ∈ LOCAL_NODES;
  sn_call : is_node "Call" n = true → min_max_call n = true;
  sn_whole : no_float n = true }.

Section Expression.
Context {py : Language} (parameters : list string) (args : list Z) (Hlen : length parameters = length args)
  (Hargs : Forall (fun z => Z.abs z <= MILLION) args).

Lemma evaluated n : ∀ d fuel,
  visit_expression parameters d false n = Ok tt → 17 <= d + Z.of_nat fuel → (∀ m, within n m → sound_node m) →
  cls_of n ∈ EXPRESSIONS → evals parameters args fuel n.
Proof.
  induction n as [n IH] using node_children_ind; intros d fuel Hv Hd Hs Hcls.
  destruct (visited _ _ _ _ Hv) as (Hd16 & Hname & Hconst & Hsub).
  destruct fuel as [|fuel]; [lia|]. destruct (Hs n (within_self n)) as [Hg Ha Hc Hf].
  assert (∀ k m, Some m ∈ entries k n → k ≠ "func" → cls_of m ∈ EXPRESSIONS → evals parameters args fuel m) as He.
  { intros k m Hm Hk Hm'. pose proof (Hsub k m Hm) as Hvm.
    apply String.eqb_neq in Hk. rewrite Hk, andb_false_r in Hvm. apply entry_child in Hm.
    apply (IH m Hm (d + 1)); [done|lia| |done]. intros j Hj. apply Hs. by eapply within_child. }
  assert (∀ k m, Some m ∈ entries k n → cls_of m ∈ LOCAL_NODES) as Hl.
  { intros k m Hm. apply sn_allowed, Hs. eapply within_child; [by eapply entry_child|constructor]. }
  apply (allowed_class _ ["BinOp"; "UnaryOp"; "BoolOp"; "Compare"; "IfExp"; "Call"; "Name"; "Constant"]) in Hcls; [|reflexivity|done].
  repeat (apply elem_of_cons in Hcls as [Ec|Hcls]).
  - by eapply eval_binop.
  - by eapply eval_unary.
  - by eapply eval_boolop.
  - by eapply eval_compare.
  - by eapply eval_ifexp.
  - eapply eval_call; try done. apply Hc. by apply is_node_true.
  - eapply eval_name; try done. apply Hname; [by apply is_node_true|done].
  - eapply eval_constant; try done. apply Hconst. by apply is_node_true.
  - by apply elem_of_nil in Hcls.
Qed.

Lemma accepted_evals s tree :
  expression_tree (JStr s) parameters = Ok tree → an_expression tree = true → forallb no_float (walk tree) = true →
  evals parameters args DEPTH tree ∧ size tree <= 95.
Proof.
  intros H Hx Hf. unfold expression_tree in H. apply bind_res_ok in H as ([] & _ & H).
  apply bind_res_ok in H as (tree' & _ & H). cbv zeta in H.
  apply bind_res_ok in H as ([] & [Hn%Nat.leb_le Hc]%require_ok_true%andb_prop & H).
  apply bind_res_ok in H as ([] & Hcall%require_ok_true & H). apply bind_res_ok in H as ([] & Hv & [= ->]).
  apply andb_prop in Hx as [Hx%bool_decide_eq_true Hg]. rewrite forallb_elem in Hg, Hf, Hc, Hcall.
  split; [|unfold size; lia]. apply (evaluated tree 1); [done|unfold DEPTH; lia| |done].
  intros m Hm%within_walk. split; [by apply Hg|apply (bool_decide_eq_true_1 _ (Hc m Hm))| |by apply Hf].
  intros Ec. specialize (Hcall m Hm). by rewrite Ec in Hcall.
Qed.
End Expression.


(** ** The repair *)

(** The git commands that change the copy, and those whose answer counts. *)
Inductive GitStep : Type := g_head | g_status | g_names | g_commit_names (produced : string) | g_add | g_commit | g_other.
(** What the calls so far have established: the last answers of git, the last
    proposal, the texts that were read, the text that was written, and what was
    seen of it since. *)
Record Ledger := mkLedger {
  lock_st : RepairProps.LockState;
  head : option string; clean : bool; source_base : bool;
  proposals : nat; reply : option json;
  original : option string; now : option string; written : option string; restored : bool;
  spec : bool; validated : bool; scoped : bool; added : bool; committed : bool; commit_scoped : bool;
  recorded : bool }.
#[export] Instance Ledger_eta : Eta Ledger := fun g =>
  mkLedger (lock_st g) (head g) (clean g) (source_base g) (proposals g) (reply g) (original g) (now g) (written g) (restored g)
    (spec g) (validated g) (scoped g) (added g) (committed g) (commit_scoped g) (recorded g).
Definition untouched : Ledger :=
  mkLedger RepairProps.lk_free None false false 0 None None None None false false false false false false false false.

Section Protocol.
Context {py : Language} (executable module : string) (t : NTask).
Let base := NumericTask.base_sha t.

Definition git_step (args : list string) : GitStep :=
  if bool_decide (args = ["rev-parse"; "HEAD"]) then g_head
  else if bool_decide (args = ["status"; "--porcelain"; "--untracked-files=all"]) then g_status
  else if bool_decide (args = ["diff"; "--name-only"]) then g_names
  else match args with
       | ["diff"; "--name-only"; b; produced] => if String.eqb b base then g_commit_names produced else g_other
       | ["add"; "--"; path] => if String.eqb path (NumericTask.path t) then g_add else g_commit
       | ["rev-parse"; "--git-path"; "hooks"] | ["remote"] | ["branch"; "--show-current"] => g_other
       | "diff" :: "--" :: _ => g_other
       | _ => g_commit
       end.
(** What [process] makes of the answer of a process. *)
Definition process_result (r : res (Z * string)) : option string :=
  match r with
  | Ok out => if (out.1 =? 0) && (length_of out.2 <=? 1048576) then Some (strip out.2) else None
  | Raise _ => None
  end.
Definition says (r : option string) (s : string) : bool := bool_decide (r = Some s).
Definition after_git (args : list string) (r : option string) (g : Ledger) : Ledger :=
  match git_step args with
  | g_head => g <| head := r |>
  | g_status => g <| clean := says r "" |>
  | g_names => g <| scoped := says r (NumericTask.path t) |>
  | g_commit_names produced => g <| commit_scoped := says r (NumericTask.path t) && says (head g) produced |>
  | g_add => g <| added := true |>
  | g_commit => g <| committed := bool_decide (is_Some r) |> <| validated := false |> <| clean := false |>
  | g_other => g
  end.
(** The validator's verdict. *)
Definition approved (r : option string) : bool :=
  match r with
  | Some out => match json_loads out with Ok evidence => py_eqb evidence (validated_json (case_count t)) | Raise _ => false end
  | None => false
  end.
(** A text that the last proposal makes, and that passes every case. *)
Definition accepted_text (r : option json) (text : string) : bool :=
  match r with
  | Some r =>
      match source_for t r with Ok s => String.eqb s text | Raise _ => false end &&
      match check_source text t with Ok n => n =? case_count t | Raise _ => false end
  | None => false
  end.
Definition validator : list string := [executable; module; "validate"; NumericTask.path t; "validation-task.json"].
(** The commit is of the one path, on the base, and was validated. *)
Definition settled (g : Ledger) : bool :=
  committed g && validated g && clean g && commit_scoped g &&
  match head g with Some h => fullmatch SHA40 h && negb (String.eqb h base) | None => false end.
Definition truthful_receipt (g : Ledger) (v : json) : bool :=
  match head g with Some h => text_is "produced_sha" h v && text_is "base_sha" base v | None => false end.
Definition at_base (g : Ledger) : bool := says (head g) base && clean g.
Definition unwritten (g : Ledger) : bool := match written g with None => true | Some _ => false end.

Definition commit_arguments : list string :=
  ["-c"; "user.name=Local Code Worker"; "-c"; "user.email=worker@localhost"; "commit"; "-m"; "fix: bounded local model repair"].
Definition git_arguments (argv : list string) : option (list string) :=
  match argv with program :: args => if String.eqb program "git" then Some args else None | [] => None end.
Definition allowed_held (g : Ledger) (o : lop) : bool :=
  match o with
  | propose _ _ => (proposals g <? 2)%nat && unwritten g && at_base g
  | write_text path text =>
      String.eqb path (NumericTask.path t) &&
      match written g with
      | None => at_base g && source_base g && accepted_text (reply g) text
      | Some after => negb (restored g) && negb (added g) && says (now g) after && says (original g) text
      end
  | client (run_process argv) =>
      match git_arguments argv with
      | Some args =>
          match git_step args with
          | g_add => negb (unwritten g) && negb (restored g) && validated g && scoped g
          | g_commit => added g && negb (restored g) && validated g && scoped g && negb (committed g) &&
                        bool_decide (args = commit_arguments)
          | _ => true
          end
      | None => bool_decide (argv = validator) && spec g
      end
  | client _ => false
  | replace_json name v =>
      if String.eqb name "validation-task.json" then bool_decide (v = NumericTask.raw t)
      else settled g && negb (recorded g) && truthful_receipt g v
  | write_patch _ => settled g && negb (recorded g)
  | resolve_roots | make_state | lock _ | arguments | read_argument _ | print _ => false
  | _ => true
  end.
Definition lallowed (g : Ledger) (o : lop) : bool :=
  match lock_st g with
  | RepairProps.lk_free => match o with resolve_roots | make_state | lock _ => true | _ => false end
  | RepairProps.lk_held => allowed_held g o
  | RepairProps.lk_released => false
  end.
Definition after_process (argv : list string) (r : option string) (g : Ledger) : Ledger :=
  match git_arguments argv with Some args => after_git args r g | None => g <| validated := approved r |> end.
Definition lnext (g : Ledger) (o : lop) : res (lanswer o) → Ledger :=
  match o with
  | client (run_process argv) => fun r => after_process argv (process_result r) g
  | propose _ _ => fun r =>
      g <| proposals := S (proposals g) |> <| reply := ok_value r |> <| head := None |> <| clean := false |> <| source_base := false |>
  | read_bytes _ => fun r =>
      g <| source_base := match r with Ok b => String.eqb (sha256_hex b) (NumericTask.before_sha256 t) | Raise _ => false end |>
  | read_text _ => fun r => if unwritten g then g <| original := ok_value r |> else g <| now := ok_value r |>
  | write_text _ text => fun _ =>
      if unwritten g then g <| written := Some text |> <| validated := false |> <| scoped := false |> else g <| restored := true |>
  | replace_json name _ => fun r =>
      let done := bool_decide (is_Some (ok_value r)) in
      if String.eqb name "validation-task.json" then g <| spec := done |> else g <| recorded := done |>
  | lock _ => fun r => match r with Ok _ => g <| lock_st := RepairProps.lk_held |> | Raise _ => g end
  | unlock _ => fun _ => g <| lock_st := RepairProps.lk_released |>
  | _ => fun _ => g
  end.
Abbreviation safe := (Prog.safe lallowed lnext).
Context (Hinterpreter : executable ≠ "git").

(** *** Rules: what is kept on the way, and what a part that returns establishes *)

Definition held {A} (I : Ledger → Prop) (Φ : A → Ledger → Prop) (x : res A) (g : Ledger) : Prop := I g ∧ on_ok Φ x g.
Definition locked (g : Ledger) : Prop := lock_st g = RepairProps.lk_held.
(** What only the main steps change. *)
Definition core (g : Ledger) : RepairProps.LockState * nat * option string * option string * (bool * bool * bool * bool) :=
  (lock_st g, proposals g, original g, written g, (restored g, added g, committed g, recorded g)).
Definition as_in (g g' : Ledger) : Prop := locked g' ∧ core g' = core g.
Lemma as_in_refl g : locked g → as_in g g.
Proof. done. Qed.

Section Rules.
Context (I : Ledger → Prop).
Lemma h_bind {A B} (m : L A) (f : A → L B) g (Φ : B → Ledger → Prop) :
  safe m g (held I (fun a g' => I g' → safe (f a) g' (held I Φ))) → safe (x ← m; f x) g (held I Φ).
Proof. intros H. apply safe_bind. eapply safe_mono; [exact H|]. intros [a|e] g' [Hh HΦ]; [by apply HΦ|by split]. Qed.
Lemma h_of_res {A} (r : res A) g (Φ : A → Ledger → Prop) : I g → (∀ a, r = Ok a → Φ a g) → safe (of_res r) g (held I Φ).
Proof. intros Hh H. apply safe_of_res. split; [done|]. destruct r; [by apply H|done]. Qed.
Lemma h_ret {A} (a : A) g (Φ : A → Ledger → Prop) : I g → Φ a g → safe (mret a) g (held I Φ).
Proof. done. Qed.
Lemma h_throw {A} e g (Φ : A → Ledger → Prop) : I g → safe (throw e) g (held I Φ).
Proof. done. Qed.
Lemma h_insists c code g (Φ : unit → Ledger → Prop) : I g → (c = true → Φ tt g) → safe (insists c code) g (held I Φ).
Proof. intros Hh H. apply h_of_res; [done|]. intros [] Hc. apply H. by apply require_ok_true in Hc. Qed.
Lemma h_call (o : lop) g (Φ : lanswer o → Ledger → Prop) :
  lallowed g o = true → (∀ r, I (lnext g o r)) → (∀ v, Φ v (lnext g o (Ok v))) → safe (call o) g (held I Φ).
Proof. intros Ha HI HΦ. apply safe_call; [done|]. intros r. split; [done|]. destruct r; [apply HΦ|done]. Qed.
(** A process that returns has a result. *)
Lemma h_process argv g (Φ : string → Ledger → Prop) :
  lallowed g (client (run_process argv)) = true → (∀ r, I (after_process argv r g)) →
  (∀ s, Φ s (after_process argv (Some s) g)) → safe (by_client (process argv)) g (held I Φ).
Proof.
  intros Ha HI HΦ. unfold process. cbn. split; [done|].
  intros r. pose proof (HI (process_result r)) as Hr. destruct r as [[code out]|e]; cbn; [|by destruct e].
  unfold process_result in *. cbn [fst snd] in *. unfold insist, require_ok.
  destruct (code =? 0); cbn; [|done]. destruct (length_of out <=? 1048576); cbn; [|done]. split; [done|]. apply HΦ.
Qed.
End Rules.

(** A part that keeps the core of the ledger, within one that keeps the lock. *)
Lemma h_as_in {A} (m : L A) g (Φ : A → Ledger → Prop) :
  safe m g (held (as_in g) (fun a g' => as_in g g' → Φ a g')) → safe m g (held locked Φ).
Proof.
  intros H. eapply safe_mono; [exact H|]. intros x g' [Hg HΦ]. split; [apply Hg|]. destruct x; [by apply HΦ|done].
Qed.
Lemma as_in_trans g g' g'' : as_in g g' → as_in g' g'' → as_in g g''.
Proof. intros [_ H] [Hl H']. split; [done|congruence]. Qed.

(** Calls that only look. *)
Definition looking (o : lop) : bool :=
  match o with target_stat _ | hooks_stat _ | read_bytes _ | receipt_exists _ | read_receipt _ => true | _ => false end.
Lemma h_look o g g0 (Φ : lanswer o → Ledger → Prop) :
  as_in g0 g → looking o = true → (∀ v, as_in g0 (lnext g o (Ok v)) → Φ v (lnext g o (Ok v))) → safe (call o) g (held (as_in g0) Φ).
Proof.
  intros Hg Ho HΦ. assert (∀ r, as_in g0 (lnext g o r)) as HI.
  { intros r. eapply as_in_trans; [exact Hg|]. destruct Hg as [Hl _]. by destruct o. }
  apply h_call; [|done|by auto]. destruct Hg as [Hl _]. unfold lallowed. rewrite Hl. by destruct o.
Qed.
Lemma git_core args r g : git_step args ≠ g_add → git_step args ≠ g_commit → core (after_git args r g) = core g.
Proof. unfold after_git. by destruct (git_step args). Qed.
Lemma h_git args g g0 (Φ : string → Ledger → Prop) :
  as_in g0 g → git_step args ≠ g_add → git_step args ≠ g_commit →
  (∀ s, Φ s (after_git args (Some s) g)) → safe (git args) g (held (as_in g0) Φ).
Proof.
  intros Hg H1 H2 HΦ. unfold git. apply h_process; [|intros r|exact HΦ].
  - destruct Hg as [Hl _]. unfold lallowed. rewrite Hl. cbn. by destruct (git_step args).
  - eapply as_in_trans; [exact Hg|]. destruct Hg as [Hl _]. pose proof (git_core args r g H1 H2) as Hc. split; [|exact Hc].
    cbn. unfold core in Hc. unfold locked. congruence.
Qed.

(** *** Parts that only look *)

Lemma h_safe_target g g0 (Φ : string → Ledger → Prop) :
  as_in g0 g → Φ (NumericTask.path t) g → safe (safe_target t) g (held (as_in g0) Φ).
Proof.
  intros Hg HΦ. apply h_bind, (h_look (target_stat _)); [done..|]. intros s H _. apply h_bind, h_insists; [done|]. intros _ _.
  by apply h_ret.
Qed.
Lemma h_no_active_hooks g g0 (Φ : unit → Ledger → Prop) :
  as_in g0 g → Φ tt g → safe no_active_hooks g (held (as_in g0) Φ).
Proof.
  intros Hg HΦ. apply h_bind, h_git; [done..|]. intros folder Hg'. apply h_bind, (h_look (hooks_stat _)); [done..|].
  intros s H _. by apply h_insists.
Qed.
Lemma h_unchanged g g0 (Φ : unit → Ledger → Prop) :
  as_in g0 g → (∀ g', g' = g <| head := Some base |> <| clean := true |> → as_in g0 g' → Φ tt g') →
  safe (unchanged_copy t) g (held (as_in g0) Φ).
Proof.
  intros Hg HΦ. apply h_bind, h_git; [done..|]. intros h Hg1. destruct (String.eqb_spec h (NumericTask.base_sha t)) as [->|]; [|by apply h_insists].
  apply h_bind, h_git; [done..|]. intros s Hg2. apply h_insists; [done|]. intros ->%String.eqb_eq. by apply HΦ.
Qed.
(** The validator is run on the task, and approves. *)
Lemma h_validate g g0 (Φ : Z → Ledger → Prop) :
  as_in g0 g → (∀ n g', g' = g <| spec := true |> <| validated := true |> → as_in g0 g' → Φ n g') →
  safe (validate_independently executable module t) g (held (as_in g0) Φ).
Proof.
  intros Hg HΦ. pose proof Hg as [Hl Hc]. apply h_bind, (h_call _ (replace_json "validation-task.json" (NumericTask.raw t))).
  { unfold lallowed. rewrite Hl. cbn. by apply bool_decide_eq_true. }
  { intros r. split; [exact Hl|exact Hc]. }
  intros [] Hg1. apply h_bind, h_safe_target; [done|]. intros Hg2. apply h_bind, h_process.
  - unfold lallowed. destruct Hg2 as [-> _]. cbn -[validator]. apply String.eqb_neq in Hinterpreter. rewrite Hinterpreter.
    by rewrite bool_decide_eq_true_2.
  - intros r. unfold after_process. cbn -[approved]. apply String.eqb_neq in Hinterpreter. by rewrite Hinterpreter.
  - intros s. unfold after_process. cbn -[approved]. pose proof (proj2 (String.eqb_neq _ _) Hinterpreter) as ->.
    intros Hg3. apply h_bind. destruct (json_loads s) as [v|e] eqn:Ej; [|by apply h_throw]. apply h_ret; [done|]. intros _.
    apply h_bind, h_insists; [done|]. intros Hv _.
    assert (approved (Some s) = true) as Ha by (cbn; by rewrite Ej). rewrite Ha in *.
    apply h_ret; [done|]. by apply HΦ.
Qed.

(** *** The main steps *)

(** The core of a ledger under the lock. *)
Definition working (n : nat) (o w : option string) (flags : bool * bool * bool * bool) (g : Ledger) : Prop :=
  core g = (RepairProps.lk_held, n, o, w, flags).
Lemma working_locked n o w flags g : working n o w flags g → locked g.
Proof. by intros [=]. Qed.
Lemma working_as_in n o w flags g g' : working n o w flags g → as_in g g' → working n o w flags g'.
Proof. unfold working. intros H [_ ->]. done. Qed.
Lemma working_refl n o w flags g : working n o w flags g → as_in g g.
Proof. intros H. split; [by eapply working_locked|done]. Qed.

Lemma h_attempt_once before task source n o flags g (Φ : string * Z → Ledger → Prop) :
  working n o None flags g → (n < 2)%nat →
  (∀ p r g', working (S n) o None flags g' → reply g' = Some r → source_for t r = Ok p.1 → check_source p.1 t = Ok p.2 → Φ p g') →
  safe (attempt_once t before task source) g (held locked Φ).
Proof.
  intros Hg Hn HΦ. apply h_bind, h_as_in, h_unchanged; [by eapply working_refl|]. intros g1 -> Hg1 _ _.
  pose proof (working_as_in _ _ _ _ _ _ Hg Hg1) as Hw. apply h_bind.
  pose proof Hw as E. unfold working, core in E. cbn in E. injection E as El Ep Eo Ew _.
  apply (h_call _ (propose task source)).
  { unfold lallowed. cbn -[Nat.ltb]. rewrite El. unfold unwritten, at_base, says. cbn -[Nat.ltb].
    rewrite Ew, bool_decide_eq_true_2 by done. rewrite andb_true_r. apply andb_true_intro. split; [|done]. apply Nat.ltb_lt. congruence. }
  { done. }
  intros r _. apply h_bind, h_of_res; [done|]. intros after Hafter _. apply h_bind, h_insists; [done|]. intros _ _.
  apply h_bind, h_of_res; [done|]. intros passed Hpassed _. apply h_ret; [done|]. apply (HΦ _ r); try done.
  unfold working, core in *. cbn in *. congruence.
Qed.
Lemma h_attempts before o flags g (Φ : string * list json → Ledger → Prop) :
  working 0 o None flags g →
  (∀ p n g', working n o None flags g' → (n <= 2)%nat → accepted_text (reply g') p.1 = true → Φ p g') →
  safe (attempts t before) g (held locked Φ).
Proof.
  intros Hg HΦ. apply h_bind. eapply h_attempt_once; [exact Hg|lia|]. intros p r g1 H1 Hr Hs Hc Hl.
  assert (∀ (p : string * Z) r g', reply g' = Some r → source_for t r = Ok p.1 → check_source p.1 t = Ok p.2 →
    (p.2 =? case_count t) = true → accepted_text (reply g') p.1 = true) as Hacc.
  { intros q r' g' -> Hq Hcq Hpq. cbn. by rewrite Hq, String.eqb_refl, Hcq, Hpq. }
  destruct (p.2 =? case_count t) eqn:Ep; [apply h_ret; [done|]; apply (HΦ _ 1%nat); [done|lia|by eapply Hacc]|].
  apply h_bind, h_of_res; [done|]. intros split _ _. apply h_bind, h_insists; [done|]. intros _ _.
  apply h_bind. eapply h_attempt_once; [exact H1|lia|]. intros p' r' g2 H2 Hr' Hs' Hc' Hl'.
  destruct (p'.2 =? case_count t) eqn:Ep'; [|by apply h_throw].
  apply h_ret; [done|]. apply (HΦ _ 2%nat); [done|lia|by eapply Hacc].
Qed.

Lemma h_write_validated before after n g (Φ : Z → Ledger → Prop) :
  let flags := (false, false, false, false) in
  working n (Some before) None flags g → at_base g = true → source_base g = true → accepted_text (reply g) after = true →
  (∀ passed g', working n (Some before) (Some after) flags g' → validated g' = true → scoped g' = true → Φ passed g') →
  safe (write_validated executable module t (NumericTask.path t) before after) g (held locked Φ).
Proof.
  intros flags Hg Hb Hsrc Hacc HΦ. pose proof Hg as E. unfold working, core in E. injection E as El Ep Eo Ew Er Ea Ec Erec.
  apply h_bind, (h_call _ (write_text (NumericTask.path t) after)).
  { unfold lallowed. rewrite El. cbn -[accepted_text]. by rewrite String.eqb_refl, Ew, Hb, Hsrc, Hacc. }
  { intros r. unfold locked. cbn. unfold unwritten. by rewrite Ew. }
  intros [] Hl. cbn [lnext]. unfold unwritten. rewrite Ew. set (g1 := g <| written := Some after |> <| validated := false |> <| scoped := false |>).
  assert (working n (Some before) (Some after) flags g1) as H1 by (unfold working, core, flags; cbn; congruence).
  apply safe_bind, safe_attempt. eapply safe_mono.
  { apply (h_bind (as_in g1) _ _ _ (fun passed g' => as_in g1 g' → validated g' = true ∧ scoped g' = true)).
    apply h_validate; [by eapply working_refl|]. intros passed g' -> Hg2 _. apply h_bind, h_git; [done..|]. intros names Hg3.
    apply h_bind, h_insists; [done|]. intros ->%String.eqb_eq _. apply h_ret; [done|]. intros _. split; [done|].
    change (says (Some (NumericTask.path t)) (NumericTask.path t) = true). unfold says. by apply bool_decide_eq_true. }
  intros [passed|e] g' [Hg' Hok].
  - destruct (Hok Hg') as [Hv Hs]. pose proof (working_as_in _ _ _ _ _ _ H1 Hg'). apply h_ret; [by eapply working_locked|].
    by apply HΦ.
  - pose proof (working_as_in _ _ _ _ _ _ H1 Hg') as Hw. destruct (is_worker_blocked e); [|apply h_throw; by eapply working_locked].
    pose proof Hw as E. unfold working, core, flags in E. injection E as El' _ Eo' Ew' Er' Ea' _ _.
    assert (∀ r, lnext g' (read_text (NumericTask.path t)) r = g' <| now := ok_value r |>) as Hnext
      by (intros r; cbn; unfold unwritten; by rewrite Ew').
    apply h_bind, (h_call _ (read_text (NumericTask.path t))); [unfold lallowed; by rewrite El'|intros r; by rewrite Hnext|].
    intros text _. rewrite Hnext. apply h_bind. destruct (String.eqb_spec text after) as [->|].
    + apply (h_call _ (write_text (NumericTask.path t) before)).
      * unfold lallowed. cbn -[accepted_text]. rewrite El'. cbn -[accepted_text]. rewrite String.eqb_refl, Ew', Er', Ea', Eo'.
        unfold says. cbn. by rewrite !bool_decide_eq_true_2.
      * intros r. unfold locked. cbn. unfold unwritten. cbn. by rewrite Ew'.
      * intros [] Hl'. by apply h_throw.
    + apply h_ret; [done|]. intros Hl'. by apply h_throw.
Qed.

Lemma step_commit_names produced : git_step ["diff"; "--name-only"; base; produced] = g_commit_names produced.
Proof. unfold git_step. rewrite !bool_decide_eq_false_2 by done. by rewrite String.eqb_refl. Qed.
Lemma after_commit_names produced names g :
  after_git ["diff"; "--name-only"; base; produced] (Some names) g =
  g <| commit_scoped := says (Some names) (NumericTask.path t) && says (head g) produced |>.
Proof. unfold after_git. by rewrite step_commit_names. Qed.
Lemma step_add : git_step ["add"; "--"; NumericTask.path t] = g_add.
Proof. unfold git_step. rewrite !bool_decide_eq_false_2 by done. by rewrite String.eqb_refl. Qed.
(** Staging, of the one path that was validated. *)
Lemma h_add n o after g (Φ : string → Ledger → Prop) :
  working n o (Some after) (false, false, false, false) g → validated g = true → scoped g = true →
  (∀ s g', g' = g <| added := true |> → working n o (Some after) (false, true, false, false) g' → Φ s g') →
  safe (git ["add"; "--"; NumericTask.path t]) g (held locked Φ).
Proof.
  intros Hg Hv Hs HΦ. pose proof Hg as E. unfold working, core in E. injection E as El Ep Eo Ew Er Ea Ec Erec.
  assert (∀ r, after_git ["add"; "--"; NumericTask.path t] r g = g <| added := true |>) as Hn
    by (intros r; unfold after_git; by rewrite step_add).
  apply h_process; cbn -[git_step after_git].
  - unfold lallowed. rewrite El. cbn -[git_step]. rewrite step_add. unfold unwritten. by rewrite Ew, Er, Hv, Hs.
  - intros r. rewrite Hn. exact El.
  - intros s. rewrite Hn. apply HΦ; [done|]. unfold working, core. cbn. congruence.
Qed.
Lemma h_commit n o after g (Φ : string → Ledger → Prop) :
  working n o (Some after) (false, true, false, false) g → validated g = true → scoped g = true →
  (∀ s g', g' = g <| committed := true |> <| validated := false |> <| clean := false |> →
     working n o (Some after) (false, true, true, false) g' → Φ s g') →
  safe (git commit_arguments) g (held locked Φ).
Proof.
  intros Hg Hv Hs HΦ. pose proof Hg as E. unfold working, core in E. injection E as El Ep Eo Ew Er Ea Ec Erec.
  assert (git_step commit_arguments = g_commit) as Hk by reflexivity.
  apply h_process; cbn -[git_step after_git commit_arguments].
  - unfold lallowed. rewrite El. cbn -[git_step commit_arguments]. rewrite Hk, Er, Ea, Ec, Hv, Hs. by rewrite bool_decide_eq_true_2.
  - intros r. unfold after_git. rewrite Hk. exact El.
  - intros s. unfold after_git. rewrite Hk. apply HΦ; [done|].
    unfold working, core. cbn. congruence.
Qed.
Lemma h_commit_local n o after g (Φ : string * string → Ledger → Prop) :
  working n o (Some after) (false, false, false, false) g → validated g = true → scoped g = true →
  (∀ p g', working n o (Some after) (false, true, true, false) g' → settled g' = true → head g' = Some p.1 → Φ p g') →
  safe (commit_local executable module t (NumericTask.path t)) g (held locked Φ).
Proof.
  intros Hg Hv Hs HΦ. unfold commit_local. apply h_bind, h_as_in, h_git; [by eapply working_refl|done..|].
  intros diff _ _. change (after_git _ _ g) with g.
  apply h_bind. eapply h_add; [done..|]. intros s1 g1 E1 H1 _.
  apply h_bind. eapply h_commit; [exact H1|by rewrite E1..|]. intros s2 g2 E2 H2 _.
  pose proof (working_refl _ _ _ _ _ H2) as Hr. eapply h_as_in.
  apply h_bind, h_git; [done..|]. intros produced Hg3. apply h_bind, h_insists; [done|].
  intros [Hsha Hne]%andb_prop _. apply h_bind, h_git; [done|by rewrite step_commit_names..|]. intros names.
  rewrite (after_commit_names produced names). change (after_git ["rev-parse"; "HEAD"] (Some produced) g2) with (g2 <| head := Some produced |>).
  intros Hg4.
  apply h_bind. destruct (String.eqb_spec names (NumericTask.path t)) as [->|]; [|by apply h_insists].
  apply h_bind, h_git; [done..|]. intros status Hg5. apply h_insists; [done|]. intros ->%String.eqb_eq _.
  set (g3 := g2 <| head := Some produced |> <| commit_scoped := _ |>) in *.
  change (after_git ["status"; "--porcelain"; "--untracked-files=all"] (Some "") g3) with (g3 <| clean := true |>) in *.
  apply h_bind, h_validate; [done|]. intros passed g6 -> Hg6 _. apply h_ret; [done|]. intros _. apply HΦ.
  - by eapply working_as_in.
  - unfold g3, settled, says. rewrite E2. cbn -[fullmatch SHA40]. rewrite !bool_decide_eq_true_2 by done. cbn -[fullmatch SHA40]. rewrite Hsha. exact Hne.
  - reflexivity.
Qed.

(** ** The repair *)

(** A repair that returned has committed and recorded what it wrote, or replays
    an earlier one without asking or writing. *)
Definition repaired (g : Ledger) : Prop :=
  (committed g = true ∧ recorded g = true ∧ is_Some (written g) ∧ restored g = false) ∨
  (proposals g = 0%nat ∧ written g = None).
Definition finished {A} (x : res A) (g : Ledger) : Prop := lock_st g ≠ RepairProps.lk_held ∧ on_ok (fun _ => repaired) x g.
Let idle : bool * bool * bool * bool := (false, false, false, false).

Lemma h_replay name path o g (Φ : json → Ledger → Prop) :
  working 0 o None idle g → (∀ v g', working 0 o None idle g' → Φ v g') →
  safe (replay_numeric executable module name t path) g (held locked Φ).
Proof.
  intros Hg HΦ. apply h_as_in. pose proof (working_refl _ _ _ _ _ Hg) as Hr.
  apply h_bind, (h_look (read_receipt _)); [done..|]. intros text H1 _.
  apply h_bind, h_of_res; [done|]. intros previous _ _. apply h_bind, h_of_res; [done|]. intros hash _ _.
  apply h_bind, h_insists; [done|]. intros _ _. apply h_bind, h_of_res; [done|]. intros produced _ _.
  apply h_bind, h_git; [done..|]. intros h H2. apply h_bind. destruct (is_text produced h); [|by apply h_insists].
  apply h_bind, h_of_res; [done|]. intros after _ _. apply h_bind, (h_look (read_bytes _)); [done..|]. intros b H3 _.
  apply h_insists; [done|]. intros _ _. apply h_bind, h_validate; [done|]. intros n g' -> H4 _. apply h_ret; [done|].
  intros _. apply HΦ. by eapply working_as_in.
Qed.
Lemma receipt_says produced patch after_hash baseline passed tries :
  let v := local_result t produced patch after_hash baseline passed tries in
  text_is "produced_sha" produced v = true ∧ text_is "base_sha" base v = true.
Proof.
  intros v. unfold text_is. change (member "produced_sha" v) with (JStr produced). change (member "base_sha" v) with (JStr base).
  by split; apply is_text_true.
Qed.
Lemma h_fresh name g :
  name ≠ "validation-task.json" → working 0 None None idle g →
  safe (fresh_repair executable module t name (NumericTask.path t)) g (held locked (fun _ => repaired)).
Proof.
  intros Hname Hg. apply h_bind, h_as_in, h_git; [by eapply working_refl|done..|]. intros h Hg1 _.
  pose proof (working_as_in _ _ _ _ _ _ Hg Hg1) as H1. set (g1 := after_git _ _ g) in *. clearbody g1.
  apply h_bind, h_insists; [by eapply working_locked|]. intros _ Hl.
  assert (∀ r, lnext g1 (read_text (NumericTask.path t)) r = g1 <| original := ok_value r |>) as Hnext
    by (injection H1 as _ _ _ Ew _ _ _ _; intros r; cbn; unfold unwritten; by rewrite Ew).
  apply h_bind, (h_call _ (read_text (NumericTask.path t))); [unfold lallowed; by rewrite Hl|intros r; by rewrite Hnext|].
  intros before _. rewrite Hnext. cbn [ok_value].
  assert (working 0 (Some before) None idle (g1 <| original := Some before |>)) as H2
    by (unfold working, core in *; cbn; congruence).
  apply h_bind, h_as_in, (h_look (read_bytes _)); [by eapply working_refl|done|]. intros b Hg3 _ _.
  pose proof (working_as_in _ _ _ _ _ _ H2 Hg3) as H3. set (g3 := lnext _ _ _) in *. clearbody g3.
  apply h_bind, h_insists; [by eapply working_locked|]. intros _ _.
  apply h_bind, h_of_res; [by eapply working_locked|]. intros baseline _ _.
  apply h_bind, h_insists; [by eapply working_locked|]. intros _ _.
  apply h_bind. eapply h_attempts; [exact H3|]. intros [after tries] n g4 H4 _ Hacc _. cbn beta iota.
  apply h_bind, h_as_in, h_unchanged; [by eapply working_refl|]. intros g5 E5 Hg5 _ _.
  pose proof (working_as_in _ _ _ _ _ _ H4 Hg5) as H5.
  apply h_bind, h_as_in, (h_look (read_bytes _)); [by eapply working_refl|done|]. intros b' Hg6 _ _. cbn [lnext] in *.
  pose proof (working_as_in _ _ _ _ _ _ H5 Hg6) as H6.
  apply h_bind, h_insists; [by eapply working_locked|]. intros Hsrc _.
  apply h_bind, (h_write_validated before after n); [done| |exact Hsrc| |].
  { rewrite E5. unfold at_base, says. cbn. by rewrite bool_decide_eq_true_2. }
  { by rewrite E5. }
  intros passed g7 H7 Hv Hs _. apply h_bind, (h_commit_local n (Some before) after); [done..|]. intros p g8 H8 Hset Hhead _.
  apply h_bind, h_as_in, (h_look (read_bytes _)); [by eapply working_refl|done|]. intros b8 Hg9 _ _. cbn [lnext] in *.
  set (g9 := g8 <| source_base := _ |>) in *. pose proof (working_as_in _ _ _ _ _ _ H8 Hg9) as H9.
  assert (settled g9 = true ∧ head g9 = Some p.1) as [Hset9 Hhead9] by done. clearbody g9.
  pose proof H9 as E. injection E as El Ep Eo Ew Er Ea Ec Erec.
  apply h_bind, (h_call _ (write_patch _)); [unfold lallowed; rewrite El; unfold allowed_held; by rewrite Hset9, Erec|done|]. intros [] _. cbn [lnext].
  pose proof (proj2 (String.eqb_neq _ _) Hname) as Hn. destruct (receipt_says p.1 p.2 (sha256_hex b8) baseline passed tries) as [R1 R2].
  apply h_bind, (h_call _ (replace_json name _)).
  - unfold lallowed. rewrite El. unfold allowed_held. rewrite Hn, Hset9, Erec. unfold truthful_receipt. rewrite Hhead9.
    by rewrite R1, R2.
  - intros r. unfold lnext. by rewrite Hn.
  - intros [] _. unfold lnext. rewrite Hn. apply h_ret; [exact El|]. left. cbn. rewrite Ew. by repeat split.
Qed.
Lemma h_repair_locked name g :
  name ≠ "validation-task.json" → working 0 None None idle g →
  safe (repair_locked executable module name t) g (held locked (fun _ => repaired)).
Proof.
  intros Hname Hg.
  apply h_bind, h_as_in, h_safe_target; [by eapply working_refl|]. intros _ _.
  apply h_bind, h_as_in, h_git; [by eapply working_refl|done..|]. intros remote _. change (after_git _ _ g) with g. intros Hl.
  apply h_bind, h_insists; [done|]. intros _ _. apply h_bind, h_as_in, h_no_active_hooks; [by eapply working_refl|]. intros _ _.
  apply h_bind, h_as_in, h_git; [by eapply working_refl|done..|]. intros branch _ _. change (after_git _ _ g) with g.
  apply h_bind, h_insists; [done|]. intros _ _. apply h_bind, h_as_in, h_git; [by eapply working_refl|done..|].
  intros status Hg1 _. pose proof (working_as_in _ _ _ _ _ _ Hg Hg1) as H1. set (g1 := after_git _ _ g) in *. clearbody g1.
  apply h_bind, h_insists; [by eapply working_locked|]. intros _ _.
  apply h_bind, h_as_in, (h_look (receipt_exists _)); [by eapply working_refl|done|]. intros known _ _ _. cbn [lnext].
  destruct known; [|by apply h_fresh]. eapply h_replay; [exact H1|]. intros v g' H'.
  right. unfold working, core in H'. split; congruence.
Qed.
Lemma receipt_name root : String.append (sha256_of root) ".json" ≠ "validation-task.json".
Proof.
  intros E. apply (f_equal chars), (f_equal length) in E. rewrite chars_app, length_app in E.
  unfold sha256_of in E. rewrite <-len_chars, sha256_hex_len in E. done.
Qed.
Lemma safe_asks (o : lop) g (Q : res (lanswer o) → Ledger → Prop) :
  lallowed g o = true → (∀ r, Q r (lnext g o r)) → safe (call o) g Q.
Proof. apply (Prog.safe_call (answer:=lanswer)). Qed.
Lemma safe_local_repair task : numeric_task task = Ok t → safe (local_repair executable module task) untouched finished.
Proof.
  intros Ht. unfold local_repair. rewrite Ht. apply safe_bind, safe_of_res.
  assert (∀ e, finished (Raise e : res json) untouched) as Hstart by done.
  apply safe_bind, (safe_asks resolve_roots); [done|]. intros [r|e]; cbn [lnext]; [|done].
  do 2 (apply safe_bind, safe_of_res; destruct (require_ok _ _) as [[]|e]; [|done]).
  apply safe_bind, (safe_asks make_state); [done|]. intros [[]|e]; cbn [lnext]; [|done].
  cbv zeta. apply safe_bind, safe_catch, (safe_asks (lock _)); [done|]. intros [[]|e]; cbn [lnext]; [|apply safe_throw, Hstart].
  apply safe_finally. eapply safe_mono; [apply h_repair_locked; [apply receipt_name|done]|].
  intros x g [Hl Hx]. apply (safe_asks (unlock _)); [unfold lallowed; by rewrite Hl|].
  intros [[]|e]; cbn [lnext]; (split; [done|]); [|done]. exact Hx.
Qed.
End Protocol.

(** C35: whatever git, the files, the validator's processes and the caller's
    model answer, a repair works under its lock and gives it back; it asks for
    at most two proposals, each with the copy clean and at the task's commit; it
    writes only the task's module, only a text that the last proposal makes and
    that passes every case, with the copy then seen unchanged again, or else
    the original text over that very text; it stages only what an independent
    validator approved and git says is the only change, commits it once, and
    writes the patch and the receipt only after the commit was seen to be of the
    one path on the base, with a clean copy and a second approval, a receipt
    that names that commit.  When it returns, it committed and recorded, or
    replayed an earlier repair without asking or writing. *)
Theorem local_repair_is_validated {py : Language} (executable module : string) (task : json) (t : NumericTask.t)
    (tr : list (event (answer:=lanswer))) (x : res json)
    (Hinterpreter : executable ≠ "git") (Htask : numeric_task task = Ok t)
    (Hruns : runs (local_repair executable module task) tr x) :
  accepts (lallowed executable module t) (lnext t) untouched tr = true ∧ finished x (reached (lnext t) untouched tr).
Proof. exact (safe_runs _ _ _ _ _ _ _ (safe_local_repair executable module t Hinterpreter task Htask) Hruns). Qed.

(** ** A concrete repair

    A function that returns its second parameter, a caller's model that answers
    with the first, then with the larger of the two, and a validator that runs
    the written text. *)

Definition at_ : position := at_position 1 0 1.
Definition name_node (x : string) : node := Node "Name" at_ [("id", a_text x)] [("ctx", [Some (Node "Load" at_ [] [])])].
Definition max_node : node :=
  Node "Call" at_ [] [("func", [Some (name_node "max")]); ("args", [Some (name_node "a"); Some (name_node "b")]); ("keywords", [])].
Definition candidate_of (s : string) : option node :=
  if String.eqb s "a" then Some (name_node "a") else if String.eqb s "b" then Some (name_node "b")
  else if String.eqb s "max(a, b)" then Some max_node else None.
Definition text_of_candidate (n : node) : string := if is_node "Name" n then text_atom "id" n else "max(a, b)".
Definition larger_source (e : string) : string :=
  concat_text ["def larger(a, b):"; newline; "    return "; e; newline].
Definition arg_node (x : string) : node := Node "arg" at_ [("arg", a_text x)] [("annotation", [])].
Definition larger_node (n : node) : node :=
  Node "Module" at_ [] [("body", [Some (Node "FunctionDef" at_ [("name", a_text "larger")]
    [("args", [Some (Node "arguments" at_ []
        [("posonlyargs", []); ("args", [Some (arg_node "a"); Some (arg_node "b")]); ("vararg", []); ("kwonlyargs", []);
         ("kw_defaults", []); ("kwarg", []); ("defaults", [])])]);
     ("body", [Some (Node "Return" at_ [] [("value", [Some n])])]);
     ("decorator_list", []); ("returns", []); ("type_params", [])])])].
Definition expression_reply (e : string) : json := JObj [("expression", JStr e)].
Definition local_values : list json := [expression_reply "a"; expression_reply "max(a, b)"; validated_json 3].
#[export] Instance larger_language : Language := {|
  ast_parse s :=
    match List.find (fun e => String.eqb s (larger_source e)) ["a"; "b"; "max(a, b)"] with
    | Some e => match candidate_of e with Some n => Ok (larger_node n) | None => Raise (Error "SyntaxError" "") end
    | None => Raise (Error "SyntaxError" "")
    end;
  ast_parse_eval s := match candidate_of s with Some n => Ok n | None => Raise (Error "SyntaxError" "") end;
  ast_unparse := text_of_candidate;
  ast_dump := text_of_candidate;
  repr_text s := s;
  json_loads s :=
    match List.find (fun v => String.eqb s (json_dumps v)) local_values with Some v => Ok v | None => Raise (ValueError "json") end;
  utf8_decode s := Ok s |}.
Definition larger_case (a b e : Z) : json := JObj [("args", JList [JInt a; JInt b]); ("expected", JInt e)].
Definition larger_base : string := "1111111111111111111111111111111111111111".
Definition larger_commit : string := "2222222222222222222222222222222222222222".
Definition larger_task : json :=
  JObj [("task_id", JStr "t-2"); ("path", JStr "src/larger.py"); ("function", JStr "larger"); ("parameters", JList [JStr "a"; JStr "b"]);
        ("instruction", JStr "Return the larger."); ("base_sha", JStr larger_base);
        ("before_sha256", JStr (sha256_hex (larger_source "b")));
        ("cases", JList [larger_case 1 2 2; larger_case 5 3 5; larger_case (-4) (-4) (-4)])].
Definition larger_parsed : NTask :=
  match numeric_task larger_task with Ok t => t | Raise _ => NumericTask.mk "" "" "" [] "" "" "" [] JNull end.


(** The copy: the text of the module, whether it was committed, and how often
    the model was asked. *)
Definition LocalCopy : Type := string * bool * nat.
Definition local_git (args : list string) (e : LocalCopy) : string :=
  match args with
  | ["rev-parse"; "HEAD"] => if e.1.2 then larger_commit else larger_base
  | "branch" :: _ => "worker/t-2"
  | "diff" :: "--" :: _ => "+    return max(a, b)"
  | "diff" :: _ => "src/larger.py"
  | _ => ""
  end.
Definition repair_world (o : lop) (e : LocalCopy) : res (lanswer o) * LocalCopy :=
  match o return res (lanswer o) * LocalCopy with
  | client o =>
      match o return res (ModelClient.answer o) * LocalCopy with
      | run_process argv =>
          match argv with
          | "git" :: args => (Ok (0, local_git args e), match args with "-c" :: _ => (e.1.1, true, e.2) | _ => e end)
          | _ => (Ok (match check_source e.1.1 larger_parsed with
                      | Ok 3 => (0, json_dumps (validated_json 3)) | _ => (2, "") end), e)
          end
      | getenv _ => (Ok None, e)
      | send _ _ _ => (Raise (RuntimeError ""), e)
      | assign _ _ | observer _ => (Ok tt, e)
      end
  | propose _ _ => (Ok (JStr (json_dumps (expression_reply (if (e.2 =? 0)%nat then "a" else "max(a, b)")))), (e.1, S e.2))
  | resolve_roots => (Ok (Repair.Roots.mk false false "/copy" "/state"), e)
  | target_stat _ => (Ok (FileStat.mk true false true false true false 1 true), e)
  | hooks_stat _ => (Ok (HooksStat.mk false true [(true, "pre-commit.sample")]), e)
  | read_bytes _ | read_text _ => (Ok e.1.1, e)
  | write_text _ text => (Ok tt, (text, e.1.2, e.2))
  | receipt_exists _ => (Ok false, e)
  | read_receipt _ | read_argument _ => (Ok "", e)
  | arguments => (Ok [], e)
  | make_state | lock _ | unlock _ | replace_json _ _ | write_patch _ | print _ => (Ok tt, e)
  end.
Definition larger_repair :=
  Prog.execute repair_world (local_repair "python" "local_code_worker.py" larger_task) (larger_source "b", false, 0%nat).
(** The second proposal is committed. *)
Example larger_repair_result :
  (match larger_repair.2.1 with Ok v => (value_of "passed" v, value_of "model_calls" v, value_of "produced_sha" v) | Raise _ => (None, None, None) end) =
    (Some (JInt 3), Some (JInt 2), Some (JStr larger_commit)) ∧
  larger_repair.2.2 = (larger_source "max(a, b)", true, 2%nat).
Proof. vm_compute. split; reflexivity. Qed.
Lemma local_repair_is_validated_witness :
  length larger_repair.1 = 40%nat ∧
  accepts (lallowed "python" "local_code_worker.py" larger_parsed) (lnext larger_parsed) untouched larger_repair.1 = true ∧
  finished larger_repair.2.1 (reached (lnext larger_parsed) untouched larger_repair.1).
Proof.
  split; [vm_compute; reflexivity|]. unfold larger_repair.
  apply (local_repair_is_validated "python" "local_code_worker.py" larger_task larger_parsed); [done|vm_compute; reflexivity|].
  exact (execute_runs repair_world _ (larger_source "b", false, 0%nat)).
Defined.
