(* ===== verification/Gateway.v ===== *)
(** The governed boundary of a native executor,
    [app/native_gateway_preflight.py] and [app/native_gateway_commands.py]: the
    attestation of a session by the installed Command Gateway, and the registry
    of the fixed commands that run through it.

    The Gateway is not in the repository: its functions are calls whose answers
    are arbitrary, as are the files, the clock and the name of the host. *)
From Stdlib Require Import Ascii String.
From S2P Require Import Prelude Prog PyStr Sha256 Clock Json PyVal PyText PyAst IsoDate Names Structured IssueDraft Manifest.
From S2P Require Import ModelClient.
From stdpp Require Import strings list.

Local Open Scope string_scope.
Local Open Scope Z_scope.
Local Open Scope list_scope.

Definition TAIL_BYTES : Z := 1048576.

(** ** Calls *)

(** The arguments of the Gateway's [execute]. *)
Module Execution.
Record t := mk {
  cwd : string; policy : json; args : list string; risk : Z; timeout : Z; expected_head : string;
  allow_dirty : bool; allow_head_change : bool; correlation_id : string; session_id : string }.
End Execution.
(** A fixed command of the registry. *)
Module GovernedCommand.
Record t := mk {
  key : string; role : string; argv : list string; risk : Z; timeout_seconds : Z;
  allow_dirty : bool; allow_head_change : bool; script_sha256 : option string }.
End GovernedCommand.
Abbreviation Spec := GovernedCommand.t.
Module Authority.
(** What a trusted deployment gives: whether the module is the Gateway, its
    file and the pinned digests. *)
Record t := mk {
  is_gateway : bool; file : option string; policy_path : string; gateway_sha256 : string; policy_sha256 : string }.
End Authority.
Module Registry.
Record t := mk {
  authority : Authority.t; workspace : string; session_id : string; correlation_id : string;
  specs : list (string * Spec); boundary : ExecutionBoundary.t }.
End Registry.
Inductive gop : Type :=
  (* files: whether the path is a file and whether it is a link, the bytes *)
  | stat_file (path : string)
  | read_file (path : string)
  | stat_workspace (path : string)           (** a directory, a link, its own resolution *)
  | stat_script (root path : string)         (** a file, a link, below the root *)
  | read_tail (path : string)                (** the size, and at most the last [TAIL_BYTES] *)
  | utcnow
  | hostname
  (* the Gateway *)
  | load_policy (path : string)
  | assert_allowed_path (workspace : string) (policy : json)
  | enforce_session (policy : json) (session workspace : string) (risk : Z)
  | validate_session_snapshot (policy : json) (session : string) (reservation : json)
  | git_state (workspace : string) (policy : json)    (** [asdict] of the state *)
  | norm (path : json)                                (** [norm(str(path))] *)
  | state_dir (policy : json)
  | validate_command (argv : list string) (risk : Z) (policy : json)
  | execute (x : Execution.t).
Definition ganswer (o : gop) : Type :=
  match o with
  | stat_file _ => bool * bool
  | read_file _ | hostname | norm _ | state_dir _ => string
  | stat_workspace _ | stat_script _ _ => bool * bool * bool
  | read_tail _ => Z * string
  | utcnow => datetime
  | load_policy _ | enforce_session _ _ _ _ | validate_session_snapshot _ _ _ | execute _ => json
  | git_state _ _ => option json
  | assert_allowed_path _ _ | validate_command _ _ _ => unit
  end.
Abbreviation G := (prog ganswer).
Definition require_g (c : bool) (code : string) : G unit := of_res (need c code).
Definition is_blocked : exn → bool := is_a "NativeExecutorBlocked".
(** [except NativeExecutorBlocked: raise  except Exception: raise blocked(code)] *)
Definition governed {A} (code : string) (m : G A) : G A :=
  catch m (fun e => throw (if is_blocked e then e else blocked code)).
(** [except OSError: raise blocked(code)] *)
Definition os_failure {A} (code : string) (m : G A) : G A :=
  catch m (fun e => throw (if is_a "OSError" e then blocked code else e)).

(** ** The log of events *)

(** [data.splitlines()] of bytes. *)
Fixpoint byte_lines_from (cur : list ascii) (l : list ascii) : list string :=
  match l with
  | [] => match cur with [] => [] | _ => [str (rev cur)] end
  | c :: l' =>
      if Ascii.eqb c (chr 10) then str (rev cur) :: byte_lines_from [] l'
      else if Ascii.eqb c (chr 13) then
        str (rev cur) ::
        match l' with d :: l'' => if Ascii.eqb d (chr 10) then byte_lines_from [] l'' else byte_lines_from [] l' | [] => [] end
      else byte_lines_from (c :: cur) l'
  end.
Definition byte_lines (s : string) : list string := byte_lines_from [] (chars s).
(** The whole lines of a tail, the last one first. *)
Definition tail_lines (tail : Z * string) : list string :=
  let lines := byte_lines tail.2 in
  rev (if TAIL_BYTES <? tail.1 then drop 1 lines else lines).

Section Gateway.
Context {bytes : JsonBytes}.

Definition event_of (code line : string) : res json :=
  match json_loads_bytes line with
  | Raise e => Raise (if value_failure e then blocked code else e)
  | Ok v => need (is_dict v) code ;; Ok v
  end.
(** [_timestamp] *)
Definition timestamp (value : json) (now : datetime) (window : Z) : res datetime :=
  match value with
  | JStr s =>
      need (length_of s <=? 45) "native_attestation_timestamp" ;;
      parsed ← match fromisoformat (zulu s) with
               | Raise e => Raise (if value_failure e then blocked "native_attestation_timestamp" else e)
               | r => r
               end;
      need (aware parsed) "native_attestation_timestamp" ;;
      at_utc ← astimezone_utc parsed;
      need ((-5 * MICROS <=? now - at_utc) && (now - at_utc <=? window * MICROS)) "native_attestation_expired" ;;
      Ok at_utc
  | _ => Raise (blocked "native_attestation_timestamp")
  end.
Definition of_session (session correlation : string) (event : json) : bool :=
  text_is "session_id" session event && text_is "correlation_id" correlation event.
Definition inspected (root : string) (state event : json) : bool :=
  text_is "action" "inspect" event && text_is "result" "ok" event && py_eqb (member "risk" event) (JInt 1) &&
  text_is "cwd" root event && py_eqb (member "before" event) state.
(** The loop of [_inspect_event] over the lines. *)
Fixpoint find_inspection (session correlation root : string) (state : json) (now : datetime) (window : Z) (not_before : datetime)
    (lines : list string) : res unit :=
  match lines with
  | [] => Raise (blocked "native_gateway_event_missing")
  | line :: lines' =>
      event ← event_of "native_gateway_event_invalid" line;
      if of_session session correlation event then
        need (inspected root state event) "native_gateway_inspection_unverified" ;;
        at_utc ← timestamp (member "timestamp" event) now window;
        need (not_before <=? at_utc) "native_gateway_inspection_stale"
      else find_inspection session correlation root state now window not_before lines'
  end.
Definition inspect_event (log session correlation root : string) (state : json) (now : datetime) (window : Z)
    (not_before : datetime) : G unit :=
  s ← call (stat_file log);
  require_g (s.1 && negb s.2) "native_gateway_event_missing" ;;
  tail ← os_failure "native_gateway_event_missing" (call (read_tail log));
  of_res (find_inspection session correlation root state now window not_before (tail_lines tail)).

(** ** The attestation of a session *)

Definition file_text (a : Authority.t) : string := match Authority.file a with Some f => f | None => "" end.
(** [_digest] *)
Definition file_digest (path : string) : G string :=
  s ← call (stat_file path);
  require_g (s.1 && negb s.2) "native_authority_file_invalid" ;;
  b ← os_failure "native_authority_file_invalid" (call (read_file path));
  mret (sha256_hex b).
Definition protected_policy (policy : json) : res unit :=
  bootstrap ← get "require_session_bootstrap" policy;
  need (is_true bootstrap && is_true (member "require_preflight_snapshot" policy) &&
        is_true (member "risk2_requires_clean_tree" policy)) "native_policy_unprotected".
(** The reservation and the snapshot, up to the name of the host and after it. *)
Definition session_named (session correlation root reserved : string) (reservation snapshot : json) : bool :=
  String.eqb reserved root && text_is "status" "materialized" reservation && is_dict snapshot &&
  text_is "result" "BOOTSTRAP_OK" snapshot && is_true (member "state_validated" snapshot) &&
  text_is "session_id" session snapshot && text_is "correlation_id" correlation snapshot &&
  text_is "reservation_status" "materialized" snapshot && text_is "target_path" root snapshot.
Definition session_pinned (a : Authority.t) (head host : string) (policy reservation snapshot : json) : bool :=
  text_is "host" host snapshot && text_is "gateway_sha256" (Authority.gateway_sha256 a) snapshot &&
  text_is "policy_sha256" (Authority.policy_sha256 a) snapshot &&
  py_eqb (member "rules_version" snapshot) (member "rules_version" policy) &&
  is_true (member "base_matches_reservation" snapshot) && text_is "base_head" head reservation.
Definition attested_state (head : string) (snapshot state : json) : bool :=
  text_is "head" head state && py_eqb (member "status_count" state) (JInt 0) && py_eqb (member "target_state" snapshot) state.
Definition events_log (dir : string) : string := String.append dir "/events.jsonl".
(** The part of [attest_execution_boundary] in its [try]. *)
Definition attest_session (a : Authority.t) (workspace session correlation head : string) (max_age : Z) : G unit :=
  policy ← call (load_policy (Authority.policy_path a));
  of_res (protected_policy policy) ;;
  call (assert_allowed_path workspace policy) ;;
  reservation ← call (enforce_session policy session workspace 2);
  snapshot ← call (validate_session_snapshot policy session reservation);
  live ← call (git_state workspace policy);
  root ← call (norm (JStr workspace));
  worktree ← of_res (get_or "reserved_worktree" (JStr "") reservation);
  reserved ← call (norm worktree);
  (if session_named session correlation root reserved reservation snapshot then
     host ← call hostname;
     require_g (session_pinned a head host policy reservation snapshot) "native_session_not_attested"
   else require_g false "native_session_not_attested") ;;
  let state := match live with Some s => s | None => JObj [] end in
  require_g (attested_state head snapshot state) "native_workspace_drift" ;;
  now ← call utcnow;
  issued ← of_res (timestamp (member "timestamp" snapshot) now max_age);
  dir ← call (state_dir policy);
  inspect_event (events_log dir) session correlation root state now max_age issued.
Definition attest_execution_boundary (a : Authority.t) (workspace session correlation head : string) (max_age : Z)
    : G ExecutionBoundary.t :=
  require_g (Authority.is_gateway a && match Authority.file a with Some _ => true | None => false end) "native_authority_invalid" ;;
  require_g (fullmatch SESSION session && fullmatch CORRELATION correlation && fullmatch SHA40 head) "native_identity_invalid" ;;
  require_g ((1 <=? max_age) && (max_age <=? 300)) "native_window_invalid" ;;
  require_g (fullmatch SHA256_HEX (Authority.gateway_sha256 a) && fullmatch SHA256_HEX (Authority.policy_sha256 a))
    "native_trusted_digest_invalid" ;;
  w ← call (stat_workspace workspace);
  require_g (w.1.1 && negb w.1.2 && w.2) "native_workspace_invalid" ;;
  gateway ← file_digest (file_text a);
  (if String.eqb gateway (Authority.gateway_sha256 a) then
     policy ← file_digest (Authority.policy_path a);
     require_g (String.eqb policy (Authority.policy_sha256 a)) "native_authority_changed"
   else require_g false "native_authority_changed") ;;
  governed "native_gateway_verification_failed" (attest_session a workspace session correlation head max_age) ;;
  let boundary := ExecutionBoundary.mk session correlation head true true in
  of_res (validate_boundary boundary) ;;
  mret boundary.

(** ** Commands *)

Definition NUL_CHAR : ascii := chr 0.
Definition plain_argument (arg : string) : bool :=
  nonempty arg && (length_of arg <=? 200) && negb (existsb (Ascii.eqb NUL_CHAR) (chars arg)) &&
  negb (existsb (Ascii.eqb (chr 10)) (chars arg)).
Definition known_command (s : Spec) (d : AdapterDescriptor.t) : res bool :=
  if fullmatch NAME (GovernedCommand.key s) && bool_decide (GovernedCommand.role s ∈ ["builder"; "validator"]) then
    keys ← commands_for d (GovernedCommand.role s); Ok (bool_decide (GovernedCommand.key s ∈ keys))
  else Ok false.
Definition relative_script (path : string) : bool :=
  negb (starts_with "/" path) && forallb (fun part => negb (starts_with "." part)) (path_parts path) &&
  negb (contains "\" path) && negb (starts_with "-" path).
Definition is_builder (s : Spec) : bool := String.eqb (GovernedCommand.role s) "builder".
(** The three commands of git. *)
Definition git_contract (s : Spec) (d : AdapterDescriptor.t) (args : list string) : bool :=
  let dirty := GovernedCommand.allow_dirty s in
  let moves := GovernedCommand.allow_head_change s in
  match args with
  | "add" :: "--" :: path :: paths =>
      is_builder s && (GovernedCommand.risk s =? 2) && negb moves && subset (path :: paths) (AdapterDescriptor.allowed_paths d)
  | ["commit"; "-m"; text] =>
      is_builder s && (GovernedCommand.risk s =? 2) && dirty && moves && (1 <=? length_of text) && (length_of text <=? 100)
  | ["status"; "--porcelain"] => (GovernedCommand.risk s =? 1) && negb dirty && negb moves
  | _ => false
  end.
(** [GovernedCommand.validate] *)
Definition validate_spec (s : Spec) (d : AdapterDescriptor.t) : res unit :=
  let argv := GovernedCommand.argv s in
  need_r (known_command s d) "native_command_contract" ;;
  need ((2 <=? length argv)%nat && forallb plain_argument argv) "native_command_arguments" ;;
  need (((GovernedCommand.risk s =? 1) || (GovernedCommand.risk s =? 2)) &&
        (1 <=? GovernedCommand.timeout_seconds s) && (GovernedCommand.timeout_seconds s <=? 120) &&
        (negb (String.eqb (GovernedCommand.role s) "validator") || (GovernedCommand.risk s =? 1))) "native_command_risk" ;;
  match argv with
  | program :: args =>
      (if bool_decide (program ∈ ["python"; "python3"]) then
         need (match args with [script] => ends_with ".py" script | _ => false end &&
               match GovernedCommand.script_sha256 s with Some h => fullmatch SHA256_HEX h | None => false end &&
               negb (GovernedCommand.allow_head_change s)) "native_script_contract" ;;
         need (match args with script :: _ => relative_script script | [] => false end) "native_script_path"
       else if String.eqb program "git" then
         need (match GovernedCommand.script_sha256 s with None => true | Some _ => false end) "native_git_contract" ;;
         need (git_contract s d args) "native_git_contract"
       else Raise (blocked "native_command_executable")) ;;
      need (negb (GovernedCommand.allow_head_change s) || String.eqb program "git") "native_command_head_change"
  | [] => Raise (blocked "native_command_executable")
  end.

(** ** The registry *)

(** [__init__] of the registry: the session is attested when it is made. *)
Definition new_registry (a : Authority.t) (workspace session correlation head : string) (specs : list (string * Spec))
    : G Registry.t :=
  require_g (negb (match specs with [] => true | _ => false end) &&
             forallb (fun s => String.eqb s.1 (GovernedCommand.key s.2)) specs) "native_registry_invalid" ;;
  boundary ← attest_execution_boundary a workspace session correlation head 300;
  mret (Registry.mk a workspace session correlation specs boundary).
Fixpoint validate_specs (d : AdapterDescriptor.t) (specs : list (string * Spec)) : res unit :=
  match specs with [] => Ok tt | s :: specs' => validate_spec s.2 d ;; validate_specs d specs' end.
(** [for_role]: the commands that the adapter is given. *)
Definition for_role (r : Registry.t) (d : AdapterDescriptor.t) (role : string) : res (list (string * Spec)) :=
  normalized d ;;
  need (bool_decide (role ∈ AdapterDescriptor.roles d) &&
        subset (keys (Registry.specs r)) (command_keys d) && subset (command_keys d) (keys (Registry.specs r)))
    "native_registry_descriptor_mismatch" ;;
  validate_specs d (Registry.specs r) ;;
  Ok (Registry.specs r).

(** [_trusted_policy] *)
Definition trusted_policy (r : Registry.t) : G json :=
  let a := Registry.authority r in
  governed "native_gateway_unavailable"
    (gateway ← call (read_file (file_text a));
     (if String.eqb (sha256_hex gateway) (Authority.gateway_sha256 a) then
        policy ← call (read_file (Authority.policy_path a));
        require_g (String.eqb (sha256_hex policy) (Authority.policy_sha256 a)) "native_authority_changed"
      else require_g false "native_authority_changed") ;;
     policy ← call (load_policy (Authority.policy_path a));
     of_res (protected_policy policy) ;;
     mret policy).
(** [_verify_script]: the arguments of a command that [for_role] hands out have
    a second element, which [validate_spec] demands. *)
Definition script_path (workspace script : string) : string :=
  String.append workspace (String.append "/" (as_posix (path_parts script))).
Definition script_of (s : Spec) : string := nth 1 (GovernedCommand.argv s) "".
Definition verify_script (r : Registry.t) (s : Spec) : G unit :=
  match GovernedCommand.script_sha256 s with
  | None => mret tt
  | Some expected =>
      let path := script_path (Registry.workspace r) (script_of s) in
      digest ← os_failure "native_script_untrusted"
        (v ← call (stat_script (Registry.workspace r) path);
         require_g (v.1.1 && negb v.1.2 && v.2) "native_script_untrusted" ;;
         b ← call (read_file path);
         mret (sha256_hex b));
      require_g (String.eqb digest expected) "native_script_drift"
  end.
(** [_readback]: the last run of the session in the log is this one. *)
Definition is_run (session correlation : string) (event : json) : bool :=
  of_session session correlation event && text_is "action" "run" event.
Definition records (s : Spec) (root : string) (before after event : json) : bool :=
  py_eqb (member "cwd" event) (JStr root) &&
  py_eqb (member "command" event) (JList (map JStr (GovernedCommand.argv s))) &&
  py_eqb (member "before" event) before && py_eqb (member "after" event) after.
Definition succeeded (s : Spec) (event : json) : bool :=
  text_is "result" "ok" event && py_eqb (member "gateway_exit_code" event) (JInt 0) &&
  py_eqb (member "command_exit_code" event) (JInt 0) && py_eqb (member "risk" event) (JInt (GovernedCommand.risk s)).
(** [datetime.fromisoformat(str(event["timestamp"]).replace("Z", "+00:00"))]: the
    text of a value that is none is no date with an offset. *)
Definition run_time (event : json) : res DateTime :=
  match value_of "timestamp" event with
  | Some (JStr s) =>
      parsed ← match fromisoformat (zulu s) with
               | Raise e => Raise (if value_failure e then blocked "native_command_receipt_stale" else e)
               | r => r
               end;
      need (aware parsed) "native_command_receipt_stale" ;;
      Ok parsed
  | _ => Raise (blocked "native_command_receipt_stale")
  end.
Fixpoint find_run (session correlation : string) (lines : list string) : res json :=
  match lines with
  | [] => Raise (blocked "native_command_receipt_missing")
  | line :: lines' =>
      event ← event_of "native_command_receipt_invalid" line;
      if is_run session correlation event then Ok event else find_run session correlation lines'
  end.
Definition readback (r : Registry.t) (s : Spec) (before after policy : json) : G unit :=
  dir ← call (state_dir policy);
  tail ← os_failure "native_command_receipt_missing" (call (read_tail (events_log dir)));
  event ← of_res (find_run (Registry.session_id r) (Registry.correlation_id r) (tail_lines tail));
  (if succeeded s event then
     root ← call (norm (JStr (Registry.workspace r)));
     require_g (records s root before after event) "native_command_receipt_mismatch"
   else require_g false "native_command_receipt_mismatch") ;;
  parsed ← of_res (run_time event);
  now ← call utcnow;
  at_utc ← of_res (astimezone_utc parsed);
  require_g ((-5 * MICROS <=? now - at_utc) && (now - at_utc <=? 60 * MICROS)) "native_command_receipt_stale".

Definition execution_of (r : Registry.t) (s : Spec) (policy : json) : Execution.t :=
  Execution.mk (Registry.workspace r) policy (GovernedCommand.argv s) (GovernedCommand.risk s) (GovernedCommand.timeout_seconds s)
    (ExecutionBoundary.expected_head (Registry.boundary r)) (GovernedCommand.allow_dirty s) (GovernedCommand.allow_head_change s)
    (Registry.correlation_id r) (Registry.session_id r).
(** [asdict(state)] *)
Definition as_dict (state : option json) : res json :=
  match state with Some s => Ok s | None => Raise (TypeError "asdict() should be called on dataclass instances") end.
(** [_invoke] *)
Definition invoke_governed (r : Registry.t) (s : Spec) (policy : json) : G json :=
  call (assert_allowed_path (Registry.workspace r) policy) ;;
  call (enforce_session policy (Registry.session_id r) (Registry.workspace r) (GovernedCommand.risk s)) ;;
  state ← call (git_state (Registry.workspace r) policy);
  before ← of_res (as_dict state);
  head ← of_res (item "head" before);
  require_g (is_text head (ExecutionBoundary.expected_head (Registry.boundary r))) "native_command_head_drift" ;;
  call (validate_command (GovernedCommand.argv s) (GovernedCommand.risk s) policy) ;;
  result ← call (execute (execution_of r s policy));
  require_g (py_eqb result (JInt 0)) "native_gateway_command_failed" ;;
  observed ← call (git_state (Registry.workspace r) policy);
  after ← of_res (as_dict observed);
  head' ← of_res (item "head" after);
  require_g (Bool.eqb (negb (py_eqb head head')) (GovernedCommand.allow_head_change s)) "native_command_post_head" ;;
  readback r s before after policy ;;
  mret (JObj [("result", JStr "GOVERNED_COMMAND_VERIFIED"); ("head", head')]).
Definition invoke (r : Registry.t) (s : Spec) (role : string) : G json :=
  require_g (String.eqb (GovernedCommand.role s) role) "native_command_wrong_role" ;;
  of_res (validate_boundary (Registry.boundary r)) ;;
  policy ← trusted_policy r;
  verify_script r s ;;
  governed "native_gateway_command_unverified" (invoke_governed r s policy).
End Gateway.

(** ** What a governed command is evidence of *)

(** The first line in a list whose event satisfies a test, after lines of
    other events. *)
Definition first_event {bytes : JsonBytes} (p : json → bool) (lines : list string) (event : json) : Prop :=
  ∃ pre line post, lines = pre ++ line :: post ∧ json_loads_bytes line = Ok event ∧ is_dict event = true ∧ p event = true ∧
    ∀ l, l ∈ pre → ∃ e, json_loads_bytes l = Ok e ∧ is_dict e = true ∧ p e = false.
(** The answers so far: that the authority's files were read with the pinned
    digests, the policy, that the Gateway admitted the path, the session and
    the command, the script, the states before and after, the result and the
    log. *)
Record Seen := mkSeen {
  gateway_pinned : bool; policy_pinned : bool; policy_read : option json; script_found : bool; script_pinned : bool;
  path_admitted : bool; session_admitted : bool; command_admitted : bool;
  before_run : option json; ran : option (res json); after_run : option json; log_tail : option (Z * string) }.
#[export] Instance Seen_eta : Eta Seen := fun g =>
  mkSeen (gateway_pinned g) (policy_pinned g) (policy_read g) (script_found g) (script_pinned g) (path_admitted g)
    (session_admitted g) (command_admitted g) (before_run g) (ran g) (after_run g) (log_tail g).
Definition nothing_seen : Seen := mkSeen false false None false false false false false None None None None.

Section Governed.
Context {bytes : JsonBytes} (r : Registry.t) (s : Spec) (role : string).
Abbreviation a := (Registry.authority r).
Abbreviation ws := (Registry.workspace r).
Abbreviation expected := (ExecutionBoundary.expected_head (Registry.boundary r)).

Definition has_digest (x : res string) (digest : string) : bool :=
  match x with Ok b => String.eqb (sha256_hex b) digest | Raise _ => false end.
Definition is_ok {A} (x : res A) : bool := match x with Ok _ => true | Raise _ => false end.
Definition script_trusted (g : Seen) : bool :=
  match GovernedCommand.script_sha256 s with None => true | Some _ => script_found g && script_pinned g end.
Definition may_execute (g : Seen) (x : Execution.t) : bool :=
  match policy_read g with
  | Some policy =>
      is_ok (protected_policy policy) &&
      bool_decide (Execution.policy x = policy) && bool_decide (Execution.args x = GovernedCommand.argv s) &&
      (Execution.risk x =? GovernedCommand.risk s) && (Execution.timeout x =? GovernedCommand.timeout_seconds s) &&
      String.eqb (Execution.expected_head x) expected && String.eqb (Execution.cwd x) ws &&
      Bool.eqb (Execution.allow_dirty x) (GovernedCommand.allow_dirty s) &&
      Bool.eqb (Execution.allow_head_change x) (GovernedCommand.allow_head_change s) &&
      String.eqb (Execution.session_id x) (Registry.session_id r) &&
      String.eqb (Execution.correlation_id x) (Registry.correlation_id r)
  | None => false
  end &&
  match ran g with None => true | Some _ => false end &&
  gateway_pinned g && policy_pinned g && script_trusted g && path_admitted g && session_admitted g && command_admitted g &&
  match before_run g with Some b => text_is "head" expected b | None => false end.
Definition gallowed (g : Seen) (o : gop) : bool :=
  String.eqb (GovernedCommand.role s) role &&
  match o with execute x => may_execute g x | _ => true end.
Definition gnext (g : Seen) (o : gop) : res (ganswer o) → Seen :=
  match o with
  | read_file path => fun x =>
      g <| gateway_pinned := gateway_pinned g || (String.eqb path (file_text a) && has_digest x (Authority.gateway_sha256 a)) |>
        <| policy_pinned := policy_pinned g ||
             (String.eqb path (Authority.policy_path a) && has_digest x (Authority.policy_sha256 a)) |>
        <| script_pinned := script_pinned g ||
             (String.eqb path (script_path ws (script_of s)) &&
              match GovernedCommand.script_sha256 s with Some h => has_digest x h | None => false end) |>
  | stat_script root path => fun x =>
      g <| script_found := match x with
                           | Ok v => String.eqb root ws && String.eqb path (script_path ws (script_of s)) && v.1.1 && negb v.1.2 && v.2
                           | Raise _ => false
                           end |>
  | load_policy path => fun x => g <| policy_read := if String.eqb path (Authority.policy_path a) then ok_value x else None |>
  | assert_allowed_path w p => fun x => g <| path_admitted := is_ok x && String.eqb w ws && bool_decide (policy_read g = Some p) |>
  | enforce_session p session w risk => fun x =>
      g <| session_admitted := is_ok x && bool_decide (policy_read g = Some p) && String.eqb session (Registry.session_id r) &&
             String.eqb w ws && (risk =? GovernedCommand.risk s) |>
  | validate_command argv risk p => fun x =>
      g <| command_admitted := is_ok x && bool_decide (policy_read g = Some p) && bool_decide (argv = GovernedCommand.argv s) &&
             (risk =? GovernedCommand.risk s) |>
  | git_state w p => fun x =>
      let state := match x with Ok (Some v) => if String.eqb w ws then Some v else None | _ => None end in
      if match ran g with None => true | Some _ => false end then g <| before_run := state |> else g <| after_run := state |>
  | execute _ => fun x => g <| ran := Some x |>
  | read_tail _ => fun x => g <| log_tail := ok_value x |>
  | _ => fun _ => g
  end.
Abbreviation safe := (Prog.safe gallowed gnext).

(** The command ran once, with result zero; the head moved exactly if it may;
    and the last run of the session in the log is this one, between the states
    that were seen. *)
Definition verified_run (v : json) (g : Seen) : Prop :=
  ∃ before after head result tail event root,
    before_run g = Some before ∧ after_run g = Some after ∧ ran g = Some (Ok result) ∧ py_eqb result (JInt 0) = true ∧
    log_tail g = Some tail ∧ first_event (is_run (Registry.session_id r) (Registry.correlation_id r)) (tail_lines tail) event ∧
    succeeded s event = true ∧ records s root before after event = true ∧
    text_is "head" expected before = true ∧ item "head" after = Ok head ∧
    is_text head expected = negb (GovernedCommand.allow_head_change s) ∧
    v = JObj [("result", JStr "GOVERNED_COMMAND_VERIFIED"); ("head", head)].

Lemma ok_demand_g c code g (Φ : unit → Seen → Prop) : (c = true → Φ tt g) → safe (require_g c code) g (on_ok Φ).
Proof. intros H. apply ok_of_res. intros [] Hc. apply H. by destruct c. Qed.
Lemma ok_gateway (o : gop) g (Φ : ganswer o → Seen → Prop) :
  gallowed g o = true → (∀ v, Φ v (gnext g o (Ok v))) → safe (call o) g (on_ok Φ).
Proof. apply ok_call. Qed.
Lemma need_passed c code u : Manifest.need c code = Ok u → c = true.
Proof. by destruct c. Qed.
Lemma event_of_ok code line event : event_of code line = Ok event → json_loads_bytes line = Ok event ∧ is_dict event = true.
Proof.
  unfold event_of. destruct (json_loads_bytes line) as [v|e]; [|done]. cbn. destruct (is_dict v) eqn:E; [|done]. cbn. by intros [= <-].
Qed.
Lemma first_event_cons (p : json → bool) line lines event other :
  json_loads_bytes line = Ok other → is_dict other = true → p other = false → first_event p lines event →
  first_event p (line :: lines) event.
Proof.
  intros H1 H2 H3 (pre & l & post & -> & Hl & Hd & Hp & Hpre). exists (line :: pre), l, post. repeat split; try done.
  intros k [->|Hk]%elem_of_cons; [by exists other|by apply Hpre].
Qed.
Lemma first_event_here (p : json → bool) line lines event :
  json_loads_bytes line = Ok event → is_dict event = true → p event = true → first_event p (line :: lines) event.
Proof. intros H1 H2 H3. exists [], line, lines. repeat split; try done. by intros k ?%elem_of_nil. Qed.
Lemma find_run_first session correlation lines event :
  find_run session correlation lines = Ok event → first_event (is_run session correlation) lines event.
Proof.
  induction lines as [|line lines IH]; cbn [find_run]; [done|]. intros H.
  apply res_bind_ok in H as (e & [Hl Hd]%event_of_ok & H). destruct (is_run session correlation e) eqn:Er.
  - injection H as ->. by apply first_event_here.
  - eapply first_event_cons; try done. by apply IH.
Qed.

Context (Hrole : String.eqb (GovernedCommand.role s) role = true).
Lemma looks_allowed g o : match o with execute _ => false | _ => true end = true → gallowed g o = true.
Proof. intros Ho. unfold gallowed. rewrite Hrole. by destruct o. Qed.
Ltac look o := apply (ok_gateway o); [by apply looks_allowed|]; cbn [gnext].

Lemma ok_governed {A} code (m : G A) g (Φ : A → Seen → Prop) : safe m g (on_ok Φ) → safe (governed code m) g (on_ok Φ).
Proof. apply ok_catch. Qed.
Lemma ok_os {A} code (m : G A) g (Φ : A → Seen → Prop) : safe m g (on_ok Φ) → safe (os_failure code m) g (on_ok Φ).
Proof. apply ok_catch. Qed.

Lemma ok_trusted_policy g (Φ : json → Seen → Prop) :
  (∀ policy g', gateway_pinned g' = true → policy_pinned g' = true → policy_read g' = Some policy → protected_policy policy = Ok tt →
     ran g' = ran g → Φ policy g') →
  safe (trusted_policy r) g (on_ok Φ).
Proof.
  intros HΦ. unfold trusted_policy. apply ok_governed, ok_bind. look (read_file (file_text a)). intros b.
  apply ok_bind. destruct (String.eqb (sha256_hex b) (Authority.gateway_sha256 a)) eqn:E; [|by apply ok_demand_g].
  apply ok_bind. look (read_file (Authority.policy_path a)). intros b'. apply ok_demand_g. intros E'.
  apply ok_bind. look (load_policy (Authority.policy_path a)). intros policy.
  apply ok_bind, ok_of_res. intros [] Hp. apply ok_ret, HΦ; cbn -[file_text sha256_hex String.eqb]; try done.
  - by rewrite !String.eqb_refl, E, orb_true_r.
  - by rewrite !String.eqb_refl, E', orb_true_r.
  - by rewrite String.eqb_refl.
Qed.
Lemma ok_verify_script g (Φ : unit → Seen → Prop) :
  (∀ g', script_trusted g' = true → gateway_pinned g' = (gateway_pinned g || gateway_pinned g') →
     policy_pinned g' = (policy_pinned g || policy_pinned g') → policy_read g' = policy_read g → ran g' = ran g → Φ tt g') →
  safe (verify_script r s) g (on_ok Φ).
Proof.
  intros HΦ. unfold verify_script. destruct (GovernedCommand.script_sha256 s) as [h|] eqn:Eh.
  - apply ok_bind, ok_os, ok_bind. look (stat_script ws (script_path ws (script_of s))). intros v.
    apply ok_bind, ok_demand_g. intros Hv. apply ok_bind. look (read_file (script_path ws (script_of s))). intros b.
    apply ok_ret, ok_demand_g. intros Hb. apply HΦ; cbn -[file_text script_path sha256_hex String.eqb]; try done.
    + unfold script_trusted. rewrite Eh. cbn -[file_text script_path sha256_hex String.eqb]. rewrite !String.eqb_refl, Hb, orb_true_r, andb_true_r. exact Hv.
    + by destruct (gateway_pinned g).
    + by destruct (policy_pinned g).
  - apply ok_ret, HΦ; [unfold script_trusted; by rewrite Eh|by destruct (gateway_pinned g)|by destruct (policy_pinned g)|done..].
Qed.

(** From the states and the log to the verdict. *)
Lemma ok_readback before after policy g (Φ : unit → Seen → Prop) :
  (∀ tail event root g', log_tail g' = Some tail → before_run g' = before_run g → after_run g' = after_run g → ran g' = ran g →
     first_event (is_run (Registry.session_id r) (Registry.correlation_id r)) (tail_lines tail) event →
     succeeded s event = true → records s root before after event = true → Φ tt g') →
  safe (readback r s before after policy) g (on_ok Φ).
Proof.
  intros HΦ. unfold readback. apply ok_bind. look (state_dir policy). intros dir. apply ok_bind, ok_os.
  look (read_tail (events_log dir)). intros tail. apply ok_bind, ok_of_res. intros event Hevent%find_run_first.
  apply ok_bind. destruct (succeeded s event) eqn:Es; [|by apply ok_demand_g].
  apply ok_bind. look (norm (JStr ws)). intros root. apply ok_demand_g. intros Hrec.
  apply ok_bind, ok_of_res. intros parsed _. apply ok_bind. look utcnow. intros now.
  apply ok_bind, ok_of_res. intros at_utc _. apply ok_demand_g. intros _. by apply (HΦ tail event root).
Qed.
Lemma as_dict_ok state v : as_dict state = Ok v → state = Some v.
Proof. destruct state; cbn; congruence. Qed.
Lemma text_of_item k v t x : item k v = Ok x → is_text x t = true → text_is k t v = true.
Proof.
  unfold item, text_is, member, value_of. destruct v; try done. by destruct (lookup_key k members) as [y|]; [intros [= ->]|].
Qed.
Lemma same_text x y t : is_text x t = true → py_eqb x y = is_text y t.
Proof. intros ->%is_text_true. unfold is_text. destruct y; try done. cbn. apply String.eqb_sym. Qed.

(** What the calls of an invocation leave known. *)
Lemma next_path g p : policy_read g = Some p → gnext g (assert_allowed_path ws p) (Ok tt) = g <| path_admitted := true |>.
Proof. intros Hp. cbn. by rewrite Hp, String.eqb_refl, bool_decide_eq_true_2. Qed.
Lemma next_session g p v :
  policy_read g = Some p →
  gnext g (enforce_session p (Registry.session_id r) ws (GovernedCommand.risk s)) (Ok v) = g <| session_admitted := true |>.
Proof. intros Hp. cbn. by rewrite Hp, !String.eqb_refl, Z.eqb_refl, bool_decide_eq_true_2. Qed.
Lemma next_before g p v : ran g = None → gnext g (git_state ws p) (Ok (Some v)) = g <| before_run := Some v |>.
Proof. intros Hr. cbn. by rewrite Hr, String.eqb_refl. Qed.
Lemma next_after g p v : is_Some (ran g) → gnext g (git_state ws p) (Ok (Some v)) = g <| after_run := Some v |>.
Proof. intros [x Hr]. cbn. by rewrite Hr, String.eqb_refl. Qed.
Lemma next_admitted g p :
  policy_read g = Some p →
  gnext g (validate_command (GovernedCommand.argv s) (GovernedCommand.risk s) p) (Ok tt) = g <| command_admitted := true |>.
Proof. intros Hp. cbn. by rewrite Hp, Z.eqb_refl, !bool_decide_eq_true_2. Qed.

Lemma ok_invoke_governed policy g :
  gateway_pinned g = true → policy_pinned g = true → policy_read g = Some policy → protected_policy policy = Ok tt →
  script_trusted g = true → ran g = None → safe (invoke_governed r s policy) g (on_ok verified_run).
Proof.
  intros Hg Hp Hr Hprot Hs Hran. unfold invoke_governed.
  apply ok_bind, (ok_gateway (assert_allowed_path ws policy)); [by apply looks_allowed|]. intros []. rewrite next_path by done.
  apply ok_bind, (ok_gateway (enforce_session policy _ ws _)); [by apply looks_allowed|]. intros reservation. rewrite next_session by done.
  apply ok_bind, (ok_gateway (git_state ws policy)); [by apply looks_allowed|]. intros state.
  apply ok_bind, ok_of_res. intros before ->%as_dict_ok. rewrite next_before by done.
  apply ok_bind, ok_of_res. intros head Hhead. apply ok_bind, ok_demand_g. intros Htext.
  pose proof (text_of_item _ _ _ _ Hhead Htext) as Hb.
  apply ok_bind, (ok_gateway (validate_command _ _ policy)); [by apply looks_allowed|]. intros []. rewrite next_admitted by done.
  set (g1 := g <| path_admitted := _ |> <| session_admitted := _ |> <| before_run := _ |> <| command_admitted := _ |>).
  assert (may_execute g1 (execution_of r s policy) = true) as Hmay.
  { unfold may_execute, g1. cbn -[protected_policy script_trusted text_is]. rewrite Hr, Hprot, Hran, Hg, Hp.
    cbn -[protected_policy script_trusted text_is]. rewrite !bool_decide_eq_true_2, !Z.eqb_refl, !String.eqb_refl, !eqb_reflx by done.
    match goal with |- context [script_trusted ?h] => change (script_trusted h) with (script_trusted g) end. by rewrite Hs, Hb. }
  apply ok_bind, (ok_gateway (execute _)); [unfold gallowed; by rewrite Hrole|].
  intros result. apply ok_bind, ok_demand_g. intros Hres.
  apply ok_bind, (ok_gateway (git_state ws policy)); [by apply looks_allowed|]. intros observed.
  apply ok_bind, ok_of_res. intros after ->%as_dict_ok.
  rewrite (next_after _ policy after) by done.
  apply ok_bind, ok_of_res. intros head' Hhead'. apply ok_bind, ok_demand_g. intros Hmove%eqb_prop.
  apply ok_bind, ok_readback. intros tail event root g' Ht Hbefore Hafter Hran' Hfirst Hsucc Hrec.
  apply ok_ret. exists before, after, head', result, tail, event, root. repeat split; try done.
  rewrite <-Hmove, negb_involutive. symmetry. by apply same_text.
Qed.
Lemma ok_invoke : safe (invoke r s role) nothing_seen (on_ok verified_run).
Proof.
  unfold invoke. apply ok_bind, ok_demand_g. intros _. apply ok_bind, ok_of_res. intros [] _.
  apply ok_bind, ok_trusted_policy. intros policy g H1 H2 H3 H4 H5.
  apply ok_bind, ok_verify_script. intros g' S1 S2 S3 S4 S5. rewrite H1 in S2. rewrite H2 in S3. cbn in S2, S3, H5.
  apply ok_governed, ok_invoke_governed; try done; congruence.
Qed.
End Governed.

(** C40: whatever the files and the Gateway answer, a command of the registry
    does nothing for another role; it runs the Gateway's executor at most once,
    with exactly its fixed arguments, risk, time limit and permissions, the
    attested head and the session, and only after the Gateway and the protected
    policy were read with their pinned digests, its script, if any, was found
    below the workspace with its pinned digest, the Gateway admitted the path,
    the session and the command, and the head was the attested one.  It returns
    only a run that ended with zero, that moved the head exactly if the command
    may, and that the last run of the session in the log records, between the
    very states that were seen. *)
Theorem command_is_governed {bytes : JsonBytes} (r : Registry.t) (s : Spec) (role : string)
    (t : list (event (answer:=ganswer))) (x : res json) (Hruns : runs (invoke r s role) t x) :
  accepts (gallowed r s role) (gnext r s) nothing_seen t = true ∧
  ∀ v, x = Ok v → GovernedCommand.role s = role ∧ verified_run r s v (reached (gnext r s) nothing_seen t).
Proof.
  destruct (String.eqb (GovernedCommand.role s) role) eqn:Hrole.
  - destruct (safe_runs _ _ _ _ _ _ _ (ok_invoke r s role Hrole) Hruns) as [Ha HQ]. split; [done|].
    intros v ->. split; [by apply String.eqb_eq|exact HQ].
  - unfold invoke in Hruns. rewrite Hrole in Hruns. apply (runs_inv (Throw _)) in Hruns as [-> ->]. done.
Qed.

(** ** What an attestation is evidence of *)

Section Attested.
Context {bytes : JsonBytes}.

Lemma runs_gateway (o : gop) t v : runs (call (answer:=ganswer) o) t (Ok v) → t = [ev o (Ok v)].
Proof.
  intros H. apply runs_inv in H as (x & t' & -> & H). apply runs_of_res in H as [-> ->]. done.
Qed.
Lemma runs_require_g c code t u : runs (require_g c code) t (Ok u) → t = [] ∧ c = true.
Proof. intros [-> H]%runs_ok_res. split; [done|]. by destruct c. Qed.
Lemma runs_governed {A} code (m : G A) t v : runs (governed code m) t (Ok v) → runs m t (Ok v).
Proof. apply runs_catch_ok. Qed.
Lemma runs_os {A} code (m : G A) t v : runs (os_failure code m) t (Ok v) → runs m t (Ok v).
Proof. apply runs_catch_ok. Qed.
Lemma runs_file_digest path t d :
  runs (file_digest path) t (Ok d) → ∃ b, d = sha256_hex b ∧ ev (read_file path) (Ok b) ∈ t.
Proof.
  intros H. apply runs_ok_bind in H as (st & t1 & t2 & _ & H & ->). apply runs_ok_bind in H as ([] & t3 & t4 & _ & H & ->).
  apply runs_ok_bind in H as (b & t5 & t6 & ->%runs_os%(runs_gateway (read_file path)) & H & ->). apply runs_inv in H as [-> [= ->]].
  exists b. split; [done|]. rewrite !elem_of_app. right; right; left; left.
Qed.
Lemma find_inspection_first session correlation root state now window not_before lines :
  find_inspection session correlation root state now window not_before lines = Ok tt →
  ∃ event at_utc, first_event (of_session session correlation) lines event ∧ inspected root state event = true ∧
    timestamp (member "timestamp" event) now window = Ok at_utc ∧ not_before <= at_utc.
Proof.
  induction lines as [|line lines IH]; cbn [find_inspection]; [done|]. intros H.
  apply res_bind_ok in H as (e & [Hl Hd]%event_of_ok & H). destruct (of_session session correlation e) eqn:Es.
  - apply res_bind_ok in H as ([] & Hi%need_passed & H). apply res_bind_ok in H as (at_utc & Ht & Hn%need_passed%Z.leb_le).
    exists e, at_utc. split; [by apply first_event_here|done].
  - destruct (IH H) as (event & at_utc & Hf & Hrest). exists event, at_utc. split; [by eapply first_event_cons|done].
Qed.
Lemma runs_inspect_event log session correlation root state now window not_before t :
  runs (inspect_event log session correlation root state now window not_before) t (Ok tt) →
  ∃ tail event at_utc, ev (read_tail log) (Ok tail) ∈ t ∧
    first_event (of_session session correlation) (tail_lines tail) event ∧ inspected root state event = true ∧
    timestamp (member "timestamp" event) now window = Ok at_utc ∧ not_before <= at_utc.
Proof.
  intros H. apply runs_ok_bind in H as (st & t1 & t2 & _ & H & ->). apply runs_ok_bind in H as ([] & t3 & t4 & _ & H & ->).
  apply runs_ok_bind in H as (tail & t5 & t6 & ->%runs_os%(runs_gateway (read_tail log)) & H & ->). apply runs_ok_res in H as [-> H].
  apply find_inspection_first in H as (event & at_utc & H). exists tail, event, at_utc. split; [|done].
  rewrite !elem_of_app. right; right; left; left.
Qed.

(** The Gateway vouches for the session: it admitted it for risk 2, its
    reservation and its snapshot name this session, this workspace, the pinned
    authority and the base; the state is clean at the head and is the one of the
    snapshot; and the last event of the session in the log is an inspection of
    that state, after the snapshot and within the window. *)
Definition vouched (a : Authority.t) (workspace session correlation head : string) (max_age : Z)
    (t : list (event (answer:=ganswer))) : Prop :=
  ∃ policy reservation snapshot state root host now issued dir tail event at_utc,
    ev (load_policy (Authority.policy_path a)) (Ok policy) ∈ t ∧ protected_policy policy = Ok tt ∧
    ev (assert_allowed_path workspace policy) (Ok tt) ∈ t ∧
    ev (enforce_session policy session workspace 2) (Ok reservation) ∈ t ∧
    ev (validate_session_snapshot policy session reservation) (Ok snapshot) ∈ t ∧
    ev (git_state workspace policy) (Ok (Some state)) ∈ t ∧ ev (norm (JStr workspace)) (Ok root) ∈ t ∧
    session_named session correlation root root reservation snapshot = true ∧
    session_pinned a head host policy reservation snapshot = true ∧ attested_state head snapshot state = true ∧
    ev utcnow (Ok now) ∈ t ∧ timestamp (member "timestamp" snapshot) now max_age = Ok issued ∧
    ev (read_tail (events_log dir)) (Ok tail) ∈ t ∧
    first_event (of_session session correlation) (tail_lines tail) event ∧ inspected root state event = true ∧
    timestamp (member "timestamp" event) now max_age = Ok at_utc ∧ issued <= at_utc.

Lemma session_named_root session correlation root reserved reservation snapshot :
  session_named session correlation root reserved reservation snapshot = true → reserved = root.
Proof. unfold session_named. destruct (String.eqb_spec reserved root); [done|]. by rewrite !andb_false_l. Qed.
Lemma attested_some head snapshot live :
  attested_state head snapshot (match live with Some s => s | None => JObj [] end) = true → ∃ state, live = Some state.
Proof. destruct live as [state|]; [by exists state|]. unfold attested_state. by rewrite andb_false_l. Qed.
Ltac into := rewrite ?elem_of_app, ?list_elem_of_singleton; tauto.

Lemma runs_attest_session a workspace session correlation head max_age t :
  runs (attest_session a workspace session correlation head max_age) t (Ok tt) → vouched a workspace session correlation head max_age t.
Proof.
  intros H. unfold attest_session in H.
  apply runs_ok_bind in H as (policy & t1 & u1 & ->%(runs_gateway (load_policy _)) & H & ->).
  apply runs_ok_bind in H as ([] & t2 & u2 & [-> Hprot]%runs_ok_res & H & ->).
  apply runs_ok_bind in H as ([] & t3 & u3 & ->%(runs_gateway (assert_allowed_path _ _)) & H & ->).
  apply runs_ok_bind in H as (reservation & t4 & u4 & ->%(runs_gateway (enforce_session _ _ _ _)) & H & ->).
  apply runs_ok_bind in H as (snapshot & t5 & u5 & ->%(runs_gateway (validate_session_snapshot _ _ _)) & H & ->).
  apply runs_ok_bind in H as (live & t6 & u6 & ->%(runs_gateway (git_state _ _)) & H & ->).
  apply runs_ok_bind in H as (root & t7 & u7 & ->%(runs_gateway (norm _)) & H & ->).
  apply runs_ok_bind in H as (worktree & t8 & u8 & [-> _]%runs_ok_res & H & ->).
  apply runs_ok_bind in H as (reserved & t9 & u9 & ->%(runs_gateway (norm _)) & H & ->).
  apply runs_ok_bind in H as ([] & t10 & u10 & Hsession & H & ->).
  destruct (session_named session correlation root reserved reservation snapshot) eqn:Hn; [|by apply runs_require_g in Hsession as [_ [=]]].
  apply runs_ok_bind in Hsession as (host & t11 & u11 & _ & [_ Hpin]%runs_require_g & ->).
  pose proof (session_named_root _ _ _ _ _ _ Hn) as ->.
  apply runs_ok_bind in H as ([] & t12 & u12 & [-> Hstate]%runs_require_g & H & ->).
  destruct (attested_some _ _ _ Hstate) as (state & ->).
  apply runs_ok_bind in H as (now & t13 & u13 & ->%(runs_gateway (utcnow)) & H & ->).
  apply runs_ok_bind in H as (issued & t14 & u14 & [-> Hissued]%runs_ok_res & H & ->).
  apply runs_ok_bind in H as (dir & t15 & u15 & _ & H & ->).
  apply runs_inspect_event in H as (tail & event & at_utc & Htail & Hfirst & Hin & Htime & Hle).
  exists policy, reservation, snapshot, state, root, host, now, issued, dir, tail, event, at_utc.
  repeat split; try done; into.
Qed.
Lemma vouched_mono a workspace session correlation head max_age (t u : list (event (answer:=ganswer))) :
  (∀ e, e ∈ t → e ∈ u) → vouched a workspace session correlation head max_age t →
  vouched a workspace session correlation head max_age u.
Proof.
  intros Htu (policy & reservation & snapshot & state & root & host & now & issued & dir & tail & event & at_utc & H1 & H2 & H3 &
    H4 & H5 & H6 & H7 & H8 & H9 & H10 & H11 & H12 & H13 & H14).
  exists policy, reservation, snapshot, state, root, host, now, issued, dir, tail, event, at_utc. repeat split; try apply Htu; done || apply H14.
Qed.

(** No call runs a command. *)
Definition looks_only (u : unit) (o : gop) : bool := match o with execute _ => false | _ => true end.
Definition looking {A} (m : G A) : Prop := Prog.safe looks_only (fun u _ _ => u) m tt (fun _ _ => True).
Lemma looking_bind {A B} (m : G A) (f : A → G B) : looking m → (∀ v, looking (f v)) → looking (x ← m; f x).
Proof. intros Hm Hf. apply safe_bind. eapply safe_mono; [exact Hm|]. intros [v|e] [] _; [apply Hf|done]. Qed.
Lemma looking_call o : looks_only tt o = true → looking (call o).
Proof. intros H. split; [done|]. intros [v|e]; exact I. Qed.
Lemma looking_res {A} (x : res A) : looking (of_res x).
Proof. by destruct x. Qed.
Lemma looking_handler {A} (m : G A) (h : exn → exn) : looking m → looking (catch m (fun e => throw (h e))).
Proof. intros Hm. apply safe_catch. eapply safe_mono; [exact Hm|]. by intros [v|e] [] _. Qed.
Lemma looking_ret {A} (v : A) : looking (mret v : G A).
Proof. exact I. Qed.
Ltac looks := repeat first
  [ apply looking_handler | apply looking_bind; intros | apply looking_res | apply looking_ret | (apply looking_call; reflexivity) | case_match ].
Lemma attest_looks a workspace session correlation head max_age :
  looking (attest_execution_boundary a workspace session correlation head max_age).
Proof.
  unfold attest_execution_boundary, attest_session, inspect_event, file_digest, governed, os_failure, require_g. looks.
Qed.
End Attested.

(** An attestation runs no command; and a boundary that it returns is the
    one asked for, after the Gateway's and the policy's files were read with
    their pinned digests, and vouched for by the Gateway. *)
Theorem attestation_is_evidence {bytes : JsonBytes} (a : Authority.t) (workspace session correlation head : string) (max_age : Z)
    (t : list (event (answer:=ganswer))) (x : res ExecutionBoundary.t)
    (Hruns : runs (attest_execution_boundary a workspace session correlation head max_age) t x) :
  accepts looks_only (fun u _ _ => u) tt t = true ∧
  ∀ b, x = Ok b →
    b = ExecutionBoundary.mk session correlation head true true ∧ validate_boundary b = Ok tt ∧
    (∃ bytes1 bytes2, ev (read_file (file_text a)) (Ok bytes1) ∈ t ∧ sha256_hex bytes1 = Authority.gateway_sha256 a ∧
       ev (read_file (Authority.policy_path a)) (Ok bytes2) ∈ t ∧ sha256_hex bytes2 = Authority.policy_sha256 a) ∧
    vouched a workspace session correlation head max_age t.
Proof.
  split; [exact (proj1 (safe_runs _ _ _ _ _ _ _ (attest_looks a workspace session correlation head max_age) Hruns))|].
  intros b ->. rename Hruns into H. unfold attest_execution_boundary in H.
  do 4 (apply runs_ok_bind in H as ([] & ? & ? & [-> _]%runs_require_g & H & ->)).
  apply runs_ok_bind in H as (w & t1 & u1 & _ & H & ->). apply runs_ok_bind in H as ([] & ? & ? & [-> _]%runs_require_g & H & ->).
  apply runs_ok_bind in H as (gateway & t2 & u2 & (b1 & -> & H1)%runs_file_digest & H & ->).
  apply runs_ok_bind in H as ([] & t3 & u3 & Hp & H & ->).
  destruct (String.eqb_spec (sha256_hex b1) (Authority.gateway_sha256 a)) as [E1|]; [|by apply runs_require_g in Hp as [_ [=]]].
  apply runs_ok_bind in Hp as (policy & t4 & u4 & (b2 & -> & H2)%runs_file_digest & [-> E2%String.eqb_eq]%runs_require_g & ->).
  apply runs_ok_bind in H as ([] & t5 & u5 & Hv%runs_governed%runs_attest_session & H & ->).
  apply runs_ok_bind in H as ([] & t6 & u6 & [-> Hb]%runs_ok_res & H & ->). apply runs_inv in H as [-> [= ->]].
  split; [done|]. split; [done|]. split.
  - exists b1, b2. rewrite !elem_of_app. tauto.
  - eapply vouched_mono; [|exact Hv]. intros e. rewrite !elem_of_app. tauto.
Qed.

(** ** What a validator may run *)

(** A command of a validator that passes the contract changes neither the index
    nor the head: it is a script with a pinned digest, or the status of git. *)
Theorem validator_commands_are_inert (s : Spec) (d : AdapterDescriptor.t)
    (Hvalid : validate_spec s d = Ok tt) (Hrole : GovernedCommand.role s = "validator") :
  GovernedCommand.risk s = 1 ∧ GovernedCommand.allow_head_change s = false ∧
  ((∃ program script digest, GovernedCommand.argv s = [program; script] ∧ program ∈ ["python"; "python3"] ∧
      GovernedCommand.script_sha256 s = Some digest ∧ fullmatch SHA256_HEX digest = true ∧ relative_script script = true) ∨
   GovernedCommand.argv s = ["git"; "status"; "--porcelain"]).
Proof.
  unfold validate_spec in Hvalid. apply res_bind_ok in Hvalid as (u & _ & H). clear u.
  apply res_bind_ok in H as ([] & _ & H). apply res_bind_ok in H as ([] & Hrisk%need_passed & H).
  rewrite Hrole in Hrisk. cbn [negb orb String.eqb Ascii.eqb Bool.eqb] in Hrisk. apply andb_prop in Hrisk as [_ Hrisk%Z.eqb_eq].
  split; [done|]. assert (is_builder s = false) as Hb by (unfold is_builder; by rewrite Hrole).
  destruct (GovernedCommand.argv s) as [|program args] eqn:Eargv; [done|].
  apply res_bind_ok in H as ([] & H & Hmove%need_passed). case_bool_decide as Hprog.
  - apply res_bind_ok in H as ([] & [[Hargs Hsha]%andb_prop Hh]%need_passed%andb_prop & Hpath%need_passed).
    apply negb_true_iff in Hh. split; [done|]. left. destruct args as [|script [|]]; try done.
    destruct (GovernedCommand.script_sha256 s) as [h|]; [|done]. by exists program, script, h.
  - destruct (String.eqb_spec program "git") as [->|]; [|done].
    apply res_bind_ok in H as ([] & _ & H%need_passed). unfold git_contract in H. rewrite Hb in H. cbn [andb] in H.
    repeat case_match; try done. subst. apply andb_prop in H as [_ H%negb_true_iff]. split; [done|]. by right.
Qed.

(** ** A concrete session

    A commit by a builder in an attested session: the Gateway admits it, runs
    it and records it. *)

Definition g_base : string := "1111111111111111111111111111111111111111".
Definition g_new : string := "2222222222222222222222222222222222222222".
Definition g_stamp : string := "2024-05-01T10:00:00+00:00".
Definition g_now : datetime := match fromisoformat g_stamp with Ok d => instant d | Raise _ => 0 end.
Definition g_policy : json :=
  JObj [("require_session_bootstrap", JBool true); ("require_preflight_snapshot", JBool true);
        ("risk2_requires_clean_tree", JBool true); ("rules_version", JInt 3)].
Definition g_authority : Authority.t :=
  Authority.mk true (Some "/rules/command_gateway.py") "/rules/policy.json" (sha256_hex "gateway") (sha256_hex "policy").
Definition g_state (head : string) : json := JObj [("head", JStr head); ("status_count", JInt 0)].
Definition g_reservation : json :=
  JObj [("reserved_worktree", JStr "/work"); ("status", JStr "materialized"); ("base_head", JStr g_base)].
Definition g_snapshot : json :=
  JObj [("result", JStr "BOOTSTRAP_OK"); ("state_validated", JBool true); ("session_id", JStr "session-1");
        ("correlation_id", JStr "correlation-1"); ("reservation_status", JStr "materialized"); ("target_path", JStr "/work");
        ("host", JStr "host"); ("gateway_sha256", JStr (sha256_hex "gateway")); ("policy_sha256", JStr (sha256_hex "policy"));
        ("rules_version", JInt 3); ("base_matches_reservation", JBool true); ("target_state", g_state g_base);
        ("timestamp", JStr g_stamp)].
Definition g_inspection : json :=
  JObj [("session_id", JStr "session-1"); ("correlation_id", JStr "correlation-1"); ("action", JStr "inspect");
        ("result", JStr "ok"); ("risk", JInt 1); ("cwd", JStr "/work"); ("before", g_state g_base); ("timestamp", JStr g_stamp)].
Definition g_commit : Spec :=
  GovernedCommand.mk "ci.commit" "builder" ["git"; "commit"; "-m"; "fix"] 2 30 true true None.
Definition g_run : json :=
  JObj [("session_id", JStr "session-1"); ("correlation_id", JStr "correlation-1"); ("action", JStr "run"); ("result", JStr "ok");
        ("gateway_exit_code", JInt 0); ("command_exit_code", JInt 0); ("risk", JInt 2); ("cwd", JStr "/work");
        ("command", JList (map JStr (GovernedCommand.argv g_commit))); ("before", g_state g_base); ("after", g_state g_new);
        ("timestamp", JStr g_stamp)].
#[local] Instance g_bytes : JsonBytes := {|
  json_loads_bytes s :=
    match List.find (fun v => String.eqb s (json_dumps v)) [g_inspection; g_run] with Some v => Ok v | None => Raise (ValueError "json") end |}.
(** The Gateway's state: whether the command ran. *)
Definition g_world (o : gop) (e : bool) : res (ganswer o) * bool :=
  match o return res (ganswer o) * bool with
  | stat_file _ => (Ok (true, false), e)
  | read_file path => (Ok (if String.eqb path "/rules/policy.json" then "policy" else "gateway"), e)
  | stat_workspace _ | stat_script _ _ => (Ok (true, false, true), e)
  | read_tail _ =>
      let text := concat_text (map (fun v => String.append (json_dumps v) newline) (if e then [g_inspection; g_run] else [g_inspection])) in
      (Ok (length_of text, text), e)
  | utcnow => (Ok g_now, e)
  | hostname => (Ok "host", e)
  | load_policy _ => (Ok g_policy, e)
  | assert_allowed_path _ _ | validate_command _ _ _ => (Ok tt, e)
  | enforce_session _ _ _ _ => (Ok g_reservation, e)
  | validate_session_snapshot _ _ _ => (Ok g_snapshot, e)
  | git_state _ _ => (Ok (Some (g_state (if e then g_new else g_base))), e)
  | norm _ => (Ok "/work", e)
  | state_dir _ => (Ok "/state", e)
  | execute _ => (Ok (JInt 0), true)
  end.
Definition g_boundary : ExecutionBoundary.t := ExecutionBoundary.mk "session-1" "correlation-1" g_base true true.
Definition g_registry : Registry.t :=
  Registry.mk g_authority "/work" "session-1" "correlation-1" [("ci.commit", g_commit)] g_boundary.
Example registry_is_made :
  (Prog.execute g_world (new_registry g_authority "/work" "session-1" "correlation-1" g_base [("ci.commit", g_commit)]) false).2.1 =
  Ok g_registry.
Proof. vm_compute. reflexivity. Qed.
Definition g_attested := Prog.execute g_world (attest_execution_boundary g_authority "/work" "session-1" "correlation-1" g_base 300) false.
Definition g_invoked := Prog.execute g_world (invoke g_registry g_commit "builder") false.
Lemma attestation_is_evidence_witness :
  g_attested.2.1 = Ok g_boundary ∧ accepts looks_only (fun u _ _ => u) tt g_attested.1 = true ∧
  ∀ b, g_attested.2.1 = Ok b →
    b = ExecutionBoundary.mk "session-1" "correlation-1" g_base true true ∧ validate_boundary b = Ok tt ∧
    (∃ bytes1 bytes2, ev (read_file (file_text g_authority)) (Ok bytes1) ∈ g_attested.1 ∧
       sha256_hex bytes1 = Authority.gateway_sha256 g_authority ∧
       ev (read_file (Authority.policy_path g_authority)) (Ok bytes2) ∈ g_attested.1 ∧
       sha256_hex bytes2 = Authority.policy_sha256 g_authority) ∧
    vouched g_authority "/work" "session-1" "correlation-1" g_base 300 g_attested.1.
Proof.
  split; [vm_compute; reflexivity|]. unfold g_attested.
  exact (attestation_is_evidence g_authority "/work" "session-1" "correlation-1" g_base 300 _ _ (execute_runs g_world _ false)).
Defined.
Lemma command_is_governed_witness :
  g_invoked.2.1 = Ok (JObj [("result", JStr "GOVERNED_COMMAND_VERIFIED"); ("head", JStr g_new)]) ∧
  accepts (gallowed g_registry g_commit "builder") (gnext g_registry g_commit) nothing_seen g_invoked.1 = true ∧
  ∀ v, g_invoked.2.1 = Ok v → GovernedCommand.role g_commit = "builder" ∧
    verified_run g_registry g_commit v (reached (gnext g_registry g_commit) nothing_seen g_invoked.1).
Proof.
  split; [vm_compute; reflexivity|]. unfold g_invoked.
  exact (command_is_governed g_registry g_commit "builder" _ _ (execute_runs g_world _ false)).
Defined.
Definition g_script : Spec :=
  GovernedCommand.mk "ci.validate" "validator" ["python"; "scripts/ci_validate.py"] 1 30 false false (Some (sha256_hex "")).
Definition g_descriptor : AdapterDescriptor.t :=
  AdapterDescriptor.mk "ci.native" ["src/f.py"] ["ci.commit"] ["ci.validate"] ["builder"; "validator"].
Lemma validator_commands_are_inert_witness :
  validate_spec g_script g_descriptor = Ok tt ∧ GovernedCommand.risk g_script = 1 ∧ GovernedCommand.allow_head_change g_script = false.
Proof.
  split; [vm_compute; reflexivity|].
  destruct (validator_commands_are_inert g_script g_descriptor) as (H1 & H2 & _); [vm_compute; reflexivity|reflexivity|]. by split.
Defined.
